(* ===== verification/_CoqProject ===== *)
-Q . S2P
Prelude.v
KState.v
Spinlock.v
RRQueue.v
Lottery.v
CString.v
Proc.v
ProcForms.v
ProcInv.v
KMachine.v
ProcSpec.v
ProcLife.v
Syscall.v
Trap.v
LockOrder.v
KExt.v
Pic.v
Kalloc.v
Pipe.v
KRun.v
Ide.v
Bio.v
Log.v
Cprintf.v
Vm.v
VmSpec.v
Fs.v
FsSpec.v
DirSpec.v
File.v
Exec.v
Sysfile.v
Console.v
ConsoleSpec.v
Apic.v
Kernel.v
Bootmain.v
Asm.v
Start.v
User.v
Grep.v
Progs.v
Sh.v
ShSpec.v
ShParse.v
ShRun.v
Umalloc.v
Mkfs.v
MkfsSpec.v
Unix.v
Usertests.v
UnixSpec.v
