(* ===== verification/Prelude.v ===== *)
(** * A verification development for the xv6-derived kernel of this repository

    The repository is a small Unix kernel for the PC, derived from xv6, with
    lottery schedulers and signals added, its user library, and its programs.
    This library models the code of all of them, C and assembly, routine by routine
    and proves what makes each part correct.

    ** The program's parts and their models

    The parts of the kernel form layers; a file requires the files of the layers
    it calls.

    - [Prelude] (this file): C's integers at their width, the monad the routines
      are written in, and facts on lists and integers.
    - [KState]: the data of the kernel core (spinlock.h, proc.h, mmu.h): locks,
      processors, the process table, the run queue's links, trap frames.
    - [Spinlock]: spinlock.c; also a machine that interleaves the atomic parts of
      [acquire] and [release] on all processors.
    - [RRQueue], [Lottery], [Proc]: proc.c.  [RRQueue] has the doubly linked run
      queue, [Lottery] the tickets and the random numbers, [Proc] everything else.
      [ProcForms] gives the state each routine computes, [ProcInv] the scheduling
      invariant, [KMachine] the machine whose steps are runs of the routines on any
      processor; [ProcSpec] and [ProcLife] state what the routines do.
    - [CString]: string.c and the byte routines of ulib.c.
    - [Syscall]: syscall.c and sysproc.c.  [Trap]: trap.c, with the clock tick and
      the delivery of signals.  [LockOrder]: the order in which two processors take
      the clock's and the process table's lock.
    - [KExt]: the data of all other components, as one record the core carries.
    - [Kalloc]: kalloc.c.  [Vm], [VmSpec]: vm.c.  [Pipe]: pipe.c.
    - [Ide]: ide.c and memide.c.  [Bio]: bio.c.  [Log]: log.c.  [Fs], [FsSpec],
      [DirSpec]: fs.c, with theorems on files and on directories.  [File]: file.c.  [Exec]: exec.c.  [Sysfile]: sysfile.c.
    - [Cprintf]: the console's output (console.c, uart.c) and the user library's
      printf.c.  [Console], [ConsoleSpec]: the console's input, uart.c and kbd.c.
    - [Pic]: the port instructions, picirq.c, timer.c and the register accesses of
      ioapic.c.  [Apic]: lapic.c, the rest of ioapic.c and mp.c.
    - [Kernel]: the components as one kernel, and main.c.  [Bootmain]: bootmain.c,
      which loads it.
    - [Asm]: the registers and instructions of one processor, and in them swtch.S,
      trapasm.S, the entry points that vectors.pl generates, usys.S and initcode.S.
      [Start]: the same for bootasm.S, entry.S and entryother.S, with the control
      registers and the first page table; also asm.h and sign.pl.
    - [KRun]: a program logic for the components that run outside the process
      table's critical sections.

    Above the system calls are the programs:

    - [User]: the system calls of user.h as operations, programs as trees of them,
      and the parts of ulib.c and printf.c that make system calls.
    - [Umalloc]: umalloc.c.  [Grep]: grep.c.  [Progs]: the other programs, one
      module each (cat, wc, echo, ln, rm, mkdir, kill, zombie, init, ls).
    - [Sh]: sh.c.  [ShSpec] is the grammar of its command lines, [ShParse] relates
      the parser to it, [ShRun] the processes that are started.
    - [Mkfs], [MkfsSpec]: mkfs.c, which runs on another machine and builds the
      first disk.
    - [Usertests]: the programs that test the system (usertests.c, forktest.c,
      stressfs.c, sanity.c, test.c), one module each.
    - [Unix]: a specification of the system calls, without the kernel's data
      structures, as a machine whose processes are trees of calls.  [UnixSpec] runs
      the tests and the shell with its programs on it.

    ** How the code is modelled

    A routine is a Rocq function of the same name in the monad [M]: it takes the
    kernel state to a result with a new state ([Ret]), to a call of [panic]
    ([Panic]), to an access the hardware faults on ([Fault]), or to a point from
    which only someone else can go on ([Blocked]: a spin loop on a taken lock, the
    switch to another process, a power failure).  Guards, early returns and the
    order of calls are those of the code.  Integers are [Z] kept at their width by
    [u32], [s32], [u8] and [s8].  Pointers to array elements are indices; memory
    that the kernel addresses as bytes (page tables, user memory, the free list) is
    a map from addresses to bytes.  An assembly routine is the sequence of its
    instructions, each a function in [M] on registers and memory; the C function it
    calls is a parameter, of which the theorems assume that it returns as the calling
    convention says ([c_returns]).  In the C part the switch to another process is a parameter
    [swtch], as is what a routine needs of a component below it: the classes
    [Services], [UserMem] and [Devices] are implemented in [Kernel]; [Ports] (the
    port instructions) and the assembly and linker symbols stay parameters.
    Hypotheses on them are classes of their own ([PortsKeep], [SerialLine],
    [Keyboard]), which the examples instantiate.  The disk driver is seen through
    [DiskOk]: memide.c meets it, and so does any such driver whose power is cut at a
    point of one's choice.

    A user program is a function in the monad [U]: from the program's memory to a
    tree [prog] whose nodes are system calls, each with what the program does for
    every result, and whose leaves are the end of the routine, [exit], or [hang] for
    a loop out of rounds.  What the system answers is given by an instance of
    [System]; the theorems use [stdio] (scripted input, recorded output) and, for
    the shell, tables of open files.  The machine of [Unix] runs several such trees,
    with fork, exec and wait; it says what programs rely on, and is related to the
    kernel's routines by the reading of sysfile.c and sysproc.c, not by a theorem.
    In mkfs.c the host is a parameter: its byte
    order and what its files hold.

    Device registers are reached through [Ports], which also has the accesses to
    the memory-mapped registers of the APICs.  What a device does is a class of laws
    ([PicPorts], [IoApicOk], [ClockOk], and for the boot loader's drive [AtaDisk])
    taken from its documentation, and a concrete machine shows that the laws can be
    met.

    Loops take a bound where the recursion is not structural.  The bound is the
    largest number of rounds the code can make (pages of a range, blocks of a
    transfer, the length of a buffer, 32 digits, the free slots of a table), and the
    theorems on a routine show that it is not exhausted; running out is [Blocked], never a
    result.  Loops that wait for others, such as the one around [sleep], take the
    number of times they may wait; theorems about them either hold for any bound or
    concern the case in which there is no need to wait.

    ** What the theorems show

    - Processes: the scheduling invariant (run queue, processors, states and
      process identifiers agree) in every reachable state and for every
      interleaving, for any services that meet [ServicesOk], which the kernel's own
      do; no lost wakeup between [sleep] and [wakeup]; fork, wait, exit and kill on
      every branch; the lottery's tickets and draws; mutual exclusion of the locks.
    - Traps: the delivery of a signal and what returning from it restores, the
      preemption rule, the checks on system call arguments.  In [Asm]: a trap at any
      vector gives [trap] a frame of the interrupted registers and goes on with the
      frame's; a switch resumes what an earlier switch left; the stack of a new
      process leads to user mode; a stub of the user library passes number and
      arguments and returns the result.
    - Memory: the page allocator as a stack of pages, mapping of pages and copying
      into another address space, for any page directory that owns its tables.
    - Storage: the buffer cache as a map from blocks to contents, atomicity of a
      commit under a power failure at any moment, files as sequences of bytes,
      directories as lists of entries in which a name that was added is found, pipes
      as queues.
    - Console: the line discipline on a ring buffer, reading of lines, integer and
      format conversion.
    - Interrupts: exactly the lines that are enabled reach the processor, at the
      vectors [trap] dispatches on; [mpinit] finds the processors the firmware lists.
    - Programs: the shell's parser accepts exactly the lines of a grammar and builds
      the command they mean; the processes started for a line have the programs,
      arguments and open files the line asks for.  The allocator hands out memory
      nobody else has and keeps its free list in order.  The matcher of grep decides
      the language of its pattern; grep, cat and wc give the output they should.
    - Start: what mkfs.c is given is what the kernel's file system finds; bootmain.c
      puts every segment of the kernel's ELF file where it belongs; the boot sector, the
      kernel's entry and that of other processors leave the segments, the page table
      and the stack the C code expects.
    - Tests: those of usertests.c pass on the specification of the system calls, and a
      session with the shell shows what it should.
    - Where the code does not do what it is meant to, the theorem states what it
      does: [sigsend_loses_sleeper], [kill_zero_marks_next_child],
      [tick_alloc_deadlock], [handler_overwrites_trampoline], [sigreturn_restores],
      [argptr_negative_size], [allocuvm_unmapped], [ulib_memmove_spec],
      [grep_prints_stale_line], [malloc_shrinks], [mpinit_overrun],
      [mpinit_unknown_entry], [createdelete_leaves_files], and [pick_spec] for the
      ticket that is never drawn.

    ** What is not modelled

    The linker script, and the encoding of instructions as bytes but for the code of
    sigreturn.  In usertests.c the instructions of validateint, which
    call sleep with a stack pointer that may be wrong, are a parameter; a read of the
    kernel's memory by sbrktest is the end of the process.  The test sharedfd is
    modelled, but its evaluation is too long for the theorem on the tests.  The text
    of messages that are only printed by [trap] and [syscall].
    The processor of [Asm] translates no addresses: its memory is what the page table
    in force shows, and that of the C part is related to it only where a theorem says
    so ([mirrors]).  The programs of [User] make system calls by name, not through
    the stubs.
    Processors interleave at the granularity of critical sections, except in
    [Spinlock] and [LockOrder], where they interleave inside [acquire] and
    [release]; memory is sequentially consistent. *)

From stdpp Require Import base list gmap strings.
From Stdlib Require Import ZArith Lia.

#[global] Open Scope Z_scope.

(** ** Machine integers

    C's [uint], [int], [uchar] and [char] are integers [Z] kept at their
    width by the wrap functions below.  [int] arithmetic wraps as the kernel
    is compiled by gcc for the i386 (two's complement, arithmetic right
    shift). *)

Definition u32 (z : Z) : Z := z mod 2 ^ 32.
Definition s32 (z : Z) : Z := (z + 2 ^ 31) mod 2 ^ 32 - 2 ^ 31.
Definition u16 (z : Z) : Z := z mod 2 ^ 16.
Definition s16 (z : Z) : Z := (z + 2 ^ 15) mod 2 ^ 16 - 2 ^ 15.
Definition u8 (z : Z) : Z := z mod 2 ^ 8.
Definition s8 (z : Z) : Z := (z + 2 ^ 7) mod 2 ^ 8 - 2 ^ 7.

Definition is_u32 (z : Z) : Prop := 0 <= z < 2 ^ 32.
Definition is_s32 (z : Z) : Prop := - 2 ^ 31 <= z < 2 ^ 31.
Definition is_u8 (z : Z) : Prop := 0 <= z < 2 ^ 8.

(** ** Outcomes and the kernel monad

    A kernel routine maps a state to an outcome: it returns a value and a new
    state, it calls [panic], it performs an operation C leaves undefined
    ([Fault]: a null dereference, an access out of bounds), or it cannot
    continue until some other processor or process acts ([Blocked], with the
    state it waits in). *)

Inductive outcome (S A : Type) : Type :=
  | Ret (a : A) (s : S)
  | Panic (msg : string)
  | Fault (msg : string)
  | Blocked (s : S).
Arguments Ret {S A} a s.
Arguments Panic {S A} msg.
Arguments Fault {S A} msg.
Arguments Blocked {S A} s.

Definition M (S A : Type) : Type := S → outcome S A.

#[global] Instance M_ret (S : Type) : MRet (M S) := λ A a s, Ret a s.
#[global] Instance M_bind (S : Type) : MBind (M S) := λ A B k m s,
  match m s with
  | Ret a s' => k a s'
  | Panic msg => Panic msg
  | Fault msg => Fault msg
  | Blocked s' => Blocked s'
  end.

Definition panic {S A : Type} (msg : string) : M S A := λ _, Panic msg.
Definition fault {S A : Type} (msg : string) : M S A := λ _, Fault msg.
Definition block {S A : Type} : M S A := λ s, Blocked s.
Definition get {S : Type} : M S S := λ s, Ret s s.
Definition gets {S A : Type} (f : S → A) : M S A := λ s, Ret (f s) s.
Definition modify {S : Type} (f : S → S) : M S unit := λ s, Ret tt (f s).

(** [when b m] is C's [if(b) m;]. *)
Definition when {S : Type} (b : bool) (m : M S unit) : M S unit :=
  if b then m else mret tt.

(** A counted loop over the elements of a list. *)
Fixpoint for_each {S A : Type} (f : A → M S unit) (l : list A) : M S unit :=
  match l with
  | [] => mret tt
  | x :: l' => f x ;; for_each f l'
  end.

(** ** Program logic

    [wp m Q s]: from [s], [m] returns and [Q] holds of the value and state.
    [wlp m Q s]: from [s], [m] neither panics nor faults, and [Q] holds if it returns;
    it may also block.  Both are computed from the outcome, so they are
    proved by evaluation as well as by the rules below. *)

Definition wp {S A : Type} (m : M S A) (Q : A → S → Prop) (s : S) : Prop :=
  match m s with Ret a s' => Q a s' | _ => False end.

Definition wlp {S A : Type} (m : M S A) (Q : A → S → Prop) (s : S) : Prop :=
  match m s with
  | Ret a s' => Q a s'
  | Panic _ | Fault _ => False
  | Blocked _ => True
  end.

Section wp_rules.
Context {S A B : Type}.
Implicit Types (m : M S A) (k : A → M S B) (s : S).

Lemma wp_ret (a : A) (Q : A → S → Prop) s : wp (mret a) Q s ↔ Q a s.
Proof. done. Qed.

Lemma wp_bind m k (Q : B → S → Prop) s :
  wp (m ≫= k) Q s ↔ wp m (λ a, wp (k a) Q) s.
Proof. unfold wp, mbind, M_bind. by destruct (m s). Qed.

Lemma wlp_bind m k (Q : B → S → Prop) s :
  wlp (m ≫= k) Q s ↔ wlp m (λ a, wlp (k a) Q) s.
Proof. unfold wlp, mbind, M_bind. by destruct (m s). Qed.

Lemma wp_mono m (Q R : A → S → Prop) s :
  wp m Q s → (∀ a s', Q a s' → R a s') → wp m R s.
Proof. unfold wp. destruct (m s); naive_solver. Qed.

Lemma wlp_mono m (Q R : A → S → Prop) s :
  wlp m Q s → (∀ a s', Q a s' → R a s') → wlp m R s.
Proof. unfold wlp. destruct (m s); naive_solver. Qed.

Lemma wp_wlp m (Q : A → S → Prop) s : wp m Q s → wlp m Q s.
Proof. unfold wp, wlp. by destruct (m s). Qed.

Lemma wp_inv m (Q : A → S → Prop) s :
  wp m Q s → ∃ a s', m s = Ret a s' ∧ Q a s'.
Proof. unfold wp. destruct (m s); naive_solver. Qed.

Lemma bind_Ret m k a s s' : m s = Ret a s' → (m ≫= k) s = k a s'.
Proof. unfold mbind, M_bind. by intros ->. Qed.

Lemma bind_Ret_inv m k (b : B) s s'' :
  (m ≫= k) s = Ret b s'' → ∃ a s', m s = Ret a s' ∧ k a s' = Ret b s''.
Proof. unfold mbind, M_bind. destruct (m s); naive_solver. Qed.
End wp_rules.

Lemma bind_assoc {S A B C : Type} (m : M S A) (f : A → M S B) (g : B → M S C) s :
  ((m ≫= f) ≫= g) s = (m ≫= λ a, f a ≫= g) s.
Proof. unfold mbind, M_bind. by destruct (m s). Qed.

(** A loop preserves an invariant its body preserves. *)
Lemma wp_for_each {S A : Type} (f : A → M S unit) (I : S → Prop) l s :
  (∀ x s, x ∈ l → I s → wp (f x) (λ _, I) s) →
  I s → wp (for_each f l) (λ _, I) s.
Proof.
  revert s. induction l as [|x l IH]; intros s Hf HI; simpl; [done|].
  apply wp_bind. eapply wp_mono; [apply Hf; [left|done]|].
  intros ? s' HI'. apply IH; [|done]. intros y s'' Hy. apply Hf. by right.
Qed.

(** ** Arithmetic lemmas *)

Lemma u32_range z : 0 <= u32 z < 2 ^ 32.
Proof. unfold u32. apply Z.mod_pos_bound. lia. Qed.
Lemma u32_id z : 0 <= z < 2 ^ 32 → u32 z = z.
Proof. apply Z.mod_small. Qed.
Lemma s32_range z : - 2 ^ 31 <= s32 z < 2 ^ 31.
Proof. unfold s32. pose proof (Z.mod_pos_bound (z + 2 ^ 31) (2 ^ 32)). lia. Qed.
Lemma s32_id z : - 2 ^ 31 <= z < 2 ^ 31 → s32 z = z.
Proof. intros. unfold s32. rewrite Z.mod_small; lia. Qed.
Lemma u8_range z : 0 <= u8 z < 2 ^ 8.
Proof. unfold u8. apply Z.mod_pos_bound. lia. Qed.
Lemma u8_id z : 0 <= z < 2 ^ 8 → u8 z = z.
Proof. apply Z.mod_small. Qed.

Lemma s32_u32 z : s32 (u32 z) = s32 z.
Proof. unfold s32, u32. f_equal. by rewrite Zplus_mod_idemp_l. Qed.
Lemma u32_s32 z : u32 (s32 z) = u32 z.
Proof.
  unfold s32, u32. rewrite Zminus_mod_idemp_l. f_equal. lia.
Qed.

Lemma s32_add_l a b : s32 (s32 a + b) = s32 (a + b).
Proof.
  unfold s32. f_equal.
  replace ((a + 2 ^ 31) mod 2 ^ 32 - 2 ^ 31 + b + 2 ^ 31)
    with ((a + 2 ^ 31) mod 2 ^ 32 + b) by lia.
  rewrite Zplus_mod_idemp_l. f_equal. lia.
Qed.

Create HintDb xv6.
#[export] Hint Resolve u32_range s32_range u8_range : xv6.
Create Rewrite HintDb xv6_int.
#[export] Hint Rewrite s32_u32 u32_s32 : xv6_int.

(** ** Lists *)

Lemma list_filter_id {A} (P : A → Prop) `{!∀ x, Decision (P x)} (l : list A) :
  (∀ x, x ∈ l → P x) → filter P l = l.
Proof.
  induction l as [|x l IH]; intros HP; [done|].
  rewrite filter_cons, decide_True by (apply HP; left).
  f_equal. apply IH. intros y Hy. apply HP. by right.
Qed.

Lemma list_filter_ext {A} (P Q : A → Prop) `{!∀ x, Decision (P x), !∀ x, Decision (Q x)}
    (l : list A) :
  (∀ x, x ∈ l → P x ↔ Q x) → filter P l = filter Q l.
Proof.
  induction l as [|x l IH]; intros He; [done|]. rewrite !filter_cons.
  assert (P x ↔ Q x) as Hx by (apply He; left).
  rewrite IH by (intros y Hy; apply He; by right). repeat case_decide; naive_solver.
Qed.

(** The first element of a list that satisfies a test. *)
Lemma head_filter_Some {A} (P : A → Prop) `{!∀ x, Decision (P x)} (l : list A) i :
  head (filter P l) = Some i → i ∈ l ∧ P i.
Proof. intros Hi%head_Some_elem_of. by apply list_elem_of_filter in Hi as [? ?]. Qed.

Lemma head_filter_None {A} (P : A → Prop) `{!∀ x, Decision (P x)} (l : list A) :
  head (filter P l) = None → ∀ i, i ∈ l → ¬ P i.
Proof.
  intros Hi i Hl HP. assert (i ∈ filter P l) as He by (by apply list_elem_of_filter).
  destruct (filter P l); [by apply not_elem_of_nil in He|done].
Qed.

(** The characters of an array before its first zero. *)
Fixpoint until0 (l : list Z) : list Z :=
  match l with
  | [] => []
  | c :: l' => if decide (c = 0) then [] else c :: until0 l'
  end.

(** ** Tactics *)

(** Step through a chain of monadic binds whose parts compute. *)
Ltac mstep := unfold mbind, M_bind, mret, M_ret, gets, modify, get in *; simpl in *.

(** Case on the discriminee of the first [match] or [if] of the goal. *)
Ltac case_head :=
  match goal with
  | |- context [match ?x with _ => _ end] => destruct x eqn:?
  end.

Lemma for_each_app {S A} (f : A → M S unit) l1 l2 s :
  for_each f (l1 ++ l2) s = (for_each f l1 ;; for_each f l2) s.
Proof.
  revert s. induction l1 as [|a l1 IH]; intros s; [done|]. simpl. unfold mbind, M_bind in *.
  destruct (f a s) as [? s'| | |]; [apply IH|done..].
Qed.
