(* ===== verification/KState.v ===== *)
(** * Kernel state

    The data the kernel core works on: [struct spinlock] (spinlock.h),
    [struct trapframe] (x86.h), [struct context], [struct cpu],
    [struct proc] and [struct perf] (proc.h), and the globals of proc.c and
    trap.c as one record [core].

    Pointers into a fixed table are indices ([option nat], [None] for the null
    pointer); pointers to kernel memory are addresses.  The kernel objects
    reached through such addresses (trap frames, saved contexts, single stack
    words) are kept in typed memories indexed by address.  The last field of
    [core] holds the state of the rest of the kernel, whatever it is. *)

From stdpp Require Import base list gmap strings.
From Stdlib Require Import ZArith Lia.
From S2P Require Import Prelude.

(** ** Constants of param.h, proc.h, traps.h and mmu.h *)

Definition QUANTA : Z := 5.
Definition NPROC : nat := 64.
Definition KSTACKSIZE : Z := 4096.
Definition NOFILE : nat := 16.
Definition SIGNUM : nat := 32.
Definition EXE_TICKETS : Z := 10.
Definition FIFO_DIFFERECE : Z := 100.

Definition FL_IF : Z := 0x200.
Definition SEG_KCODE : Z := 1.
Definition SEG_KDATA : Z := 2.
Definition SEG_UCODE : Z := 4.
Definition SEG_UDATA : Z := 5.
Definition DPL_USER : Z := 3.
Definition PGSIZE : Z := 4096.

Definition T_IRQ0 : Z := 32.
Definition T_SYSCALL : Z := 64.
Definition IRQ_TIMER : Z := 0.
Definition IRQ_KBD : Z := 1.
Definition IRQ_COM1 : Z := 4.
Definition IRQ_IDE : Z := 14.
Definition IRQ_SPURIOUS : Z := 31.

(** ** The scheduling policy

    The Makefile passes [-D $(SCHEDFLAG)]: which of the four the kernel is
    compiled for is a parameter of the routines that test it. *)

Inductive schedflag := DEFAULT | FRR | FCFS | PRS.

#[global] Instance schedflag_eq_dec : EqDecision schedflag.
Proof. solve_decision. Defined.

(** [#if defined(FRR) || defined(FCFS) || defined(PRS)] *)
Definition uses_queue (f : schedflag) : bool :=
  match f with DEFAULT => false | _ => true end.

(** ** Locks, processors, trap frames *)

(** The locks the process code names, and any other lock of the kernel. *)
Inductive lockid := PtableLock | RRLock | TicksLock | OtherLock (a : Z).

#[global] Instance lockid_eq_dec : EqDecision lockid.
Proof. solve_decision. Defined.

#[global] Instance lockid_countable : Countable lockid :=
  inj_countable'
    (λ l, match l with
          | PtableLock => inl 0%nat | RRLock => inl 1%nat | TicksLock => inl 2%nat
          | OtherLock a => inr a end)
    (λ e, match e with
          | inl 0%nat => PtableLock | inl 1%nat => RRLock | inl _ => TicksLock
          | inr a => OtherLock a end)
    ltac:(by intros []).

(** [struct spinlock]; the debugging fields [name] and [pcs] are left out. *)
Record lock := Lock {
  lk_locked : Z;
  lk_cpu : option nat
}.

#[global] Instance lock_inhabited : Inhabited lock := populate (Lock 0 None).

(** Sleep channels: a channel is an address, so each kernel object a process
    can wait for has a constructor of its own. *)
Inductive chan_t :=
  | ChNull | ChProc (slot : nat) | ChTicks | ChLog | ChInput
  | ChBuf (b : nat) | ChInode (i : nat)
  | ChPipeRead (a : Z) | ChPipeWrite (a : Z).

#[global] Instance chan_eq_dec : EqDecision chan_t.
Proof. solve_decision. Defined.

(** [struct cpu], with the processor's flags register in place of the
    hardware structures (descriptor table, task state). *)
Record cpu := Cpu {
  c_id : Z;
  c_started : Z;
  c_ncli : Z;
  c_intena : Z;
  c_eflags : Z;
  c_proc : option nat
}.

Definition set_c_id (v : Z) (r : cpu) : cpu :=
  Cpu v (c_started r) (c_ncli r) (c_intena r) (c_eflags r) (c_proc r).
Definition set_c_started (v : Z) (r : cpu) : cpu :=
  Cpu (c_id r) v (c_ncli r) (c_intena r) (c_eflags r) (c_proc r).
Definition set_c_ncli (v : Z) (r : cpu) : cpu :=
  Cpu (c_id r) (c_started r) v (c_intena r) (c_eflags r) (c_proc r).
Definition set_c_intena (v : Z) (r : cpu) : cpu :=
  Cpu (c_id r) (c_started r) (c_ncli r) v (c_eflags r) (c_proc r).
Definition set_c_eflags (v : Z) (r : cpu) : cpu :=
  Cpu (c_id r) (c_started r) (c_ncli r) (c_intena r) v (c_proc r).
Definition set_c_proc (v : option nat) (r : cpu) : cpu :=
  Cpu (c_id r) (c_started r) (c_ncli r) (c_intena r) (c_eflags r) v.

Record trapframe := TrapFrame {
  tf_edi : Z;
  tf_esi : Z;
  tf_ebp : Z;
  tf_oesp : Z;
  tf_ebx : Z;
  tf_edx : Z;
  tf_ecx : Z;
  tf_eax : Z;
  tf_gs : Z;
  tf_padding1 : Z;
  tf_fs : Z;
  tf_padding2 : Z;
  tf_es : Z;
  tf_padding3 : Z;
  tf_ds : Z;
  tf_padding4 : Z;
  tf_trapno : Z;
  tf_err : Z;
  tf_eip : Z;
  tf_cs : Z;
  tf_padding5 : Z;
  tf_eflags : Z;
  tf_esp : Z;
  tf_ss : Z;
  tf_padding6 : Z
}.

Definition set_tf_edi (v : Z) (r : trapframe) : trapframe :=
  TrapFrame v (tf_esi r) (tf_ebp r) (tf_oesp r) (tf_ebx r) (tf_edx r)
    (tf_ecx r) (tf_eax r) (tf_gs r) (tf_padding1 r) (tf_fs r) (tf_padding2 r)
    (tf_es r) (tf_padding3 r) (tf_ds r) (tf_padding4 r) (tf_trapno r)
    (tf_err r) (tf_eip r) (tf_cs r) (tf_padding5 r) (tf_eflags r) (tf_esp r)
    (tf_ss r) (tf_padding6 r).
Definition set_tf_eax (v : Z) (r : trapframe) : trapframe :=
  TrapFrame (tf_edi r) (tf_esi r) (tf_ebp r) (tf_oesp r) (tf_ebx r) (tf_edx r)
    (tf_ecx r) v (tf_gs r) (tf_padding1 r) (tf_fs r) (tf_padding2 r) (tf_es r)
    (tf_padding3 r) (tf_ds r) (tf_padding4 r) (tf_trapno r) (tf_err r)
    (tf_eip r) (tf_cs r) (tf_padding5 r) (tf_eflags r) (tf_esp r) (tf_ss r)
    (tf_padding6 r).
Definition set_tf_es (v : Z) (r : trapframe) : trapframe :=
  TrapFrame (tf_edi r) (tf_esi r) (tf_ebp r) (tf_oesp r) (tf_ebx r) (tf_edx r)
    (tf_ecx r) (tf_eax r) (tf_gs r) (tf_padding1 r) (tf_fs r) (tf_padding2 r)
    v (tf_padding3 r) (tf_ds r) (tf_padding4 r) (tf_trapno r) (tf_err r)
    (tf_eip r) (tf_cs r) (tf_padding5 r) (tf_eflags r) (tf_esp r) (tf_ss r)
    (tf_padding6 r).
Definition set_tf_ds (v : Z) (r : trapframe) : trapframe :=
  TrapFrame (tf_edi r) (tf_esi r) (tf_ebp r) (tf_oesp r) (tf_ebx r) (tf_edx r)
    (tf_ecx r) (tf_eax r) (tf_gs r) (tf_padding1 r) (tf_fs r) (tf_padding2 r)
    (tf_es r) (tf_padding3 r) v (tf_padding4 r) (tf_trapno r) (tf_err r)
    (tf_eip r) (tf_cs r) (tf_padding5 r) (tf_eflags r) (tf_esp r) (tf_ss r)
    (tf_padding6 r).
Definition set_tf_eip (v : Z) (r : trapframe) : trapframe :=
  TrapFrame (tf_edi r) (tf_esi r) (tf_ebp r) (tf_oesp r) (tf_ebx r) (tf_edx r)
    (tf_ecx r) (tf_eax r) (tf_gs r) (tf_padding1 r) (tf_fs r) (tf_padding2 r)
    (tf_es r) (tf_padding3 r) (tf_ds r) (tf_padding4 r) (tf_trapno r)
    (tf_err r) v (tf_cs r) (tf_padding5 r) (tf_eflags r) (tf_esp r) (tf_ss r)
    (tf_padding6 r).
Definition set_tf_cs (v : Z) (r : trapframe) : trapframe :=
  TrapFrame (tf_edi r) (tf_esi r) (tf_ebp r) (tf_oesp r) (tf_ebx r) (tf_edx r)
    (tf_ecx r) (tf_eax r) (tf_gs r) (tf_padding1 r) (tf_fs r) (tf_padding2 r)
    (tf_es r) (tf_padding3 r) (tf_ds r) (tf_padding4 r) (tf_trapno r)
    (tf_err r) (tf_eip r) v (tf_padding5 r) (tf_eflags r) (tf_esp r) (tf_ss r)
    (tf_padding6 r).
Definition set_tf_eflags (v : Z) (r : trapframe) : trapframe :=
  TrapFrame (tf_edi r) (tf_esi r) (tf_ebp r) (tf_oesp r) (tf_ebx r) (tf_edx r)
    (tf_ecx r) (tf_eax r) (tf_gs r) (tf_padding1 r) (tf_fs r) (tf_padding2 r)
    (tf_es r) (tf_padding3 r) (tf_ds r) (tf_padding4 r) (tf_trapno r)
    (tf_err r) (tf_eip r) (tf_cs r) (tf_padding5 r) v (tf_esp r) (tf_ss r)
    (tf_padding6 r).
Definition set_tf_esp (v : Z) (r : trapframe) : trapframe :=
  TrapFrame (tf_edi r) (tf_esi r) (tf_ebp r) (tf_oesp r) (tf_ebx r) (tf_edx r)
    (tf_ecx r) (tf_eax r) (tf_gs r) (tf_padding1 r) (tf_fs r) (tf_padding2 r)
    (tf_es r) (tf_padding3 r) (tf_ds r) (tf_padding4 r) (tf_trapno r)
    (tf_err r) (tf_eip r) (tf_cs r) (tf_padding5 r) (tf_eflags r) v (tf_ss r)
    (tf_padding6 r).
Definition set_tf_ss (v : Z) (r : trapframe) : trapframe :=
  TrapFrame (tf_edi r) (tf_esi r) (tf_ebp r) (tf_oesp r) (tf_ebx r) (tf_edx r)
    (tf_ecx r) (tf_eax r) (tf_gs r) (tf_padding1 r) (tf_fs r) (tf_padding2 r)
    (tf_es r) (tf_padding3 r) (tf_ds r) (tf_padding4 r) (tf_trapno r)
    (tf_err r) (tf_eip r) (tf_cs r) (tf_padding5 r) (tf_eflags r) (tf_esp r) v
    (tf_padding6 r).

#[global] Instance trapframe_inhabited : Inhabited trapframe :=
  populate (TrapFrame 0 0 0 0 0 0 0 0 0 0 0 0 0 0 0 0 0 0 0 0 0 0 0 0 0).

Record context := Context {
  cx_edi : Z;
  cx_esi : Z;
  cx_ebx : Z;
  cx_ebp : Z;
  cx_eip : Z
}.

Definition set_cx_eip (v : Z) (r : context) : context :=
  Context (cx_edi r) (cx_esi r) (cx_ebx r) (cx_ebp r) v.

#[global] Instance context_inhabited : Inhabited context :=
  populate (Context 0 0 0 0 0).

(** ** Processes *)

Inductive procstate := UNUSED | EMBRYO | SLEEPING | RUNNABLE | RUNNING | ZOMBIE.

#[global] Instance procstate_eq_dec : EqDecision procstate.
Proof. solve_decision. Defined.

Record perf := Perf {
  pf_ctime : Z;
  pf_ttime : Z;
  pf_stime : Z;
  pf_retime : Z;
  pf_rutime : Z
}.

Record proc := Proc {
  p_sz : Z;
  p_pgdir : Z;
  p_kstack : Z;
  p_state : procstate;
  p_pid : Z;
  p_parent : option nat;
  p_tf : Z;
  p_backuptf : Z;
  p_context : Z;
  p_chan : chan_t;
  p_killed : Z;
  p_ofile : list (option nat);
  p_cwd : option nat;
  p_name : list Z;
  p_pending : Z;
  p_insignal : Z;
  p_handlers : list Z;
  p_ctime : Z;
  p_ttime : Z;
  p_stime : Z;
  p_retime : Z;
  p_rutime : Z;
  p_runQuanta : Z;
  p_priority : Z;
  p_tickets : Z;
  p_firstTicketNum : Z;
  p_rrnext : option nat;
  p_rrprev : option nat
}.

Definition set_p_sz (v : Z) (r : proc) : proc :=
  Proc v (p_pgdir r) (p_kstack r) (p_state r) (p_pid r) (p_parent r) (p_tf r)
    (p_backuptf r) (p_context r) (p_chan r) (p_killed r) (p_ofile r) (p_cwd r)
    (p_name r) (p_pending r) (p_insignal r) (p_handlers r) (p_ctime r)
    (p_ttime r) (p_stime r) (p_retime r) (p_rutime r) (p_runQuanta r)
    (p_priority r) (p_tickets r) (p_firstTicketNum r) (p_rrnext r)
    (p_rrprev r).
Definition set_p_pgdir (v : Z) (r : proc) : proc :=
  Proc (p_sz r) v (p_kstack r) (p_state r) (p_pid r) (p_parent r) (p_tf r)
    (p_backuptf r) (p_context r) (p_chan r) (p_killed r) (p_ofile r) (p_cwd r)
    (p_name r) (p_pending r) (p_insignal r) (p_handlers r) (p_ctime r)
    (p_ttime r) (p_stime r) (p_retime r) (p_rutime r) (p_runQuanta r)
    (p_priority r) (p_tickets r) (p_firstTicketNum r) (p_rrnext r)
    (p_rrprev r).
Definition set_p_kstack (v : Z) (r : proc) : proc :=
  Proc (p_sz r) (p_pgdir r) v (p_state r) (p_pid r) (p_parent r) (p_tf r)
    (p_backuptf r) (p_context r) (p_chan r) (p_killed r) (p_ofile r) (p_cwd r)
    (p_name r) (p_pending r) (p_insignal r) (p_handlers r) (p_ctime r)
    (p_ttime r) (p_stime r) (p_retime r) (p_rutime r) (p_runQuanta r)
    (p_priority r) (p_tickets r) (p_firstTicketNum r) (p_rrnext r)
    (p_rrprev r).
Definition set_p_state (v : procstate) (r : proc) : proc :=
  Proc (p_sz r) (p_pgdir r) (p_kstack r) v (p_pid r) (p_parent r) (p_tf r)
    (p_backuptf r) (p_context r) (p_chan r) (p_killed r) (p_ofile r) (p_cwd r)
    (p_name r) (p_pending r) (p_insignal r) (p_handlers r) (p_ctime r)
    (p_ttime r) (p_stime r) (p_retime r) (p_rutime r) (p_runQuanta r)
    (p_priority r) (p_tickets r) (p_firstTicketNum r) (p_rrnext r)
    (p_rrprev r).
Definition set_p_pid (v : Z) (r : proc) : proc :=
  Proc (p_sz r) (p_pgdir r) (p_kstack r) (p_state r) v (p_parent r) (p_tf r)
    (p_backuptf r) (p_context r) (p_chan r) (p_killed r) (p_ofile r) (p_cwd r)
    (p_name r) (p_pending r) (p_insignal r) (p_handlers r) (p_ctime r)
    (p_ttime r) (p_stime r) (p_retime r) (p_rutime r) (p_runQuanta r)
    (p_priority r) (p_tickets r) (p_firstTicketNum r) (p_rrnext r)
    (p_rrprev r).
Definition set_p_parent (v : option nat) (r : proc) : proc :=
  Proc (p_sz r) (p_pgdir r) (p_kstack r) (p_state r) (p_pid r) v (p_tf r)
    (p_backuptf r) (p_context r) (p_chan r) (p_killed r) (p_ofile r) (p_cwd r)
    (p_name r) (p_pending r) (p_insignal r) (p_handlers r) (p_ctime r)
    (p_ttime r) (p_stime r) (p_retime r) (p_rutime r) (p_runQuanta r)
    (p_priority r) (p_tickets r) (p_firstTicketNum r) (p_rrnext r)
    (p_rrprev r).
Definition set_p_tf (v : Z) (r : proc) : proc :=
  Proc (p_sz r) (p_pgdir r) (p_kstack r) (p_state r) (p_pid r) (p_parent r) v
    (p_backuptf r) (p_context r) (p_chan r) (p_killed r) (p_ofile r) (p_cwd r)
    (p_name r) (p_pending r) (p_insignal r) (p_handlers r) (p_ctime r)
    (p_ttime r) (p_stime r) (p_retime r) (p_rutime r) (p_runQuanta r)
    (p_priority r) (p_tickets r) (p_firstTicketNum r) (p_rrnext r)
    (p_rrprev r).
Definition set_p_backuptf (v : Z) (r : proc) : proc :=
  Proc (p_sz r) (p_pgdir r) (p_kstack r) (p_state r) (p_pid r) (p_parent r)
    (p_tf r) v (p_context r) (p_chan r) (p_killed r) (p_ofile r) (p_cwd r)
    (p_name r) (p_pending r) (p_insignal r) (p_handlers r) (p_ctime r)
    (p_ttime r) (p_stime r) (p_retime r) (p_rutime r) (p_runQuanta r)
    (p_priority r) (p_tickets r) (p_firstTicketNum r) (p_rrnext r)
    (p_rrprev r).
Definition set_p_context (v : Z) (r : proc) : proc :=
  Proc (p_sz r) (p_pgdir r) (p_kstack r) (p_state r) (p_pid r) (p_parent r)
    (p_tf r) (p_backuptf r) v (p_chan r) (p_killed r) (p_ofile r) (p_cwd r)
    (p_name r) (p_pending r) (p_insignal r) (p_handlers r) (p_ctime r)
    (p_ttime r) (p_stime r) (p_retime r) (p_rutime r) (p_runQuanta r)
    (p_priority r) (p_tickets r) (p_firstTicketNum r) (p_rrnext r)
    (p_rrprev r).
Definition set_p_chan (v : chan_t) (r : proc) : proc :=
  Proc (p_sz r) (p_pgdir r) (p_kstack r) (p_state r) (p_pid r) (p_parent r)
    (p_tf r) (p_backuptf r) (p_context r) v (p_killed r) (p_ofile r) (p_cwd r)
    (p_name r) (p_pending r) (p_insignal r) (p_handlers r) (p_ctime r)
    (p_ttime r) (p_stime r) (p_retime r) (p_rutime r) (p_runQuanta r)
    (p_priority r) (p_tickets r) (p_firstTicketNum r) (p_rrnext r)
    (p_rrprev r).
Definition set_p_killed (v : Z) (r : proc) : proc :=
  Proc (p_sz r) (p_pgdir r) (p_kstack r) (p_state r) (p_pid r) (p_parent r)
    (p_tf r) (p_backuptf r) (p_context r) (p_chan r) v (p_ofile r) (p_cwd r)
    (p_name r) (p_pending r) (p_insignal r) (p_handlers r) (p_ctime r)
    (p_ttime r) (p_stime r) (p_retime r) (p_rutime r) (p_runQuanta r)
    (p_priority r) (p_tickets r) (p_firstTicketNum r) (p_rrnext r)
    (p_rrprev r).
Definition set_p_ofile (v : list (option nat)) (r : proc) : proc :=
  Proc (p_sz r) (p_pgdir r) (p_kstack r) (p_state r) (p_pid r) (p_parent r)
    (p_tf r) (p_backuptf r) (p_context r) (p_chan r) (p_killed r) v (p_cwd r)
    (p_name r) (p_pending r) (p_insignal r) (p_handlers r) (p_ctime r)
    (p_ttime r) (p_stime r) (p_retime r) (p_rutime r) (p_runQuanta r)
    (p_priority r) (p_tickets r) (p_firstTicketNum r) (p_rrnext r)
    (p_rrprev r).
Definition set_p_cwd (v : option nat) (r : proc) : proc :=
  Proc (p_sz r) (p_pgdir r) (p_kstack r) (p_state r) (p_pid r) (p_parent r)
    (p_tf r) (p_backuptf r) (p_context r) (p_chan r) (p_killed r) (p_ofile r)
    v (p_name r) (p_pending r) (p_insignal r) (p_handlers r) (p_ctime r)
    (p_ttime r) (p_stime r) (p_retime r) (p_rutime r) (p_runQuanta r)
    (p_priority r) (p_tickets r) (p_firstTicketNum r) (p_rrnext r)
    (p_rrprev r).
Definition set_p_name (v : list Z) (r : proc) : proc :=
  Proc (p_sz r) (p_pgdir r) (p_kstack r) (p_state r) (p_pid r) (p_parent r)
    (p_tf r) (p_backuptf r) (p_context r) (p_chan r) (p_killed r) (p_ofile r)
    (p_cwd r) v (p_pending r) (p_insignal r) (p_handlers r) (p_ctime r)
    (p_ttime r) (p_stime r) (p_retime r) (p_rutime r) (p_runQuanta r)
    (p_priority r) (p_tickets r) (p_firstTicketNum r) (p_rrnext r)
    (p_rrprev r).
Definition set_p_pending (v : Z) (r : proc) : proc :=
  Proc (p_sz r) (p_pgdir r) (p_kstack r) (p_state r) (p_pid r) (p_parent r)
    (p_tf r) (p_backuptf r) (p_context r) (p_chan r) (p_killed r) (p_ofile r)
    (p_cwd r) (p_name r) v (p_insignal r) (p_handlers r) (p_ctime r)
    (p_ttime r) (p_stime r) (p_retime r) (p_rutime r) (p_runQuanta r)
    (p_priority r) (p_tickets r) (p_firstTicketNum r) (p_rrnext r)
    (p_rrprev r).
Definition set_p_insignal (v : Z) (r : proc) : proc :=
  Proc (p_sz r) (p_pgdir r) (p_kstack r) (p_state r) (p_pid r) (p_parent r)
    (p_tf r) (p_backuptf r) (p_context r) (p_chan r) (p_killed r) (p_ofile r)
    (p_cwd r) (p_name r) (p_pending r) v (p_handlers r) (p_ctime r)
    (p_ttime r) (p_stime r) (p_retime r) (p_rutime r) (p_runQuanta r)
    (p_priority r) (p_tickets r) (p_firstTicketNum r) (p_rrnext r)
    (p_rrprev r).
Definition set_p_handlers (v : list Z) (r : proc) : proc :=
  Proc (p_sz r) (p_pgdir r) (p_kstack r) (p_state r) (p_pid r) (p_parent r)
    (p_tf r) (p_backuptf r) (p_context r) (p_chan r) (p_killed r) (p_ofile r)
    (p_cwd r) (p_name r) (p_pending r) (p_insignal r) v (p_ctime r)
    (p_ttime r) (p_stime r) (p_retime r) (p_rutime r) (p_runQuanta r)
    (p_priority r) (p_tickets r) (p_firstTicketNum r) (p_rrnext r)
    (p_rrprev r).
Definition set_p_ctime (v : Z) (r : proc) : proc :=
  Proc (p_sz r) (p_pgdir r) (p_kstack r) (p_state r) (p_pid r) (p_parent r)
    (p_tf r) (p_backuptf r) (p_context r) (p_chan r) (p_killed r) (p_ofile r)
    (p_cwd r) (p_name r) (p_pending r) (p_insignal r) (p_handlers r) v
    (p_ttime r) (p_stime r) (p_retime r) (p_rutime r) (p_runQuanta r)
    (p_priority r) (p_tickets r) (p_firstTicketNum r) (p_rrnext r)
    (p_rrprev r).
Definition set_p_ttime (v : Z) (r : proc) : proc :=
  Proc (p_sz r) (p_pgdir r) (p_kstack r) (p_state r) (p_pid r) (p_parent r)
    (p_tf r) (p_backuptf r) (p_context r) (p_chan r) (p_killed r) (p_ofile r)
    (p_cwd r) (p_name r) (p_pending r) (p_insignal r) (p_handlers r)
    (p_ctime r) v (p_stime r) (p_retime r) (p_rutime r) (p_runQuanta r)
    (p_priority r) (p_tickets r) (p_firstTicketNum r) (p_rrnext r)
    (p_rrprev r).
Definition set_p_stime (v : Z) (r : proc) : proc :=
  Proc (p_sz r) (p_pgdir r) (p_kstack r) (p_state r) (p_pid r) (p_parent r)
    (p_tf r) (p_backuptf r) (p_context r) (p_chan r) (p_killed r) (p_ofile r)
    (p_cwd r) (p_name r) (p_pending r) (p_insignal r) (p_handlers r)
    (p_ctime r) (p_ttime r) v (p_retime r) (p_rutime r) (p_runQuanta r)
    (p_priority r) (p_tickets r) (p_firstTicketNum r) (p_rrnext r)
    (p_rrprev r).
Definition set_p_retime (v : Z) (r : proc) : proc :=
  Proc (p_sz r) (p_pgdir r) (p_kstack r) (p_state r) (p_pid r) (p_parent r)
    (p_tf r) (p_backuptf r) (p_context r) (p_chan r) (p_killed r) (p_ofile r)
    (p_cwd r) (p_name r) (p_pending r) (p_insignal r) (p_handlers r)
    (p_ctime r) (p_ttime r) (p_stime r) v (p_rutime r) (p_runQuanta r)
    (p_priority r) (p_tickets r) (p_firstTicketNum r) (p_rrnext r)
    (p_rrprev r).
Definition set_p_rutime (v : Z) (r : proc) : proc :=
  Proc (p_sz r) (p_pgdir r) (p_kstack r) (p_state r) (p_pid r) (p_parent r)
    (p_tf r) (p_backuptf r) (p_context r) (p_chan r) (p_killed r) (p_ofile r)
    (p_cwd r) (p_name r) (p_pending r) (p_insignal r) (p_handlers r)
    (p_ctime r) (p_ttime r) (p_stime r) (p_retime r) v (p_runQuanta r)
    (p_priority r) (p_tickets r) (p_firstTicketNum r) (p_rrnext r)
    (p_rrprev r).
Definition set_p_runQuanta (v : Z) (r : proc) : proc :=
  Proc (p_sz r) (p_pgdir r) (p_kstack r) (p_state r) (p_pid r) (p_parent r)
    (p_tf r) (p_backuptf r) (p_context r) (p_chan r) (p_killed r) (p_ofile r)
    (p_cwd r) (p_name r) (p_pending r) (p_insignal r) (p_handlers r)
    (p_ctime r) (p_ttime r) (p_stime r) (p_retime r) (p_rutime r) v
    (p_priority r) (p_tickets r) (p_firstTicketNum r) (p_rrnext r)
    (p_rrprev r).
Definition set_p_priority (v : Z) (r : proc) : proc :=
  Proc (p_sz r) (p_pgdir r) (p_kstack r) (p_state r) (p_pid r) (p_parent r)
    (p_tf r) (p_backuptf r) (p_context r) (p_chan r) (p_killed r) (p_ofile r)
    (p_cwd r) (p_name r) (p_pending r) (p_insignal r) (p_handlers r)
    (p_ctime r) (p_ttime r) (p_stime r) (p_retime r) (p_rutime r)
    (p_runQuanta r) v (p_tickets r) (p_firstTicketNum r) (p_rrnext r)
    (p_rrprev r).
Definition set_p_tickets (v : Z) (r : proc) : proc :=
  Proc (p_sz r) (p_pgdir r) (p_kstack r) (p_state r) (p_pid r) (p_parent r)
    (p_tf r) (p_backuptf r) (p_context r) (p_chan r) (p_killed r) (p_ofile r)
    (p_cwd r) (p_name r) (p_pending r) (p_insignal r) (p_handlers r)
    (p_ctime r) (p_ttime r) (p_stime r) (p_retime r) (p_rutime r)
    (p_runQuanta r) (p_priority r) v (p_firstTicketNum r) (p_rrnext r)
    (p_rrprev r).
Definition set_p_firstTicketNum (v : Z) (r : proc) : proc :=
  Proc (p_sz r) (p_pgdir r) (p_kstack r) (p_state r) (p_pid r) (p_parent r)
    (p_tf r) (p_backuptf r) (p_context r) (p_chan r) (p_killed r) (p_ofile r)
    (p_cwd r) (p_name r) (p_pending r) (p_insignal r) (p_handlers r)
    (p_ctime r) (p_ttime r) (p_stime r) (p_retime r) (p_rutime r)
    (p_runQuanta r) (p_priority r) (p_tickets r) v (p_rrnext r) (p_rrprev r).
Definition set_p_rrnext (v : option nat) (r : proc) : proc :=
  Proc (p_sz r) (p_pgdir r) (p_kstack r) (p_state r) (p_pid r) (p_parent r)
    (p_tf r) (p_backuptf r) (p_context r) (p_chan r) (p_killed r) (p_ofile r)
    (p_cwd r) (p_name r) (p_pending r) (p_insignal r) (p_handlers r)
    (p_ctime r) (p_ttime r) (p_stime r) (p_retime r) (p_rutime r)
    (p_runQuanta r) (p_priority r) (p_tickets r) (p_firstTicketNum r) v
    (p_rrprev r).
Definition set_p_rrprev (v : option nat) (r : proc) : proc :=
  Proc (p_sz r) (p_pgdir r) (p_kstack r) (p_state r) (p_pid r) (p_parent r)
    (p_tf r) (p_backuptf r) (p_context r) (p_chan r) (p_killed r) (p_ofile r)
    (p_cwd r) (p_name r) (p_pending r) (p_insignal r) (p_handlers r)
    (p_ctime r) (p_ttime r) (p_stime r) (p_retime r) (p_rutime r)
    (p_runQuanta r) (p_priority r) (p_tickets r) (p_firstTicketNum r)
    (p_rrnext r) v.

(** A slot of the statically allocated, zeroed table. *)
Definition proc0 : proc :=
  Proc 0 0 0 UNUSED 0 None 0 0 0 ChNull 0 (replicate NOFILE None) None
    (replicate 16 0) 0 0 (replicate SIGNUM 0) 0 0 0 0 0 0 0 0 0 None None.

#[global] Instance proc_inhabited : Inhabited proc := populate proc0.
#[global] Instance cpu_inhabited : Inhabited cpu := populate (Cpu 0 0 0 0 0 None).

(** The state of the generator of proc.c, the globals [x], [y], [z], [w]. *)
Record rng := Rng {
  rng_x : Z;
  rng_y : Z;
  rng_z : Z;
  rng_w : Z
}.

(** ** The kernel core *)

Section core.
Context {V : Type}.

Record core := Core {
  k_cpus : list cpu;
  k_mycpu : nat;
  k_locks : gmap lockid lock;
  k_ptable : list proc;
  k_initproc : option nat;
  k_nextpid : Z;
  k_first : option nat;
  k_last : option nat;
  k_rng : rng;
  k_totalTickets : Z;
  k_ticks : Z;
  k_isFCFS : Z;
  k_forkret_first : Z;
  k_tfmem : gmap Z trapframe;
  k_ctxmem : gmap Z context;
  k_wordmem : gmap Z Z;
  k_ext : V
}.

Definition set_k_cpus (v : list cpu) (r : core) : core :=
  Core v (k_mycpu r) (k_locks r) (k_ptable r) (k_initproc r) (k_nextpid r)
    (k_first r) (k_last r) (k_rng r) (k_totalTickets r) (k_ticks r)
    (k_isFCFS r) (k_forkret_first r) (k_tfmem r) (k_ctxmem r) (k_wordmem r)
    (k_ext r).
Definition set_k_mycpu (v : nat) (r : core) : core :=
  Core (k_cpus r) v (k_locks r) (k_ptable r) (k_initproc r) (k_nextpid r)
    (k_first r) (k_last r) (k_rng r) (k_totalTickets r) (k_ticks r)
    (k_isFCFS r) (k_forkret_first r) (k_tfmem r) (k_ctxmem r) (k_wordmem r)
    (k_ext r).
Definition set_k_locks (v : gmap lockid lock) (r : core) : core :=
  Core (k_cpus r) (k_mycpu r) v (k_ptable r) (k_initproc r) (k_nextpid r)
    (k_first r) (k_last r) (k_rng r) (k_totalTickets r) (k_ticks r)
    (k_isFCFS r) (k_forkret_first r) (k_tfmem r) (k_ctxmem r) (k_wordmem r)
    (k_ext r).
Definition set_k_ptable (v : list proc) (r : core) : core :=
  Core (k_cpus r) (k_mycpu r) (k_locks r) v (k_initproc r) (k_nextpid r)
    (k_first r) (k_last r) (k_rng r) (k_totalTickets r) (k_ticks r)
    (k_isFCFS r) (k_forkret_first r) (k_tfmem r) (k_ctxmem r) (k_wordmem r)
    (k_ext r).
Definition set_k_initproc (v : option nat) (r : core) : core :=
  Core (k_cpus r) (k_mycpu r) (k_locks r) (k_ptable r) v (k_nextpid r)
    (k_first r) (k_last r) (k_rng r) (k_totalTickets r) (k_ticks r)
    (k_isFCFS r) (k_forkret_first r) (k_tfmem r) (k_ctxmem r) (k_wordmem r)
    (k_ext r).
Definition set_k_nextpid (v : Z) (r : core) : core :=
  Core (k_cpus r) (k_mycpu r) (k_locks r) (k_ptable r) (k_initproc r) v
    (k_first r) (k_last r) (k_rng r) (k_totalTickets r) (k_ticks r)
    (k_isFCFS r) (k_forkret_first r) (k_tfmem r) (k_ctxmem r) (k_wordmem r)
    (k_ext r).
Definition set_k_first (v : option nat) (r : core) : core :=
  Core (k_cpus r) (k_mycpu r) (k_locks r) (k_ptable r) (k_initproc r)
    (k_nextpid r) v (k_last r) (k_rng r) (k_totalTickets r) (k_ticks r)
    (k_isFCFS r) (k_forkret_first r) (k_tfmem r) (k_ctxmem r) (k_wordmem r)
    (k_ext r).
Definition set_k_last (v : option nat) (r : core) : core :=
  Core (k_cpus r) (k_mycpu r) (k_locks r) (k_ptable r) (k_initproc r)
    (k_nextpid r) (k_first r) v (k_rng r) (k_totalTickets r) (k_ticks r)
    (k_isFCFS r) (k_forkret_first r) (k_tfmem r) (k_ctxmem r) (k_wordmem r)
    (k_ext r).
Definition set_k_rng (v : rng) (r : core) : core :=
  Core (k_cpus r) (k_mycpu r) (k_locks r) (k_ptable r) (k_initproc r)
    (k_nextpid r) (k_first r) (k_last r) v (k_totalTickets r) (k_ticks r)
    (k_isFCFS r) (k_forkret_first r) (k_tfmem r) (k_ctxmem r) (k_wordmem r)
    (k_ext r).
Definition set_k_totalTickets (v : Z) (r : core) : core :=
  Core (k_cpus r) (k_mycpu r) (k_locks r) (k_ptable r) (k_initproc r)
    (k_nextpid r) (k_first r) (k_last r) (k_rng r) v (k_ticks r) (k_isFCFS r)
    (k_forkret_first r) (k_tfmem r) (k_ctxmem r) (k_wordmem r) (k_ext r).
Definition set_k_ticks (v : Z) (r : core) : core :=
  Core (k_cpus r) (k_mycpu r) (k_locks r) (k_ptable r) (k_initproc r)
    (k_nextpid r) (k_first r) (k_last r) (k_rng r) (k_totalTickets r) v
    (k_isFCFS r) (k_forkret_first r) (k_tfmem r) (k_ctxmem r) (k_wordmem r)
    (k_ext r).
Definition set_k_isFCFS (v : Z) (r : core) : core :=
  Core (k_cpus r) (k_mycpu r) (k_locks r) (k_ptable r) (k_initproc r)
    (k_nextpid r) (k_first r) (k_last r) (k_rng r) (k_totalTickets r)
    (k_ticks r) v (k_forkret_first r) (k_tfmem r) (k_ctxmem r) (k_wordmem r)
    (k_ext r).
Definition set_k_forkret_first (v : Z) (r : core) : core :=
  Core (k_cpus r) (k_mycpu r) (k_locks r) (k_ptable r) (k_initproc r)
    (k_nextpid r) (k_first r) (k_last r) (k_rng r) (k_totalTickets r)
    (k_ticks r) (k_isFCFS r) v (k_tfmem r) (k_ctxmem r) (k_wordmem r)
    (k_ext r).
Definition set_k_tfmem (v : gmap Z trapframe) (r : core) : core :=
  Core (k_cpus r) (k_mycpu r) (k_locks r) (k_ptable r) (k_initproc r)
    (k_nextpid r) (k_first r) (k_last r) (k_rng r) (k_totalTickets r)
    (k_ticks r) (k_isFCFS r) (k_forkret_first r) v (k_ctxmem r) (k_wordmem r)
    (k_ext r).
Definition set_k_ctxmem (v : gmap Z context) (r : core) : core :=
  Core (k_cpus r) (k_mycpu r) (k_locks r) (k_ptable r) (k_initproc r)
    (k_nextpid r) (k_first r) (k_last r) (k_rng r) (k_totalTickets r)
    (k_ticks r) (k_isFCFS r) (k_forkret_first r) (k_tfmem r) v (k_wordmem r)
    (k_ext r).
Definition set_k_wordmem (v : gmap Z Z) (r : core) : core :=
  Core (k_cpus r) (k_mycpu r) (k_locks r) (k_ptable r) (k_initproc r)
    (k_nextpid r) (k_first r) (k_last r) (k_rng r) (k_totalTickets r)
    (k_ticks r) (k_isFCFS r) (k_forkret_first r) (k_tfmem r) (k_ctxmem r) v
    (k_ext r).
Definition set_k_ext (v : V) (r : core) : core :=
  Core (k_cpus r) (k_mycpu r) (k_locks r) (k_ptable r) (k_initproc r)
    (k_nextpid r) (k_first r) (k_last r) (k_rng r) (k_totalTickets r)
    (k_ticks r) (k_isFCFS r) (k_forkret_first r) (k_tfmem r) (k_ctxmem r)
    (k_wordmem r) v.

(** Typed access to the process table. *)
Definition proc_at (k : core) (i : nat) : proc := k_ptable k !!! i.
Definition upd_proc (i : nat) (f : proc → proc) (k : core) : core :=
  set_k_ptable (alter f i (k_ptable k)) k.
Definition this_cpu (k : core) : cpu := k_cpus k !!! k_mycpu k.
Definition upd_cpu (f : cpu → cpu) (k : core) : core :=
  set_k_cpus (alter f (k_mycpu k) (k_cpus k)) k.

(** [proc], the per-cpu pointer to the running process. *)
Definition curproc (k : core) : option nat := c_proc (this_cpu k).

(** Dereferencing a process pointer: undefined for the null pointer and for a
    pointer outside the table. *)
Definition deref (p : option nat) : M core nat := λ k,
  match p with
  | Some i => if decide (i < length (k_ptable k))%nat then Ret i k
              else Fault "process pointer out of range"
  | None => Fault "null process pointer"
  end.

(** [p->f] and [p->f = ..] for a slot. *)
Definition field {A : Type} (i : nat) (f : proc → A) : M core A :=
  gets (λ k, f (proc_at k i)).
Definition assign (i : nat) (f : proc → proc) : M core unit :=
  modify (upd_proc i f).

(** The slots of the table in the order the loops visit them. *)
Definition slots (k : core) : list nat := seq 0 (length (k_ptable k)).

(** Everything but the processors, the locks, the process table and the two
    ends of the run queue. *)
Definition rest (k : core) :=
  (k_initproc k, k_nextpid k, k_rng k, k_totalTickets k, k_ticks k,
   k_isFCFS k, k_forkret_first k, k_tfmem k, k_ctxmem k, k_wordmem k, k_ext k).

(** A process without its queue links. *)
Definition unlinked (p : proc) : proc := set_p_rrnext None (set_p_rrprev None p).

Lemma proc_at_upd i f j (k : core) :
  proc_at (upd_proc i f k) j =
  if decide (i = j ∧ (i < length (k_ptable k))%nat) then f (proc_at k i)
  else proc_at k j.
Proof. apply list_lookup_total_alter. Qed.

Lemma proc_at_upd_eq i f (k : core) :
  (i < length (k_ptable k))%nat → proc_at (upd_proc i f k) i = f (proc_at k i).
Proof. intros. rewrite proc_at_upd, decide_True; done. Qed.

Lemma proc_at_upd_ne i f j (k : core) :
  i ≠ j → proc_at (upd_proc i f k) j = proc_at k j.
Proof. intros. rewrite proc_at_upd, decide_False; naive_solver. Qed.

Lemma length_upd_proc i f (k : core) :
  length (k_ptable (upd_proc i f k)) = length (k_ptable k).
Proof. apply length_alter. Qed.

Lemma upd_proc_compose i f g (k : core) :
  upd_proc i f (upd_proc i g k) = upd_proc i (λ p, f (g p)) k.
Proof.
  unfold upd_proc, set_k_ptable; simpl. f_equal. apply list_eq. intros j.
  rewrite !list_lookup_alter. repeat case_decide; try done. by destruct (k_ptable k !! _).
Qed.
End core.
Arguments core V : clear implicits.

(** The memory image the kernel starts with: zeroed tables, the initialised
    globals of proc.c, no lock taken, and [ncpu] processors with interrupts
    enabled and nothing to run. *)
Definition boot_core {V : Type} (ncpu : nat) (v : V) : core V :=
  Core ((λ i, Cpu (Z.of_nat i) 0 0 0 FL_IF None) <$> seq 0 ncpu) 0
    (list_to_map [(PtableLock, Lock 0 None); (RRLock, Lock 0 None);
                  (TicksLock, Lock 0 None)])
    (replicate NPROC proc0) None 1 None None (Rng 1 2 3 4) 0 0 0 1 ∅ ∅ ∅ v.

Lemma proc_at_boot {V} ncpu (v : V) i : proc_at (boot_core ncpu v) i = proc0.
Proof.
  unfold proc_at, boot_core. cbn [k_ptable]. destruct (decide (i < NPROC)%nat).
  - by rewrite lookup_total_replicate_2.
  - rewrite list_lookup_total_alt, lookup_ge_None_2; [done|].
    rewrite length_replicate. lia.
Qed.
