(* ===== verification/Spinlock.v ===== *)
(** * Spin locks (spinlock.c)

    [pushcli]/[popcli], [acquire]/[release]/[holding] over the kernel core.
    [acquire] and [release] are composed of the atomic parts another processor
    can run between, so that the interleaving machine of the second half uses
    the same definitions as the routines. *)

From stdpp Require Import base list gmap functions strings.
From Stdlib Require Import ZArith Lia.
From S2P Require Import Prelude KState.

Section spinlock.
Context {V : Type}.
Abbreviation K := (core V).

(** ** The flags register *)

Definition readeflags : M K Z := gets (λ k, c_eflags (this_cpu k)).
Definition cli : M K unit :=
  modify (upd_cpu (λ c, set_c_eflags (Z.ldiff (c_eflags c) FL_IF) c)).
Definition sti : M K unit :=
  modify (upd_cpu (λ c, set_c_eflags (Z.lor (c_eflags c) FL_IF) c)).

(** ** Nested interrupt disabling *)

Definition pushcli : M K unit :=
  eflags ← readeflags;
  cli ;;
  ncli ← gets (λ k, c_ncli (this_cpu k));
  modify (upd_cpu (set_c_ncli (s32 (ncli + 1)))) ;;
  when (bool_decide (ncli = 0))
    (modify (upd_cpu (set_c_intena (Z.land eflags FL_IF)))).

Definition popcli : M K unit :=
  eflags ← readeflags;
  if decide (Z.land eflags FL_IF ≠ 0) then panic "popcli - interruptible" else
  ncli ← gets (λ k, s32 (c_ncli (this_cpu k) - 1));
  modify (upd_cpu (set_c_ncli ncli)) ;;
  if decide (ncli < 0) then panic "popcli" else
  intena ← gets (λ k, c_intena (this_cpu k));
  when (bool_decide (ncli = 0) && negb (bool_decide (intena = 0))) sti.

(** ** Locks *)

Definition lock_of (lk : lockid) (k : K) : lock := k_locks k !!! lk.
Definition set_lock (lk : lockid) (v : lock) : M K unit :=
  modify (λ k, set_k_locks (<[lk := v]> (k_locks k)) k).

Definition initlock (lk : lockid) : M K unit := set_lock lk (Lock 0 None).

Definition holding (lk : lockid) (k : K) : bool :=
  negb (bool_decide (lk_locked (lock_of lk k) = 0)) &&
  bool_decide (lk_cpu (lock_of lk k) = Some (k_mycpu k)).

(** The atomic exchange on [lk->locked]. *)
Definition xchg_locked (lk : lockid) (v : Z) : M K Z :=
  old ← gets (lock_of lk);
  set_lock lk (Lock v (lk_cpu old)) ;;
  mret (lk_locked old).

Definition acquire_enter (lk : lockid) : M K unit :=
  pushcli ;;
  h ← gets (holding lk);
  if (h : bool) then panic "acquire" else mret tt.

(** [lk->cpu = cpu] after the exchange succeeded. *)
Definition acquire_record (lk : lockid) : M K unit :=
  old ← gets (lock_of lk);
  c ← gets k_mycpu;
  set_lock lk (Lock (lk_locked old) (Some c)).

(** The spin loop ends when an exchange returns zero: from a state in which
    the lock is taken, only another processor can end it. *)
Definition acquire (lk : lockid) : M K unit :=
  acquire_enter lk ;;
  old ← xchg_locked lk 1;
  if decide (old ≠ 0) then block else acquire_record lk.

Definition release_clear (lk : lockid) : M K unit :=
  h ← gets (holding lk);
  if negb h then panic "release" else
  old ← gets (lock_of lk);
  set_lock lk (Lock (lk_locked old) None).

Definition release_drop (lk : lockid) : M K unit :=
  xchg_locked lk 0 ;;
  popcli.

Definition release (lk : lockid) : M K unit :=
  release_clear lk ;; release_drop lk.

(** A critical section: [acquire(lk); m; release(lk);]. *)
Definition locked {A : Type} (lk : lockid) (m : M K A) : M K A :=
  acquire lk ;;
  r ← m;
  release lk ;;
  mret r.
End spinlock.

(** ** The call stack

    [pcs_from n word ebp]: the return addresses of at most [n] frames, padded
    with zeros to [n]; [word] reads a word of memory. *)

Definition KERNBASE : Z := 0x80000000.

Fixpoint pcs_from (n : nat) (word : Z → Z) (ebp : Z) : list Z :=
  match n with
  | O => []
  | S n' =>
      if decide (ebp = 0 ∨ ebp < KERNBASE ∨ ebp = 0xffffffff) then replicate n 0
      else word (ebp + 4) :: pcs_from n' word (word ebp)
  end.

Definition getcallerpcs (word : Z → Z) (v : Z) : list Z := pcs_from 10 word (u32 (v - 8)).

Lemma length_getcallerpcs word v : length (getcallerpcs word v) = 10%nat.
Proof.
  unfold getcallerpcs. generalize (u32 (v - 8)) as ebp.
  generalize 10%nat as n. induction n as [|n IH]; intros ebp; [done|].
  cbn [pcs_from]. case_decide; [apply length_replicate|]. simpl. by rewrite IH.
Qed.

(** ** Closed forms of the routines

    When the lock is free [acquire] returns, and when it is held by this
    processor [release] does; the states they return are given by [acquired]
    and [released]. *)

Section closed_forms.
Context {V : Type}.
Abbreviation K := (core V).
Implicit Types (k : K) (lk : lockid) (c : cpu).

(** The processor's nesting depth is a small count, and interrupts are off
    while it is positive. *)
Definition cpu_wf (k : K) : Prop :=
  (k_mycpu k < length (k_cpus k))%nat ∧
  0 <= c_ncli (this_cpu k) < 2 ^ 31 - 1 ∧
  (0 < c_ncli (this_cpu k) → Z.land (c_eflags (this_cpu k)) FL_IF = 0).

Definition cpu_pushed (c : cpu) : cpu :=
  Cpu (c_id c) (c_started c) (c_ncli c + 1)
    (if decide (c_ncli c = 0) then Z.land (c_eflags c) FL_IF else c_intena c)
    (Z.ldiff (c_eflags c) FL_IF) (c_proc c).

Definition cpu_popped (c : cpu) : cpu :=
  Cpu (c_id c) (c_started c) (c_ncli c - 1) (c_intena c)
    (if decide (c_ncli c = 1 ∧ c_intena c ≠ 0) then Z.lor (c_eflags c) FL_IF
     else c_eflags c) (c_proc c).

Definition acquired (lk : lockid) (k : K) : K :=
  set_k_locks (<[lk := Lock 1 (Some (k_mycpu k))]> (k_locks k))
    (upd_cpu cpu_pushed k).

Definition released (lk : lockid) (k : K) : K :=
  set_k_locks (<[lk := Lock 0 None]> (k_locks k)) (upd_cpu cpu_popped k).

Lemma ldiff_IF e : Z.land (Z.ldiff e FL_IF) FL_IF = 0.
Proof.
  apply Z.bits_inj'. intros n Hn.
  rewrite Z.land_spec, Z.ldiff_spec, Z.bits_0.
  by destruct (Z.testbit e n), (Z.testbit FL_IF n).
Qed.

Lemma upd_cpu_upd_cpu f g k : upd_cpu f (upd_cpu g k) = upd_cpu (λ c, f (g c)) k.
Proof.
  unfold upd_cpu, set_k_cpus; simpl. f_equal.
  apply list_eq. intros i. destruct (decide (k_mycpu k = i)) as [<-|Hne].
  - rewrite !list_lookup_alter_eq. by destruct (k_cpus k !! k_mycpu k).
  - by rewrite !list_lookup_alter_ne.
Qed.

Lemma upd_cpu_ext f g k :
  f (this_cpu k) = g (this_cpu k) → upd_cpu f k = upd_cpu g k.
Proof.
  intros Hfg. unfold upd_cpu. f_equal. apply list_eq. intros i.
  rewrite !list_lookup_alter. case_decide; [|done].
  destruct (k_cpus k !! k_mycpu k) as [c|] eqn:Hc; [|done]. simpl. f_equal.
  assert (this_cpu k = c) as <- by by apply list_lookup_total_correct. done.
Qed.

Lemma this_cpu_upd_cpu f k :
  (k_mycpu k < length (k_cpus k))%nat → this_cpu (upd_cpu f k) = f (this_cpu k).
Proof. intros. unfold this_cpu, upd_cpu; simpl. by apply list_lookup_total_alter_eq. Qed.

Lemma pushcli_ret k : cpu_wf k → pushcli k = Ret tt (upd_cpu cpu_pushed k).
Proof.
  intros (Hmy & Hn & Hif). unfold pushcli, readeflags, cli, when. mstep.
  rewrite this_cpu_upd_cpu by done. simpl.
  rewrite s32_id by lia. rewrite upd_cpu_upd_cpu.
  case_bool_decide; rewrite ?upd_cpu_upd_cpu; f_equal; apply upd_cpu_ext;
    unfold cpu_pushed; destruct (this_cpu k); simpl in *; by case_decide.
Qed.

Lemma popcli_ret k :
  cpu_wf k → 0 < c_ncli (this_cpu k) → popcli k = Ret tt (upd_cpu cpu_popped k).
Proof.
  intros (Hmy & Hn & Hif) Hpos. unfold popcli, readeflags, sti, when. mstep.
  rewrite decide_False by (rewrite Hif; auto). simpl.
  rewrite s32_id by lia. rewrite decide_False by lia.
  rewrite this_cpu_upd_cpu by done.
  case_bool_decide; [case_bool_decide|]; simpl; rewrite ?upd_cpu_upd_cpu;
    f_equal; apply upd_cpu_ext; unfold cpu_popped;
    destruct (this_cpu k); simpl in *; case_decide; naive_solver lia.
Qed.

Lemma acquire_free lk k :
  cpu_wf k → lk_locked (lock_of lk k) = 0 → acquire lk k = Ret tt (acquired lk k).
Proof.
  intros Hwf Hfree. unfold acquire, acquire_enter.
  unfold mbind at 1. unfold M_bind at 1. unfold mbind at 1. unfold M_bind at 1.
  rewrite pushcli_ret by done.
  unfold holding, lock_of, xchg_locked, acquire_record, set_lock in *.
  mstep. unfold lock_of. simpl. rewrite Hfree. simpl.
  rewrite decide_False by lia.
  unfold acquired, set_k_locks; simpl. rewrite lookup_total_insert_eq. simpl.
  by rewrite insert_insert_eq.
Qed.

Lemma release_held lk k :
  cpu_wf k → 0 < c_ncli (this_cpu k) → holding lk k = true →
  release lk k = Ret tt (released lk k).
Proof.
  intros Hwf Hn Hh. unfold release, release_clear.
  unfold release_drop, xchg_locked, set_lock, lock_of. mstep. rewrite Hh. simpl.
  rewrite popcli_ret by (destruct Hwf; done).
  unfold released, upd_cpu, set_k_locks, set_k_cpus, lock_of; simpl.
  rewrite lookup_total_insert_eq. simpl. by rewrite insert_insert_eq.
Qed.

(** ** Critical sections

    [nest_ok n k]: the processor can enter [n] more critical sections.
    [same_sync k k']: [k'] has the processors and locks of [k]; what the code
    inside a critical section leaves as it finds it. *)

Definition nest_ok (n : Z) (k : K) : Prop :=
  cpu_wf k ∧ c_ncli (this_cpu k) + n < 2 ^ 31 - 1.

Definition same_sync (k k' : K) : Prop :=
  k_cpus k' = k_cpus k ∧ k_mycpu k' = k_mycpu k ∧ k_locks k' = k_locks k.

Lemma this_cpu_acquired lk k :
  cpu_wf k → this_cpu (acquired lk k) = cpu_pushed (this_cpu k).
Proof. intros [? _]. by apply (this_cpu_upd_cpu cpu_pushed k). Qed.

Lemma this_cpu_released lk k :
  cpu_wf k → this_cpu (released lk k) = cpu_popped (this_cpu k).
Proof. intros [? _]. by apply (this_cpu_upd_cpu cpu_popped k). Qed.

Lemma nest_ok_acquired n lk k :
  0 <= n → nest_ok (n + 1) k → nest_ok n (acquired lk k).
Proof.
  intros Hn [Hwf Hb]. pose proof (this_cpu_acquired lk k Hwf) as Ht.
  destruct Hwf as (Hm & Hr & Hi). unfold nest_ok, cpu_wf. rewrite Ht.
  simpl. rewrite length_alter. repeat split; try lia. intros _. apply ldiff_IF.
Qed.

Lemma same_sync_wf k k' : same_sync k k' → cpu_wf k → cpu_wf k'.
Proof.
  intros (H1 & H2 & H3). unfold cpu_wf, this_cpu. by rewrite H1, H2.
Qed.

Lemma same_sync_trans k1 k2 k3 :
  same_sync k1 k2 → same_sync k2 k3 → same_sync k1 k3.
Proof. unfold same_sync. naive_solver congruence. Qed.

Lemma holding_acquired lk k : holding lk (acquired lk k) = true.
Proof.
  unfold holding, acquired, lock_of; simpl. rewrite lookup_total_insert_eq. simpl.
  by rewrite bool_decide_eq_true_2.
Qed.

Lemma lock_of_acquired lk lk' k : lk ≠ lk' → lock_of lk' (acquired lk k) = lock_of lk' k.
Proof. intros. unfold lock_of, acquired; simpl. by rewrite lookup_total_insert_ne. Qed.

Lemma ldiff_IF_id e : Z.land e FL_IF = 0 → Z.ldiff e FL_IF = e.
Proof.
  intros He. apply Z.bits_inj'. intros n Hn. rewrite Z.ldiff_spec.
  apply (f_equal (λ z, Z.testbit z n)) in He. rewrite Z.land_spec, Z.bits_0 in He.
  by destruct (Z.testbit e n), (Z.testbit FL_IF n).
Qed.

Lemma lor_ldiff_IF e : Z.land e FL_IF ≠ 0 → Z.lor (Z.ldiff e FL_IF) FL_IF = e.
Proof.
  intros He. change FL_IF with (2 ^ 9) in *.
  assert (Z.testbit e 9 = true) as H9.
  { destruct (Z.testbit e 9) eqn:H9; [done|]. destruct He.
    apply Z.bits_inj'. intros n Hn. rewrite Z.land_spec, Z.bits_0, Z.pow2_bits_eqb by lia.
    destruct (Z.eqb_spec 9 n); subst; rewrite ?H9; by rewrite ?andb_false_r. }
  apply Z.bits_inj'. intros n Hn.
  rewrite Z.lor_spec, Z.ldiff_spec, Z.pow2_bits_eqb by lia.
  destruct (Z.eqb_spec 9 n); subst; rewrite ?H9; [done|].
  by rewrite orb_false_r, andb_true_r.
Qed.

(** A balanced push and pop restores the processor, but for [intena]. *)
Lemma cpu_pop_push c :
  0 <= c_ncli c → (0 < c_ncli c → Z.land (c_eflags c) FL_IF = 0) →
  cpu_popped (cpu_pushed c) =
  set_c_intena (c_intena (cpu_pushed c)) c.
Proof.
  intros Hn Hif. unfold cpu_popped, cpu_pushed, set_c_intena.
  destruct c as [i st n ie e p]; simpl in *. f_equal; [lia|].
  destruct (decide (n = 0)) as [->|Hne].
  - destruct (decide (Z.land e FL_IF = 0)) as [He|He].
    + rewrite decide_False by naive_solver. by apply ldiff_IF_id.
    + rewrite decide_True by done. by apply lor_ldiff_IF.
  - rewrite decide_False by lia. apply ldiff_IF_id. apply Hif. lia.
Qed.

(** Outside every critical section a critical section records the interrupt
    flag in [intena]; inside one it leaves no trace on the processor. *)
Definition settle (k : K) : K :=
  upd_cpu (λ c, if decide (c_ncli c = 0)
                then set_c_intena (Z.land (c_eflags c) FL_IF) c else c) k.

Definition lock_idle (lk : lockid) (k : K) : Prop :=
  k_locks k !! lk = Some (Lock 0 None).

Lemma lock_idle_free lk k : lock_idle lk k → lk_locked (lock_of lk k) = 0.
Proof. intros Hk. unfold lock_of. by rewrite (lookup_total_correct _ _ _ Hk). Qed.

Lemma released_acquired lk k :
  cpu_wf k → lock_idle lk k → released lk (acquired lk k) = settle k.
Proof.
  intros Hwf Hk. unfold released, acquired, settle.
  change (upd_cpu cpu_popped (set_k_locks ?l ?x)) with (set_k_locks l (upd_cpu cpu_popped x)).
  rewrite upd_cpu_upd_cpu. simpl. rewrite insert_insert_eq, insert_id by done.
  rewrite (upd_cpu_ext _ (λ c, if decide (c_ncli c = 0)
                then set_c_intena (Z.land (c_eflags c) FL_IF) c else c));
    [by destruct k|].
  destruct Hwf as (_ & ? & ?). rewrite cpu_pop_push by (done || lia).
  unfold set_c_intena, cpu_pushed; simpl. case_decide; [done|]. by destruct (this_cpu k).
Qed.

Lemma settle_nested k : 0 < c_ncli (this_cpu k) → settle k = k.
Proof.
  intros Hn. unfold settle. rewrite (upd_cpu_ext _ id) by (rewrite decide_False; [done|lia]).
  unfold upd_cpu. rewrite list_alter_id by done. by destruct k.
Qed.

Lemma settle_idem k : settle (settle k) = settle k.
Proof.
  unfold settle. rewrite upd_cpu_upd_cpu. apply upd_cpu_ext.
  destruct (this_cpu k) as [a b n d e f]; simpl. destruct (decide (n = 0)); simpl.
  - by rewrite decide_True.
  - by rewrite decide_False.
Qed.

Lemma this_cpu_settle k : cpu_wf k → this_cpu (settle k) =
  if decide (c_ncli (this_cpu k) = 0)
  then set_c_intena (Z.land (c_eflags (this_cpu k)) FL_IF) (this_cpu k) else this_cpu k.
Proof. intros [? _]. unfold settle. by rewrite this_cpu_upd_cpu. Qed.

Lemma nest_ok_settle n k : nest_ok n k → nest_ok n (settle k).
Proof.
  intros [Hwf Hb]. pose proof (this_cpu_settle k Hwf) as Ht.
  destruct Hwf as (Hm & Hr & Hi). unfold nest_ok, cpu_wf. rewrite Ht.
  unfold settle, upd_cpu; simpl. rewrite length_alter. by case_decide.
Qed.

Lemma nest_ok_sync n k k' : same_sync k k' → nest_ok n k → nest_ok n k'.
Proof. intros (H1 & H2 & H3). unfold nest_ok, cpu_wf, this_cpu. by rewrite H1, H2. Qed.

Lemma nest_ok_le n n' k : n' <= n → nest_ok n k → nest_ok n' k.
Proof. intros ? [? ?]. split; [done|lia]. Qed.

Lemma lock_idle_sync lk k k' : same_sync k k' → lock_idle lk k → lock_idle lk k'.
Proof. intros (_ & _ & H). unfold lock_idle. by rewrite H. Qed.

Lemma lock_idle_acquired lk lk' k :
  lk ≠ lk' → lock_idle lk' k → lock_idle lk' (acquired lk k).
Proof. intros ? Hk. unfold lock_idle, acquired; simpl. by rewrite lookup_insert_ne. Qed.

Lemma curproc_upd_cpu f k :
  (∀ c, c_proc (f c) = c_proc c) → curproc (upd_cpu f k) = curproc k.
Proof.
  intros Hf. unfold curproc, this_cpu, upd_cpu; simpl.
  rewrite list_lookup_total_alter. case_decide; [apply Hf|done].
Qed.

Lemma curproc_acquired lk k : curproc (acquired lk k) = curproc k.
Proof. by apply (curproc_upd_cpu cpu_pushed k). Qed.

Lemma curproc_settle k : curproc (settle k) = curproc k.
Proof. apply curproc_upd_cpu. intros c. by case_decide. Qed.

Lemma ncli_acquired lk k : cpu_wf k → 0 < c_ncli (this_cpu (acquired lk k)).
Proof. intros Hwf. rewrite this_cpu_acquired by done. destruct Hwf as (_ & ? & _). simpl. lia. Qed.

Lemma release_acquired lk k :
  nest_ok 1 k → lock_idle lk k → release lk (acquired lk k) = Ret tt (settle k).
Proof.
  intros Hn Hf. destruct (Hn) as [Hwf _].
  pose proof (nest_ok_acquired 0 lk k ltac:(lia) Hn) as [Hwf' _].
  rewrite release_held; [by rewrite released_acquired|done| |].
  - by apply ncli_acquired.
  - apply holding_acquired.
Qed.

(** A critical section whose body maps [acquired lk k] to [acquired lk k']
    maps [k] to [k'], settled. *)
Lemma critical {A} lk (m : M K A) (a : A) k k' :
  nest_ok 1 k → lock_idle lk k → same_sync k k' →
  m (acquired lk k) = Ret a (acquired lk k') →
  locked lk m k = Ret a (settle k').
Proof.
  intros Hn Hf Hs Hm. unfold locked, mbind, M_bind.
  rewrite acquire_free, Hm by (destruct Hn; auto using lock_idle_free).
  rewrite release_acquired; [done|by eapply nest_ok_sync|by eapply lock_idle_sync].
Qed.
End closed_forms.

(** ** The interleaving machine

    Every processor may at any time start to acquire a lock, exchange once in
    the spin loop, record itself as the owner, start a release, or finish it;
    the machine interleaves these atomic parts of [acquire] and [release] in
    any order, together with any other work that leaves the locks and the
    processors' interrupt state alone.  [m_held c] lists the locks processor [c] is inside of, and
    [m_phase c] says which routine it is in the middle of. *)

Inductive phase :=
  | PIdle | PTry (lk : lockid) | PTaken (lk : lockid) | PClear (lk : lockid).

Record machine (V : Type) := Machine {
  m_core : core V;
  m_phase : nat → phase;
  m_held : nat → list lockid
}.
Arguments Machine {V} _ _ _.
Arguments m_core {V} _.
Arguments m_phase {V} _ _.
Arguments m_held {V} _ _.

Section machine.
Context {V : Type}.
Abbreviation K := (core V).
Implicit Types (m : machine V) (c : nat) (lk : lockid).

(** The core as processor [c] sees it. *)
Definition on (c : nat) (k : K) : K := set_k_mycpu c k.

Inductive lock_step : machine V → machine V → Prop :=
  | step_enter m c lk k' :
      m_phase m c = PIdle → (c < length (k_cpus (m_core m)))%nat →
      c_ncli (this_cpu (on c (m_core m))) < 2 ^ 31 - 2 →
      acquire_enter lk (on c (m_core m)) = Ret tt k' →
      lock_step m (Machine k' (<[c := PTry lk]> (m_phase m)) (m_held m))
  | step_spin m c lk old k' :
      m_phase m c = PTry lk →
      xchg_locked lk 1 (on c (m_core m)) = Ret old k' → old ≠ 0 →
      lock_step m (Machine k' (m_phase m) (m_held m))
  | step_take m c lk old k' :
      m_phase m c = PTry lk →
      xchg_locked lk 1 (on c (m_core m)) = Ret old k' → old = 0 →
      lock_step m (Machine k' (<[c := PTaken lk]> (m_phase m)) (m_held m))
  | step_record m c lk k' :
      m_phase m c = PTaken lk →
      acquire_record lk (on c (m_core m)) = Ret tt k' →
      lock_step m (Machine k' (<[c := PIdle]> (m_phase m))
                     (<[c := lk :: m_held m c]> (m_held m)))
  | step_clear m c lk k' :
      m_phase m c = PIdle →
      release_clear lk (on c (m_core m)) = Ret tt k' →
      lock_step m (Machine k' (<[c := PClear lk]> (m_phase m))
                     (<[c := filter (λ l, l ≠ lk) (m_held m c)]> (m_held m)))
  | step_drop m c lk k' :
      m_phase m c = PClear lk →
      release_drop lk (on c (m_core m)) = Ret tt k' →
      lock_step m (Machine k' (<[c := PIdle]> (m_phase m)) (m_held m))
  | step_work m k' :
      same_sync (m_core m) k' →
      lock_step m (Machine k' (m_phase m) (m_held m)).

(** Processor [c] has taken [lk] and not yet given it back. *)
Definition owns (m : machine V) (c : nat) (lk : lockid) : Prop :=
  lk ∈ m_held m c ∨ m_phase m c = PTaken lk ∨ m_phase m c = PClear lk.

Definition depth (m : machine V) (c : nat) : Z :=
  Z.of_nat (length (m_held m c)) +
  match m_phase m c with PIdle => 0 | _ => 1 end.

(** No lock taken, nobody in a routine, interrupts not nested. *)
Definition lock_init (m : machine V) : Prop :=
  (∀ lk, lock_of lk (m_core m) = Lock 0 None) ∧
  (∀ c, m_phase m c = PIdle ∧ m_held m c = []) ∧
  (∀ c, (c < length (k_cpus (m_core m)))%nat →
        c_ncli (this_cpu (on c (m_core m))) = 0).

Record lock_inv (m : machine V) : Prop := {
  (** a lock is marked taken exactly when somebody owns it *)
  li_taken : ∀ lk, lk_locked (lock_of lk (m_core m)) ≠ 0 ↔ ∃ c, owns m c lk;
  (** at most one processor owns it, in at most one way *)
  li_one : ∀ c c' lk, owns m c lk → owns m c' lk → c = c';
  li_way : ∀ c lk,
    m_phase m c = PTaken lk ∨ m_phase m c = PClear lk → lk ∉ m_held m c;
  li_nodup : ∀ c, NoDup (m_held m c);
  (** the recorded owner is the processor inside the critical section *)
  li_cpu : ∀ c lk, lk_cpu (lock_of lk (m_core m)) = Some c ↔ lk ∈ m_held m c
}.

(** The nesting depth counts the locks, and is positive only with interrupts
    off; a processor that does not exist does nothing. *)
Record depth_inv (m : machine V) : Prop := {
  di_ncli : ∀ c, (c < length (k_cpus (m_core m)))%nat →
    c_ncli (this_cpu (on c (m_core m))) = depth m c ∧ depth m c < 2 ^ 31 - 1;
  di_if : ∀ c, 0 < depth m c →
    Z.land (c_eflags (this_cpu (on c (m_core m)))) FL_IF = 0;
  di_none : ∀ c, (length (k_cpus (m_core m)) <= c)%nat →
    m_phase m c = PIdle ∧ m_held m c = []
}.

Lemma owns_init m c lk : lock_init m → ¬ owns m c lk.
Proof.
  intros (_ & Hp & _) Ho. destruct (Hp c) as [Hc Hh]. unfold owns in Ho.
  rewrite Hc, Hh in Ho. set_solver.
Qed.

Lemma lock_inv_init m : lock_init m → lock_inv m.
Proof.
  intros Hi. pose proof (owns_init m) as Hno. destruct Hi as (Hl & Hp & Hn).
  split.
  - intros lk. rewrite Hl. simpl. split; [done|]. intros [c Ho].
    by destruct (Hno c lk).
  - intros c c' lk Ho. by destruct (Hno c lk).
  - intros c lk _. destruct (Hp c) as [_ ->]. set_solver.
  - intros c. destruct (Hp c) as [_ ->]. apply NoDup_nil_2.
  - intros c lk. rewrite Hl. destruct (Hp c) as [_ ->]. simpl. set_solver.
Qed.

Lemma depth_inv_init m : lock_init m → depth_inv m.
Proof.
  intros (Hl & Hp & Hn). assert (∀ c, depth m c = 0) as Hd.
  { intros c. unfold depth. by destruct (Hp c) as [-> ->]. }
  split; intros c; rewrite ?Hd; [|lia|by intros; apply Hp].
  intros Hc. rewrite Hn by done. lia.
Qed.

(** Effects of the atomic parts on the locks. *)
Lemma xchg_locked_ret lk v old (k k' : K) :
  xchg_locked lk v k = Ret old k' →
  old = lk_locked (lock_of lk k) ∧
  k' = set_k_locks (<[lk := Lock v (lk_cpu (lock_of lk k))]> (k_locks k)) k.
Proof. unfold xchg_locked, set_lock. mstep. by intros [= <- <-]. Qed.

Lemma release_clear_ret lk (k k' : K) :
  release_clear lk k = Ret tt k' →
  holding lk k = true ∧
  k' = set_k_locks (<[lk := Lock (lk_locked (lock_of lk k)) None]> (k_locks k)) k.
Proof.
  unfold release_clear, set_lock. mstep. destruct (holding lk k); simpl; [|done].
  by intros [= <-].
Qed.

Lemma lock_of_set lk lk' v (k : K) :
  lock_of lk' (set_k_locks (<[lk := v]> (k_locks k)) k) =
  if decide (lk = lk') then v else lock_of lk' k.
Proof. unfold lock_of; simpl. rewrite lookup_total_insert. by case_decide. Qed.

Lemma this_cpu_on_upd c c' f (k : K) :
  (c < length (k_cpus k))%nat →
  this_cpu (on c' (upd_cpu f (on c k))) =
  if decide (c = c') then f (this_cpu (on c k)) else this_cpu (on c' k).
Proof.
  intros Hc. unfold this_cpu, on, upd_cpu; simpl.
  rewrite list_lookup_total_alter. case_decide; case_decide; naive_solver.
Qed.

Lemma acquire_enter_ret lk (k k' : K) :
  cpu_wf k → acquire_enter lk k = Ret tt k' → k' = upd_cpu cpu_pushed k.
Proof.
  intros Hwf. unfold acquire_enter. unfold mbind at 1, M_bind at 1.
  rewrite pushcli_ret by done. mstep. by destruct (holding _ _); intros [= <-].
Qed.

Lemma release_drop_ret lk (k k' : K) :
  cpu_wf k → 0 < c_ncli (this_cpu k) → release_drop lk k = Ret tt k' →
  k' = set_k_locks (<[lk := Lock 0 (lk_cpu (lock_of lk k))]> (k_locks k))
         (upd_cpu cpu_popped k).
Proof.
  intros Hwf Hn. unfold release_drop, xchg_locked, set_lock. mstep.
  rewrite popcli_ret by (destruct Hwf; done). by intros [= <-].
Qed.

Lemma depth_pos m c : m_phase m c ≠ PIdle → 0 < depth m c.
Proof. unfold depth. destruct (m_phase m c); [done|lia..]. Qed.

Lemma depth_inv_cpu m c :
  depth_inv m → m_phase m c ≠ PIdle ∨ m_held m c ≠ [] →
  (c < length (k_cpus (m_core m)))%nat.
Proof.
  intros Hd Hc. destruct (decide (c < length (k_cpus (m_core m)))%nat); [done|].
  destruct (di_none m Hd c); [lia|]. naive_solver.
Qed.

Lemma depth_inv_wf m c :
  depth_inv m → (c < length (k_cpus (m_core m)))%nat → cpu_wf (on c (m_core m)).
Proof.
  intros Hd Hc. destruct (di_ncli m Hd c Hc) as [Hn Hb].
  assert (0 <= depth m c) by (unfold depth; destruct (m_phase m c); lia).
  split; [done|]. rewrite Hn. split; [lia|]. by apply di_if.
Qed.

(** The two shapes of change to ownership: none, or by one processor and
    one lock. *)
Lemma lock_inv_held m c lk :
  lock_inv m → holding lk (on c (m_core m)) = true → lk ∈ m_held m c.
Proof.
  intros Hi Hh. apply andb_true_iff in Hh as [_ Hc].
  apply bool_decide_eq_true in Hc. by apply (li_cpu m Hi).
Qed.

(** Case analysis on a function updated at one processor. *)
Ltac at_cpu c c' :=
  destruct (decide (c = c')) as [<-|?Hne];
  rewrite ?fn_lookup_insert, ?fn_lookup_insert_ne by done.

Lemma lock_inv_same m m' :
  lock_inv m →
  (∀ l, lk_locked (lock_of l (m_core m')) ≠ 0 ↔ lk_locked (lock_of l (m_core m)) ≠ 0) →
  (∀ c l, owns m' c l ↔ owns m c l) →
  (∀ c l, m_phase m' c = PTaken l ∨ m_phase m' c = PClear l → l ∉ m_held m' c) →
  (∀ c, NoDup (m_held m' c)) →
  (∀ c l, lk_cpu (lock_of l (m_core m')) = Some c ↔ l ∈ m_held m' c) →
  lock_inv m'.
Proof.
  intros Hi Hl Ho Hw Hn Hc. split; try done.
  - intros l. rewrite Hl, (li_taken m Hi). by setoid_rewrite Ho.
  - intros c c' l. rewrite !Ho. apply (li_one m Hi).
Qed.

Lemma acquire_record_ret lk (k k' : K) :
  acquire_record lk k = Ret tt k' →
  k' = set_k_locks (<[lk := Lock (lk_locked (lock_of lk k)) (Some (k_mycpu k))]>
         (k_locks k)) k.
Proof. unfold acquire_record, set_lock. mstep. by intros [= <-]. Qed.

Lemma lock_of_on c lk (k : K) : lock_of lk (on c k) = lock_of lk k.
Proof. done. Qed.

Lemma step_enter_inv m c lk (k' : K) :
  lock_inv m → k_locks k' = k_locks (m_core m) → m_phase m c = PIdle →
  lock_inv (Machine k' (<[c := PTry lk]> (m_phase m)) (m_held m)).
Proof.
  intros Hi Hk Hc. apply (lock_inv_same m); [done|..]; cbn [m_core m_phase m_held].
  - intros l. unfold lock_of. by rewrite Hk.
  - intros c' l. unfold owns; simpl. at_cpu c c'; [rewrite Hc; naive_solver|done].
  - intros c' l. at_cpu c c'; [naive_solver|apply (li_way m Hi)].
  - apply (li_nodup m Hi).
  - intros c' l. unfold lock_of. rewrite Hk. apply (li_cpu m Hi).
Qed.

Lemma step_spin_inv m c lk old (k' : K) :
  lock_inv m → xchg_locked lk 1 (on c (m_core m)) = Ret old k' → old ≠ 0 →
  lock_inv (Machine k' (m_phase m) (m_held m)).
Proof.
  intros Hi [-> ->]%xchg_locked_ret Hold. apply (lock_inv_same m); [done|..]; cbn [m_core m_phase m_held].
  - intros l. rewrite lock_of_set, ?lock_of_on. case_decide; [by subst|done].
  - done.
  - apply (li_way m Hi).
  - apply (li_nodup m Hi).
  - intros c' l. rewrite lock_of_set, ?lock_of_on. case_decide; [subst|]; apply (li_cpu m Hi).
Qed.

Lemma step_take_inv m c lk old (k' : K) :
  lock_inv m → m_phase m c = PTry lk →
  xchg_locked lk 1 (on c (m_core m)) = Ret old k' → old = 0 →
  lock_inv (Machine k' (<[c := PTaken lk]> (m_phase m)) (m_held m)).
Proof.
  intros Hi Hc [-> ->]%xchg_locked_ret Hold.
  assert (∀ c', ¬ owns m c' lk) as Hfree.
  { intros c' Ho. assert (lk_locked (lock_of lk (m_core m)) ≠ 0); [|done].
    apply (li_taken m Hi). by exists c'. }
  assert (∀ c' l, owns (Machine
    (set_k_locks (<[lk:=Lock 1 (lk_cpu (lock_of lk (on c (m_core m))))]>
       (k_locks (on c (m_core m)))) (on c (m_core m)))
    (<[c := PTaken lk]> (m_phase m)) (m_held m)) c' l
    ↔ owns m c' l ∨ (c' = c ∧ l = lk)) as Ho.
  { intros c' l. unfold owns; simpl. at_cpu c c'; [rewrite Hc|]; naive_solver. }
  split.
  - intros l. setoid_rewrite Ho. cbn [m_core m_phase m_held]. rewrite lock_of_set, ?lock_of_on.
    case_decide; subst; simpl; [naive_solver|].
    rewrite (li_taken m Hi). naive_solver.
  - intros c1 c2 l. rewrite !Ho. intros [H1|[-> ->]] [H2|[-> ?]]; subst; try done.
    + by apply (li_one m Hi c1 c2 l).
    + by destruct (Hfree c1).
    + by destruct (Hfree c2).
  - intros c' l. simpl. at_cpu c c'; [|apply (li_way m Hi)].
    intros [[= <-]|[=]] Hin. destruct (Hfree c). by left.
  - apply (li_nodup m Hi).
  - intros c' l. cbn [m_core m_phase m_held]. rewrite lock_of_set, ?lock_of_on.
    case_decide; [subst|]; apply (li_cpu m Hi).
Qed.

Lemma step_record_inv m c lk (k' : K) :
  lock_inv m → m_phase m c = PTaken lk →
  acquire_record lk (on c (m_core m)) = Ret tt k' →
  lock_inv (Machine k' (<[c := PIdle]> (m_phase m))
              (<[c := lk :: m_held m c]> (m_held m))).
Proof.
  intros Hi Hc ->%acquire_record_ret. apply (lock_inv_same m); [done|..]; cbn [m_core m_phase m_held].
  - intros l. rewrite lock_of_set, ?lock_of_on. case_decide; [by subst|done].
  - intros c' l. unfold owns; simpl. at_cpu c c'; [|done].
    rewrite Hc, elem_of_cons. naive_solver.
  - intros c' l. at_cpu c c'; [naive_solver|apply (li_way m Hi)].
  - intros c'. at_cpu c c'; [|apply (li_nodup m Hi)].
    apply NoDup_cons_2; [|apply (li_nodup m Hi)]. apply (li_way m Hi). by left.
  - intros c' l. rewrite lock_of_set, ?lock_of_on. case_decide as Hl; simpl.
    + subst l. at_cpu c c'; [set_solver|]. split; [congruence|]. intros Hin.
      destruct Hne. apply (li_one m Hi c c' lk); [right|]; by left.
    + rewrite (li_cpu m Hi). at_cpu c c'; [set_solver|done].
Qed.

Lemma step_clear_inv m c lk (k' : K) :
  lock_inv m → m_phase m c = PIdle →
  release_clear lk (on c (m_core m)) = Ret tt k' →
  lock_inv (Machine k' (<[c := PClear lk]> (m_phase m))
              (<[c := filter (λ l, l ≠ lk) (m_held m c)]> (m_held m))).
Proof.
  intros Hi Hc [Hh ->]%release_clear_ret.
  apply lock_inv_held in Hh; [|done].
  apply (lock_inv_same m); [done|..]; cbn [m_core m_phase m_held].
  - intros l. rewrite lock_of_set, ?lock_of_on. case_decide; [by subst|done].
  - intros c' l. unfold owns; simpl. at_cpu c c'; [|done].
    rewrite Hc, list_elem_of_filter. destruct (decide (l = lk)); naive_solver.
  - intros c' l. at_cpu c c'; [|apply (li_way m Hi)].
    rewrite list_elem_of_filter. naive_solver.
  - intros c'. at_cpu c c'; [apply NoDup_filter|]; apply (li_nodup m Hi).
  - intros c' l. rewrite lock_of_set, ?lock_of_on. case_decide as Hl; simpl.
    + subst l. split; [done|]. at_cpu c c'; [rewrite list_elem_of_filter; naive_solver|].
      intros Hin. destruct Hne. apply (li_one m Hi c c' lk); by left.
    + rewrite (li_cpu m Hi). at_cpu c c'; [rewrite list_elem_of_filter; naive_solver|done].
Qed.

Lemma step_drop_inv m c lk (k' : K) :
  lock_inv m → m_phase m c = PClear lk → cpu_wf (on c (m_core m)) →
  0 < c_ncli (this_cpu (on c (m_core m))) →
  release_drop lk (on c (m_core m)) = Ret tt k' →
  lock_inv (Machine k' (<[c := PIdle]> (m_phase m)) (m_held m)).
Proof.
  intros Hi Hc Hwf Hn ->%release_drop_ret; [|done..].
  set (m' := Machine _ _ _).
  assert (lk ∉ m_held m c) as Hnh by (apply (li_way m Hi); by right).
  assert (∀ l, lock_of l (m_core m') = if decide (lk = l)
    then Lock 0 (lk_cpu (lock_of lk (m_core m))) else lock_of l (m_core m)) as Hl.
  { intros l. unfold lock_of; simpl. rewrite lookup_total_insert. by case_decide. }
  assert (owns m c lk) as Hown by (right; by right).
  assert (∀ c' l, owns m' c' l ↔ owns m c' l ∧ l ≠ lk) as Ho.
  { intros c' l. unfold owns; simpl. at_cpu c c'; [rewrite Hc; naive_solver|].
    split; [|naive_solver]. intros Ho. split; [done|]. intros ->. destruct Hne.
    by apply (li_one m Hi c c' lk). }
  split.
  - intros l. rewrite Hl. setoid_rewrite Ho. case_decide; simpl; [naive_solver|].
    rewrite (li_taken m Hi). naive_solver.
  - intros c1 c2 l. rewrite !Ho. intros [H1 _] [H2 _]. by apply (li_one m Hi c1 c2 l).
  - intros c' l. simpl. at_cpu c c'; [naive_solver|apply (li_way m Hi)].
  - apply (li_nodup m Hi).
  - intros c' l. rewrite Hl. case_decide; [subst|]; simpl; apply (li_cpu m Hi).
Qed.

(** ** Nesting depth and interrupts *)

Lemma length_filter_ne (l : list lockid) lk :
  NoDup l → lk ∈ l → length l = S (length (filter (λ x, x ≠ lk) l)).
Proof.
  induction l as [|x l IH]; intros Hnd Hin; [set_solver|].
  apply NoDup_cons in Hnd as [Hx Hnd]. rewrite filter_cons. simpl.
  destruct (decide (x = lk)) as [->|Hne].
  - rewrite decide_False by naive_solver. f_equal. f_equal. symmetry.
    apply list_filter_id. set_solver.
  - rewrite decide_True by done. simpl. rewrite IH; [done..|set_solver].
Qed.

(** A step that leaves the processors alone and every depth as it was. *)
Lemma depth_inv_same m m' :
  depth_inv m → k_cpus (m_core m') = k_cpus (m_core m) →
  (∀ c, depth m' c = depth m c) →
  (∀ c, m_phase m c = PIdle ∧ m_held m c = [] →
        m_phase m' c = PIdle ∧ m_held m' c = []) →
  depth_inv m'.
Proof.
  intros Hd Hk Hdep Hnone.
  assert (∀ c, this_cpu (on c (m_core m')) = this_cpu (on c (m_core m))) as Hc.
  { intros c. unfold this_cpu, on; simpl. by rewrite Hk. }
  split; intros c; rewrite ?Hk, ?Hc, ?Hdep.
  - apply (di_ncli m Hd).
  - apply (di_if m Hd).
  - intros Hl. by apply Hnone, (di_none m Hd).
Qed.

Lemma step_enter_depth m c lk :
  depth_inv m → m_phase m c = PIdle → (c < length (k_cpus (m_core m)))%nat →
  c_ncli (this_cpu (on c (m_core m))) < 2 ^ 31 - 2 →
  depth_inv (Machine (upd_cpu cpu_pushed (on c (m_core m)))
               (<[c := PTry lk]> (m_phase m)) (m_held m)).
Proof.
  intros Hd Hc Hlt Hb. set (m' := Machine _ _ _).
  assert (∀ c', depth m' c' = depth m c' + if decide (c = c') then 1 else 0) as Hdep.
  { intros c'. unfold depth; simpl. case_decide; [subst c'|].
    - rewrite fn_lookup_insert, Hc. lia.
    - rewrite fn_lookup_insert_ne by done. lia. }
  assert (length (k_cpus (m_core m')) = length (k_cpus (m_core m))) as Hlen
    by (simpl; apply length_alter).
  split; intros c'; rewrite ?Hlen, ?Hdep; simpl m_core;
    rewrite ?(this_cpu_on_upd c c') by done.
  - intros Hc'. destruct (di_ncli m Hd c' Hc') as [Hn Hb'].
    case_decide; [subst c'; simpl; lia|lia].
  - intros Hpos. case_decide; [subst c'; simpl; apply ldiff_IF|].
    apply (di_if m Hd). lia.
  - intros Hc'. simpl. rewrite fn_lookup_insert_ne by lia. by apply (di_none m Hd).
Qed.

Lemma step_drop_depth m c lk :
  depth_inv m → m_phase m c = PClear lk →
  depth_inv (Machine
    (set_k_locks (<[lk := Lock 0 (lk_cpu (lock_of lk (on c (m_core m))))]>
       (k_locks (on c (m_core m)))) (upd_cpu cpu_popped (on c (m_core m))))
    (<[c := PIdle]> (m_phase m)) (m_held m)).
Proof.
  intros Hd Hc. set (m' := Machine _ _ _).
  assert (c < length (k_cpus (m_core m)))%nat as Hlt
    by (apply depth_inv_cpu; [done|left; by rewrite Hc]).
  assert (∀ c', depth m' c' = depth m c' - if decide (c = c') then 1 else 0) as Hdep.
  { intros c'. unfold depth; simpl. case_decide; [subst c'|].
    - rewrite fn_lookup_insert, Hc. lia.
    - rewrite fn_lookup_insert_ne by done. lia. }
  assert (∀ c', this_cpu (on c' (m_core m')) = this_cpu (on c' (upd_cpu cpu_popped (on c (m_core m))))) as Ht by done.
  assert (length (k_cpus (m_core m')) = length (k_cpus (m_core m))) as Hlen
    by (simpl; apply length_alter).
  split; intros c'; rewrite ?Hlen, ?Hdep, ?Ht, ?(this_cpu_on_upd c c') by done.
  - intros Hc'. destruct (di_ncli m Hd c' Hc') as [Hn Hb'].
    case_decide; [subst c'; simpl; lia|lia].
  - intros Hpos. destruct (di_ncli m Hd c Hlt) as [Hn _]. case_decide.
    + subst c'. simpl. rewrite decide_False by lia. apply (di_if m Hd). lia.
    + apply (di_if m Hd). lia.
  - intros Hc'. simpl. rewrite fn_lookup_insert_ne by lia. by apply (di_none m Hd).
Qed.

Lemma lock_step_inv m m' :
  lock_step m m' → lock_inv m ∧ depth_inv m → lock_inv m' ∧ depth_inv m'.
Proof.
  intros Hs [Hi Hd]. destruct Hs as
    [m c lk k' Hc Hlt Hb Hk|m c lk old k' Hc Hk Ho|m c lk old k' Hc Hk Ho
    |m c lk k' Hc Hk|m c lk k' Hc Hk|m c lk k' Hc Hk|m k' Hk].
  - apply acquire_enter_ret in Hk as ->; [|by apply depth_inv_wf].
    split; [by apply step_enter_inv|by apply step_enter_depth].
  - split; [by eapply step_spin_inv|]. apply xchg_locked_ret in Hk as [_ ->].
    by apply (depth_inv_same m).
  - split; [by eapply step_take_inv|]. apply xchg_locked_ret in Hk as [_ ->].
    apply (depth_inv_same m); [done..| |]; intros c'; unfold depth; simpl;
      at_cpu c c'; rewrite ?Hc; naive_solver.
  - split; [by eapply step_record_inv|]. apply acquire_record_ret in Hk as ->.
    apply (depth_inv_same m); [done..| |]; intros c'; unfold depth; simpl;
      at_cpu c c'; rewrite ?Hc; simpl; [lia|done|naive_solver|done].
  - split; [by eapply step_clear_inv|]. apply release_clear_ret in Hk as [Hh ->].
    apply lock_inv_held in Hh; [|done].
    apply (depth_inv_same m); [done..| |]; intros c'; unfold depth; simpl;
      at_cpu c c'; rewrite ?Hc; simpl;
      [|done|intros [_ He]; rewrite He in Hh; by apply not_elem_of_nil in Hh|done].
    rewrite (length_filter_ne (m_held m c) lk); [lia|apply (li_nodup m Hi)|done].
  - assert (c < length (k_cpus (m_core m)))%nat as Hlt
      by (apply depth_inv_cpu; [done|left; by rewrite Hc]).
    pose proof (depth_inv_wf m c Hd Hlt) as Hwf.
    assert (0 < c_ncli (this_cpu (on c (m_core m)))) as Hpos.
    { rewrite (proj1 (di_ncli m Hd c Hlt)). apply depth_pos. by rewrite Hc. }
    split; [by eapply step_drop_inv|].
    apply release_drop_ret in Hk as ->; [|done..]. by apply step_drop_depth.
  - destruct Hk as (Hc & _ & Hl). split.
    + destruct Hi. apply (lock_inv_same m); [by split|..]; simpl; try done;
        unfold lock_of in *; simpl; by rewrite Hl.
    + by apply (depth_inv_same m).
Qed.

Lemma lock_steps_inv m m' :
  rtc lock_step m m' → lock_inv m ∧ depth_inv m → lock_inv m' ∧ depth_inv m'.
Proof. induction 1; eauto using lock_step_inv. Qed.

(** C3. Mutual exclusion.  However the processors interleave the parts of
    [acquire] and [release], from a state with all locks free: no two
    processors are inside a critical section of the same lock, [holding] answers
    on each processor exactly whether it is inside, a lock somebody is inside of
    is marked taken, and a processor inside a critical section has interrupts
    off and its nesting depth equal to the number of locks it holds. *)
Theorem mutual_exclusion m m' :
  lock_init m → rtc lock_step m m' →
  (∀ c c' lk, lk ∈ m_held m' c → lk ∈ m_held m' c' → c = c') ∧
  (∀ c lk, holding lk (on c (m_core m')) = true ↔ lk ∈ m_held m' c) ∧
  (∀ c lk, lk ∈ m_held m' c →
     lk_locked (lock_of lk (m_core m')) ≠ 0 ∧
     Z.land (c_eflags (this_cpu (on c (m_core m')))) FL_IF = 0) ∧
  (∀ c, m_phase m' c = PIdle → (c < length (k_cpus (m_core m')))%nat →
     c_ncli (this_cpu (on c (m_core m'))) = Z.of_nat (length (m_held m' c))).
Proof.
  intros Hm Hs. destruct (lock_steps_inv m m' Hs) as [Hi Hd];
    [auto using lock_inv_init, depth_inv_init|].
  assert (∀ c lk, lk ∈ m_held m' c → lk_locked (lock_of lk (m_core m')) ≠ 0) as Ht.
  { intros c lk Hlk. apply (li_taken m' Hi). exists c. by left. }
  repeat split.
  - intros c c' lk H1 H2. apply (li_one m' Hi c c' lk); by left.
  - by apply lock_inv_held.
  - intros Hlk. unfold holding. rewrite !lock_of_on.
    apply andb_true_intro. split.
    + by rewrite bool_decide_eq_false_2 by eauto.
    + apply bool_decide_eq_true_2. by apply (li_cpu m' Hi).
  - eauto.
  - apply (di_if m' Hd). unfold depth.
    destruct (m_held m' c) eqn:He; [by apply not_elem_of_nil in H|].
    destruct (m_phase m' c); simpl; lia.
  - intros c Hc Hlt. rewrite (proj1 (di_ncli m' Hd c Hlt)). unfold depth. rewrite Hc. lia.
Qed.
End machine.

(** Two processors; the first has acquired [ptable.lock]. *)
Lemma mutual_exclusion_witness :
  let m0 := Machine (boot_core 2 tt) (λ _, PIdle) (λ _, []) in
  ∃ m', rtc lock_step m0 m' ∧ PtableLock ∈ m_held m' 0 ∧
    (∀ c, PtableLock ∈ m_held m' c → 0%nat = c) ∧
    c_ncli (this_cpu (on 0 (m_core m'))) = 1.
Proof.
  intros m0. set (lk := PtableLock).
  assert (∃ m', rtc lock_step m0 m' ∧ lk ∈ m_held m' 0 ∧ lock_init m0 ∧
    m_phase m' 0%nat = PIdle ∧ (0 < length (k_cpus (m_core m')))%nat ∧
    length (m_held m' 0%nat) = 1%nat) as (m' & Hs & Hin & Hi & Hp & Hl & Hn).
  { eexists. split; [|split; [|split; [|split; [|split]]]].
    - eapply rtc_l; [eapply (step_enter _ 0 lk); [done|vm_compute; lia|done|reflexivity]|].
      eapply rtc_l; [eapply (step_take _ 0 lk); [done|reflexivity|done]|].
      eapply rtc_l; [eapply (step_record _ 0 lk); [done|reflexivity]|]. apply rtc_refl.
    - left.
    - split; [|split].
      + by intros [| | |a].
      + done.
      + intros [|[|c]] Hc; [done..|]. vm_compute in Hc. lia.
    - done.
    - vm_compute. lia.
    - done. }
  destruct (mutual_exclusion m0 m' Hi Hs) as (H1 & H2 & H3 & H4).
  exists m'. split; [done|]. split; [done|]. split.
  - intros c Hc. by apply (H1 0%nat c lk).
  - rewrite H4 by done. by rewrite Hn.
Defined.
