(* ===== verification/RRQueue.v ===== *)
(** * The run queue (proc.c: rrqueue, pushProcToRRqueue,
    removeProcFromRRqueue, printRRQueue)

    The queue is a doubly linked list threaded through the process table by
    [rrnext] and [rrprev].  Its specification is a list of slots:
    [rr_repr k q] says that the links of [k] represent [q], and the theorems
    show that pushing appends, removing deletes, and walking the list from
    either end visits [q] and stops. *)

From stdpp Require Import base list gmap strings.
From Stdlib Require Import ZArith Lia.
From S2P Require Import Prelude KState Spinlock.

Section rrqueue.
Context {V : Type}.
Abbreviation K := (core V).

(** Push process [p] to the Round Robin FIFO queue: the part between
    [acquire] and [release]. *)
Definition push_links (p : nat) : M K unit :=
  first ← gets k_first;
  when (bool_decide (first = None)) (modify (set_k_first (Some p))) ;;
  last ← gets k_last;
  match last with
  | Some l =>
      assign l (set_p_rrnext (Some p)) ;;
      assign p (set_p_rrprev (Some l))
  | None => mret tt
  end ;;
  modify (set_k_last (Some p)).

Definition pushProcToRRqueue (p : nat) : M K unit :=
  locked RRLock (push_links p).

(** Remove process [p] from the Round Robin FIFO queue. *)
Definition removeProcFromRRqueue (p : nat) : M K unit :=
  prev ← field p p_rrprev;
  match prev with
  | Some a => next ← field p p_rrnext; assign a (set_p_rrnext next)
  | None => mret tt
  end ;;
  next ← field p p_rrnext;
  match next with
  | Some b => prev ← field p p_rrprev; assign b (set_p_rrprev prev)
  | None => mret tt
  end ;;
  first ← gets k_first;
  when (bool_decide (Some p = first))
    (next ← field p p_rrnext; modify (set_k_first next)) ;;
  last ← gets k_last;
  when (bool_decide (Some p = last))
    (prev ← field p p_rrprev; modify (set_k_last prev)) ;;
  assign p (set_p_rrnext None) ;;
  assign p (set_p_rrprev None).

(** [while(p != 0) p = p->rrnext;] *)
Fixpoint walk_next (fuel : nat) (p : option nat) : M K unit :=
  match p with
  | None => mret tt
  | Some i =>
      match fuel with
      | O => block
      | S fuel' => next ← field i p_rrnext; walk_next fuel' next
      end
  end.

(** A list of [n] slots is walked in [n] steps, so the number of slots is
    enough fuel for every queue. *)
Definition queue_fuel (k : K) : nat := S (length (k_ptable k)).

Definition printRRQueue : M K unit :=
  acquire RRLock ;;
  p ← gets k_first;
  fuel ← gets queue_fuel;
  walk_next fuel p ;;
  release RRLock.

(** ** The specification of the links *)

(** [dseg nx pv a q b]: following [nx] visits [q] and ends in [b], and
    following [pv] backwards ends in [a]. *)
Fixpoint dseg (nx pv : nat → option nat) (a : option nat) (q : list nat)
    (b : option nat) : Prop :=
  match q with
  | [] => True
  | i :: q' =>
      pv i = a ∧
      nx i = match q' with [] => b | j :: _ => Some j end ∧
      dseg nx pv (Some i) q' b
  end.

Definition rr_next (k : K) (i : nat) : option nat := p_rrnext (proc_at k i).
Definition rr_prev (k : K) (i : nat) : option nat := p_rrprev (proc_at k i).

Record rr_repr (k : K) (q : list nat) : Prop := {
  rr_nodup : NoDup q;
  rr_bound : ∀ i, i ∈ q → (i < length (k_ptable k))%nat;
  rr_firstE : k_first k = head q;
  rr_lastE : k_last k = last q;
  rr_seg : dseg (rr_next k) (rr_prev k) None q None;
  rr_out : ∀ i, i ∉ q → rr_next k i = None ∧ rr_prev k i = None
}.

(** ** Segments *)

Section segments.
Implicit Types (nx pv : nat → option nat) (q : list nat).

Definition head_or q (b : option nat) : option nat :=
  match q with [] => b | j :: _ => Some j end.
Fixpoint last_or (a : option nat) q : option nat :=
  match q with [] => a | j :: q' => last_or (Some j) q' end.

Lemma last_or_last a q : last_or a q = match last q with None => a | l => l end.
Proof.
  revert a. induction q as [|x q IH]; intros a; [done|]. simpl. rewrite IH.
  destruct q as [|y q]; [done|]. rewrite last_cons_cons.
  destruct (last (y :: q)) eqn:Hl; [done|]. by apply last_None in Hl.
Qed.

Lemma dseg_app nx pv a q1 q2 b :
  dseg nx pv a (q1 ++ q2) b ↔
  dseg nx pv a q1 (head_or q2 b) ∧ dseg nx pv (last_or a q1) q2 b.
Proof.
  revert a. induction q1 as [|i q1 IH]; intros a; simpl; [naive_solver|].
  rewrite IH. destruct q1 as [|j q1]; simpl; [destruct q2|]; naive_solver.
Qed.

Lemma dseg_ext nx pv nx' pv' a q b :
  (∀ i, i ∈ q → nx' i = nx i ∧ pv' i = pv i) →
  dseg nx pv a q b → dseg nx' pv' a q b.
Proof.
  revert a. induction q as [|i q IH]; intros a He; simpl; [done|].
  destruct (He i) as [-> ->]; [left|]. intros (? & ? & ?). repeat split; [done..|].
  apply IH; [|done]. intros j Hj. apply He. by right.
Qed.

(** Redirecting the pointer out of the end, and the one out of the start. *)
Lemma dseg_out nx pv nx' pv' a q l b b' :
  NoDup (q ++ [l]) → nx' l = b' →
  (∀ i, i ∈ q ++ [l] → pv' i = pv i) → (∀ i, i ∈ q → nx' i = nx i) →
  dseg nx pv a (q ++ [l]) b → dseg nx' pv' a (q ++ [l]) b'.
Proof.
  intros Hnd Hl Hp Hn. rewrite !dseg_app. simpl. intros (Hq & Hpl & _ & _).
  split.
  - eapply dseg_ext; [|done]. intros i Hi. split; [by apply Hn|].
    apply Hp. set_solver.
  - split; [|done]. rewrite Hp by set_solver. done.
Qed.

Lemma dseg_in nx pv nx' pv' a a' i q b :
  NoDup (i :: q) → pv' i = a' →
  (∀ j, j ∈ i :: q → nx' j = nx j) → (∀ j, j ∈ q → pv' j = pv j) →
  dseg nx pv a (i :: q) b → dseg nx' pv' a' (i :: q) b.
Proof.
  intros Hnd Hi Hn Hp. simpl. intros (_ & Hni & Hq).
  split; [done|]. split; [rewrite Hn by set_solver; done|].
  eapply dseg_ext; [|done]. intros j Hj. split; [apply Hn; by right|by apply Hp].
Qed.
End segments.

(** ** Pushing *)

Definition rr_push (p : nat) (k : K) : K :=
  let k1 := match k_first k with None => set_k_first (Some p) k | Some _ => k end in
  let k2 := match k_last k1 with
            | Some l => upd_proc p (set_p_rrprev (Some l))
                          (upd_proc l (set_p_rrnext (Some p)) k1)
            | None => k1 end in
  set_k_last (Some p) k2.

Lemma rr_push_sync p f l (k : K) :
  rr_push p (set_k_locks l (upd_cpu f k)) = set_k_locks l (upd_cpu f (rr_push p k)).
Proof. unfold rr_push. simpl. destruct (k_first k); simpl; by destruct (k_last k). Qed.

Lemma push_links_ret p (k : K) : push_links p k = Ret tt (rr_push p k).
Proof.
  unfold push_links, rr_push, when, assign. mstep.
  case_bool_decide as Hf; [rewrite Hf|destruct (k_first k); [|done]]; simpl;
    by destruct (k_last k).
Qed.

(** The operations on the queue change only the links and the two ends. *)
Record rr_frame (k k' : K) : Prop := {
  rf_sync : same_sync k k';
  rf_rest : rest k' = rest k;
  rf_len : length (k_ptable k') = length (k_ptable k);
  rf_proc : ∀ i, unlinked (proc_at k' i) = unlinked (proc_at k i)
}.

Lemma rr_frame_refl k : rr_frame k k.
Proof. by split. Qed.

Lemma rr_frame_trans k1 k2 k3 : rr_frame k1 k2 → rr_frame k2 k3 → rr_frame k1 k3.
Proof.
  intros [] []. split; [by eapply same_sync_trans|congruence..|].
  intros i. by rewrite rf_proc1, rf_proc0.
Qed.

Lemma rr_frame_upd i f k :
  (∀ p, unlinked (f p) = unlinked p) → rr_frame k (upd_proc i f k).
Proof.
  intros Hf. split; [done..|apply length_upd_proc|]. intros j.
  rewrite proc_at_upd. case_decide as Hd; [|done]. destruct Hd as [-> _]. apply Hf.
Qed.

Lemma rr_frame_first v k : rr_frame k (set_k_first v k).
Proof. by split. Qed.
Lemma rr_frame_last v k : rr_frame k (set_k_last v k).
Proof. by split. Qed.

Hint Resolve rr_frame_refl rr_frame_first rr_frame_last : core.

Lemma rr_push_frame p k : rr_frame k (rr_push p k).
Proof.
  unfold rr_push. eapply rr_frame_trans; [|apply rr_frame_last].
  destruct (k_first k); simpl; destruct (k_last k); auto;
    repeat (eapply rr_frame_trans; [|by apply rr_frame_upd]); auto.
Qed.

Lemma rr_push_next p l (k : K) i :
  k_last k = Some l → l ≠ p → (l < length (k_ptable k))%nat →
  rr_next (rr_push p k) i = if decide (i = l) then Some p else rr_next k i.
Proof.
  intros Hlast Hne Hll. unfold rr_push, rr_next.
  destruct (k_first k); simpl; rewrite Hlast;
    change (proc_at (set_k_last ?v ?x) i) with (proc_at x i);
    rewrite !proc_at_upd, ?length_upd_proc; simpl;
    repeat case_decide; naive_solver.
Qed.

Lemma rr_push_prev p l (k : K) i :
  k_last k = Some l → l ≠ p → (p < length (k_ptable k))%nat →
  rr_prev (rr_push p k) i = if decide (i = p) then Some l else rr_prev k i.
Proof.
  intros Hlast Hne Hll. unfold rr_push, rr_prev.
  destruct (k_first k); simpl; rewrite Hlast;
    change (proc_at (set_k_last ?v ?x) i) with (proc_at x i);
    rewrite !proc_at_upd, ?length_upd_proc; simpl;
    repeat case_decide; naive_solver.
Qed.

Lemma rr_push_first p (k : K) :
  k_first (rr_push p k) = match k_first k with None => Some p | f => f end.
Proof. unfold rr_push. destruct (k_first k) eqn:Hf; simpl; by destruct (k_last k). Qed.

Lemma rr_push_nil p (k : K) : rr_repr k [] → (p < length (k_ptable k))%nat →
  rr_repr (rr_push p k) [p].
Proof.
  intros [_ _ Hf Hl _ Hout] Hlt. simpl in Hf, Hl.
  destruct (Hout p) as [Hpn Hpp]; [set_solver|].
  unfold rr_push. rewrite Hf. simpl. rewrite Hl.
  split; simpl; try done; [apply NoDup_singleton|set_solver|].
  intros i Hi. apply Hout. set_solver.
Qed.

Lemma rr_push_repr p (k : K) q :
  rr_repr k q → p ∉ q → (p < length (k_ptable k))%nat →
  rr_repr (rr_push p k) (q ++ [p]).
Proof.
  intros Hr Hp Hlt. pose proof (rf_len _ _ (rr_push_frame p k)) as Hlen.
  destruct q as [|l q _] using rev_ind; [by apply rr_push_nil|].
  destruct Hr as [Hnd Hb Hf Hl Hseg Hout]. destruct (Hout p Hp) as [Hpn Hpp].
  assert (l < length (k_ptable k))%nat as Hll by (apply Hb; set_solver).
  assert (k_last k = Some l) as Hlast by (rewrite Hl; apply last_snoc).
  assert (l ≠ p) as Hne by set_solver.
  pose proof (λ i, rr_push_next p l k i Hlast Hne Hll) as Hn.
  pose proof (λ i, rr_push_prev p l k i Hlast Hne Hlt) as Hv.
  split.
  - apply NoDup_app. split; [done|]. split; [set_solver|apply NoDup_singleton].
  - intros i Hi. rewrite Hlen. apply elem_of_app in Hi as [?|Hi]; [by apply Hb|].
    apply list_elem_of_singleton in Hi as ->. done.
  - rewrite rr_push_first, Hf. by destruct q.
  - by rewrite last_snoc.
  - rewrite dseg_app. split.
    + eapply dseg_out; [done|..|exact Hseg].
      * by rewrite Hn, decide_True.
      * intros i Hi. rewrite Hv, decide_False; [done|]. intros ->. done.
      * intros i Hi. rewrite Hn, decide_False; [done|]. intros ->.
        apply NoDup_app in Hnd as (_ & Hd & _). apply (Hd l Hi). set_solver.
    + simpl. rewrite last_or_last, last_snoc, Hv, Hn.
      by rewrite decide_True, decide_False.
  - intros i Hi. rewrite Hn, Hv, !decide_False by set_solver. apply Hout. set_solver.
Qed.

(** ** Removing *)

Definition rm_prev (p : nat) (k : K) : K :=
  match rr_prev k p with
  | Some a => upd_proc a (set_p_rrnext (rr_next k p)) k
  | None => k
  end.
Definition rm_next (p : nat) (k : K) : K :=
  match rr_next k p with
  | Some b => upd_proc b (set_p_rrprev (rr_prev k p)) k
  | None => k
  end.
Definition rm_first (p : nat) (k : K) : K :=
  if bool_decide (Some p = k_first k) then set_k_first (rr_next k p) k else k.
Definition rm_last (p : nat) (k : K) : K :=
  if bool_decide (Some p = k_last k) then set_k_last (rr_prev k p) k else k.
Definition rr_remove (p : nat) (k : K) : K :=
  upd_proc p (set_p_rrprev None) (upd_proc p (set_p_rrnext None)
    (rm_last p (rm_first p (rm_next p (rm_prev p k))))).

Lemma remove_ret p (k : K) : removeProcFromRRqueue p k = Ret tt (rr_remove p k).
Proof.
  unfold removeProcFromRRqueue, rr_remove, field, assign, when.
  assert ((match p_rrprev (proc_at k p) with
    | Some a => next ← gets (λ k0, p_rrnext (proc_at k0 p)); modify (upd_proc a (set_p_rrnext next))
    | None => mret tt end) k = Ret tt (rm_prev p k)) as H1.
  { unfold rm_prev, rr_prev. by destruct (p_rrprev (proc_at k p)). }
  rewrite (bind_Ret _ _ (p_rrprev (proc_at k p)) k k) by done.
  rewrite (bind_Ret _ _ tt k _ H1). set (k1 := rm_prev p k).
  assert ((match p_rrnext (proc_at k1 p) with
    | Some a => prev ← gets (λ k0, p_rrprev (proc_at k0 p)); modify (upd_proc a (set_p_rrprev prev))
    | None => mret tt end) k1 = Ret tt (rm_next p k1)) as H2.
  { unfold rm_next, rr_next. by destruct (p_rrnext (proc_at k1 p)). }
  rewrite (bind_Ret _ _ (p_rrnext (proc_at k1 p)) k1 k1) by done.
  rewrite (bind_Ret _ _ tt k1 _ H2). set (k2 := rm_next p k1).
  unfold rm_last, rm_first. mstep. case_bool_decide; simpl; by case_bool_decide.
Qed.

Ltac rr_framed :=
  repeat first
    [ apply rr_frame_refl
    | eapply rr_frame_trans;
      [|first [apply rr_frame_first|apply rr_frame_last|by apply rr_frame_upd]] ].

Lemma rr_remove_frame p k : rr_frame k (rr_remove p k).
Proof.
  assert (∀ x, rr_frame x (rm_last p x)) as H1
    by (intros; unfold rm_last; case_bool_decide; rr_framed).
  assert (∀ x, rr_frame x (rm_first p x)) as H2
    by (intros; unfold rm_first; case_bool_decide; rr_framed).
  assert (∀ x, rr_frame x (rm_next p x)) as H3
    by (intros; unfold rm_next; case_match; rr_framed).
  assert (∀ x, rr_frame x (rm_prev p x)) as H4
    by (intros; unfold rm_prev; case_match; rr_framed).
  unfold rr_remove. do 2 (eapply rr_frame_trans; [|by apply rr_frame_upd]).
  eauto using rr_frame_trans.
Qed.

(** The neighbours of a member, read off the list. *)
Lemma rr_neighbours p (k : K) q1 q2 :
  rr_repr k (q1 ++ p :: q2) → rr_prev k p = last q1 ∧ rr_next k p = head q2.
Proof.
  intros Hr. pose proof (rr_seg _ _ Hr) as Hs. apply dseg_app in Hs as [_ Hs].
  simpl in Hs. destruct Hs as (Hp & Hn & _).
  rewrite last_or_last in Hp. destruct (last q1), q2; naive_solver.
Qed.

Lemma set_first_if (b : bool) v (k : K) :
  (if b then set_k_first v k else k) = set_k_first (if b then v else k_first k) k.
Proof. by destruct b, k. Qed.

Lemma set_last_if (b : bool) v (k : K) :
  (if b then set_k_last v k else k) = set_k_last (if b then v else k_last k) k.
Proof. by destruct b, k. Qed.

Lemma first_after (p : nat) q1 q2 : p ∉ q1 →
  (if bool_decide (Some p = head (q1 ++ p :: q2)) then head q2
   else head (q1 ++ p :: q2)) = head (q1 ++ q2).
Proof.
  destruct q1 as [|x q1]; intros Hp; simpl; case_bool_decide; set_solver.
Qed.

Lemma last_after (p : nat) q1 q2 : p ∉ q2 →
  (if bool_decide (Some p = last (q1 ++ p :: q2)) then last q1
   else last (q1 ++ p :: q2)) = last (q1 ++ q2).
Proof.
  destruct q2 as [|x q2 _] using rev_ind; intros Hp.
  - by rewrite last_snoc, app_nil_r, bool_decide_eq_true_2.
  - rewrite app_comm_cons, !app_assoc, !last_snoc, bool_decide_eq_false_2; set_solver.
Qed.

Section remove.
Context (p : nat) (k : K) (q1 q2 : list nat).
Hypothesis Hr : rr_repr k (q1 ++ p :: q2).

Lemma rr_remove_nodup : (p ∉ q1) ∧ (p ∉ q2) ∧ NoDup q1 ∧ NoDup q2 ∧ (∀ i, i ∈ q1 → i ∉ q2).
Proof.
  pose proof (rr_nodup _ _ Hr) as Hnd. apply NoDup_app in Hnd as (H1 & H2 & H3).
  apply NoDup_cons in H3 as [H3 H4]. repeat split; try done.
  - intros Hp. apply (H2 p Hp). left.
  - intros i Hi Hi'. apply (H2 i Hi). by right.
Qed.

Lemma rr_remove_lt i : i ∈ q1 ++ p :: q2 → (i < length (k_ptable k))%nat.
Proof. apply (rr_bound _ _ Hr). Qed.

Lemma last_ne_p a : last q1 = Some a → a ≠ p ∧ a ∈ q1.
Proof.
  intros Ha%last_Some_elem_of. destruct rr_remove_nodup as (H1 & _).
  split; [|done]. by intros ->.
Qed.

Lemma head_ne_p b : head q2 = Some b → b ≠ p ∧ b ∈ q2.
Proof.
  intros Hb%head_Some_elem_of. destruct rr_remove_nodup as (_ & H2 & _).
  split; [|done]. by intros ->.
Qed.

Definition opt_upd (o : option nat) (f : proc → proc) (x : K) : K :=
  match o with Some i => upd_proc i f x | None => x end.

Lemma proc_at_opt_upd o f (x : K) j :
  proc_at (opt_upd o f x) j =
  if decide (Some j = o ∧ (j < length (k_ptable x))%nat) then f (proc_at x j)
  else proc_at x j.
Proof.
  destruct o as [i|]; simpl; [rewrite proc_at_upd|]; repeat case_decide; naive_solver.
Qed.

Lemma length_opt_upd o f (x : K) :
  length (k_ptable (opt_upd o f x)) = length (k_ptable x).
Proof. destruct o; [apply length_upd_proc|done]. Qed.

Lemma rr_remove_eq :
  let k2 := opt_upd (head q2) (set_p_rrprev (last q1))
              (opt_upd (last q1) (set_p_rrnext (head q2)) k) in
  rr_remove p k = upd_proc p (set_p_rrprev None) (upd_proc p (set_p_rrnext None)
    (set_k_last (last (q1 ++ q2)) (set_k_first (head (q1 ++ q2)) k2))).
Proof.
  destruct (rr_neighbours p k q1 q2 Hr) as [Hp Hn].
  assert (rm_prev p k = opt_upd (last q1) (set_p_rrnext (head q2)) k) as E1
    by (unfold rm_prev; by rewrite Hp, Hn).
  unfold rr_remove. rewrite E1. set (k1 := opt_upd _ _ k).
  assert (rr_next k1 p = head q2 ∧ rr_prev k1 p = last q1) as [Hn1 Hp1].
  { unfold k1, rr_next, rr_prev. rewrite proc_at_opt_upd, decide_False; [done|].
    intros [Ha _]. symmetry in Ha. by apply last_ne_p in Ha as [? _]. }
  assert (rm_next p k1 = opt_upd (head q2) (set_p_rrprev (last q1)) k1) as E2
    by (unfold rm_next; by rewrite Hp1, Hn1).
  rewrite E2.
  set (k2 := opt_upd _ _ k1).
  assert (rr_next k2 p = head q2 ∧ rr_prev k2 p = last q1) as [Hn2 Hp2].
  { unfold k2, rr_next, rr_prev. rewrite proc_at_opt_upd, decide_False; [done|].
    intros [Ha _]. symmetry in Ha. by apply head_ne_p in Ha as [? _]. }
  unfold rm_first, rm_last. rewrite set_first_if, Hn2.
  assert (k_first k2 = head (q1 ++ p :: q2)) as ->.
  { unfold k2, k1. rewrite <-(rr_firstE _ _ Hr). by destruct (head q2), (last q1). }
  destruct rr_remove_nodup as (H1 & H2 & _). rewrite first_after by done.
  set (k3 := set_k_first _ k2). rewrite set_last_if.
  change (rr_prev k3 p) with (rr_prev k2 p). rewrite Hp2.
  assert (k_last k3 = last (q1 ++ p :: q2)) as ->.
  { unfold k3, k2, k1. rewrite <-(rr_lastE _ _ Hr). by destruct (head q2), (last q1). }
  by rewrite last_after.
Qed.

Lemma rr_remove_links i :
  rr_next (rr_remove p k) i =
    (if decide (i = p) then None
     else if decide (Some i = last q1) then head q2 else rr_next k i) ∧
  rr_prev (rr_remove p k) i =
    (if decide (i = p) then None
     else if decide (Some i = head q2) then last q1 else rr_prev k i).
Proof.
  rewrite rr_remove_eq. unfold rr_next, rr_prev.
  rewrite !proc_at_upd, !length_upd_proc.
  change (proc_at (set_k_last ?v (set_k_first ?w ?x)) i) with (proc_at x i).
  change (length (k_ptable (set_k_last ?v (set_k_first ?w ?x)))) with (length (k_ptable x)).
  rewrite !proc_at_opt_upd, !length_opt_upd.
  assert (p < length (k_ptable k))%nat by (apply rr_remove_lt; set_solver).
  assert (∀ a, last q1 = Some a → a < length (k_ptable k))%nat.
  { intros a [_ Ha]%last_ne_p. apply rr_remove_lt. set_solver. }
  assert (∀ b, head q2 = Some b → b < length (k_ptable k))%nat.
  { intros b [_ Hb]%head_ne_p. apply rr_remove_lt. set_solver. }
  repeat case_decide; naive_solver.
Qed.
End remove.

Lemma rr_remove_repr p (k : K) q1 q2 :
  rr_repr k (q1 ++ p :: q2) → rr_repr (rr_remove p k) (q1 ++ q2).
Proof.
  intros Hr. pose proof (rr_remove_links p k q1 q2 Hr) as HL.
  pose proof (rf_len _ _ (rr_remove_frame p k)) as Hlen.
  destruct (rr_remove_nodup p k q1 q2 Hr) as (H1 & H2 & Hn1 & Hn2 & Hd).
  pose proof (rr_seg _ _ Hr) as Hs. apply dseg_app in Hs as [Hs1 Hs2].
  destruct Hs2 as (_ & _ & Hs2).
  split.
  - by apply NoDup_app.
  - intros i Hi. rewrite Hlen. apply (rr_bound _ _ Hr). set_solver.
  - by rewrite (rr_remove_eq p k q1 q2 Hr).
  - by rewrite (rr_remove_eq p k q1 q2 Hr).
  - apply dseg_app. split.
    + destruct q1 as [|l q1 _] using rev_ind; [done|].
      apply (dseg_out (rr_next k) (rr_prev k) _ _ _ _ _ (Some p)); [done|..|done].
      * destruct (HL l) as [-> _]. rewrite decide_False by set_solver.
        rewrite last_snoc, decide_True by done. by destruct q2.
      * intros i Hi. destruct (HL i) as [_ ->]. rewrite !decide_False; [done| |set_solver].
        intros Hh. symmetry in Hh. apply head_Some_elem_of in Hh. set_solver.
      * intros i Hi. destruct (HL i) as [-> _]. rewrite !decide_False; [done| |set_solver].
        rewrite last_snoc. intros [= ->]. apply NoDup_app in Hn1. set_solver.
    + destruct q2 as [|b q2]; [done|].
      apply (dseg_in (rr_next k) (rr_prev k) _ _ (Some p)); [done|..|done].
      * destruct (HL b) as [_ ->]. rewrite decide_False by set_solver.
        rewrite decide_True by done. rewrite last_or_last. by destruct (last q1).
      * intros i Hi. destruct (HL i) as [-> _]. rewrite !decide_False; [done| |set_solver].
        intros Hh. symmetry in Hh. apply last_Some_elem_of in Hh. set_solver.
      * intros i Hi. destruct (HL i) as [_ ->]. rewrite !decide_False; [done| |set_solver].
        simpl. intros [= ->]. apply NoDup_cons in Hn2. set_solver.
  - intros i Hi. destruct (HL i) as [-> ->]. case_decide; [done|].
    rewrite !decide_False; [apply (rr_out _ _ Hr); set_solver|..];
      intros Hh; symmetry in Hh;
      [apply head_Some_elem_of in Hh|apply last_Some_elem_of in Hh]; set_solver.
Qed.

(** ** The operations under their lock *)

Lemma rr_push_acquired lk p (k : K) : rr_push p (acquired lk k) = acquired lk (rr_push p k).
Proof.
  unfold acquired at 1. rewrite rr_push_sync. unfold acquired.
  by destruct (rf_sync _ _ (rr_push_frame p k)) as (_ & -> & ->).
Qed.

Lemma push_ret p (k : K) :
  nest_ok 1 k → lock_idle RRLock k → pushProcToRRqueue p k = Ret tt (settle (rr_push p k)).
Proof.
  intros Hn Hl. apply critical; [done..|apply rr_push_frame|].
  by rewrite push_links_ret, rr_push_acquired.
Qed.

Lemma walk_next_ret (k : K) q fuel a :
  dseg (rr_next k) (rr_prev k) a q None → (length q <= fuel)%nat →
  walk_next fuel (head q) k = Ret tt k.
Proof.
  revert fuel a. induction q as [|i q IH]; intros fuel a Hs Hf; [by destruct fuel|].
  destruct fuel as [|fuel]; simpl in Hf; [lia|]. destruct Hs as (_ & Hn & Hs).
  simpl. unfold field. mstep. fold (rr_next k i). rewrite Hn.
  apply (IH fuel) in Hs; [|lia]. by destruct q.
Qed.

Lemma rr_length (k : K) q : rr_repr k q → (length q <= length (k_ptable k))%nat.
Proof.
  intros Hr. rewrite <-(length_seq (length (k_ptable k)) 0).
  apply submseteq_length, NoDup_submseteq; [apply (rr_nodup _ _ Hr)|].
  intros i Hi. apply elem_of_seq. pose proof (rr_bound _ _ Hr i Hi). lia.
Qed.

(** Only the links and the ends matter. *)
Lemma rr_repr_same (k k' : K) q :
  rr_repr k q → length (k_ptable k') = length (k_ptable k) →
  k_first k' = k_first k → k_last k' = k_last k →
  (∀ i, rr_next k' i = rr_next k i ∧ rr_prev k' i = rr_prev k i) → rr_repr k' q.
Proof.
  intros [Hnd Hb Hf Hl Hs Ho] Hlen Hf' Hl' HL. split; try congruence.
  - intros i Hi. rewrite Hlen. by apply Hb.
  - eapply dseg_ext; [|done]. intros i _. apply HL.
  - intros i Hi. destruct (HL i) as [-> ->]. by apply Ho.
Qed.

Lemma rr_repr_upd i f (k : K) q :
  (∀ p, p_rrnext (f p) = p_rrnext p ∧ p_rrprev (f p) = p_rrprev p) →
  rr_repr k q → rr_repr (upd_proc i f k) q.
Proof.
  intros Hf Hr. apply (rr_repr_same k); [done|apply length_upd_proc|done..|].
  intros j. unfold rr_next, rr_prev. rewrite proc_at_upd. case_decide as Hd; [|done].
  destruct Hd as [-> _]. apply Hf.
Qed.

Lemma rr_repr_acquired lk (k : K) q : rr_repr k q → rr_repr (acquired lk k) q.
Proof. intros []. by split. Qed.

Lemma rr_repr_settle (k : K) q : rr_repr k q → rr_repr (settle k) q.
Proof. intros []. by split. Qed.

Lemma printRRQueue_ret (k : K) q :
  rr_repr k q → nest_ok 1 k → lock_idle RRLock k → printRRQueue k = Ret tt (settle k).
Proof.
  intros Hr Hn Hl. unfold printRRQueue.
  rewrite (bind_Ret _ _ tt k (acquired RRLock k))
    by (destruct Hn; auto using acquire_free, lock_idle_free).
  pose proof (rr_repr_acquired RRLock k q Hr) as Hr'.
  unfold queue_fuel. rewrite (bind_Ret _ _ (k_first (acquired RRLock k)) _ (acquired RRLock k)) by done.
  rewrite (bind_Ret _ _ (S (length (k_ptable (acquired RRLock k)))) _ (acquired RRLock k)) by done.
  rewrite (bind_Ret _ _ tt _ (acquired RRLock k)).
  - by apply release_acquired.
  - rewrite (rr_firstE _ _ Hr'). eapply walk_next_ret; [apply (rr_seg _ _ Hr')|].
    pose proof (rr_length _ _ Hr'). lia.
Qed.

Lemma rr_remove_absent p (k : K) q : rr_repr k q → p ∉ q → rr_repr (rr_remove p k) q.
Proof.
  intros Hr Hp. destruct (rr_out _ _ Hr p Hp) as [Hn Hv].
  assert (Some p ≠ k_first k) as Hf.
  { rewrite (rr_firstE _ _ Hr). intros Hh. symmetry in Hh. by apply head_Some_elem_of in Hh. }
  assert (Some p ≠ k_last k) as Hl.
  { rewrite (rr_lastE _ _ Hr). intros Hh. symmetry in Hh. by apply last_Some_elem_of in Hh. }
  assert (rr_remove p k = upd_proc p (set_p_rrprev None) (upd_proc p (set_p_rrnext None) k)) as ->.
  { unfold rr_remove. unfold rm_prev; rewrite Hv. unfold rm_next; rewrite Hn.
    unfold rm_first. rewrite bool_decide_eq_false_2 by done.
    unfold rm_last. by rewrite bool_decide_eq_false_2. }
  assert (∀ i, rr_next (upd_proc p (set_p_rrprev None) (upd_proc p (set_p_rrnext None) k)) i
    = rr_next k i ∧ rr_prev (upd_proc p (set_p_rrprev None) (upd_proc p (set_p_rrnext None) k)) i
    = rr_prev k i) as HL.
  { intros i. unfold rr_next, rr_prev in *. rewrite !proc_at_upd, !length_upd_proc.
    repeat case_decide; naive_solver. }
  destruct Hr as [Hnd Hb Hfi Hla Hseg Hout]. split; try done.
  - intros i Hi. rewrite !length_upd_proc. by apply Hb.
  - eapply dseg_ext; [|done]. intros i _. apply HL.
  - intros i Hi. destruct (HL i) as [-> ->]. by apply Hout.
Qed.

Lemma rr_remove_filter p (k : K) q :
  rr_repr k q → rr_repr (rr_remove p k) (filter (λ i, i ≠ p) q).
Proof.
  intros Hr. destruct (decide (p ∈ q)) as [Hp|Hp].
  - apply list_elem_of_split in Hp as (q1 & q2 & ->).
    destruct (rr_remove_nodup p k q1 q2 Hr) as (H1 & H2 & _).
    rewrite filter_app, filter_cons, decide_False by (intros []; done).
    rewrite !list_filter_id by (intros x Hx ->; done). by apply rr_remove_repr.
  - rewrite list_filter_id by (intros x Hx ->; done). by apply rr_remove_absent.
Qed.

Lemma rr_remove_sync p l c (k : K) :
  rr_remove p (set_k_locks l (set_k_cpus c k)) = set_k_locks l (set_k_cpus c (rr_remove p k)).
Proof.
  unfold rr_remove.
  assert (∀ x : K, rm_prev p (set_k_locks l (set_k_cpus c x)) =
    set_k_locks l (set_k_cpus c (rm_prev p x))) as ->
    by (intros; unfold rm_prev, rr_prev, proc_at; simpl; by case_match).
  assert (∀ x : K, rm_next p (set_k_locks l (set_k_cpus c x)) =
    set_k_locks l (set_k_cpus c (rm_next p x))) as ->
    by (intros; unfold rm_next, rr_next, proc_at; simpl; by case_match).
  assert (∀ x : K, rm_first p (set_k_locks l (set_k_cpus c x)) =
    set_k_locks l (set_k_cpus c (rm_first p x))) as ->
    by (intros; unfold rm_first; simpl; by case_bool_decide).
  assert (∀ x : K, rm_last p (set_k_locks l (set_k_cpus c x)) =
    set_k_locks l (set_k_cpus c (rm_last p x))) as ->
    by (intros; unfold rm_last; simpl; by case_bool_decide).
  done.
Qed.

Lemma rr_remove_acquired lk p (k : K) :
  rr_remove p (acquired lk k) = acquired lk (rr_remove p k).
Proof.
  destruct (rf_sync _ _ (rr_remove_frame p k)) as (H1 & H2 & H3).
  unfold acquired, upd_cpu. rewrite rr_remove_sync.
  by rewrite H1, H2, H3.
Qed.

(** ** Refinement

    The queue as an abstract data type: a list of slots with three
    operations, and the routines that implement them.  The scheduler removes a
    process under the lock of the queue. *)

Inductive rr_op := RPush (p : nat) | RRemove (p : nat) | RPrint.

Definition rr_spec (o : rr_op) (q : list nat) : list nat :=
  match o with
  | RPush p => q ++ [p]
  | RRemove p => filter (λ i, i ≠ p) q
  | RPrint => q
  end.

Definition rr_run (o : rr_op) : M K unit :=
  match o with
  | RPush p => pushProcToRRqueue p
  | RRemove p => locked RRLock (removeProcFromRRqueue p)
  | RPrint => printRRQueue
  end.

(** A process is pushed only when it is not in the queue already. *)
Fixpoint rr_legal (n : nat) (ops : list rr_op) (q : list nat) : Prop :=
  match ops with
  | [] => True
  | o :: ops' =>
      match o with RPush p => (p ∉ q) ∧ (p < n)%nat | _ => True end ∧
      rr_legal n ops' (rr_spec o q)
  end.

(** What the routines leave alone. *)
Record rr_untouched (k k' : K) : Prop := {
  ru_rest : rest k' = rest k;
  ru_locks : k_locks k' = k_locks k;
  ru_len : length (k_ptable k') = length (k_ptable k);
  ru_proc : ∀ i, unlinked (proc_at k' i) = unlinked (proc_at k i)
}.

Lemma rr_frame_settle (k k' : K) : rr_frame k k' → rr_untouched k (settle k').
Proof. intros [(_ & _ & ?) ? ? ?]. by split. Qed.

Lemma rr_run_spec o (k : K) q :
  rr_repr k q → nest_ok 1 k → lock_idle RRLock k →
  match o with RPush p => (p ∉ q) ∧ (p < length (k_ptable k))%nat | _ => True end →
  ∃ k', rr_run o k = Ret tt k' ∧ rr_repr k' (rr_spec o q) ∧ nest_ok 1 k' ∧ rr_untouched k k'.
Proof.
  intros Hr Hn Hl Ho. destruct o as [p|p|]; simpl.
  - destruct Ho. pose proof (rr_push_frame p k) as Hf. eexists. rewrite push_ret by done.
    split; [done|]. split; [by apply rr_repr_settle, rr_push_repr|].
    split; [|by apply rr_frame_settle]. eapply nest_ok_settle, nest_ok_sync; [apply Hf|done].
  - pose proof (rr_remove_frame p k) as Hf. exists (settle (rr_remove p k)).
    split; [|split; [by apply rr_repr_settle, rr_remove_filter|]].
    + apply critical; [done..|apply Hf|]. by rewrite remove_ret, rr_remove_acquired.
    + split; [|by apply rr_frame_settle].
      eapply nest_ok_settle, nest_ok_sync; [apply Hf|done].
  - rewrite (printRRQueue_ret k q) by done. eexists. split; [done|].
    split; [by apply rr_repr_settle|]. split; [by apply nest_ok_settle|].
    by apply rr_frame_settle.
Qed.

(** C13. The run queue refines a list.  Any sequence of pushes (of processes not
    queued already), removals under the queue lock and [printRRQueue] calls
    returns - no null pointer is followed, no walk runs forever - and leaves
    links that represent exactly the list obtained by appending, deleting and
    reading; every field of every process but the two links, the other tables
    and the locks are as before. *)
Theorem rr_queue_refines (ops : list rr_op) (k : K) (q : list nat) :
  rr_repr k q → nest_ok 1 k → lock_idle RRLock k →
  rr_legal (length (k_ptable k)) ops q →
  ∃ k', for_each rr_run ops k = Ret tt k' ∧
    rr_repr k' (foldl (λ q o, rr_spec o q) q ops) ∧ rr_untouched k k'.
Proof.
  revert k q. induction ops as [|o ops IH]; intros k q Hr Hn Hl Ho; simpl.
  - exists k. split; [done|]. split; [done|by split].
  - destruct Ho as [Ho Hops].
    destruct (rr_run_spec o k q) as (k1 & H1 & Hr1 & Hn1 & Hu); [done..|].
    destruct (IH k1 (rr_spec o q)) as (k2 & H2 & Hr2 & Hu2); [done..| | |].
    + unfold lock_idle. by rewrite (ru_locks _ _ Hu).
    + by rewrite (ru_len _ _ Hu).
    + exists k2. rewrite (bind_Ret _ _ tt k k1) by done. split; [done|]. split; [done|].
      destruct Hu, Hu2. split; congruence.
Qed.
End rrqueue.

Lemma rr_repr_boot {V} ncpu (v : V) : rr_repr (boot_core ncpu v) [].
Proof.
  split; try done; [apply NoDup_nil_2|set_solver|].
  intros i _. unfold rr_next, rr_prev. by rewrite proc_at_boot.
Qed.

(** Three processes are queued, the middle one is removed, the list printed. *)
Lemma rr_queue_refines_witness :
  ∃ k', for_each rr_run [RPush 3; RPush 1; RPush 2; RRemove 1; RPrint; RRemove 9]
          (boot_core 1 tt) = Ret tt k' ∧
    rr_repr k' [3%nat; 2%nat] ∧ rr_untouched (boot_core 1 tt) k'.
Proof.
  apply (rr_queue_refines [RPush 3; RPush 1; RPush 2; RRemove 1; RPrint; RRemove 9]
           (boot_core 1 tt) []).
  - apply rr_repr_boot.
  - repeat split; vm_compute; done.
  - done.
  - simpl. repeat split; try lia; set_solver.
Defined.
