(* ===== verification/Lottery.v ===== *)
(** * The lottery (proc.c: xorshift128, deliverTicketsToFIFOProcs,
    pickProcess)

    Each round of the scheduler gives the queued processes consecutive
    intervals of tickets and draws one.  [layout] is the specification of the
    numbering: the processes, in the order the code visits them (from the last
    to the first of the queue), hold adjacent intervals that start at 1 and end
    at [totalTickets].  The theorems give the queue, the intervals and the
    weights a round of each policy leaves, and the process a draw selects. *)

From stdpp Require Import base list gmap strings.
From Stdlib Require Import ZArith Lia.
From S2P Require Import Prelude KState Spinlock RRQueue.

Section lottery.
Context {V : Type}.
Abbreviation K := (core V).
Implicit Types (k : K) (q g : list nat).

(** ** The generator *)

(** [int] shifts: left with wrap-around, right arithmetic. *)
Definition shl32 (a n : Z) : Z := s32 (Z.shiftl a n).
Definition sar32 (a n : Z) : Z := Z.shiftr a n.

Definition xorshift_next (r : rng) : rng :=
  let t := Z.lxor (rng_x r) (shl32 (rng_x r) 11) in
  Rng (rng_y r) (rng_z r) (rng_w r)
    (Z.lxor (Z.lxor (Z.lxor (rng_w r) (sar32 (rng_w r) 19)) t) (sar32 t 8)).

Definition xorshift128 : M K Z :=
  modify (λ k, set_k_rng (xorshift_next (k_rng k)) k) ;;
  gets (λ k, rng_w (k_rng k)).

(** ** Drawing *)

Fixpoint pick_walk (fuel : nat) (ticket : Z) (p : option nat) : M K (option nat) :=
  match p with
  | None => mret None
  | Some i =>
      first ← field i p_firstTicketNum;
      tickets ← field i p_tickets;
      if decide (ticket >= first ∧ ticket <= s32 (s32 (tickets + first) - 1))
      then mret (Some i)
      else match fuel with
           | O => block
           | S fuel' => next ← field i p_rrnext; pick_walk fuel' ticket next
           end
  end.

Definition pick_body : M K (option nat) :=
  total ← gets k_totalTickets;
  if decide (total > 0) then
    r ← xorshift128;
    p ← gets k_first;
    fuel ← gets queue_fuel;
    pick_walk fuel (Z.rem r total) p
  else mret None.

Definition pickProcess : M K (option nat) :=
  locked RRLock pick_body.

(** ** Delivering *)

(** [p->firstTicketNum = totalTickets + 1; p->tickets = n; totalTickets += n] *)
Definition give (i : nat) (n : Z) : M K unit :=
  total ← gets k_totalTickets;
  assign i (set_p_firstTicketNum (s32 (total + 1))) ;;
  assign i (set_p_tickets n) ;;
  modify (set_k_totalTickets (s32 (total + n))).

(** FRR and FCFS: [while(p != rrqueue.first)]. *)
Fixpoint frr_loop (fuel : nat) (p : option nat) : M K (option nat) :=
  first ← gets k_first;
  if decide (p = first) then mret p else
  match fuel with
  | O => block
  | S fuel' =>
      i ← deref p;
      st ← field i p_state;
      if decide (st ≠ RUNNABLE) then
        tmp ← field i p_rrprev;
        removeProcFromRRqueue i ;;
        frr_loop fuel' tmp
      else
        give i EXE_TICKETS ;;
        prev ← field i p_rrprev;
        frr_loop fuel' prev
  end.

Definition deliver_frr (p : option nat) : M K unit :=
  fuel ← gets queue_fuel;
  p ← frr_loop fuel p;
  i ← deref p;
  total ← gets k_totalTickets;
  give i (s32 (EXE_TICKETS + s32 (FIFO_DIFFERECE * total))).

(** PRS, the counting loop. *)
Fixpoint prs_count (fuel : nat) (p : option nat) (c1 c2 c3 : Z) : M K (Z * Z * Z) :=
  match p with
  | None => mret (c1, c2, c3)
  | Some i =>
      match fuel with
      | O => block
      | S fuel' =>
          st ← field i p_state;
          if decide (st ≠ RUNNABLE) then
            tmp ← field i p_rrprev;
            removeProcFromRRqueue i ;;
            prs_count fuel' tmp c1 c2 c3
          else
            pr ← field i p_priority;
            prev ← field i p_rrprev;
            if decide (pr <= 0) then prs_count fuel' prev (s32 (c1 + 1)) c2 c3
            else if decide (pr = 1) then prs_count fuel' prev c1 (s32 (c2 + 1)) c3
            else if decide (pr >= 2) then prs_count fuel' prev c1 c2 (s32 (c3 + 1))
            else prs_count fuel' prev c1 c2 c3
      end
  end.

Definition prs_tickets (c1 c2 pr old : Z) : Z :=
  if decide (pr <= 0) then EXE_TICKETS
  else if decide (pr = 1) then
    s32 (EXE_TICKETS + s32 (s32 (EXE_TICKETS * c1) * FIFO_DIFFERECE))
  else if decide (pr >= 2) then
    s32 (EXE_TICKETS +
         s32 (s32 (EXE_TICKETS * s32 (c1 + s32 (c2 * FIFO_DIFFERECE))) * FIFO_DIFFERECE))
  else old.

(** PRS, the second loop. *)
Fixpoint prs_give (fuel : nat) (p : option nat) (c1 c2 : Z) : M K unit :=
  match p with
  | None => mret tt
  | Some i =>
      match fuel with
      | O => block
      | S fuel' =>
          pr ← field i p_priority;
          old ← field i p_tickets;
          give i (prs_tickets c1 c2 pr old) ;;
          prev ← field i p_rrprev;
          prs_give fuel' prev c1 c2
      end
  end.

Definition deliver_prs (p : option nat) : M K unit :=
  fuel ← gets queue_fuel;
  c ← prs_count fuel p 0 0 0;
  p ← gets k_last;
  prs_give fuel p (c.1.1) (c.1.2).

Definition deliverTicketsToFIFOProcs (flag : schedflag) : M K unit :=
  modify (set_k_totalTickets 0) ;;
  acquire RRLock ;;
  p ← gets k_last;
  match p with
  | None => release RRLock
  | Some _ =>
      match flag with
      | FRR | FCFS => deliver_frr p
      | PRS => deliver_prs p
      | DEFAULT => mret tt
      end ;;
      release RRLock ;;
      printRRQueue
  end.

(** ** Closed forms *)

Definition runnable k (i : nat) : Prop := p_state (proc_at k i) = RUNNABLE.
#[global] Instance runnable_dec k i : Decision (runnable k i).
Proof. unfold runnable. apply _. Defined.

Definition grant (i : nat) (n : Z) (k : K) : K :=
  set_k_totalTickets (s32 (k_totalTickets k + n))
    (upd_proc i (set_p_tickets n)
       (upd_proc i (set_p_firstTicketNum (s32 (k_totalTickets k + 1))) k)).

Lemma give_ret i n k : give i n k = Ret tt (grant i n k).
Proof. done. Qed.

Lemma proc_at_grant i n k j :
  proc_at (grant i n k) j =
  if decide (i = j ∧ (i < length (k_ptable k))%nat)
  then set_p_tickets n (set_p_firstTicketNum (s32 (k_totalTickets k + 1)) (proc_at k j))
  else proc_at k j.
Proof.
  unfold grant. change (proc_at (set_k_totalTickets ?t ?x) j) with (proc_at x j).
  rewrite !proc_at_upd, length_upd_proc. repeat case_decide; naive_solver.
Qed.

(** What a round of the lottery may change: the links, the ticket fields and
    the total. *)
Definition unticketed (p : proc) : proc :=
  set_p_tickets 0 (set_p_firstTicketNum 0 (unlinked p)).

Record lt_frame k k' : Prop := {
  lf_sync : same_sync k k';
  lf_rest : rest (set_k_totalTickets 0 k') = rest (set_k_totalTickets 0 k);
  lf_len : length (k_ptable k') = length (k_ptable k);
  lf_proc : ∀ i, unticketed (proc_at k' i) = unticketed (proc_at k i)
}.

#[global] Instance lt_frame_preorder : PreOrder lt_frame.
Proof.
  split; [by split|]. intros k1 k2 k3 [] [].
  split; [by eapply same_sync_trans|congruence..].
Qed.

Lemma rr_lt_frame k k' : rr_frame k k' → lt_frame k k'.
Proof.
  intros [Hs Hr Hl Hp]. split; [done| |done|].
  - unfold rest in *; simpl. congruence.
  - intros i. unfold unticketed. by rewrite Hp.
Qed.

Lemma grant_frame i n k : lt_frame k (grant i n k).
Proof.
  split; [done..|simpl; by rewrite !length_alter|].
  intros j. rewrite proc_at_grant. by case_decide.
Qed.

Lemma lt_frame_field {A} (f : proc → A) k k' i :
  (∀ p, f (unticketed p) = f p) → lt_frame k k' → f (proc_at k' i) = f (proc_at k i).
Proof. intros Hf Hk. by rewrite <-(Hf (proc_at k' i)), (lf_proc _ _ Hk), Hf. Qed.

Lemma lt_frame_runnable k k' i : lt_frame k k' → runnable k' i ↔ runnable k i.
Proof. intros Hk. unfold runnable. by rewrite (lt_frame_field p_state k k'). Qed.

Lemma rr_repr_grant i n k q : rr_repr k q → rr_repr (grant i n k) q.
Proof.
  intros Hr. unfold grant. apply (rr_repr_same (upd_proc i (set_p_tickets n)
    (upd_proc i (set_p_firstTicketNum (s32 (k_totalTickets k + 1))) k))); [|done..].
  by do 2 (apply rr_repr_upd; [done|]).
Qed.

Lemma grant_acquired lk i n k : grant i n (acquired lk k) = acquired lk (grant i n k).
Proof. done. Qed.

(** ** The numbering *)

Fixpoint layout (k : K) (n : Z) (g : list nat) (m : Z) : Prop :=
  match g with
  | [] => n = m
  | i :: g' =>
      p_firstTicketNum (proc_at k i) = n + 1 ∧ 0 < p_tickets (proc_at k i) ∧
      layout k (n + p_tickets (proc_at k i)) g' m
  end.

Lemma layout_app k n g1 g2 m :
  layout k n (g1 ++ g2) m ↔ ∃ o, layout k n g1 o ∧ layout k o g2 m.
Proof.
  revert n. induction g1 as [|i g1 IH]; intros n; simpl; [naive_solver|].
  rewrite IH. naive_solver.
Qed.

Lemma layout_le k n g m : layout k n g m → n <= m.
Proof.
  revert n. induction g as [|i g IH]; intros n; simpl; [lia|].
  intros (_ & ? & Hg). apply IH in Hg. lia.
Qed.

Lemma layout_ext k k' n g m :
  (∀ i, i ∈ g → p_firstTicketNum (proc_at k' i) = p_firstTicketNum (proc_at k i) ∧
    p_tickets (proc_at k' i) = p_tickets (proc_at k i)) →
  layout k n g m → layout k' n g m.
Proof.
  revert n. induction g as [|i g IH]; intros n He; simpl; [done|].
  destruct (He i) as [-> ->]; [left|]. intros (? & ? & ?). repeat split; [done..|].
  apply IH; [|done]. intros j Hj. apply He. by right.
Qed.

Lemma layout_in k n g m i :
  layout k n g m → i ∈ g →
  n < p_firstTicketNum (proc_at k i) ∧ 0 < p_tickets (proc_at k i) ∧
  p_firstTicketNum (proc_at k i) + p_tickets (proc_at k i) - 1 <= m.
Proof.
  intros Hl (g1 & g2 & ->)%list_elem_of_split. apply layout_app in Hl as (o & H1 & H2).
  apply layout_le in H1. destruct H2 as (H2 & H3 & H4). apply layout_le in H4. lia.
Qed.

(** Every number above [n] and up to [m] lies in exactly one interval. *)
Definition holds k (i : nat) (t : Z) : Prop :=
  p_firstTicketNum (proc_at k i) <= t <=
  p_firstTicketNum (proc_at k i) + p_tickets (proc_at k i) - 1.

Lemma layout_holder k n g m t :
  layout k n g m → n < t <= m → ∃ i, i ∈ g ∧ holds k i t.
Proof.
  revert n. induction g as [|i g IH]; intros n; simpl; [lia|].
  intros (H1 & H2 & H3) Ht.
  destruct (decide (t <= n + p_tickets (proc_at k i))).
  - exists i. split; [left|]. unfold holds. lia.
  - destruct (IH _ H3) as (j & Hj & Hh); [lia|]. exists j. split; [by right|done].
Qed.

Lemma layout_unique k n g m t i j :
  layout k n g m → i ∈ g → j ∈ g → holds k i t → holds k j t → i = j.
Proof.
  revert n. induction g as [|x g IH]; intros n; simpl; [set_solver|].
  unfold holds. intros (H1 & H2 & H3) Hi Hj Hhi Hhj.
  apply elem_of_cons in Hi as [->|Hi]; apply elem_of_cons in Hj as [->|Hj]; [done|..].
  - apply (layout_in _ _ _ _ _ H3) in Hj. lia.
  - apply (layout_in _ _ _ _ _ H3) in Hi. lia.
  - eapply IH; eauto.
Qed.

Lemma layout_grant k g i n :
  layout k 0 g (k_totalTickets k) → i ∉ g → (i < length (k_ptable k))%nat → 0 < n →
  k_totalTickets k + n < 2 ^ 31 →
  layout (grant i n k) 0 (g ++ [i]) (k_totalTickets (grant i n k)).
Proof.
  intros Hl Hi Hlt Hn Hb. pose proof (layout_le _ _ _ _ Hl).
  apply layout_app. exists (k_totalTickets k). split.
  - eapply layout_ext; [|done]. intros j Hj. rewrite proc_at_grant, decide_False; naive_solver.
  - simpl. rewrite proc_at_grant, decide_True by done. simpl. rewrite !s32_id; lia.
Qed.

Lemma rev_cons_app {A} (x : A) l l' : reverse (x :: l) ++ l' = reverse l ++ x :: l'.
Proof. by rewrite reverse_cons, <-app_assoc. Qed.

(** ** FRR and FCFS *)

(** The walk over [r], the queue without its head from the last to the second:
    a process that is not RUNNABLE leaves the queue, the others get tickets. *)
Fixpoint frr_walk (r : list nat) (k : K) : K :=
  match r with
  | [] => k
  | i :: r' => frr_walk r' (if decide (runnable k i) then grant i EXE_TICKETS k
                            else rr_remove i k)
  end.

Lemma deref_ret (i : nat) k : (i < length (k_ptable k))%nat → deref (Some i) k = Ret i k.
Proof. intros. unfold deref. by rewrite decide_True. Qed.

Lemma frr_loop_ret h r l fuel k :
  rr_repr k (h :: reverse r ++ l) → (length r <= fuel)%nat →
  frr_loop fuel (last (h :: reverse r)) k = Ret (Some h) (frr_walk r k).
Proof.
  revert fuel l k. induction r as [|i r IH]; intros fuel l k Hr Hf.
  - pose proof (rr_firstE _ _ Hr) as Hfst. simpl in *.
    destruct fuel; simpl; mstep; rewrite Hfst; by rewrite decide_True.
  - rewrite rev_cons_app in Hr. destruct fuel as [|fuel]; simpl in Hf; [lia|].
    assert (last (h :: reverse (i :: r)) = Some i) as ->
      by (rewrite reverse_cons, app_comm_cons; apply last_snoc).
    cbn [frr_loop frr_walk]. rewrite (bind_Ret _ _ (Some h) k k)
      by (unfold gets; by rewrite (rr_firstE _ _ Hr)).
    destruct (rr_neighbours i k (h :: reverse r) l Hr) as [Hp _].
    destruct (rr_remove_nodup i k (h :: reverse r) l Hr) as [Hih _].
    rewrite decide_False by set_solver.
    rewrite (bind_Ret _ _ i k k) by (apply deref_ret, (rr_bound _ _ Hr); set_solver).
    rewrite (bind_Ret _ _ (p_state (proc_at k i)) k k) by done.
    unfold runnable. case_decide as H1; case_decide as H2; try done.
    + rewrite (bind_Ret _ _ (rr_prev k i) k k) by done.
      rewrite (bind_Ret _ _ tt k (rr_remove i k)) by apply remove_ret.
      rewrite Hp. apply (IH fuel l); [|lia]. by apply (rr_remove_repr i k (h :: reverse r)).
    + rewrite (bind_Ret _ _ tt k (grant i EXE_TICKETS k)) by done.
      rewrite (bind_Ret _ _ (rr_prev k i) _ (grant i EXE_TICKETS k)).
      * rewrite Hp. apply (IH fuel (i :: l)); [|lia]. by apply rr_repr_grant.
      * unfold field, gets. f_equal. rewrite proc_at_grant. by case_decide.
Qed.

(** [g] holds the processes that have their tickets, in the order given. *)
Record frr_inv k (h : nat) (r g : list nat) : Prop := {
  fi_repr : rr_repr k (h :: reverse r ++ reverse g);
  fi_layout : layout k 0 g (k_totalTickets k);
  fi_tickets : ∀ i, i ∈ g → p_tickets (proc_at k i) = EXE_TICKETS;
  fi_total : k_totalTickets k = EXE_TICKETS * Z.of_nat (length g)
}.

Lemma grant_tickets i n k j :
  (i < length (k_ptable k))%nat →
  p_tickets (proc_at (grant i n k) j) = if decide (i = j) then n else p_tickets (proc_at k j).
Proof. intros. rewrite proc_at_grant. repeat case_decide; naive_solver. Qed.

Lemma frr_inv_grant k h i r g :
  frr_inv k h (i :: r) g → (length (k_ptable k) <= NPROC)%nat →
  frr_inv (grant i EXE_TICKETS k) h r (g ++ [i]).
Proof.
  intros [Hr Hl Ht Hn] Hlen. rewrite rev_cons_app in Hr.
  assert (i < length (k_ptable k))%nat as Hi by (apply (rr_bound _ _ Hr); set_solver).
  destruct (rr_remove_nodup i k (h :: reverse r) (reverse g) Hr) as (_ & Hg & _).
  rewrite elem_of_reverse in Hg.
  assert (length g <= NPROC)%nat.
  { pose proof (rr_length _ _ Hr) as Hq. revert Hq. simpl.
    rewrite length_app, length_reverse. simpl. rewrite length_reverse. lia. }
  unfold NPROC, EXE_TICKETS in *. split.
  - rewrite reverse_snoc. by apply rr_repr_grant.
  - apply layout_grant; [done..|lia|lia].
  - intros j Hj. rewrite grant_tickets by done. case_decide; [done|].
    apply Ht. set_solver.
  - simpl. unfold EXE_TICKETS. rewrite length_app, Hn, s32_id; simpl; lia.
Qed.

Lemma frr_inv_remove k h i r g :
  frr_inv k h (i :: r) g → frr_inv (rr_remove i k) h r g.
Proof.
  intros [Hr Hl Ht Hn]. rewrite rev_cons_app in Hr.
  pose proof (rr_remove_frame i k) as Hf.
  assert (∀ j, p_tickets (proc_at (rr_remove i k) j) = p_tickets (proc_at k j) ∧
    p_firstTicketNum (proc_at (rr_remove i k) j) = p_firstTicketNum (proc_at k j)) as Hp.
  { intros j. pose proof (rf_proc _ _ Hf j) as Hj. by injection Hj. }
  assert (k_totalTickets (rr_remove i k) = k_totalTickets k) as Htot
    by (pose proof (rf_rest _ _ Hf) as He; unfold rest in He; congruence).
  split.
  - by apply (rr_remove_repr i k (h :: reverse r)).
  - rewrite Htot. eapply layout_ext; [|done]. intros j _. by destruct (Hp j).
  - intros j Hj. destruct (Hp j) as [-> _]. by apply Ht.
  - by rewrite Htot.
Qed.

Lemma frr_walk_frame r k : lt_frame k (frr_walk r k).
Proof.
  revert k. induction r as [|i r IH]; intros k; simpl; [done|].
  etrans; [|apply IH]. case_decide; [apply grant_frame|apply rr_lt_frame, rr_remove_frame].
Qed.

Lemma filter_runnable_frame k k' (l : list nat) :
  lt_frame k k' → filter (runnable k') l = filter (runnable k) l.
Proof. intros Hf. apply list_filter_iff. intros i. by apply lt_frame_runnable. Qed.

Lemma frr_walk_inv h r g k :
  frr_inv k h r g → (length (k_ptable k) <= NPROC)%nat →
  frr_inv (frr_walk r k) h [] (g ++ filter (runnable k) r).
Proof.
  revert g k. induction r as [|i r IH]; intros g k Hi Hlen; simpl.
  - by rewrite app_nil_r.
  - rewrite filter_cons. case_decide.
    + rewrite <-(filter_runnable_frame k (grant i EXE_TICKETS k)) by apply grant_frame.
      rewrite cons_middle, app_assoc. apply IH; [by apply frr_inv_grant|].
      by rewrite (lf_len _ _ (grant_frame i EXE_TICKETS k)).
    + rewrite <-(filter_runnable_frame k (rr_remove i k)) by apply rr_lt_frame, rr_remove_frame.
      apply IH; [by apply frr_inv_remove|]. by rewrite (rf_len _ _ (rr_remove_frame i k)).
Qed.

(** The round: the walk, then the head gets a hundred times the tickets of all
    the others together, and ten. *)
Definition frr_round (h : nat) (t : list nat) (k : K) : K :=
  let k1 := frr_walk (reverse t) k in
  grant h (s32 (EXE_TICKETS + s32 (FIFO_DIFFERECE * k_totalTickets k1))) k1.

Lemma deliver_frr_ret h t k :
  rr_repr k (h :: t) → deliver_frr (k_last k) k = Ret tt (frr_round h t k).
Proof.
  intros Hr. unfold deliver_frr. rewrite (bind_Ret _ _ (queue_fuel k) k k) by done.
  assert (k_last k = last (h :: reverse (reverse t))) as ->
    by (by rewrite (rr_lastE _ _ Hr), reverse_involutive).
  pose proof (rr_length _ _ Hr) as Hlen.
  rewrite (bind_Ret _ _ (Some h) k (frr_walk (reverse t) k)).
  - rewrite (bind_Ret _ _ h _ (frr_walk (reverse t) k)); [done|].
    apply deref_ret. rewrite (lf_len _ _ (frr_walk_frame (reverse t) k)). apply (rr_bound _ _ Hr). left.
  - apply (frr_loop_ret h (reverse t) []); [by rewrite app_nil_r, reverse_involutive|].
    rewrite length_reverse. unfold queue_fuel. simpl in Hlen. lia.
Qed.

Lemma frr_round_spec h t k :
  rr_repr k (h :: t) → k_totalTickets k = 0 → (length (k_ptable k) <= NPROC)%nat →
  let k' := frr_round h t k in
  let live := filter (runnable k) t in
  let others := EXE_TICKETS * Z.of_nat (length live) in
  rr_repr k' (h :: live) ∧
  layout k' 0 (reverse (h :: live)) (k_totalTickets k') ∧
  (∀ i, i ∈ live → p_tickets (proc_at k' i) = EXE_TICKETS) ∧
  p_tickets (proc_at k' h) = EXE_TICKETS + FIFO_DIFFERECE * others ∧
  k_totalTickets k' = others + p_tickets (proc_at k' h) ∧ lt_frame k k'.
Proof.
  intros Hr H0 Hlen k' live others.
  assert (frr_inv k h (reverse t) []) as Hi.
  { split; simpl; [by rewrite app_nil_r, reverse_involutive|done|set_solver|lia]. }
  apply frr_walk_inv in Hi; [|done]. simpl in Hi.
  pose proof (frr_walk_frame (reverse t) k) as Hf1.
  unfold k', frr_round. set (k1 := frr_walk (reverse t) k) in *.
  rewrite filter_reverse in Hi. fold live in Hi. destruct Hi as [Hr1 Hl1 Ht1 Hn1].
  simpl in Hr1. rewrite reverse_involutive in Hr1. rewrite length_reverse in Hn1.
  fold others in Hn1.
  assert (h < length (k_ptable k1))%nat as Hh by (apply (rr_bound _ _ Hr1); left).
  assert (h ∉ live) as Hnot by (pose proof (rr_nodup _ _ Hr1) as Hnd; by apply NoDup_cons in Hnd as [? _]).
  assert (0 <= others <= 640) as Hb.
  { pose proof (rr_length _ _ Hr1) as Hq. simpl in Hq. rewrite (lf_len _ _ Hf1) in Hq.
    unfold others, EXE_TICKETS, NPROC in *. lia. }
  rewrite Hn1. unfold FIFO_DIFFERECE. rewrite (s32_id (100 * others)) by lia.
  rewrite s32_id by (unfold EXE_TICKETS; lia).
  set (n := EXE_TICKETS + 100 * others).
  assert (0 < n < 2 ^ 20) as Hn by (unfold n, EXE_TICKETS; lia).
  split; [|split; [|split; [|split; [|split]]]].
  - by apply rr_repr_grant.
  - rewrite reverse_cons. apply layout_grant; [done| |done|lia..].
    by rewrite elem_of_reverse.
  - intros i Hi. rewrite grant_tickets by done. rewrite decide_False by naive_solver.
    apply Ht1. by rewrite elem_of_reverse.
  - rewrite grant_tickets by done. by rewrite decide_True.
  - rewrite grant_tickets by done. rewrite decide_True by done. simpl.
    rewrite Hn1, s32_id; lia.
  - etrans; [exact Hf1|apply grant_frame].
Qed.

Lemma frr_walk_acquired lk r k : frr_walk r (acquired lk k) = acquired lk (frr_walk r k).
Proof.
  revert k. induction r as [|i r IH]; intros k; simpl; [done|].
  rewrite <-IH. f_equal.
  change (decide (runnable (acquired lk k) i)) with (decide (runnable k i)).
  case_decide; [done|apply rr_remove_acquired].
Qed.

Lemma frr_round_acquired lk h t k :
  frr_round h t (acquired lk k) = acquired lk (frr_round h t k).
Proof. unfold frr_round. by rewrite frr_walk_acquired. Qed.

(** ** PRS *)

(** The three classes of priorities the code distinguishes. *)
Definition prio_class (pr : Z) : nat :=
  if decide (pr <= 0) then 0 else if decide (pr = 1) then 1 else 2.

Definition class_of k (i : nat) : nat := prio_class (p_priority (proc_at k i)).

Lemma class_of_frame k k' i : lt_frame k k' → class_of k' i = class_of k i.
Proof. intros Hf. unfold class_of. by rewrite (lt_frame_field p_priority k k'). Qed.

Definition nclass k (c : nat) (l : list nat) : Z :=
  Z.of_nat (length (filter (λ i, runnable k i ∧ class_of k i = c) l)).

Fixpoint prs_clean (r : list nat) (k : K) : K :=
  match r with
  | [] => k
  | i :: r' => prs_clean r' (if decide (runnable k i) then k else rr_remove i k)
  end.

Lemma nclass_cons k c i l :
  nclass k c (i :: l) =
  (if decide (runnable k i ∧ class_of k i = c) then 1 else 0) + nclass k c l.
Proof. unfold nclass. rewrite filter_cons. case_decide; simpl; lia. Qed.

Lemma nclass_bound k c l : 0 <= nclass k c l <= Z.of_nat (length l).
Proof.
  unfold nclass. pose proof (length_filter (λ i, runnable k i ∧ class_of k i = c) l). lia.
Qed.

Lemma nclass_frame k k' c l : lt_frame k k' → nclass k' c l = nclass k c l.
Proof.
  intros Hf. unfold nclass. f_equal. f_equal. apply list_filter_iff. intros i.
  by rewrite (lt_frame_runnable k k'), (class_of_frame k k').
Qed.

Lemma prs_clean_frame r k : lt_frame k (prs_clean r k).
Proof.
  revert k. induction r as [|i r IH]; intros k; simpl; [done|].
  etrans; [|apply IH]. case_decide; [done|apply rr_lt_frame, rr_remove_frame].
Qed.

Lemma prs_clean_total r k : k_totalTickets (prs_clean r k) = k_totalTickets k.
Proof.
  revert k. induction r as [|i r IH]; intros k; simpl; [done|]. rewrite IH.
  case_decide; [done|]. pose proof (rf_rest _ _ (rr_remove_frame i k)) as He.
  unfold rest in He. congruence.
Qed.

Lemma prs_clean_repr r l k :
  rr_repr k (reverse r ++ l) →
  rr_repr (prs_clean r k) (reverse (filter (runnable k) r) ++ l).
Proof.
  revert l k. induction r as [|i r IH]; intros l k Hr; simpl; [done|].
  rewrite rev_cons_app in Hr. rewrite filter_cons. case_decide.
  - rewrite rev_cons_app. by apply IH.
  - rewrite <-(filter_runnable_frame k (rr_remove i k)) by apply rr_lt_frame, rr_remove_frame.
    by apply IH, rr_remove_repr.
Qed.

Lemma prs_clean_acquired lk r k : prs_clean r (acquired lk k) = acquired lk (prs_clean r k).
Proof.
  revert k. induction r as [|i r IH]; intros k; simpl; [done|].
  rewrite <-IH. f_equal.
  change (decide (runnable (acquired lk k) i)) with (decide (runnable k i)).
  case_decide; [done|apply rr_remove_acquired].
Qed.

Lemma prs_count_ret r l fuel c1 c2 c3 k :
  rr_repr k (reverse r ++ l) → (length r <= fuel)%nat →
  0 <= c1 <= 1000 → 0 <= c2 <= 1000 → 0 <= c3 <= 1000 → Z.of_nat (length r) <= 1000 →
  prs_count fuel (last (reverse r)) c1 c2 c3 k =
  Ret (c1 + nclass k 0 r, c2 + nclass k 1 r, c3 + nclass k 2 r) (prs_clean r k).
Proof.
  assert (∀ a b c a' b' c' : Z, a = a' → b = b' → c = c' → (a, b, c) = (a', b', c')) as Heq
    by congruence.
  intros Hr Hf H1 H2 H3 Hl.
  assert (c1 + Z.of_nat (length r) <= 2000 ∧ c2 + Z.of_nat (length r) <= 2000 ∧
    c3 + Z.of_nat (length r) <= 2000) as Hb by lia. clear Hl.
  assert (0 <= c1 ∧ 0 <= c2 ∧ 0 <= c3) as Hc by lia. clear H1 H2 H3.
  revert fuel l c1 c2 c3 k Hr Hf Hb Hc.
  induction r as [|i r IH]; intros fuel l c1 c2 c3 k Hr Hf Hb Hc.
  { destruct fuel; simpl; unfold mret, M_ret, nclass; simpl; by rewrite !Z.add_0_r. }
  rewrite rev_cons_app in Hr. destruct fuel as [|fuel]; simpl in Hf, Hb; [lia|].
  assert (last (reverse (i :: r)) = Some i) as -> by (rewrite reverse_cons; apply last_snoc).
  cbn [prs_count prs_clean]. rewrite (bind_Ret _ _ (p_state (proc_at k i)) k k) by done.
  destruct (rr_neighbours i k (reverse r) l Hr) as [Hp _].
  rewrite !nclass_cons. destruct (decide (runnable k i)) as [Hrun|Hrun].
  - rewrite decide_False by (unfold runnable in Hrun; naive_solver).
    rewrite (bind_Ret _ _ (p_priority (proc_at k i)) k k) by done.
    rewrite (bind_Ret _ _ (rr_prev k i) k k) by done. rewrite Hp.
    pose proof (λ a b c, IH fuel (i :: l) a b c k Hr ltac:(lia)) as IH'.
    unfold class_of, prio_class.
    destruct (decide (p_priority (proc_at k i) <= 0)).
    { rewrite IH' by (rewrite s32_id; lia). f_equal. apply Heq;
        repeat case_decide; rewrite ?s32_id by lia; naive_solver lia. }
    destruct (decide (p_priority (proc_at k i) = 1)).
    { rewrite IH' by (rewrite s32_id; lia). f_equal. apply Heq;
        repeat case_decide; rewrite ?s32_id by lia; naive_solver lia. }
    rewrite decide_True by lia.
    rewrite IH' by (rewrite s32_id; lia). f_equal. apply Heq;
      repeat case_decide; rewrite ?s32_id by lia; naive_solver lia.
  - rewrite decide_True by done. rewrite (bind_Ret _ _ (rr_prev k i) k k) by done.
    rewrite (bind_Ret _ _ tt k (rr_remove i k)) by apply remove_ret. rewrite Hp.
    rewrite (IH fuel l) by (try lia; by apply rr_remove_repr).
    f_equal. rewrite !(nclass_frame k (rr_remove i k)) by apply rr_lt_frame, rr_remove_frame.
    apply Heq; rewrite decide_False by naive_solver; lia.
Qed.

(** The tickets of a process, without machine arithmetic. *)
Definition prs_weight (c1 c2 : Z) (c : nat) : Z :=
  match c with
  | 0%nat => EXE_TICKETS
  | 1%nat => EXE_TICKETS + EXE_TICKETS * c1 * FIFO_DIFFERECE
  | _ => EXE_TICKETS + EXE_TICKETS * (c1 + c2 * FIFO_DIFFERECE) * FIFO_DIFFERECE
  end.

Lemma prs_tickets_weight c1 c2 pr old :
  0 <= c1 <= 64 → 0 <= c2 <= 64 → prs_tickets c1 c2 pr old = prs_weight c1 c2 (prio_class pr).
Proof.
  intros H1 H2. unfold prs_tickets, prs_weight, prio_class, EXE_TICKETS, FIFO_DIFFERECE.
  repeat case_decide; try lia; try done.
  - rewrite (s32_id (10 * c1)) by lia. rewrite (s32_id (10 * c1 * 100)) by lia.
    by rewrite s32_id by lia.
  - rewrite (s32_id (c2 * 100)) by lia. rewrite (s32_id (c1 + c2 * 100)) by lia.
    rewrite (s32_id (10 * (c1 + c2 * 100))) by lia.
    rewrite (s32_id (10 * (c1 + c2 * 100) * 100)) by lia. by rewrite s32_id by lia.
Qed.

Lemma prs_weight_bound c1 c2 c :
  0 <= c1 <= 64 → 0 <= c2 <= 64 → 0 < prs_weight c1 c2 c < 2 ^ 23.
Proof.
  intros. unfold prs_weight, EXE_TICKETS, FIFO_DIFFERECE. destruct c as [|[|]]; lia.
Qed.

Definition prs_grant (c1 c2 : Z) (k : K) (i : nat) : K :=
  grant i (prs_tickets c1 c2 (p_priority (proc_at k i)) (p_tickets (proc_at k i))) k.

Lemma prs_give_ret r l fuel c1 c2 k :
  rr_repr k (reverse r ++ l) → (length r <= fuel)%nat →
  prs_give fuel (last (reverse r)) c1 c2 k = Ret tt (foldl (prs_grant c1 c2) k r).
Proof.
  revert fuel l k. induction r as [|i r IH]; intros fuel l k Hr Hf; [by destruct fuel|].
  rewrite rev_cons_app in Hr. destruct fuel as [|fuel]; simpl in Hf; [lia|].
  assert (last (reverse (i :: r)) = Some i) as -> by (rewrite reverse_cons; apply last_snoc).
  cbn [prs_give foldl]. destruct (rr_neighbours i k (reverse r) l Hr) as [Hp _].
  rewrite (bind_Ret _ _ (p_priority (proc_at k i)) k k) by done.
  rewrite (bind_Ret _ _ (p_tickets (proc_at k i)) k k) by done.
  rewrite (bind_Ret _ _ tt k (prs_grant c1 c2 k i)) by done.
  rewrite (bind_Ret _ _ (rr_prev k i) _ (prs_grant c1 c2 k i)).
  - rewrite Hp. apply (IH fuel (i :: l)); [|lia]. by apply rr_repr_grant.
  - unfold field, gets, prs_grant. f_equal. rewrite proc_at_grant. by case_decide.
Qed.

Record prs_inv k (c1 c2 : Z) (r g : list nat) : Prop := {
  pi_repr : rr_repr k (reverse r ++ reverse g);
  pi_layout : layout k 0 g (k_totalTickets k);
  pi_tickets : ∀ i, i ∈ g → p_tickets (proc_at k i) = prs_weight c1 c2 (class_of k i);
  pi_total : 0 <= k_totalTickets k <= 2 ^ 23 * Z.of_nat (length g)
}.

Lemma prs_inv_grant k c1 c2 i r g :
  prs_inv k c1 c2 (i :: r) g → (length (k_ptable k) <= NPROC)%nat →
  0 <= c1 <= 64 → 0 <= c2 <= 64 → prs_inv (prs_grant c1 c2 k i) c1 c2 r (g ++ [i]).
Proof.
  intros [Hr Hl Ht Hn] Hlen H1 H2. rewrite rev_cons_app in Hr.
  assert (i < length (k_ptable k))%nat as Hi by (apply (rr_bound _ _ Hr); set_solver).
  destruct (rr_remove_nodup i k (reverse r) (reverse g) Hr) as (_ & Hg & _).
  rewrite elem_of_reverse in Hg.
  assert (length g < NPROC)%nat.
  { pose proof (rr_length _ _ Hr) as Hq. revert Hq.
    rewrite length_app. simpl. rewrite !length_reverse. lia. }
  unfold prs_grant. rewrite prs_tickets_weight by done. fold (class_of k i).
  pose proof (prs_weight_bound c1 c2 (class_of k i) H1 H2) as Hw. unfold NPROC in *. split.
  - rewrite reverse_snoc. by apply rr_repr_grant.
  - apply layout_grant; [done..|lia|lia].
  - intros j Hj. rewrite (class_of_frame k _ j (grant_frame i _ k)).
    rewrite grant_tickets by done. case_decide; [by subst|]. apply Ht. set_solver.
  - simpl. rewrite length_app, s32_id; simpl; lia.
Qed.

Lemma prs_grants_frame c1 c2 r k : lt_frame k (foldl (prs_grant c1 c2) k r).
Proof.
  revert k. induction r as [|i r IH]; intros k; simpl; [done|].
  etrans; [|apply IH]. apply grant_frame.
Qed.

Lemma prs_grants_inv c1 c2 r g k :
  prs_inv k c1 c2 r g → (length (k_ptable k) <= NPROC)%nat →
  0 <= c1 <= 64 → 0 <= c2 <= 64 →
  prs_inv (foldl (prs_grant c1 c2) k r) c1 c2 [] (g ++ r).
Proof.
  revert g k. induction r as [|i r IH]; intros g k Hi Hlen H1 H2; simpl.
  - by rewrite app_nil_r.
  - rewrite cons_middle, app_assoc. apply IH; [by apply prs_inv_grant| |done..].
    unfold prs_grant. by rewrite (lf_len _ _ (grant_frame i _ k)).
Qed.

Lemma prs_grants_acquired lk c1 c2 r k :
  foldl (prs_grant c1 c2) (acquired lk k) r = acquired lk (foldl (prs_grant c1 c2) k r).
Proof. revert k. induction r as [|i r IH]; intros k; simpl; [done|]. by rewrite <-IH. Qed.

Definition prs_round (q : list nat) (k : K) : K :=
  foldl (prs_grant (nclass k 0 q) (nclass k 1 q)) (prs_clean (reverse q) k)
    (reverse (filter (runnable k) q)).

Lemma nclass_reverse k c q : nclass k c (reverse q) = nclass k c q.
Proof. unfold nclass. by rewrite filter_reverse, length_reverse. Qed.

Lemma deliver_prs_ret q k :
  rr_repr k q → (length (k_ptable k) <= NPROC)%nat →
  deliver_prs (k_last k) k = Ret tt (prs_round q k).
Proof.
  intros Hr Hlen. pose proof (rr_length _ _ Hr) as Hq. unfold NPROC in Hlen.
  unfold deliver_prs. rewrite (bind_Ret _ _ (queue_fuel k) k k) by done.
  rewrite (rr_lastE _ _ Hr), <-(reverse_involutive q) at 1.
  rewrite (bind_Ret _ _ (0 + nclass k 0 (reverse q), 0 + nclass k 1 (reverse q),
    0 + nclass k 2 (reverse q)) k (prs_clean (reverse q) k)).
  - set (k1 := prs_clean (reverse q) k). rewrite (bind_Ret _ _ (k_last k1) k1 k1) by done.
    assert (rr_repr k1 (reverse (filter (runnable k) (reverse q)) ++ [])) as Hr1
      by (apply prs_clean_repr; by rewrite reverse_involutive, app_nil_r).
    assert (k_last k1 = last (reverse (filter (runnable k) (reverse q)))) as ->
      by (rewrite (rr_lastE _ _ Hr1); by rewrite app_nil_r).
    cbn [fst snd]. rewrite (prs_give_ret _ []) by (done || (
      unfold queue_fuel; rewrite filter_reverse, length_reverse;
      pose proof (length_filter (runnable k) q); lia)).
    unfold prs_round. by rewrite filter_reverse, !nclass_reverse, !Z.add_0_l.
  - apply (prs_count_ret (reverse q) []); rewrite ?length_reverse; try lia.
    + by rewrite reverse_involutive, app_nil_r.
    + unfold queue_fuel. lia.
Qed.

Lemma prs_round_spec q k :
  rr_repr k q → k_totalTickets k = 0 → (length (k_ptable k) <= NPROC)%nat →
  let k' := prs_round q k in
  let live := filter (runnable k) q in
  rr_repr k' live ∧
  layout k' 0 (reverse live) (k_totalTickets k') ∧
  (∀ i, i ∈ live → p_tickets (proc_at k' i) =
     prs_weight (nclass k 0 q) (nclass k 1 q) (class_of k i)) ∧ lt_frame k k'.
Proof.
  intros Hr H0 Hlen k' live. pose proof (rr_length _ _ Hr) as Hq.
  pose proof (prs_clean_repr (reverse q) [] k) as Hr1.
  rewrite reverse_involutive, !app_nil_r, filter_reverse, reverse_involutive in Hr1.
  specialize (Hr1 Hr). fold live in Hr1.
  pose proof (prs_clean_frame (reverse q) k) as Hf1. unfold k', prs_round. fold live.
  pose proof (prs_clean_total (reverse q) k) as Ht.
  set (k1 := prs_clean (reverse q) k) in *.
  set (c1 := nclass k 0 q). set (c2 := nclass k 1 q).
  pose proof (prs_grants_frame c1 c2 (reverse live) k1) as Hf2.
  destruct (prs_grants_inv c1 c2 (reverse live) [] k1) as [Hr2 Hl2 Ht2 _].
  - split; simpl; [by rewrite reverse_involutive, app_nil_r|by rewrite Ht, H0|set_solver|lia].
  - by rewrite (lf_len _ _ Hf1).
  - unfold c1. pose proof (nclass_bound k 0 q). unfold NPROC in *. lia.
  - unfold c2. pose proof (nclass_bound k 1 q). unfold NPROC in *. lia.
  - simpl in *. rewrite reverse_involutive in Hr2.
    split; [done|]. split; [done|]. split; [|by etrans].
    intros i Hi. rewrite Ht2 by (by rewrite elem_of_reverse). f_equal.
    apply class_of_frame. by etrans.
Qed.

(** ** A round of the lottery *)

(** The processes that stay in the queue.  Under FRR and FCFS the head stays
    whatever its state. *)
Definition live (flag : schedflag) k q : list nat :=
  match flag with
  | FRR | FCFS => match q with [] => [] | h :: t => h :: filter (runnable k) t end
  | PRS => filter (runnable k) q
  | DEFAULT => q
  end.

Definition ticket_weight (flag : schedflag) k q (i : nat) : Z :=
  match flag with
  | FRR | FCFS =>
      if decide (head q = Some i)
      then EXE_TICKETS +
           FIFO_DIFFERECE * (EXE_TICKETS * (Z.of_nat (length (live flag k q)) - 1))
      else EXE_TICKETS
  | PRS => prs_weight (nclass k 0 q) (nclass k 1 q) (class_of k i)
  | DEFAULT => p_tickets (proc_at k i)
  end.

Definition lottery_round (flag : schedflag) (q : list nat) (k : K) : K :=
  let k0 := set_k_totalTickets 0 k in
  match q, flag with
  | h :: t, (FRR | FCFS) => frr_round h t k0
  | _ :: _, PRS => prs_round q k0
  | _, _ => k0
  end.

Lemma rr_repr_total k q n : rr_repr k q → rr_repr (set_k_totalTickets n k) q.
Proof. intros []. by split. Qed.

Lemma lottery_round_sync flag q k : same_sync k (lottery_round flag q k).
Proof.
  unfold lottery_round. destruct q as [|h t], flag; try done.
  - apply (lf_sync (set_k_totalTickets 0 k)). unfold frr_round.
    etrans; [apply frr_walk_frame|apply grant_frame].
  - apply (lf_sync (set_k_totalTickets 0 k)). unfold frr_round.
    etrans; [apply frr_walk_frame|apply grant_frame].
  - apply (lf_sync (set_k_totalTickets 0 k)). unfold prs_round.
    etrans; [apply prs_clean_frame|apply prs_grants_frame].
Qed.

Lemma lottery_round_spec flag q k :
  uses_queue flag = true → rr_repr k q → (length (k_ptable k) <= NPROC)%nat →
  let k' := lottery_round flag q k in
  rr_repr k' (live flag k q) ∧
  layout k' 0 (reverse (live flag k q)) (k_totalTickets k') ∧
  (∀ i, i ∈ live flag k q → p_tickets (proc_at k' i) = ticket_weight flag k q i) ∧
  lt_frame k k'.
Proof.
  intros Hu Hr Hlen. set (k0 := set_k_totalTickets 0 k).
  assert (rr_repr k0 q) as Hr0 by by apply rr_repr_total.
  assert (lt_frame k k0) as Hf0 by by split.
  assert (∀ h t, q = h :: t → NoDup (h :: t)) as Hnd by (intros h t <-; apply Hr).
  assert (∀ h t, q = h :: t → (flag = FRR ∨ flag = FCFS) →
    let k' := frr_round h t k0 in
    rr_repr k' (live flag k q) ∧
    layout k' 0 (reverse (live flag k q)) (k_totalTickets k') ∧
    (∀ i, i ∈ live flag k q → p_tickets (proc_at k' i) = ticket_weight flag k q i) ∧
    lt_frame k k') as Hfrr.
  { intros h t -> Hflag k'. destruct (frr_round_spec h t k0) as (H1 & H2 & H3 & H4 & H5 & H6);
      [done..|]. fold k' in H1, H2, H3, H4, H5, H6.
    change (filter (runnable k0) t) with (filter (runnable k) t) in *.
    pose proof (Hnd h t eq_refl) as Hht. apply NoDup_cons in Hht as [Hht _].
    assert (live flag k (h :: t) = h :: filter (runnable k) t) as Hlive
      by (by destruct Hflag as [-> | ->]).
    rewrite Hlive. split; [done|]. split; [done|]. split; [|by etrans].
    intros i [->|Hi]%elem_of_cons.
    - rewrite H4. assert (length (h :: filter (runnable k) t) = S (length (filter (runnable k) t)))
        as Hl by done. unfold ticket_weight. rewrite Hlive, Hl.
      destruct Hflag as [-> | ->]; simpl; rewrite decide_True by done; f_equal; f_equal; lia.
    - rewrite H3 by done. apply list_elem_of_filter in Hi as [_ Hi].
      destruct Hflag as [-> | ->]; simpl; rewrite decide_False; naive_solver. }
  unfold lottery_round. destruct q as [|h t].
  - destruct flag; simpl; (split; [done|]); (split; [done|]); (split; [set_solver|done]).
  - destruct flag; try done; [by apply Hfrr; eauto..|].
    destruct (prs_round_spec (h :: t) k0) as (H1 & H2 & H3 & H4); [done..|].
    split; [done|]. split; [done|]. split; [done|by etrans].
Qed.

Lemma prs_round_acquired lk q k : prs_round q (acquired lk k) = acquired lk (prs_round q k).
Proof.
  unfold prs_round. rewrite prs_clean_acquired.
  change (nclass (acquired lk k)) with (nclass k).
  change (filter (runnable (acquired lk k)) q) with (filter (runnable k) q).
  apply prs_grants_acquired.
Qed.

Lemma deliver_ret flag q k :
  rr_repr k q → nest_ok 1 k → lock_idle RRLock k → (length (k_ptable k) <= NPROC)%nat →
  uses_queue flag = true →
  deliverTicketsToFIFOProcs flag k = Ret tt (settle (lottery_round flag q k)).
Proof.
  intros Hr Hn Hl Hlen Hu. unfold deliverTicketsToFIFOProcs.
  destruct (lottery_round_spec flag q k Hu Hr Hlen) as (Hr' & _ & _ & Hf).
  pose proof (lottery_round_sync flag q k) as Hs.
  set (k0 := set_k_totalTickets 0 k). rewrite (bind_Ret _ _ tt k k0) by done.
  assert (nest_ok 1 k0) as Hn0 by done. assert (lock_idle RRLock k0) as Hl0 by done.
  pose proof (rr_repr_total k q 0 Hr) as Hr0. fold k0 in Hr0.
  rewrite (bind_Ret _ _ tt k0 (acquired RRLock k0))
    by (destruct Hn0; auto using acquire_free, lock_idle_free).
  set (ka := acquired RRLock k0).
  pose proof (rr_repr_acquired RRLock k0 q Hr0) as Hra. fold ka in Hra.
  rewrite (bind_Ret _ _ (k_last ka) ka ka) by done.
  destruct q as [|h t].
  { rewrite (rr_lastE _ _ Hra). simpl. unfold ka. by rewrite release_acquired. }
  assert (∃ l, k_last ka = Some l) as [l Hlast].
  { rewrite (rr_lastE _ _ Hra). destruct (last (h :: t)) eqn:He; [by eexists|].
    by apply last_None in He. }
  rewrite Hlast. rewrite <-Hlast.
  rewrite (bind_Ret _ _ tt ka (acquired RRLock (lottery_round flag (h :: t) k))).
  - set (k' := lottery_round flag (h :: t) k) in *.
    rewrite (bind_Ret _ _ tt _ (settle k'))
      by (apply release_acquired; [by eapply nest_ok_sync|by eapply lock_idle_sync]).
    rewrite (printRRQueue_ret _ (live flag k (h :: t))), settle_idem; [done|..].
    + by apply rr_repr_settle.
    + apply nest_ok_settle. by eapply nest_ok_sync.
    + change (lock_idle RRLock k'). by eapply lock_idle_sync.
  - unfold lottery_round. destruct flag; try done.
    + rewrite (deliver_frr_ret h t) by done. by unfold ka; rewrite frr_round_acquired.
    + rewrite (deliver_frr_ret h t) by done. by unfold ka; rewrite frr_round_acquired.
    + rewrite (deliver_prs_ret (h :: t)) by done. by unfold ka; rewrite prs_round_acquired.
Qed.

Lemma lottery_total_range flag q k : k_totalTickets (lottery_round flag q k) < 2 ^ 31.
Proof.
  unfold lottery_round.
  assert (∀ i n (k1 : K), k_totalTickets (grant i n k1) < 2 ^ 31) as Hg
    by (intros; simpl; apply s32_range).
  destruct q as [|h t]; [by destruct flag|]. destruct flag; try apply Hg; [done|].
  unfold prs_round. generalize (reverse (filter (runnable (set_k_totalTickets 0 k)) (h :: t))) as l. intros l.
  destruct l as [|x l _] using rev_ind.
  - cbn [foldl]. by rewrite prs_clean_total.
  - rewrite foldl_snoc. apply Hg.
Qed.

(** ** Drawing a ticket *)

#[global] Instance holds_dec k i t : Decision (holds k i t).
Proof. unfold holds. apply _. Defined.

Lemma pick_walk_ret k q a t fuel :
  dseg (rr_next k) (rr_prev k) a q None → (length q <= fuel)%nat →
  (∀ i, i ∈ q → 0 <= p_firstTicketNum (proc_at k i) + p_tickets (proc_at k i) <= 2 ^ 31) →
  pick_walk fuel t (head q) k = Ret (head (filter (λ i, holds k i t) q)) k.
Proof.
  revert a fuel. induction q as [|i q IH]; intros a fuel Hs Hf Hb; [by destruct fuel|].
  destruct fuel as [|fuel]; simpl in Hf; [lia|]. destruct Hs as (_ & Hn & Hs).
  assert (s32 (s32 (p_tickets (proc_at k i) + p_firstTicketNum (proc_at k i)) - 1) =
    p_firstTicketNum (proc_at k i) + p_tickets (proc_at k i) - 1) as He.
  { rewrite <-Z.add_opp_r, s32_add_l. pose proof (Hb i ltac:(left)). rewrite s32_id; lia. }
  cbn [head pick_walk]. rewrite (bind_Ret _ _ (p_firstTicketNum (proc_at k i)) k k) by done.
  rewrite (bind_Ret _ _ (p_tickets (proc_at k i)) k k) by done. rewrite He, filter_cons.
  destruct (decide (holds k i t)) as [Hh|Hh]; unfold holds in Hh.
  - by rewrite decide_True by lia.
  - rewrite decide_False by lia. rewrite (bind_Ret _ _ (rr_next k i) k k) by done.
    rewrite Hn. rewrite <-(IH (Some i) fuel); [by destruct q|done|lia|].
    intros j Hj. apply Hb. by right.
Qed.

(** The draw: the next number of the generator modulo the total. *)
Definition drawn k : Z := Z.rem (rng_w (xorshift_next (k_rng k))) (k_totalTickets k).

Definition picked k q : option nat :=
  if decide (k_totalTickets k > 0) then head (filter (λ i, holds k i (drawn k)) q) else None.

Definition after_pick (k : K) : K :=
  if decide (k_totalTickets k > 0) then set_k_rng (xorshift_next (k_rng k)) k else k.

Lemma layout_bound k q i :
  layout k 0 (reverse q) (k_totalTickets k) → k_totalTickets k < 2 ^ 31 → i ∈ q →
  0 <= p_firstTicketNum (proc_at k i) + p_tickets (proc_at k i) <= 2 ^ 31.
Proof.
  intros Hl Hb Hi. apply elem_of_reverse in Hi.
  pose proof (layout_in _ _ _ _ _ Hl Hi). lia.
Qed.

Lemma pick_ret k q :
  rr_repr k q → nest_ok 1 k → lock_idle RRLock k →
  layout k 0 (reverse q) (k_totalTickets k) → k_totalTickets k < 2 ^ 31 →
  pickProcess k = Ret (picked k q) (settle (after_pick k)).
Proof.
  intros Hr Hn Hl Hlay Hb.
  assert (same_sync k (after_pick k)) by (unfold after_pick; by case_decide).
  apply critical; [done..|]. unfold pick_body, picked, after_pick.
  set (ka := acquired RRLock k). rewrite (bind_Ret _ _ (k_totalTickets k) ka ka) by done.
  case_decide as Ht; [|done]. unfold xorshift128.
  set (kb := set_k_rng (xorshift_next (k_rng k)) ka).
  change (acquired RRLock (set_k_rng (xorshift_next (k_rng k)) k)) with kb.
  rewrite (bind_Ret _ _ (rng_w (xorshift_next (k_rng k))) ka kb) by done.
  rewrite (bind_Ret _ _ (k_first kb) kb kb) by done.
  rewrite (bind_Ret _ _ (queue_fuel kb) kb kb) by done.
  change (k_first kb) with (k_first k). rewrite (rr_firstE _ _ Hr).
  change (filter (λ i, holds k i (drawn k)) q) with (filter (λ i, holds kb i (drawn k)) q).
  eapply pick_walk_ret; [apply (rr_seg _ _ Hr)|..].
  - pose proof (rr_length _ _ Hr). unfold queue_fuel. simpl. lia.
  - intros i Hi. by apply (layout_bound k q).
Qed.

Lemma picked_Some k q i :
  layout k 0 (reverse q) (k_totalTickets k) → k_totalTickets k > 0 →
  picked k q = Some i ↔ i ∈ q ∧ holds k i (drawn k).
Proof.
  intros Hl Ht. unfold picked. rewrite decide_True by done. split; [intros Hp; by apply head_filter_Some in Hp|].
  intros [Hi Hh]. destruct (head (filter _ q)) as [j|] eqn:He.
  - f_equal. apply head_filter_Some in He as [Hj Hhj].
    by apply (layout_unique k 0 (reverse q) (k_totalTickets k) (drawn k)); rewrite ?elem_of_reverse.
  - by destruct (head_filter_None _ _ He i Hi).
Qed.

Lemma picked_None k q :
  layout k 0 (reverse q) (k_totalTickets k) → k_totalTickets k > 0 →
  picked k q = None ↔ drawn k <= 0.
Proof.
  intros Hl Ht. split.
  - intros Hn. unfold picked in Hn. rewrite decide_True in Hn by done.
    destruct (decide (drawn k <= 0)) as [|Hd]; [done|].
    assert (drawn k < k_totalTickets k).
    { unfold drawn. pose proof (Z.rem_bound_abs (rng_w (xorshift_next (k_rng k))) (k_totalTickets k)). lia. }
    destruct (layout_holder _ _ _ _ (drawn k) Hl) as (i & Hi & Hh); [lia|].
    rewrite elem_of_reverse in Hi. by destruct (head_filter_None _ _ Hn i Hi).
  - intros Hd. destruct (picked k q) as [i|] eqn:Hp; [|done].
    apply picked_Some in Hp as [Hi Hh]; [|done..]. apply elem_of_reverse in Hi.
    apply (layout_in _ _ _ _ _ Hl) in Hi. unfold holds in Hh. lia.
Qed.

(** ** Theorems *)

(** Outside the fields a round may change, [k'] is [k]. *)
Record lt_untouched k k' : Prop := {
  lu_rest : rest (set_k_rng (k_rng k) (set_k_totalTickets 0 k')) =
            rest (set_k_totalTickets 0 k);
  lu_locks : k_locks k' = k_locks k;
  lu_proc : ∀ i, unticketed (proc_at k' i) = unticketed (proc_at k i)
}.

(** C28. Delivering tickets.  Under each of the queue policies
    [deliverTicketsToFIFOProcs] returns; the processes that are not RUNNABLE
    have left the queue (under FRR and FCFS the head is never examined), the
    order of the others is kept, and from the last to the first they hold
    adjacent ticket intervals that start at 1 and end at [totalTickets], of the
    widths the policy prescribes: nothing overflows an [int], and nothing else
    in the process table changes. *)
Theorem deliver_spec flag q k :
  uses_queue flag = true → rr_repr k q → nest_ok 1 k → lock_idle RRLock k →
  (length (k_ptable k) <= NPROC)%nat →
  ∃ k', deliverTicketsToFIFOProcs flag k = Ret tt k' ∧
    rr_repr k' (live flag k q) ∧
    layout k' 0 (reverse (live flag k q)) (k_totalTickets k') ∧
    (∀ i, i ∈ live flag k q → p_tickets (proc_at k' i) = ticket_weight flag k q i) ∧
    lt_untouched k k'.
Proof.
  intros Hu Hr Hn Hl Hlen.
  destruct (lottery_round_spec flag q k Hu Hr Hlen) as (H1 & H2 & H3 & [(_ & _ & Hs) Hf _ Hp]).
  eexists. rewrite (deliver_ret flag q) by done. split; [done|].
  split; [by apply rr_repr_settle|]. split; [by eapply layout_ext, H2|]. split; [done|].
  split; [|done..]. unfold rest in *; simpl in *. congruence.
Qed.

(** C29. Drawing.  When the queued processes hold the intervals of a delivery,
    [pickProcess] returns, consumes one number of the generator and selects
    the one process whose interval contains the draw; it selects nobody
    exactly when the draw is not positive.  The draw is a remainder, so it lies
    strictly between [- totalTickets] and [totalTickets]: tickets are numbered from
    1, hence a draw of 0 or below finds no process although the queue is not
    empty, and the last ticket is never drawn. *)
Theorem pick_spec k q :
  rr_repr k q → nest_ok 1 k → lock_idle RRLock k →
  layout k 0 (reverse q) (k_totalTickets k) → 0 < k_totalTickets k < 2 ^ 31 →
  ∃ sel k', pickProcess k = Ret sel k' ∧
    (∀ i, sel = Some i ↔ i ∈ q ∧ holds k i (drawn k)) ∧
    (sel = None ↔ drawn k <= 0) ∧
    - k_totalTickets k < drawn k < k_totalTickets k ∧
    k_rng k' = xorshift_next (k_rng k) ∧ rr_repr k' q ∧
    k_ptable k' = k_ptable k ∧ k_locks k' = k_locks k.
Proof.
  intros Hr Hn Hl Hlay Hb. do 2 eexists.
  rewrite (pick_ret k q) by (done || lia). split; [done|].
  split; [intros i; apply picked_Some; [done|lia]|].
  split; [apply picked_None; [done|lia]|].
  split; [unfold drawn; pose proof (Z.rem_bound_abs (rng_w (xorshift_next (k_rng k))) (k_totalTickets k)); lia|].
  assert (after_pick k = set_k_rng (xorshift_next (k_rng k)) k) as ->
    by (unfold after_pick; by rewrite decide_True by lia).
  split; [done|]. split; [|done]. destruct Hr. by split.
Qed.

Definition sum_tickets k (l : list nat) : Z :=
  foldr (λ i s, p_tickets (proc_at k i) + s) 0 l.

Lemma sum_tickets_cons k i l :
  sum_tickets k (i :: l) = p_tickets (proc_at k i) + sum_tickets k l.
Proof. done. Qed.

Lemma sum_lower k k' q l c :
  (∀ i, i ∈ l → p_tickets (proc_at k' i) =
     prs_weight (nclass k 0 q) (nclass k 1 q) (class_of k i)) →
  (∀ i, i ∈ l → runnable k i) → (c < 3)%nat →
  sum_tickets k' (filter (λ j, (class_of k j < c)%nat) l) =
  match c with
  | 0%nat => 0
  | 1%nat => EXE_TICKETS * nclass k 0 l
  | _ => EXE_TICKETS * nclass k 0 l +
         (EXE_TICKETS + EXE_TICKETS * nclass k 0 q * FIFO_DIFFERECE) * nclass k 1 l
  end.
Proof.
  intros Ht Hrun Hc. induction l as [|i l IH]; [destruct c as [|[|]]; simpl; unfold nclass; simpl; lia|].
  rewrite filter_cons, !nclass_cons.
  assert (runnable k i) as Hri by (apply Hrun; left).
  pose proof (Ht i ltac:(left)) as Hti.
  assert (class_of k i <= 2)%nat by (unfold class_of, prio_class; repeat case_decide; lia).
  unfold prs_weight in Hti.
  specialize (IH ltac:(set_solver) ltac:(set_solver)).
  destruct (class_of k i) as [|[|[|]]], c as [|[|[|]]]; try lia;
    repeat case_decide; try (exfalso; naive_solver lia);
    rewrite ?sum_tickets_cons, ?Hti, IH; ring.
Qed.

Lemma nclass_live k c q : nclass k c (filter (runnable k) q) = nclass k c q.
Proof.
  induction q as [|i q IH]; [done|]. rewrite filter_cons, nclass_cons.
  destruct (decide (runnable k i)); [rewrite nclass_cons; by rewrite IH|].
  rewrite decide_False by naive_solver. by rewrite IH.
Qed.

Lemma sum_tickets_const k l n :
  (∀ i, i ∈ l → p_tickets (proc_at k i) = n) → sum_tickets k l = n * Z.of_nat (length l).
Proof.
  intros Hl. induction l as [|i l IH]; [simpl; lia|].
  rewrite sum_tickets_cons, (Hl i) by left. rewrite IH by set_solver. cbn [length]. lia.
Qed.

Lemma prs_dominates k k' q i :
  (length q <= NPROC)%nat →
  let l := filter (runnable k) q in
  (∀ j, j ∈ l → p_tickets (proc_at k' j) =
     prs_weight (nclass k 0 q) (nclass k 1 q) (class_of k j)) →
  i ∈ l →
  sum_tickets k' (filter (λ j, (class_of k j < class_of k i)%nat) l) < p_tickets (proc_at k' i).
Proof.
  intros Hq l Ht Hi. rewrite (sum_lower k k' q l), (Ht i) by
    (done || (intros j Hj; by apply list_elem_of_filter in Hj as [? _]) ||
     (unfold class_of, prio_class; repeat case_decide; lia)).
  unfold l. rewrite !nclass_live.
  pose proof (nclass_bound k 0 q). pose proof (nclass_bound k 1 q).
  unfold prs_weight, EXE_TICKETS, FIFO_DIFFERECE, NPROC in *.
  destruct (class_of k i) as [|[|]]; nia.
Qed.

(** Who the lottery favours.  After a delivery under FRR or FCFS the head of
    the queue holds ten tickets and a hundred times those of all the others
    together; under PRS every process holds more tickets than all the queued
    processes of lower priority classes together. *)
Theorem deliver_favours flag q k k' :
  rr_repr k q → nest_ok 1 k → lock_idle RRLock k → (length (k_ptable k) <= NPROC)%nat →
  deliverTicketsToFIFOProcs flag k = Ret tt k' →
  match flag with
  | FRR | FCFS => ∀ h t, live flag k q = h :: t →
      p_tickets (proc_at k' h) = EXE_TICKETS + FIFO_DIFFERECE * sum_tickets k' t
  | PRS => ∀ i, i ∈ live flag k q →
      sum_tickets k' (filter (λ j, (class_of k j < class_of k i)%nat) (live flag k q)) <
      p_tickets (proc_at k' i)
  | DEFAULT => True
  end.
Proof.
  intros Hr Hn Hl Hlen Hd. pose proof (rr_length _ _ Hr) as Hq.
  destruct (decide (uses_queue flag = true)) as [Hu|Hu]; [|by destruct flag].
  rewrite (deliver_ret flag q) in Hd by done. injection Hd as <-.
  destruct (lottery_round_spec flag q k Hu Hr Hlen) as (Hr' & _ & H3 & _).
  change (proc_at (settle ?x)) with (proc_at x).
  change (sum_tickets (settle ?x)) with (sum_tickets x).
  assert (∀ h t, live flag k q = h :: t → flag ≠ PRS →
    p_tickets (proc_at (lottery_round flag q k) h) =
    EXE_TICKETS + FIFO_DIFFERECE * sum_tickets (lottery_round flag q k) t) as Hfrr.
  { intros h t Hlive Hprs. rewrite Hlive in *.
    pose proof (rr_nodup _ _ Hr') as Hnd. apply NoDup_cons in Hnd as [Hnd _].
    assert (head q = Some h) as Hh by (destruct flag, q; naive_solver).
    rewrite (sum_tickets_const _ t EXE_TICKETS).
    - rewrite H3 by left. unfold ticket_weight.
      destruct flag; try done; rewrite decide_True, Hlive by done; cbn [length];
        do 3 f_equal; lia.
    - intros i Hi. rewrite H3 by (by right). unfold ticket_weight.
      destruct flag; try done; rewrite decide_False; naive_solver. }
  destruct flag; [done|by intros; apply Hfrr..|].
  intros i Hi. apply (prs_dominates k _ q); [lia|done|done].
Qed.
End lottery.

(** ** A queue of three processes of the three priority classes *)

Definition ready (pr : Z) (p : proc) : proc := set_p_state RUNNABLE (set_p_priority pr p).

Definition demo_queue : core unit :=
  rr_push 1 (upd_proc 1 (ready 2) (rr_push 4 (upd_proc 4 (ready 0)
    (rr_push 2 (upd_proc 2 (ready 1) (boot_core 1 tt)))))).

Lemma demo_queue_repr : rr_repr demo_queue [2%nat; 4%nat; 1%nat].
Proof.
  unfold demo_queue.
  change ([2%nat; 4%nat; 1%nat]) with (([] ++ [2%nat]) ++ [4%nat] ++ [1%nat]).
  rewrite app_assoc. repeat (apply rr_push_repr;
    [apply rr_repr_upd; [done|] | set_solver | vm_compute; lia]). apply rr_repr_boot.
Qed.

Lemma demo_queue_live flag :
  uses_queue flag = true → live flag demo_queue [2%nat; 4%nat; 1%nat] = [2%nat; 4%nat; 1%nat].
Proof. destruct flag; [done|by vm_compute..]. Qed.

Lemma demo_queue_ready :
  nest_ok 1 demo_queue ∧ lock_idle RRLock demo_queue ∧
  (length (k_ptable demo_queue) <= NPROC)%nat.
Proof.
  split; [|split].
  - split; [split; [|split]|]; vm_compute; [lia|done|done|done].
  - by vm_compute.
  - vm_compute. lia.
Qed.

Lemma deliver_spec_witness :
  ∃ k', deliverTicketsToFIFOProcs PRS demo_queue = Ret tt k' ∧
    layout k' 0 [1%nat; 4%nat; 2%nat] (k_totalTickets k') ∧
    p_tickets (proc_at k' 1) = 101010 ∧ p_tickets (proc_at k' 2) = 1010 ∧
    p_tickets (proc_at k' 4) = 10.
Proof.
  destruct demo_queue_ready as (Hn & Hl & Hlen).
  destruct (deliver_spec PRS _ demo_queue eq_refl demo_queue_repr Hn Hl Hlen)
    as (k' & H1 & _ & H3 & H4 & _).
  rewrite demo_queue_live in H3, H4 by done.
  exists k'. split; [exact H1|]. split; [exact H3|]. clear H1 H3.
  rewrite (H4 1%nat), (H4 2%nat), (H4 4%nat) by (clear; set_solver). by vm_compute.
Defined.

(** With the tickets delivered, the first number of the generator picks slot 1. *)
Definition demo_round : core unit := lottery_round PRS [2%nat; 4%nat; 1%nat] demo_queue.

Lemma pick_spec_witness :
  ∃ sel k', pickProcess demo_round = Ret sel k' ∧ sel = Some 1%nat ∧ drawn demo_round = 2061.
Proof.
  destruct demo_queue_ready as (Hn & Hl & Hlen).
  destruct (lottery_round_spec PRS _ demo_queue eq_refl demo_queue_repr Hlen) as (H1 & H2 & _).
  rewrite demo_queue_live in H1, H2 by done.
  pose proof (lottery_round_sync PRS [2%nat; 4%nat; 1%nat] demo_queue) as Hs.
  destruct (pick_spec demo_round [2%nat; 4%nat; 1%nat]) as (sel & k' & Hp & Hsel & _).
  - exact H1.
  - exact (nest_ok_sync _ _ _ Hs Hn).
  - exact (lock_idle_sync _ _ _ Hs Hl).
  - exact H2.
  - by vm_compute.
  - exists sel, k'. split; [exact Hp|]. clear Hp. split; [|by vm_compute].
    apply Hsel. split; [clear; set_solver|]. by vm_compute.
Defined.

Lemma deliver_favours_witness :
  ∃ k', deliverTicketsToFIFOProcs FRR demo_queue = Ret tt k' ∧
    p_tickets (proc_at k' 2) = EXE_TICKETS + FIFO_DIFFERECE * sum_tickets k' [4%nat; 1%nat].
Proof.
  destruct demo_queue_ready as (Hn & Hl & Hlen).
  pose proof (deliver_ret FRR _ demo_queue demo_queue_repr Hn Hl Hlen eq_refl) as Hd.
  eexists. split; [exact Hd|].
  apply (deliver_favours FRR _ demo_queue _ demo_queue_repr Hn Hl Hlen Hd).
  by apply demo_queue_live.
Defined.
