(* ===== verification/CString.v ===== *)
(** * Byte strings (string.c of the kernel, ulib.c of the user library)

    Memory is a function from addresses to bytes; a routine that writes maps a
    memory to a memory.  Pointers do not wrap: an object lies inside the
    address space.  A loop with a count is structural in the count, a loop that
    looks for a terminating zero takes fuel and answers [None] without it.
    [cstr m s l] says that the bytes of [l] followed by a zero are at [s]. *)

From stdpp Require Import base list functions numbers.
From Stdlib Require Import ZArith Lia.
From S2P Require Import Prelude.

Definition mem : Type := Z → Z.

(** ** string.c *)

(** [rep stosb] and [rep stosl]; a word is stored low byte first. *)
Fixpoint stosb (n : nat) (dst c : Z) (m : mem) : mem :=
  match n with
  | O => m
  | S n' => stosb n' (dst + 1) c (<[dst := u8 c]> m)
  end.

Definition store32 (a w : Z) (m : mem) : mem :=
  <[a + 3 := u8 (Z.shiftr w 24)]> (<[a + 2 := u8 (Z.shiftr w 16)]>
    (<[a + 1 := u8 (Z.shiftr w 8)]> (<[a := u8 w]> m))).

Fixpoint stosl (n : nat) (dst w : Z) (m : mem) : mem :=
  match n with
  | O => m
  | S n' => stosl n' (dst + 4) w (store32 dst w m)
  end.

Definition memset (dst c n : Z) (m : mem) : mem :=
  if decide (Z.rem (s32 dst) 4 = 0 ∧ n mod 4 = 0) then
    let c := Z.land c 0xFF in
    stosl (Z.to_nat (n / 4)) dst
      (Z.lor (Z.lor (Z.lor (s32 (Z.shiftl c 24)) (Z.shiftl c 16)) (Z.shiftl c 8)) c) m
  else stosb (Z.to_nat n) dst c m.

Fixpoint memcmp (n : nat) (s1 s2 : Z) (m : mem) : Z :=
  match n with
  | O => 0
  | S n' => if decide (m s1 ≠ m s2) then m s1 - m s2
            else memcmp n' (s1 + 1) (s2 + 1) m
  end.

(** [while(n-- > 0) *--d = *--s;] and [while(n-- > 0) *d++ = *s++;] *)
Fixpoint copy_down (n : nat) (d s : Z) (m : mem) : mem :=
  match n with
  | O => m
  | S n' => copy_down n' (d - 1) (s - 1) (<[d - 1 := m (s - 1)]> m)
  end.

Fixpoint copy_up (n : nat) (d s : Z) (m : mem) : mem :=
  match n with
  | O => m
  | S n' => copy_up n' (d + 1) (s + 1) (<[d := m s]> m)
  end.

Definition memmove (dst src n : Z) (m : mem) : mem :=
  if decide (src < dst ∧ src + n > dst)
  then copy_down (Z.to_nat n) (dst + n) (src + n) m
  else copy_up (Z.to_nat n) dst src m.

Definition memcpy (dst src n : Z) (m : mem) : mem := memmove dst src n m.

Fixpoint strncmp (n : nat) (p q : Z) (m : mem) : Z :=
  match n with
  | O => 0
  | S n' => if decide (m p ≠ 0 ∧ m p = m q) then strncmp n' (p + 1) (q + 1) m
            else m p - m q
  end.

Fixpoint strncpy (n : nat) (s t : Z) (m : mem) : mem :=
  match n with
  | O => m
  | S n' =>
      if decide (m t = 0) then stosb n' (s + 1) 0 (<[s := m t]> m)
      else strncpy n' (s + 1) (t + 1) (<[s := m t]> m)
  end.

(** [n] is the count left by [--n]. *)
Fixpoint safestr_loop (n : nat) (s t : Z) (m : mem) : mem :=
  match n with
  | O => <[s := 0]> m
  | S n' =>
      if decide (m t = 0) then <[s + 1 := 0]> (<[s := m t]> m)
      else safestr_loop n' (s + 1) (t + 1) (<[s := m t]> m)
  end.

Definition safestrcpy (s t n : Z) (m : mem) : mem :=
  if decide (n <= 0) then m else safestr_loop (Z.to_nat (n - 1)) s t m.

Fixpoint strlen_from (fuel : nat) (s n : Z) (m : mem) : option Z :=
  if decide (m (s + n) = 0) then Some n
  else match fuel with
       | O => None
       | S fuel' => strlen_from fuel' s (s32 (n + 1)) m
       end.

Definition strlen (fuel : nat) (s : Z) (m : mem) : option Z := strlen_from fuel s 0 m.

(** ** ulib.c *)

Module Ulib.

Fixpoint strcpy (fuel : nat) (s t : Z) (m : mem) : option mem :=
  let m' := <[s := m t]> m in
  if decide (m t = 0) then Some m'
  else match fuel with
       | O => None
       | S fuel' => strcpy fuel' (s + 1) (t + 1) m'
       end.

Fixpoint strcmp (fuel : nat) (p q : Z) (m : mem) : option Z :=
  if decide (m p ≠ 0 ∧ m p = m q) then
    match fuel with
    | O => None
    | S fuel' => strcmp fuel' (p + 1) (q + 1) m
    end
  else Some (m p - m q).

Definition memset (dst c n : Z) (m : mem) : mem := stosb (Z.to_nat n) dst c m.

(** The address of the first [c] in the string; 0 when there is none. *)
Fixpoint strchr (fuel : nat) (s c : Z) (m : mem) : option Z :=
  if decide (m s = 0) then Some 0
  else if decide (m s = c) then Some s
  else match fuel with
       | O => None
       | S fuel' => strchr fuel' (s + 1) c m
       end.

Fixpoint atoi_from (fuel : nat) (s n : Z) (m : mem) : option Z :=
  if decide (48 <= m s ∧ m s <= 57) then
    match fuel with
    | O => None
    | S fuel' => atoi_from fuel' (s + 1) (s32 (s32 (s32 (n * 10) + m s) - 48)) m
    end
  else Some n.

Definition atoi (fuel : nat) (s : Z) (m : mem) : option Z := atoi_from fuel s 0 m.

Definition memmove (vdst vsrc n : Z) (m : mem) : mem := copy_up (Z.to_nat n) vdst vsrc m.

End Ulib.

(** ** Specifications *)

(** [n] bytes from [d] on replaced by [f]. *)
Definition filled (m : mem) (d n : Z) (f : Z → Z) (m' : mem) : Prop :=
  ∀ a, m' a = if decide (d <= a < d + n) then f a else m a.

Lemma insert_mem (m : mem) a v b : <[a := v]> m b = if decide (a = b) then v else m b.
Proof.
  case_decide; [subst; apply fn_lookup_insert|by apply fn_lookup_insert_ne].
Qed.

Ltac mem_solve := repeat (rewrite insert_mem || case_decide); try lia; try done; try (f_equal; lia).

Lemma stosb_filled n d c m : filled m d (Z.of_nat n) (λ _, u8 c) (stosb n d c m).
Proof.
  revert d m. induction n as [|n IH]; intros d m a; simpl; [by rewrite decide_False by lia|].
  rewrite IH. mem_solve.
Qed.

Lemma store32_filled a w m :
  filled m a 4 (λ b, u8 (Z.shiftr w (8 * (b - a)))) (store32 a w m).
Proof.
  intros b. unfold store32. repeat rewrite insert_mem.
  destruct (decide (a <= b < a + 4)) as [Hb|Hb].
  - assert (b = a ∨ b = a + 1 ∨ b = a + 2 ∨ b = a + 3) as [-> | [-> | [-> | ->]]] by lia;
      repeat case_decide; try lia; f_equal; f_equal; try lia.
    by rewrite Z.sub_diag.
  - repeat case_decide; try lia; done.
Qed.

Lemma stosl_filled n d w v m :
  (∀ i, 0 <= i < 4 → u8 (Z.shiftr w (8 * i)) = v) →
  filled m d (4 * Z.of_nat n) (λ _, v) (stosl n d w m).
Proof.
  intros Hw. revert d m. induction n as [|n IH]; intros d m a; [simpl; by rewrite decide_False by lia|].
  cbn [stosl]. rewrite IH, store32_filled.
  repeat case_decide; try lia; try done. apply Hw. lia.
Qed.

(** The four bytes of [(c<<24)|(c<<16)|(c<<8)|c]. *)
Lemma word_le_bytes c i :
  0 <= i < 4 →
  let b := Z.land c 0xFF in
  u8 (Z.shiftr (Z.lor (Z.lor (Z.lor (s32 (Z.shiftl b 24)) (Z.shiftl b 16)) (Z.shiftl b 8)) b)
        (8 * i)) = u8 c.
Proof.
  intros Hi b. assert (0 <= b < 2 ^ 8) as Hb.
  { unfold b. change 0xFF with (Z.ones 8). rewrite Z.land_ones by lia. apply Z.mod_pos_bound. lia. }
  assert (u8 c = b) as ->.
  { unfold b, u8. change 0xFF with (Z.ones 8). by rewrite Z.land_ones by lia. }
  unfold u8. rewrite <-Z.land_ones by lia.
  assert (∀ n, 0 <= n < 32 → Z.testbit (s32 (Z.shiftl b 24)) n = Z.testbit (Z.shiftl b 24) n) as Hs.
  { intros n Hn. rewrite <-(Z.mod_pow2_bits_low (s32 (Z.shiftl b 24)) 32 n) by lia.
    change (s32 (Z.shiftl b 24) mod 2 ^ 32) with (u32 (s32 (Z.shiftl b 24))).
    rewrite u32_s32. unfold u32. by rewrite Z.mod_pow2_bits_low by lia. }
  assert (∀ n, n < 0 ∨ 8 <= n → Z.testbit b n = false) as Hout.
  { intros n [Hn|Hn]; [by apply Z.testbit_neg_r|].
    apply Z.bits_above_log2; [lia|]. destruct (decide (b = 0)) as [->|]; [simpl; lia|].
    assert (Z.log2 b < 8) by (apply Z.log2_lt_pow2; lia). lia. }
  apply Z.bits_inj'. intros n Hn. rewrite Z.land_spec, Z.shiftr_spec by done.
  destruct (decide (n < 8)) as [Hn8|Hn8].
  - rewrite Z.ones_spec_low, andb_true_r by lia.
    rewrite !Z.lor_spec, Hs, !Z.shiftl_spec by lia.
    destruct (decide (i = 0)) as [->|]; [|destruct (decide (i = 1)) as [->|];
      [|destruct (decide (i = 2)) as [->|]; [|assert (i = 3) as -> by lia]]];
      rewrite ?(Hout (n + _ - 24)), ?(Hout (n + _ - 16)), ?(Hout (n + _ - 8)), ?(Hout (n + _)) by lia;
      rewrite ?orb_false_r, ?orb_false_l; f_equal; lia.
  - rewrite Z.ones_spec_high, andb_false_r by lia. symmetry. apply Hout. lia.
Qed.

Lemma copy_up_filled n d s m :
  d <= s ∨ s + Z.of_nat n <= d →
  filled m d (Z.of_nat n) (λ a, m (a - d + s)) (copy_up n d s m).
Proof.
  revert d s m. induction n as [|n IH]; intros d s m Hd a; simpl; [by rewrite decide_False by lia|].
  rewrite IH by lia. mem_solve.
Qed.

Lemma copy_down_filled n d s m :
  s <= d →
  filled m (d - Z.of_nat n) (Z.of_nat n) (λ a, m (a - d + s)) (copy_down n d s m).
Proof.
  revert d s m. induction n as [|n IH]; intros d s m Hd a; simpl; [by rewrite decide_False by lia|].
  rewrite IH by lia. mem_solve.
Qed.

Fixpoint cstr (m : mem) (s : Z) (l : list Z) : Prop :=
  match l with
  | [] => m s = 0
  | c :: l' => m s = c ∧ c ≠ 0 ∧ cstr m (s + 1) l'
  end.

Lemma cstr_ext m m' s l :
  (∀ a, s <= a <= s + Z.of_nat (length l) → m' a = m a) → cstr m s l → cstr m' s l.
Proof.
  revert s. induction l as [|c l IH]; intros s He; cbn [cstr length] in *.
  - rewrite He by lia. done.
  - rewrite He by lia. intros (? & ? & ?). repeat split; [done..|].
    apply IH; [|done]. intros a Ha. apply He. lia.
Qed.

Lemma strlen_spec fuel s l m :
  cstr m s l → (length l <= fuel)%nat → Z.of_nat (length l) < 2 ^ 31 →
  strlen fuel s m = Some (Z.of_nat (length l)).
Proof.
  unfold strlen. intros Hs Hf Hb.
  assert (∀ n, 0 <= n → n + Z.of_nat (length l) < 2 ^ 31 → cstr m (s + n) l →
    strlen_from fuel s n m = Some (n + Z.of_nat (length l))) as Hgen.
  { clear Hs Hb. revert fuel Hf. induction l as [|c l IH]; intros fuel Hf n Hn Hb Hs; simpl in *.
    - destruct fuel; simpl; rewrite decide_True by done; f_equal; lia.
    - destruct Hs as (Hc & Hne & Hs). destruct fuel as [|fuel]; [lia|]. simpl.
      rewrite decide_False by congruence. rewrite s32_id by lia.
      rewrite IH; [f_equal; lia|lia..|]. by rewrite Z.add_assoc. }
  rewrite (Hgen 0) by (rewrite ?Z.add_0_r; done || lia). done.
Qed.

(** What the loop of [safestrcpy] leaves at [s]: the string at [t] cut to the
    count, and nothing but the buffer changed. *)
Lemma safestr_loop_spec n s t l m :
  cstr m t l → t + Z.of_nat (length l) < s ∨ s + Z.of_nat n < t →
  cstr (safestr_loop n s t m) s (take n l) ∧
  (∀ a, ¬ (s <= a <= s + Z.of_nat n) → safestr_loop n s t m a = m a).
Proof.
  revert s t l m. induction n as [|n IH]; intros s t l m Ht Hd.
  { cbn [safestr_loop take]. split; [|intros a Ha]; simpl; mem_solve. }
  destruct l as [|c l]; cbn [cstr take length safestr_loop] in *.
  - rewrite decide_True by done. split; [|intros a Ha]; mem_solve.
  - destruct Ht as (Hc & Hne & Ht). rewrite decide_False by congruence.
    destruct (IH (s + 1) (t + 1) l (<[s := m t]> m)) as [IH1 IH2].
    + eapply cstr_ext; [|done]. intros a Ha. mem_solve.
    + lia.
    + repeat split; [|done|done|].
      * rewrite IH2 by lia. mem_solve.
      * intros a Ha. rewrite IH2 by lia. mem_solve.
Qed.

Lemma strncmp_diff n p q l1 l2 m :
  cstr m p l1 → cstr m q l2 → strncmp n p q m = 0 ↔ take n l1 = take n l2.
Proof.
  revert p q l1 l2. induction n as [|n IH]; intros p q l1 l2 Hp Hq; [done|].
  destruct l1 as [|c l1], l2 as [|d l2]; cbn [cstr strncmp take] in *.
  - rewrite decide_False by naive_solver. split; [done|lia].
  - destruct Hq as (Hd & Hne & Hq). rewrite decide_False by (intros [? ?]; congruence). split; [lia|done].
  - destruct Hp as (Hc & Hne & Hp). rewrite decide_False by (intros [? ?]; congruence). split; [lia|done].
  - destruct Hp as (Hc & Hne & Hp), Hq as (Hd & Hne' & Hq). case_decide as He.
    + rewrite IH by done. naive_solver congruence.
    + split; [lia|]. intros [= ? ?]. naive_solver congruence.
Qed.

Lemma strcpy_spec fuel s t l m :
  cstr m t l → (length l <= fuel)%nat →
  t + Z.of_nat (length l) < s ∨ s + Z.of_nat (length l) < t →
  ∃ m', Ulib.strcpy fuel s t m = Some m' ∧ cstr m' s l ∧
    ∀ a, ¬ (s <= a <= s + Z.of_nat (length l)) → m' a = m a.
Proof.
  revert fuel s t m. induction l as [|c l IH]; intros fuel s t m Ht Hf Hd.
  - cbn [cstr length] in *. exists (<[s := m t]> m).
    destruct fuel; cbn [Ulib.strcpy]; rewrite decide_True by done;
      (split; [done|]); split; [|intros a Ha| |intros a Ha]; mem_solve.
  - destruct Ht as (Hc & Hne & Ht). destruct fuel as [|fuel]; cbn [length] in *; [lia|].
    cbn [Ulib.strcpy]. rewrite decide_False by congruence.
    destruct (IH fuel (s + 1) (t + 1) (<[s := m t]> m)) as (m' & H1 & H2 & H3); [|lia..|].
    + eapply cstr_ext; [|done]. intros a Ha. mem_solve.
    + exists m'. split; [done|]. cbn [cstr]. repeat split; [|done|done|].
      * rewrite H3 by lia. mem_solve.
      * intros a Ha. rewrite H3 by lia. mem_solve.
Qed.

Lemma strcmp_spec fuel p q l1 l2 m :
  cstr m p l1 → cstr m q l2 → (length l1 <= fuel)%nat →
  ∃ r, Ulib.strcmp fuel p q m = Some r ∧ (r = 0 ↔ l1 = l2).
Proof.
  revert fuel p q l2. induction l1 as [|c l1 IH]; intros fuel p q l2 Hp Hq Hf.
  - cbn [cstr] in Hp. exists (m p - m q).
    destruct fuel; cbn [Ulib.strcmp]; (rewrite decide_False by naive_solver); (split; [done|]);
      destruct l2 as [|d l2]; cbn [cstr] in Hq; naive_solver lia.
  - destruct Hp as (Hc & Hne & Hp). destruct fuel as [|fuel]; cbn [length] in *; [lia|].
    cbn [Ulib.strcmp]. destruct l2 as [|d l2]; cbn [cstr] in Hq.
    + rewrite decide_False by (intros [? ?]; congruence). eexists. split; [done|]. split; [lia|done].
    + destruct Hq as (Hd & Hne' & Hq). case_decide as He.
      * destruct (IH fuel (p + 1) (q + 1) l2) as (r & Hr & Hr0); [done|done|lia|].
        exists r. split; [done|]. rewrite Hr0. naive_solver congruence.
      * eexists. split; [done|]. split; [lia|]. intros [= ? ?]. naive_solver congruence.
Qed.

(** ** Theorems *)

Lemma memset_filled dst c n m : 0 <= n → filled m dst n (λ _, u8 c) (memset dst c n m).
Proof.
  intros Hn. unfold memset. case_decide as Hd.
  - destruct Hd as [_ Hd]. intros a.
    rewrite (stosl_filled _ _ _ (u8 c)) by (intros i Hi; by apply word_le_bytes).
    rewrite Z2Nat.id by (apply Z.div_pos; lia).
    pose proof (Z.div_mod n 4 ltac:(lia)) as Hdm. rewrite Hd, Z.add_0_r in Hdm. by rewrite <-Hdm.
  - intros a. rewrite stosb_filled, Z2Nat.id by done. done.
Qed.

(** [memset] fills exactly the [n] bytes from [dst] with the low byte of
    [c], whether it takes the word path (aligned address and length) or the byte
    path; so the kernel's routine and the byte loop of the user library write
    the same memory. *)
Theorem memset_spec dst c n m :
  0 <= n →
  filled m dst n (λ _, u8 c) (memset dst c n m) ∧
  (∀ a, memset dst c n m a = Ulib.memset dst c n m a).
Proof.
  intros Hn. split; [by apply memset_filled|]. intros a. rewrite (memset_filled _ _ _ _ Hn).
  unfold Ulib.memset. by rewrite stosb_filled, Z2Nat.id.
Qed.

Lemma memset_spec_witness :
  memset 8 0x1ab 4 (λ _, 7) 11 = 0xab ∧ memset 8 0x1ab 4 (λ _, 7) 12 = 7.
Proof.
  destruct (memset_spec 8 0x1ab 4 (λ _, 7)) as [H _]; [lia|]. split; [rewrite (H 11)|rewrite (H 12)]; done.
Defined.

(** The kernel's [memmove] (and [memcpy]) copies [n] bytes correctly
    however the two regions overlap: every byte of the destination gets the byte
    the source region held before the call, and no other byte changes. *)
Theorem memmove_spec dst src n m :
  0 <= n →
  filled m dst n (λ a, m (a - dst + src)) (memmove dst src n m) ∧
  filled m dst n (λ a, m (a - dst + src)) (memcpy dst src n m).
Proof.
  intros Hn. assert (filled m dst n (λ a, m (a - dst + src)) (memmove dst src n m)); [|done].
  intros a. unfold memmove. case_decide as Hd.
  - rewrite copy_down_filled by lia. rewrite Z2Nat.id by done.
    replace (dst + n - n) with dst by lia. case_decide; [f_equal; lia|done].
  - rewrite copy_up_filled by (rewrite Z2Nat.id; lia). by rewrite Z2Nat.id.
Qed.

(** The bytes [0 1 2 3 ..] shifted up by one over themselves. *)
Lemma memmove_spec_witness :
  memmove 1 0 3 (λ a, a) 3 = 2 ∧ memmove 1 0 3 (λ a, a) 4 = 4.
Proof.
  destruct (memmove_spec 1 0 3 (λ a, a)) as [H _]; [lia|]. split; [rewrite (H 3)|rewrite (H 4)]; done.
Defined.

(** The user library's [memmove] is a forward copy: it moves the bytes
    correctly when the destination does not start inside the source region, and
    otherwise it does not - copying three bytes one address up smears the first
    byte over the region, where the kernel's [memmove] does not. *)
Theorem ulib_memmove_spec :
  (∀ dst src n m, 0 <= n → dst <= src ∨ src + n <= dst →
     filled m dst n (λ a, m (a - dst + src)) (Ulib.memmove dst src n m)) ∧
  Ulib.memmove 1 0 3 (λ a, a) 3 = 0 ∧ memmove 1 0 3 (λ a, a) 3 = 2.
Proof.
  split; [|done]. intros dst src n m Hn Hd a. unfold Ulib.memmove.
  rewrite copy_up_filled by (rewrite Z2Nat.id; lia). by rewrite Z2Nat.id.
Qed.

(** [safestrcpy] always leaves a terminated string: from a source string
    [l] in a separate buffer it leaves [l] cut to [n - 1] characters, and it
    writes nothing outside the [n] bytes of the destination. *)
Theorem safestrcpy_spec s t n l m :
  0 < n → cstr m t l → t + Z.of_nat (length l) < s ∨ s + n <= t →
  cstr (safestrcpy s t n m) s (take (Z.to_nat (n - 1)) l) ∧
  (∀ a, ¬ (s <= a < s + n) → safestrcpy s t n m a = m a).
Proof.
  intros Hn Ht Hd. unfold safestrcpy. rewrite decide_False by lia.
  destruct (safestr_loop_spec (Z.to_nat (n - 1)) s t l m) as [H1 H2];
    [done|rewrite Z2Nat.id; lia|].
  split; [done|]. intros a Ha. apply H2. rewrite Z2Nat.id; lia.
Qed.

(** A name of 4 characters into a buffer of 3. *)
Lemma safestrcpy_spec_witness :
  let m := <[100 := 105]> (<[101 := 110]> (<[102 := 105]> (<[103 := 116]> (λ _, 0)))) in
  cstr (safestrcpy 200 100 3 m) 200 [105; 110].
Proof.
  intros m. apply (safestrcpy_spec 200 100 3 [105; 110; 105; 116] m).
  - lia.
  - by vm_compute.
  - simpl. lia.
Defined.

(** [strncmp] compares strings up to [n] characters: it returns 0 exactly
    when the two strings agree on their first [n] characters, terminators
    included; on whole strings [strcmp] returns 0 exactly for equal ones. *)
Theorem string_compare_spec p q l1 l2 m :
  cstr m p l1 → cstr m q l2 →
  (∀ n, strncmp n p q m = 0 ↔ take n l1 = take n l2) ∧
  (∃ r, Ulib.strcmp (length l1) p q m = Some r ∧ (r = 0 ↔ l1 = l2)).
Proof.
  intros Hp Hq. split; [intros n; by apply strncmp_diff|].
  by apply (strcmp_spec _ _ _ _ _ _ Hp Hq).
Qed.

Lemma string_compare_spec_witness :
  let m := <[100 := 97]> (<[101 := 98]> (<[200 := 97]> (λ _, 0))) in
  strncmp 1 100 200 m = 0 ∧ strncmp 2 100 200 m ≠ 0.
Proof.
  intros m. destruct (string_compare_spec 100 200 [97; 98] [97] m) as [H _]; [by vm_compute..|].
  split; rewrite H; done.
Defined.

(** ** Strings and lists *)

Lemma cstr_head m s l : cstr m s l → m s = default 0 (head l).
Proof. destruct l; cbn; naive_solver. Qed.

Lemma strchr_spec fuel s c l m :
  cstr m s l → (length l <= fuel)%nat →
  (∀ l1 l2, l = l1 ++ c :: l2 → c ∉ l1 → Ulib.strchr fuel s c m = Some (s + Z.of_nat (length l1))) ∧
  (c ∉ l → Ulib.strchr fuel s c m = Some 0).
Proof.
  revert s l. induction fuel as [|fuel IH]; intros s l Hl Hf; destruct l as [|d l]; cbn [cstr] in Hl; try (simpl in Hf; lia);
    cbn [Ulib.strchr]; try (rewrite decide_True by done; split; [intros [] ? ?; done|done]).
  destruct Hl as (Hd & H0 & Hl). rewrite Hd, decide_False by done. destruct (IH (s + 1) l Hl) as [H1 H2]; [simpl in Hf; lia|].
  split.
  - intros [|? l1] l2 ? Hc; simplify_eq/=; [rewrite decide_True by done; f_equal; lia|].
    apply not_elem_of_cons in Hc as [Hc1 Hc2]. rewrite decide_False by congruence.
    rewrite (H1 l1 l2) by done. f_equal. lia.
  - intros [Hc1 Hc2]%not_elem_of_cons. rewrite decide_False by congruence. auto.
Qed.

Lemma cstr_app_inv m s l1 l2 : cstr m s (l1 ++ l2) → cstr m (s + Z.of_nat (length l1)) l2.
Proof.
  revert s. induction l1 as [|c l1 IH]; intros s; simpl; [by rewrite Z.add_0_r|].
  intros (_ & _ & H). apply IH in H. eapply (eq_ind _ (λ a, cstr m a l2) H). lia.
Qed.

Lemma cstr_lookup m s l i : cstr m s l → (i < length l)%nat → m (s + Z.of_nat i) = l !!! i ∧ l !!! i ≠ 0.
Proof.
  revert s i. induction l as [|c l IH]; intros s i; simpl; [lia|]. intros (Hc & H0 & Hl) Hi.
  destruct i as [|i]; [by rewrite Z.add_0_r|]. destruct (IH (s + 1) i Hl ltac:(lia)) as [H1 H2].
  change ((c :: l) !!! S i) with (l !!! i). split; [|done]. rewrite <-H1. f_equal. lia.
Qed.

Lemma cstr_intro m s l :
  (∀ i, (i < length l)%nat → m (s + Z.of_nat i) = l !!! i) → 0 ∉ l → m (s + Z.of_nat (length l)) = 0 → cstr m s l.
Proof.
  revert s. induction l as [|c l IH]; intros s Hl H0 He; simpl in *; [by rewrite Z.add_0_r in He|].
  apply not_elem_of_cons in H0 as [Hc H0]. split_and!; [|done|apply IH; [|done|rewrite <-He; f_equal; lia]].
  - specialize (Hl 0%nat ltac:(lia)). by rewrite Z.add_0_r in Hl.
  - intros i Hi. specialize (Hl (S i) ltac:(lia)). simpl in Hl. rewrite <-Hl. f_equal. lia.
Qed.

(** ** Arrays of a struct as memory

    [strcpy_array n s t] is [safestrcpy(s, t, n)] on two arrays that are
    separate objects. *)

Definition array_at (a : Z) (l : list Z) (m : mem) : mem := λ b,
  if decide (a <= b < a + Z.of_nat (length l)) then l !!! Z.to_nat (b - a) else m b.

Definition read_array (a : Z) (n : nat) (m : mem) : list Z :=
  (λ i, m (a + Z.of_nat i)) <$> seq 0 n.

Definition strcpy_array (n : Z) (s t : list Z) : list Z :=
  let a := Z.of_nat (length s) in
  read_array 0 (length s) (safestrcpy 0 a n (array_at a t (array_at 0 s (λ _, 0)))).
