(* ===== verification/Proc.v ===== *)
(** * Processes and the scheduler (proc.c)

    Every routine of proc.c but the run queue and the lottery, which have
    files of their own.  The routines run over the kernel core; what they call
    in other parts of the kernel is the interface [Services].  [swtch] is the
    switch to the other side: for a process, everything that happens until it
    is switched to again; for the scheduler, everything the chosen process does
    until it switches back. *)

From stdpp Require Import base list gmap strings.
From Stdlib Require Import ZArith Lia.
From S2P Require Import Prelude KState Spinlock RRQueue Lottery CString.

(** What proc.c calls in kalloc.c, vm.c, file.c, fs.c and log.c, and the
    addresses of the assembly entry points. *)
Class Services (V : Type) := {
  svc_kalloc : M (core V) Z;
  svc_kfree : Z → M (core V) unit;
  svc_setupkvm : M (core V) Z;
  svc_inituvm : Z → M (core V) unit;
  svc_copyuvm : Z → Z → M (core V) Z;
  svc_freevm : Z → M (core V) unit;
  svc_allocuvm : Z → Z → Z → M (core V) Z;
  svc_deallocuvm : Z → Z → Z → M (core V) Z;
  svc_switchuvm : nat → M (core V) unit;
  svc_switchkvm : M (core V) unit;
  svc_filedup : nat → M (core V) nat;
  svc_fileclose : nat → M (core V) unit;
  svc_idup : option nat → M (core V) (option nat);
  svc_iput : option nat → M (core V) unit;
  svc_begin_op : M (core V) unit;
  svc_end_op : M (core V) unit;
  svc_namei_root : M (core V) (option nat);
  svc_initlog : M (core V) unit;
  svc_trapret : Z;
  svc_forkret : Z
}.

Section proc.
Context {V : Type} {SV : Services V}.
Abbreviation K := (core V).
Implicit Types (k : K).

Context (flag : schedflag) (swtch : M K unit).

(** [proc], which must not be null where it is dereferenced. *)
Definition myproc : M K nat := p ← gets curproc; deref p.

(** The first slot that satisfies a test, in the order of the table. *)
Definition first_slot (P : proc → bool) k : option nat :=
  head (filter (λ i, P (proc_at k i) = true) (slots k)).

Definition chan_of (p : option nat) : chan_t :=
  match p with Some i => ChProc i | None => ChNull end.

Definition pinit : M K unit := initlock PtableLock.

(** ** Creating processes *)

Definition ctime_now (p : nat) : M K unit :=
  locked TicksLock (t ← gets k_ticks; assign p (set_p_ctime t)).

Definition SIZEOF_TRAPFRAME : Z := 76.
Definition SIZEOF_CONTEXT : Z := 20.

(** The stack of a new process: trap frame, return address, context. *)
Definition alloc_stack (p : nat) (kstack : Z) : M K unit :=
  let sp := kstack + KSTACKSIZE in
  let sp := sp - SIZEOF_TRAPFRAME in
  assign p (set_p_tf sp) ;;
  let sp := sp - 4 in
  modify (λ k, set_k_wordmem (<[sp := svc_trapret]> (k_wordmem k)) k) ;;
  let sp := sp - SIZEOF_CONTEXT in
  assign p (set_p_context sp) ;;
  modify (λ k, set_k_ctxmem (<[sp := Context 0 0 0 0 0]> (k_ctxmem k)) k) ;;
  modify (λ k, set_k_ctxmem (alter (set_cx_eip svc_forkret) sp (k_ctxmem k)) k).

(** The part under [ptable.lock]: a free slot is marked and numbered. *)
Definition alloc_slot : M K (option nat) :=
  found ← gets (first_slot (λ p, bool_decide (p_state p = UNUSED)));
  match found with
  | None => mret None
  | Some p =>
      assign p (set_p_state EMBRYO) ;;
      pid ← gets k_nextpid;
      assign p (set_p_pid pid) ;;
      modify (set_k_nextpid (s32 (pid + 1))) ;;
      ctime_now p ;;
      mret (Some p)
  end.

Definition allocproc : M K (option nat) :=
  found ← locked PtableLock alloc_slot;
  match found with
  | None => mret None
  | Some p =>
      kstack ← svc_kalloc;
      assign p (set_p_kstack kstack) ;;
      if decide (kstack = 0) then
        assign p (set_p_state UNUSED) ;;
        mret None
      else
        alloc_stack p kstack ;;
        mret (Some p)
  end.

Definition upd_tf (a : Z) (f : trapframe → trapframe) : M K unit :=
  modify (λ k, set_k_tfmem (alter f a (k_tfmem k)) k).

(** ["initcode"] with its terminating zero. *)
Definition initcode_name : list Z := [105; 110; 105; 116; 99; 111; 100; 101; 0].

Definition trapframe0 : trapframe :=
  TrapFrame 0 0 0 0 0 0 0 0 0 0 0 0 0 0 0 0 0 0 0 0 0 0 0 0 0.

Definition push_if_queued (p : nat) : M K unit :=
  when (uses_queue flag) (pushProcToRRqueue p).

Definition userinit : M K unit :=
  r ← allocproc;
  modify (set_k_initproc r) ;;
  p ← deref r;
  pgdir ← svc_setupkvm;
  assign p (set_p_pgdir pgdir) ;;
  if decide (pgdir = 0) then panic "userinit: out of memory?" else
  svc_inituvm pgdir ;;
  assign p (set_p_sz PGSIZE) ;;
  tf ← field p p_tf;
  modify (λ k, set_k_tfmem (<[tf := trapframe0]> (k_tfmem k)) k) ;;
  upd_tf tf (set_tf_cs (Z.lor (Z.shiftl SEG_UCODE 3) DPL_USER)) ;;
  upd_tf tf (set_tf_ds (Z.lor (Z.shiftl SEG_UDATA 3) DPL_USER)) ;;
  upd_tf tf (λ t, set_tf_es (tf_ds t) t) ;;
  upd_tf tf (λ t, set_tf_ss (tf_ds t) t) ;;
  upd_tf tf (set_tf_eflags FL_IF) ;;
  upd_tf tf (set_tf_esp PGSIZE) ;;
  upd_tf tf (set_tf_eip 0) ;;
  assign p (λ q, set_p_name (strcpy_array 16 (p_name q) initcode_name) q) ;;
  cwd ← svc_namei_root;
  assign p (set_p_cwd cwd) ;;
  assign p (set_p_state RUNNABLE) ;;
  assign p (set_p_priority 0) ;;
  push_if_queued p.

Definition growproc (n : Z) : M K Z :=
  p ← myproc;
  sz ← field p p_sz;
  pgdir ← field p p_pgdir;
  sz' ← (if decide (n > 0) then svc_allocuvm pgdir sz (u32 (sz + n))
         else if decide (n < 0) then svc_deallocuvm pgdir sz (u32 (sz + n))
         else mret sz);
  if decide (n ≠ 0 ∧ sz' = 0) then mret (-1) else
  assign p (set_p_sz sz') ;;
  svc_switchuvm p ;;
  mret 0.

(** [if(proc->ofile[i]) np->ofile[i] = filedup(proc->ofile[i]);] *)
Definition dup_file (cur np fd : nat) : M K unit :=
  f ← field cur (λ p, p_ofile p !!! fd);
  match f with
  | None => mret tt
  | Some a => b ← svc_filedup a; assign np (λ p, set_p_ofile (<[fd := Some b]> (p_ofile p)) p)
  end.

(** The copy of the parent's memory, registers, files and name. *)
Definition fork_copy (cur np : nat) (pgdir : Z) : M K unit :=
  assign np (set_p_pgdir pgdir) ;;
  sz ← field cur p_sz;
  assign np (set_p_sz sz) ;;
  assign np (set_p_parent (Some cur)) ;;
  tf ← field cur p_tf;
  ntf ← field np p_tf;
  frame ← gets (λ k, k_tfmem k !! tf);
  match frame with
  | None => fault "fork: no trap frame"
  | Some t =>
      modify (λ k, set_k_tfmem (<[ntf := t]> (k_tfmem k)) k) ;;
      upd_tf ntf (set_tf_eax 0) ;;
      for_each (dup_file cur np) (seq 0 NOFILE) ;;
      cwd ← field cur p_cwd;
      d ← svc_idup cwd;
      assign np (set_p_cwd d) ;;
      name ← field cur p_name;
      assign np (λ p, set_p_name (strcpy_array 16 (p_name p) name) p)
  end.

Definition fork_times (cur np : nat) : M K unit :=
  assign np (set_p_runQuanta 0) ;;
  assign np (set_p_rutime 0) ;;
  ctime_now np ;;
  assign np (set_p_ttime 0) ;;
  assign np (set_p_stime 0) ;;
  assign np (set_p_retime 0) ;;
  prio ← field cur p_priority;
  assign np (set_p_priority prio).

Definition fork_ready (np : nat) : M K unit :=
  assign np (set_p_state RUNNABLE) ;;
  push_if_queued np.

Definition fork : M K Z :=
  r ← allocproc;
  match r with
  | None => mret (-1)
  | Some np =>
      cur ← myproc;
      ppgdir ← field cur p_pgdir;
      psz ← field cur p_sz;
      pgdir ← svc_copyuvm ppgdir psz;
      if decide (pgdir = 0) then
        assign np (set_p_pgdir 0) ;;
        ks ← field np p_kstack;
        svc_kfree ks ;;
        assign np (set_p_kstack 0) ;;
        assign np (set_p_state UNUSED) ;;
        mret (-1)
      else
        fork_copy cur np pgdir ;;
        pid ← field np p_pid;
        fork_times cur np ;;
        locked PtableLock (fork_ready np) ;;
        mret pid
  end.

(** ** Switching *)

Definition sched : M K unit :=
  h ← gets (holding PtableLock);
  if negb h then panic "sched ptable.lock" else
  ncli ← gets (λ k, c_ncli (this_cpu k));
  if decide (ncli ≠ 1) then panic "sched locks" else
  p ← myproc;
  st ← field p p_state;
  if decide (st = RUNNING) then panic "sched running" else
  eflags ← readeflags;
  if decide (Z.land eflags FL_IF ≠ 0) then panic "sched interruptible" else
  intena ← gets (λ k, c_intena (this_cpu k));
  swtch ;;
  modify (upd_cpu (set_c_intena intena)).

Definition yield_ready : M K unit :=
  p ← myproc;
  assign p (set_p_state RUNNABLE) ;;
  push_if_queued p.

Definition yield : M K unit :=
  acquire PtableLock ;;
  yield_ready ;;
  sched ;;
  release PtableLock.

Definition forkret : M K unit :=
  release PtableLock ;;
  first ← gets k_forkret_first;
  when (negb (bool_decide (first = 0)))
    (modify (set_k_forkret_first 0) ;; svc_initlog).

(** [lk] is [None] for the null pointer. *)
Definition sleep (chan : chan_t) (lk : option lockid) : M K unit :=
  cur ← gets curproc;
  match cur with
  | None => panic "sleep"
  | Some _ =>
      match lk with
      | None => panic "sleep without lk"
      | Some lk =>
          when (bool_decide (lk ≠ PtableLock)) (acquire PtableLock ;; release lk) ;;
          p ← myproc;
          assign p (set_p_chan chan) ;;
          assign p (set_p_state SLEEPING) ;;
          sched ;;
          p ← myproc;
          assign p (set_p_chan ChNull) ;;
          when (bool_decide (lk ≠ PtableLock)) (release PtableLock ;; acquire lk)
      end
  end.

(** ** Waking and killing *)

Definition wake_slot (chan : chan_t) (i : nat) : M K unit :=
  st ← field i p_state;
  ch ← field i p_chan;
  when (bool_decide (st = SLEEPING) && bool_decide (ch = chan))
    (assign i (set_p_state RUNNABLE) ;; push_if_queued i).

Definition wakeup1 (chan : chan_t) : M K unit :=
  l ← gets slots;
  for_each (wake_slot chan) l.

Definition wakeup (chan : chan_t) : M K unit := locked PtableLock (wakeup1 chan).

Definition has_pid (pid : Z) (p : proc) : bool := bool_decide (p_pid p = pid).

Definition kill (pid : Z) : M K Z :=
  locked PtableLock (
    found ← gets (first_slot (has_pid pid));
    match found with
    | None => mret (-1)
    | Some i =>
        assign i (set_p_killed 1) ;;
        st ← field i p_state;
        when (bool_decide (st = SLEEPING))
          (assign i (set_p_state RUNNABLE) ;; push_if_queued i) ;;
        mret 0
    end).

(** ** Exiting and waiting *)

Definition close_file (cur fd : nat) : M K unit :=
  f ← field cur (λ p, p_ofile p !!! fd);
  match f with
  | None => mret tt
  | Some a => svc_fileclose a ;; assign cur (λ p, set_p_ofile (<[fd := None]> (p_ofile p)) p)
  end.

Definition exit_files (cur : nat) : M K unit :=
  for_each (close_file cur) (seq 0 NOFILE) ;;
  svc_begin_op ;;
  cwd ← field cur p_cwd;
  svc_iput cwd ;;
  svc_end_op ;;
  assign cur (set_p_cwd None).

(** Pass abandoned children to init. *)
Definition adopt (cur i : nat) : M K unit :=
  parent ← field i p_parent;
  if decide (parent = Some cur) then
    ip ← gets k_initproc;
    assign i (set_p_parent ip) ;;
    st ← field i p_state;
    when (bool_decide (st = ZOMBIE)) (wakeup1 (chan_of ip))
  else mret tt.

Definition exit_zombie (cur : nat) : M K unit :=
  parent ← field cur p_parent;
  wakeup1 (chan_of parent) ;;
  l ← gets slots;
  for_each (adopt cur) l ;;
  assign cur (set_p_state ZOMBIE) ;;
  locked TicksLock (t ← gets k_ticks; assign cur (set_p_ttime t)).

Definition exit {A : Type} : M K A :=
  cur ← gets curproc;
  ip ← gets k_initproc;
  if decide (cur = ip) then panic "init exiting" else
  p ← deref cur;
  exit_files p ;;
  acquire PtableLock ;;
  exit_zombie p ;;
  sched ;;
  panic "zombie exit".

Definition is_child (cur : nat) (p : proc) : bool := bool_decide (p_parent p = Some cur).
Definition is_zombie_child (cur : nat) (p : proc) : bool :=
  is_child cur p && bool_decide (p_state p = ZOMBIE).

Definition reap (i : nat) : M K unit :=
  ks ← field i p_kstack;
  svc_kfree ks ;;
  assign i (set_p_kstack 0) ;;
  pgdir ← field i p_pgdir;
  svc_freevm pgdir ;;
  assign i (set_p_state UNUSED) ;;
  assign i (set_p_pid 0) ;;
  assign i (set_p_parent None) ;;
  assign i (λ p, set_p_name (<[0%nat := 0]> (p_name p)) p) ;;
  assign i (set_p_killed 0).

(** One pass of the loop of [wait] and [wait_stat]: a zombie child is handed to
    [found]; [Some r] is the value to return, [None] means sleep again. *)
Definition wait_pass (found : nat → M K unit) : M K (option Z) :=
  cur ← myproc;
  z ← gets (first_slot (is_zombie_child cur));
  match z with
  | Some i =>
      pid ← field i p_pid;
      found i ;;
      mret (Some pid)
  | None =>
      kids ← gets (first_slot (is_child cur));
      killed ← field cur p_killed;
      if decide (kids = None ∨ killed ≠ 0) then mret (Some (-1)) else mret None
  end.

Fixpoint wait_loop (fuel : nat) (found : nat → M K unit) : M K Z :=
  r ← wait_pass found;
  match r with
  | Some v => release PtableLock ;; mret v
  | None =>
      cur ← gets curproc;
      sleep (chan_of cur) (Some PtableLock) ;;
      match fuel with O => block | S fuel' => wait_loop fuel' found end
  end.

Definition wait (fuel : nat) : M K Z :=
  acquire PtableLock ;;
  wait_loop fuel (λ i, reap i ;; assign i (set_p_runQuanta 0) ;; assign i (set_p_rutime 0)).

(** [perfP] points into the caller's memory; [store_perf] is the store of the
    five fields through it. *)
Definition wait_stat (fuel : nat) (store_perf : perf → M K unit) : M K Z :=
  acquire PtableLock ;;
  wait_loop fuel (λ i,
    p ← gets (λ k, proc_at k i);
    store_perf (Perf (p_ctime p) (p_ttime p) (p_stime p) (p_retime p) (p_rutime p)) ;;
    reap i).

(** ** The scheduler *)

Definition set_proc (p : option nat) : M K unit := modify (upd_cpu (set_c_proc p)).

(** [switchuvm(p); p->state = RUNNING; swtch(..); switchkvm(); proc = 0;] *)
Definition run_process (p : nat) : M K unit :=
  svc_switchuvm p ;;
  assign p (set_p_state RUNNING) ;;
  swtch ;;
  svc_switchkvm ;;
  set_proc None.

Definition sched_default_slot (i : nat) : M K unit :=
  st ← field i p_state;
  if decide (st ≠ RUNNABLE) then mret tt else
  set_proc (Some i) ;;
  run_process i.

Definition sched_lottery : M K unit :=
  deliverTicketsToFIFOProcs flag ;;
  p ← pickProcess;
  match p with
  | None => mret tt
  | Some i =>
      set_proc (Some i) ;;
      locked RRLock (removeProcFromRRqueue i) ;;
      run_process i
  end.

(** One turn of the scheduler's endless loop. *)
Definition scheduler_turn : M K unit :=
  sti ;;
  acquire PtableLock ;;
  match flag with
  | DEFAULT => l ← gets slots; for_each sched_default_slot l
  | _ => sched_lottery
  end ;;
  release PtableLock.

(** [n] turns of the loop. *)
Fixpoint scheduler (n : nat) : M K unit :=
  match n with
  | O => mret tt
  | S n' => scheduler_turn ;; scheduler n'
  end.

(** ** Signals and statistics *)

Definition signal (signum handler : Z) : M K Z :=
  if decide (signum >= 32 ∨ signum < 0) then mret (-1) else
  cur ← myproc;
  old ← field cur (λ p, p_handlers p !!! Z.to_nat signum);
  assign cur (λ p, set_p_handlers (<[Z.to_nat signum := handler]> (p_handlers p)) p) ;;
  mret (s32 old).

Definition sigsend (pid signum : Z) : M K Z :=
  if decide (signum >= 31 ∨ signum < 0) then mret (-1) else
  let signumBits := u32 (s32 (Z.shiftl 1 signum)) in
  locked PtableLock (
    found ← gets (first_slot (has_pid pid));
    match found with
    | None => mret (-1)
    | Some i =>
        assign i (λ p, set_p_pending (s32 (Z.lor (u32 (p_pending p)) signumBits)) p) ;;
        st ← field i p_state;
        when (bool_decide (st = SLEEPING)) (assign i (set_p_state RUNNABLE)) ;;
        mret 0
    end).

Definition tick_proc (p : proc) : proc :=
  match p_state p with
  | RUNNING => set_p_rutime (s32 (p_rutime p + 1)) p
  | RUNNABLE => set_p_retime (s32 (p_retime p + 1)) p
  | SLEEPING => set_p_stime (s32 (p_stime p + 1)) p
  | _ => p
  end.

Definition advanceprocstats : M K unit :=
  l ← gets slots;
  for_each (λ i, assign i tick_proc) l.

(** ** The listing *)

Definition state_name (s : procstate) : string :=
  match s with
  | UNUSED => "unused" | EMBRYO => "embryo" | SLEEPING => "sleep "
  | RUNNABLE => "runble" | RUNNING => "run   " | ZOMBIE => "zombie"
  end.

(** A line of [procdump]: pid, state, name and, for a sleeping process, the
    return addresses of its stack up to the first zero; [word] reads memory. *)
Definition dump_line (word : Z → Z) k (p : proc) : Z * string * list Z * list Z :=
  (p_pid p, state_name (p_state p), until0 (p_name p),
   match p_state p, k_ctxmem k !! p_context p with
   | SLEEPING, Some c => until0 (getcallerpcs word (cx_ebp c + 8))
   | _, _ => []
   end).

Definition procdump (word : Z → Z) k : list (Z * string * list Z * list Z) :=
  dump_line word k <$> filter (λ p, p_state p ≠ UNUSED) (k_ptable k).
End proc.
