(* ===== verification/ProcForms.v ===== *)
(** * Closed forms of the process routines

    For each routine of Proc.v the state function it computes: what the
    routine does to the process table and the run queue, with the lock
    operations factored out.  [inside k] is the condition under which the
    helpers run: the caller holds [ptable.lock] and the inner locks are free. *)

From stdpp Require Import base list gmap strings.
From Stdlib Require Import ZArith Lia.
From S2P Require Import Prelude KState Spinlock RRQueue Lottery CString Proc.

Section forms.
Context {V : Type}.
Abbreviation K := (core V).
Implicit Types (k : K) (flag : schedflag).

(** The processor can take one more lock, the inner locks are free. *)
Record inner_ok k : Prop := {
  io_nest : nest_ok 1 k;
  io_rr : lock_idle RRLock k;
  io_ticks : lock_idle TicksLock k
}.

Record inside k : Prop := {
  in_ok : inner_ok k;
  in_ncli : 0 < c_ncli (this_cpu k)
}.

(** Outside every critical section. *)
Record outside k : Prop := {
  ou_nest : nest_ok 2 k;
  ou_ncli : c_ncli (this_cpu k) = 0;
  ou_pt : lock_idle PtableLock k;
  ou_rr : lock_idle RRLock k;
  ou_ticks : lock_idle TicksLock k
}.

Lemma inner_ok_sync k k' : same_sync k k' → inner_ok k → inner_ok k'.
Proof.
  intros Hs [? ? ?]. split; [by eapply nest_ok_sync|by eapply lock_idle_sync..].
Qed.

Lemma inside_sync k k' : same_sync k k' → inside k → inside k'.
Proof.
  intros Hs [? Hn]. split; [by eapply inner_ok_sync|].
  destruct Hs as (H1 & H2 & _). unfold this_cpu in *. by rewrite H1, H2.
Qed.

(** Like [outside], but possibly inside the critical section of another lock. *)
Record calm k : Prop := {
  cm_nest : nest_ok 2 k;
  cm_pt : lock_idle PtableLock k;
  cm_rr : lock_idle RRLock k;
  cm_ticks : lock_idle TicksLock k
}.

Lemma outside_calm k : outside k → calm k.
Proof. by intros []. Qed.

Lemma calm_inside k : calm k → inside (acquired PtableLock k).
Proof.
  intros [Hn Hp Hr Ht]. split; [split|].
  - apply nest_ok_acquired; [lia|]. by apply (nest_ok_le 2).
  - by apply lock_idle_acquired.
  - by apply lock_idle_acquired.
  - apply ncli_acquired. apply Hn.
Qed.

Lemma outside_inside k : outside k → inside (acquired PtableLock k).
Proof. intros Ho. by apply calm_inside, outside_calm. Qed.

Lemma outside_settle k : outside k → outside (settle k).
Proof.
  intros [Hn Hc Hp Hr Ht]. split; [by apply nest_ok_settle|..]; try done.
  rewrite this_cpu_settle by apply Hn. by case_decide.
Qed.

Lemma outside_sync k k' : same_sync k k' → outside k → outside k'.
Proof.
  intros Hs [Hn Hc Hp Hr Ht]. split; [by eapply nest_ok_sync| |by eapply lock_idle_sync..].
  destruct Hs as (H1 & H2 & _). unfold this_cpu in *. by rewrite H1, H2.
Qed.

(** ** Making a process ready *)

Definition queued flag (i : nat) (k : K) : K := if uses_queue flag then rr_push i k else k.

Definition made_ready flag (i : nat) (k : K) : K :=
  queued flag i (upd_proc i (set_p_state RUNNABLE) k).

Lemma queued_sync flag i k : same_sync k (queued flag i k).
Proof. unfold queued. destruct (uses_queue flag); [apply rr_push_frame|done]. Qed.

Lemma made_ready_sync flag i k : same_sync k (made_ready flag i k).
Proof. eapply same_sync_trans; [|apply queued_sync]. done. Qed.

Lemma queued_acquired flag lk i k : queued flag i (acquired lk k) = acquired lk (queued flag i k).
Proof. unfold queued. destruct (uses_queue flag); [apply rr_push_acquired|done]. Qed.

Lemma made_ready_acquired flag lk i k :
  made_ready flag i (acquired lk k) = acquired lk (made_ready flag i k).
Proof. exact (queued_acquired flag lk i (upd_proc i (set_p_state RUNNABLE) k)). Qed.

Lemma push_if_queued_ret flag i k :
  inside k → push_if_queued flag i k = Ret tt (queued flag i k).
Proof.
  intros [[Hn Hr _] Hc]. unfold push_if_queued, queued, when.
  destruct (uses_queue flag); [|done].
  rewrite push_ret by done. f_equal. apply settle_nested.
  destruct (rf_sync _ _ (rr_push_frame i k)) as (H1 & H2 & _).
  unfold this_cpu in *. by rewrite H1, H2.
Qed.

Lemma make_ready_ret flag i k :
  inside k →
  (assign i (set_p_state RUNNABLE) ;; push_if_queued flag i) k = Ret tt (made_ready flag i k).
Proof.
  intros Hi. rewrite (bind_Ret _ _ tt k (upd_proc i (set_p_state RUNNABLE) k)) by done.
  apply push_if_queued_ret. by apply (inside_sync k).
Qed.

(** ** Waking *)

Definition sleeps_on k (chan : chan_t) (i : nat) : bool :=
  bool_decide (p_state (proc_at k i) = SLEEPING) && bool_decide (p_chan (proc_at k i) = chan).

Definition woken1 flag chan (k : K) (i : nat) : K :=
  if sleeps_on k chan i then made_ready flag i k else k.

Definition woken flag chan (k : K) : K := foldl (woken1 flag chan) k (slots k).

Lemma woken1_sync flag chan k i : same_sync k (woken1 flag chan k i).
Proof. unfold woken1. destruct (sleeps_on k chan i); [apply made_ready_sync|done]. Qed.

Lemma wake_slot_ret flag chan i k :
  inside k → wake_slot flag chan i k = Ret tt (woken1 flag chan k i).
Proof.
  intros Hi. unfold wake_slot, woken1, sleeps_on.
  rewrite (bind_Ret _ _ (p_state (proc_at k i)) k k) by done.
  rewrite (bind_Ret _ _ (p_chan (proc_at k i)) k k) by done. unfold when.
  destruct (_ && _); [by apply make_ready_ret|done].
Qed.

(** A loop whose body computes a function that keeps the locks. *)
Lemma for_each_ret {A} (f : A → M K unit) (g : K → A → K) l k :
  (∀ k x, inside k → f x k = Ret tt (g k x) ∧ same_sync k (g k x)) →
  inside k → for_each f l k = Ret tt (foldl g k l) ∧ same_sync k (foldl g k l).
Proof.
  intros Hf. revert k. induction l as [|x l IH]; intros k Hi; simpl; [done|].
  destruct (Hf k x Hi) as [H1 H2]. rewrite (bind_Ret _ _ tt k (g k x)) by done.
  destruct (IH (g k x)) as [H3 H4]; [by eapply inside_sync|]. split; [done|].
  by eapply same_sync_trans.
Qed.

Lemma wakeup1_ret flag chan k :
  inside k → wakeup1 flag chan k = Ret tt (woken flag chan k) ∧ same_sync k (woken flag chan k).
Proof.
  intros Hi. unfold wakeup1, woken. rewrite (bind_Ret _ _ (slots k) k k) by done.
  apply for_each_ret; [|done]. intros k' x Hk'. split; [by apply wake_slot_ret|apply woken1_sync].
Qed.

Lemma foldl_acquired {A} lk (g : K → A → K) l k :
  (∀ k x, g (acquired lk k) x = acquired lk (g k x)) →
  foldl g (acquired lk k) l = acquired lk (foldl g k l).
Proof. intros Hg. revert k. induction l as [|x l IH]; intros k; simpl; [done|]. by rewrite Hg, IH. Qed.

Lemma woken_acquired flag chan lk k : woken flag chan (acquired lk k) = acquired lk (woken flag chan k).
Proof.
  unfold woken. change (slots (acquired lk k)) with (slots k).
  apply foldl_acquired. intros k' i. unfold woken1.
  change (sleeps_on (acquired lk k') chan i) with (sleeps_on k' chan i).
  destruct (sleeps_on k' chan i); [apply made_ready_acquired|done].
Qed.

(** A critical section of [ptable.lock] around a closed form. *)
Lemma ptable_section_calm {A} (m : M K A) (a : A) k k' :
  calm k → same_sync k k' →
  m (acquired PtableLock k) = Ret a (acquired PtableLock k') →
  locked PtableLock m k = Ret a (settle k').
Proof.
  intros [Hn Hp _ _] Hs Hm. apply critical; [by apply (nest_ok_le 2)|done..].
Qed.

Lemma ptable_section {A} (m : M K A) (a : A) k k' :
  outside k → same_sync k k' →
  m (acquired PtableLock k) = Ret a (acquired PtableLock k') →
  locked PtableLock m k = Ret a (settle k').
Proof. intros Ho. by apply ptable_section_calm, outside_calm. Qed.

Lemma acquired_sync lk k k' : same_sync k k' → same_sync (acquired lk k) (acquired lk k').
Proof.
  intros (H1 & H2 & H3). unfold same_sync, acquired, upd_cpu; simpl. by rewrite H1, H2, H3.
Qed.

Lemma woken_sync flag chan k : same_sync k (woken flag chan k).
Proof.
  unfold woken. generalize (slots k) as l. intros l. revert k.
  induction l as [|x l IH]; intros k; simpl; [done|].
  eapply same_sync_trans; [apply woken1_sync|apply IH].
Qed.

Lemma wakeup_calm flag chan k :
  calm k → wakeup flag chan k = Ret tt (settle (woken flag chan k)).
Proof.
  intros Ho. apply ptable_section_calm; [done|apply woken_sync|].
  rewrite (proj1 (wakeup1_ret flag chan _ (calm_inside k Ho))). by rewrite woken_acquired.
Qed.

Lemma wakeup_ret flag chan k :
  outside k → wakeup flag chan k = Ret tt (settle (woken flag chan k)).
Proof. intros Ho. by apply wakeup_calm, outside_calm. Qed.

(** ** Killing and signalling *)

Definition killed_at flag (i : nat) (k : K) : K :=
  let k1 := upd_proc i (set_p_killed 1) k in
  if bool_decide (p_state (proc_at k1 i) = SLEEPING) then made_ready flag i k1 else k1.

Definition signalled_at (i : nat) (bits : Z) (k : K) : K :=
  let k1 := upd_proc i (λ p, set_p_pending (s32 (Z.lor (u32 (p_pending p)) bits)) p) k in
  if bool_decide (p_state (proc_at k1 i) = SLEEPING)
  then upd_proc i (set_p_state RUNNABLE) k1 else k1.

Lemma kill_ret flag pid k :
  outside k →
  kill flag pid k = match first_slot (has_pid pid) k with
                    | None => Ret (-1) (settle k)
                    | Some i => Ret 0 (settle (killed_at flag i k))
                    end.
Proof.
  intros Ho. unfold kill. pose proof (outside_inside k Ho) as Hi.
  destruct (first_slot (has_pid pid) k) as [i|] eqn:Hf.
  - apply ptable_section; [done| |].
    + unfold killed_at. case_bool_decide; [|done].
      eapply same_sync_trans; [|apply made_ready_sync]. done.
    + rewrite (bind_Ret _ _ (Some i) _ (acquired PtableLock k))
        by (unfold gets; change (first_slot (has_pid pid) (acquired PtableLock k)) with
              (first_slot (has_pid pid) k); by rewrite Hf).
      set (k1 := upd_proc i (set_p_killed 1) (acquired PtableLock k)).
      rewrite (bind_Ret _ _ tt _ k1) by done.
      rewrite (bind_Ret _ _ (p_state (proc_at k1 i)) k1 k1) by done.
      unfold killed_at. change (proc_at (upd_proc i (set_p_killed 1) k) i) with (proc_at k1 i).
      unfold when. case_bool_decide; [|done].
      rewrite (bind_Ret _ _ tt k1 (made_ready flag i k1)) by (apply make_ready_ret; by apply (inside_sync _ k1) in Hi).
      unfold mret, M_ret. f_equal.
      exact (made_ready_acquired flag PtableLock i (upd_proc i (set_p_killed 1) k)).
  - apply ptable_section; [done|done|].
    rewrite (bind_Ret _ _ None _ (acquired PtableLock k)); [done|].
    unfold gets. by change (first_slot (has_pid pid) (acquired PtableLock k)) with
              (first_slot (has_pid pid) k); rewrite Hf.
Qed.

Lemma sigsend_ret pid signum k :
  outside k →
  sigsend pid signum k =
  if decide (signum >= 31 ∨ signum < 0) then Ret (-1) k else
  match first_slot (has_pid pid) k with
  | None => Ret (-1) (settle k)
  | Some i => Ret 0 (settle (signalled_at i (u32 (s32 (Z.shiftl 1 signum))) k))
  end.
Proof.
  intros Ho. unfold sigsend. case_decide; [done|].
  destruct (first_slot (has_pid pid) k) as [i|] eqn:Hf.
  - apply ptable_section; [done| |].
    + unfold signalled_at. by case_bool_decide.
    + rewrite (bind_Ret _ _ (Some i) _ (acquired PtableLock k))
        by (unfold gets; change (first_slot (has_pid pid) (acquired PtableLock k)) with
              (first_slot (has_pid pid) k); by rewrite Hf).
      set (f := λ p, set_p_pending _ p). set (k1 := upd_proc i f (acquired PtableLock k)).
      rewrite (bind_Ret _ _ tt _ k1) by done.
      rewrite (bind_Ret _ _ (p_state (proc_at k1 i)) k1 k1) by done.
      unfold signalled_at. fold f. change (proc_at (upd_proc i f k) i) with (proc_at k1 i).
      unfold when. by case_bool_decide.
  - apply ptable_section; [done|done|].
    rewrite (bind_Ret _ _ None _ (acquired PtableLock k)); [done|].
    unfold gets. by change (first_slot (has_pid pid) (acquired PtableLock k)) with
              (first_slot (has_pid pid) k); rewrite Hf.
Qed.

(** ** Entering the scheduler *)

(** The conditions [sched] tests. *)
Record may_sched (p : nat) k : Prop := {
  ms_hold : holding PtableLock k = true;
  ms_ncli : c_ncli (this_cpu k) = 1;
  ms_cur : curproc k = Some p;
  ms_lt : (p < length (k_ptable k))%nat;
  ms_state : p_state (proc_at k p) ≠ RUNNING;
  ms_if : Z.land (c_eflags (this_cpu k)) FL_IF = 0
}.

Lemma myproc_ret p k : curproc k = Some p → (p < length (k_ptable k))%nat → myproc k = Ret p k.
Proof. intros Hc Hp. unfold myproc. rewrite (bind_Ret _ _ (Some p) k k) by (unfold gets; by rewrite Hc). by apply deref_ret. Qed.

Lemma sched_ret swtch p k :
  may_sched p k →
  sched swtch k = (swtch ;; modify (upd_cpu (set_c_intena (c_intena (this_cpu k))))) k.
Proof.
  intros [Hh Hn Hc Hlt Hs Hif]. unfold sched.
  rewrite (bind_Ret _ _ true k k) by (unfold gets; by rewrite Hh). cbn [negb].
  rewrite (bind_Ret _ _ 1 k k) by (unfold gets; by rewrite Hn).
  rewrite decide_False by lia. rewrite (bind_Ret _ _ p k k) by (by apply myproc_ret).
  rewrite (bind_Ret _ _ (p_state (proc_at k p)) k k) by done.
  rewrite decide_False by done.
  rewrite (bind_Ret _ _ (c_eflags (this_cpu k)) k k) by done.
  rewrite decide_False by (rewrite Hif; lia). done.
Qed.

(** A state function that keeps the processors, the locks and the size of the
    table. *)
Definition tame (k k' : K) : Prop :=
  same_sync k k' ∧ length (k_ptable k') = length (k_ptable k).

Lemma tame_cur k k' : tame k k' → curproc k' = curproc k.
Proof. intros [(H1 & H2 & _) _]. unfold curproc, this_cpu. by rewrite H1, H2. Qed.

Lemma made_ready_len flag i k : length (k_ptable (made_ready flag i k)) = length (k_ptable k).
Proof.
  unfold made_ready, queued. rewrite <-(length_upd_proc i (set_p_state RUNNABLE) k).
  destruct (uses_queue flag); [|done]. apply (rf_len _ _ (rr_push_frame _ _)).
Qed.

Lemma made_ready_tame flag i k : tame k (made_ready flag i k).
Proof. split; [apply made_ready_sync|apply made_ready_len]. Qed.

(** What [made_ready] does to the processes, links aside. *)
Lemma made_ready_proc flag i k j :
  unlinked (proc_at (made_ready flag i k) j) =
  unlinked (proc_at (upd_proc i (set_p_state RUNNABLE) k) j).
Proof.
  unfold made_ready, queued. destruct (uses_queue flag); [|done].
  apply (rf_proc _ _ (rr_push_frame _ _)).
Qed.

Lemma made_ready_state flag i k j :
  (i < length (k_ptable k))%nat →
  p_state (proc_at (made_ready flag i k) j) =
  if decide (i = j) then RUNNABLE else p_state (proc_at k j).
Proof.
  intros Hi. change (p_state (proc_at (made_ready flag i k) j)) with
    (p_state (unlinked (proc_at (made_ready flag i k) j))).
  rewrite made_ready_proc, proc_at_upd. simpl. repeat case_decide; naive_solver.
Qed.

Lemma may_sched_acquired p k k' :
  outside k → curproc k = Some p → (p < length (k_ptable k))%nat → tame k k' →
  p_state (proc_at k' p) ≠ RUNNING → may_sched p (acquired PtableLock k').
Proof.
  intros Ho Hc Hp [Hs Hl] Hst. destruct (Ho) as [Hn Hz _ _ _].
  assert (cpu_wf k') as Hwf by (eapply same_sync_wf; [done|apply Hn]).
  assert (this_cpu k' = this_cpu k) as Ht
    by (destruct Hs as (H1 & H2 & _); unfold this_cpu; by rewrite H1, H2).
  split.
  - apply holding_acquired.
  - rewrite this_cpu_acquired, Ht by done. simpl. lia.
  - rewrite curproc_acquired. by rewrite (tame_cur k) by done.
  - change (p < length (k_ptable k'))%nat. lia.
  - done.
  - rewrite this_cpu_acquired by done. apply ldiff_IF.
Qed.

(** What a process does after it is switched to again. *)
Definition resume (intena : Z) : M K unit :=
  modify (upd_cpu (set_c_intena intena)) ;; release PtableLock.

Lemma acquire_outside lk k :
  outside k → lock_idle lk k → acquire lk k = Ret tt (acquired lk k).
Proof. intros [[Hwf _] _ _ _ _] Hl. apply acquire_free; [done|by apply lock_idle_free]. Qed.

Lemma yield_ret flag swtch p k :
  outside k → curproc k = Some p → (p < length (k_ptable k))%nat →
  let k1 := acquired PtableLock (made_ready flag p k) in
  yield flag swtch k = (swtch ;; resume (c_intena (this_cpu k1))) k1 ∧ may_sched p k1.
Proof.
  intros Ho Hc Hp k1.
  assert (may_sched p k1) as Hms.
  { apply (may_sched_acquired p k); [done..|apply made_ready_tame|].
    rewrite made_ready_state, decide_True by done. done. }
  split; [|done]. unfold yield.
  rewrite (bind_Ret _ _ tt k (acquired PtableLock k)) by (apply acquire_outside; [done|apply Ho]).
  rewrite (bind_Ret _ _ tt _ k1).
  - unfold mbind at 1, M_bind at 1. rewrite (sched_ret swtch p) by done.
    unfold resume. unfold mbind, M_bind. by destruct (swtch k1).
  - unfold yield_ready. rewrite (bind_Ret _ _ p _ (acquired PtableLock k))
      by (apply myproc_ret; [by rewrite curproc_acquired|done]).
    rewrite make_ready_ret by (by apply outside_inside).
    unfold k1. by rewrite made_ready_acquired.
Qed.

(** Going to sleep: the process is marked, the channel recorded. *)
Definition put_to_sleep (p : nat) (chan : chan_t) (k : K) : K :=
  upd_proc p (set_p_state SLEEPING) (upd_proc p (set_p_chan chan) k).

Lemma put_to_sleep_tame p chan k : tame k (put_to_sleep p chan k).
Proof. split; [done|]. unfold put_to_sleep. by rewrite !length_upd_proc. Qed.

(** Taking [ptable.lock] before giving up [lk] leaves only [ptable.lock]. *)
Lemma lock_swap lk k :
  outside k → lock_idle lk k → lk ≠ PtableLock →
  (acquire PtableLock ;; release lk) (acquired lk k) = Ret tt (acquired PtableLock k).
Proof.
  intros [Hn Hz Hp _ _] Hl Hne. assert (nest_ok 1 (acquired lk k)) as Hn1
    by (apply nest_ok_acquired; [lia|done]).
  destruct (Hn) as [Hwf _]. destruct (Hn1) as [Hwf1 _].
  rewrite (bind_Ret _ _ tt _ (acquired PtableLock (acquired lk k)))
    by (apply acquire_free; [done|]; by apply lock_idle_free, lock_idle_acquired).
  assert (cpu_wf (acquired PtableLock (acquired lk k))) as Hwf2
    by (apply (nest_ok_acquired 0); [lia|done]).
  rewrite release_held; [|done|by apply ncli_acquired|].
  - f_equal. transitivity (set_k_locks (<[lk := Lock 0 None]> (<[PtableLock := Lock 1 (Some (k_mycpu k))]>
        (<[lk := Lock 1 (Some (k_mycpu k))]> (k_locks k))))
      (upd_cpu cpu_popped (upd_cpu cpu_pushed (upd_cpu cpu_pushed k)))); [done|].
    rewrite !upd_cpu_upd_cpu, (upd_cpu_ext _ cpu_pushed).
    + rewrite insert_insert_ne by done. by rewrite insert_insert_eq, (insert_id (k_locks k)).
    + destruct (this_cpu k) as [a b n d e f]; simpl in Hz; subst n.
      unfold cpu_popped, cpu_pushed; simpl. f_equal. apply ldiff_IF_id, ldiff_IF.
  - unfold holding, lock_of, acquired; simpl.
    rewrite lookup_total_insert_ne, lookup_total_insert_eq by done. simpl.
    by rewrite bool_decide_eq_true_2.
Qed.

(** What a sleeper does after it is switched to again. *)
Definition sleep_tail (intena : Z) (lk : lockid) : M K unit :=
  modify (upd_cpu (set_c_intena intena)) ;;
  p ← myproc;
  assign p (set_p_chan ChNull) ;;
  when (bool_decide (lk ≠ PtableLock)) (release PtableLock ;; acquire lk).

Lemma sleep_ret swtch chan lk p k :
  outside k → lock_idle lk k → curproc k = Some p → (p < length (k_ptable k))%nat →
  let k1 := acquired PtableLock (put_to_sleep p chan k) in
  sleep swtch chan (Some lk) (acquired lk k) =
    (swtch ;; sleep_tail (c_intena (this_cpu k1)) lk) k1 ∧ may_sched p k1.
Proof.
  intros Ho Hl Hc Hp k1.
  assert (may_sched p k1) as Hms.
  { apply (may_sched_acquired p k); [done..|apply put_to_sleep_tame|].
    unfold put_to_sleep. by rewrite proc_at_upd_eq by (by rewrite length_upd_proc). }
  split; [|done]. unfold sleep.
  rewrite (bind_Ret _ _ (Some p) _ (acquired lk k)) by (unfold gets; by rewrite curproc_acquired, Hc).
  rewrite (bind_Ret _ _ tt _ (acquired PtableLock k)).
  2:{ unfold when. case_bool_decide as Hne; [by apply lock_swap|].
      destruct (decide (lk = PtableLock)) as [->|]; [done|by destruct Hne]. }
  rewrite (bind_Ret _ _ p _ (acquired PtableLock k))
    by (apply myproc_ret; [by rewrite curproc_acquired|done]).
  rewrite (bind_Ret _ _ tt _ (upd_proc p (set_p_chan chan) (acquired PtableLock k))) by done.
  rewrite (bind_Ret _ _ tt _ k1) by done.
  unfold mbind at 1, M_bind at 1. rewrite (sched_ret swtch p) by done.
  unfold sleep_tail, mbind, M_bind. by destruct (swtch k1).
Qed.

(** ** Exiting *)

Definition adopted1 flag (cur : nat) (k : K) (i : nat) : K :=
  if decide (p_parent (proc_at k i) = Some cur) then
    let k1 := upd_proc i (set_p_parent (k_initproc k)) k in
    if bool_decide (p_state (proc_at k1 i) = ZOMBIE)
    then woken flag (chan_of (k_initproc k)) k1 else k1
  else k.

Definition zombified flag (cur : nat) (k : K) : K :=
  let k1 := woken flag (chan_of (p_parent (proc_at k cur))) k in
  let k2 := foldl (adopted1 flag cur) k1 (slots k1) in
  upd_proc cur (set_p_ttime (k_ticks k2)) (upd_proc cur (set_p_state ZOMBIE) k2).

Lemma adopt_ret flag cur i k :
  inside k → adopt flag cur i k = Ret tt (adopted1 flag cur k i) ∧
             same_sync k (adopted1 flag cur k i).
Proof.
  intros Hi. unfold adopt, adopted1.
  rewrite (bind_Ret _ _ (p_parent (proc_at k i)) k k) by done.
  case_decide; [|done]. rewrite (bind_Ret _ _ (k_initproc k) k k) by done.
  set (k1 := upd_proc i (set_p_parent (k_initproc k)) k).
  rewrite (bind_Ret _ _ tt k k1) by done.
  rewrite (bind_Ret _ _ (p_state (proc_at k1 i)) k1 k1) by done. unfold when.
  case_bool_decide; [|done].
  destruct (wakeup1_ret flag (chan_of (k_initproc k)) k1) as [Hw Hs]; [by apply (inside_sync k)|].
  by split.
Qed.

Lemma nested_section {A} lk (m : M K A) (a : A) k k' :
  inside k → lock_idle lk k → same_sync k k' →
  m (acquired lk k) = Ret a (acquired lk k') → locked lk m k = Ret a k'.
Proof.
  intros [[Hn _ _] Hc] Hl Hs Hm. rewrite (critical lk m a k k') by done.
  f_equal. apply settle_nested. destruct Hs as (H1 & H2 & _).
  unfold this_cpu in *. by rewrite H1, H2.
Qed.

Lemma exit_zombie_ret flag cur k :
  inside k → exit_zombie flag cur k = Ret tt (zombified flag cur k) ∧
             same_sync k (zombified flag cur k).
Proof.
  intros Hi. unfold exit_zombie, zombified.
  rewrite (bind_Ret _ _ (p_parent (proc_at k cur)) k k) by done.
  destruct (wakeup1_ret flag (chan_of (p_parent (proc_at k cur))) k Hi) as [H1 Hs1].
  set (k1 := woken flag _ k) in *. rewrite (bind_Ret _ _ tt k k1) by done.
  rewrite (bind_Ret _ _ (slots k1) k1 k1) by done.
  assert (inside k1) as Hi1 by (by eapply inside_sync).
  destruct (for_each_ret (adopt flag cur) (adopted1 flag cur) (slots k1) k1) as [H2 Hs2];
    [intros; by apply adopt_ret|done|].
  set (k2 := foldl (adopted1 flag cur) k1 (slots k1)) in *.
  rewrite (bind_Ret _ _ tt k1 k2) by done.
  set (k3 := upd_proc cur (set_p_state ZOMBIE) k2). rewrite (bind_Ret _ _ tt k2 k3) by done.
  assert (same_sync k k3) as Hs3 by (eapply same_sync_trans; [exact Hs1|exact Hs2]).
  assert (inside k3) as Hi3 by (by eapply inside_sync).
  split; [|exact Hs3]. apply nested_section; [done|apply Hi3|done|done].
Qed.

Lemma woken_len flag chan k : length (k_ptable (woken flag chan k)) = length (k_ptable k).
Proof.
  unfold woken. generalize (slots k) as l. intros l. revert k.
  induction l as [|x l IH]; intros k; simpl; [done|]. rewrite IH. unfold woken1.
  destruct (sleeps_on k chan x); [apply made_ready_len|done].
Qed.

Lemma adopted1_tame flag cur k i : tame k (adopted1 flag cur k i).
Proof.
  unfold adopted1. case_decide; [|done]. case_bool_decide.
  - split; [|by rewrite woken_len, length_upd_proc].
    eapply same_sync_trans; [|apply woken_sync]. done.
  - split; [done|by rewrite length_upd_proc].
Qed.

Lemma tame_trans k1 k2 k3 : tame k1 k2 → tame k2 k3 → tame k1 k3.
Proof. intros [? ?] [? ?]. split; [by eapply same_sync_trans|congruence]. Qed.

Lemma foldl_tame {A} (g : K → A → K) l k :
  (∀ k x, tame k (g k x)) → tame k (foldl g k l).
Proof.
  intros Hg. revert k. induction l as [|x l IH]; intros k; simpl; [done|].
  eapply tame_trans; [apply Hg|apply IH].
Qed.

Lemma adopted1_acquired flag cur lk k i :
  adopted1 flag cur (acquired lk k) i = acquired lk (adopted1 flag cur k i).
Proof.
  unfold adopted1.
  change (p_parent (proc_at (acquired lk k) i)) with (p_parent (proc_at k i)).
  case_decide; [|done]. change (k_initproc (acquired lk k)) with (k_initproc k).
  set (f := set_p_parent (k_initproc k)).
  change (upd_proc i f (acquired lk k)) with (acquired lk (upd_proc i f k)).
  change (proc_at (acquired lk (upd_proc i f k)) i) with (proc_at (upd_proc i f k) i).
  case_bool_decide; [apply woken_acquired|done].
Qed.

Lemma zombified_acquired flag cur lk k :
  zombified flag cur (acquired lk k) = acquired lk (zombified flag cur k).
Proof.
  unfold zombified. change (proc_at (acquired lk k) cur) with (proc_at k cur).
  rewrite woken_acquired. set (k1 := woken flag _ k).
  change (slots (acquired lk k1)) with (slots k1).
  rewrite foldl_acquired by (intros; apply adopted1_acquired). done.
Qed.

Lemma zombified_tame flag cur k : tame k (zombified flag cur k).
Proof.
  unfold zombified. set (k1 := woken flag _ k).
  assert (tame k k1) as H1 by (split; [apply woken_sync|apply woken_len]).
  assert (tame k1 (foldl (adopted1 flag cur) k1 (slots k1))) as H2
    by (apply foldl_tame; intros; apply adopted1_tame).
  eapply tame_trans; [exact H1|]. eapply tame_trans; [exact H2|].
  split; [done|by rewrite !length_upd_proc].
Qed.

Lemma exit_ret flag swtch p k :
  outside k → curproc k = Some p → (p < length (k_ptable k))%nat →
  let k1 := acquired PtableLock (zombified flag p k) in
  (acquire PtableLock ;; exit_zombie flag p ;; sched swtch) k =
    (swtch ;; modify (upd_cpu (set_c_intena (c_intena (this_cpu k1))))) k1 ∧ may_sched p k1.
Proof.
  intros Ho Hc Hp k1.
  assert (may_sched p k1) as Hms.
  { apply (may_sched_acquired p k); [done..|apply zombified_tame|].
    unfold zombified. set (k2 := foldl _ _ _).
    assert (length (k_ptable k2) = length (k_ptable k)) as Hlen.
    { rewrite <-(proj2 (zombified_tame flag p k)). unfold zombified. fold k2.
      by rewrite !length_upd_proc. }
    rewrite proc_at_upd_eq by (rewrite length_upd_proc; lia). simpl.
    by rewrite proc_at_upd_eq by lia. }
  split; [|done].
  rewrite (bind_Ret _ _ tt k (acquired PtableLock k)) by (apply acquire_outside; [done|apply Ho]).
  rewrite (bind_Ret _ _ tt _ k1).
  - by apply (sched_ret swtch p).
  - rewrite (proj1 (exit_zombie_ret flag p _ (outside_inside k Ho))).
    unfold k1. by rewrite zombified_acquired.
Qed.

(** ** The lottery turn of the scheduler *)

Lemma nest_ok_upd_cpu n f k :
  (∀ c, c_ncli (f c) = c_ncli c ∧ c_eflags (f c) = c_eflags c) →
  nest_ok n k → nest_ok n (upd_cpu f k).
Proof.
  intros Hf [(Hm & Hr & Hi) Hb]. unfold nest_ok, cpu_wf.
  rewrite this_cpu_upd_cpu by done. destruct (Hf (this_cpu k)) as [-> ->].
  unfold upd_cpu; simpl. by rewrite length_alter.
Qed.

Lemma inside_set_proc p k : inside k → inside (upd_cpu (set_c_proc p) k).
Proof.
  intros [[Hn Hr Ht] Hc]. split; [split; [by apply nest_ok_upd_cpu|done..]|].
  by rewrite this_cpu_upd_cpu by apply Hn.
Qed.

Lemma settle_inside k k' : inside k → same_sync k k' → settle k' = k'.
Proof.
  intros Hi Hs. apply settle_nested. apply (in_ncli k'). by eapply inside_sync.
Qed.

(** The state after the draw. *)
Definition drawn_state flag (q : list nat) (k : K) : K := after_pick (lottery_round flag q k).

Lemma drawn_state_sync flag q k : same_sync k (drawn_state flag q k).
Proof.
  eapply same_sync_trans; [apply lottery_round_sync|].
  unfold drawn_state, after_pick. by case_decide.
Qed.

(** [proc = p], and [p] leaves the queue. *)
Definition claimed (i : nat) (k : K) : K := rr_remove i (upd_cpu (set_c_proc (Some i)) k).

Lemma sched_lottery_ret `{Services V} flag swtch q k :
  inside k → rr_repr k q → uses_queue flag = true → (length (k_ptable k) <= NPROC)%nat →
  sched_lottery flag swtch k =
  match picked (lottery_round flag q k) (live flag k q) with
  | None => Ret tt (drawn_state flag q k)
  | Some i => run_process swtch i (claimed i (drawn_state flag q k))
  end.
Proof.
  intros Hi Hr Hu Hlen. unfold sched_lottery.
  pose proof (lottery_round_sync flag q k) as Hs1.
  destruct (lottery_round_spec flag q k Hu Hr Hlen) as (Hr1 & Hl1 & _ & _).
  rewrite (bind_Ret _ _ tt k (lottery_round flag q k)).
  2:{ rewrite (deliver_ret flag q); [by rewrite (settle_inside k)|done|apply Hi|apply Hi|done|done]. }
  assert (inside (lottery_round flag q k)) as Hi1 by (by eapply inside_sync).
  rewrite (bind_Ret _ _ (picked (lottery_round flag q k) (live flag k q)) _ (drawn_state flag q k)).
  2:{ rewrite (pick_ret _ (live flag k q)); [|done|apply Hi1|apply Hi1|done|apply lottery_total_range].
      f_equal. apply (settle_inside k); [done|apply drawn_state_sync]. }
  destruct (picked _ _) as [i|]; [|done].
  assert (inside (drawn_state flag q k)) as Hi2 by (eapply inside_sync; [apply drawn_state_sync|done]).
  set (k3 := upd_cpu (set_c_proc (Some i)) (drawn_state flag q k)).
  rewrite (bind_Ret _ _ tt _ k3) by done.
  assert (inside k3) as Hi3 by (by apply inside_set_proc).
  rewrite (bind_Ret _ _ tt k3 (rr_remove i k3)); [done|].
  apply nested_section; [done|apply Hi3|apply rr_remove_frame|].
  by rewrite remove_ret, rr_remove_acquired.
Qed.

(** ** Allocating a slot *)

Definition is_unused (p : proc) : bool := bool_decide (p_state p = UNUSED).

Definition allocated (p : nat) (k : K) : K :=
  set_k_nextpid (s32 (k_nextpid k + 1))
    (upd_proc p (λ x, set_p_ctime (k_ticks k) (set_p_pid (k_nextpid k) (set_p_state EMBRYO x))) k).

Lemma alloc_slot_ret k :
  inside k →
  alloc_slot k = match first_slot is_unused k with
                 | None => Ret None k
                 | Some p => Ret (Some p) (allocated p k)
                 end.
Proof.
  intros Hi. unfold alloc_slot.
  rewrite (bind_Ret _ _ (first_slot is_unused k) k k) by done.
  destruct (first_slot is_unused k) as [p|]; [|done].
  set (k1 := upd_proc p (set_p_state EMBRYO) k). rewrite (bind_Ret _ _ tt k k1) by done.
  rewrite (bind_Ret _ _ (k_nextpid k) k1 k1) by done.
  set (k2 := upd_proc p (set_p_pid (k_nextpid k)) k1). rewrite (bind_Ret _ _ tt k1 k2) by done.
  set (k3 := set_k_nextpid (s32 (k_nextpid k + 1)) k2). rewrite (bind_Ret _ _ tt k2 k3) by done.
  rewrite (bind_Ret _ _ tt k3 (upd_proc p (set_p_ctime (k_ticks k)) k3)).
  - unfold mret, M_ret. f_equal. unfold k3.
    change (upd_proc p ?f (set_k_nextpid ?n ?x)) with (set_k_nextpid n (upd_proc p f x)).
    unfold k2, k1. by rewrite !upd_proc_compose.
  - assert (inside k3) as Hi3 by (by apply (inside_sync k)).
    apply nested_section; [done|apply Hi3|done|done].
Qed.

Lemma alloc_slot_locked k :
  outside k →
  locked PtableLock alloc_slot k =
  match first_slot is_unused k with
  | None => Ret None (settle k)
  | Some p => Ret (Some p) (settle (allocated p k))
  end.
Proof.
  intros Ho. pose proof (alloc_slot_ret _ (outside_inside k Ho)) as Ha.
  change (first_slot is_unused (acquired PtableLock k)) with (first_slot is_unused k) in Ha.
  destruct (first_slot is_unused k) as [p|]; by apply ptable_section.
Qed.

Lemma first_slot_Some P k i :
  first_slot P k = Some i → (i < length (k_ptable k))%nat ∧ P (proc_at k i) = true ∧
    ∀ j, (j < i)%nat → P (proc_at k j) = false.
Proof.
  unfold first_slot, slots. intros Hh.
  assert (∀ n m, head (filter (λ i, P (proc_at k i) = true) (seq m n)) = Some i →
    (m <= i < m + n)%nat ∧ P (proc_at k i) = true ∧
    ∀ j, (m <= j < i)%nat → P (proc_at k j) = false) as Hgen.
  { clear Hh. induction n as [|n IH]; intros m; [done|]. cbn [seq]. rewrite filter_cons.
    case_decide as Hm.
    - intros [= ->]. split; [lia|]. split; [done|]. intros j Hj. lia.
    - intros Hi. destruct (IH (S m) Hi) as (H1 & H2 & H3). split; [lia|]. split; [done|].
      intros j Hj. destruct (decide (j = m)) as [->|]; [by apply not_true_is_false|]. apply H3. lia. }
  apply Hgen in Hh as (H1 & H2 & H3). split; [lia|]. split; [done|]. intros j Hj. apply H3. lia.
Qed.

Lemma first_slot_None P k i :
  first_slot P k = None → (i < length (k_ptable k))%nat → P (proc_at k i) = false.
Proof.
  intros Hn Hi. apply not_true_is_false. apply (head_filter_None _ _ Hn).
  apply elem_of_seq. lia.
Qed.
End forms.
