(* ===== verification/ProcInv.v ===== *)
(** * The kernel invariant

    The scheduling invariant of the process table, and a machine whose steps
    are the process routines of proc.c run on any processor in any order.
    A routine that gives up the processor is run with [swtch] replaced by
    [block], which stops it at the switch; the scheduler's side then continues
    from that state.  The theorems hold for every reachable state. *)

From stdpp Require Import base list gmap strings.
From Stdlib Require Import ZArith Lia.
From S2P Require Import Prelude KState Spinlock RRQueue Lottery CString Proc ProcForms.

Section inv.
Context {V : Type}.
Abbreviation K := (core V).
Implicit Types (k : K) (flag : schedflag) (L : gset nat).

Definition st k (i : nat) : procstate := p_state (proc_at k i).
Definition pid_of k (i : nat) : Z := p_pid (proc_at k i).

(** Processor [c] runs process [i]. *)
Definition runs k (c i : nat) : Prop := (c_proc <$> k_cpus k) !! c = Some (Some i).

(** [L] is the set of processes that were made RUNNABLE without being queued. *)
Record kinv flag L k : Prop := {
  ki_len : length (k_ptable k) = NPROC;
  ki_queue : ∃ q, rr_repr k q ∧
    (uses_queue flag = true →
     ∀ i, (i < NPROC)%nat → i ∈ q ↔ st k i = RUNNABLE ∧ i ∉ L);
  ki_lost : ∀ i, i ∈ L → (i < NPROC)%nat ∧ st k i = RUNNABLE;
  ki_run : ∀ c i, runs k c i → (i < NPROC)%nat ∧ st k i = RUNNING;
  ki_once : ∀ c c' i, runs k c i → runs k c' i → c = c';
  ki_running : ∀ i, (i < NPROC)%nat → st k i = RUNNING → ∃ c, runs k c i;
  ki_pid : ∀ i j, (i < NPROC)%nat → (j < NPROC)%nat →
    st k i ≠ UNUSED → st k j ≠ UNUSED → pid_of k i = pid_of k j → i = j;
  ki_pidlt : ∀ i, (i < NPROC)%nat → st k i ≠ UNUSED → 0 < pid_of k i < k_nextpid k
}.

(** ** What the invariant reads *)

Record same_view k k' : Prop := {
  sv_ptable : k_ptable k' = k_ptable k;
  sv_first : k_first k' = k_first k;
  sv_last : k_last k' = k_last k;
  sv_nextpid : k_nextpid k' = k_nextpid k;
  sv_run : c_proc <$> k_cpus k' = c_proc <$> k_cpus k
}.

#[global] Instance same_view_equiv : Equivalence same_view.
Proof.
  split; [by split|by intros ?? []; split|]. intros ??? [] []. split; congruence.
Qed.

Lemma kinv_view flag L k k' : same_view k k' → kinv flag L k → kinv flag L k'.
Proof.
  intros [H1 H2 H3 H4 H5] [].
  assert (∀ i, proc_at k' i = proc_at k i) as Hp by (intros; unfold proc_at; by rewrite H1).
  unfold st, pid_of, runs in *. split; unfold st, pid_of, runs; rewrite ?H1, ?H4, ?H5;
    try setoid_rewrite Hp; try done.
  destruct ki_queue0 as (q & Hr & Hq). exists q. split; [|done].
  apply (rr_repr_same k); [done|by rewrite H1|done|done|].
  intros i. unfold rr_next, rr_prev. by rewrite Hp.
Qed.

Lemma fmap_alter_proc f (l : list cpu) (n : nat) :
  (∀ c, c_proc (f c) = c_proc c) → c_proc <$> alter f n l = c_proc <$> l.
Proof.
  intros Hf. apply list_eq. intros i. rewrite !list_lookup_fmap, list_lookup_alter.
  case_decide; [subst|done]. destruct (l !! i); simpl; [by rewrite Hf|done].
Qed.

Lemma view_upd_cpu f k : (∀ c, c_proc (f c) = c_proc c) → same_view k (upd_cpu f k).
Proof. intros Hf. split; try done. simpl. by apply fmap_alter_proc. Qed.

Lemma view_acquired lk k : same_view k (acquired lk k).
Proof. by destruct (view_upd_cpu cpu_pushed k). Qed.
Lemma view_released lk k : same_view k (released lk k).
Proof. by destruct (view_upd_cpu cpu_popped k). Qed.
Lemma view_settle k : same_view k (settle k).
Proof. apply view_upd_cpu. intros c. by case_decide. Qed.
Lemma view_on c k : same_view k (on c k).
Proof. by split. Qed.

(** ** Changes to a process the invariant allows *)

Lemma runs_upd_proc i f k c j : runs (upd_proc i f k) c j ↔ runs k c j.
Proof. done. Qed.

Lemma st_upd i f k j :
  st (upd_proc i f k) j =
  if decide (i = j ∧ (i < length (k_ptable k))%nat) then p_state (f (proc_at k j)) else st k j.
Proof. unfold st. rewrite proc_at_upd. case_decide; naive_solver. Qed.

Lemma pid_upd i f k j :
  pid_of (upd_proc i f k) j =
  if decide (i = j ∧ (i < length (k_ptable k))%nat) then p_pid (f (proc_at k j)) else pid_of k j.
Proof. unfold pid_of. rewrite proc_at_upd. case_decide; naive_solver. Qed.

(** A change that keeps the links, the pid and the state but possibly moves
    the process between states in which it is neither queued nor running. *)
Definition idle_state (s : procstate) : bool :=
  match s with RUNNABLE | RUNNING => false | _ => true end.

Record keeps (p p' : proc) : Prop := {
  kp_next : p_rrnext p' = p_rrnext p;
  kp_prev : p_rrprev p' = p_rrprev p;
  kp_pid : p_state p' ≠ UNUSED → p_pid p' = p_pid p ∧ p_state p ≠ UNUSED;
  kp_state : p_state p' = p_state p ∨
    idle_state (p_state p) = true ∧ idle_state (p_state p') = true
}.

Lemma rr_repr_upd_at i f k q :
  p_rrnext (f (proc_at k i)) = p_rrnext (proc_at k i) →
  p_rrprev (f (proc_at k i)) = p_rrprev (proc_at k i) →
  rr_repr k q → rr_repr (upd_proc i f k) q.
Proof.
  intros H1 H2 Hr. apply (rr_repr_same k); [done|apply length_upd_proc|done..|].
  intros j. unfold rr_next, rr_prev. rewrite proc_at_upd. case_decide; naive_solver.
Qed.

Lemma kinv_keeps flag L k i f :
  kinv flag L k → keeps (proc_at k i) (f (proc_at k i)) → kinv flag L (upd_proc i f k).
Proof.
  intros [Hlen (q & Hr & Hq) Hlost Hrun Honce Hrunning Hpid Hlt] [Hn Hv Hp Hs].
  assert (∀ j, st (upd_proc i f k) j = st k j ∨
    idle_state (st k j) = true ∧ idle_state (st (upd_proc i f k) j) = true) as Hst.
  { intros j. rewrite st_upd. case_decide as Hd; [|by left]. destruct Hd as [<- _]. exact Hs. }
  assert (∀ j s, idle_state s = false → st (upd_proc i f k) j = s ↔ st k j = s) as Hst'.
  { intros j s He. destruct (Hst j) as [->|[H1 H2]]; [done|].
    split; intros <-; congruence. }
  assert (∀ j, st (upd_proc i f k) j ≠ UNUSED →
    pid_of (upd_proc i f k) j = pid_of k j ∧ st k j ≠ UNUSED) as Hpd.
  { intros j. rewrite st_upd, pid_upd. case_decide as Hd; [|done]. destruct Hd as [<- _].
    exact Hp. }
  split; [by rewrite length_upd_proc|..].
  - exists q. split; [by apply rr_repr_upd_at|]. intros Hu j Hj. rewrite Hst' by done. by apply Hq.
  - intros j Hj. rewrite Hst' by done. by apply Hlost.
  - intros c j Hc. rewrite Hst' by done. by apply (Hrun c).
  - exact Honce.
  - intros j Hj. rewrite Hst' by done. by apply Hrunning.
  - intros a b Ha Hb Hsa Hsb He. apply Hpd in Hsa as [Ea Hsa]. apply Hpd in Hsb as [Eb Hsb].
    apply Hpid; [done..|congruence].
  - intros a Ha Hsa. apply Hpd in Hsa as [-> Hsa]. by apply Hlt.
Qed.

(** ** Becoming ready *)

Lemma made_ready_repr flag i k q :
  rr_repr k q → i ∉ q → (i < length (k_ptable k))%nat →
  rr_repr (made_ready flag i k) (if uses_queue flag then q ++ [i] else q).
Proof.
  intros Hr Hi Hlt. unfold made_ready, queued.
  assert (rr_repr (upd_proc i (set_p_state RUNNABLE) k) q) as Hr1 by (by apply rr_repr_upd_at).
  destruct (uses_queue flag); [|done]. apply rr_push_repr; [done..|by rewrite length_upd_proc].
Qed.

Lemma made_ready_pid flag i k j : pid_of (made_ready flag i k) j = pid_of k j.
Proof.
  unfold pid_of. change (p_pid (proc_at (made_ready flag i k) j)) with
    (p_pid (unlinked (proc_at (made_ready flag i k) j))).
  rewrite made_ready_proc, proc_at_upd. simpl. case_decide; naive_solver.
Qed.

Lemma made_ready_rest flag i k : rest (made_ready flag i k) = rest k.
Proof.
  unfold made_ready, queued. destruct (uses_queue flag); [|done].
  by rewrite (rf_rest _ _ (rr_push_frame _ _)).
Qed.

Lemma made_ready_nextpid flag i k : k_nextpid (made_ready flag i k) = k_nextpid k.
Proof. pose proof (made_ready_rest flag i k) as He. unfold rest in He. congruence. Qed.

Lemma made_ready_runs flag i k c j : runs (made_ready flag i k) c j ↔ runs k c j.
Proof. unfold runs. by destruct (made_ready_sync flag i k) as (-> & _). Qed.

Lemma kinv_ready flag L k i :
  kinv flag L k → (i < NPROC)%nat → idle_state (st k i) = true → st k i ≠ UNUSED →
  kinv flag L (made_ready flag i k).
Proof.
  intros [Hlen (q & Hr & Hq) Hlost Hrun Honce Hrunning Hpid Hlt] Hi Hidle Hused.
  assert (∀ j, st (made_ready flag i k) j = if decide (i = j) then RUNNABLE else st k j) as Hst
    by (intros; apply made_ready_state; lia).
  assert (i ∉ L) as HiL by (intros HL; destruct (Hlost i HL) as [_ He]; rewrite He in Hidle; done).
  split; [by rewrite made_ready_len|..].
  - destruct (uses_queue flag) eqn:Hu.
    + assert (i ∉ q) as Hiq.
      { intros Hin. apply (Hq eq_refl) in Hin as [He _]; [|done]. by rewrite He in Hidle. }
      exists (q ++ [i]). split.
      { pose proof (made_ready_repr flag i k q Hr Hiq) as Hrr. rewrite Hu in Hrr. apply Hrr. lia. }
      intros _ j Hj. rewrite elem_of_app, list_elem_of_singleton, Hst, Hq by done.
      case_decide; naive_solver.
    + exists q. split; [|done]. unfold made_ready, queued. rewrite Hu. by apply rr_repr_upd_at.
  - intros j Hj. rewrite Hst. case_decide; [by subst|]. by apply Hlost.
  - intros c j Hc%made_ready_runs. rewrite Hst. destruct (Hrun c j Hc) as [? He].
    case_decide; [subst; by rewrite He in Hidle|done].
  - intros c c' j. rewrite !made_ready_runs. apply Honce.
  - intros j Hj. rewrite Hst. setoid_rewrite made_ready_runs. case_decide; [done|by apply Hrunning].
  - intros a b Ha Hb. rewrite !Hst, !made_ready_pid. intros Hsa Hsb. apply Hpid; [done..| |];
      [destruct (decide (i = a)) as [<-|]|destruct (decide (i = b)) as [<-|]]; done.
  - intros a Ha. rewrite Hst, made_ready_pid, made_ready_nextpid. intros Hsa. apply Hlt; [done|].
    by destruct (decide (i = a)) as [<-|].
Qed.

Lemma kinv_woken1 flag L chan k i :
  kinv flag L k → (i < NPROC)%nat → kinv flag L (woken1 flag chan k i).
Proof.
  intros Hk Hi. unfold woken1, sleeps_on. case_bool_decide as Hs; [|done].
  case_bool_decide; [|done]. simpl. apply kinv_ready; [done..| |]; unfold st; by rewrite Hs.
Qed.

Lemma kinv_foldl flag L (g : K → nat → K) l k :
  (∀ k i, kinv flag L k → (i < NPROC)%nat → kinv flag L (g k i)) →
  kinv flag L k → (∀ i, i ∈ l → (i < NPROC)%nat) → kinv flag L (foldl g k l).
Proof.
  intros Hg. revert k. induction l as [|x l IH]; intros k Hk Hl; simpl; [done|].
  apply IH; [apply Hg; [done|apply Hl; left]|]. intros j Hj. apply Hl. by right.
Qed.

Lemma slots_lt flag L k i : kinv flag L k → i ∈ slots k → (i < NPROC)%nat.
Proof. intros Hk Hi. apply elem_of_seq in Hi. rewrite (ki_len _ _ _ Hk) in Hi. lia. Qed.

Lemma kinv_woken flag L chan k : kinv flag L k → kinv flag L (woken flag chan k).
Proof.
  intros Hk. apply kinv_foldl; [intros; by apply kinv_woken1|done|].
  intros i Hi. by eapply slots_lt.
Qed.

Lemma kinv_killed flag L k i :
  kinv flag L k → (i < NPROC)%nat → kinv flag L (killed_at flag i k).
Proof.
  intros Hk Hi. unfold killed_at. set (k1 := upd_proc i (set_p_killed 1) k).
  assert (kinv flag L k1) as Hk1 by (apply kinv_keeps; [done|]; split; try done; by left).
  case_bool_decide as Hs; [|done]. apply kinv_ready; [done..| |]; unfold st; by rewrite Hs.
Qed.

Lemma kinv_adopted1 flag L cur k i :
  kinv flag L k → (i < NPROC)%nat → kinv flag L (adopted1 flag cur k i).
Proof.
  intros Hk Hi. unfold adopted1. case_decide; [|done].
  set (k1 := upd_proc i (set_p_parent (k_initproc k)) k).
  assert (kinv flag L k1) as Hk1 by (apply kinv_keeps; [done|]; split; try done; by left).
  case_bool_decide; [by apply kinv_woken|done].
Qed.

(** ** Giving up the processor *)

(** [proc = 0] on this processor. *)
Definition unrun (k : K) : K := upd_cpu (set_c_proc None) k.

Lemma runs_set_proc k p c i :
  runs (upd_cpu (set_c_proc p) k) c i ↔
  (c ≠ k_mycpu k ∧ runs k c i) ∨
  (c = k_mycpu k ∧ p = Some i ∧ (c < length (k_cpus k))%nat).
Proof.
  unfold runs, upd_cpu; simpl. rewrite !list_lookup_fmap, list_lookup_alter. case_decide as Hc.
  - subst. destruct (k_cpus k !! k_mycpu k) as [x|] eqn:Hx; simpl.
    + apply lookup_lt_Some in Hx. naive_solver.
    + apply lookup_ge_None in Hx. naive_solver lia.
  - naive_solver.
Qed.

Lemma runs_unrun k c i : runs (unrun k) c i ↔ c ≠ k_mycpu k ∧ runs k c i.
Proof. unfold unrun. rewrite runs_set_proc. naive_solver. Qed.

Lemma curproc_runs k p : (k_mycpu k < length (k_cpus k))%nat → curproc k = Some p →
  runs k (k_mycpu k) p.
Proof.
  intros Hm Hc. unfold runs, curproc, this_cpu in *. rewrite list_lookup_fmap.
  destruct (lookup_lt_is_Some_2 _ _ Hm) as [x Hx]. rewrite Hx.
  rewrite (list_lookup_total_correct _ _ _ Hx) in Hc. simpl. by rewrite Hc.
Qed.

Ltac view_unrun :=
  change (st (unrun ?x)) with (st x); change (pid_of (unrun ?x)) with (pid_of x);
  change (k_ptable (unrun ?x)) with (k_ptable x);
  change (k_nextpid (unrun ?x)) with (k_nextpid x).

Section stop.
Context (flag : schedflag) (L : gset nat) (k : K) (p : nat).
Hypothesis Hk : kinv flag L k.
Hypothesis Hp : runs k (k_mycpu k) p.

Lemma stop_facts : (p < NPROC)%nat ∧ st k p = RUNNING ∧ (p ∉ L) ∧
  (∀ c, runs k c p → c = k_mycpu k).
Proof.
  destruct (ki_run _ _ _ Hk _ _ Hp) as [H1 H2]. repeat split; [done..| |].
  - intros HL. destruct (ki_lost _ _ _ Hk p HL) as [_ H3]. unfold st in *. congruence.
  - intros c Hc. by apply (ki_once _ _ _ Hk c (k_mycpu k) p).
Qed.

(** The process goes to sleep or becomes a zombie. *)
Lemma kinv_stop f :
  p_rrnext (f (proc_at k p)) = p_rrnext (proc_at k p) →
  p_rrprev (f (proc_at k p)) = p_rrprev (proc_at k p) →
  p_pid (f (proc_at k p)) = p_pid (proc_at k p) →
  p_state (f (proc_at k p)) = SLEEPING ∨ p_state (f (proc_at k p)) = ZOMBIE →
  kinv flag L (unrun (upd_proc p f k)).
Proof.
  intros Hn Hv Hpid Hs. destruct stop_facts as (Hlt & Hrun & HL & Hone).
  destruct Hk as [Hlen (q & Hr & Hq) Hlost Hrun' Honce Hrunning Hpids Hplt].
  assert (∀ j, st (upd_proc p f k) j = if decide (p = j) then p_state (f (proc_at k p)) else st k j) as Hst.
  { intros j. rewrite st_upd. repeat case_decide; naive_solver lia. }
  assert (∀ j, pid_of (upd_proc p f k) j = pid_of k j) as Hpd.
  { intros j. rewrite pid_upd. case_decide; naive_solver. }
  assert (∀ s, s = RUNNABLE ∨ s = RUNNING → p_state (f (proc_at k p)) ≠ s) as Hns
    by (intros s [-> | ->]; destruct Hs as [-> | ->]; done).
  split; view_unrun; [by rewrite length_upd_proc|..].
  - exists q. split.
    { apply (rr_repr_same (upd_proc p f k)); [|done..]. by apply rr_repr_upd_at. }
    intros Hu j Hj. rewrite Hst, Hq by done. case_decide; [subst j|done].
    split; [intros [? _]; congruence|]. intros [He _]. by apply Hns in He; [|left].
  - intros j Hj. rewrite Hst. case_decide; [subst; done|]. by apply Hlost.
  - intros c j [Hc Hcj]%runs_unrun. rewrite Hst. destruct (Hrun' c j Hcj) as [? Hrj].
    case_decide; [subst j; by apply Hone in Hcj|done].
  - intros c c' j [_ H1]%runs_unrun [_ H2]%runs_unrun. by apply (Honce c c' j).
  - intros j Hj. rewrite Hst. setoid_rewrite runs_unrun. case_decide as Hd.
    + intros He. by apply Hns in He; [|right].
    + intros Hjr. destruct (Hrunning j Hj Hjr) as [c Hc]. exists c. split; [|done].
      intros ->. simpl in *. unfold runs in Hc, Hp. naive_solver.
  - intros a b Ha Hb. rewrite !Hst, !Hpd. intros Hsa Hsb. apply Hpids; [done..| |];
      [destruct (decide (p = a)) as [<-|]|destruct (decide (p = b)) as [<-|]]; congruence.
  - intros a Ha. rewrite Hst, Hpd. intros Hsa. apply Hplt; [done|].
    destruct (decide (p = a)) as [<-|]; congruence.
Qed.

(** The process is made ready: [yield]. *)
Lemma kinv_yield : kinv flag L (unrun (made_ready flag p k)).
Proof.
  destruct stop_facts as (Hlt & Hrun & HL & Hone).
  destruct Hk as [Hlen (q & Hr & Hq) Hlost Hrun' Honce Hrunning Hpids Hplt].
  assert (∀ j, st (made_ready flag p k) j = if decide (p = j) then RUNNABLE else st k j) as Hst
    by (intros; apply made_ready_state; lia).
  pose proof (made_ready_pid flag p k) as Hpd. pose proof (made_ready_runs flag p k) as Hru.
  assert (k_mycpu (made_ready flag p k) = k_mycpu k) as Hmy by (apply made_ready_sync).
  split; view_unrun; [by rewrite made_ready_len|..].
  - destruct (uses_queue flag) eqn:Hu.
    + assert (p ∉ q) as Hpq by (intros Hin; apply (Hq eq_refl) in Hin as [? _]; [congruence|done]).
      exists (q ++ [p]). split.
      { apply (rr_repr_same (made_ready flag p k)); [|done..].
        pose proof (made_ready_repr flag p k q Hr Hpq) as Hrr. rewrite Hu in Hrr. apply Hrr. lia. }
      intros _ j Hj. rewrite elem_of_app, list_elem_of_singleton, Hst, Hq by done.
      case_decide; naive_solver.
    + exists q. split; [|done]. apply (rr_repr_same (made_ready flag p k)); [|done..].
      unfold made_ready, queued. rewrite Hu. by apply rr_repr_upd_at.
  - intros j Hj. rewrite Hst. case_decide; [subst; done|]. by apply Hlost.
  - intros c j [Hc Hcj]%runs_unrun. rewrite Hmy in Hc. apply Hru in Hcj. rewrite Hst.
    destruct (Hrun' c j Hcj) as [? Hrj]. case_decide; [subst j; by apply Hone in Hcj|done].
  - intros c c' j [_ H1]%runs_unrun [_ H2]%runs_unrun. apply Hru in H1, H2. by apply (Honce c c' j).
  - intros j Hj. rewrite Hst. setoid_rewrite runs_unrun. rewrite Hmy. setoid_rewrite Hru.
    case_decide as Hd; [done|].
    intros Hjr. destruct (Hrunning j Hj Hjr) as [c Hc]. exists c. split; [|done].
    intros ->. unfold runs in Hc, Hp. naive_solver.
  - intros a b Ha Hb. rewrite !Hst, !Hpd. intros Hsa Hsb. apply Hpids; [done..| |];
      [destruct (decide (p = a)) as [<-|]|destruct (decide (p = b)) as [<-|]]; congruence.
  - intros a Ha. rewrite Hst, Hpd. change (k_nextpid (unrun ?x)) with (k_nextpid x).
    rewrite made_ready_nextpid. intros Hsa. apply Hplt; [done|].
    destruct (decide (p = a)) as [<-|]; congruence.
Qed.
End stop.

(** ** Being chosen *)

(** [i] runs on this processor and has left the queue. *)
Definition dispatched flag (i : nat) (k : K) : K :=
  upd_proc i (set_p_state RUNNING)
    (if uses_queue flag then claimed i k else upd_cpu (set_c_proc (Some i)) k).

Lemma claimed_frame i k : rr_frame (upd_cpu (set_c_proc (Some i)) k) (claimed i k).
Proof. apply rr_remove_frame. Qed.

Lemma rr_frame_field {A} (f : proc → A) k k' i :
  (∀ p, f (unlinked p) = f p) → rr_frame k k' → f (proc_at k' i) = f (proc_at k i).
Proof. intros Hf Hk. by rewrite <-(Hf (proc_at k' i)), (rf_proc _ _ Hk), Hf. Qed.

Section dispatch.
Context (flag : schedflag) (L : gset nat) (k : K) (i : nat).
Hypothesis Hk : kinv flag L k.
Hypothesis Hi : (i < NPROC)%nat.
Hypothesis Hst : st k i = RUNNABLE.
Hypothesis HL : i ∉ L.
Hypothesis Hm : (k_mycpu k < length (k_cpus k))%nat.
Hypothesis Hcur : curproc k = None.

Let k1 : K := if uses_queue flag then claimed i k else upd_cpu (set_c_proc (Some i)) k.

Lemma dispatch_frame : rr_frame (upd_cpu (set_c_proc (Some i)) k) k1.
Proof. unfold k1. destruct (uses_queue flag); [apply claimed_frame|apply rr_frame_refl]. Qed.

Lemma dispatch_st j : st (dispatched flag i k) j = if decide (i = j) then RUNNING else st k j.
Proof.
  unfold dispatched. fold k1. rewrite st_upd, (rf_len _ _ dispatch_frame).
  change (k_ptable (upd_cpu ?f k)) with (k_ptable k). rewrite (ki_len _ _ _ Hk).
  unfold st at 1. rewrite (rr_frame_field p_state _ _ j (λ _, eq_refl) dispatch_frame).
  repeat case_decide; naive_solver.
Qed.

Lemma dispatch_pid j : pid_of (dispatched flag i k) j = pid_of k j.
Proof.
  unfold dispatched. fold k1. rewrite pid_upd. unfold pid_of.
  simpl. rewrite (rr_frame_field p_pid _ _ j (λ _, eq_refl) dispatch_frame). by case_decide.
Qed.

Lemma dispatch_runs c j :
  runs (dispatched flag i k) c j ↔ (c ≠ k_mycpu k ∧ runs k c j) ∨ (c = k_mycpu k ∧ i = j).
Proof.
  assert (runs (dispatched flag i k) c j ↔ runs (upd_cpu (set_c_proc (Some i)) k) c j) as ->.
  { unfold dispatched. fold k1. rewrite runs_upd_proc. unfold runs.
    by destruct (rf_sync _ _ dispatch_frame) as (-> & _). }
  rewrite runs_set_proc. naive_solver.
Qed.

Lemma kinv_dispatch : kinv flag L (dispatched flag i k).
Proof.
  destruct Hk as [Hlen (q & Hr & Hq) Hlost Hrun Honce Hrunning Hpids Hplt].
  assert (∀ c, ¬ runs k c i) as Hnot by (intros c Hc; destruct (Hrun c i Hc); congruence).
  assert (∀ j, ¬ runs k (k_mycpu k) j) as Hfree.
  { intros j Hj. unfold runs in Hj. rewrite list_lookup_fmap in Hj.
    unfold curproc, this_cpu in Hcur. destruct (k_cpus k !! k_mycpu k) as [x|] eqn:Hx; [|done].
    rewrite (list_lookup_total_correct _ _ _ Hx) in Hcur. simpl in Hj. congruence. }
  pose proof dispatch_st as Hs. pose proof dispatch_pid as Hp. pose proof dispatch_runs as Hru.
  split.
  - unfold dispatched. fold k1. rewrite length_upd_proc, (rf_len _ _ dispatch_frame). done.
  - unfold dispatched, k1 in *. destruct (uses_queue flag) eqn:Hu.
    + exists (filter (λ j, j ≠ i) q). split.
      { apply rr_repr_upd_at; [done..|]. apply rr_remove_filter.
        apply (rr_repr_same k); try done. }
      intros _ j Hj. rewrite list_elem_of_filter, Hq, Hs by done.
      repeat case_decide; naive_solver.
    + exists q. split; [|done]. apply rr_repr_upd_at; [done..|]. by apply (rr_repr_same k).
  - intros j Hj. rewrite Hs. case_decide; [by subst|by apply Hlost].
  - intros c j [[Hc Hcj]|[-> <-]]%Hru; rewrite Hs; [|by rewrite decide_True].
    destruct (Hrun c j Hcj). case_decide; [by subst; apply Hnot in Hcj|done].
  - intros c c' j [[Hc Hcj]|[-> <-]]%Hru [[Hc' Hcj']|[-> ?]]%Hru.
    + by apply (Honce c c' j).
    + subst. by apply Hnot in Hcj.
    + by apply Hnot in Hcj'.
    + done.
  - intros j Hj. rewrite Hs. setoid_rewrite Hru. case_decide; [subst; eauto|].
    intros Hjr. destruct (Hrunning j Hj Hjr) as [c Hc]. exists c. left.
    split; [|done]. intros ->. by apply Hfree in Hc.
  - intros a b Ha Hb. rewrite !Hs, !Hp. intros Hsa Hsb. apply Hpids; [done..| |];
      [destruct (decide (i = a)) as [<-|]|destruct (decide (i = b)) as [<-|]]; congruence.
  - intros a Ha. rewrite Hs, Hp. intros Hsa.
    assert (k_nextpid (dispatched flag i k) = k_nextpid k) as ->.
    { pose proof (rf_rest _ _ dispatch_frame) as He. unfold dispatched. fold k1.
      unfold rest in He. simpl in *. congruence. }
    apply Hplt; [done|]. destruct (decide (i = a)) as [<-|]; congruence.
Qed.
End dispatch.

(** ** Allocation *)

(** A slot gets the next pid and leaves the state UNUSED. *)
Lemma kinv_alloc flag L k i f :
  kinv flag L k → (i < NPROC)%nat → st k i = UNUSED → 0 < k_nextpid k →
  p_rrnext (f (proc_at k i)) = p_rrnext (proc_at k i) →
  p_rrprev (f (proc_at k i)) = p_rrprev (proc_at k i) →
  p_pid (f (proc_at k i)) = k_nextpid k → p_state (f (proc_at k i)) = EMBRYO →
  kinv flag L (set_k_nextpid (k_nextpid k + 1) (upd_proc i f k)).
Proof.
  intros [Hlen (q & Hr & Hq) Hlost Hrun Honce Hrunning Hpids Hplt] Hi Hs Hpos Hn Hv Hp He.
  set (k1 := set_k_nextpid _ _).
  assert (∀ j, st k1 j = if decide (i = j) then EMBRYO else st k j) as Hst.
  { intros j. change (st k1 j) with (st (upd_proc i f k) j). rewrite st_upd.
    repeat case_decide; naive_solver lia. }
  assert (∀ j, pid_of k1 j = if decide (i = j) then k_nextpid k else pid_of k j) as Hpd.
  { intros j. change (pid_of k1 j) with (pid_of (upd_proc i f k) j). rewrite pid_upd.
    repeat case_decide; naive_solver lia. }
  assert (∀ j s, idle_state s = false → st k1 j = s ↔ st k j = s) as Hst'.
  { intros j s Hid. rewrite Hst. case_decide; [subst j; rewrite Hs|done]. by destruct s. }
  split; [simpl; by rewrite length_alter|..].
  - exists q. split; [|intros Hu j Hj; rewrite Hst' by done; by apply Hq].
    apply (rr_repr_same (upd_proc i f k)); [|done..]. by apply rr_repr_upd_at.
  - intros j Hj. rewrite Hst' by done. by apply Hlost.
  - intros c j Hc. rewrite Hst' by done. by apply (Hrun c).
  - exact Honce.
  - intros j Hj. rewrite Hst' by done. by apply Hrunning.
  - intros a b Ha Hb. rewrite !Hst, !Hpd. intros Hsa Hsb Hab.
    repeat case_decide; subst; try done.
    + pose proof (Hplt b Hb Hsb). lia.
    + pose proof (Hplt a Ha Hsa). lia.
    + by apply Hpids.
  - intros a Ha. rewrite Hst, Hpd. change (k_nextpid k1) with (k_nextpid k + 1).
    case_decide; [lia|]. intros Hsa. pose proof (Hplt a Ha Hsa). lia.
Qed.

(** ** The lottery *)

Lemma live_all flag L k q :
  rr_repr k q →
  (∀ i, (i < length (k_ptable k))%nat → i ∈ q ↔ st k i = RUNNABLE ∧ i ∉ L) →
  live flag k q = q.
Proof.
  intros Hr Hq. assert (∀ i, i ∈ q → runnable k i) as Hall.
  { intros i Hi. apply Hq in Hi as [? _]; [done|]. by apply (rr_bound _ _ Hr). }
  destruct flag; simpl; [done| | |by apply list_filter_id].
  - destruct q as [|h t]; [done|]. f_equal. apply list_filter_id. intros i Hi. apply Hall. by right.
  - destruct q as [|h t]; [done|]. f_equal. apply list_filter_id. intros i Hi. apply Hall. by right.
Qed.

Lemma kinv_drawn flag L k q :
  kinv flag L k → rr_repr k q → uses_queue flag = true →
  (∀ i, (i < NPROC)%nat → i ∈ q ↔ st k i = RUNNABLE ∧ i ∉ L) →
  kinv flag L (drawn_state flag q k) ∧ rr_repr (drawn_state flag q k) q ∧
  (∀ i, st (drawn_state flag q k) i = st k i).
Proof.
  intros Hk Hr Hu Hq.
  destruct (lottery_round_spec flag q k Hu Hr) as (Hr1 & _ & _ & Hf);
    [by rewrite (ki_len _ _ _ Hk)|].
  rewrite (live_all flag L k q) in Hr1 by (done || by rewrite (ki_len _ _ _ Hk)).
  set (k1 := lottery_round flag q k) in *.
  assert (∀ i, st k1 i = st k i) as Hst.
  { intros i. by apply (lt_frame_field p_state). }
  assert (∀ i, pid_of k1 i = pid_of k i) as Hpid.
  { intros i. by apply (lt_frame_field p_pid). }
  assert (same_view k1 (drawn_state flag q k)) as Hv
    by (unfold drawn_state, after_pick; by case_decide).
  assert (kinv flag L k1) as Hk1.
  { destruct Hk as [Hlen _ Hlost Hrun Honce Hrunning Hpids Hplt].
    assert (∀ c i, runs k1 c i ↔ runs k c i) as Hru
      by (intros; unfold runs; by destruct (lf_sync _ _ Hf) as (-> & _)).
    assert (k_nextpid k1 = k_nextpid k) as Hnp
      by (pose proof (lf_rest _ _ Hf) as He; unfold rest in He; simpl in He; congruence).
    split; [by rewrite (lf_len _ _ Hf)|..]; try setoid_rewrite Hst; try setoid_rewrite Hru;
      try setoid_rewrite Hpid; rewrite ?Hnp; try done. by exists q. }
  split; [by eapply kinv_view|]. split.
  - unfold drawn_state, after_pick. fold k1. case_decide; [|done]. by apply (rr_repr_same k1).
  - intros i. rewrite <-Hst. unfold st, proc_at. by rewrite (sv_ptable _ _ Hv).
Qed.
End inv.
