(* ===== verification/KMachine.v ===== *)
(** * The kernel as a machine

    Steps of the process subsystem on any of the processors, each the run of a
    routine of Proc.v between two moments at which no processor is inside a
    critical section of [ptable.lock], [rrqueue.lock] or [tickslock].  A
    routine that gives up the processor is run up to its [swtch] (with [block]
    for it), and the scheduler's side continues from there.  The main theorems:
    the invariant [kinv] of ProcInv.v holds in every reachable state, and a
    sleeping process that is sent a signal under a queue policy never runs
    again. *)

From stdpp Require Import base list gmap strings.
From Stdlib Require Import ZArith Lia.
From S2P Require Import Prelude KState Spinlock RRQueue Lottery CString Proc ProcForms ProcInv.

Section machine.
Context {V : Type}.
Abbreviation K := (core V).
Implicit Types (k : K) (flag : schedflag) (L : gset nat).

(** ** Between critical sections, and inside one of [ptable.lock] *)

Record quiet k : Prop := {
  qu_pt : lock_idle PtableLock k;
  qu_rr : lock_idle RRLock k;
  qu_ticks : lock_idle TicksLock k;
  qu_ncli : ∀ c x, k_cpus k !! c = Some x → c_ncli x = 0
}.

Record held k : Prop := {
  he_my : (k_mycpu k < length (k_cpus k))%nat;
  he_pt : k_locks k !! PtableLock = Some (Lock 1 (Some (k_mycpu k)));
  he_rr : lock_idle RRLock k;
  he_ticks : lock_idle TicksLock k;
  he_ncli : ∀ c x, k_cpus k !! c = Some x → c_ncli x = if decide (c = k_mycpu k) then 1 else 0;
  he_if : Z.land (c_eflags (this_cpu k)) FL_IF = 0
}.

Lemma this_cpu_lookup k : (k_mycpu k < length (k_cpus k))%nat →
  k_cpus k !! k_mycpu k = Some (this_cpu k).
Proof. intros Hm. unfold this_cpu. by apply list_lookup_lookup_total_lt. Qed.

Lemma quiet_outside c k : quiet k → (c < length (k_cpus k))%nat → outside (on c k).
Proof.
  intros [H1 H2 H3 Hn] Hc.
  assert (c_ncli (this_cpu (on c k)) = 0) as H0.
  { apply (Hn c). by apply (this_cpu_lookup (on c k)). }
  split; try done. split; [split; [done|split; [lia|lia]]|lia].
Qed.

Lemma quiet_sync c k k' : quiet k → same_sync (on c k) k' → quiet k'.
Proof.
  intros [H1 H2 H3 Hn] (E1 & E2 & E3). unfold lock_idle in *. simpl in *.
  split; unfold lock_idle; rewrite ?E3, ?E1; done.
Qed.

Lemma held_acquired c k k' :
  quiet k → (c < length (k_cpus k))%nat → same_sync (on c k) k' → held (acquired PtableLock k').
Proof.
  intros Hq Hc Hs. pose proof (quiet_sync c k k' Hq Hs) as [H1 H2 H3 Hn].
  destruct Hs as (E1 & E2 & E3). simpl in *.
  assert (k_mycpu k' < length (k_cpus k'))%nat as Hm by (rewrite E2, E1; done).
  split.
  - simpl. by rewrite length_alter.
  - simpl. by rewrite lookup_insert_eq.
  - by apply lock_idle_acquired.
  - by apply lock_idle_acquired.
  - simpl. intros c' x. rewrite list_lookup_alter. case_decide as Hd.
    + subst c'. rewrite decide_True by done. destruct (k_cpus k' !! k_mycpu k') as [y|] eqn:Hy; [|done].
      intros [= <-]. simpl. rewrite (Hn _ _ Hy). done.
    + rewrite decide_False by done. apply Hn.
  - unfold acquired. change (this_cpu (set_k_locks ?l ?x)) with (this_cpu x).
    rewrite this_cpu_upd_cpu by done. apply ldiff_IF.
Qed.

Lemma held_wf k : held k → cpu_wf k ∧ c_ncli (this_cpu k) = 1 ∧ holding PtableLock k = true.
Proof.
  intros [Hm Hp _ _ Hn Hi].
  assert (c_ncli (this_cpu k) = 1) as H1.
  { rewrite (Hn _ _ (this_cpu_lookup k Hm)). by rewrite decide_True. }
  split; [split; [done|split; [lia|done]]|]. split; [done|].
  unfold holding, lock_of. rewrite (lookup_total_correct _ _ _ Hp). simpl.
  by rewrite bool_decide_eq_true_2.
Qed.

Lemma held_release k :
  held k → ∃ k', release PtableLock k = Ret tt k' ∧ quiet k' ∧ same_view k k' ∧
    length (k_cpus k') = length (k_cpus k).
Proof.
  intros Hk. destruct (held_wf k Hk) as (Hwf & H1 & Hh). destruct Hk as [Hm Hp Hr Ht Hn Hi].
  exists (released PtableLock k). rewrite release_held by (done || lia). split; [done|].
  split; [|split; [apply view_released|simpl; by rewrite length_alter]].
  split; unfold lock_idle; simpl; [by rewrite lookup_insert_eq|by rewrite lookup_insert_ne..|].
  intros c x. rewrite list_lookup_alter. case_decide as Hd.
  - subst c. rewrite (this_cpu_lookup k Hm). intros [= <-]. simpl. lia.
  - intros Hx. rewrite (Hn c x Hx), decide_False by done. done.
Qed.

Lemma held_upd_cpu f k :
  (∀ c, c_ncli (f c) = c_ncli c ∧ c_eflags (f c) = c_eflags c) → held k → held (upd_cpu f k).
Proof.
  intros Hf [Hm Hp Hr Ht Hn Hi]. split; simpl; try done.
  - by rewrite length_alter.
  - intros c x. rewrite list_lookup_alter. case_decide as Hd; [|apply Hn].
    subst c. rewrite (this_cpu_lookup k Hm). intros [= <-].
    destruct (Hf (this_cpu k)) as [-> _]. apply Hn. by apply this_cpu_lookup.
  - rewrite this_cpu_upd_cpu by done. by destruct (Hf (this_cpu k)) as [_ ->].
Qed.

Lemma held_sync k k' : same_sync k k' → held k → held k'.
Proof.
  intros (E1 & E2 & E3) [Hm Hp Hr Ht Hn Hi]. unfold lock_idle in *.
  split; unfold lock_idle, this_cpu; rewrite ?E1, ?E2, ?E3; try done.
Qed.

(** ** The services

    What the machine needs of them: they may change their own state and the
    [intena] of this processor, and nothing else the process subsystem reads. *)

Record ext_change k k' : Prop := {
  ec_view : same_view k k';
  ec_my : k_mycpu k' = k_mycpu k;
  ec_cpus : set_c_intena 0 <$> k_cpus k' = set_c_intena 0 <$> k_cpus k;
  ec_pt : k_locks k' !! PtableLock = k_locks k !! PtableLock;
  ec_rr : k_locks k' !! RRLock = k_locks k !! RRLock;
  ec_ticks : k_locks k' !! TicksLock = k_locks k !! TicksLock
}.

Lemma ext_cpus k k' c x' :
  ext_change k k' → k_cpus k' !! c = Some x' →
  ∃ x, k_cpus k !! c = Some x ∧ c_ncli x' = c_ncli x ∧ c_eflags x' = c_eflags x.
Proof.
  intros [_ _ He _ _ _] Hx'.
  assert ((set_c_intena 0 <$> k_cpus k') !! c = (set_c_intena 0 <$> k_cpus k) !! c) as Hc by by rewrite He.
  rewrite !list_lookup_fmap, Hx' in Hc. destruct (k_cpus k !! c) as [x|]; [|done].
  exists x. split; [done|]. simpl in Hc. injection Hc. done.
Qed.

Lemma ext_length k k' : ext_change k k' → length (k_cpus k') = length (k_cpus k).
Proof.
  intros [_ _ He _ _ _]. apply (f_equal length) in He. by rewrite !length_fmap in He.
Qed.

Lemma ext_quiet k k' : ext_change k k' → quiet k → quiet k'.
Proof.
  intros He [H1 H2 H3 Hn]. pose proof (ext_cpus k k') as Hc. destruct He as [Hv Hm Hcp Hp Hr Ht].
  unfold lock_idle in *. split; unfold lock_idle; rewrite ?Hp, ?Hr, ?Ht; try done.
  intros c x' Hx'. destruct (Hc c x') as (x & Hx & -> & _); [done..|]. by apply (Hn c).
Qed.

Lemma ext_held k k' : ext_change k k' → held k → held k'.
Proof.
  intros He [Hmy Hpt Hrr Htk Hn Hi]. pose proof (ext_cpus k k') as Hc.
  pose proof (ext_length _ _ He) as Hl. pose proof He as [Hv Hm Hcp Hp Hr Ht].
  assert (k_mycpu k' < length (k_cpus k'))%nat as Hmy' by (by rewrite Hm, Hl).
  unfold lock_idle in *. split; unfold lock_idle; rewrite ?Hp, ?Hr, ?Ht, ?Hm; try done.
  - by rewrite Hl.
  - intros c x' Hx'. destruct (Hc c x') as (x & Hx & -> & _); [done..|]. by apply (Hn c).
  - destruct (Hc (k_mycpu k') (this_cpu k')) as (x & Hx & _ & ->);
      [done|by apply this_cpu_lookup|].
    rewrite Hm, (this_cpu_lookup k Hmy) in Hx. by injection Hx as <-.
Qed.

(** No critical section, on a processor that exists. *)
Definition idle k : Prop := quiet k ∧ (k_mycpu k < length (k_cpus k))%nat.

Lemma idle_nest k : idle k → nest_ok 5 k.
Proof.
  intros [[_ _ _ Hn] Hm]. unfold nest_ok, cpu_wf. rewrite (Hn _ _ (this_cpu_lookup k Hm)). split; [|lia]. split; [done|]. split; lia.
Qed.

Lemma held_nest k : held k → nest_ok 5 k.
Proof. intros Hk. destruct (held_wf k Hk) as (Hwf & Hn & _). split; [done|]. rewrite Hn. lia. Qed.

(** A call that returns has only changed the state of the services.  It is made on
    a processor whose interrupts are off while it holds a lock, and which can take
    a few more. *)
Definition harmless {A} (m : M K A) : Prop :=
  ∀ k a k', nest_ok 5 k → m k = Ret a k' → ext_change k k'.

(** Moreover it never waits. *)
Definition prompt {A} (m : M K A) : Prop := ∀ k k', m k ≠ Blocked k'.

End machine.

Class ServicesOk (V : Type) {SV : Services V} : Prop := {
  kalloc_ok : harmless svc_kalloc;
  kfree_ok : ∀ a, harmless (svc_kfree a);
  freevm_ok : ∀ a, harmless (svc_freevm a);
  switchuvm_ok : ∀ p, harmless (svc_switchuvm p) ∧ prompt (svc_switchuvm p);
  switchkvm_ok : harmless svc_switchkvm
}.

Section steps.
Context {V : Type} {SV : Services V}.
Abbreviation K := (core V).
Implicit Types (k : K) (L : gset nat).
Context (flag : schedflag).

(** The scheduler's side after a process has switched to it. *)
Definition sched_return : M K unit :=
  svc_switchkvm ;; set_proc None ;; release PtableLock.

(** What the chosen process does first: the end of [yield], of [sleep] up to the
    release of [ptable.lock], or of [forkret]. *)
Inductive resumes : M K unit → Prop :=
  | resumes_yield intena : resumes (resume intena)
  | resumes_sleep intena :
      resumes (modify (upd_cpu (set_c_intena intena)) ;; p ← myproc;
               assign p (set_p_chan ChNull) ;; release PtableLock)
  | resumes_fork : resumes (release PtableLock).

(** What [wait] and [wait_stat] do with a zombie child. *)
Definition wait_found (i : nat) : M K unit :=
  reap i ;; assign i (set_p_runQuanta 0) ;; assign i (set_p_rutime 0).
Definition wait_stat_found (store_perf : perf → M K unit) (i : nat) : M K unit :=
  p ← gets (λ k, proc_at k i);
  store_perf (Perf (p_ctime p) (p_ttime p) (p_stime p) (p_retime p) (p_rutime p)) ;;
  reap i.

(** A change to a process by its owner: not its state, its pid or its links. *)
Definition private (f : proc → proc) : Prop :=
  ∀ p, p_rrnext (f p) = p_rrnext p ∧ p_rrprev (f p) = p_rrprev p ∧
       p_state (f p) = p_state p ∧ p_pid (f p) = p_pid p.

Inductive kstep : K → K → Prop :=
  (** process [p] on processor [c] *)
  | ks_yield c p k k1 k2 :
      (c < length (k_cpus k))%nat → curproc (on c k) = Some p →
      yield flag block (on c k) = Blocked k1 → sched_return k1 = Ret tt k2 → kstep k k2
  | ks_sleep c p lk chan k k1 k2 :
      (c < length (k_cpus k))%nat → curproc (on c k) = Some p → lock_idle lk k →
      (acquire lk ;; sleep block chan (Some lk)) (on c k) = Blocked k1 →
      sched_return k1 = Ret tt k2 → kstep k k2
  | ks_exit c p k k1 k2 :
      (c < length (k_cpus k))%nat → curproc (on c k) = Some p →
      (acquire PtableLock ;; exit_zombie flag p ;; sched block) (on c k) = Blocked k1 →
      sched_return k1 = Ret tt k2 → kstep k k2
  | ks_alloc c k r k' :
      (c < length (k_cpus k))%nat → 0 < k_nextpid k < 2 ^ 31 - 1 →
      allocproc (on c k) = Ret r k' → kstep k k'
  | ks_ready c i k k' :
      (c < length (k_cpus k))%nat → (i < NPROC)%nat → st k i = EMBRYO →
      locked PtableLock (fork_ready flag i) (on c k) = Ret tt k' → kstep k k'
  | ks_abandon i k :
      st k i = EMBRYO → kstep k (upd_proc i (set_p_state UNUSED) k)
  | ks_reap c k v k' :
      (c < length (k_cpus k))%nat →
      locked PtableLock (wait_pass wait_found) (on c k) = Ret (Some v) k' → kstep k k'
  | ks_reap_stat c store k v k' :
      (c < length (k_cpus k))%nat → (∀ s, harmless (store s)) →
      locked PtableLock (wait_pass (wait_stat_found store)) (on c k) = Ret (Some v) k' →
      kstep k k'
  | ks_private i f k : private f → kstep k (upd_proc i f k)
  (** any processor *)
  | ks_wakeup c chan k k' :
      (c < length (k_cpus k))%nat → wakeup flag chan (on c k) = Ret tt k' → kstep k k'
  | ks_kill c pid k r k' :
      (c < length (k_cpus k))%nat → kill flag pid (on c k) = Ret r k' → kstep k k'
  | ks_tick c k k' :
      (c < length (k_cpus k))%nat → advanceprocstats (on c k) = Ret tt k' → kstep k k'
  | ks_ext k k' : ext_change k k' → kstep k k'
  (** the scheduler of processor [c] *)
  | ks_dispatch c k k1 m k2 :
      (c < length (k_cpus k))%nat → curproc (on c k) = None → uses_queue flag = true →
      scheduler_turn flag block (on c k) = Blocked k1 →
      resumes m → m k1 = Ret tt k2 → kstep k k2
  | ks_dispatch_default c i k k1 m k2 :
      (c < length (k_cpus k))%nat → curproc (on c k) = None → uses_queue flag = false →
      (i < NPROC)%nat →
      (sti ;; acquire PtableLock ;; sched_default_slot block i) (on c k) = Blocked k1 →
      resumes m → m k1 = Ret tt k2 → kstep k k2
  | ks_idle c k k' :
      (c < length (k_cpus k))%nat → curproc (on c k) = None → uses_queue flag = true →
      scheduler_turn flag block (on c k) = Ret tt k' → kstep k k'.

(** [sigsend], kept apart from the other steps. *)
Inductive sigstep : K → K → Prop :=
  | ss_sigsend c pid signum k r k' :
      (c < length (k_cpus k))%nat → sigsend pid signum (on c k) = Ret r k' → sigstep k k'.

(** ** Partial correctness *)

Definition triple {A} (P : K → Prop) (m : M K A) (Q : A → K → Prop) : Prop :=
  ∀ k a k', P k → m k = Ret a k' → Q a k'.

Lemma triple_bind {A B} P (m : M K A) Q (f : A → M K B) R :
  triple P m Q → (∀ a, triple (Q a) (f a) R) → triple P (m ≫= f) R.
Proof. intros Hm Hf k b k' HP Hk. apply bind_Ret_inv in Hk as (a & k1 & H1 & H2). eapply Hf; eauto. Qed.

(** [R] and the invariant, and process [i] in state [s]. *)
Definition safe (R : K → Prop) L (i : nat) (s : procstate) k : Prop :=
  R k ∧ kinv flag L k ∧ st k i = s.

(** The two conditions on the locks are kept by the services and by changes to
    the process table. *)
Definition stable (R : K → Prop) : Prop :=
  (∀ k k', ext_change k k' → R k → R k') ∧ (∀ k k', same_sync k k' → R k → R k') ∧ (∀ k, R k → nest_ok 5 k).

Lemma stable_held : stable held.
Proof. split; [by apply ext_held|]. split; [by apply held_sync|apply held_nest]. Qed.

Lemma quiet_same k k' : same_sync k k' → quiet k → quiet k'.
Proof. intros (H1 & H2 & H3) Hq. by apply (quiet_sync (k_mycpu k) k). Qed.

Lemma stable_idle : stable idle.
Proof.
  split; [|split; [|apply idle_nest]].
  - intros k k' He [Hq Hm]. split; [by eapply ext_quiet|]. by rewrite (ext_length _ _ He), (ec_my _ _ He).
  - intros k k' Hs [Hq Hm]. split; [by eapply quiet_same|]. destruct Hs as (H1 & H2 & _). by rewrite H1, H2.
Qed.

Lemma st_view k k' i : same_view k k' → st k' i = st k i.
Proof. intros Hv. unfold st, proc_at. by rewrite (sv_ptable _ _ Hv). Qed.

Section triples.
Context (R : K → Prop) (L : gset nat) (i : nat) (s : procstate).
Hypothesis HR : stable R.

Lemma triple_harmless {A} (m : M K A) :
  harmless m → triple (safe R L i s) m (λ _, safe R L i s).
Proof.
  intros Hm k a k' (H1 & H2 & H3) Hk. apply Hm in Hk; [|by apply HR]. split; [by apply (proj1 HR k)|].
  split; [eapply kinv_view; [apply Hk|done]|]. rewrite <-H3. apply st_view, Hk.
Qed.

Lemma triple_gets {A} (f : K → A) : triple (safe R L i s) (gets f) (λ _, safe R L i s).
Proof. intros k a k' Hk [= _ <-]. done. Qed.

Lemma triple_ret {A} (a : A) : triple (safe R L i s) (mret a) (λ _, safe R L i s).
Proof. intros k b k' Hk [= _ <-]. done. Qed.

(** A change of process [i] that the invariant allows. *)
Lemma triple_assign f s' :
  (∀ p, p_state p = s → keeps p (f p) ∧ p_state (f p) = s') → (i < NPROC)%nat →
  triple (safe R L i s) (assign i f) (λ _, safe R L i s').
Proof.
  intros Hf Hi k a k' (H1 & H2 & H3) [= _ <-]. destruct (Hf (proc_at k i) H3) as [Hkeep Hs].
  split; [by apply (proj1 (proj2 HR) k)|]. split; [by apply kinv_keeps|].
  rewrite st_upd, decide_True; [done|]. by rewrite (ki_len _ _ _ H2).
Qed.

Lemma triple_modify g :
  (∀ k, same_view k (g k) ∧ same_sync k (g k)) →
  triple (safe R L i s) (modify g) (λ _, safe R L i s).
Proof.
  intros Hg k a k' (H1 & H2 & H3) [= _ <-]. destruct (Hg k) as [Hv Hs].
  split; [by apply (proj1 (proj2 HR) k)|]. split; [by eapply kinv_view|]. rewrite <-H3. by apply st_view.
Qed.
End triples.

(** ** Giving up the processor *)

Context {OK : ServicesOk V}.

Definition good L k : Prop := quiet k ∧ kinv flag L k.

Lemma unrun_view k k' : same_view k k' → k_mycpu k' = k_mycpu k → same_view (unrun k) (unrun k').
Proof.
  intros [H1 H2 H3 H4 H5] Hm. split; try done. simpl. rewrite Hm.
  assert (∀ l : list cpu, ∀ n, c_proc <$> alter (set_c_proc None) n l =
    alter (λ _, None) n (c_proc <$> l)) as Ha.
  { intros l n. apply list_eq. intros j. rewrite list_lookup_fmap, !list_lookup_alter, !list_lookup_fmap.
    case_decide; [|done]. by destruct (l !! _). }
  by rewrite !Ha, H5.
Qed.

Lemma sched_return_good L k1 k2 :
  held k1 → kinv flag L (unrun k1) → sched_return k1 = Ret tt k2 → good L k2.
Proof.
  intros Hh Hi Hs. unfold sched_return in Hs.
  apply bind_Ret_inv in Hs as ([] & k1' & H1 & H2). apply switchkvm_ok in H1; [|by apply held_nest].
  assert (held k1') as Hh1 by (by eapply ext_held).
  rewrite (bind_Ret _ _ tt k1' (unrun k1')) in H2 by done.
  destruct (held_release (unrun k1')) as (k' & Hr & Hq & Hv & _); [by apply held_upd_cpu|].
  rewrite Hr in H2. injection H2 as <-. split; [done|].
  eapply kinv_view; [exact Hv|]. eapply kinv_view; [|exact Hi].
  apply unrun_view; [apply H1|apply H1].
Qed.

Section out.
Context (L : gset nat) (c p : nat) (k : K).
Hypothesis Hg : good L k.
Hypothesis Hc : (c < length (k_cpus k))%nat.
Hypothesis Hp : curproc (on c k) = Some p.

Lemma out_facts :
  outside (on c k) ∧ kinv flag L (on c k) ∧ runs (on c k) (k_mycpu (on c k)) p ∧
  (p < length (k_ptable (on c k)))%nat.
Proof.
  destruct Hg as [Hq Hk]. assert (kinv flag L (on c k)) as Hk' by (eapply kinv_view; [apply view_on|done]).
  pose proof (curproc_runs (on c k) p Hc Hp) as Hr.
  split; [by apply quiet_outside|]. split; [done|]. split; [done|].
  rewrite (ki_len _ _ _ Hk'). by apply (ki_run _ _ _ Hk' _ _ Hr).
Qed.

(** The switch is made in a state that differs from [f (on c k)] by the lock. *)
Lemma out_good (k1 k' : K) k2 :
  tame (on c k) k1 → kinv flag L (unrun k1) → k' = acquired PtableLock k1 →
  sched_return k' = Ret tt k2 → good L k2.
Proof.
  intros [Ht _] Hi -> Hs. destruct Hg as [Hq _]. eapply sched_return_good; [|..|exact Hs].
  - by eapply held_acquired.
  - eapply kinv_view; [|exact Hi]. apply unrun_view; [apply view_acquired|done].
Qed.

Lemma step_yield_good k1 k2 :
  yield flag block (on c k) = Blocked k1 → sched_return k1 = Ret tt k2 → good L k2.
Proof.
  destruct out_facts as (Ho & Hk & Hr & Hlt). intros Hy.
  destruct (yield_ret flag block p (on c k) Ho Hp Hlt) as [He _]. rewrite He in Hy.
  injection Hy as <-. intros Hs. eapply out_good; [apply made_ready_tame| |done|exact Hs].
  by apply kinv_yield.
Qed.

Lemma step_sleep_good chan lk k1 k2 :
  lock_idle lk k →
  (acquire lk ;; sleep block chan (Some lk)) (on c k) = Blocked k1 →
  sched_return k1 = Ret tt k2 → good L k2.
Proof.
  destruct out_facts as (Ho & Hk & Hr & Hlt). intros Hl Hy.
  rewrite (bind_Ret _ _ tt _ (acquired lk (on c k))) in Hy by (by apply acquire_outside).
  destruct (sleep_ret block chan lk p (on c k) Ho Hl Hp Hlt) as [He _]. rewrite He in Hy.
  injection Hy as <-. intros Hs. eapply out_good; [apply put_to_sleep_tame| |done|exact Hs].
  unfold put_to_sleep. rewrite upd_proc_compose. apply kinv_stop; try done. by left.
Qed.

Lemma kinv_woken_adopted (x : K) :
  kinv flag L x →
  kinv flag L (foldl (adopted1 flag p) (woken flag (chan_of (p_parent (proc_at x p))) x)
    (slots (woken flag (chan_of (p_parent (proc_at x p))) x))).
Proof.
  intros Hx. set (k1 := woken flag _ x).
  assert (kinv flag L k1) as Hk1 by (by apply kinv_woken).
  apply kinv_foldl; [intros; by apply kinv_adopted1|done|].
  intros i Hi. by eapply slots_lt.
Qed.

Lemma step_exit_good k1 k2 :
  (acquire PtableLock ;; exit_zombie flag p ;; sched block) (on c k) = Blocked k1 →
  sched_return k1 = Ret tt k2 → good L k2.
Proof.
  destruct out_facts as (Ho & Hk & Hr & Hlt). intros Hy.
  destruct (exit_ret flag block p (on c k) Ho Hp Hlt) as [He _]. rewrite He in Hy.
  injection Hy as <-. intros Hs. eapply out_good; [apply zombified_tame| |done|exact Hs].
  pose proof (kinv_woken_adopted (on c k) Hk) as Hk2.
  unfold zombified. set (k2' := foldl _ _ _) in *. rewrite upd_proc_compose.
  assert (k_mycpu k2' = k_mycpu (on c k) ∧ k_cpus k2' = k_cpus (on c k)) as [Hm Hcp].
  { assert (tame (on c k) k2') as [(? & ? & _) _]; [|done].
    eapply tame_trans; [split; [apply woken_sync|apply woken_len]|].
    apply foldl_tame. intros. apply adopted1_tame. }
  apply kinv_stop; try done; [|by right].
  unfold runs. by rewrite Hm, Hcp.
Qed.
End out.

(** ** The critical sections *)

Section inside.
Context (L : gset nat) (c : nat) (k : K).
Hypothesis Hg : good L k.
Hypothesis Hc : (c < length (k_cpus k))%nat.

Lemma in_facts : outside (on c k) ∧ kinv flag L (on c k).
Proof.
  destruct Hg as [Hq Hk]. split; [by apply quiet_outside|]. eapply kinv_view; [apply view_on|done].
Qed.

Lemma settle_good (k' : K) :
  same_sync (on c k) k' → kinv flag L k' → good L (settle k').
Proof.
  intros Hs Hk. destruct Hg as [Hq _]. split; [|eapply kinv_view; [apply view_settle|done]].
  pose proof (quiet_sync c k k' Hq Hs) as [H1 H2 H3 Hn]. split; try done.
  intros c' x. unfold settle, upd_cpu; simpl. rewrite list_lookup_alter.
  case_decide; [|apply Hn]. destruct (k_cpus k' !! _) as [y|] eqn:Hy; [|done].
  intros [= <-]. case_decide; simpl; by apply (Hn _ _ Hy).
Qed.

Lemma step_wakeup_good chan k' : wakeup flag chan (on c k) = Ret tt k' → good L k'.
Proof.
  destruct in_facts as [Ho Hk]. rewrite wakeup_ret by done. intros [= <-].
  apply settle_good; [apply woken_sync|by apply kinv_woken].
Qed.

Lemma killed_sync i (x : K) : same_sync x (killed_at flag i x).
Proof.
  unfold killed_at. case_bool_decide; [|done].
  eapply same_sync_trans; [|apply made_ready_sync]. done.
Qed.

Lemma step_kill_good pid r k' : kill flag pid (on c k) = Ret r k' → good L k'.
Proof.
  destruct in_facts as [Ho Hk]. rewrite kill_ret by done.
  destruct (first_slot (has_pid pid) (on c k)) as [i|] eqn:Hf; intros [= _ <-].
  - apply first_slot_Some in Hf as [Hi _]. rewrite (ki_len _ _ _ Hk) in Hi.
    apply settle_good; [apply killed_sync|by apply kinv_killed].
  - by apply settle_good.
Qed.

Lemma step_ready_good i k' :
  (i < NPROC)%nat → st k i = EMBRYO →
  locked PtableLock (fork_ready flag i) (on c k) = Ret tt k' → good L k'.
Proof.
  destruct in_facts as [Ho Hk]. intros Hi Hs.
  rewrite (ptable_section _ tt (on c k) (made_ready flag i (on c k))); [|done|apply made_ready_sync|].
  - intros [= <-]. apply settle_good; [apply made_ready_sync|].
    apply kinv_ready; [done..| |]; change (st (on c k) i) with (st k i); by rewrite Hs.
  - unfold fork_ready. rewrite make_ready_ret by (by apply outside_inside).
    by rewrite made_ready_acquired.
Qed.
End inside.

(** ** Allocation and reaping *)

Ltac keeps_tac := intros; split; [split; try done; auto|done].

Lemma alloc_stack_triple R L p kstack :
  stable R → (p < NPROC)%nat →
  triple (safe R L p EMBRYO) (alloc_stack p kstack) (λ _, safe R L p EMBRYO).
Proof.
  intros HR Hp. unfold alloc_stack.
  eapply triple_bind; [apply triple_assign; [done|keeps_tac|done]|intros ?].
  eapply triple_bind; [by apply triple_modify|intros ?].
  eapply triple_bind; [apply triple_assign; [done|keeps_tac|done]|intros ?].
  eapply triple_bind; [by apply triple_modify|intros ?].
  by apply triple_modify.
Qed.

Lemma alloc_rest_triple L p :
  (p < NPROC)%nat →
  triple (safe idle L p EMBRYO)
    (kstack ← svc_kalloc;
     assign p (set_p_kstack kstack) ;;
     if decide (kstack = 0) then assign p (set_p_state UNUSED) ;; mret None
     else alloc_stack p kstack ;; mret (Some p))
    (λ _ k', good L k').
Proof.
  intros Hp. pose proof stable_idle as HR.
  eapply triple_bind; [apply triple_harmless; [done|apply kalloc_ok]|intros kstack].
  eapply triple_bind; [apply triple_assign; [done|keeps_tac|done]|intros ?].
  case_decide.
  - eapply triple_bind; [apply (triple_assign idle L p EMBRYO HR _ UNUSED); [|done]|].
    + intros x Hx. split; [split; [done..|done|right; by rewrite Hx]|done].
    + intros ? k b k' ([H1 _] & H2 & _) [= _ <-]. by split.
  - eapply triple_bind; [by apply alloc_stack_triple|].
    intros ? k b k' ([H1 _] & H2 & _) [= _ <-]. by split.
Qed.

Lemma step_alloc_good L c k r k' :
  good L k → (c < length (k_cpus k))%nat → 0 < k_nextpid k < 2 ^ 31 - 1 →
  allocproc (on c k) = Ret r k' → good L k'.
Proof.
  intros Hg Hc Hn Ha. destruct (in_facts L c k Hg Hc) as [Ho Hk]. unfold allocproc in Ha.
  apply bind_Ret_inv in Ha as (found & k1 & H1 & H2). rewrite alloc_slot_locked in H1 by done.
  destruct (first_slot is_unused (on c k)) as [p|] eqn:Hf; injection H1 as <- <-.
  - apply first_slot_Some in Hf as (Hp & Hu & _). rewrite (ki_len _ _ _ Hk) in Hp.
    unfold is_unused in Hu. apply bool_decide_eq_true_1 in Hu.
    assert (kinv flag L (allocated p (on c k))) as Hka.
    { unfold allocated. rewrite s32_id by (simpl; lia). by apply kinv_alloc; simpl; try lia. }
    destruct (settle_good L c k Hg (allocated p (on c k))) as [Hq' Hk']; [done..|].
    eapply (alloc_rest_triple L p); [done| |exact H2]. split; [split; [done|by unfold settle; simpl; rewrite length_alter]|].
    split; [done|].
    change (st (allocated p (on c k)) p = EMBRYO).
    change (st (upd_proc p (λ x, set_p_ctime (k_ticks k) (set_p_pid (k_nextpid k) (set_p_state EMBRYO x))) (on c k)) p = EMBRYO).
    rewrite st_upd, decide_True; [done|]. by rewrite (ki_len _ _ _ Hk).
  - injection H2 as _ <-. by apply (settle_good L c k).
Qed.

Lemma locked_good {A} L c k (m : M K A) a k' :
  good L k → (c < length (k_cpus k))%nat →
  triple (λ x, held x ∧ kinv flag L x) m (λ _ x, held x ∧ kinv flag L x) →
  locked PtableLock m (on c k) = Ret a k' → good L k'.
Proof.
  intros Hg Hc Hm Hl. destruct (in_facts L c k Hg Hc) as [Ho Hk]. unfold locked in Hl.
  rewrite (bind_Ret _ _ tt _ (acquired PtableLock (on c k))) in Hl
    by (apply acquire_outside; [done|apply Ho]).
  apply bind_Ret_inv in Hl as (r & k1 & H1 & H2). apply Hm in H1 as [Hh1 Hk1].
  - destruct (held_release k1 Hh1) as (k2 & Hr & Hq & Hv & _).
    rewrite (bind_Ret _ _ tt _ k2) in H2 by done. injection H2 as _ <-.
    split; [done|]. by eapply kinv_view.
  - split; [eapply held_acquired; [apply Hg|done|done]|]. eapply kinv_view; [apply view_acquired|done].
Qed.

Lemma reap_triple L i :
  (i < NPROC)%nat →
  triple (safe held L i ZOMBIE) (reap i) (λ _, safe held L i UNUSED).
Proof.
  intros Hi. pose proof stable_held as HR. unfold reap, field.
  eapply triple_bind; [by apply triple_gets|intros ks].
  eapply triple_bind; [apply triple_harmless; [done|apply kfree_ok]|intros ?].
  eapply triple_bind; [apply triple_assign; [done|keeps_tac|done]|intros ?].
  eapply triple_bind; [by apply triple_gets|intros pg].
  eapply triple_bind; [apply triple_harmless; [done|apply freevm_ok]|intros ?].
  eapply triple_bind; [apply (triple_assign held L i ZOMBIE HR _ UNUSED); [|done]|intros ?].
  { intros x Hx. split; [split; [done..|done|right; by rewrite Hx]|done]. }
  eapply triple_bind; [apply (triple_assign held L i UNUSED HR _ UNUSED); [|done]|intros ?].
  { intros x Hx. split; [split; [done..|simpl; congruence|by left]|done]. }
  eapply triple_bind; [apply triple_assign; [done|keeps_tac|done]|intros ?].
  eapply triple_bind; [apply triple_assign; [done|keeps_tac|done]|intros ?].
  apply triple_assign; [done|keeps_tac|done].
Qed.

(** One pass of [wait] keeps the invariant when handling a zombie does. *)
Lemma wait_pass_triple L (found : nat → M K unit) :
  (∀ i, (i < NPROC)%nat →
     triple (safe held L i ZOMBIE) (found i) (λ _ x, held x ∧ kinv flag L x)) →
  triple (λ x, held x ∧ kinv flag L x) (wait_pass found) (λ _ x, held x ∧ kinv flag L x).
Proof.
  intros Hf k a k' [Hh Hk] Hw. unfold wait_pass in Hw.
  apply bind_Ret_inv in Hw as (cur & k0 & H0 & Hw).
  assert (k0 = k) as ->.
  { unfold myproc in H0. apply bind_Ret_inv in H0 as (o & k1 & [= <- <-] & H0).
    unfold deref in H0. destruct (curproc k); [|done]. case_decide; [|done]. by injection H0. }
  rewrite (bind_Ret _ _ (first_slot (is_zombie_child cur) k) k k) in Hw by done.
  destruct (first_slot (is_zombie_child cur) k) as [i|] eqn:Hz.
  - apply first_slot_Some in Hz as (Hi & Hz & _). rewrite (ki_len _ _ _ Hk) in Hi.
    rewrite (bind_Ret _ _ (p_pid (proc_at k i)) k k) in Hw by done.
    apply bind_Ret_inv in Hw as ([] & k1 & H1 & [= _ <-]). eapply Hf; [exact Hi| |exact H1].
    unfold is_zombie_child in Hz. apply andb_prop in Hz as [_ Hz].
    apply bool_decide_eq_true_1 in Hz. by split.
  - rewrite (bind_Ret _ _ (first_slot (is_child cur) k) k k) in Hw by done.
    rewrite (bind_Ret _ _ (p_killed (proc_at k cur)) k k) in Hw by done.
    case_decide; injection Hw as _ <-; done.
Qed.

Lemma wait_found_triple L i :
  (i < NPROC)%nat → triple (safe held L i ZOMBIE) (wait_found i) (λ _ x, held x ∧ kinv flag L x).
Proof.
  intros Hi. pose proof stable_held as HR. unfold wait_found.
  eapply triple_bind; [by apply reap_triple|intros ?].
  eapply triple_bind; [apply triple_assign; [done|keeps_tac|done]|intros ?].
  intros k b k' Hk Ha. apply (triple_assign held L i UNUSED HR (set_p_rutime 0) UNUSED) in Ha;
    [by destruct Ha as (? & ? & _)|keeps_tac|done|done].
Qed.

Lemma wait_stat_found_triple L store i :
  (∀ s, harmless (store s)) → (i < NPROC)%nat →
  triple (safe held L i ZOMBIE) (wait_stat_found store i) (λ _ x, held x ∧ kinv flag L x).
Proof.
  intros Hst Hi. pose proof stable_held as HR. unfold wait_stat_found.
  eapply triple_bind; [by apply triple_gets|intros x].
  eapply triple_bind; [by apply triple_harmless|intros ?].
  intros k b k' Hk Ha. apply (reap_triple L i Hi) in Ha; [|done]. by destruct Ha as (? & ? & _).
Qed.

(** ** The scheduler *)

Lemma view_upd_proc i f k k' : same_view k k' → same_view (upd_proc i f k) (upd_proc i f k').
Proof. intros [H1 H2 H3 H4 H5]. split; try done. simpl. by rewrite H1. Qed.

(** The start of the chosen process releases the lock. *)
Lemma resumes_good L m k1 k2 :
  resumes m → held k1 → kinv flag L k1 → m k1 = Ret tt k2 → good L k2.
Proof.
  intros Hm Hh Hk He. assert (∀ x y : K, held x → kinv flag L x → release PtableLock x = Ret tt y → good L y) as Hrel.
  { intros x y Hx Hkx Hr. destruct (held_release x Hx) as (k' & Hr' & Hq & Hv & _).
    rewrite Hr' in Hr. injection Hr as <-. split; [done|]. by eapply kinv_view. }
  assert (∀ ie, held (upd_cpu (set_c_intena ie) k1) ∧ kinv flag L (upd_cpu (set_c_intena ie) k1)) as Hi.
  { intros ie. split; [by apply held_upd_cpu|]. eapply kinv_view; [by apply view_upd_cpu|done]. }
  destruct Hm as [ie|ie|].
  - destruct (Hi ie) as [Hh' Hk']. unfold resume in He.
    rewrite (bind_Ret _ _ tt _ (upd_cpu (set_c_intena ie) k1)) in He by done.
    by eapply Hrel.
  - destruct (Hi ie) as [Hh' Hk'].
    rewrite (bind_Ret _ _ tt _ (upd_cpu (set_c_intena ie) k1)) in He by done.
    set (k3 := upd_cpu (set_c_intena ie) k1) in *.
    apply bind_Ret_inv in He as (p & k4 & H4 & He).
    assert (k4 = k3) as ->.
    { unfold myproc in H4. apply bind_Ret_inv in H4 as (o & k5 & [= <- <-] & H4).
      unfold deref in H4. destruct (curproc k3); [|done]. case_decide; [|done]. by injection H4. }
    rewrite (bind_Ret _ _ tt _ (upd_proc p (set_p_chan ChNull) k3)) in He by done.
    eapply Hrel; [| |exact He]; [by apply (held_sync k3)|].
    apply kinv_keeps; [done|]. split; try done. by left.
  - by eapply Hrel.
Qed.

(** Running the chosen process stops at [swtch] with the process dispatched. *)
Lemma run_process_blocked i k k1 :
  nest_ok 5 k → run_process block i k = Blocked k1 →
  ∃ k', ext_change k k' ∧ k1 = upd_proc i (set_p_state RUNNING) k'.
Proof.
  unfold run_process. intros Hwf He. destruct (switchuvm_ok i) as [Hh Hp].
  destruct (svc_switchuvm i k) as [[] k'| | |k'] eqn:Hs;
    unfold mbind at 1, M_bind at 1 in He; rewrite Hs in He; try done.
  - exists k'. split; [by apply Hh in Hs|]. by injection He.
  - by apply Hp in Hs.
Qed.

Section turn.
Context (L : gset nat) (c : nat) (k : K).
Hypothesis Hg : good L k.
Hypothesis Hc : (c < length (k_cpus k))%nat.
Hypothesis Hcur : curproc (on c k) = None.

(** The state after [sti] and [acquire]. *)
Let ks : K := upd_cpu (λ x, set_c_eflags (Z.lor (c_eflags x) FL_IF) x) (on c k).
Let ka : K := acquired PtableLock ks.

Lemma turn_facts :
  outside ks ∧ held ka ∧ inside ka ∧ kinv flag L ka ∧ curproc ka = None ∧
  (sti ;; acquire PtableLock) (on c k) = Ret tt ka.
Proof.
  destruct Hg as [Hq Hk].
  assert (quiet ks) as Hqs.
  { destruct Hq as [H1 H2 H3 Hn]. split; try done. unfold ks, upd_cpu; simpl.
    intros c' x. rewrite list_lookup_alter. case_decide; [|apply Hn].
    destruct (k_cpus k !! _) as [y|] eqn:Hy; [|done]. intros [= <-]. simpl. by apply (Hn _ _ Hy). }
  assert (c < length (k_cpus ks))%nat as Hcs by (unfold ks; simpl; by rewrite length_alter).
  assert (outside ks) as Ho by exact (quiet_outside c ks Hqs Hcs).
  split; [done|]. split; [by apply (held_acquired c ks)|]. split; [by apply outside_inside|].
  split; [eapply kinv_view; [apply view_acquired|]; eapply kinv_view; [by apply view_upd_cpu|];
    eapply kinv_view; [apply view_on|done]|].
  split; [unfold ka; rewrite curproc_acquired; unfold ks; by rewrite curproc_upd_cpu|].
  rewrite (bind_Ret _ _ tt _ ks) by done. apply acquire_outside; [done|apply Ho].
Qed.

Lemma dispatched_held i (x : K) : held x → held (dispatched flag i x).
Proof.
  intros Hx. assert (held (upd_cpu (set_c_proc (Some i)) x)) as H1 by (by apply held_upd_cpu).
  unfold dispatched. apply (held_sync (if uses_queue flag then claimed i x
    else upd_cpu (set_c_proc (Some i)) x)); [done|].
  destruct (uses_queue flag); [|done].
  eapply held_sync; [apply (rf_sync _ _ (claimed_frame i x))|exact H1].
Qed.

Lemma dispatched_good (x k1 : K) i m k2 :
  held x → kinv flag L x → curproc x = None → (i < NPROC)%nat → st x i = RUNNABLE → i ∉ L →
  run_process block i (if uses_queue flag then claimed i x else upd_cpu (set_c_proc (Some i)) x)
    = Blocked k1 →
  resumes m → m k1 = Ret tt k2 → good L k2.
Proof.
  intros Hh Hk Hx Hi Hs HL Hr Hm He. pose proof (dispatched_held i x Hh) as Hhd.
  assert (held (if uses_queue flag then claimed i x else upd_cpu (set_c_proc (Some i)) x)) as H1.
  { eapply (held_sync (dispatched flag i x)); [|done]. unfold dispatched. done. }
  apply run_process_blocked in Hr as (k' & Hext & ->); [|by apply held_nest].
  pose proof (kinv_dispatch flag L x i Hk Hi Hs HL (he_my x Hh) Hx) as Hd.
  eapply resumes_good; [exact Hm| | |exact He].
  - eapply held_sync; [|eapply ext_held; [exact Hext|exact H1]]. done.
  - eapply kinv_view; [|exact Hd]. apply view_upd_proc, Hext.
Qed.

Lemma turn_lottery :
  uses_queue flag = true →
  ∃ q, rr_repr ka q ∧ held (drawn_state flag q ka) ∧ kinv flag L (drawn_state flag q ka) ∧
    scheduler_turn flag block (on c k) =
    match picked (lottery_round flag q ka) q with
    | None => release PtableLock (drawn_state flag q ka)
    | Some i => (run_process block i ;; release PtableLock) (claimed i (drawn_state flag q ka))
    end ∧
    (∀ i, i ∈ q → (i < NPROC)%nat ∧ st (drawn_state flag q ka) i = RUNNABLE ∧ i ∉ L).
Proof.
  intros Hu. destruct turn_facts as (Ho & Hh & Hi & Hk & Hcp & Ha).
  destruct (ki_queue _ _ _ Hk) as (q & Hr & Hq). specialize (Hq Hu).
  destruct (kinv_drawn flag L ka q Hk Hr Hu Hq) as (Hkd & Hrd & Hst).
  exists q. split; [done|]. split; [eapply held_sync; [apply drawn_state_sync|done]|].
  split; [done|]. split.
  - unfold scheduler_turn. rewrite <-bind_assoc, (bind_Ret _ _ tt _ ka) by done.
    pose proof (sched_lottery_ret flag block q ka Hi Hr Hu) as Hl.
    rewrite (live_all flag L ka q) in Hl by (done || by rewrite (ki_len _ _ _ Hk)).
    specialize (Hl ltac:(by rewrite (ki_len _ _ _ Hk))).
    assert ((match flag with DEFAULT => l ← gets slots; for_each (sched_default_slot block) l
      | _ => sched_lottery flag block end) ka = sched_lottery flag block ka) as He by (by destruct flag).
    unfold mbind at 1, M_bind at 1. rewrite He, Hl. by destruct (picked _ _).
  - intros i Hin. assert (i < NPROC)%nat as Hlt
      by (rewrite <-(ki_len _ _ _ Hk); by apply (rr_bound _ _ Hr)).
    apply Hq in Hin as [? ?]; [|done]. by rewrite Hst.
Qed.

Lemma picked_in (x : K) q i : picked x q = Some i → i ∈ q.
Proof. unfold picked. case_decide; [|done]. intros Hp. by apply head_filter_Some in Hp as [? _]. Qed.

Lemma curproc_drawn q : curproc (drawn_state flag q ka) = None.
Proof.
  destruct turn_facts as (_ & _ & _ & _ & Hcp & _). rewrite <-Hcp.
  destruct (drawn_state_sync flag q ka) as (H1 & H2 & _). unfold curproc, this_cpu. by rewrite H1, H2.
Qed.

Lemma step_dispatch_good k1 m k2 :
  uses_queue flag = true → scheduler_turn flag block (on c k) = Blocked k1 →
  resumes m → m k1 = Ret tt k2 → good L k2.
Proof.
  intros Hu Ht Hm He. destruct (turn_lottery Hu) as (q & Hr & Hh & Hk & Hturn & Hq).
  rewrite Hturn in Ht. destruct (picked _ q) as [i|] eqn:Hp.
  - apply picked_in in Hp. apply Hq in Hp as (Hi & Hs & HL).
    eapply (dispatched_good (drawn_state flag q ka)); [done|done|apply curproc_drawn|done|done|done| |done|done].
    rewrite Hu. unfold mbind, M_bind in Ht.
    destruct (run_process block i (claimed i (drawn_state flag q ka))) as [[] k3| | |k3] eqn:Hrun; try done.
    exfalso. clear -Hrun OK. unfold run_process in Hrun.
    apply bind_Ret_inv in Hrun as ([] & k4 & _ & Hrun). apply bind_Ret_inv in Hrun as ([] & k5 & _ & Hrun).
    done.
  - destruct (held_release _ Hh) as (k' & Hr' & _). by rewrite Hr' in Ht.
Qed.

Lemma step_idle_good k' :
  uses_queue flag = true → scheduler_turn flag block (on c k) = Ret tt k' → good L k'.
Proof.
  intros Hu Ht. destruct (turn_lottery Hu) as (q & Hr & Hh & Hk & Hturn & Hq).
  rewrite Hturn in Ht. destruct (picked _ q) as [i|] eqn:Hp.
  - exfalso. apply bind_Ret_inv in Ht as ([] & k4 & Hrun & _). unfold run_process in Hrun.
    apply bind_Ret_inv in Hrun as ([] & k5 & _ & Hrun). apply bind_Ret_inv in Hrun as ([] & k6 & _ & Hrun).
    done.
  - destruct (held_release _ Hh) as (k2 & Hr' & Hq' & Hv & _). rewrite Hr' in Ht. injection Ht as <-.
    split; [done|]. by eapply kinv_view.
Qed.

Lemma step_default_good i k1 m k2 :
  uses_queue flag = false → L = ∅ → (i < NPROC)%nat →
  (sti ;; acquire PtableLock ;; sched_default_slot block i) (on c k) = Blocked k1 →
  resumes m → m k1 = Ret tt k2 → good L k2.
Proof.
  intros Hu HL Hi Ht Hm He. destruct turn_facts as (Ho & Hh & Hin & Hk & Hcp & Ha).
  rewrite <-bind_assoc, (bind_Ret _ _ tt _ ka) in Ht by done. unfold sched_default_slot in Ht.
  rewrite (bind_Ret _ _ (st ka i) ka ka) in Ht by done. case_decide as Hs; [done|].
  rewrite (bind_Ret _ _ tt ka (upd_cpu (set_c_proc (Some i)) ka)) in Ht by done.
  eapply (dispatched_good ka); [done..| |rewrite HL; set_solver| |done|done].
  - by destruct (decide (st ka i = RUNNABLE)) as [|Hn]; [|destruct Hs].
  - by rewrite Hu.
Qed.
End turn.

(** ** Statistics *)

Lemma tick_keeps p : keeps p (tick_proc p).
Proof. split; unfold tick_proc; destruct (p_state p) eqn:He; simpl; auto; rewrite He; auto. Qed.

Lemma advanceprocstats_ret k :
  advanceprocstats k = Ret tt (foldl (λ x i, upd_proc i tick_proc x) k (slots k)).
Proof.
  unfold advanceprocstats. rewrite (bind_Ret _ _ (slots k) k k) by done.
  generalize (slots k) as l. intros l. revert k.
  induction l as [|i l IH]; intros k; simpl; [done|].
  by rewrite (bind_Ret _ _ tt k (upd_proc i tick_proc k)).
Qed.

Lemma step_tick_good L c k k' :
  good L k → advanceprocstats (on c k) = Ret tt k' → good L k'.
Proof.
  intros [Hq Hk]. rewrite advanceprocstats_ret. intros [= <-].
  assert (kinv flag L (on c k)) as Hk' by (eapply kinv_view; [apply view_on|done]). split.
  - eapply (quiet_sync c k); [done|]. apply (foldl_tame (λ x i, upd_proc i tick_proc x)).
    intros x i. split; [done|apply length_upd_proc].
  - apply kinv_foldl; [|done|intros i Hi; by eapply slots_lt].
    intros x i Hx Hi. apply kinv_keeps; [done|apply tick_keeps].
Qed.

(** ** Every step keeps the invariant *)

Lemma kstep_good L k k' :
  kstep k k' → good L k → (uses_queue flag = false → L = ∅) → good L k'.
Proof.
  intros Hs Hg HL. destruct Hs.
  - by eapply step_yield_good.
  - by eapply step_sleep_good.
  - by eapply step_exit_good.
  - by eapply step_alloc_good.
  - by eapply step_ready_good.
  - destruct Hg as [Hq Hk]. split; [by apply (quiet_same k)|].
    apply kinv_keeps; [done|]. split; try done. right. unfold st in *. simpl. by rewrite H.
  - eapply (locked_good L c); [done|done| |done]. apply wait_pass_triple. apply wait_found_triple.
  - eapply (locked_good L c); [done|done| |done]. apply wait_pass_triple.
    intros. by apply wait_stat_found_triple.
  - destruct Hg as [Hq Hk]. split; [by apply (quiet_same k)|].
    apply kinv_keeps; [done|]. destruct (H (proc_at k i)) as (H1 & H2 & H3 & H4).
    split; [done..| |by left]. rewrite H3, H4. done.
  - by eapply step_wakeup_good.
  - by eapply step_kill_good.
  - by eapply step_tick_good.
  - destruct Hg as [Hq Hk]. split; [by eapply ext_quiet|]. eapply kinv_view; [apply H|done].
  - by eapply step_dispatch_good.
  - eapply step_default_good; eauto.
  - by eapply step_idle_good.
Qed.

(** ** Signals *)

Lemma kinv_lose L k i :
  kinv flag L k → (i < NPROC)%nat → st k i = SLEEPING →
  kinv flag (if uses_queue flag then {[i]} ∪ L else L) (upd_proc i (set_p_state RUNNABLE) k).
Proof.
  intros [Hlen (q & Hr & Hq) Hlost Hrun Honce Hrunning Hpids Hplt] Hi Hs.
  set (k1 := upd_proc i _ k). set (L' := if uses_queue flag then _ else L).
  assert (∀ j, st k1 j = if decide (i = j) then RUNNABLE else st k j) as Hst.
  { intros j. unfold k1. rewrite st_upd. simpl. repeat case_decide; naive_solver lia. }
  assert (∀ j, pid_of k1 j = pid_of k j) as Hpd.
  { intros j. unfold k1. rewrite pid_upd. by case_decide. }
  assert (∀ j, j ∈ L' → j = i ∨ j ∈ L) as HL' by (unfold L'; destruct (uses_queue flag); set_solver).
  split; [by unfold k1; rewrite length_upd_proc|..].
  - exists q. split; [by apply rr_repr_upd_at|]. intros Hu j Hj. rewrite Hst, Hq by done.
    unfold L'. rewrite Hu, elem_of_union, elem_of_singleton. case_decide as Hd.
    + subst j. split; [intros [? _]; congruence|]. intros [_ Hn]. destruct Hn. by left.
    + split; intros [H1 H2]; (split; [done|]); [by intros [?|?]; [subst|]|].
      intros HjL. apply H2. by right.
  - intros j Hj. rewrite Hst. apply HL' in Hj as [->|Hj]; [by rewrite decide_True|].
    case_decide; [subst; done|]. by apply Hlost.
  - intros c j Hc. rewrite Hst. destruct (Hrun c j Hc). case_decide; [subst; congruence|done].
  - exact Honce.
  - intros j Hj. rewrite Hst. case_decide; [done|]. by apply Hrunning.
  - intros a b Ha Hb. rewrite !Hst, !Hpd. intros Hsa Hsb. apply Hpids; [done..| |];
      [destruct (decide (i = a)) as [<-|]|destruct (decide (i = b)) as [<-|]]; congruence.
  - intros a Ha. rewrite Hst, Hpd. intros Hsa. apply Hplt; [done|].
    destruct (decide (i = a)) as [<-|]; congruence.
Qed.

Definition lost_after L k (i : nat) : gset nat :=
  if decide (st k i = SLEEPING) then (if uses_queue flag then {[i]} ∪ L else L) else L.

Lemma kinv_signalled L k i bits :
  kinv flag L k → (i < NPROC)%nat → kinv flag (lost_after L k i) (signalled_at i bits k).
Proof.
  intros Hk Hi. unfold signalled_at, lost_after. set (k1 := upd_proc i _ k).
  assert (kinv flag L k1) as Hk1 by (apply kinv_keeps; [done|]; split; try done; by left).
  assert (p_state (proc_at k1 i) = st k i) as Hs.
  { unfold k1. change (st (upd_proc i (λ p, set_p_pending (s32 (Z.lor (u32 (p_pending p)) bits)) p) k) i = st k i).
    rewrite st_upd. by case_decide. }
  rewrite Hs. case_bool_decide; case_decide; try done. apply kinv_lose; [done..|]. unfold st. by rewrite Hs.
Qed.

Lemma sigstep_good L k k' :
  sigstep k k' → good L k → ∃ L', L ⊆ L' ∧ good L' k' ∧ (uses_queue flag = false → L' = L).
Proof.
  intros Hs Hg. destruct Hs as [c pid signum k r k' Hc Hs].
  destruct (in_facts L c k Hg Hc) as [Ho Hk]. rewrite sigsend_ret in Hs by done.
  case_decide.
  { injection Hs as _ <-. exists L. split; [done|]. split; [|done].
    destruct Hg as [Hq _]. split; [|done]. by apply (quiet_sync c k). }
  destruct (first_slot (has_pid pid) (on c k)) as [i|] eqn:Hf; injection Hs as _ <-.
  - apply first_slot_Some in Hf as (Hi & _). rewrite (ki_len _ _ _ Hk) in Hi.
    exists (lost_after L (on c k) i). split.
    { unfold lost_after. case_decide; [|done]. destruct (uses_queue flag); set_solver. }
    split; [|unfold lost_after; case_decide; [|done]; by intros ->].
    pose proof (kinv_signalled L (on c k) i (u32 (s32 (Z.shiftl 1 signum))) Hk Hi) as Hk'.
    destruct Hg as [Hq _]. set (k1 := signalled_at i _ (on c k)) in *.
    assert (same_sync (on c k) k1) as Hsy by (unfold k1, signalled_at; by case_bool_decide).
    split; [|eapply kinv_view; [apply view_settle|done]].
    pose proof (quiet_sync c k k1 Hq Hsy) as [H1 H2 H3 Hn]. split; try done.
    intros c' x. unfold settle, upd_cpu. cbn [k_cpus set_k_cpus]. rewrite list_lookup_alter.
    case_decide; [|apply Hn]. destruct (k_cpus k1 !! _) as [y|] eqn:Hy; [|done].
    intros [= <-]. case_decide; simpl; by apply (Hn _ _ Hy).
  - exists L. split; [done|]. split; [|done]. by apply (settle_good L c k).
Qed.

Lemma ksteps_good L k k' :
  rtc kstep k k' → good L k → (uses_queue flag = false → L = ∅) → good L k'.
Proof. induction 1; eauto using kstep_good. Qed.

Definition any_step k k' : Prop := kstep k k' ∨ sigstep k k'.

Lemma any_steps_good L k k' :
  rtc any_step k k' → good L k → (uses_queue flag = false → L = ∅) →
  ∃ L', L ⊆ L' ∧ good L' k' ∧ (uses_queue flag = false → L' = ∅).
Proof.
  intros Hs. revert L. induction Hs as [k|k k1 k' [H1|H1] _ IH]; intros L Hg HL; [by exists L|..].
  - apply (IH L); [by eapply kstep_good|done].
  - destruct (sigstep_good L k k1 H1 Hg) as (L1 & Hsub & Hg1 & Hd).
    destruct (IH L1 Hg1) as (L' & Hsub' & Hg' & Hd').
    { intros Hu. rewrite Hd by done. by apply HL. }
    exists L'. split; [set_solver|done].
Qed.

Lemma boot_good ncpu v : good ∅ (boot_core ncpu v).
Proof.
  split.
  - split; [done..|]. intros c x Hx. cbn [boot_core k_cpus] in Hx.
    apply list_lookup_fmap_Some in Hx as (y & -> & _). done.
  - assert (∀ i, st (boot_core ncpu v) i = UNUSED) as Hst
      by (intros; unfold st; by rewrite proc_at_boot).
    assert (∀ c i, ¬ runs (boot_core ncpu v) c i) as Hru.
    { intros c i Hr. unfold runs in Hr. apply list_lookup_fmap_Some in Hr as (x & Hx & Hr).
      apply list_lookup_fmap_Some in Hr as (y & -> & _). done. }
    split.
    + apply length_replicate.
    + exists []. split; [apply rr_repr_boot|]. intros _ i Hi. rewrite Hst. set_solver.
    + set_solver.
    + intros c i Hc. by apply Hru in Hc.
    + intros c c' i Hc. by apply Hru in Hc.
    + intros i Hi. by rewrite Hst.
    + intros i j _ _ Hi. by rewrite Hst in Hi.
    + intros i _ Hi. by rewrite Hst in Hi.
Qed.

(** C1. The scheduling invariant.  In every state the process routines reach
    from boot, on any number of processors and under each policy, without
    signals to sleeping processes: the run queue holds exactly the RUNNABLE
    processes, each once (under the queue policies); a process is RUNNING
    exactly when some processor runs it, and never on two processors; the
    processes in use have distinct pids, positive and below [nextpid]; and the
    three locks of the subsystem are free again. *)
Theorem scheduling_invariant ncpu (v : V) k :
  rtc kstep (boot_core ncpu v) k →
  (∃ q, rr_repr k q ∧
     (uses_queue flag = true → ∀ i, (i < NPROC)%nat → i ∈ q ↔ st k i = RUNNABLE)) ∧
  (∀ i, (i < NPROC)%nat → st k i = RUNNING ↔ ∃ c, runs k c i) ∧
  (∀ c c' i, runs k c i → runs k c' i → c = c') ∧
  (∀ i j, (i < NPROC)%nat → (j < NPROC)%nat → st k i ≠ UNUSED → st k j ≠ UNUSED →
     pid_of k i = pid_of k j → i = j) ∧
  (∀ i, (i < NPROC)%nat → st k i ≠ UNUSED → 0 < pid_of k i < k_nextpid k) ∧
  quiet k.
Proof.
  intros Hs. destruct (ksteps_good ∅ _ _ Hs (boot_good ncpu v)) as [Hq Hk]; [done|].
  destruct Hk as [Hlen (q & Hr & Hqq) _ Hrun Honce Hrunning Hpids Hplt].
  split; [exists q; split; [done|]; intros Hu i Hi; rewrite Hqq by done; set_solver|].
  split; [|done]. intros i Hi. split; [by apply Hrunning|]. intros [c Hc]. by apply (Hrun c).
Qed.

(** C37. A signal loses a sleeping process.  Under a queue policy, once
    [sigsend] has reached a SLEEPING process it is RUNNABLE but not in the
    queue, and stays so whatever the kernel does afterwards - scheduling,
    wakeups, kills, further signals, other processes forking and exiting: no
    processor ever runs it again. *)
Theorem sigsend_loses_sleeper L c pid signum r k i k1 k2 :
  good L k → uses_queue flag = true → (c < length (k_cpus k))%nat →
  0 <= signum < 31 → first_slot (has_pid pid) k = Some i → st k i = SLEEPING →
  sigsend pid signum (on c k) = Ret r k1 → rtc any_step k1 k2 →
  r = 0 ∧ st k2 i = RUNNABLE ∧ (∀ c', ¬ runs k2 c' i) ∧
  ∃ q, rr_repr k2 q ∧ i ∉ q.
Proof.
  intros Hg Hu Hc Hn Hf Hs Hsig Hsteps.
  assert (∃ L1, i ∈ L1 ∧ good L1 k1) as (L1 & HiL & Hg1).
  { destruct (in_facts L c k Hg Hc) as [Ho Hk]. pose proof Hsig as Hsig'.
    rewrite sigsend_ret, decide_False in Hsig' by (done || lia).
    change (first_slot (has_pid pid) (on c k)) with (first_slot (has_pid pid) k) in Hsig'.
    rewrite Hf in Hsig'. injection Hsig' as <- <-.
    destruct (sigstep_good L k (settle (signalled_at i (u32 (s32 (Z.shiftl 1 signum))) (on c k))))
      as (L1 & _ & Hg1 & _); [by econstructor|done|].
    apply first_slot_Some in Hf as (Hi & _). rewrite (ki_len _ _ _ (proj2 Hg)) in Hi.
    exists ({[i]} ∪ L). split; [set_solver|]. split; [apply Hg1|].
    pose proof (kinv_signalled L (on c k) i (u32 (s32 (Z.shiftl 1 signum))) Hk Hi) as Hk'.
    unfold lost_after in Hk'. change (st (on c k) i) with (st k i) in Hk'.
    rewrite Hs, decide_True, Hu in Hk' by done. eapply kinv_view; [apply view_settle|done]. }
  destruct (any_steps_good L1 k1 k2 Hsteps Hg1) as (L' & Hsub & [_ Hk2] & _); [congruence|].
  assert (i ∈ L') as HiL' by set_solver. destruct (ki_lost _ _ _ Hk2 i HiL') as [Hi Hst].
  split.
  { destruct (in_facts L c k Hg Hc) as [Ho _]. rewrite sigsend_ret, decide_False in Hsig by (done || lia).
    change (first_slot (has_pid pid) (on c k)) with (first_slot (has_pid pid) k) in Hsig.
    rewrite Hf in Hsig. by injection Hsig. }
  split; [done|]. split.
  - intros c' Hc'. destruct (ki_run _ _ _ Hk2 c' i Hc') as [_ He]. congruence.
  - destruct (ki_queue _ _ _ Hk2) as (q & Hr & Hq). exists q. split; [done|].
    rewrite (Hq Hu i Hi). set_solver.
Qed.
End steps.

(** ** A concrete kernel

    Services whose state is the next free page, with no files: enough to run
    the process routines. *)

#[local] Instance page_services : Services Z := {|
  svc_kalloc := λ k, Ret (k_ext k) (set_k_ext (k_ext k + 4096) k);
  svc_kfree := λ _, mret tt;
  svc_setupkvm := mret 4096;
  svc_inituvm := λ _, mret tt;
  svc_copyuvm := λ _ _, mret 4096;
  svc_freevm := λ _, mret tt;
  svc_allocuvm := λ _ _ n, mret n;
  svc_deallocuvm := λ _ _ n, mret n;
  svc_switchuvm := λ _, mret tt;
  svc_switchkvm := mret tt;
  svc_filedup := λ f, mret f;
  svc_fileclose := λ _, mret tt;
  svc_idup := λ d, mret d;
  svc_iput := λ _, mret tt;
  svc_begin_op := mret tt;
  svc_end_op := mret tt;
  svc_namei_root := mret (Some 0%nat);
  svc_initlog := mret tt;
  svc_trapret := 0x80105000;
  svc_forkret := 0x80104000
|}.

Lemma ext_change_refl {V} (k : core V) : ext_change k k.
Proof. by split. Qed.

#[local] Instance page_services_ok : ServicesOk Z.
Proof.
  split; intros.
  - intros k a k' _ [= _ <-]. by split.
  - intros k [] k' _ [= <-]. apply ext_change_refl.
  - intros k [] k' _ [= <-]. apply ext_change_refl.
  - split; [|done]. intros k [] k' _ [= <-]. apply ext_change_refl.
  - intros k [] k' _ [= <-]. apply ext_change_refl.
Qed.

Definition ret_state {S A} (s : S) (o : outcome S A) : S :=
  match o with Ret _ s' => s' | Blocked s' => s' | _ => s end.

(** One process is created, made ready and dispatched on the second of two
    processors. *)
Definition demo1 : core Z := ret_state (boot_core 2 4096) (allocproc (on 0 (boot_core 2 4096))).
Definition demo2 : core Z := ret_state demo1 (locked PtableLock (fork_ready FRR 0) (on 0 demo1)).
Definition demo3 : core Z := ret_state demo2 (scheduler_turn FRR block (on 1 demo2)).
Definition demo4 : core Z := ret_state demo3 (release PtableLock demo3).

Lemma demo_steps : rtc (kstep FRR) (boot_core 2 4096) demo4.
Proof.
  eapply rtc_l; [eapply (ks_alloc _ 0 _ (Some 0%nat) demo1); vm_compute; done || lia|].
  eapply rtc_l; [eapply (ks_ready _ 0 0 _ demo2); vm_compute; done || lia|].
  eapply rtc_l; [|apply rtc_refl].
  eapply (ks_dispatch _ 1 _ demo3); [vm_compute; lia|by vm_compute..|apply resumes_fork|by vm_compute].
Qed.

Lemma scheduling_invariant_witness :
  st demo4 0 = RUNNING ∧ runs demo4 1 0 ∧ (∀ c, runs demo4 c 0 → c = 1%nat).
Proof.
  destruct (scheduling_invariant FRR 2 4096 demo4 demo_steps) as (_ & _ & H & _).
  split; [by vm_compute|]. split; [by vm_compute|]. intros c Hc. by apply (H c 1%nat 0%nat).
Defined.

(** A process sleeps on [ticks] and is sent signal 3. *)
Definition demo5 : core Z :=
  upd_proc 0 (λ p, set_p_chan ChTicks (set_p_state SLEEPING p))
    (set_k_nextpid (1 + 1) (upd_proc 0 (λ p, set_p_pid 1 (set_p_state EMBRYO p)) (boot_core 1 4096))).
Definition demo6 : core Z := ret_state demo5 (sigsend 1 3 (on 0 demo5)).

Lemma demo5_good : good PRS ∅ demo5.
Proof.
  destruct (boot_good PRS 1 4096) as [Hq Hk]. split; [by destruct Hq|]. unfold demo5.
  apply kinv_keeps; [|split; by vm_compute; auto].
  apply (kinv_alloc PRS ∅ (boot_core 1 4096) 0); [done|unfold NPROC; lia|by vm_compute..].
Qed.

Lemma sigsend_loses_sleeper_witness :
  sigsend 1 3 (on 0 demo5) = Ret 0 demo6 ∧ st demo6 0 = RUNNABLE ∧ (∀ c, ¬ runs demo6 c 0) ∧
  ∃ q, rr_repr demo6 q ∧ 0%nat ∉ q.
Proof.
  split; [by vm_compute|].
  apply (sigsend_loses_sleeper PRS ∅ 0 1 3 0 demo5 0 demo6 demo6).
  - exact demo5_good.
  - done.
  - vm_compute. lia.
  - lia.
  - by vm_compute.
  - by vm_compute.
  - by vm_compute.
  - apply rtc_refl.
Defined.
