(* ===== verification/ProcSpec.v ===== *)
(** * Behaviour of the process routines

    The theorems that state, branch by branch, what [wakeup], [kill], [sleep],
    [exit], [wait], [fork] and the tick statistics do to the process table and the
    run queue. *)

From stdpp Require Import base list gmap strings.
From Stdlib Require Import ZArith Lia.
From S2P Require Import Prelude KState Spinlock RRQueue Lottery CString Proc ProcForms ProcInv KMachine.

Section spec.
Context {V : Type}.
Abbreviation K := (core V).
Implicit Types (k : K) (flag : schedflag).

(** ** Waking *)

(** A process as the routines below leave it, links aside. *)
Definition ready_if (b : bool) (p : proc) : proc :=
  if b then set_p_state RUNNABLE p else p.

Lemma woken1_proc flag chan k i j :
  unlinked (proc_at (woken1 flag chan k i) j) =
  unlinked (ready_if (bool_decide (i = j) && sleeps_on k chan j) (proc_at k j)).
Proof.
  unfold woken1. destruct (decide (i = j)) as [->|Hne].
  - rewrite bool_decide_eq_true_2 by done. simpl. destruct (sleeps_on k chan j) eqn:Hs; [|done].
    rewrite made_ready_proc, proc_at_upd. unfold sleeps_on in Hs. unfold ready_if.
    destruct (decide _) as [Hd|Hd]; [reflexivity|].
    assert (proc_at k j = proc0) as He.
    { unfold proc_at. rewrite list_lookup_total_alt, lookup_ge_None_2; [done|]. lia. }
    rewrite He in Hs. done.
  - rewrite bool_decide_eq_false_2 by done. simpl. destruct (sleeps_on k chan i); [|done].
    rewrite made_ready_proc. by rewrite proc_at_upd_ne.
Qed.

Lemma sleeps_on_unlinked k k' chan i :
  unlinked (proc_at k' i) = unlinked (proc_at k i) → sleeps_on k' chan i = sleeps_on k chan i.
Proof.
  intros He. unfold sleeps_on.
  assert (p_state (proc_at k' i) = p_state (proc_at k i)) as ->
    by (change (p_state (unlinked (proc_at k' i)) = p_state (unlinked (proc_at k i))); by rewrite He).
  assert (p_chan (proc_at k' i) = p_chan (proc_at k i)) as -> ; [|done].
  change (p_chan (unlinked (proc_at k' i)) = p_chan (unlinked (proc_at k i))). by rewrite He.
Qed.

Lemma sleeps_on_woken1 flag chan k i j :
  i ≠ j → sleeps_on (woken1 flag chan k i) chan j = sleeps_on k chan j.
Proof.
  intros Hne. apply sleeps_on_unlinked. rewrite woken1_proc.
  by rewrite bool_decide_eq_false_2.
Qed.

Lemma woken_fold flag chan l k :
  NoDup l →
  (∀ j, unlinked (proc_at (foldl (woken1 flag chan) k l) j) =
     unlinked (ready_if (bool_decide (j ∈ l) && sleeps_on k chan j) (proc_at k j))) ∧
  (∀ q, uses_queue flag = true → rr_repr k q →
     (∀ i, i ∈ l → (i < length (k_ptable k))%nat ∧ (sleeps_on k chan i = true → i ∉ q)) →
     rr_repr (foldl (woken1 flag chan) k l)
       (q ++ filter (λ i, sleeps_on k chan i = true) l)).
Proof.
  revert k. induction l as [|i l IH]; intros k Hnd; simpl.
  { split; [done|]. intros q _ Hr _. by rewrite app_nil_r. }
  apply NoDup_cons in Hnd as [Hil Hnd]. destruct (IH (woken1 flag chan k i) Hnd) as [H1 H2].
  assert (∀ j, j ∈ l → sleeps_on (woken1 flag chan k i) chan j = sleeps_on k chan j) as Hsl.
  { intros j Hj. apply sleeps_on_woken1. intros ->. done. }
  split.
  - intros j. rewrite H1. destruct (decide (j ∈ l)) as [Hj|Hj].
    + rewrite Hsl by done. rewrite !bool_decide_eq_true_2 by set_solver. simpl.
      pose proof (woken1_proc flag chan k i j) as Hw.
      rewrite bool_decide_eq_false_2 in Hw by (intros ->; done). simpl in Hw.
      destruct (sleeps_on k chan j); [|done]. cbn [ready_if].
      change (unlinked (set_p_state RUNNABLE ?p)) with (set_p_state RUNNABLE (unlinked p)).
      by rewrite Hw.
    + rewrite (bool_decide_eq_false_2 (j ∈ l)) by done. simpl. rewrite woken1_proc.
      destruct (decide (i = j)) as [->|Hne].
      * by rewrite !bool_decide_eq_true_2 by set_solver.
      * by rewrite !bool_decide_eq_false_2 by set_solver.
  - intros q Hu Hr Hl. rewrite filter_cons. destruct (Hl i ltac:(left)) as [Hi Hiq].
    assert (filter (λ j, sleeps_on (woken1 flag chan k i) chan j = true) l =
      filter (λ j, sleeps_on k chan j = true) l) as Hfil.
    { apply list_filter_ext. intros j Hj. by rewrite Hsl. }
    rewrite <-Hfil. case_decide as Hs.
    + rewrite cons_middle, app_assoc. apply H2; [done| |].
      * pose proof (made_ready_repr flag i k q Hr (Hiq Hs) Hi) as Hrr. rewrite Hu in Hrr.
        unfold woken1. by rewrite Hs.
      * intros j Hj. rewrite Hsl by done. destruct (Hl j ltac:(by right)) as [Hlt Hn]. split.
        { unfold woken1. rewrite Hs. by rewrite made_ready_len. }
        intros Hj'. rewrite elem_of_app, list_elem_of_singleton.
        intros [?|?]; [by apply Hn|by subst].
    + apply not_true_is_false in Hs. unfold woken1 in *. rewrite Hs in *. apply H2; [done..|].
      intros j Hj. apply Hl. by right.
Qed.

(** The invariant inside the machine says that sleepers are not queued; here it
    is the hypothesis on the queue. *)
Definition sleepers_unqueued k (q : list nat) : Prop :=
  ∀ i, p_state (proc_at k i) = SLEEPING → i ∉ q.

Lemma sleeps_on_true k chan i :
  sleeps_on k chan i = true ↔ p_state (proc_at k i) = SLEEPING ∧ p_chan (proc_at k i) = chan.
Proof. unfold sleeps_on. rewrite andb_true_iff, !bool_decide_eq_true. done. Qed.

(** C15. [wakeup] makes exactly the processes sleeping on the channel RUNNABLE,
    in one critical section that returns, and appends them to the run queue in
    the order of the table; every other field of every process (links aside),
    and every process that does not sleep on the channel, is as before. *)
Theorem wakeup_spec flag chan k q :
  outside k → rr_repr k q → sleepers_unqueued k q → uses_queue flag = true →
  ∃ k', wakeup flag chan k = Ret tt k' ∧
    (∀ j, unlinked (proc_at k' j) = unlinked (ready_if (sleeps_on k chan j) (proc_at k j))) ∧
    rr_repr k' (q ++ filter (λ i, sleeps_on k chan i = true) (slots k)) ∧
    k_locks k' = k_locks k.
Proof.
  intros Ho Hr Hq Hu. exists (settle (woken flag chan k)). rewrite wakeup_ret by done.
  split; [done|]. destruct (woken_fold flag chan (slots k) k) as [H1 H2]; [apply NoDup_seq|].
  split; [|split].
  - intros j. change (proc_at (settle ?x) j) with (proc_at x j). unfold woken. rewrite H1.
    destruct (decide (j ∈ slots k)) as [Hj|Hj]; [by rewrite bool_decide_eq_true_2|].
    rewrite bool_decide_eq_false_2 by done. simpl.
    destruct (sleeps_on k chan j) eqn:Hs; [|done]. apply sleeps_on_true in Hs as [Hs _].
    destruct Hj. unfold slots. apply elem_of_seq.
    destruct (decide (j < length (k_ptable k))%nat); [lia|].
    unfold proc_at in Hs. rewrite list_lookup_total_alt, lookup_ge_None_2 in Hs by lia. done.
  - apply rr_repr_settle. apply H2; [done..|]. intros i Hi. apply elem_of_seq in Hi.
    split; [lia|]. intros [Hs _]%sleeps_on_true. by apply Hq.
  - apply (woken_sync flag chan k).
Qed.

(** ** Killing *)

Lemma killed_at_proc flag i k j :
  (i < length (k_ptable k))%nat →
  unlinked (proc_at (killed_at flag i k) j) =
  unlinked (if decide (i = j) then
              ready_if (bool_decide (p_state (proc_at k i) = SLEEPING)) (set_p_killed 1 (proc_at k j))
            else proc_at k j).
Proof.
  intros Hi. unfold killed_at. set (k1 := upd_proc i (set_p_killed 1) k).
  assert (proc_at k1 i = set_p_killed 1 (proc_at k i)) as E1 by (unfold k1; by rewrite proc_at_upd_eq).
  rewrite E1. change (p_state (set_p_killed 1 (proc_at k i))) with (p_state (proc_at k i)).
  case_bool_decide as Hs; [rewrite made_ready_proc|].
  - unfold k1. rewrite upd_proc_compose, proc_at_upd.
    repeat case_decide; try naive_solver; subst; done.
  - unfold k1. rewrite proc_at_upd. repeat case_decide; try naive_solver; subst; done.
Qed.

(** [kill] on every branch: it returns -1 and changes nothing when no slot
    has the pid; otherwise it returns 0, sets [killed] in the first slot with the
    pid, and, if that process sleeps, makes it RUNNABLE and appends it to the
    queue so that it can reach the check on its way to user space. *)
Theorem kill_spec flag pid k q :
  outside k → rr_repr k q → sleepers_unqueued k q → uses_queue flag = true →
  ∃ r k', kill flag pid k = Ret r k' ∧ k_locks k' = k_locks k ∧
  match first_slot (has_pid pid) k with
  | None => r = -1 ∧ k_ptable k' = k_ptable k ∧ rr_repr k' q
  | Some i =>
      let asleep := bool_decide (p_state (proc_at k i) = SLEEPING) in
      r = 0 ∧
      (∀ j, unlinked (proc_at k' j) =
         unlinked (if decide (i = j) then ready_if asleep (set_p_killed 1 (proc_at k j))
                   else proc_at k j)) ∧
      rr_repr k' (if asleep then q ++ [i] else q)
  end.
Proof.
  intros Ho Hr Hq Hu. rewrite kill_ret by done.
  destruct (first_slot (has_pid pid) k) as [i|] eqn:Hf.
  - apply first_slot_Some in Hf as (Hi & _). do 2 eexists. split; [done|]. split.
    { unfold killed_at. simpl. case_bool_decide; [|done].
      by destruct (made_ready_sync flag i (upd_proc i (set_p_killed 1) k)) as (_ & _ & ->). }
    split; [done|]. split; [intros j; apply (killed_at_proc flag i k j Hi)|].
    apply rr_repr_settle. unfold killed_at. rewrite proc_at_upd_eq by done. simpl.
    assert (rr_repr (upd_proc i (set_p_killed 1) k) q) as Hr1 by (by apply rr_repr_upd_at).
    case_bool_decide as Hs; [|done].
    pose proof (made_ready_repr flag i _ q Hr1 (Hq i Hs)) as Hrr. rewrite Hu in Hrr.
    apply Hrr. by rewrite length_upd_proc.
  - do 2 eexists. split; [done|]. split; [done|]. split; [done|]. split; [done|].
    by apply rr_repr_settle.
Qed.

(** [kill(0)] plants a kill in a free slot.  A free slot has pid 0 (as
    [wait] leaves it); [kill(0)] finds it, reports success and sets its [killed]
    flag, which neither [allocproc] nor [fork] clears: the next process to get
    the slot is born killed. *)
Theorem kill_zero_marks_next_child flag k i :
  outside k → first_slot is_unused k = Some i → first_slot (has_pid 0) k = Some i →
  ∃ k1 k2, kill flag 0 k = Ret 0 k1 ∧ locked PtableLock alloc_slot k1 = Ret (Some i) k2 ∧
    p_state (proc_at k2 i) = EMBRYO ∧ p_killed (proc_at k2 i) = 1.
Proof.
  intros Ho Hu H0. pose proof (first_slot_Some _ _ _ Hu) as (Hi & Hui & Hmin).
  unfold is_unused in Hui. apply bool_decide_eq_true_1 in Hui.
  rewrite kill_ret, H0 by done. exists (settle (killed_at flag i k)).
  assert (killed_at flag i k = upd_proc i (set_p_killed 1) k) as Ek.
  { unfold killed_at. rewrite proc_at_upd_eq by done. simpl. by rewrite Hui. }
  rewrite Ek. set (k1 := settle (upd_proc i (set_p_killed 1) k)).
  assert (outside k1) as Ho1.
  { destruct Ho as [Hn Hc Hp Hr Ht]. split; [by apply nest_ok_settle|..]; try done.
    unfold k1. rewrite this_cpu_settle by apply Hn. by case_decide. }
  assert (first_slot is_unused k1 = Some i) as Hu1.
  { rewrite <-Hu. unfold first_slot. change (slots k1) with (seq 0 (length (k_ptable (upd_proc i (set_p_killed 1) k)))).
    rewrite length_upd_proc. f_equal. apply list_filter_ext. intros j _.
    change (proc_at k1 j) with (proc_at (upd_proc i (set_p_killed 1) k) j).
    unfold is_unused. rewrite proc_at_upd. case_decide as Hd; [|done]. by destruct Hd as [-> _]. }
  exists (settle (allocated i k1)). split; [done|]. split; [by rewrite alloc_slot_locked, Hu1|].
  assert (∀ f, proc_at (upd_proc i f k1) i = f (proc_at k1 i)) as Hat
    by (intros f; apply proc_at_upd_eq; change (length (k_ptable k1)) with
          (length (k_ptable (upd_proc i (set_p_killed 1) k))); by rewrite length_upd_proc).
  change (proc_at (settle (allocated i k1)) i) with (proc_at (upd_proc i
    (λ x, set_p_ctime (k_ticks k1) (set_p_pid (k_nextpid k1) (set_p_state EMBRYO x))) k1) i).
  rewrite Hat. split; [done|]. simpl.
  change (proc_at k1 i) with (proc_at (upd_proc i (set_p_killed 1) k) i). by rewrite proc_at_upd_eq.
Qed.

(** ** Exiting *)

(** Some sleepers have been woken; parents aside, nothing else happened. *)
Record awakens k k' : Prop := {
  aw_len : length (k_ptable k') = length (k_ptable k);
  aw_init : k_initproc k' = k_initproc k;
  aw_ticks : k_ticks k' = k_ticks k;
  aw_chan : ∀ i, p_chan (proc_at k' i) = p_chan (proc_at k i);
  aw_state : ∀ i, st k' i = st k i ∨ (st k i = SLEEPING ∧ st k' i = RUNNABLE)
}.

#[global] Instance awakens_preorder : PreOrder awakens.
Proof.
  split; [by split; auto|]. intros k1 k2 k3 [] []. split; try congruence.
  intros i. destruct (aw_state0 i) as [H1|[H1 H2]], (aw_state1 i) as [H3|[H3 H4]];
    rewrite ?H1, ?H3 in *; naive_solver congruence.
Qed.

Lemma unlinked_field {A} (f : proc → A) p p' :
  (∀ x, f (unlinked x) = f x) → unlinked p' = unlinked p → f p' = f p.
Proof. intros Hf He. by rewrite <-(Hf p'), He, Hf. Qed.

Lemma ready_if_state k chan i :
  p_state (ready_if (sleeps_on k chan i) (proc_at k i)) = p_state (proc_at k i) ∨
  (p_state (proc_at k i) = SLEEPING ∧
   p_state (ready_if (sleeps_on k chan i) (proc_at k i)) = RUNNABLE).
Proof.
  destruct (sleeps_on k chan i) eqn:Hs; [|by left]. right. apply sleeps_on_true in Hs as [? _].
  by split.
Qed.

Lemma woken_proc flag chan k j :
  unlinked (proc_at (woken flag chan k) j) = unlinked (ready_if (sleeps_on k chan j) (proc_at k j)).
Proof.
  unfold woken. rewrite (proj1 (woken_fold flag chan (slots k) k (NoDup_seq _ _))).
  destruct (decide (j ∈ slots k)) as [Hj|Hj]; [by rewrite bool_decide_eq_true_2|].
  rewrite bool_decide_eq_false_2 by done. simpl.
  destruct (sleeps_on k chan j) eqn:Hs; [|done]. apply sleeps_on_true in Hs as [Hs _].
  destruct Hj. unfold slots. apply elem_of_seq.
  destruct (decide (j < length (k_ptable k))%nat); [lia|].
  unfold proc_at in Hs. rewrite list_lookup_total_alt, lookup_ge_None_2 in Hs by lia. done.
Qed.

Lemma woken_rest flag chan k : rest (woken flag chan k) = rest k.
Proof.
  unfold woken. generalize (slots k) as l. intros l. revert k.
  induction l as [|x l IH]; intros k; simpl; [done|]. rewrite IH. unfold woken1.
  destruct (sleeps_on k chan x); [apply made_ready_rest|done].
Qed.

Lemma woken_awakens flag chan k :
  awakens k (woken flag chan k) ∧
  (∀ i, p_parent (proc_at (woken flag chan k) i) = p_parent (proc_at k i)) ∧
  (∀ i, sleeps_on k chan i = true → st (woken flag chan k) i = RUNNABLE).
Proof.
  pose proof (woken_rest flag chan k) as Hrest. unfold rest in Hrest.
  pose proof (woken_proc flag chan k) as Hp.
  assert (∀ i, st (woken flag chan k) i = p_state (ready_if (sleeps_on k chan i) (proc_at k i))) as Hst.
  { intros i. by apply (unlinked_field p_state). }
  split; [split|split].
  - apply woken_len.
  - congruence.
  - congruence.
  - intros i. rewrite (unlinked_field p_chan _ _ (λ _, eq_refl) (Hp i)).
    by destruct (sleeps_on k chan i).
  - intros i. rewrite Hst. apply ready_if_state.
  - intros i. rewrite (unlinked_field p_parent _ _ (λ _, eq_refl) (Hp i)).
    by destruct (sleeps_on k chan i).
  - intros i Hs. rewrite Hst, Hs. done.
Qed.

Lemma upd_parent_awakens i p k : awakens k (upd_proc i (set_p_parent p) k).
Proof.
  split; [apply length_upd_proc|done..| |].
  - intros j. rewrite proc_at_upd. case_decide; naive_solver.
  - intros j. left. rewrite st_upd. by case_decide.
Qed.

Lemma upd_parent_parent i p k j :
  p_parent (proc_at (upd_proc i (set_p_parent p) k) j) =
  if decide (i = j ∧ (i < length (k_ptable k))%nat) then p else p_parent (proc_at k j).
Proof. rewrite proc_at_upd. case_decide; naive_solver. Qed.

Lemma adopted1_spec flag cur k i :
  (i < length (k_ptable k))%nat →
  awakens k (adopted1 flag cur k i) ∧
  (∀ j, p_parent (proc_at (adopted1 flag cur k i) j) =
     if decide (i = j ∧ p_parent (proc_at k j) = Some cur) then k_initproc k
     else p_parent (proc_at k j)) ∧
  (p_parent (proc_at k i) = Some cur → st k i = ZOMBIE →
   ∀ j, st k j = SLEEPING → p_chan (proc_at k j) = chan_of (k_initproc k) →
        st (adopted1 flag cur k i) j = RUNNABLE).
Proof.
  intros Hi. unfold adopted1. case_decide as Hp.
  2:{ split; [done|]. split; [|done]. intros j. case_decide; naive_solver. }
  set (k1 := upd_proc i (set_p_parent (k_initproc k)) k).
  assert (awakens k k1) as Ha1 by apply upd_parent_awakens.
  assert (∀ j, p_parent (proc_at k1 j) =
    if decide (i = j ∧ p_parent (proc_at k j) = Some cur) then k_initproc k
    else p_parent (proc_at k j)) as Hpar.
  { intros j. unfold k1. rewrite upd_parent_parent. repeat case_decide; naive_solver. }
  assert (st k1 i = st k i) as Hst by (unfold k1; rewrite st_upd; by case_decide).
  case_bool_decide as Hz.
  - destruct (woken_awakens flag (chan_of (k_initproc k)) k1) as (H1 & H2 & H3).
    split; [by etrans|]. split; [intros j; by rewrite H2, Hpar|].
    intros _ _ j Hj Hc. apply H3, sleeps_on_true. rewrite (aw_chan _ _ Ha1). split; [|done].
    change (st k1 j = SLEEPING). unfold k1. rewrite st_upd. by case_decide.
  - split; [done|]. split; [done|]. intros _ Hzk. destruct Hz. by rewrite <-Hst in Hzk.
Qed.

Lemma adopted_fold flag cur l k :
  NoDup l → (∀ i, i ∈ l → (i < length (k_ptable k))%nat) → Some cur ≠ k_initproc k →
  let k' := foldl (adopted1 flag cur) k l in
  awakens k k' ∧
  (∀ j, p_parent (proc_at k' j) =
     if decide (j ∈ l ∧ p_parent (proc_at k j) = Some cur) then k_initproc k
     else p_parent (proc_at k j)) ∧
  (∀ i, i ∈ l → p_parent (proc_at k i) = Some cur → st k i = ZOMBIE →
   ∀ j, st k j = SLEEPING → p_chan (proc_at k j) = chan_of (k_initproc k) → st k' j = RUNNABLE).
Proof.
  revert k. induction l as [|i l IH]; intros k Hnd Hl Hne; simpl.
  { split; [done|]. split; [|set_solver]. done. }
  apply NoDup_cons in Hnd as [Hil Hnd].
  destruct (adopted1_spec flag cur k i) as (A1 & P1 & W1); [apply Hl; left|].
  set (k1 := adopted1 flag cur k i) in *.
  destruct (IH k1) as (A2 & P2 & W2); [done| |by rewrite (aw_init _ _ A1)|].
  { intros j Hj. rewrite (aw_len _ _ A1). apply Hl. by right. }
  set (k' := foldl (adopted1 flag cur) k1 l) in *. rewrite (aw_init _ _ A1) in P2, W2.
  split; [by etrans|]. split.
  - intros j. rewrite P2, P1. repeat case_decide; set_solver.
  - intros x Hx Hpx Hzx j Hj Hcj.
    assert (st k1 j = RUNNABLE → st k' j = RUNNABLE) as Hkeep
      by (intros H; destruct (aw_state _ _ A2 j); naive_solver congruence).
    apply elem_of_cons in Hx as [->|Hx]; [apply Hkeep; by apply W1|].
    destruct (aw_state _ _ A1 j) as [He|[_ He]]; [|by apply Hkeep].
    apply (W2 x); [done| | |by rewrite He|by rewrite (aw_chan _ _ A1)].
    + rewrite P1, decide_False; [done|]. intros [-> _]. done.
    + destruct (aw_state _ _ A1 x) as [->|[? _]]; congruence.
Qed.

Lemma zombified_spec flag cur k :
  (cur < length (k_ptable k))%nat → Some cur ≠ k_initproc k → st k cur ≠ SLEEPING →
  let k' := zombified flag cur k in
  st k' cur = ZOMBIE ∧ p_ttime (proc_at k' cur) = k_ticks k ∧
  (∀ j, p_parent (proc_at k' j) =
     if decide (p_parent (proc_at k j) = Some cur) then k_initproc k else p_parent (proc_at k j)) ∧
  (∀ j, j ≠ cur → st k' j = st k j ∨ (st k j = SLEEPING ∧ st k' j = RUNNABLE)) ∧
  (∀ j, st k j = SLEEPING → p_chan (proc_at k j) = chan_of (p_parent (proc_at k cur)) →
     st k' j = RUNNABLE) ∧
  (∀ i j, p_parent (proc_at k i) = Some cur → st k i = ZOMBIE →
     st k j = SLEEPING → p_chan (proc_at k j) = chan_of (k_initproc k) → st k' j = RUNNABLE).
Proof.
  intros Hcur Hne Hns k'. unfold k', zombified.
  destruct (woken_awakens flag (chan_of (p_parent (proc_at k cur))) k) as (A1 & P1 & W1).
  set (k1 := woken flag _ k) in *.
  destruct (adopted_fold flag cur (slots k1) k1) as (A2 & P2 & W2); [apply NoDup_seq| | |].
  { intros i Hi. apply elem_of_seq in Hi. lia. }
  { by rewrite (aw_init _ _ A1). }
  set (k2 := foldl (adopted1 flag cur) k1 (slots k1)) in *.
  assert (awakens k k2) as A by (by etrans).
  rewrite upd_proc_compose. set (f := λ p, set_p_ttime (k_ticks k2) (set_p_state ZOMBIE p)).
  assert (cur < length (k_ptable k2))%nat as Hcur2 by (by rewrite (aw_len _ _ A)).
  assert (∀ j, st (upd_proc cur f k2) j = if decide (cur = j) then ZOMBIE else st k2 j) as Hst.
  { intros j. rewrite st_upd. repeat case_decide; naive_solver. }
  assert (∀ j, p_parent (proc_at (upd_proc cur f k2) j) = p_parent (proc_at k2 j)) as Hpar.
  { intros j. rewrite proc_at_upd. case_decide; naive_solver. }
  assert (∀ j, p_parent (proc_at k j) = Some cur → j ∈ slots k1) as Hin.
  { intros j Hj. apply elem_of_seq. rewrite (aw_len _ _ A1).
    destruct (decide (j < length (k_ptable k))%nat); [lia|].
    unfold proc_at in Hj. rewrite list_lookup_total_alt, lookup_ge_None_2 in Hj by lia. done. }
  assert (∀ j, st k1 j = RUNNABLE → st k2 j = RUNNABLE) as Hkeep.
  { intros j Hj. destruct (aw_state _ _ A2 j); naive_solver congruence. }
  split; [by rewrite Hst, decide_True|].
  split; [rewrite proc_at_upd_eq by done; simpl; apply (aw_ticks _ _ A)|].
  split; [|split; [|split]].
  - intros j. rewrite Hpar, P2, P1, (aw_init _ _ A1). pose proof (Hin j).
    repeat case_decide; naive_solver.
  - intros j Hj. rewrite Hst, decide_False by done. apply (aw_state _ _ A).
  - intros j Hj Hc. rewrite Hst, decide_False by (intros ->; done).
    apply Hkeep, W1, sleeps_on_true. done.
  - intros i j Hpi Hzi Hj Hc. rewrite Hst, decide_False by (intros ->; done).
    destruct (aw_state _ _ A1 j) as [He|[_ He]]; [|by apply Hkeep].
    apply (W2 i); [by apply Hin|by rewrite P1| |by rewrite He|by rewrite (aw_chan _ _ A1), (aw_init _ _ A1)].
    destruct (aw_state _ _ A1 i) as [->|[? _]]; congruence.
Qed.


End spec.

(** ** Witnesses *)

(** A process sleeps on [ticks]; another one, its parent, runs. *)
Definition spec_demo : core Z :=
  upd_cpu (set_c_proc (Some 1%nat))
    (upd_proc 0 (λ p, set_p_parent (Some 1%nat) (set_p_pid 7 (set_p_chan ChTicks (set_p_state SLEEPING p))))
      (upd_proc 1 (λ p, set_p_pid 3 (set_p_state RUNNING p)) (boot_core 1 4096))).

Lemma spec_demo_outside : outside spec_demo.
Proof. by split; vm_compute. Qed.

Lemma spec_demo_repr : rr_repr spec_demo [].
Proof.
  apply (rr_repr_same (upd_proc 0 (λ p, set_p_parent (Some 1%nat) (set_p_pid 7 (set_p_chan ChTicks (set_p_state SLEEPING p))))
      (upd_proc 1 (λ p, set_p_pid 3 (set_p_state RUNNING p)) (boot_core 1 4096)))); [|done..].
  apply rr_repr_upd; [done|]. apply rr_repr_upd; [done|]. apply rr_repr_boot.
Qed.

Lemma wakeup_spec_witness : ∃ k', wakeup FRR ChTicks spec_demo = Ret tt k' ∧ rr_repr k' [0%nat].
Proof.
  destruct (wakeup_spec FRR ChTicks spec_demo [] spec_demo_outside spec_demo_repr) as (k' & H1 & _ & H2 & _).
  - intros i _. apply not_elem_of_nil.
  - done.
  - exists k'. split; [exact H1|exact H2].
Defined.

Lemma kill_spec_witness : ∃ k', kill FRR 7 spec_demo = Ret 0 k' ∧ rr_repr k' [0%nat].
Proof.
  destruct (kill_spec FRR 7 spec_demo [] spec_demo_outside spec_demo_repr) as (r & k' & H1 & _ & H2).
  - intros i _. apply not_elem_of_nil.
  - done.
  - assert (first_slot (has_pid 7) spec_demo = Some 0%nat) as E by (by vm_compute).
    rewrite E in H2. destruct H2 as (-> & _ & H2). exists k'. split; [exact H1|exact H2].
Defined.

Lemma kill_zero_marks_next_child_witness :
  ∃ k1 k2, kill FRR 0 spec_demo = Ret 0 k1 ∧ locked PtableLock alloc_slot k1 = Ret (Some 2%nat) k2 ∧
    p_state (proc_at k2 2) = EMBRYO ∧ p_killed (proc_at k2 2) = 1.
Proof.
  apply (kill_zero_marks_next_child FRR spec_demo 2 spec_demo_outside); by vm_compute.
Defined.


