(* ===== verification/ProcLife.v ===== *)
(** * The life of a process: fork and wait

    What [fork] (proc.c) gives the child and what [wait] does with it at the
    end, on every branch, over services that return and change nothing of the
    kernel core but their own state. *)

From stdpp Require Import base list gmap strings.
From Stdlib Require Import ZArith Lia.
From S2P Require Import Prelude KState Spinlock RRQueue Lottery CString Proc ProcForms ProcInv KMachine.

Section life.
Context {V : Type} {SV : Services V}.
Abbreviation K := (core V).
Implicit Types (k b : K).

(** ** Well-behaved services *)

(** A call that returns [a] and changes only the services' own state. *)
Definition gives {A} (m : M K A) (a : A) : Prop :=
  ∀ k, settle k = k → ∃ v, m k = Ret a (set_k_ext v k).
Definition tidy {A} (m : M K A) : Prop :=
  ∀ k, settle k = k → ∃ a v, m k = Ret a (set_k_ext v k).

(** The state in which slot [np] holds [x] and the trap frames are [t], and
    which else agrees with [b] but for the kernel stacks and the services. *)
Definition grown (np : nat) b (x : proc) (t : gmap Z trapframe) k : Prop :=
  ∃ v w c, k = set_k_ext v (set_k_wordmem w (set_k_ctxmem c (set_k_tfmem t (upd_proc np (λ _, x) b)))).

Section grown.
Context (np : nat) (b : K).
Hypothesis (Hnp : (np < length (k_ptable b))%nat) (Hb : settle b = b).

Lemma grown_np x t k : grown np b x t k → proc_at k np = x.
Proof.
  intros (v & w & c & ->). change (proc_at (upd_proc np (λ _, x) b) np = x).
  by rewrite proc_at_upd_eq.
Qed.

Lemma grown_other x t k j : grown np b x t k → j ≠ np → proc_at k j = proc_at b j.
Proof.
  intros (v & w & c & ->) Hj. change (proc_at (upd_proc np (λ _, x) b) j = proc_at b j).
  by rewrite proc_at_upd_ne.
Qed.

Lemma grown_sync x t k : grown np b x t k → same_sync b k.
Proof. by intros (v & w & c & ->). Qed.

Lemma grown_len x t k : grown np b x t k → length (k_ptable k) = length (k_ptable b).
Proof. intros (v & w & c & ->). apply length_upd_proc. Qed.

Lemma settle_ext_eq k k' : same_sync k k' → settle k = k → settle k' = k'.
Proof.
  intros (H1 & H2 & _) He. unfold settle, upd_cpu in *.
  assert (k_cpus k = alter (λ c, if decide (c_ncli c = 0)
    then set_c_intena (Z.land (c_eflags c) FL_IF) c else c) (k_mycpu k) (k_cpus k)) as Hc
    by (by rewrite <-He at 1).
  rewrite H1, H2, <-Hc, <-H1. by destruct k'.
Qed.

Lemma grown_settled x t k : grown np b x t k → settle k = k.
Proof. intros Hg%grown_sync. by eapply settle_ext_eq. Qed.

Lemma grown_upd f x t k : grown np b x t k → grown np b (f x) t (upd_proc np f k).
Proof.
  intros (v & w & c & ->). exists v, w, c.
  change (upd_proc np f (set_k_ext v (set_k_wordmem w (set_k_ctxmem c (set_k_tfmem t ?y)))))
    with (set_k_ext v (set_k_wordmem w (set_k_ctxmem c (set_k_tfmem t (upd_proc np f y))))).
  by rewrite upd_proc_compose.
Qed.

Lemma grown_assign {B} f x t k (m : M K B) Q :
  grown np b x t k → (∀ k', grown np b (f x) t k' → wp m Q k') → wp (assign np f ;; m) Q k.
Proof. intros Hg Hm. apply wp_bind, Hm. by apply grown_upd. Qed.

Lemma grown_field {A B} (f : proc → A) x t k (m : A → M K B) Q :
  grown np b x t k → wp (m (f x)) Q k → wp (field np f ≫= m) Q k.
Proof.
  intros Hg Hm. apply wp_bind. unfold field, wp, gets. by rewrite (grown_np _ _ _ Hg).
Qed.

Lemma grown_field_other {A B} (f : proc → A) j x t k (m : A → M K B) Q :
  grown np b x t k → j ≠ np → wp (m (f (proc_at b j))) Q k → wp (field j f ≫= m) Q k.
Proof.
  intros Hg Hj Hm. apply wp_bind. unfold field, wp, gets.
  by rewrite (grown_other _ _ _ _ Hg Hj).
Qed.

Lemma grown_gives {A B} (c : M K A) a x t k (m : A → M K B) Q :
  gives c a → grown np b x t k → (∀ k', grown np b x t k' → wp (m a) Q k') → wp (c ≫= m) Q k.
Proof.
  intros Hc Hg Hm. destruct (Hc k (grown_settled _ _ _ Hg)) as [v Hv]. apply wp_bind.
  unfold wp at 1. rewrite Hv. apply Hm. destruct Hg as (v' & w & d & ->). by exists v, w, d.
Qed.

Lemma grown_tidy {A B} (c : M K A) x t k (m : A → M K B) Q :
  tidy c → grown np b x t k → (∀ a k', grown np b x t k' → wp (m a) Q k') → wp (c ≫= m) Q k.
Proof.
  intros Hc Hg Hm. destruct (Hc k (grown_settled _ _ _ Hg)) as (a & v & Hv). apply wp_bind.
  unfold wp at 1. rewrite Hv. apply Hm. destruct Hg as (v' & w & d & ->). by exists v, w, d.
Qed.
End grown.

(** ** fork *)

Definition dup_slots (from : list (option nat)) (to : list (option nat)) (l : list nat) :=
  foldl (λ acc fd, match from !!! fd with Some a => <[fd := Some a]> acc | None => acc end) to l.

(** The process [fork] makes of the slot [x], child of [cur] in [b]: what is
    copied from the parent, and what is set afresh. *)
Definition copied b (cur : nat) (pgdir : Z) (x : proc) : proc :=
  let p := proc_at b cur in
  let x := set_p_parent (Some cur) (set_p_sz (p_sz p) (set_p_pgdir pgdir x)) in
  let x := set_p_ofile (dup_slots (p_ofile p) (p_ofile x) (seq 0 NOFILE)) x in
  let x := set_p_cwd (p_cwd p) x in
  set_p_name (strcpy_array 16 (p_name x) (p_name p)) x.

Definition timed b (cur : nat) (x : proc) : proc :=
  let x := set_p_ctime (k_ticks b) (set_p_rutime 0 (set_p_runQuanta 0 x)) in
  set_p_priority (p_priority (proc_at b cur))
    (set_p_retime 0 (set_p_stime 0 (set_p_ttime 0 x))).

Section fork.
Context (flag : schedflag) (np cur : nat) (b : K).
Hypothesis (Hnp : (np < length (k_ptable b))%nat) (Hb : settle b = b) (Hne : cur ≠ np).
Hypothesis (filedup_law : ∀ f, gives (svc_filedup f) f) (idup_law : ∀ d, gives (svc_idup d) d).

Lemma dup_loop x t k l :
  grown np b x t k →
  wp (for_each (dup_file cur np) l)
    (λ _, grown np b (set_p_ofile (dup_slots (p_ofile (proc_at b cur)) (p_ofile x) l) x) t) k.
Proof.
  revert x k. induction l as [|fd l IH]; intros x k Hg.
  { simpl. by destruct x. }
  cbn [for_each]. unfold dup_file at 1. apply wp_bind.
  eapply grown_field_other; [done..|]. cbn [dup_slots foldl]. fold (dup_slots (p_ofile (proc_at b cur))).
  destruct (p_ofile (proc_at b cur) !!! fd) as [a|]; [|by apply IH].
  eapply (grown_gives np b Hb (svc_filedup a)); [done..|]. intros k1 Hg1.
  pose proof (grown_assign np b (λ p, set_p_ofile (<[fd := Some a]> (p_ofile p)) p) x t k1
    (for_each (dup_file cur np) l)) as Ha.
  apply wp_bind. apply Ha; [done|]. intros k2 Hg2. by apply IH in Hg2.
Qed.

Lemma grown_frame {B} (f : gmap Z trapframe → gmap Z trapframe) x t k (m : M K B) Q :
  grown np b x t k → (∀ k', grown np b x (f t) k' → wp m Q k') →
  wp (modify (λ k, set_k_tfmem (f (k_tfmem k)) k) ;; m) Q k.
Proof. intros (v & w & c & ->) Hm. apply wp_bind. apply Hm. by exists v, w, c. Qed.

Lemma fork_copy_grown x t k pgdir frame :
  grown np b x t k → t !! p_tf (proc_at b cur) = Some frame →
  wp (fork_copy cur np pgdir)
    (λ _ k', ∃ t', t' !! p_tf x = Some (set_tf_eax 0 frame) ∧
       grown np b (copied b cur pgdir x) t' k') k.
Proof.
  intros Hg Ht. unfold fork_copy.
  eapply grown_assign; [done|]. clear k Hg. intros k Hg.
  eapply grown_field_other; [done..|].
  eapply grown_assign; [done|]. clear k Hg. intros k Hg.
  eapply grown_assign; [done|]. clear k Hg. intros k Hg.
  eapply grown_field_other; [done..|]. eapply grown_field; [done..|].
  apply wp_bind. unfold wp at 1, gets at 1.
  assert (k_tfmem k = t) as -> by (by destruct Hg as (? & ? & ? & ->)). rewrite Ht.
  eapply (grown_frame (<[_ := _]>)); [done|]. clear k Hg. intros k Hg. unfold upd_tf.
  eapply (grown_frame (alter _ _)); [done|]. clear k Hg. intros k Hg.
  apply wp_bind. eapply wp_mono; [by apply dup_loop|]. clear k Hg. intros ? k Hg. cbv beta in Hg.
  eapply grown_field_other; [done..|].
  eapply (grown_gives np b Hb (svc_idup _)); [done..|]. clear k Hg. intros k Hg.
  eapply grown_assign; [done|]. clear k Hg. intros k Hg.
  eapply grown_field_other; [done..|].
  set (frames := alter _ _ _) in Hg.
  exists frames. split; [|by apply (grown_upd np b (λ p, set_p_name _ p))].
  unfold frames. simpl. by rewrite lookup_alter_eq, lookup_insert_eq.
Qed.

Lemma fork_times_grown x t k :
  outside b → grown np b x t k →
  wp (fork_times cur np)
    (λ _, grown np b (timed b cur x) t) k.
Proof.
  intros Ho Hg. unfold fork_times.
  eapply grown_assign; [done|]. clear k Hg. intros k Hg.
  eapply grown_assign; [done|]. clear k Hg. intros k Hg.
  apply wp_bind. assert (ctime_now np k = Ret tt (upd_proc np (set_p_ctime (k_ticks b)) k)) as Hc.
  { pose proof (grown_sync _ _ _ _ _ Hg) as Hs.
    rewrite <-(settle_ext_eq k (upd_proc np _ k)) at 1; [|done|by eapply grown_settled].
    apply critical; [|by eapply lock_idle_sync, Ho|done|].
    - eapply nest_ok_sync; [done|]. apply (nest_ok_le 2); [lia|apply Ho].
    - unfold mbind, M_bind, gets, assign, modify.
      by destruct Hg as (? & ? & ? & ->). }
  unfold wp at 1. rewrite Hc.
  assert (grown np b (set_p_ctime (k_ticks b) (set_p_rutime 0 (set_p_runQuanta 0 x))) t
    (upd_proc np (set_p_ctime (k_ticks b)) k)) as Hg'.
  { by apply (grown_upd np b (set_p_ctime (k_ticks b))). }
  clear Hc. revert Hg'. generalize (upd_proc np (set_p_ctime (k_ticks b)) k). clear k Hg. intros k Hg.
  eapply grown_assign; [done|]. clear k Hg. intros k Hg.
  eapply grown_assign; [done|]. clear k Hg. intros k Hg.
  eapply grown_assign; [done|]. clear k Hg. intros k Hg.
  eapply grown_field_other; [done..|].
  by apply (grown_upd np b (set_p_priority _)).
Qed.
End fork.

(** The slot as it is claimed under [ptable.lock], and as [allocproc] leaves it. *)
Definition embryo k (np : nat) : proc :=
  set_p_ctime (k_ticks k) (set_p_pid (k_nextpid k) (set_p_state EMBRYO (proc_at k np))).

Definition new_proc k (np : nat) (kstack : Z) : proc :=
  set_p_context (kstack + KSTACKSIZE - SIZEOF_TRAPFRAME - 4 - SIZEOF_CONTEXT)
    (set_p_tf (kstack + KSTACKSIZE - SIZEOF_TRAPFRAME)
      (set_p_kstack kstack (embryo k np))).

Lemma grown_refl np b : (np < length (k_ptable b))%nat → grown np b (proc_at b np) (k_tfmem b) b.
Proof.
  intros Hnp. exists (k_ext b), (k_wordmem b), (k_ctxmem b). unfold upd_proc.
  rewrite (list_alter_ext _ id _ (k_ptable b)), list_alter_id; [by destruct b|done| |done]. intros x Hx.
  unfold proc_at. by rewrite (list_lookup_total_correct _ _ _ Hx).
Qed.

Lemma grown_word np b x t f k :
  grown np b x t k → grown np b x t (set_k_wordmem (f (k_wordmem k)) k).
Proof. intros (v & w & c & ->). by exists v, (f w), c. Qed.

Lemma grown_ctx np b x t f k :
  grown np b x t k → grown np b x t (set_k_ctxmem (f (k_ctxmem k)) k).
Proof. intros (v & w & c & ->). by exists v, w, (f c). Qed.

Lemma alloc_stack_grown np b x t k kstack :
  grown np b x t k →
  wp (alloc_stack np kstack)
    (λ _, grown np b (set_p_context (kstack + KSTACKSIZE - SIZEOF_TRAPFRAME - 4 - SIZEOF_CONTEXT)
       (set_p_tf (kstack + KSTACKSIZE - SIZEOF_TRAPFRAME) x)) t) k.
Proof.
  intros Hg. unfold alloc_stack. eapply grown_assign; [done|]. clear k Hg. intros k Hg.
  apply wp_bind. eapply grown_assign; [by apply grown_word|]. clear k Hg. intros k Hg.
  apply wp_bind. by do 2 apply grown_ctx.
Qed.

(** [allocproc] either finds no memory for a stack and gives the slot back, or
    returns the slot with its stack laid out. *)
Lemma allocproc_grown k np :
  tidy svc_kalloc → outside k → first_slot is_unused k = Some np →
  let b := settle (allocated np k) in
  wp allocproc (λ r k', match r with
    | None => grown np b (set_p_state UNUSED (set_p_kstack 0 (embryo k np))) (k_tfmem k) k'
    | Some p => p = np ∧ ∃ ks, ks ≠ 0 ∧ grown np b (new_proc k np ks) (k_tfmem k) k'
    end) k.
Proof.
  intros Hka Ho Hf b. pose proof (first_slot_Some _ _ _ Hf) as (Hnp & _).
  assert (np < length (k_ptable b))%nat as Hnp' by (unfold b, allocated; simpl; by rewrite length_alter).
  assert (settle b = b) as Hb by apply settle_idem. unfold allocproc. apply wp_bind.
  unfold wp at 1. rewrite alloc_slot_locked, Hf by done.
  pose proof (grown_refl np b Hnp') as Hg. change (k_tfmem b) with (k_tfmem k) in Hg.
  assert (proc_at b np = embryo k np) as E.
  { change (proc_at b np) with (proc_at (upd_proc np (λ x, set_p_ctime (k_ticks k)
      (set_p_pid (k_nextpid k) (set_p_state EMBRYO x))) k) np). by rewrite proc_at_upd_eq. }
  rewrite E in Hg. clear E. eapply (grown_tidy np b Hb svc_kalloc); [done..|]. intros ks k1 Hg1.
  eapply grown_assign; [done|]. intros k2 Hg2. case_decide as Hks.
  - eapply grown_assign; [done|]. intros k3 Hg3. by subst ks.
  - apply wp_bind. eapply wp_mono; [by apply alloc_stack_grown|]. intros ? k3 Hg3.
    split; [done|]. by exists ks.
Qed.

Lemma grown_repr np b x t k q :
  grown np b x t k → p_rrnext x = p_rrnext (proc_at b np) → p_rrprev x = p_rrprev (proc_at b np) →
  rr_repr b q → rr_repr k q.
Proof.
  intros (v & w & c & ->) H1 H2 Hr.
  apply (rr_repr_same (upd_proc np (λ _, x) b)); [|done..]. by apply rr_repr_upd_at.
Qed.

Lemma fork_ready_locked flag np k :
  outside k → locked PtableLock (fork_ready flag np) k = Ret tt (settle (made_ready flag np k)).
Proof.
  intros Ho. apply ptable_section; [done|apply made_ready_sync|].
  unfold fork_ready. rewrite <-made_ready_acquired. apply make_ready_ret. by apply outside_inside.
Qed.

(** What every outcome of [fork] keeps: the locks and the other processes. *)
Lemma grown_kept np k x t k' :
  grown np (settle (allocated np k)) x t k' →
  k_locks k' = k_locks k ∧ ∀ j, j ≠ np → proc_at k' j = proc_at k j.
Proof.
  intros Hg. split; [by destruct Hg as (? & ? & ? & ->)|]. intros j Hj.
  rewrite (grown_other _ _ _ _ _ _ Hg Hj).
  change (proc_at (settle (allocated np k)) j) with (proc_at (upd_proc np (λ x, set_p_ctime (k_ticks k)
      (set_p_pid (k_nextpid k) (set_p_state EMBRYO x))) k) j). by rewrite proc_at_upd_ne.
Qed.

(** The outcomes of [fork] once a slot [np] was free: [None], memory ran out;
    [Some pid], the slot is the child. *)
Definition fork_failed k np q k' : Prop :=
  st k' np = UNUSED ∧ p_kstack (proc_at k' np) = 0 ∧ rr_repr k' q.

Definition fork_done flag k cur np q frame k' : Prop :=
  rr_repr k' (if uses_queue flag then q ++ [np] else q) ∧
  (∃ kstack pgdir, kstack ≠ 0 ∧ pgdir ≠ 0 ∧ unlinked (proc_at k' np) =
     unlinked (set_p_state RUNNABLE (timed k cur (copied k cur pgdir (new_proc k np kstack))))) ∧
  k_tfmem k' !! p_tf (proc_at k' np) = Some (set_tf_eax 0 frame).

Definition forked flag k cur np q frame (r : Z) k' : Prop :=
  k_locks k' = k_locks k ∧
  (∀ j, j ≠ np → unlinked (proc_at k' j) = unlinked (proc_at k j)) ∧
  ((r = -1 ∧ fork_failed k np q k') ∨ (r = k_nextpid k ∧ fork_done flag k cur np q frame k')).

Section fork_run.
Context (flag : schedflag) (k : K) (cur np : nat) (q : list nat) (frame : trapframe).
Hypothesis (Hcu : ∀ d s, tidy (svc_copyuvm d s)) (Hkf : ∀ a, tidy (svc_kfree a)).
Hypothesis (Hfd : ∀ f, gives (svc_filedup f) f) (Hid : ∀ d, gives (svc_idup d) d).
Hypothesis (Ho : outside k) (Hc : curproc k = Some cur) (Hcl : (cur < length (k_ptable k))%nat).
Hypothesis (Hne : cur ≠ np) (Hnp : (np < length (k_ptable k))%nat).
Hypothesis (Hfr : k_tfmem k !! p_tf (proc_at k cur) = Some frame).
Hypothesis (Hr : rr_repr k q) (Hq : np ∉ q).

Lemma allocated_repr : rr_repr (settle (allocated np k)) q.
Proof.
  apply rr_repr_settle, (rr_repr_same (upd_proc np (λ x, set_p_ctime (k_ticks k)
      (set_p_pid (k_nextpid k) (set_p_state EMBRYO x))) k)); [|done..]. by apply rr_repr_upd_at.
Qed.

Lemma allocated_np : proc_at (settle (allocated np k)) np = embryo k np.
Proof.
  change (proc_at (upd_proc np (λ x, set_p_ctime (k_ticks k)
      (set_p_pid (k_nextpid k) (set_p_state EMBRYO x))) k) np = embryo k np).
  by rewrite proc_at_upd_eq.
Qed.

Lemma fork_failed_grown x t k' :
  grown np (settle (allocated np k)) x t k' → p_state x = UNUSED → p_kstack x = 0 →
  p_rrnext x = p_rrnext (proc_at k np) → p_rrprev x = p_rrprev (proc_at k np) →
  forked flag k cur np q frame (-1) k'.
Proof.
  intros Hg Hs Hk H1 H2. destruct (grown_kept _ _ _ _ _ Hg) as [Hl Hp]. split; [done|].
  split; [intros j Hj; by rewrite Hp|]. left. split; [done|].
  assert (proc_at k' np = x) as Hx.
  { eapply grown_np; [|done]. simpl. by rewrite length_alter. }
  split; [unfold st; by rewrite Hx|]. split; [by rewrite Hx|].
  eapply grown_repr; [done| | |apply allocated_repr]; by rewrite allocated_np.
Qed.

Lemma fork_ready_done x t k1 :
  let b := settle (allocated np k) in
  grown np b x t k1 →
  p_rrnext x = p_rrnext (proc_at k np) → p_rrprev x = p_rrprev (proc_at k np) →
  wp (locked PtableLock (fork_ready flag np)) (λ _ k',
    k_locks k' = k_locks k ∧
    (∀ j, j ≠ np → unlinked (proc_at k' j) = unlinked (proc_at k j)) ∧
    unlinked (proc_at k' np) = unlinked (set_p_state RUNNABLE x) ∧
    rr_repr k' (if uses_queue flag then q ++ [np] else q) ∧ k_tfmem k' = t) k1.
Proof.
  intros b Hg H1 H2.
  assert (np < length (k_ptable b))%nat as Hb by (unfold b, allocated; simpl; by rewrite length_alter).
  assert (outside k1) as Ho1.
  { eapply outside_sync; [by eapply grown_sync|]. by apply outside_settle, (outside_sync k). }
  unfold wp. rewrite fork_ready_locked by done.
  destruct (grown_kept _ _ _ _ _ Hg) as [Hl Hp]. pose proof (grown_np _ _ Hb _ _ _ Hg) as Hx.
  assert (∀ j, unlinked (proc_at (settle (made_ready flag np k1)) j) =
    unlinked (proc_at (upd_proc np (set_p_state RUNNABLE) k1) j)) as Hm
    by (intros j; apply (made_ready_proc flag np k1 j)).
  split; [|split; [|split; [|split]]].
  - rewrite <-Hl. apply (made_ready_sync flag np k1).
  - intros j Hj. by rewrite Hm, proc_at_upd_ne, Hp by done.
  - rewrite Hm, proc_at_upd_eq, Hx; [done|]. by rewrite (grown_len _ _ _ _ _ Hg).
  - apply rr_repr_settle, made_ready_repr; [|done|by rewrite (grown_len _ _ _ _ _ Hg)].
    eapply grown_repr; [done| | |apply allocated_repr]; unfold b; by rewrite allocated_np.
  - assert (rest (made_ready flag np k1) = rest k1) as Hrest by apply made_ready_rest.
    assert (k_tfmem (made_ready flag np k1) = k_tfmem k1) as E
      by (by injection Hrest). change (k_tfmem (made_ready flag np k1) = t). rewrite E.
    by destruct Hg as (? & ? & ? & ->).
Qed.

(** The rest of [fork] once [allocproc] has returned the slot. *)
Lemma fork_after_alloc ks k1 :
  let b := settle (allocated np k) in
  ks ≠ 0 → grown np b (new_proc k np ks) (k_tfmem k) k1 →
  wp (cur ← myproc;
      ppgdir ← field cur p_pgdir;
      psz ← field cur p_sz;
      pgdir ← svc_copyuvm ppgdir psz;
      if decide (pgdir = 0) then
        assign np (set_p_pgdir 0) ;;
        ks ← field np p_kstack;
        svc_kfree ks ;;
        assign np (set_p_kstack 0) ;;
        assign np (set_p_state UNUSED) ;;
        mret (-1)
      else
        fork_copy cur np pgdir ;;
        pid ← field np p_pid;
        fork_times cur np ;;
        locked PtableLock (fork_ready flag np) ;;
        mret pid) (forked flag k cur np q frame) k1.
Proof.
  intros b Hks Hg.
  assert (np < length (k_ptable b))%nat as Hbn by (unfold b, allocated; simpl; by rewrite length_alter).
  assert (settle b = b) as Hb by apply settle_idem.
  assert (outside b) as Hob by (by apply outside_settle, (outside_sync k)).
  assert (proc_at b cur = proc_at k cur) as Ecur.
  { apply (grown_kept np k _ _ _ (grown_refl np b Hbn)). done. }
  apply wp_bind. unfold wp at 1. rewrite (myproc_ret cur).
  2:{ rewrite <-Hc, <-(curproc_settle k).
      destruct (grown_sync _ _ _ _ _ Hg) as (H1 & H2 & _). unfold curproc, this_cpu. by rewrite H1, H2. }
  2:{ rewrite (grown_len _ _ _ _ _ Hg). unfold b, allocated; simpl. by rewrite length_alter. }
  do 2 (eapply grown_field_other; [done..|]).
  eapply (grown_tidy np b Hb (svc_copyuvm _ _)); [done..|]. clear k1 Hg. intros pgdir k1 Hg.
  case_decide as Hpg.
  - eapply grown_assign; [done|]. clear k1 Hg. intros k1 Hg. eapply grown_field; [done..|].
    eapply (grown_tidy np b Hb (svc_kfree _)); [done..|]. clear k1 Hg. intros [] k1 Hg.
    eapply grown_assign; [done|]. clear k1 Hg. intros k1 Hg.
    eapply grown_assign; [done|]. clear k1 Hg. intros k1 Hg.
    apply wp_ret. by eapply fork_failed_grown.
  - apply wp_bind. rewrite <-Ecur in Hfr.
    eapply wp_mono; [exact (fork_copy_grown np cur b Hbn Hb Hne Hfd Hid _ _ _ pgdir frame Hg Hfr)|].
    clear k1 Hg. intros ? k1 (t & Ht & Hg). eapply grown_field; [done..|].
    apply wp_bind. eapply wp_mono; [by apply (fork_times_grown np cur b Hbn Hb Hne (copied b cur pgdir (new_proc k np ks)) t)|].
    clear k1 Hg. intros ? k1 Hg. cbv beta in Hg. apply wp_bind.
    eapply wp_mono; [by eapply fork_ready_done|]. intros ? k' (Hl & Hj & Hx & Hrr & Htf).
    apply wp_ret. split; [done|]. split; [done|]. right. split; [done|]. split; [done|].
    split.
    + exists ks, pgdir. split; [done|]. split; [done|]. rewrite Hx.
      unfold timed, copied. change (k_ticks b) with (k_ticks k). by rewrite Ecur.
    + rewrite Htf. change (p_tf (proc_at k' np)) with (p_tf (unlinked (proc_at k' np))).
      rewrite Hx. exact Ht.
Qed.
End fork_run.


(** ** wait *)

(** What [wait_stat], and [wait], leave in the slot of the child they bury. *)
Definition reaped (x : proc) : proc :=
  set_p_killed 0 (set_p_name (<[0%nat := 0]> (p_name x)) (set_p_parent None (set_p_pid 0
    (set_p_state UNUSED (set_p_kstack 0 x))))).
Definition buried (x : proc) : proc := set_p_rutime 0 (set_p_runQuanta 0 (reaped x)).

Lemma reap_grown i b :
  settle b = b → (i < length (k_ptable b))%nat →
  gives (svc_kfree (p_kstack (proc_at b i))) tt → gives (svc_freevm (p_pgdir (proc_at b i))) tt →
  wp (reap i) (λ _, grown i b (reaped (proc_at b i)) (k_tfmem b)) b.
Proof.
  intros Hs Hi Hk Hf. pose proof (grown_refl i b Hi) as Hg. unfold reap.
  eapply grown_field; [done..|]. eapply grown_gives; [done..|]. clear Hg. intros k Hg.
  eapply grown_assign; [done|]. clear k Hg. intros k Hg. eapply grown_field; [done..|].
  eapply grown_gives; [done..|]. clear k Hg. intros k Hg.
  do 4 (eapply grown_assign; [done|]; clear k Hg; intros k Hg).
  by apply (grown_upd i b (set_p_killed 0)).
Qed.

Lemma bury_grown i b :
  settle b = b → (i < length (k_ptable b))%nat →
  gives (svc_kfree (p_kstack (proc_at b i))) tt → gives (svc_freevm (p_pgdir (proc_at b i))) tt →
  wp (reap i ;; assign i (set_p_runQuanta 0) ;; assign i (set_p_rutime 0))
    (λ _, grown i b (buried (proc_at b i)) (k_tfmem b)) b.
Proof.
  intros Hs Hi Hk Hf. apply wp_bind. eapply wp_mono; [by apply reap_grown|].
  intros ? k Hg. cbv beta in Hg. eapply grown_assign; [done|]. clear k Hg. intros k Hg.
  by apply (grown_upd i b (set_p_rutime 0)).
Qed.

(** A slot changed under [ptable.lock], seen after the release. *)
Lemma grown_release i k x t k1 :
  outside k → grown i (acquired PtableLock k) x t k1 →
  ∃ k', release PtableLock k1 = Ret tt (settle k') ∧ grown i k x t k'.
Proof.
  intros Ho (v & w & c & ->).
  set (k' := set_k_ext v (set_k_wordmem w (set_k_ctxmem c (set_k_tfmem t (upd_proc i (λ _, x) k))))).
  exists k'. split; [|by exists v, w, c]. apply (release_acquired PtableLock k').
  - apply (nest_ok_le 2); [lia|apply Ho].
  - apply Ho.
Qed.

(** One pass over the table. *)
Lemma wait_pass_ret found cur k :
  curproc k = Some cur → (cur < length (k_ptable k))%nat →
  wait_pass found k =
  match first_slot (is_zombie_child cur) k with
  | Some i => (found i ;; mret (Some (p_pid (proc_at k i)))) k
  | None => Ret (if decide (first_slot (is_child cur) k = None ∨ p_killed (proc_at k cur) ≠ 0)
                 then Some (-1) else None) k
  end.
Proof.
  intros Hc Hcl. unfold wait_pass. rewrite (bind_Ret _ _ cur k k) by (by apply myproc_ret).
  rewrite (bind_Ret _ _ (first_slot (is_zombie_child cur) k) k k) by done.
  destruct (first_slot (is_zombie_child cur) k) as [i|].
  - by rewrite (bind_Ret _ _ (p_pid (proc_at k i)) k k) by done.
  - rewrite (bind_Ret _ _ (first_slot (is_child cur) k) k k) by done.
    rewrite (bind_Ret _ _ (p_killed (proc_at k cur)) k k) by done. by case_decide.
Qed.

Lemma wait_loop_some swtch n found v k k1 k' :
  wait_pass found k = Ret (Some v) k1 → release PtableLock k1 = Ret tt k' →
  wait_loop swtch n found k = Ret v k'.
Proof.
  intros Hp Hr. destruct n; cbn [wait_loop]; rewrite (bind_Ret _ _ (Some v) k k1) by done;
    by rewrite (bind_Ret _ _ tt k1 k').
Qed.

Lemma settle_acquired lk k : outside k → settle (acquired lk k) = acquired lk k.
Proof. intros Ho. apply settle_nested, ncli_acquired, Ho. Qed.

End life.

(** ** Witnesses *)

(** A running process whose one child is a zombie. *)
Definition life_table : core Z :=
  upd_proc 0 (λ p, set_p_tf 4096 (set_p_pid 3 (set_p_state RUNNING p)))
    (upd_proc 1 (λ p, set_p_parent (Some 0%nat) (set_p_pid 9 (set_p_state ZOMBIE p))) (boot_core 1 8192)).
Definition life_demo : core Z :=
  upd_cpu (set_c_proc (Some 0%nat)) (set_k_tfmem {[ 4096 := set_tf_eax 5 trapframe0 ]} life_table).

Lemma life_demo_outside : outside life_demo.
Proof. by split; vm_compute. Qed.

Lemma life_demo_repr : rr_repr life_demo [].
Proof.
  apply (rr_repr_same life_table); [|done..].
  apply rr_repr_upd; [done|]. apply rr_repr_upd; [done|]. apply rr_repr_boot.
Qed.

Lemma gives_mret {A} (a : A) : gives (V := Z) (mret a) a.
Proof. intros k _. exists (k_ext k). by destruct k. Qed.


