(* ===== verification/Syscall.v ===== *)
(** * System calls (syscall.c, sysproc.c)

    How a system call reads its arguments from the memory of the caller, the
    dispatch on the call number, and the calls of sysproc.c.  The memory the
    current page table maps is the interface [UserMem]; the calls of sysfile.c
    and exec.c are the parameter [filecall] of the dispatch. *)

From stdpp Require Import base list gmap strings.
From Stdlib Require Import ZArith Lia.
From S2P Require Import Prelude KState Spinlock RRQueue Lottery CString Proc ProcForms ProcInv KMachine.

(** The bytes the current page table maps, and the devices. *)
Class UserMem (V : Type) := {
  um_load : V → Z → option Z;
  um_store : V → Z → Z → option V;
}.

Class Devices (V : Type) := {
  dev_cprintf : M (core V) unit;
  dev_lapiceoi : M (core V) unit;
  dev_ideintr : M (core V) unit;
  dev_kbdintr : M (core V) unit;
  dev_uartintr : M (core V) unit
}.

(** The bytes of a 32-bit word, lowest first. *)
Definition word_byte (i : Z) (w : Z) : Z := u8 (Z.shiftr w (8 * i)).
Definition word_of (b0 b1 b2 b3 : Z) : Z :=
  b0 + 256 * (b1 + 256 * (b2 + 256 * b3)).

(** A store to a mapped byte succeeds and changes that byte only. *)
Class UserMemOk (V : Type) {UM : UserMem V} : Prop := {
  um_store_load : ∀ v a b v' x, um_store v a b = Some v' →
    um_load v' x = if decide (x = a) then Some b else um_load v x;
  um_store_mapped : ∀ v a b, is_Some (um_load v a) → is_Some (um_store v a b)
}.

Section syscall.
Context {V : Type} {SV : Services V} {UM : UserMem V} {DV : Devices V}.
Abbreviation K := (core V).
Implicit Types (k : K).
Context (flag : schedflag) (swtch : M K unit).

(** An access of the kernel to an address that is not mapped faults in kernel
    mode, which [trap] answers with a panic. *)
Definition uload8 (a : Z) : M K Z := λ k,
  match um_load (k_ext k) (u32 a) with Some b => Ret b k | None => Panic "trap" end.
Definition ustore8 (a b : Z) : M K unit := λ k,
  match um_store (k_ext k) (u32 a) (u8 b) with
  | Some v => Ret tt (set_k_ext v k) | None => Panic "trap" end.
Definition uload32 (a : Z) : M K Z :=
  b0 ← uload8 a; b1 ← uload8 (a + 1); b2 ← uload8 (a + 2); b3 ← uload8 (a + 3);
  mret (s32 (word_of b0 b1 b2 b3)).
Definition ustore32 (a w : Z) : M K unit :=
  ustore8 a (word_byte 0 w) ;; ustore8 (a + 1) (word_byte 1 w) ;;
  ustore8 (a + 2) (word_byte 2 w) ;; ustore8 (a + 3) (word_byte 3 w).

(** The frame a pointer leads to. *)
Definition frame_at (a : Z) : M K trapframe := λ k,
  match k_tfmem k !! a with Some t => Ret t k | None => Fault "no trap frame" end.

(** ** Arguments

    [None] is the return value -1; [Some v] is 0 with [v] stored through the
    pointer argument. *)

Definition fetchint (addr : Z) : M K (option Z) :=
  p ← myproc;
  sz ← field p p_sz;
  if decide (addr >= sz ∨ u32 (addr + 4) > sz) then mret None else
  v ← uload32 addr;
  mret (Some v).

(** The loop over the bytes from [s] up to [ep], the end of the process; [n] is
    the number of bytes left. *)
Fixpoint fetchstr_loop (n : nat) (s : Z) (len : Z) : M K (option Z) :=
  match n with
  | O => mret None
  | S n' => c ← uload8 s;
            if decide (c = 0) then mret (Some len) else fetchstr_loop n' (s + 1) (len + 1)
  end.

(** [Some (addr, length)]; the pointer is also stored when the string is not
    terminated, but no caller uses it then. *)
Definition fetchstr (addr : Z) : M K (option (Z * Z)) :=
  p ← myproc;
  sz ← field p p_sz;
  if decide (addr >= sz) then mret None else
  r ← fetchstr_loop (Z.to_nat (sz - addr)) addr 0;
  mret ((λ len, (addr, len)) <$> r).

Definition argint (n : Z) : M K (option Z) :=
  p ← myproc;
  tf ← field p p_tf;
  t ← frame_at tf;
  fetchint (u32 (tf_esp t + 4 + 4 * n)).

Definition argptr (n size : Z) : M K (option Z) :=
  i ← argint n;
  match i with
  | None => mret None
  | Some i =>
      p ← myproc;
      sz ← field p p_sz;
      if decide (u32 i >= sz ∨ u32 (u32 i + size) > sz) then mret None
      else mret (Some (u32 i))
  end.

Definition argstr (n : Z) : M K (option (Z * Z)) :=
  addr ← argint n;
  match addr with
  | None => mret None
  | Some a => fetchstr (u32 a)
  end.

(** ** The calls of sysproc.c *)

Definition sys_fork : M K Z := fork flag.
Definition sys_exit : M K Z := exit flag swtch.
Definition sys_wait (fuel : nat) : M K Z := wait swtch fuel.

Definition sys_kill : M K Z :=
  pid ← argint 0;
  match pid with None => mret (-1) | Some pid => kill flag pid end.

Definition sys_getpid : M K Z := p ← myproc; field p p_pid.

Definition sys_sbrk : M K Z :=
  n ← argint 0;
  match n with
  | None => mret (-1)
  | Some n =>
      p ← myproc;
      addr ← field p p_sz;
      r ← growproc n;
      if decide (r < 0) then mret (-1) else mret (s32 addr)
  end.

(** [while(ticks - ticks0 < n)]: the comparison is unsigned.  [fuel] bounds the
    number of times the process is switched back to. *)
Fixpoint sleep_loop (fuel : nat) (n ticks0 : Z) : M K Z :=
  ticks ← gets k_ticks;
  if decide (u32 (ticks - ticks0) < u32 n) then
    p ← myproc;
    killed ← field p p_killed;
    if decide (killed ≠ 0) then release TicksLock ;; mret (-1) else
    sleep swtch ChTicks (Some TicksLock) ;;
    match fuel with O => block | S fuel' => sleep_loop fuel' n ticks0 end
  else
    release TicksLock ;; mret 0.

Definition sys_sleep (fuel : nat) : M K Z :=
  n ← argint 0;
  match n with
  | None => mret (-1)
  | Some n =>
      acquire TicksLock ;;
      ticks0 ← gets k_ticks;
      sleep_loop fuel n ticks0
  end.

Definition sys_uptime : M K Z := t ← locked TicksLock (gets k_ticks); mret (s32 t).

(** Both arguments are fetched before either is tested. *)
Definition sys_signal : M K Z :=
  signum ← argint 0;
  handler ← argint 1;
  match signum, handler with
  | Some s, Some h => signal s (u32 h)
  | _, _ => mret (-1)
  end.

Definition sys_sigsend : M K Z :=
  pid ← argint 0;
  signum ← argint 1;
  match pid, signum with
  | Some p, Some s => sigsend p s
  | _, _ => mret (-1)
  end.

(** [copytf(tf, copyaddr)] of trap.c copies a frame field by field. *)
Definition copytf (tf copyaddr : Z) : M K unit :=
  t ← frame_at tf;
  modify (λ k, set_k_tfmem (<[copyaddr :=
    TrapFrame (tf_edi t) (tf_esi t) (tf_ebp t) (tf_oesp t) (tf_ebx t) (tf_edx t) (tf_ecx t)
      (tf_eax t) (tf_gs t) (tf_padding1 t) (tf_fs t) (tf_padding2 t) (tf_es t) (tf_padding3 t)
      (tf_ds t) (tf_padding4 t) (tf_trapno t) (tf_err t) (tf_eip t) (tf_cs t) (tf_padding5 t)
      (tf_eflags t) (tf_esp t) (tf_ss t) (tf_padding6 t)]> (k_tfmem k)) k).

Definition sys_sigreturn : M K Z :=
  p ← myproc;
  backup ← field p p_backuptf;
  tf ← field p p_tf;
  copytf backup tf ;;
  assign p (set_p_insignal 0) ;;
  mret 0.

Definition sys_advanceprocstats : M K Z := advanceprocstats ;; mret 0.

(** The stores of [wait_stat] through the caller's pointer, which is not checked. *)
Definition store_perf (a : Z) (f : perf) : M K unit :=
  ustore32 a (pf_ctime f) ;; ustore32 (a + 4) (pf_ttime f) ;; ustore32 (a + 8) (pf_stime f) ;;
  ustore32 (a + 12) (pf_retime f) ;; ustore32 (a + 16) (pf_rutime f).

Definition sys_wait_stat (fuel : nat) : M K Z :=
  perfP ← argint 0;
  match perfP with
  | None => mret (-1)
  | Some a => wait_stat swtch fuel (store_perf (u32 a))
  end.

Definition sys_priority : M K Z :=
  priority ← argint 0;
  match priority with
  | None => mret (-1)
  | Some v => p ← myproc; assign p (set_p_priority v) ;; mret 0
  end.

(** ** The dispatch *)

Definition SYS_sigreturn : Z := 26.
Definition NELEM_syscalls : Z := 28.

Context (filecall : Z → M K Z) (fuel : nat).

Definition syscalls (num : Z) : M K Z :=
  match num with
  | 1 => sys_fork | 2 => sys_exit | 3 => sys_wait fuel | 6 => sys_kill
  | 11 => sys_getpid | 12 => sys_sbrk | 13 => sys_sleep fuel | 14 => sys_uptime
  | 22 => sys_signal | 23 => sys_advanceprocstats | 24 => sys_wait_stat fuel
  | 25 => sys_sigsend | 26 => sys_sigreturn | 27 => sys_priority
  | _ => filecall num
  end.

Definition syscall : M K unit :=
  p ← myproc;
  tf ← field p p_tf;
  t ← frame_at tf;
  let num := s32 (tf_eax t) in
  if decide (0 < num < NELEM_syscalls) then
    r ← syscalls num;
    p ← myproc;
    tf ← field p p_tf;
    upd_tf tf (set_tf_eax (u32 r))
  else
    dev_cprintf ;;
    upd_tf tf (set_tf_eax (u32 (-1))).
End syscall.

(** ** What the checks guarantee *)

(** ** Words in user memory *)

Lemma word_of_bytes w :
  word_of (word_byte 0 w) (word_byte 1 w) (word_byte 2 w) (word_byte 3 w) = u32 w.
Proof.
  unfold word_of, word_byte, u8, u32. rewrite !Z.shiftr_div_pow2 by lia.
  change (2 ^ (8 * 0)) with 1. change (2 ^ (8 * 1)) with 256. change (2 ^ (8 * 2)) with (256 * 256).
  change (2 ^ (8 * 3)) with (256 * 256 * 256). change (2 ^ 8) with 256.
  change (2 ^ 32) with (256 * (256 * (256 * 256))).
  rewrite Z.div_1_r, !Z.rem_mul_r, !Z.div_div by lia. ring.
Qed.

Section words.
Context {V : Type} {UM : UserMem V} {UO : UserMemOk V}.
Abbreviation K := (core V).
Implicit Types (k : K).

Definition mapped k (a n : Z) : Prop := ∀ x, a <= x < a + n → is_Some (um_load (k_ext k) x).

(** [v'] is the memory [v] with the bytes [l] at [a]. *)
Definition written (v : V) (a : Z) (l : list Z) (v' : V) : Prop :=
  ∀ x, um_load v' x =
    if decide (a <= x < a + Z.of_nat (length l)) then l !! Z.to_nat (x - a) else um_load v x.

Lemma ustore8_ret k a b :
  is_u32 a → is_u8 b → mapped k a 1 →
  ∃ v', ustore8 a b k = Ret tt (set_k_ext v' k) ∧ written (k_ext k) a [b] v'.
Proof.
  intros Ha Hb Hm. unfold is_u32, is_u8 in *. unfold ustore8. rewrite u32_id by lia.
  unfold u8. rewrite Z.mod_small by lia.
  destruct (um_store_mapped (k_ext k) a b) as [v' Hv]; [apply Hm; lia|]. rewrite Hv.
  exists v'. split; [done|]. intros x. rewrite (um_store_load _ _ _ _ _ Hv). simpl.
  destruct (decide (x = a)) as [->|].
  - by rewrite decide_True, Z.sub_diag by lia.
  - by rewrite decide_False by lia.
Qed.

Lemma written_app v a l1 l2 v1 v2 :
  written v a l1 v1 → written v1 (a + Z.of_nat (length l1)) l2 v2 → written v a (l1 ++ l2) v2.
Proof.
  intros H1 H2 x. rewrite H2, H1. rewrite length_app.
  destruct (decide (a + Z.of_nat (length l1) <= x < _)) as [Hd|Hd].
  - rewrite decide_True by lia. rewrite lookup_app_r by lia. f_equal. lia.
  - destruct (decide (a <= x < a + Z.of_nat (length l1))).
    + rewrite decide_True by lia. by rewrite lookup_app_l by lia.
    + by rewrite decide_False by lia.
Qed.

Lemma written_mapped k v' a l b n :
  written (k_ext k) a l v' → mapped k b n → mapped (set_k_ext v' k) b n.
Proof.
  intros Hw Hm x Hx. simpl. rewrite Hw. case_decide as Hd; [|by apply Hm].
  apply lookup_lt_is_Some. lia.
Qed.

Definition word_bytes_of (w : Z) : list Z :=
  [word_byte 0 w; word_byte 1 w; word_byte 2 w; word_byte 3 w].

Lemma word_byte_u8 i w : is_u8 (word_byte i w).
Proof. unfold is_u8, word_byte, u8. apply Z.mod_pos_bound. lia. Qed.

Lemma ustore32_ret k a w :
  0 <= a → a + 4 <= 2 ^ 32 → mapped k a 4 →
  ∃ v', ustore32 a w k = Ret tt (set_k_ext v' k) ∧ written (k_ext k) a (word_bytes_of w) v'.
Proof.
  intros Ha Hb Hm. unfold ustore32.
  destruct (ustore8_ret k a (word_byte 0 w)) as (v0 & E0 & W0);
    [unfold is_u32; lia|apply word_byte_u8|intros x Hx; apply Hm; lia|].
  rewrite (bind_Ret _ _ tt _ _ E0). set (k0 := set_k_ext v0 k) in *.
  assert (mapped k0 a 4) as M0 by (by eapply written_mapped).
  destruct (ustore8_ret k0 (a + 1) (word_byte 1 w)) as (v1 & E1 & W1);
    [unfold is_u32; lia|apply word_byte_u8|intros x Hx; apply M0; lia|].
  rewrite (bind_Ret _ _ tt _ _ E1). set (k1 := set_k_ext v1 k0) in *.
  assert (mapped k1 a 4) as M1 by (by eapply written_mapped).
  destruct (ustore8_ret k1 (a + 2) (word_byte 2 w)) as (v2 & E2 & W2);
    [unfold is_u32; lia|apply word_byte_u8|intros x Hx; apply M1; lia|].
  rewrite (bind_Ret _ _ tt _ _ E2). set (k2 := set_k_ext v2 k1) in *.
  assert (mapped k2 a 4) as M2 by (by eapply written_mapped).
  destruct (ustore8_ret k2 (a + 3) (word_byte 3 w)) as (v3 & E3 & W3);
    [unfold is_u32; lia|apply word_byte_u8|intros x Hx; apply M2; lia|].
  rewrite E3. exists v3. split; [done|].
  apply (written_app _ _ [_; _; _] [_] v2); [|done]. apply (written_app _ _ [_; _] [_] v1); [|done].
  by apply (written_app _ _ [_] [_] v0).
Qed.
End words.

Section args.
Context {V : Type} {SV : Services V} {UM : UserMem V}.
Abbreviation K := (core V).
Implicit Types (k : K).

(** Every byte below the size of the process is mapped. *)
Definition mapped_below k (sz : Z) : Prop :=
  ∀ a, 0 <= a < sz → ∃ b, um_load (k_ext k) a = Some b ∧ is_u8 b.

(** The state in which process [p], of at most 2 GB, makes a call with frame [t]. *)
Record calling k (p : nat) (t : trapframe) : Prop := {
  ca_cur : curproc k = Some p;
  ca_lt : (p < length (k_ptable k))%nat;
  ca_frame : k_tfmem k !! p_tf (proc_at k p) = Some t;
  ca_size : 0 <= p_sz (proc_at k p) <= KERNBASE;
  ca_map : mapped_below k (p_sz (proc_at k p))
}.

Definition byte_at k (a : Z) : Z := default 0 (um_load (k_ext k) (u32 a)).
Definition word_at k (a : Z) : Z :=
  s32 (word_of (byte_at k a) (byte_at k (a + 1)) (byte_at k (a + 2)) (byte_at k (a + 3))).

Section calling.
Context (k : K) (p : nat) (t : trapframe) (Hk : calling k p t).
Local Abbreviation sz := (p_sz (proc_at k p)).

Lemma uload8_ret a : 0 <= a < sz → uload8 a k = Ret (byte_at k a) k.
Proof.
  intros Ha. unfold uload8, byte_at. pose proof (ca_size _ _ _ Hk). unfold KERNBASE in *.
  rewrite u32_id by lia. destruct (ca_map _ _ _ Hk a Ha) as (b & -> & _). done.
Qed.

Lemma uload32_ret a : 0 <= a → a + 4 <= sz → uload32 a k = Ret (word_at k a) k.
Proof.
  intros Ha Hb. unfold uload32.
  rewrite (bind_Ret _ _ (byte_at k a) k k) by (apply uload8_ret; lia).
  rewrite (bind_Ret _ _ (byte_at k (a + 1)) k k) by (apply uload8_ret; lia).
  rewrite (bind_Ret _ _ (byte_at k (a + 2)) k k) by (apply uload8_ret; lia).
  by rewrite (bind_Ret _ _ (byte_at k (a + 3)) k k) by (apply uload8_ret; lia).
Qed.

Lemma myproc_calling : myproc k = Ret p k.
Proof. apply myproc_ret; apply Hk. Qed.

Lemma fetchint_ret a :
  is_u32 a → fetchint a k = Ret (if decide (a + 4 <= sz) then Some (word_at k a) else None) k.
Proof.
  intros Ha. unfold fetchint, is_u32 in *. pose proof (ca_size _ _ _ Hk). unfold KERNBASE in *.
  rewrite (bind_Ret _ _ p k k) by apply myproc_calling. rewrite (bind_Ret _ _ sz k k) by done.
  destruct (decide (a + 4 <= sz)) as [Hd|Hd].
  - rewrite decide_False by (rewrite u32_id; lia).
    by rewrite (bind_Ret _ _ (word_at k a) k k) by (apply uload32_ret; lia).
  - rewrite decide_True; [done|]. destruct (decide (a >= sz)); [by left|]. right.
    rewrite u32_id; lia.
Qed.

Lemma argint_ret n :
  argint n k = Ret (let a := u32 (tf_esp t + 4 + 4 * n) in
                    if decide (a + 4 <= sz) then Some (word_at k a) else None) k.
Proof.
  unfold argint. rewrite (bind_Ret _ _ p k k) by apply myproc_calling.
  rewrite (bind_Ret _ _ (p_tf (proc_at k p)) k k) by done.
  rewrite (bind_Ret _ _ t k k) by (unfold frame_at; by rewrite (ca_frame _ _ _ Hk)).
  apply fetchint_ret, u32_range.
Qed.

Lemma argptr_ret n size :
  argptr n size k =
  Ret (let a := u32 (tf_esp t + 4 + 4 * n) in
       let v := u32 (word_at k a) in
       if decide (a + 4 <= sz ∧ v < sz ∧ u32 (v + size) <= sz) then Some v else None) k.
Proof.
  unfold argptr. rewrite (bind_Ret _ _ _ k k (argint_ret n)). simpl.
  case_decide as Ha; [|by rewrite decide_False by tauto].
  rewrite (bind_Ret _ _ p k k) by apply myproc_calling. rewrite (bind_Ret _ _ sz k k) by done.
  repeat case_decide; try done; exfalso; lia.
Qed.
End calling.

(** [argptr] with a size that is not negative accepts a pointer exactly when
    the argument slot and the whole block [v, v + size) lie below the size of the
    process: no wrap-around of the unsigned sum lets a block through.  It changes
    nothing. *)
Theorem argptr_spec k p t n size :
  calling k p t → 0 <= size < 2 ^ 31 →
  let sz := p_sz (proc_at k p) in
  let a := u32 (tf_esp t + 4 + 4 * n) in
  let v := u32 (word_at k a) in
  argptr n size k =
  Ret (if decide (a + 4 <= sz ∧ v < sz ∧ v + size <= sz) then Some v else None) k.
Proof.
  intros Hk Hs sz a v. rewrite (argptr_ret k p t Hk). pose proof (ca_size _ _ _ Hk) as Hsz.
  pose proof (u32_range (word_at k a)). fold a v sz in Hsz |- *. unfold KERNBASE in Hsz.
  destruct (decide (v < sz)); [|by rewrite !decide_False by tauto].
  cbv zeta. fold v. by rewrite (u32_id (v + size)) by lia.
Qed.

(** A negative size defeats [argptr]: any pointer below the size of the
    process is accepted with any size down to the pointer's negation, however
    close to the end of the process it points - and [sys_read] and [sys_write]
    pass the caller's count as the size. *)
Theorem argptr_negative_size k p t n size :
  calling k p t →
  let sz := p_sz (proc_at k p) in
  let a := u32 (tf_esp t + 4 + 4 * n) in
  let v := u32 (word_at k a) in
  a + 4 <= sz → v < sz → - v <= size < 0 →
  argptr n size k = Ret (Some v) k.
Proof.
  intros Hk sz a v Ha Hv Hs. rewrite (argptr_ret k p t Hk). fold a v sz.
  pose proof (ca_size _ _ _ Hk) as Hsz. fold sz in Hsz. unfold KERNBASE in Hsz.
  cbv zeta. fold v. rewrite decide_True; [done|]. rewrite u32_id by lia. lia.
Qed.

(** ** Strings *)

(** [len] bytes from [s] that are not zero, then a zero. *)
Definition string_at k (s len : Z) : Prop :=
  0 <= len ∧ byte_at k (s + len) = 0 ∧ ∀ j, 0 <= j < len → byte_at k (s + j) ≠ 0.

Lemma fetchstr_loop_ret k p t n s len :
  calling k p t → 0 <= s → s + Z.of_nat n <= p_sz (proc_at k p) →
  ∃ r, fetchstr_loop n s len k = Ret r k ∧
  match r with
  | Some l => string_at k s (l - len) ∧ l - len < Z.of_nat n
  | None => ∀ j, 0 <= j < Z.of_nat n → byte_at k (s + j) ≠ 0
  end.
Proof.
  intros Hk. revert s len. induction n as [|n IH]; intros s len Hs Hn.
  { exists None. split; [done|]. lia. }
  cbn [fetchstr_loop]. rewrite (bind_Ret _ _ (byte_at k s) k k) by (eapply uload8_ret; [done|lia]).
  case_decide as Hz.
  - exists (Some len). split; [done|]. rewrite Z.sub_diag. split; [|lia]. split; [done|].
    rewrite Z.add_0_r. split; [done|lia].
  - destruct (IH (s + 1) (len + 1)) as (r & Hr & Hp); [lia..|]. exists r. split; [done|].
    assert (∀ j, byte_at k (s + 1 + (j - 1)) = byte_at k (s + j)) as Hsh by (intros j; f_equal; lia).
    assert (∀ j, 0 <= j → (0 <= j - 1 → byte_at k (s + 1 + (j - 1)) ≠ 0) → byte_at k (s + j) ≠ 0) as Hstep.
    { intros j Hj Hb. destruct (decide (j = 0)) as [->|]; [by rewrite Z.add_0_r|]. rewrite <-Hsh. apply Hb. lia. }
    destruct r as [l|].
    + destruct Hp as ((H0 & H1 & H2) & H3). split; [|lia]. split; [lia|]. split.
      * rewrite <-H1, <-Hsh. f_equal. lia.
      * intros j Hj. apply Hstep; [lia|]. intros Hj'. apply H2. lia.
    + intros j Hj. apply Hstep; [lia|]. intros Hj'. apply Hp. lia.
Qed.

(** C38. [fetchstr] accepts an address exactly when a terminated string starts
    there and ends, terminator included, below the size of the process; the
    length it returns is the string's.  It changes nothing. *)
Theorem fetchstr_spec k p t addr :
  calling k p t → is_u32 addr →
  let sz := p_sz (proc_at k p) in
  ∃ r, fetchstr addr k = Ret r k ∧
  match r with
  | Some (a, len) => a = addr ∧ string_at k addr len ∧ addr + len < sz
  | None => ¬ ∃ len, string_at k addr len ∧ addr + len < sz
  end.
Proof.
  intros Hk Ha sz. unfold fetchstr. rewrite (bind_Ret _ _ p k k) by (by eapply myproc_calling).
  rewrite (bind_Ret _ _ sz k k) by done. unfold is_u32 in Ha. case_decide as Hd.
  { exists None. split; [done|]. intros (len & (? & _) & ?). lia. }
  destruct (fetchstr_loop_ret k p t (Z.to_nat (sz - addr)) addr 0 Hk) as (r & Hr & Hp); [lia|fold sz; lia|].
  rewrite (bind_Ret _ _ r k k Hr). exists ((λ len, (addr, len)) <$> r). split; [done|].
  rewrite Z2Nat.id in Hp by lia. destruct r as [l|]; simpl.
  - rewrite Z.sub_0_r in Hp. split; [done|]. split; [apply Hp|lia].
  - intros (len & (H0 & H1 & _) & H2). apply (Hp len); [lia|done].
Qed.
End args.

(** ** Witnesses *)

(** A byte memory: what is not in the map is not mapped. *)
Definition byte_store (m : gmap Z Z) (a b : Z) : option (gmap Z Z) :=
  if decide (is_Some (m !! a)) then Some (<[a := b]> m) else None.

#[local] Instance byte_mem : UserMem (gmap Z Z) := {|
  um_load := λ m a, m !! a;
  um_store := byte_store
|}.

(** A process of 8 bytes whose first argument is 7. *)
Definition args_demo : core (gmap Z Z) :=
  upd_cpu (set_c_proc (Some 0%nat))
    (upd_proc 0 (λ p, set_p_sz 8 (set_p_tf 4096 p))
      (set_k_tfmem {[ 4096 := trapframe0 ]}
        (boot_core 1 (list_to_map (zip (seqZ 0 8) [9; 9; 9; 9; 7; 0; 0; 0]))))).

Lemma args_demo_calling : calling args_demo 0 trapframe0.
Proof.
  split; try (by vm_compute).
  - vm_compute. lia.
  - intros a Ha. change (p_sz (proc_at args_demo 0)) with 8 in Ha.
    assert (a ∈ seqZ 0 8) as Hin by (apply elem_of_seqZ; lia).
    assert (Forall (λ a, ∃ b, um_load (k_ext args_demo) a = Some b ∧ is_u8 b) (seqZ 0 8)) as Hall.
    { repeat constructor; eexists; (split; [by vm_compute|unfold is_u8; lia]). }
    rewrite Forall_forall in Hall. by apply Hall.
Qed.

Lemma argptr_spec_witness :
  argptr 0 1 args_demo = Ret (Some 7) args_demo ∧ argptr 0 2 args_demo = Ret None args_demo.
Proof.
  split; [rewrite (argptr_spec args_demo 0 trapframe0 0 1 args_demo_calling)|
          rewrite (argptr_spec args_demo 0 trapframe0 0 2 args_demo_calling)];
    (lia || by vm_compute).
Defined.

Lemma argptr_negative_size_witness : argptr 0 (-1) args_demo = Ret (Some 7) args_demo.
Proof.
  apply (argptr_negative_size args_demo 0 trapframe0 0 (-1) args_demo_calling); vm_compute; done || lia.
Defined.

Lemma fetchstr_spec_witness :
  fetchstr 4 args_demo = Ret (Some (4, 1)) args_demo ∧ string_at args_demo 4 1.
Proof.
  destruct (fetchstr_spec args_demo 0 trapframe0 4 args_demo_calling) as (r & H1 & H2).
  - unfold is_u32. lia.
  - assert (fetchstr 4 args_demo = Ret (Some (4, 1)) args_demo) as E by (by vm_compute).
    rewrite E in H1. injection H1 as <-. split; [exact E|apply H2].
Defined.
