(* ===== verification/Trap.v ===== *)
(** * Traps and signals (trap.c, trapasm.S)

    The interrupt descriptor table, the trap handler with the clock tick and
    the preemption of the running process, and the delivery of signals: how
    [handleSignals] builds the handler's frame on the user stack and how
    [sys_sigreturn] undoes it. *)

From stdpp Require Import base list gmap strings.
From Stdlib Require Import ZArith Lia.
From S2P Require Import Prelude KState Spinlock RRQueue Lottery CString Proc ProcForms ProcInv KMachine ProcLife Syscall.

(** ** The interrupt descriptor table *)

(** [struct gatedesc] (mmu.h). *)
Record gatedesc := GateDesc {
  gd_off_15_0 : Z; gd_cs : Z; gd_args : Z; gd_rsv1 : Z; gd_type : Z;
  gd_s : Z; gd_dpl : Z; gd_p : Z; gd_off_31_16 : Z
}.

Definition STS_IG32 : Z := 0xE.
Definition STS_TG32 : Z := 0xF.

Definition SETGATE (istrap sel off d : Z) : gatedesc :=
  GateDesc (Z.land (u32 off) 0xffff) sel 0 0 (if decide (istrap ≠ 0) then STS_TG32 else STS_IG32)
    0 d 1 (Z.shiftr (u32 off) 16).

(** The table after [tvinit]; [vectors] are the entry points of vectors.S. *)
Definition idt_entries (vectors : Z → Z) : list gatedesc :=
  <[Z.to_nat T_SYSCALL := SETGATE 1 (Z.shiftl SEG_KCODE 3) (vectors T_SYSCALL) DPL_USER]>
    ((λ i, SETGATE 0 (Z.shiftl SEG_KCODE 3) (vectors (Z.of_nat i)) 0) <$> seq 0 256).

Definition tvinit {V} (vectors : Z → Z) : M (core V) (list gatedesc) :=
  let idt := idt_entries vectors in
  initlock TicksLock ;; mret idt.

(** ** Helpers of trap.c *)

(** The loop of [getLowestSetBit]; an [int] has at most 31 zero bits below its
    lowest set one. *)
Fixpoint lsb_loop (fuel : nat) (num bitNum : Z) : Z :=
  match fuel with
  | O => bitNum
  | S fuel' => if decide (Z.land num 1 = 0) then lsb_loop fuel' (Z.shiftr num 1) (bitNum + 1)
               else bitNum
  end.

Definition getLowestSetBit (num : Z) : Z := if decide (num = 0) then -1 else lsb_loop 32 num 0.

(** The first loop of [int2bin]: ['0'] at the positions [n - 1] to 0. *)
Fixpoint int2bin_zeros (n : nat) (str : Z) (m : mem) : mem :=
  match n with
  | O => m
  | S n' => int2bin_zeros n' str (<[str + Z.of_nat n' := 48]> m)
  end.

(** The second loop: the digits of [a], from the last position. *)
Fixpoint int2bin_loop (fuel : nat) (str cnt a : Z) (m : mem) : mem :=
  match fuel with
  | O => m
  | S fuel' =>
      if decide (a > 0) then
        let m := if decide (Z.rem a 2 = 1) then <[str + cnt := 49]> m else m in
        int2bin_loop fuel' str (cnt - 1) (Z.quot a 2) m
      else m
  end.

(** The page [str] is the one [kalloc] returned. *)
Definition int2bin (str a : Z) (m : mem) : mem :=
  int2bin_loop 31 str 31 a (int2bin_zeros 32 str m).

(** The code between the labels [implicit_sigret] and [end_of_sigret]:
    [pushl %eax; movl $SYS_sigreturn, %eax; int $T_SYSCALL]. *)
Definition implicit_sigret : list Z := [0x50; 0xB8; SYS_sigreturn; 0; 0; 0; 0xCD; T_SYSCALL].

Section trap.
Context {V : Type} {SV : Services V} {UM : UserMem V} {DV : Devices V}.
Abbreviation K := (core V).
Implicit Types (k : K).
Context (flag : schedflag) (swtch : M K unit) (filecall : Z → M K Z) (fuel : nat).
(** [copyout(pgdir, va, p, len)] of vm.c, with the bytes at [p]. *)
Context (copyout : Z → Z → list Z → M K Z).

(** ** Signals *)

(** The frame is saved, and the handler's one is built on the user stack. *)
Definition push_handler (p : nat) (signum handler : Z) : M K unit :=
  backup ← field p p_backuptf;
  if decide (backup = 0) then fault "handleSignals: null backuptf" else
  ptf ← field p p_tf;
  copytf ptf backup ;;
  t ← frame_at ptf;
  let sp := tf_esp t in
  let funcAddr := s32 (sp - 5 * 4) in
  pgdir ← field p p_pgdir;
  copyout pgdir (u32 funcAddr) implicit_sigret ;;
  let sp := u32 (sp - 4) in
  ustore32 sp signum ;;
  let sp := u32 (sp - 4) in
  ustore32 sp funcAddr ;;
  upd_tf ptf (λ t, set_tf_esp (u32 (tf_esp t - 8)) t) ;;
  upd_tf ptf (set_tf_eip handler).

Definition handleSignals (tf : Z) : M K unit :=
  t ← frame_at tf;
  if decide (tf_trapno t = T_SYSCALL) then
    p ← myproc;
    pending ← field p p_pending;
    insignal ← field p p_insignal;
    if decide (pending > 0 ∧ insignal = 0) then
      let signum := getLowestSetBit pending in
      assign p (set_p_pending (s32 (Z.land pending (Z.lnot (s32 (Z.shiftl 1 signum)))))) ;;
      assign p (set_p_insignal 1) ;;
      handler ← field p (λ q, p_handlers q !!! Z.to_nat signum);
      backup ← field p p_backuptf;
      when (bool_decide (backup = 0)) (b ← svc_kalloc; assign p (set_p_backuptf b)) ;;
      push_handler p signum handler
    else mret tt
  else mret tt.

(** ** The trap handler *)

Definition exit_if_killed : M K unit :=
  p ← myproc;
  killed ← field p p_killed;
  when (negb (bool_decide (killed = 0))) (exit flag swtch).

(** [if(proc && proc->killed && (tf->cs&3) == DPL_USER) exit();] *)
Definition exit_if_killed_user (tf : Z) : M K unit :=
  cur ← gets curproc;
  match cur with
  | None => mret tt
  | Some _ =>
      p ← deref cur;
      killed ← field p p_killed;
      t ← frame_at tf;
      when (negb (bool_decide (killed = 0)) && bool_decide (Z.land (tf_cs t) 3 = DPL_USER))
        (exit flag swtch)
  end.

(** The clock tick, which only the first processor counts. *)
Definition tick : M K unit :=
  acquire TicksLock ;;
  modify (λ k, set_k_ticks (u32 (k_ticks k + 1)) k) ;;
  wakeup flag ChTicks ;;
  advanceprocstats ;;
  release TicksLock.

Definition timer_intr : M K unit :=
  id ← gets (λ k, c_id (this_cpu k));
  when (bool_decide (id = 0)) tick ;;
  dev_lapiceoi.

Definition unexpected (tf : Z) : M K unit :=
  t ← frame_at tf;
  cur ← gets curproc;
  if decide (cur = None ∨ Z.land (tf_cs t) 3 = 0) then
    dev_cprintf ;; panic "trap"
  else
    p ← deref cur;
    dev_cprintf ;;
    assign p (set_p_killed 1).

Definition trap_switch (tf trapno : Z) : M K unit :=
  if decide (trapno = T_IRQ0 + IRQ_TIMER) then timer_intr
  else if decide (trapno = T_IRQ0 + IRQ_IDE) then dev_ideintr ;; dev_lapiceoi
  else if decide (trapno = T_IRQ0 + IRQ_IDE + 1) then mret tt
  else if decide (trapno = T_IRQ0 + IRQ_KBD) then dev_kbdintr ;; dev_lapiceoi
  else if decide (trapno = T_IRQ0 + IRQ_COM1) then dev_uartintr ;; dev_lapiceoi
  else if decide (trapno = T_IRQ0 + 7 ∨ trapno = T_IRQ0 + IRQ_SPURIOUS) then
    dev_cprintf ;; dev_lapiceoi
  else unexpected tf.

(** The process gives up the processor when its count is a multiple of the
    quantum, unless the policy is first come first served. *)
Definition preempt (tf : Z) : M K unit :=
  cur ← gets curproc;
  match cur with
  | None => mret tt
  | Some _ =>
      p ← deref cur;
      st ← field p p_state;
      t ← frame_at tf;
      when (bool_decide (st = RUNNING) && bool_decide (tf_trapno t = T_IRQ0 + IRQ_TIMER))
        (when (bool_decide (flag = FCFS)) (modify (set_k_isFCFS 1)) ;;
         runQuanta ← field p p_runQuanta;
         isFCFS ← gets k_isFCFS;
         if decide (Z.rem runQuanta QUANTA = 0 ∧ isFCFS = 0) then
           rutime ← field p p_rutime;
           assign p (set_p_runQuanta rutime) ;;
           yield flag swtch
         else assign p (λ q, set_p_runQuanta (s32 (p_runQuanta q + 1)) q))
  end.

Definition trap (tf : Z) : M K unit :=
  t ← frame_at tf;
  if decide (tf_trapno t = T_SYSCALL) then
    exit_if_killed ;;
    p ← myproc;
    assign p (set_p_tf tf) ;;
    syscall flag swtch filecall fuel ;;
    exit_if_killed
  else
    trap_switch tf (tf_trapno t) ;;
    exit_if_killed_user tf ;;
    preempt tf ;;
    exit_if_killed_user tf.

(** What alltraps calls with the frame it has pushed. *)
Definition alltraps (tf : Z) : M K unit := trap tf ;; handleSignals tf.
End trap.

(** ** The lowest set bit *)

Lemma lsb_loop_spec n num b :
  (∃ i, 0 <= i < Z.of_nat n ∧ Z.testbit num i = true) →
  ∃ r, lsb_loop n num b = b + r ∧ 0 <= r < Z.of_nat n ∧ Z.testbit num r = true ∧
    ∀ j, 0 <= j < r → Z.testbit num j = false.
Proof.
  revert num b. induction n as [|n IH]; intros num b (i & Hi & Ht); [lia|]. cbn [lsb_loop].
  assert (Z.land num 1 = 0 ↔ Z.testbit num 0 = false) as Hl.
  { change 1 with (Z.ones 1). rewrite Z.land_ones by lia. change (2 ^ 1) with 2.
    rewrite <-Z.bit0_mod. by destruct (Z.testbit num 0). }
  case_decide as Hd.
  - apply Hl in Hd. assert (i ≠ 0) as Hi0 by (intros ->; congruence).
    destruct (IH (Z.shiftr num 1) (b + 1)) as (r & -> & Hr & H1 & H2).
    { exists (i - 1). split; [lia|]. rewrite Z.shiftr_spec by lia. by replace (i - 1 + 1) with i by lia. }
    rewrite Z.shiftr_spec in H1 by lia. exists (r + 1). split; [lia|]. split; [lia|]. split; [done|].
    intros j Hj. destruct (decide (j = 0)) as [->|]; [done|].
    specialize (H2 (j - 1) ltac:(lia)). rewrite Z.shiftr_spec in H2 by lia.
    by replace (j - 1 + 1) with j in H2 by lia.
  - exists 0. split; [lia|]. split; [lia|]. split; [|lia].
    destruct (Z.testbit num 0); [done|]. destruct Hd. by apply Hl.
Qed.

Lemma s32_has_bit num : is_s32 num → num ≠ 0 → ∃ i, 0 <= i < 32 ∧ Z.testbit num i = true.
Proof.
  intros Hr Hn. destruct (decide (Exists (λ i, Z.testbit num i = true) (seqZ 0 32))) as [He|He].
  - apply Exists_exists in He as (i & Hi%elem_of_seqZ & Ht). exists i. split; [lia|done].
  - destruct Hn. assert (num mod 2 ^ 32 = 0) as Hm.
    { apply Z.bits_inj'. intros j Hj. rewrite Z.bits_0, Z.testbit_mod_pow2 by lia.
      destruct (decide (j < 32)) as [Hlt|].
      - destruct (Z.testbit num j) eqn:E; [|by rewrite andb_false_r]. destruct He.
        apply Exists_exists. exists j. split; [apply elem_of_seqZ; lia|done].
      - by rewrite (proj2 (Z.ltb_ge _ _)) by lia. }
    unfold is_s32 in Hr. apply Z.mod_divide in Hm as [q Hq]; lia.
Qed.

Lemma lowest_bit num :
  is_s32 num → num ≠ 0 →
  let b := getLowestSetBit num in
  0 <= b < 32 ∧ Z.testbit num b = true ∧ ∀ j, 0 <= j < b → Z.testbit num j = false.
Proof.
  intros Hr Hn. unfold getLowestSetBit. rewrite decide_False by done.
  destruct (lsb_loop_spec 32 num 0) as (r & -> & H); [by apply s32_has_bit|]. by rewrite Z.add_0_l.
Qed.

(** ** Delivering a signal *)

Section signals.
Context {V : Type} {SV : Services V} {UM : UserMem V} {UO : UserMemOk V} {DV : Devices V}.
Abbreviation K := (core V).
Implicit Types (k : K).
Context (flag : schedflag) (swtch : M K unit) (filecall : Z → M K Z) (fuel : nat).
Context (copyout : Z → Z → list Z → M K Z).

(** [copyout] to a mapped range of the running process writes the bytes. *)
Definition copyout_ok (p : nat) : Prop :=
  ∀ k a l, 0 <= a → a + Z.of_nat (length l) <= 2 ^ 32 → mapped k a (Z.of_nat (length l)) →
  ∃ v', copyout (p_pgdir (proc_at k p)) a l k = Ret 0 (set_k_ext v' k) ∧ written (k_ext k) a l v'.

(** The page for the saved frame is there, or [kalloc] will provide it. *)
Definition backup_page k (p : nat) (b : Z) : Prop :=
  b ≠ 0 ∧ (p_backuptf (proc_at k p) = b ∨
   (p_backuptf (proc_at k p) = 0 ∧ ∀ k, ∃ v, svc_kalloc k = Ret b (set_k_ext v k) ∧
      ∀ a, um_load v a = um_load (k_ext k) a)).

(** A process returning from a system call with frame [t] at [a] and a signal
    to be handled; the 20 bytes below its stack pointer are mapped. *)
Record signal_due k (p : nat) (a b : Z) (t : trapframe) : Prop := {
  sd_cur : curproc k = Some p;
  sd_lt : (p < length (k_ptable k))%nat;
  sd_tf : p_tf (proc_at k p) = a;
  sd_frame : k_tfmem k !! a = Some t;
  sd_call : tf_trapno t = T_SYSCALL;
  sd_pending : 0 < p_pending (proc_at k p) < 2 ^ 31;
  sd_free : p_insignal (proc_at k p) = 0;
  sd_backup : backup_page k p b;
  sd_ne : a ≠ b;
  sd_esp : 20 <= tf_esp t < 2 ^ 32;
  sd_stack : mapped k (tf_esp t - 20) 20
}.

(** The process while the handler runs. *)
Definition handling (x : proc) (b : Z) : proc :=
  set_p_backuptf b (set_p_insignal 1
    (set_p_pending (s32 (Z.land (p_pending x)
       (Z.lnot (s32 (Z.shiftl 1 (getLowestSetBit (p_pending x))))))) x)).

Lemma backup_step k p b :
  (p < length (k_ptable k))%nat → backup_page k p b →
  ∃ v, (backup ← field p p_backuptf;
        when (bool_decide (backup = 0)) (b ← svc_kalloc; assign p (set_p_backuptf b))) k =
    Ret tt (set_k_ext v (upd_proc p (set_p_backuptf b) k)) ∧
    ∀ a, um_load v a = um_load (k_ext k) a.
Proof.
  intros Hp [Hb [He|[He Hka]]].
  - exists (k_ext k). rewrite (bind_Ret _ _ b k k) by (by rewrite <-He).
    rewrite bool_decide_eq_false_2 by done. split; [|done]. simpl. unfold mret, M_ret. f_equal.
    unfold upd_proc. rewrite (list_alter_ext _ id _ (k_ptable k)), list_alter_id; [by destruct k|done| |done].
    intros x Hx. unfold proc_at in He. rewrite (list_lookup_total_correct _ _ _ Hx) in He.
    rewrite <-He. by destruct x.
  - rewrite (bind_Ret _ _ 0 k k) by (by rewrite <-He). rewrite bool_decide_eq_true_2 by done.
    destruct (Hka k) as (v & Hv & Hl). exists v. split; [|done]. simpl.
    by rewrite (bind_Ret _ _ b k (set_k_ext v k)) by done.
Qed.

(** The handler's frame: the trampoline, the return address, the argument. *)
Definition handler_stack (v v' : V) (esp signum : Z) : Prop :=
  ∀ x, um_load v' x =
    if decide (esp - 20 <= x < esp - 12) then implicit_sigret !! Z.to_nat (x - (esp - 20))
    else if decide (esp - 8 <= x < esp) then
      (word_bytes_of (s32 (esp - 20)) ++ word_bytes_of signum) !! Z.to_nat (x - (esp - 8))
    else um_load v x.

Lemma handler_stack_written v v0 v1 v2 v3 esp signum :
  (∀ a, um_load v0 a = um_load v a) →
  written v0 (esp - 20) implicit_sigret v1 → written v1 (esp - 4) (word_bytes_of signum) v2 →
  written v2 (esp - 8) (word_bytes_of (s32 (esp - 20))) v3 → handler_stack v v3 esp signum.
Proof.
  intros H0 H1 H2 H3 x. rewrite H3, H2, H1, H0. cbn [length word_bytes_of implicit_sigret].
  destruct (decide (esp - 20 <= x < esp - 12)) as [Hd|Hd].
  { rewrite decide_False by lia. rewrite decide_False by lia. rewrite decide_True by lia. done. }
  destruct (decide (esp - 8 <= x < esp)) as [He|He].
  - destruct (decide (esp - 8 <= x < esp - 8 + Z.of_nat 4)) as [Hf|Hf].
    + rewrite lookup_app_l; [done|]. simpl. lia.
    + rewrite decide_True by lia. rewrite lookup_app_r by (simpl; lia). f_equal. simpl. lia.
  - rewrite !decide_False by lia. done.
Qed.

Lemma copytf_ret k a b t :
  k_tfmem k !! a = Some t → copytf a b k = Ret tt (set_k_tfmem (<[b := t]> (k_tfmem k)) k).
Proof.
  intros Ht. unfold copytf. rewrite (bind_Ret _ _ t k k) by (unfold frame_at; by rewrite Ht).
  unfold modify. by destruct t.
Qed.

Lemma push_handler_ret k p a b t signum handler :
  copyout_ok p → p_backuptf (proc_at k p) = b → b ≠ 0 → p_tf (proc_at k p) = a → a ≠ b →
  k_tfmem k !! a = Some t → 20 <= tf_esp t < 2 ^ 32 → mapped k (tf_esp t - 20) 20 →
  ∃ v' f, push_handler copyout p signum handler k = Ret tt (set_k_tfmem f (set_k_ext v' k)) ∧
    f !! a = Some (set_tf_eip handler (set_tf_esp (tf_esp t - 8) t)) ∧ f !! b = Some t ∧
    handler_stack (k_ext k) v' (tf_esp t) signum.
Proof.
  intros Hco Hb Hb0 Ha Hne Ht He Hm. unfold push_handler.
  rewrite (bind_Ret _ _ b k k) by (by rewrite <-Hb). rewrite decide_False by done.
  rewrite (bind_Ret _ _ a k k) by (by rewrite <-Ha).
  rewrite (bind_Ret _ _ tt _ _ (copytf_ret k a b t Ht)).
  set (k1 := set_k_tfmem (<[b := t]> (k_tfmem k)) k).
  rewrite (bind_Ret _ _ t k1 k1) by (unfold frame_at; simpl; by rewrite lookup_insert_ne, Ht).
  rewrite (bind_Ret _ _ (p_pgdir (proc_at k1 p)) k1 k1) by done.
  rewrite u32_s32. change (5 * 4) with 20.
  rewrite (u32_id (tf_esp t - 20)), (u32_id (tf_esp t - 4)), (u32_id (tf_esp t - 4 - 4)) by lia.
  destruct (Hco k1 (tf_esp t - 20) implicit_sigret) as (v1 & Hc1 & W1);
    [lia|simpl; lia|intros y Hy; simpl in Hy; apply Hm; lia|].
  rewrite (bind_Ret _ _ 0 _ _ Hc1). set (k2 := set_k_ext v1 k1).
  assert (mapped k2 (tf_esp t - 20) 20) as M2 by (by eapply (written_mapped k1)).
  destruct (ustore32_ret k2 (tf_esp t - 4) signum) as (v2 & Hc2 & W2);
    [lia|lia|intros y Hy; apply M2; lia|].
  rewrite (bind_Ret _ _ tt _ _ Hc2). set (k3 := set_k_ext v2 k2).
  assert (mapped k3 (tf_esp t - 20) 20) as M3 by (by eapply (written_mapped k2)).
  replace (tf_esp t - 4 - 4) with (tf_esp t - 8) by lia.
  destruct (ustore32_ret k3 (tf_esp t - 8) (s32 (tf_esp t - 20))) as (v3 & Hc3 & W3);
    [lia|lia|intros y Hy; apply M3; lia|].
  rewrite (bind_Ret _ _ tt _ _ Hc3).
  exists v3, (alter (set_tf_eip handler) a (alter (λ t, set_tf_esp (u32 (tf_esp t - 8)) t) a
    (<[b := t]> (k_tfmem k)))).
  split; [done|]. split; [|split].
  - rewrite !lookup_alter_eq, lookup_insert_ne, Ht by done. simpl. by rewrite u32_id by lia.
  - by rewrite !lookup_alter_ne, lookup_insert_eq.
  - by eapply (handler_stack_written _ (k_ext k) v1 v2 v3).
Qed.

Lemma handleSignals_ret k p a b t :
  copyout_ok p → signal_due k p a b t →
  let x := proc_at k p in
  let signum := getLowestSetBit (p_pending x) in
  ∃ k', handleSignals copyout a k = Ret tt k' ∧
    proc_at k' p = handling x b ∧
    k_tfmem k' !! a = Some (set_tf_eip (p_handlers x !!! Z.to_nat signum)
                              (set_tf_esp (tf_esp t - 8) t)) ∧
    k_tfmem k' !! b = Some t ∧
    handler_stack (k_ext k) (k_ext k') (tf_esp t) signum ∧
    (∀ j, j ≠ p → proc_at k' j = proc_at k j) ∧ same_sync k k'.
Proof.
  intros Hco [Hc Hl Ha Hf Ht Hp Hi Hb Hne He Hm] x signum.
  unfold handleSignals.
  rewrite (bind_Ret _ _ t k k) by (unfold frame_at; by rewrite Hf). rewrite decide_True by done.
  rewrite (bind_Ret _ _ p k k) by (by apply myproc_ret).
  rewrite (bind_Ret _ _ (p_pending x) k k) by done.
  rewrite (bind_Ret _ _ (p_insignal x) k k) by done.
  rewrite decide_True by (split; [fold x in Hp; lia|done]). fold signum.
  set (pd := s32 (Z.land (p_pending x) _)).
  set (k1 := upd_proc p (set_p_pending pd) k). rewrite (bind_Ret _ _ tt k k1) by done.
  set (k2 := upd_proc p (set_p_insignal 1) k1). rewrite (bind_Ret _ _ tt k1 k2) by done.
  assert (proc_at k2 p = set_p_insignal 1 (set_p_pending pd x)) as E2.
  { unfold k2, k1. rewrite upd_proc_compose. by rewrite proc_at_upd_eq. }
  rewrite (bind_Ret _ _ (p_handlers x !!! Z.to_nat signum) k2 k2)
    by (unfold field, gets; by rewrite E2).
  destruct (backup_step k2 p b) as (v0 & Hbk & Hv0).
  { unfold k2, k1. by rewrite !length_upd_proc. }
  { split; [apply Hb|]. rewrite E2. apply Hb. }
  rewrite <-bind_assoc, (bind_Ret _ _ tt _ _ Hbk).
  set (k3 := set_k_ext v0 (upd_proc p (set_p_backuptf b) k2)).
  assert (proc_at k3 p = handling x b) as E3.
  { change (proc_at (upd_proc p (set_p_backuptf b) k2) p = handling x b).
    rewrite proc_at_upd_eq by (unfold k2, k1; by rewrite !length_upd_proc). by rewrite E2. }
  assert (∀ j, j ≠ p → proc_at k3 j = proc_at k j) as Eo.
  { intros j Hj. change (proc_at (upd_proc p (set_p_backuptf b) k2) j = proc_at k j).
    unfold k2, k1. by rewrite !proc_at_upd_ne. }
  assert (k_tfmem k3 = k_tfmem k ∧ same_sync k k3) as [Etf Esy] by done.
  assert (∀ a, um_load (k_ext k3) a = um_load (k_ext k) a) as Ev by (intros; apply Hv0).
  clearbody k3. clear Hbk Hv0 E2 k2 k1.
  destruct (push_handler_ret k3 p a b t signum (p_handlers x !!! Z.to_nat signum))
    as (v' & f & Hr & H1 & H2 & H3); [done|by rewrite E3|apply Hb|by rewrite E3|done|by rewrite Etf|done| |].
  { intros y Hy. rewrite Ev. by apply Hm. }
  exists (set_k_tfmem f (set_k_ext v' k3)). split; [done|]. split; [exact E3|]. split; [done|].
  split; [done|]. split; [|split; [exact Eo|done]]. intros y. etrans; [exact (H3 y)|].
  repeat case_decide; done || apply Ev.
Qed.


(** C27. The trampoline's system call undoes the delivery but for one register.
    Whatever the handler did to the registers, after [sigreturn] the frame is the
    saved one with [eax] 0: [sys_sigreturn] restores it, and then [syscall]
    stores the call's own result over the saved [eax].  A process whose system
    call was interrupted by a signal thus always sees that call return 0. *)
Theorem sigreturn_restores k p a b t t2 :
  curproc k = Some p → (p < length (k_ptable k))%nat →
  p_tf (proc_at k p) = a → p_backuptf (proc_at k p) = b → a ≠ b →
  k_tfmem k !! b = Some t → k_tfmem k !! a = Some t2 → s32 (tf_eax t2) = SYS_sigreturn →
  ∃ k', syscall flag swtch filecall fuel k = Ret tt k' ∧
    k_tfmem k' !! a = Some (set_tf_eax 0 t) ∧
    proc_at k' p = set_p_insignal 0 (proc_at k p) ∧
    (∀ j, j ≠ p → proc_at k' j = proc_at k j) ∧ k_ext k' = k_ext k.
Proof.
  intros Hc Hp Ha Hb Hne Ht Ht2 He. unfold syscall.
  rewrite (bind_Ret _ _ p k k) by (by apply myproc_ret).
  rewrite (bind_Ret _ _ a k k) by (by rewrite <-Ha).
  rewrite (bind_Ret _ _ t2 k k) by (unfold frame_at; by rewrite Ht2). rewrite He.
  rewrite decide_True by done. cbn [syscalls].
  set (k1 := set_k_tfmem (<[a := t]> (k_tfmem k)) k).
  set (k2 := upd_proc p (set_p_insignal 0) k1).
  assert (proc_at k2 p = set_p_insignal 0 (proc_at k p)) as Ep by (by apply (proc_at_upd_eq p _ k1)).
  rewrite (bind_Ret _ _ 0 k k2).
  2:{ change (sys_sigreturn k = Ret 0 k2). unfold sys_sigreturn. rewrite (bind_Ret _ _ p k k) by (by apply myproc_ret).
      rewrite (bind_Ret _ _ b k k) by (by rewrite <-Hb).
      rewrite (bind_Ret _ _ a k k) by (by rewrite <-Ha).
      by rewrite (bind_Ret _ _ tt _ _ (copytf_ret k b a t Ht)). }
  rewrite (bind_Ret _ _ p k2 k2) by (apply myproc_ret; [done|unfold k2; by rewrite length_upd_proc]).
  rewrite (bind_Ret _ _ a k2 k2) by (unfold field, gets; rewrite Ep; simpl; by rewrite Ha).
  eexists. split; [done|]. simpl. split; [by rewrite lookup_alter_eq, lookup_insert_eq|].
  split; [exact Ep|]. split; [|done]. intros j Hj. by apply (proc_at_upd_ne p _ j k1).
Qed.

(** The handler's own frame destroys the trampoline.  The trampoline lies
    below the handler's stack pointer, where the handler's calls and local
    variables go: after any two words pushed by the handler the last half of the
    trampoline, the [int] instruction included, is the second word. *)
Theorem handler_overwrites_trampoline k p a b t w1 w2 :
  copyout_ok p → signal_due k p a b t →
  let funcAddr := tf_esp t - 20 in
  ∃ k1 t1, handleSignals copyout a k = Ret tt k1 ∧ k_tfmem k1 !! a = Some t1 ∧
  (∀ i, 0 <= i < 8 → um_load (k_ext k1) (funcAddr + i) = implicit_sigret !! Z.to_nat i) ∧
  ∃ k2, (ustore32 (tf_esp t1 - 4) w1 ;; ustore32 (tf_esp t1 - 8) w2) k1 = Ret tt k2 ∧
    ∀ i, 4 <= i < 8 → um_load (k_ext k2) (funcAddr + i) = Some (word_byte (i - 4) w2).
Proof.
  intros Hco Hd funcAddr.
  destruct (handleSignals_ret k p a b t Hco Hd) as (k1 & Hh & _ & Ht1 & _ & Hs & _).
  eexists k1, _. split; [done|]. split; [done|]. cbn [tf_esp set_tf_eip set_tf_esp].
  assert (∀ i, 0 <= i < 8 → um_load (k_ext k1) (funcAddr + i) = implicit_sigret !! Z.to_nat i) as Htr.
  { intros i Hi. rewrite (Hs (funcAddr + i)), decide_True by (unfold funcAddr; lia).
    do 2 f_equal. unfold funcAddr. lia. }
  split; [done|].
  pose proof (sd_esp _ _ _ _ _ Hd) as He. pose proof (sd_stack _ _ _ _ _ Hd) as Hm.
  assert (mapped k1 funcAddr 20) as M1.
  { intros y Hy. rewrite (Hs y). case_decide; [apply lookup_lt_is_Some; simpl; lia|].
    case_decide; [apply lookup_lt_is_Some; simpl; lia|]. by apply Hm. }
  unfold funcAddr in *.
  destruct (ustore32_ret k1 (tf_esp t - 8 - 4) w1) as (v1 & E1 & W1);
    [lia|lia|intros y Hy; apply M1; lia|].
  assert (mapped (set_k_ext v1 k1) (tf_esp t - 20) 20) as M2 by (by eapply written_mapped).
  destruct (ustore32_ret (set_k_ext v1 k1) (tf_esp t - 8 - 8) w2) as (v2 & E2 & W2);
    [lia|lia|intros y Hy; apply M2; lia|].
  eexists. split; [by rewrite (bind_Ret _ _ tt _ _ E1)|]. intros i Hi. simpl. rewrite W2.
  cbn [length word_bytes_of]. rewrite decide_True by lia.
  replace (tf_esp t - 20 + i - (tf_esp t - 8 - 8)) with (i - 4) by lia.
  assert (i = 4 ∨ i = 5 ∨ i = 6 ∨ i = 7) as [->|[->|[->| ->]]] by lia; done.
Qed.
End signals.

(** ** Preemption *)

Section preemption.
Context {V : Type}.
Abbreviation K := (core V).
Implicit Types (k : K).

(** Under first come first served the clock sets [isFCFS] before it is tested. *)
Definition fcfs_marked flag k : K := if decide (flag = FCFS) then set_k_isFCFS 1 k else k.

Lemma fcfs_marked_spec flag k q :
  rr_repr k q →
  let k0 := fcfs_marked flag k in
  proc_at k0 = proc_at k ∧ length (k_ptable k0) = length (k_ptable k) ∧ same_sync k k0 ∧
  (k_isFCFS k0 = 0 ↔ flag ≠ FCFS ∧ k_isFCFS k = 0) ∧ rr_repr k0 q.
Proof.
  intros Hr. unfold fcfs_marked. case_decide as Hf.
  - do 3 (split; [done|]). split; [by split; [|intros [? _]]|]. by apply (rr_repr_same k).
  - do 3 (split; [done|]). split; [naive_solver|done].
Qed.

(** The clock takes the processor from a running process exactly when its
    tick count is a multiple of the quantum and the policy is not first come
    first served: the process is then RUNNABLE, at the end of the run queue, its
    count restarted from its running time, and holds [ptable.lock] at the switch.
    Otherwise its count goes up by one and it runs on; in particular first come
    first served never preempts. *)
Theorem preempt_spec flag swtch tf t p q k :
  outside k → curproc k = Some p → (p < length (k_ptable k))%nat → st k p = RUNNING →
  k_tfmem k !! tf = Some t → tf_trapno t = T_IRQ0 + IRQ_TIMER →
  0 <= p_runQuanta (proc_at k p) < 2 ^ 31 - 1 → rr_repr k q → p ∉ q →
  (if decide (p_runQuanta (proc_at k p) mod QUANTA = 0 ∧ flag ≠ FCFS ∧ k_isFCFS k = 0) then
     ∃ k1, preempt flag swtch tf k = (swtch ;; resume (c_intena (this_cpu k1))) k1 ∧
       may_sched p k1 ∧ st k1 p = RUNNABLE ∧
       p_runQuanta (proc_at k1 p) = p_rutime (proc_at k p) ∧
       rr_repr k1 (if uses_queue flag then q ++ [p] else q)
   else
     preempt flag swtch tf k =
       Ret tt (upd_proc p (set_p_runQuanta (p_runQuanta (proc_at k p) + 1)) (fcfs_marked flag k))).
Proof.
  intros Ho Hc Hp Hs Htf Ht Hq Hr Hpq. unfold preempt.
  rewrite (bind_Ret _ _ (Some p) k k) by (unfold gets; by rewrite Hc).
  rewrite (bind_Ret _ _ p k k) by (unfold deref; by rewrite decide_True).
  rewrite (bind_Ret _ _ (st k p) k k) by done.
  rewrite (bind_Ret _ _ t k k) by (unfold frame_at; by rewrite Htf).
  rewrite !bool_decide_eq_true_2 by done. cbn [when andb].
  rewrite (bind_Ret _ _ tt k (fcfs_marked flag k)).
  2:{ unfold fcfs_marked. repeat case_bool_decide; case_decide; done. }
  set (k0 := fcfs_marked flag k).
  destruct (fcfs_marked_spec flag k q Hr) as (E1 & E2 & E3 & E4 & E5). fold k0 in E1, E2, E3, E4, E5.
  clearbody k0.
  rewrite (bind_Ret _ _ (p_runQuanta (proc_at k p)) k0 k0) by (unfold field, gets; by rewrite E1).
  rewrite (bind_Ret _ _ (k_isFCFS k0) k0 k0) by done.
  rewrite Z.rem_mod_nonneg by (unfold QUANTA; lia).
  destruct (decide (_ mod QUANTA = 0 ∧ flag ≠ FCFS ∧ _)) as [Hd|Hd].
  - rewrite decide_True by (rewrite E4; naive_solver).
    rewrite (bind_Ret _ _ (p_rutime (proc_at k p)) k0 k0) by (unfold field, gets; by rewrite E1).
    set (ky := upd_proc p (set_p_runQuanta (p_rutime (proc_at k p))) k0).
    rewrite (bind_Ret _ _ tt k0 ky) by done.
    assert (outside ky) as Hoy by (by eapply outside_sync).
    assert (p < length (k_ptable ky))%nat as Hpy by (unfold ky; by rewrite length_upd_proc, E2).
    assert (curproc ky = Some p) as Hcy.
    { rewrite <-Hc. destruct E3 as (H1 & H2 & _). unfold curproc, this_cpu, ky. simpl. by rewrite H1, H2. }
    destruct (yield_ret flag swtch p ky Hoy Hcy Hpy) as [Hy Hms].
    eexists. split; [exact Hy|]. split; [exact Hms|].
    change (st (acquired PtableLock ?x)) with (st x).
    change (proc_at (acquired PtableLock ?x)) with (proc_at x).
    split; [|split].
    + unfold st. by rewrite made_ready_state, decide_True.
    + change (p_runQuanta (unlinked (proc_at (made_ready flag p ky) p)) = p_rutime (proc_at k p)).
      rewrite made_ready_proc, proc_at_upd_eq by done. unfold ky.
      by rewrite proc_at_upd_eq by (by rewrite E2).
    + apply rr_repr_acquired, made_ready_repr; [by apply rr_repr_upd_at|done..].
  - rewrite decide_False by (rewrite E4; naive_solver). unfold assign, modify. f_equal.
    unfold upd_proc. f_equal. apply list_alter_ext; [|done]. intros x Hx.
    assert (proc_at k p = x) as <-; [|by rewrite s32_id by lia].
    rewrite <-E1. by apply list_lookup_total_correct.
Qed.
End preemption.

(** ** Witnesses *)

#[local] Existing Instance byte_mem.

#[local] Instance byte_mem_ok : UserMemOk (gmap Z Z).
Proof.
  split.
  - intros v a b v' x. cbn [um_store um_load byte_mem]. unfold byte_store.
    case_decide; intros [= <-]. rewrite lookup_insert. case_decide; case_decide; congruence || done.
  - intros v a b Hm. cbn [um_store um_load byte_mem] in *. unfold byte_store. by rewrite decide_True.
Qed.

(** A kernel in which nothing but the memory of one process matters. *)
#[local] Instance byte_services : Services (gmap Z Z) := {|
  svc_kalloc := mret 0x9000; svc_kfree := λ _, mret tt; svc_setupkvm := mret 1;
  svc_inituvm := λ _, mret tt; svc_copyuvm := λ _ _, mret 1; svc_freevm := λ _, mret tt;
  svc_allocuvm := λ _ _ n, mret n; svc_deallocuvm := λ _ _ n, mret n;
  svc_switchuvm := λ _, mret tt; svc_switchkvm := mret tt; svc_filedup := λ f, mret f;
  svc_fileclose := λ _, mret tt; svc_idup := λ d, mret d; svc_iput := λ _, mret tt;
  svc_begin_op := mret tt; svc_end_op := mret tt; svc_namei_root := mret None;
  svc_initlog := mret tt; svc_trapret := 0; svc_forkret := 0
|}.

#[local] Instance byte_devices : Devices (gmap Z Z) := {|
  dev_cprintf := mret tt; dev_lapiceoi := mret tt; dev_ideintr := mret tt;
  dev_kbdintr := mret tt; dev_uartintr := mret tt
|}.

Fixpoint put_bytes (a : Z) (l : list Z) (m : gmap Z Z) : gmap Z Z :=
  match l with [] => m | b :: l' => <[a := b]> (put_bytes (a + 1) l' m) end.

Definition put_copyout (pgdir a : Z) (l : list Z) : M (core (gmap Z Z)) Z :=
  modify (λ k, set_k_ext (put_bytes a l (k_ext k)) k) ;; mret 0.

Lemma put_bytes_written l a m : written m a l (put_bytes a l m).
Proof.
  revert a. induction l as [|b l IH]; intros a x; cbn [put_bytes length].
  - by rewrite decide_False by lia.
  - cbn [um_load byte_mem]. rewrite lookup_insert. case_decide as Hd.
    + subst. by rewrite decide_True, Z.sub_diag by lia.
    + specialize (IH (a + 1) x). cbn [um_load byte_mem] in IH. rewrite IH.
      destruct (decide (a <= x < a + Z.of_nat (S (length l)))).
      * rewrite decide_True by lia. replace (Z.to_nat (x - a)) with (S (Z.to_nat (x - (a + 1)))) by lia. done.
      * by rewrite decide_False by lia.
Qed.

Lemma put_copyout_ok p : copyout_ok put_copyout p.
Proof. intros k a l _ _ _. eexists. split; [done|]. apply put_bytes_written. Qed.

(** Signals 2 and 5 pend; the handler of signal 2 is at 0x1234. *)
Definition sig_frame : trapframe := set_tf_esp 100 (set_tf_eax 7
  (TrapFrame 0 0 0 0 0 0 0 0 0 0 0 0 0 0 0 0 T_SYSCALL 0 0 0 0 0 0 0 0)).
Definition sig_demo : core (gmap Z Z) :=
  upd_cpu (set_c_proc (Some 0%nat))
    (upd_proc 0 (λ p, set_p_tf 4096 (set_p_pending 36 (set_p_handlers (<[2%nat := 0x1234]> (p_handlers p)) p)))
      (set_k_tfmem {[ 4096 := sig_frame ]} (boot_core 1 (put_bytes 80 (replicate 20 1) ∅)))).

Lemma sig_demo_due : signal_due sig_demo 0 4096 0x9000 sig_frame.
Proof.
  split; try (by vm_compute); try (vm_compute; lia).
  - split; [done|]. right. split; [by vm_compute|]. intros k. exists (k_ext k). split; [by destruct k|done].
  - intros x Hx. change (tf_esp sig_frame) with 100 in Hx. change (k_ext sig_demo) with (put_bytes 80 (replicate 20 1) ∅).
    rewrite (put_bytes_written (replicate 20 1) 80 ∅ x), decide_True by (rewrite length_replicate; lia).
    apply lookup_lt_is_Some. rewrite length_replicate. lia.
Qed.


Lemma handler_overwrites_trampoline_witness :
  ∃ k1 k2, handleSignals put_copyout 4096 sig_demo = Ret tt k1 ∧
    um_load (k_ext k1) 86 = Some 0xCD ∧
    (ustore32 88 0 ;; ustore32 84 0) k1 = Ret tt k2 ∧ um_load (k_ext k2) 86 = Some 0.
Proof.
  destruct (handler_overwrites_trampoline put_copyout sig_demo 0 4096 0x9000 sig_frame 0 0
    (put_copyout_ok 0) sig_demo_due) as (k1 & t1 & H1 & Ht & H2 & k2 & H3 & H4).
  exists k1, k2. split; [exact H1|]. split; [exact (H2 6 ltac:(lia))|].
  assert (tf_esp t1 = 92) as E.
  { assert (match handleSignals put_copyout 4096 sig_demo with Ret _ k => tf_esp <$> (k_tfmem k !! 4096) | _ => None end
      = Some 92) as E by (by vm_compute). rewrite H1 in E. rewrite Ht in E. by injection E. }
  rewrite E in H3. split; [exact H3|exact (H4 6 ltac:(lia))].
Defined.

(** The handler has run: the trampoline's call arrives. *)
Definition sigret_demo : core (gmap Z Z) :=
  upd_proc 0 (set_p_backuptf 0x9000)
    (set_k_tfmem (<[ 0x9000 := sig_frame ]> {[ 4096 := set_tf_eax SYS_sigreturn trapframe0 ]}) sig_demo).

Lemma sigreturn_restores_witness :
  ∃ k', syscall FRR block (λ _, mret 0) 0 sigret_demo = Ret tt k' ∧
    tf_eax <$> (k_tfmem k' !! 4096) = Some 0 ∧ tf_eax sig_frame = 7.
Proof.
  destruct (sigreturn_restores FRR block (λ _, mret 0) 0 sigret_demo 0 4096 0x9000 sig_frame
    (set_tf_eax SYS_sigreturn trapframe0)) as (k' & H1 & H2 & _); try (by vm_compute); try (vm_compute; lia).
  exists k'. split; [exact H1|]. split; [by rewrite H2|done].
Defined.

(** A running process whose count is 10, on a kernel with priorities. *)
Definition clock_frame : trapframe :=
  TrapFrame 0 0 0 0 0 0 0 0 0 0 0 0 0 0 0 0 (T_IRQ0 + IRQ_TIMER) 0 0 0 0 0 0 0 0.
Definition clock_table : core Z :=
  upd_proc 0 (λ p, set_p_rutime 11 (set_p_runQuanta 10 (set_p_state RUNNING p))) (boot_core 1 0).
Definition clock_demo : core Z :=
  upd_cpu (set_c_proc (Some 0%nat)) (set_k_tfmem {[ 4096 := clock_frame ]} clock_table).

Lemma preempt_spec_witness :
  ∃ k1, preempt PRS block 4096 clock_demo = Blocked k1 ∧ st k1 0 = RUNNABLE ∧
    p_runQuanta (proc_at k1 0) = 11.
Proof.
  pose proof (preempt_spec PRS block 4096 clock_frame 0 [] clock_demo) as H.
  rewrite decide_True in H by (by vm_compute). destruct H as (k1 & H1 & _ & H2 & H3 & _).
  - by split; vm_compute.
  - by vm_compute.
  - vm_compute. lia.
  - by vm_compute.
  - by vm_compute.
  - done.
  - vm_compute. split; congruence.
  - apply (rr_repr_same clock_table); [|done..]. apply rr_repr_upd; [done|]. apply rr_repr_boot.
  - apply not_elem_of_nil.
  - exists k1. split; [rewrite H1; done|]. split; [exact H2|rewrite H3; by vm_compute].
Defined.
