(* ===== verification/LockOrder.v ===== *)
(** * The order of the locks

    The clock interrupt takes [ptable.lock] (in [wakeup]) while it holds
    [tickslock]; [allocproc] and [exit] take [tickslock] while they hold
    [ptable.lock].  On two processors the two orders deadlock, and the deadlock
    is for ever. *)

From stdpp Require Import base list gmap functions strings.
From Stdlib Require Import ZArith Lia.
From S2P Require Import Prelude KState Spinlock RRQueue Lottery CString Proc ProcForms ProcInv KMachine ProcLife Syscall Trap.

Section order.
Context {V : Type}.
Abbreviation K := (core V).
Implicit Types (k : K) (m : machine V).

(** Acquiring a lock that another processor holds spins. *)
Lemma acquire_taken lk k o :
  cpu_wf k → k_locks k !! lk = Some (Lock 1 o) → o ≠ Some (k_mycpu k) →
  acquire lk k = Blocked (upd_cpu cpu_pushed k).
Proof.
  intros Hwf Hk Ho. unfold acquire, acquire_enter. rewrite bind_assoc.
  rewrite (bind_Ret _ _ tt k (upd_cpu cpu_pushed k)) by (by apply pushcli_ret).
  rewrite bind_assoc. set (k1 := upd_cpu cpu_pushed k).
  assert (lock_of lk k1 = Lock 1 o) as Hl by (unfold lock_of; simpl; by rewrite (lookup_total_correct _ _ _ Hk)).
  rewrite (bind_Ret _ _ false k1 k1).
  2:{ unfold gets, holding. rewrite Hl. simpl. by rewrite bool_decide_eq_false_2. }
  rewrite (bind_Ret _ _ tt k1 k1) by done.
  rewrite (bind_Ret _ _ 1 k1 k1); [done|]. unfold xchg_locked, set_lock. mstep. rewrite Hl. simpl.
  f_equal. unfold k1. rewrite insert_id by done. by destruct k.
Qed.

(** ** [acquire] as steps of the machine *)

Lemma enter_ret lk k :
  cpu_wf k → lk_cpu (lock_of lk k) ≠ Some (k_mycpu k) →
  acquire_enter lk k = Ret tt (upd_cpu cpu_pushed k).
Proof.
  intros Hwf Ho. unfold acquire_enter.
  rewrite (bind_Ret _ _ tt k (upd_cpu cpu_pushed k)) by (by apply pushcli_ret).
  rewrite (bind_Ret _ _ false _ (upd_cpu cpu_pushed k)); [done|].
  unfold gets, holding. change (lock_of lk (upd_cpu cpu_pushed k)) with (lock_of lk k). simpl.
  rewrite (bool_decide_eq_false_2 (lk_cpu _ = _)) by done. by rewrite andb_false_r.
Qed.

(** What the other processors see of a step of [c]. *)
Definition elsewhere c m m' : Prop :=
  ∀ c', c' ≠ c → m_phase m' c' = m_phase m c' ∧ m_held m' c' = m_held m c'.

Lemma steps_acquire m c lk :
  m_phase m c = PIdle → nest_ok 1 (on c (m_core m)) → lock_of lk (m_core m) = Lock 0 None →
  ∃ m', rtc lock_step m m' ∧ m_core m' = acquired lk (on c (m_core m)) ∧ m_phase m' c = PIdle ∧
    m_held m' c = lk :: m_held m c ∧ elsewhere c m m'.
Proof.
  intros Hp [Hwf Hn] Hl. pose proof Hwf as (Hc & _ & _). destruct m as [k ph hd]. simpl in *.
  eexists. split; [|split; [|split; [|split]]].
  - eapply rtc_l; [eapply (step_enter _ c lk); [done|done|simpl; lia|apply enter_ret; [done|]]|].
    { simpl. change (lock_of lk (on c k)) with (lock_of lk k). by rewrite Hl. }
    eapply rtc_l; [eapply (step_take _ c lk 0); [apply fn_lookup_insert| |done]|].
    { simpl. unfold xchg_locked, set_lock. mstep.
      change (lock_of lk (on c (upd_cpu cpu_pushed (on c k)))) with (lock_of lk k). by rewrite Hl. }
    eapply rtc_l; [eapply (step_record _ c lk); [apply fn_lookup_insert|]|apply rtc_refl].
    simpl. unfold acquire_record, set_lock. mstep. reflexivity.
  - simpl. unfold acquired, set_k_locks; simpl. f_equal. unfold lock_of. simpl.
    by rewrite lookup_total_insert_eq, insert_insert_eq.
  - apply fn_lookup_insert.
  - apply fn_lookup_insert.
  - intros c' Hc'. simpl. by rewrite !fn_lookup_insert_ne.
Qed.

Lemma steps_spin m c lk o :
  m_phase m c = PIdle → nest_ok 1 (on c (m_core m)) →
  k_locks (m_core m) !! lk = Some (Lock 1 o) → o ≠ Some c →
  ∃ m', rtc lock_step m m' ∧ m_core m' = upd_cpu cpu_pushed (on c (m_core m)) ∧
    m_phase m' c = PTry lk ∧ m_held m' c = m_held m c ∧ elsewhere c m m'.
Proof.
  intros Hp [Hwf Hn] Hl Ho. pose proof Hwf as (Hc & _ & _). destruct m as [k ph hd]. simpl in *.
  eexists. split; [|split; [|split; [|split]]].
  - eapply rtc_l; [eapply (step_enter _ c lk); [done|done|simpl; lia|apply enter_ret; [done|]]|apply rtc_refl].
    unfold lock_of. simpl. by rewrite (lookup_total_correct _ _ _ Hl).
  - done.
  - apply fn_lookup_insert.
  - done.
  - intros c' Hc'. simpl. by rewrite !fn_lookup_insert_ne.
Qed.

Lemma steps_work m k' :
  same_sync (m_core m) k' → ∃ m', rtc lock_step m m' ∧ m_core m' = k' ∧
    (∀ c, m_phase m' c = m_phase m c ∧ m_held m' c = m_held m c).
Proof.
  intros Hs. exists (Machine k' (m_phase m) (m_held m)). split; [|done].
  eapply rtc_l; [by apply step_work|apply rtc_refl].
Qed.

(** ** The deadlock is permanent *)

(** Each processor spins for a lock that the other one is inside of. *)
Definition embraced m (c1 c2 : nat) (l1 l2 : lockid) : Prop :=
  m_phase m c1 = PTry l1 ∧ m_phase m c2 = PTry l2 ∧ l2 ∈ m_held m c1 ∧ l1 ∈ m_held m c2.

Lemma embraced_step m m' c1 c2 l1 l2 :
  lock_inv m → lock_step m m' → embraced m c1 c2 l1 l2 → embraced m' c1 c2 l1 l2.
Proof.
  intros Hi Hs (P1 & P2 & H1 & H2).
  assert (∀ c l, m_phase m c = PTry l → ∀ c', l ∈ m_held m c' →
    ∀ k', xchg_locked l 1 (on c (m_core m)) ≠ Ret 0 k') as Hbusy.
  { intros c l _ c' Hl k' [Hx _]%xchg_locked_ret. rewrite lock_of_on in Hx.
    assert (lk_locked (lock_of l (m_core m)) ≠ 0); [|done].
    apply (li_taken m Hi). exists c'. by left. }
  destruct Hs as [m c lk k' Hc _ _ _|m c lk old k' Hc _ _|m c lk old k' Hc Hx ->|m c lk k' Hc _|m c lk k' Hc _|m c lk k' Hc _|m k' _];
    unfold embraced in *; simpl; try done.
  all: assert (c ≠ c1) as N1 by (intros ->; rewrite P1 in Hc; try discriminate Hc; injection Hc as <-; exact (Hbusy _ _ P1 _ H2 _ Hx)).
  all: assert (c ≠ c2) as N2 by (intros ->; rewrite P2 in Hc; try discriminate Hc; injection Hc as <-; exact (Hbusy _ _ P2 _ H1 _ Hx)).
  all: rewrite ?fn_lookup_insert_ne by done; done.
Qed.

Lemma embraced_forever m m' c1 c2 l1 l2 :
  lock_inv m ∧ depth_inv m → rtc lock_step m m' → embraced m c1 c2 l1 l2 → embraced m' c1 c2 l1 l2.
Proof.
  intros Hi Hs. induction Hs as [|m1 m2 m3 H12 _ IH]; [done|]. intros He.
  apply IH; [by eapply lock_step_inv|]. eapply embraced_step; [apply Hi|done..].
Qed.

(** ** The clock interrupt against [allocproc] *)

Lemma bind_Blocked {A B} (m : M K A) (f : A → M K B) k k' :
  m k = Blocked k' → (m ≫= f) k = Blocked k'.
Proof. unfold mbind, M_bind. by intros ->. Qed.

Lemma nest_ok_on n c x k :
  k_cpus k !! c = Some x → 0 <= c_ncli x → c_ncli x + n < 2 ^ 31 - 1 → 0 <= n →
  (0 < c_ncli x → Z.land (c_eflags x) FL_IF = 0) → nest_ok n (on c k).
Proof.
  intros Hx H1 H2 H3 H4. assert (this_cpu (on c k) = x) as E by (by apply list_lookup_total_correct).
  unfold nest_ok, cpu_wf. rewrite E. simpl. apply lookup_lt_Some in Hx. repeat split; (done || lia).
Qed.

Section race.
Context {SV : Services V} {UM : UserMem V} {DV : Devices V}.
Context (flag : schedflag) (swtch : M K unit) (filecall : Z → M K Z) (fuel : nat).

(** The interrupt arrives while [ptable.lock] is taken. *)
Lemma timer_spins tf t k c :
  nest_ok 2 k → c_id (this_cpu k) = 0 → k_tfmem k !! tf = Some t → tf_trapno t = T_IRQ0 + IRQ_TIMER →
  lock_idle TicksLock k → k_locks k !! PtableLock = Some (Lock 1 (Some c)) → c ≠ k_mycpu k →
  let ka := acquired TicksLock k in
  let kb := set_k_ticks (u32 (k_ticks ka + 1)) ka in
  trap flag swtch filecall fuel tf k = Blocked (upd_cpu cpu_pushed kb).
Proof.
  intros Hn Hid Htf Ht Htk Hpt Hc ka kb. pose proof Hn as [Hwf _]. unfold trap.
  rewrite (bind_Ret _ _ t k k) by (unfold frame_at; by rewrite Htf).
  rewrite decide_False by (by rewrite Ht). apply bind_Blocked.
  unfold trap_switch. rewrite decide_True by done. unfold timer_intr.
  rewrite (bind_Ret _ _ 0 k k) by (unfold gets; by rewrite Hid). apply bind_Blocked. simpl.
  unfold tick. rewrite (bind_Ret _ _ tt k ka) by (apply acquire_free; [done|by apply lock_idle_free]).
  rewrite (bind_Ret _ _ tt ka kb) by done. apply bind_Blocked, bind_Blocked.
  apply (acquire_taken _ _ (Some c)).
  - apply (nest_ok_acquired 1 TicksLock k); [lia|done].
  - simpl. by rewrite lookup_insert_ne.
  - simpl. congruence.
Qed.

Lemma alloc_spins i k c :
  nest_ok 1 k → first_slot is_unused k = Some i →
  k_locks k !! TicksLock = Some (Lock 1 (Some c)) → c ≠ k_mycpu k →
  let kd := set_k_nextpid (s32 (k_nextpid k + 1))
    (upd_proc i (set_p_pid (k_nextpid k)) (upd_proc i (set_p_state EMBRYO) k)) in
  alloc_slot k = Blocked (upd_cpu cpu_pushed kd).
Proof.
  intros Hn Hf Ht Hc kd. unfold alloc_slot.
  rewrite (bind_Ret _ _ (Some i) k k) by (unfold gets; by rewrite <-Hf).
  rewrite (bind_Ret _ _ tt k (upd_proc i (set_p_state EMBRYO) k)) by done.
  rewrite (bind_Ret _ _ (k_nextpid k) _ (upd_proc i (set_p_state EMBRYO) k)) by done.
  rewrite (bind_Ret _ _ tt _ (upd_proc i (set_p_pid (k_nextpid k)) (upd_proc i (set_p_state EMBRYO) k))) by done.
  rewrite (bind_Ret _ _ tt _ kd) by done. apply bind_Blocked, bind_Blocked.
  apply (acquire_taken _ _ (Some c)); [apply Hn|done|simpl; congruence].
Qed.

(** The machine gets there. *)
Lemma steps_embrace k k1 kb k2 kd x0 x1 :
  lock_init (Machine k (λ _, PIdle) (λ _, [])) →
  k_cpus k !! 1%nat = Some x1 → c_ncli x1 = 0 →
  k1 = acquired PtableLock (on 1 k) →
  k_cpus k1 !! 0%nat = Some x0 → c_ncli x0 = 0 →
  same_sync (acquired TicksLock (on 0 k1)) kb → k2 = upd_cpu cpu_pushed kb →
  k_cpus kb !! 0%nat = Some (cpu_pushed x0) →
  same_sync k2 (on 0 kd) → k_mycpu kd = 1%nat → k_cpus kd !! 1%nat = Some (cpu_pushed x1) →
  ∃ m, rtc lock_step (Machine k (λ _, PIdle) (λ _, [])) m ∧ m_core m = upd_cpu cpu_pushed kd ∧
    embraced m 0 1 PtableLock TicksLock.
Proof.
  intros (Hall & _ & _) H1 N1 Ek1 C0 N0 Hkb Ek2 D0 Hkd Hmd D1.
  destruct (steps_acquire (Machine k (λ _, PIdle) (λ _, [])) 1 PtableLock)
    as (m1 & S1 & E1 & P1 & L1 & W1); [done|apply (nest_ok_on 1 1 x1); [done|lia..]|apply Hall|].
  simpl in E1. rewrite <-Ek1 in E1. destruct (W1 0%nat ltac:(done)) as [Q1 R1].
  destruct (steps_acquire m1 0 TicksLock) as (m2 & S2 & E2 & P2 & L2 & W2); [done|..].
  { rewrite E1. apply (nest_ok_on 1 0 x0); [done|lia..]. }
  { rewrite E1, Ek1, lock_of_acquired by done. apply Hall. }
  rewrite E1 in E2. destruct (W2 1%nat ltac:(done)) as [Q2 R2].
  destruct (steps_work m2 kb) as (m3 & S3 & E3 & W3); [by rewrite E2|].
  assert (k_locks kb = <[TicksLock := Lock 1 (Some 0%nat)]> (<[PtableLock := Lock 1 (Some 1%nat)]> (k_locks k)))
    as Hlk by (destruct Hkb as (_ & _ & ->); by rewrite Ek1).
  destruct (steps_spin m3 0 PtableLock (Some 1%nat)) as (m4 & S4 & E4 & P4 & L4 & W4).
  { by destruct (W3 0%nat) as [-> _]. }
  { rewrite E3. apply (nest_ok_on 1 0 (cpu_pushed x0)); [done|simpl; lia..|]. intros _. apply ldiff_IF. }
  { rewrite E3, Hlk. by simplify_map_eq. }
  { done. }
  rewrite E3 in E4. destruct (W4 1%nat ltac:(done)) as [Q4 R4].
  assert (on 0 kb = kb) as Eon by (destruct Hkb as (_ & Hm & _), kb; simpl in *; by subst).
  rewrite Eon, <-Ek2 in E4.
  destruct (steps_work m4 (on 0 kd)) as (m5 & S5 & E5 & W5); [by rewrite E4|].
  destruct (W5 0%nat) as [Q50 R50], (W5 1%nat) as [Q51 R51], (W3 0%nat) as [Q30 R30], (W3 1%nat) as [Q31 R31].
  destruct (steps_spin m5 1 TicksLock (Some 0%nat)) as (m6 & S6 & E6 & P6 & L6 & W6).
  { by rewrite Q51, Q4, Q31, Q2. }
  { rewrite E5. apply (nest_ok_on 1 1 (cpu_pushed x1)); [done|simpl; lia..|]. intros _. apply ldiff_IF. }
  { rewrite E5. destruct Hkd as (_ & _ & Hl). rewrite Hl, Ek2. simpl. rewrite Hlk. by simplify_map_eq. }
  { done. }
  destruct (W6 0%nat ltac:(done)) as [Q6 R6]. exists m6. split; [by do 5 (etrans; [done|])|]. split.
  { rewrite E6, E5. f_equal. destruct kd. simpl in *. by subst. }
  split; [by rewrite Q6, Q50|]. split; [done|]. split.
  - rewrite R6, R50, L4, R30, L2. left.
  - rewrite L6, R51, R4, R31, R2, L1. left.
Qed.

(** C36. Two processors can deadlock.  From any state in which no lock is held,
    let processor 1 enter [allocproc] and take [ptable.lock]; the clock interrupt
    on processor 0 takes [tickslock] and then spins for [ptable.lock], and
    [allocproc] goes on to spin for [tickslock].  The machine of interleaved lock
    operations reaches this state, and in every state it can reach from there
    both processors still spin. *)
Theorem tick_alloc_deadlock tf t i x0 x1 k :
  (∀ lk, lock_of lk k = Lock 0 None) →
  lock_idle PtableLock k → lock_idle TicksLock k →
  (∀ c, (c < length (k_cpus k))%nat → c_ncli (this_cpu (on c k)) = 0) →
  k_cpus k !! 0%nat = Some x0 → k_cpus k !! 1%nat = Some x1 → c_id x0 = 0 →
  k_tfmem k !! tf = Some t → tf_trapno t = T_IRQ0 + IRQ_TIMER →
  first_slot is_unused k = Some i →
  ∃ k1 k2 k3 m,
    acquire PtableLock (on 1 k) = Ret tt k1 ∧
    trap flag swtch filecall fuel tf (on 0 k1) = Blocked k2 ∧
    alloc_slot (on 1 k2) = Blocked k3 ∧
    rtc lock_step (Machine k (λ _, PIdle) (λ _, [])) m ∧ m_core m = k3 ∧
    ∀ m', rtc lock_step m m' →
      m_phase m' 0%nat = PTry PtableLock ∧ m_phase m' 1%nat = PTry TicksLock.
Proof.
  intros Hall Hpt Htk Hnc H0 H1 Hid Htf Ht Hf.
  assert (c_ncli x0 = 0 ∧ c_ncli x1 = 0) as [N0 N1].
  { pose proof (Hnc 0%nat (lookup_lt_Some _ _ _ H0)) as E0. pose proof (Hnc 1%nat (lookup_lt_Some _ _ _ H1)) as E1.
    unfold this_cpu in E0, E1. simpl in E0, E1. rewrite (list_lookup_total_correct _ _ _ H0) in E0.
    by rewrite (list_lookup_total_correct _ _ _ H1) in E1. }
  set (k1 := acquired PtableLock (on 1 k)).
  assert (k_cpus k1 !! 0%nat = Some x0 ∧ k_cpus k1 !! 1%nat = Some (cpu_pushed x1)) as [C0 C1].
  { unfold k1; simpl. rewrite list_lookup_alter_ne, list_lookup_alter_eq, H1 by done. done. }
  set (ka := acquired TicksLock (on 0 k1)). set (kb := set_k_ticks (u32 (k_ticks ka + 1)) ka).
  set (k2 := upd_cpu cpu_pushed kb).
  assert (k_cpus kb !! 0%nat = Some (cpu_pushed x0) ∧ k_cpus k2 !! 1%nat = Some (cpu_pushed x1)) as [D0 D1].
  { unfold k2, kb, ka, upd_cpu; cbn [k_cpus k_mycpu set_k_cpus set_k_ticks set_k_locks acquired upd_cpu on set_k_mycpu].
    rewrite list_lookup_alter_eq, C0, !list_lookup_alter_ne, C1 by done. done. }
  set (kc := on 1 k2).
  set (kd := set_k_nextpid (s32 (k_nextpid kc + 1))
    (upd_proc i (set_p_pid (k_nextpid kc)) (upd_proc i (set_p_state EMBRYO) kc))).
  assert (lock_init (Machine k (λ _, PIdle) (λ _, []))) as Hinit by (split; [done|]; split; done).
  destruct (steps_embrace k k1 kb k2 kd x0 x1) as (m & Hs & Hm & He); try done.
  exists k1, k2, (upd_cpu cpu_pushed kd), m. split; [|split; [|split; [|split; [done|split; [done|]]]]].
  - apply acquire_free; [apply (nest_ok_on 1 1 x1); [done|lia..]|by apply lock_idle_free].
  - apply (timer_spins tf t (on 0 k1) 1); try done.
    + apply (nest_ok_on 2 0 x0); [done|lia..].
    + unfold this_cpu. simpl. rewrite list_lookup_total_alter_ne by done.
      by rewrite (list_lookup_total_correct _ _ _ H0).
    + by apply (lock_idle_acquired PtableLock TicksLock (on 1 k)).
    + apply lookup_insert_eq.
  - apply (alloc_spins i kc 0); try done.
    + apply (nest_ok_on 1 1 (cpu_pushed x1)); [done|simpl; lia..|]. intros _. apply ldiff_IF.
    + unfold kc, k2, kb, ka. simpl. apply lookup_insert_eq.
  - intros m' Hm'.
    destruct (embraced_forever m m' 0 1 PtableLock TicksLock) as (Q0 & Q1 & _); [|done..].
    apply (lock_steps_inv _ _ Hs). split; [by apply lock_inv_init|by apply depth_inv_init].
Qed.
End race.
End order.

(** ** Witness *)

#[local] Existing Instance page_services.
#[local] Instance no_mem : UserMem Z := {| um_load := λ _ _, None; um_store := λ _ _ _, None |}.
#[local] Instance no_devices : Devices Z := {|
  dev_cprintf := mret tt; dev_lapiceoi := mret tt; dev_ideintr := mret tt;
  dev_kbdintr := mret tt; dev_uartintr := mret tt
|}.

(** Two processors that have just booted. *)
Definition race_demo : core Z := set_k_tfmem {[ 4096 := clock_frame ]} (boot_core 2 0).

Lemma tick_alloc_deadlock_witness :
  ∃ k1 k2 k3, acquire PtableLock (on 1 race_demo) = Ret tt k1 ∧
    trap PRS block (λ _, mret 0) 0 4096 (on 0 k1) = Blocked k2 ∧ alloc_slot (on 1 k2) = Blocked k3.
Proof.
  destruct (tick_alloc_deadlock PRS block (λ _, mret 0) 0 4096 clock_frame 0
    (Cpu 0 0 0 0 FL_IF None) (Cpu 1 0 0 0 FL_IF None) race_demo)
    as (k1 & k2 & k3 & _ & H1 & H2 & H3 & _).
  - by intros [| | |a].
  - by vm_compute.
  - by vm_compute.
  - intros [|[|c]] Hc; [done..|]. vm_compute in Hc. lia.
  - by vm_compute.
  - by vm_compute.
  - done.
  - by vm_compute.
  - done.
  - by vm_compute.
  - exists k1, k2, k3. split; [exact H1|]. split; [exact H2|exact H3].
Defined.
