(* ===== verification/KExt.v ===== *)
(** * The rest of the kernel's state

    The data of the memory allocator (kalloc.c), the pipes (pipe.c), the file
    table (file.h), the buffer cache (buf.h), the disk, the log (log.c), the
    inode cache (file.h), the segments (vm.c), the console (console.c) and the
    interrupt controllers (picirq.c, ioapic.c, lapic.c, mp.c), as one record [ext]
    that the kernel core carries. *)

From stdpp Require Import base list gmap strings.
From Stdlib Require Import ZArith Lia.
From S2P Require Import Prelude KState CString Proc.

(** ** Constants of param.h, fs.h, memlayout.h and buf.h *)

Definition NCPU : nat := 8.
Definition NFILE : nat := 100.
Definition NINODE : nat := 50.
Definition NDEV : Z := 10.
Definition ROOTDEV : Z := 1.
Definition MAXOPBLOCKS : Z := 10.
Definition LOGSIZE : Z := MAXOPBLOCKS * 3.
Definition NBUF : nat := 30.
Definition BSIZE : Z := 512.
Definition NDIRECT : nat := 12.
Definition NINDIRECT : nat := 128.
Definition EXTMEM : Z := 0x100000.
Definition PHYSTOP : Z := 0xE000000.

Definition B_BUSY : Z := 1.
Definition B_VALID : Z := 2.
Definition B_DIRTY : Z := 4.

(** The locks of these components. *)
Definition kmem_lock : lockid := OtherLock (-1).
Definition ftable_lock : lockid := OtherLock (-2).
Definition bcache_lock : lockid := OtherLock (-3).
Definition ide_lock : lockid := OtherLock (-4).
Definition log_lock : lockid := OtherLock (-5).
Definition icache_lock : lockid := OtherLock (-6).
Definition cons_lock : lockid := OtherLock (-7).
Definition input_lock : lockid := OtherLock (-8).
Definition pipe_lock (p : Z) : lockid := OtherLock p.

(** ** Records *)

Record kmem := KMem {
  km_use_lock : Z;
  km_freelist : Z
}.

Definition set_km_use_lock (v : Z) (r : kmem) : kmem :=
  KMem v (km_freelist r).
Definition set_km_freelist (v : Z) (r : kmem) : kmem :=
  KMem (km_use_lock r) v.

Definition PIPESIZE : Z := 512.

Record pipe := Pipe {
  pi_data : list Z;
  pi_nread : Z;
  pi_nwrite : Z;
  pi_readopen : Z;
  pi_writeopen : Z
}.

Definition set_pi_data (v : list Z) (r : pipe) : pipe :=
  Pipe v (pi_nread r) (pi_nwrite r) (pi_readopen r) (pi_writeopen r).
Definition set_pi_nread (v : Z) (r : pipe) : pipe :=
  Pipe (pi_data r) v (pi_nwrite r) (pi_readopen r) (pi_writeopen r).
Definition set_pi_nwrite (v : Z) (r : pipe) : pipe :=
  Pipe (pi_data r) (pi_nread r) v (pi_readopen r) (pi_writeopen r).
Definition set_pi_readopen (v : Z) (r : pipe) : pipe :=
  Pipe (pi_data r) (pi_nread r) (pi_nwrite r) v (pi_writeopen r).
Definition set_pi_writeopen (v : Z) (r : pipe) : pipe :=
  Pipe (pi_data r) (pi_nread r) (pi_nwrite r) (pi_readopen r) v.

Inductive filetype := FD_NONE | FD_PIPE | FD_INODE.

#[global] Instance filetype_eq_dec : EqDecision filetype.
Proof. solve_decision. Defined.

Record file := File {
  f_type : filetype;
  f_ref : Z;
  f_readable : Z;
  f_writable : Z;
  f_pipe : Z;
  f_ip : option nat;
  f_off : Z
}.

Definition set_f_type (v : filetype) (r : file) : file :=
  File v (f_ref r) (f_readable r) (f_writable r) (f_pipe r) (f_ip r) (f_off r).
Definition set_f_ref (v : Z) (r : file) : file :=
  File (f_type r) v (f_readable r) (f_writable r) (f_pipe r) (f_ip r)
    (f_off r).
Definition set_f_readable (v : Z) (r : file) : file :=
  File (f_type r) (f_ref r) v (f_writable r) (f_pipe r) (f_ip r) (f_off r).
Definition set_f_writable (v : Z) (r : file) : file :=
  File (f_type r) (f_ref r) (f_readable r) v (f_pipe r) (f_ip r) (f_off r).
Definition set_f_pipe (v : Z) (r : file) : file :=
  File (f_type r) (f_ref r) (f_readable r) (f_writable r) v (f_ip r) (f_off r).
Definition set_f_ip (v : option nat) (r : file) : file :=
  File (f_type r) (f_ref r) (f_readable r) (f_writable r) (f_pipe r) v
    (f_off r).
Definition set_f_off (v : Z) (r : file) : file :=
  File (f_type r) (f_ref r) (f_readable r) (f_writable r) (f_pipe r) (f_ip r)
    v.

Definition file0 : file := File FD_NONE 0 0 0 0 None 0.
#[global] Instance file_inhabited : Inhabited file := populate file0.

(** [prev] and [next] are indices into the array, [NBUF] for the list head. *)
Record buf := Buf {
  b_flags : Z;
  b_dev : Z;
  b_sector : Z;
  b_prev : nat;
  b_next : nat;
  b_qnext : option nat;
  b_data : list Z
}.

Definition set_b_flags (v : Z) (r : buf) : buf :=
  Buf v (b_dev r) (b_sector r) (b_prev r) (b_next r) (b_qnext r) (b_data r).
Definition set_b_dev (v : Z) (r : buf) : buf :=
  Buf (b_flags r) v (b_sector r) (b_prev r) (b_next r) (b_qnext r) (b_data r).
Definition set_b_sector (v : Z) (r : buf) : buf :=
  Buf (b_flags r) (b_dev r) v (b_prev r) (b_next r) (b_qnext r) (b_data r).
Definition set_b_prev (v : nat) (r : buf) : buf :=
  Buf (b_flags r) (b_dev r) (b_sector r) v (b_next r) (b_qnext r) (b_data r).
Definition set_b_next (v : nat) (r : buf) : buf :=
  Buf (b_flags r) (b_dev r) (b_sector r) (b_prev r) v (b_qnext r) (b_data r).
Definition set_b_qnext (v : option nat) (r : buf) : buf :=
  Buf (b_flags r) (b_dev r) (b_sector r) (b_prev r) (b_next r) v (b_data r).
Definition set_b_data (v : list Z) (r : buf) : buf :=
  Buf (b_flags r) (b_dev r) (b_sector r) (b_prev r) (b_next r) (b_qnext r) v.

Definition buf0 : buf := Buf 0 0 0 0 0 None (replicate 512 0).
#[global] Instance buf_inhabited : Inhabited buf := populate buf0.

Record ide := Ide {
  ide_queue : option nat;
  ide_havedisk1 : Z;
  ide_disksize : Z
}.

Definition set_ide_queue (v : option nat) (r : ide) : ide :=
  Ide v (ide_havedisk1 r) (ide_disksize r).
Definition set_ide_havedisk1 (v : Z) (r : ide) : ide :=
  Ide (ide_queue r) v (ide_disksize r).
Definition set_ide_disksize (v : Z) (r : ide) : ide :=
  Ide (ide_queue r) (ide_havedisk1 r) v.

Record log := Log {
  lg_start : Z;
  lg_size : Z;
  lg_outstanding : Z;
  lg_committing : Z;
  lg_dev : Z;
  lg_n : Z;
  lg_sector : list Z
}.

Definition set_lg_start (v : Z) (r : log) : log :=
  Log v (lg_size r) (lg_outstanding r) (lg_committing r) (lg_dev r) (lg_n r)
    (lg_sector r).
Definition set_lg_size (v : Z) (r : log) : log :=
  Log (lg_start r) v (lg_outstanding r) (lg_committing r) (lg_dev r) (lg_n r)
    (lg_sector r).
Definition set_lg_outstanding (v : Z) (r : log) : log :=
  Log (lg_start r) (lg_size r) v (lg_committing r) (lg_dev r) (lg_n r)
    (lg_sector r).
Definition set_lg_committing (v : Z) (r : log) : log :=
  Log (lg_start r) (lg_size r) (lg_outstanding r) v (lg_dev r) (lg_n r)
    (lg_sector r).
Definition set_lg_dev (v : Z) (r : log) : log :=
  Log (lg_start r) (lg_size r) (lg_outstanding r) (lg_committing r) v (lg_n r)
    (lg_sector r).
Definition set_lg_n (v : Z) (r : log) : log :=
  Log (lg_start r) (lg_size r) (lg_outstanding r) (lg_committing r) (lg_dev r)
    v (lg_sector r).
Definition set_lg_sector (v : list Z) (r : log) : log :=
  Log (lg_start r) (lg_size r) (lg_outstanding r) (lg_committing r) (lg_dev r)
    (lg_n r) v.

Record inode := Inode {
  i_dev : Z;
  i_inum : Z;
  i_ref : Z;
  i_flags : Z;
  i_type : Z;
  i_major : Z;
  i_minor : Z;
  i_nlink : Z;
  i_size : Z;
  i_addrs : list Z
}.

Definition set_i_dev (v : Z) (r : inode) : inode :=
  Inode v (i_inum r) (i_ref r) (i_flags r) (i_type r) (i_major r) (i_minor r)
    (i_nlink r) (i_size r) (i_addrs r).
Definition set_i_inum (v : Z) (r : inode) : inode :=
  Inode (i_dev r) v (i_ref r) (i_flags r) (i_type r) (i_major r) (i_minor r)
    (i_nlink r) (i_size r) (i_addrs r).
Definition set_i_ref (v : Z) (r : inode) : inode :=
  Inode (i_dev r) (i_inum r) v (i_flags r) (i_type r) (i_major r) (i_minor r)
    (i_nlink r) (i_size r) (i_addrs r).
Definition set_i_flags (v : Z) (r : inode) : inode :=
  Inode (i_dev r) (i_inum r) (i_ref r) v (i_type r) (i_major r) (i_minor r)
    (i_nlink r) (i_size r) (i_addrs r).
Definition set_i_type (v : Z) (r : inode) : inode :=
  Inode (i_dev r) (i_inum r) (i_ref r) (i_flags r) v (i_major r) (i_minor r)
    (i_nlink r) (i_size r) (i_addrs r).
Definition set_i_major (v : Z) (r : inode) : inode :=
  Inode (i_dev r) (i_inum r) (i_ref r) (i_flags r) (i_type r) v (i_minor r)
    (i_nlink r) (i_size r) (i_addrs r).
Definition set_i_minor (v : Z) (r : inode) : inode :=
  Inode (i_dev r) (i_inum r) (i_ref r) (i_flags r) (i_type r) (i_major r) v
    (i_nlink r) (i_size r) (i_addrs r).
Definition set_i_nlink (v : Z) (r : inode) : inode :=
  Inode (i_dev r) (i_inum r) (i_ref r) (i_flags r) (i_type r) (i_major r)
    (i_minor r) v (i_size r) (i_addrs r).
Definition set_i_size (v : Z) (r : inode) : inode :=
  Inode (i_dev r) (i_inum r) (i_ref r) (i_flags r) (i_type r) (i_major r)
    (i_minor r) (i_nlink r) v (i_addrs r).
Definition set_i_addrs (v : list Z) (r : inode) : inode :=
  Inode (i_dev r) (i_inum r) (i_ref r) (i_flags r) (i_type r) (i_major r)
    (i_minor r) (i_nlink r) (i_size r) v.

Definition inode0 : inode := Inode 0 0 0 0 0 0 0 0 0 (replicate 13 0).
#[global] Instance inode_inhabited : Inhabited inode := populate inode0.

(** [struct segdesc] (mmu.h), and what a processor has of segments: its descriptor
    table and the two fields of its task state the kernel sets. *)
Record segdesc := SegDesc {
  sd_lim_15_0 : Z;
  sd_base_15_0 : Z;
  sd_base_23_16 : Z;
  sd_type : Z;
  sd_s : Z;
  sd_dpl : Z;
  sd_p : Z;
  sd_lim_19_16 : Z;
  sd_avl : Z;
  sd_rsv1 : Z;
  sd_db : Z;
  sd_g : Z;
  sd_base_31_24 : Z
}.

Definition set_sd_s (v : Z) (r : segdesc) : segdesc :=
  SegDesc (sd_lim_15_0 r) (sd_base_15_0 r) (sd_base_23_16 r) (sd_type r) v (sd_dpl r) (sd_p r)
    (sd_lim_19_16 r) (sd_avl r) (sd_rsv1 r) (sd_db r) (sd_g r) (sd_base_31_24 r).
Definition segdesc0 : segdesc := SegDesc 0 0 0 0 0 0 0 0 0 0 0 0 0.

Record segs := Segs {
  sg_gdt : list segdesc;
  sg_ss0 : Z;
  sg_esp0 : Z
}.

Definition set_sg_gdt (v : list segdesc) (r : segs) : segs :=
  Segs v (sg_ss0 r) (sg_esp0 r).
Definition set_sg_ss0 (v : Z) (r : segs) : segs :=
  Segs (sg_gdt r) v (sg_esp0 r).
Definition set_sg_esp0 (v : Z) (r : segs) : segs :=
  Segs (sg_gdt r) (sg_ss0 r) v.

Definition NSEGS : nat := 7.
Definition segs0 : segs := Segs (replicate NSEGS segdesc0) 0 0.

(** The functions a device can have in its entry of [devsw]: the console's. *)
Inductive devid := DevConsole.

Record devsw := DevSw {
  dv_read : option devid;
  dv_write : option devid
}.

Definition set_dv_read (v : option devid) (r : devsw) : devsw :=
  DevSw v (dv_write r).
Definition set_dv_write (v : option devid) (r : devsw) : devsw :=
  DevSw (dv_read r) v.

Definition devsw0 : devsw := DevSw None None.
#[global] Instance devsw_inhabited : Inhabited devsw := populate devsw0.

(** [cons], [panicked] and [input] (console.c), [uart] (uart.c) and the shift
    state of the keyboard (kbd.c). *)
Definition INPUT_BUF : Z := 128.

Record console := Console {
  cn_locking : Z;
  cn_panicked : Z;
  in_buf : list Z;
  in_r : Z;
  in_w : Z;
  in_e : Z;
  cn_uart : Z;
  kb_shift : Z
}.

Definition set_cn_locking (v : Z) (r : console) : console :=
  Console v (cn_panicked r) (in_buf r) (in_r r) (in_w r) (in_e r) (cn_uart r)
    (kb_shift r).
Definition set_cn_panicked (v : Z) (r : console) : console :=
  Console (cn_locking r) v (in_buf r) (in_r r) (in_w r) (in_e r) (cn_uart r)
    (kb_shift r).
Definition set_in_buf (v : list Z) (r : console) : console :=
  Console (cn_locking r) (cn_panicked r) v (in_r r) (in_w r) (in_e r)
    (cn_uart r) (kb_shift r).
Definition set_in_r (v : Z) (r : console) : console :=
  Console (cn_locking r) (cn_panicked r) (in_buf r) v (in_w r) (in_e r)
    (cn_uart r) (kb_shift r).
Definition set_in_w (v : Z) (r : console) : console :=
  Console (cn_locking r) (cn_panicked r) (in_buf r) (in_r r) v (in_e r)
    (cn_uart r) (kb_shift r).
Definition set_in_e (v : Z) (r : console) : console :=
  Console (cn_locking r) (cn_panicked r) (in_buf r) (in_r r) (in_w r) v
    (cn_uart r) (kb_shift r).
Definition set_cn_uart (v : Z) (r : console) : console :=
  Console (cn_locking r) (cn_panicked r) (in_buf r) (in_r r) (in_w r) (in_e r)
    v (kb_shift r).
Definition set_kb_shift (v : Z) (r : console) : console :=
  Console (cn_locking r) (cn_panicked r) (in_buf r) (in_r r) (in_w r) (in_e r)
    (cn_uart r) v.

Definition console0 : console := Console 0 0 (replicate (Z.to_nat INPUT_BUF) 0) 0 0 0 0 0.

(** The globals of picirq.c, ioapic.c, lapic.c and mp.c: the mask of the interrupt
    controllers, what [mpinit] has found, the addresses of the registers, and the
    counter that is static in [cpunum]. *)
Record intrs := Intrs {
  ic_irqmask : Z;
  ic_ismp : Z;
  ic_ncpu : Z;
  ic_bcpu : option nat;
  ic_lapic : Z;
  ic_ioapicid : Z;
  ic_ioapic : Z;
  ic_warned : Z
}.

Definition set_ic_irqmask (v : Z) (r : intrs) : intrs :=
  Intrs v (ic_ismp r) (ic_ncpu r) (ic_bcpu r) (ic_lapic r) (ic_ioapicid r)
    (ic_ioapic r) (ic_warned r).
Definition set_ic_ismp (v : Z) (r : intrs) : intrs :=
  Intrs (ic_irqmask r) v (ic_ncpu r) (ic_bcpu r) (ic_lapic r) (ic_ioapicid r)
    (ic_ioapic r) (ic_warned r).
Definition set_ic_ncpu (v : Z) (r : intrs) : intrs :=
  Intrs (ic_irqmask r) (ic_ismp r) v (ic_bcpu r) (ic_lapic r) (ic_ioapicid r)
    (ic_ioapic r) (ic_warned r).
Definition set_ic_bcpu (v : option nat) (r : intrs) : intrs :=
  Intrs (ic_irqmask r) (ic_ismp r) (ic_ncpu r) v (ic_lapic r) (ic_ioapicid r)
    (ic_ioapic r) (ic_warned r).
Definition set_ic_lapic (v : Z) (r : intrs) : intrs :=
  Intrs (ic_irqmask r) (ic_ismp r) (ic_ncpu r) (ic_bcpu r) v (ic_ioapicid r)
    (ic_ioapic r) (ic_warned r).
Definition set_ic_ioapicid (v : Z) (r : intrs) : intrs :=
  Intrs (ic_irqmask r) (ic_ismp r) (ic_ncpu r) (ic_bcpu r) (ic_lapic r) v
    (ic_ioapic r) (ic_warned r).
Definition set_ic_ioapic (v : Z) (r : intrs) : intrs :=
  Intrs (ic_irqmask r) (ic_ismp r) (ic_ncpu r) (ic_bcpu r) (ic_lapic r)
    (ic_ioapicid r) v (ic_warned r).
Definition set_ic_warned (v : Z) (r : intrs) : intrs :=
  Intrs (ic_irqmask r) (ic_ismp r) (ic_ncpu r) (ic_bcpu r) (ic_lapic r)
    (ic_ioapicid r) (ic_ioapic r) v.

Definition intrs0 : intrs := Intrs 0xFFFB 0 0 None 0 0 0 0.

(** [x_mem] is physical memory as the kernel maps it, [x_cr3] the page directory
    that is loaded; [x_bufs] has the list head as its last element. *)
Record ext := Ext {
  x_mem : mem;
  x_cr3 : Z;
  x_kmem : kmem;
  x_pipes : gmap Z pipe;
  x_ftable : list file;
  x_bufs : list buf;
  x_disk : gmap (Z * Z) (list Z);
  x_ide : ide;
  x_log : log;
  x_icache : list inode;
  x_kpgdir : Z;
  x_segs : list segs;
  x_devsw : list devsw;
  x_cons : console;
  x_intr : intrs
}.

Definition set_x_mem (v : mem) (r : ext) : ext :=
  Ext v (x_cr3 r) (x_kmem r) (x_pipes r) (x_ftable r) (x_bufs r) (x_disk r)
    (x_ide r) (x_log r) (x_icache r) (x_kpgdir r) (x_segs r) (x_devsw r)
    (x_cons r) (x_intr r).
Definition set_x_cr3 (v : Z) (r : ext) : ext :=
  Ext (x_mem r) v (x_kmem r) (x_pipes r) (x_ftable r) (x_bufs r) (x_disk r)
    (x_ide r) (x_log r) (x_icache r) (x_kpgdir r) (x_segs r) (x_devsw r)
    (x_cons r) (x_intr r).
Definition set_x_kmem (v : kmem) (r : ext) : ext :=
  Ext (x_mem r) (x_cr3 r) v (x_pipes r) (x_ftable r) (x_bufs r) (x_disk r)
    (x_ide r) (x_log r) (x_icache r) (x_kpgdir r) (x_segs r) (x_devsw r)
    (x_cons r) (x_intr r).
Definition set_x_pipes (v : gmap Z pipe) (r : ext) : ext :=
  Ext (x_mem r) (x_cr3 r) (x_kmem r) v (x_ftable r) (x_bufs r) (x_disk r)
    (x_ide r) (x_log r) (x_icache r) (x_kpgdir r) (x_segs r) (x_devsw r)
    (x_cons r) (x_intr r).
Definition set_x_ftable (v : list file) (r : ext) : ext :=
  Ext (x_mem r) (x_cr3 r) (x_kmem r) (x_pipes r) v (x_bufs r) (x_disk r)
    (x_ide r) (x_log r) (x_icache r) (x_kpgdir r) (x_segs r) (x_devsw r)
    (x_cons r) (x_intr r).
Definition set_x_bufs (v : list buf) (r : ext) : ext :=
  Ext (x_mem r) (x_cr3 r) (x_kmem r) (x_pipes r) (x_ftable r) v (x_disk r)
    (x_ide r) (x_log r) (x_icache r) (x_kpgdir r) (x_segs r) (x_devsw r)
    (x_cons r) (x_intr r).
Definition set_x_disk (v : gmap (Z * Z) (list Z)) (r : ext) : ext :=
  Ext (x_mem r) (x_cr3 r) (x_kmem r) (x_pipes r) (x_ftable r) (x_bufs r) v
    (x_ide r) (x_log r) (x_icache r) (x_kpgdir r) (x_segs r) (x_devsw r)
    (x_cons r) (x_intr r).
Definition set_x_ide (v : ide) (r : ext) : ext :=
  Ext (x_mem r) (x_cr3 r) (x_kmem r) (x_pipes r) (x_ftable r) (x_bufs r)
    (x_disk r) v (x_log r) (x_icache r) (x_kpgdir r) (x_segs r) (x_devsw r)
    (x_cons r) (x_intr r).
Definition set_x_log (v : log) (r : ext) : ext :=
  Ext (x_mem r) (x_cr3 r) (x_kmem r) (x_pipes r) (x_ftable r) (x_bufs r)
    (x_disk r) (x_ide r) v (x_icache r) (x_kpgdir r) (x_segs r) (x_devsw r)
    (x_cons r) (x_intr r).
Definition set_x_icache (v : list inode) (r : ext) : ext :=
  Ext (x_mem r) (x_cr3 r) (x_kmem r) (x_pipes r) (x_ftable r) (x_bufs r)
    (x_disk r) (x_ide r) (x_log r) v (x_kpgdir r) (x_segs r) (x_devsw r)
    (x_cons r) (x_intr r).
Definition set_x_kpgdir (v : Z) (r : ext) : ext :=
  Ext (x_mem r) (x_cr3 r) (x_kmem r) (x_pipes r) (x_ftable r) (x_bufs r)
    (x_disk r) (x_ide r) (x_log r) (x_icache r) v (x_segs r) (x_devsw r)
    (x_cons r) (x_intr r).
Definition set_x_segs (v : list segs) (r : ext) : ext :=
  Ext (x_mem r) (x_cr3 r) (x_kmem r) (x_pipes r) (x_ftable r) (x_bufs r)
    (x_disk r) (x_ide r) (x_log r) (x_icache r) (x_kpgdir r) v (x_devsw r)
    (x_cons r) (x_intr r).
Definition set_x_devsw (v : list devsw) (r : ext) : ext :=
  Ext (x_mem r) (x_cr3 r) (x_kmem r) (x_pipes r) (x_ftable r) (x_bufs r)
    (x_disk r) (x_ide r) (x_log r) (x_icache r) (x_kpgdir r) (x_segs r) v
    (x_cons r) (x_intr r).
Definition set_x_cons (v : console) (r : ext) : ext :=
  Ext (x_mem r) (x_cr3 r) (x_kmem r) (x_pipes r) (x_ftable r) (x_bufs r)
    (x_disk r) (x_ide r) (x_log r) (x_icache r) (x_kpgdir r) (x_segs r)
    (x_devsw r) v (x_intr r).
Definition set_x_intr (v : intrs) (r : ext) : ext :=
  Ext (x_mem r) (x_cr3 r) (x_kmem r) (x_pipes r) (x_ftable r) (x_bufs r)
    (x_disk r) (x_ide r) (x_log r) (x_icache r) (x_kpgdir r) (x_segs r)
    (x_devsw r) (x_cons r) v.

Abbreviation KX := (core ext).

(** The image the kernel starts with; [m] is what is in memory. *)
Definition ext0 (m : mem) : ext :=
  Ext m 0 (KMem 0 0) ∅ (replicate NFILE file0) (replicate (S NBUF) buf0) ∅ (Ide None 0 0)
    (Log 0 0 0 0 0 0 (replicate (Z.to_nat LOGSIZE) 0)) (replicate NINODE inode0) 0
    (replicate NCPU segs0) (replicate (Z.to_nat NDEV) devsw0) console0 intrs0.

Definition upd_ext (f : ext → ext) : M KX unit := modify (λ k, set_k_ext (f (k_ext k)) k).
Definition ext_get {A : Type} (f : ext → A) : M KX A := gets (λ k, f (k_ext k)).
