(* ===== verification/Pic.v ===== *)
(** * Ports, interrupt controllers, timer (x86.h, picirq.c, ioapic.c, timer.c)

    The instructions that reach devices are an interface.  On top of it are the
    two 8259A interrupt controllers, the I/O APIC (its initialisation, which
    prints, is in Apic.v) and the timer of machines with one processor.  Against
    the documented behaviour of the chips it is shown that an interrupt line
    reaches the processor exactly if it was enabled, at the vector that trap.c
    expects. *)

From stdpp Require Import base list gmap strings.
From Stdlib Require Import ZArith Lia.
From S2P Require Import Prelude KState Spinlock CString Proc ProcForms KExt.

(** x86.h's port instructions, and loads and stores of the registers that devices
    have in the address space.  [insl] gives the 512 bytes of a sector, [outsl]
    takes them. *)
Class Ports := {
  inb : Z → M KX Z;
  outb : Z → Z → M KX unit;
  insl : Z → M KX (list Z);
  outsl : Z → list Z → M KX unit;
  mmio_read : Z → M KX Z;
  mmio_write : Z → Z → M KX unit
}.

Section devices.
Context {PT : Ports}.

Definition intr_get {A : Type} (f : intrs → A) : M KX A := ext_get (λ x, f (x_intr x)).
Definition intr_upd (f : intrs → intrs) : M KX unit := upd_ext (λ x, set_x_intr (f (x_intr x)) x).

(** ** The 8259A controllers (picirq.c) *)

Definition IO_PIC1 : Z := 0x20.
Definition IO_PIC2 : Z := 0xA0.
Definition IRQ_SLAVE : Z := 2.

Definition picsetmask (mask : Z) : M KX unit :=
  intr_upd (set_ic_irqmask mask) ;;
  outb (IO_PIC1 + 1) (u8 mask) ;;
  outb (IO_PIC2 + 1) (u8 (Z.shiftr mask 8)).

Definition picenable (irq : Z) : M KX unit :=
  irqmask ← intr_get ic_irqmask;
  picsetmask (u16 (Z.land irqmask (Z.lnot (Z.shiftl 1 irq)))).

Definition picinit : M KX unit :=
  outb (IO_PIC1 + 1) 0xFF ;;
  outb (IO_PIC2 + 1) 0xFF ;;
  outb IO_PIC1 0x11 ;;
  outb (IO_PIC1 + 1) T_IRQ0 ;;
  outb (IO_PIC1 + 1) (Z.shiftl 1 IRQ_SLAVE) ;;
  outb (IO_PIC1 + 1) 0x3 ;;
  outb IO_PIC2 0x11 ;;
  outb (IO_PIC2 + 1) (T_IRQ0 + 8) ;;
  outb (IO_PIC2 + 1) IRQ_SLAVE ;;
  outb (IO_PIC2 + 1) 0x3 ;;
  outb IO_PIC1 0x68 ;;
  outb IO_PIC1 0x0a ;;
  outb IO_PIC2 0x68 ;;
  outb IO_PIC2 0x0a ;;
  irqmask ← intr_get ic_irqmask;
  when (bool_decide (irqmask ≠ 0xFFFF)) (picsetmask irqmask).

(** ** The interval timer (timer.c) *)

Definition IO_TIMER1 : Z := 0x040.
Definition TIMER_FREQ : Z := 1193182.
Definition TIMER_DIV (x : Z) : Z := (TIMER_FREQ + x / 2) / x.
Definition TIMER_MODE : Z := IO_TIMER1 + 3.
Definition TIMER_SEL0 : Z := 0x00.
Definition TIMER_RATEGEN : Z := 0x04.
Definition TIMER_16BIT : Z := 0x30.

Definition timerinit : M KX unit :=
  outb TIMER_MODE (Z.lor (Z.lor TIMER_SEL0 TIMER_RATEGEN) TIMER_16BIT) ;;
  outb IO_TIMER1 (TIMER_DIV 100 mod 256) ;;
  outb IO_TIMER1 (TIMER_DIV 100 / 256) ;;
  picenable IRQ_TIMER.

(** ** The I/O APIC (ioapic.c)

    [struct ioapic] has the register number at offset 0 and the data at 16. *)

Definition IOAPIC : Z := 0xFEC00000.
Definition REG_ID : Z := 0x00.
Definition REG_VER : Z := 0x01.
Definition REG_TABLE : Z := 0x10.
Definition INT_DISABLED : Z := 0x00010000.

Definition ioapicread (reg : Z) : M KX Z :=
  a ← intr_get ic_ioapic;
  mmio_write a (u32 reg) ;;
  mmio_read (a + 16).

Definition ioapicwrite (reg data : Z) : M KX unit :=
  a ← intr_get ic_ioapic;
  mmio_write a (u32 reg) ;;
  mmio_write (a + 16) data.

Definition ioapicenable (irq cpunum : Z) : M KX unit :=
  ismp ← intr_get ic_ismp;
  if decide (ismp = 0) then mret tt else
  ioapicwrite (REG_TABLE + 2 * irq) (u32 (T_IRQ0 + irq)) ;;
  ioapicwrite (REG_TABLE + 2 * irq + 1) (u32 (Z.shiftl cpunum 24)).
End devices.

(** ** The chips

    An 8259A as its data sheet describes it: a command with bit 4 set starts the
    initialisation and clears the mask, and the next writes to the data port are
    the vector offset, the wiring of the cascade and the mode; after that, writes
    to the data port set the mask. *)
Record chip := Chip { ch_expects : nat; ch_offset : Z; ch_cascade : Z; ch_mode : Z; ch_mask : Z }.

Definition chip_command (v : Z) (c : chip) : chip :=
  if Z.testbit v 4 then Chip 2 (ch_offset c) (ch_cascade c) (ch_mode c) 0 else c.

Definition chip_data (v : Z) (c : chip) : chip :=
  let '(Chip e o s m k) := c in
  match e with
  | 2%nat => Chip 3 (8 * (v / 8)) s m k
  | 3%nat => Chip 4 o v m k
  | 4%nat => Chip 0 o s v k
  | _ => Chip e o s m v
  end.

(** The master and the slave at their ports. *)
Definition pic_out (p v : Z) (c : chip * chip) : chip * chip :=
  if decide (p = IO_PIC1) then (chip_command v c.1, c.2)
  else if decide (p = IO_PIC1 + 1) then (chip_data v c.1, c.2)
  else if decide (p = IO_PIC2) then (c.1, chip_command v c.2)
  else if decide (p = IO_PIC2 + 1) then (c.1, chip_data v c.2)
  else c.

(** The vector at which a line interrupts the processor: a line of the slave goes
    through the line of the master that the slave is connected to. *)
Definition chip_vector (c : chip) (line : Z) : option Z :=
  if decide (ch_expects c = 0%nat) then if Z.testbit (ch_mask c) line then None else Some (ch_offset c + line) else None.
Definition pic_vector (c : chip * chip) (irq : Z) : option Z :=
  if decide (irq < 8) then chip_vector c.1 irq
  else if Z.testbit (ch_cascade c.1) (ch_cascade c.2) && bool_decide (is_Some (chip_vector c.1 (ch_cascade c.2)))
  then chip_vector c.2 (irq - 8) else None.

(** The port instructions reach the chips and nothing of the kernel. *)
Class PicPorts {PT : Ports} (chips : gmap (Z * Z) (list Z) → chip * chip) := {
  pic_outb p v (k : KX) :
    ∃ d, outb p v k = Ret tt (set_k_ext (set_x_disk d (k_ext k)) k) ∧ chips d = pic_out p v (chips (x_disk (k_ext k)))
}.

Section pic.
Context {PT : Ports} {chips : gmap (Z * Z) (list Z) → chip * chip} {PP : PicPorts chips}.
Implicit Types (k : KX) (m : M KX unit).

(** What a routine does to the chips and to the kernel's mask. *)
Definition drives m (F : (chip * chip) * Z → (chip * chip) * Z) : Prop :=
  ∀ k, ∃ d w, m k = Ret tt (set_k_ext (set_x_intr (set_ic_irqmask w (x_intr (k_ext k))) (set_x_disk d (k_ext k))) k) ∧
    (chips d, w) = F (chips (x_disk (k_ext k)), ic_irqmask (x_intr (k_ext k))).

Lemma drives_bind m1 m2 F1 F2 : drives m1 F1 → drives m2 F2 → drives (m1 ;; m2) (F2 ∘ F1).
Proof.
  intros H1 H2 k. destruct (H1 k) as (d1 & w1 & E1 & G1). erewrite bind_Ret; [|exact E1].
  destruct (H2 (set_k_ext (set_x_intr (set_ic_irqmask w1 (x_intr (k_ext k))) (set_x_disk d1 (k_ext k))) k)) as (d2 & w2 & E2 & G2).
  exists d2, w2. split; [by rewrite E2|]. rewrite G2. cbn. by rewrite <-G1.
Qed.

Lemma drives_ret : drives (mret tt) id.
Proof. intros k. exists (x_disk (k_ext k)), (ic_irqmask (x_intr (k_ext k))). split; [|done]. by destruct k as [? ? ? ? ? ? ? ? ? ? ? ? ? ? ? ? [? ? ? ? ? ? ? ? ? ? ? ? ? ? []]]. Qed.

Lemma drives_outb p v : drives (outb p v) (λ s, (pic_out p v s.1, s.2)).
Proof.
  intros k. destruct (pic_outb p v k) as (d & E & G). exists d, (ic_irqmask (x_intr (k_ext k))).
  split; [|cbn; by rewrite <-G]. rewrite E. by destruct k as [? ? ? ? ? ? ? ? ? ? ? ? ? ? ? ? [? ? ? ? ? ? ? ? ? ? ? ? ? ? []]].
Qed.

Lemma drives_get (f : Z → M KX unit) F : (∀ w, drives (f w) (F w)) → drives (w ← intr_get ic_irqmask; f w) (λ s, F s.2 s).
Proof. intros Hf k. apply (Hf (ic_irqmask (x_intr (k_ext k)))). Qed.

Lemma drives_set w : drives (intr_upd (set_ic_irqmask w)) (λ s, (s.1, w)).
Proof. intros k. exists (x_disk (k_ext k)), w. split; [|done]. by destruct k as [? ? ? ? ? ? ? ? ? ? ? ? ? ? ? ? [? ? ? ? ? ? ? ? ? ? ? ? ? ? []]]. Qed.

Lemma drives_when b m F : drives m F → drives (when b m) (λ s, if b then F s else s).
Proof. intros Hm. destruct b; [exact Hm|exact drives_ret]. Qed.

(** The chips as the kernel programs them, with the mask [w]. *)
Definition programmed (w : Z) : chip * chip := (Chip 0 T_IRQ0 4 3 (u8 w), Chip 0 (T_IRQ0 + 8) IRQ_SLAVE 3 (u8 (Z.shiftr w 8))).

Lemma picinit_programs k :
  ic_irqmask (x_intr (k_ext k)) ≠ 0xFFFF →
  ∃ d, picinit k = Ret tt (set_k_ext (set_x_disk d (k_ext k)) k) ∧ chips d = programmed (ic_irqmask (x_intr (k_ext k))).
Proof.
  intros Hw. eassert (drives picinit _) as Hd.
  { unfold picinit. do 14 (eapply drives_bind; [apply drives_outb|]). apply drives_get. intros w. eapply drives_when.
    unfold picsetmask. eapply drives_bind; [apply drives_set|]. eapply drives_bind; apply drives_outb. }
  destruct (Hd k) as (d & w & E & G). exists d. cbv beta iota delta [compose fst snd] in G. rewrite bool_decide_true in G by done.
  destruct (chips (x_disk (k_ext k))) as [[e1 o1 s1 m1 w1] [e2 o2 s2 m2 w2]].
  assert (pic_out (IO_PIC1 + 1) 0xFF (Chip e1 o1 s1 m1 w1, Chip e2 o2 s2 m2 w2) = (chip_data 255 (Chip e1 o1 s1 m1 w1), Chip e2 o2 s2 m2 w2)) as E1 by done.
  rewrite E1 in G. assert (∀ c1 c2, pic_out (IO_PIC2 + 1) 0xFF (c1, c2) = (c1, chip_data 255 c2)) as E2 by done.
  rewrite E2 in G. destruct (chip_data 255 (Chip e1 _ _ _ _)) as [f1 p1 t1 n1 x1], (chip_data 255 (Chip e2 _ _ _ _)) as [f2 p2 t2 n2 x2].
  cbn in G. injection G as G ->. split; [|exact G]. rewrite E.
  by destruct k as [? ? ? ? ? ? ? ? ? ? ? ? ? ? ? ? [? ? ? ? ? ? ? ? ? ? ? ? ? ? []]].
Qed.

Lemma picenable_programs irq k w :
  chips (x_disk (k_ext k)) = programmed w → ic_irqmask (x_intr (k_ext k)) = w →
  let w' := u16 (Z.land w (Z.lnot (Z.shiftl 1 irq))) in
  ∃ d, picenable irq k = Ret tt (set_k_ext (set_x_intr (set_ic_irqmask w' (x_intr (k_ext k))) (set_x_disk d (k_ext k))) k) ∧
    chips d = programmed w'.
Proof.
  intros Hc Hw w'. eassert (drives (picsetmask w') _) as Hd.
  { unfold picsetmask. eapply drives_bind; [apply drives_set|]. eapply drives_bind; apply drives_outb. }
  destruct (Hd k) as (d & v & E & G). exists d. cbn in G. rewrite Hc in G. cbn in G. injection G as G ->.
  split; [|exact G]. unfold picenable. erewrite bind_Ret; [|reflexivity]. cbn. rewrite Hw. exact E.
Qed.

(** The mask after some lines were enabled: a line is masked unless it is one of
    them or the slave's. *)
Definition masks (w : Z) (irqs : list Z) : Prop :=
  ∀ i, 0 <= i < 16 → Z.testbit w i = negb (bool_decide (i = IRQ_SLAVE ∨ i ∈ irqs)).

Lemma masks_enable w irqs irq :
  0 <= irq < 16 → masks w irqs → masks (u16 (Z.land w (Z.lnot (Z.shiftl 1 irq)))) (irqs ++ [irq]).
Proof.
  intros Hirq Hm i Hi. unfold u16. rewrite <-Z.land_ones, !Z.land_spec, Z.lnot_spec, Z.ones_spec_low, Z.shiftl_spec, andb_true_r by lia.
  rewrite Hm by done. change 1 with (2 ^ 0). rewrite Z.pow2_bits_eqb by lia.
  destruct (Z.eqb_spec 0 (i - irq)) as [E|E].
  - assert (i = irq) as -> by lia. rewrite andb_false_r, bool_decide_true; [done|]. right. apply elem_of_app. right. by apply list_elem_of_singleton.
  - rewrite andb_true_r. f_equal. apply bool_decide_ext. rewrite elem_of_app, list_elem_of_singleton. intuition lia.
Qed.

Lemma programmed_vector w irqs irq :
  masks w irqs → 0 <= irq < 16 → irq ≠ IRQ_SLAVE →
  pic_vector (programmed w) irq = if decide (irq ∈ irqs) then Some (T_IRQ0 + irq) else None.
Proof.
  intros Hm Hi Hne. assert (∀ i, 0 <= i < 8 → Z.testbit (u8 w) i = Z.testbit w i) as Hlo.
  { intros i ?. unfold u8. by rewrite Z.mod_pow2_bits_low by lia. }
  assert (∀ i, 0 <= i < 8 → Z.testbit (u8 (Z.shiftr w 8)) i = Z.testbit w (i + 8)) as Hhi.
  { intros i ?. unfold u8. rewrite Z.mod_pow2_bits_low, Z.shiftr_spec by lia. done. }
  assert (∀ (b : bool) (v : Z), (if b then None else Some v) = if decide (b = false) then Some v else None) as Hif by (by intros []).
  unfold pic_vector, chip_vector. cbn [programmed fst snd ch_expects ch_offset ch_cascade ch_mask]. rewrite !(decide_True (P := 0%nat = 0%nat)) by done.
  case_decide as H8.
  - rewrite Hlo, Hm by lia. rewrite Hif. apply decide_ext. rewrite negb_false_iff, bool_decide_eq_true. tauto.
  - rewrite Hlo, Hm, bool_decide_true by (unfold IRQ_SLAVE; auto with lia). change (Z.testbit 4 IRQ_SLAVE) with true.
    cbn [andb negb]. rewrite Hhi, Hm by lia. replace (irq - 8 + 8) with irq by lia. rewrite Hif.
    replace (T_IRQ0 + 8 + (irq - 8)) with (T_IRQ0 + irq) by lia.
    apply decide_ext. rewrite negb_false_iff, bool_decide_eq_true. tauto.
Qed.

Lemma picenables_program irqs : ∀ k w done,
  chips (x_disk (k_ext k)) = programmed w → ic_irqmask (x_intr (k_ext k)) = w → masks w done → Forall (λ i, 0 <= i < 16) irqs →
  ∃ d w', for_each picenable irqs k = Ret tt (set_k_ext (set_x_intr (set_ic_irqmask w' (x_intr (k_ext k))) (set_x_disk d (k_ext k))) k) ∧
    chips d = programmed w' ∧ masks w' (done ++ irqs).
Proof.
  induction irqs as [|irq irqs IH]; intros k w done Hc Hw Hm Hall; cbn [for_each].
  { destruct (drives_ret k) as (d & w' & E & [= Gd Gw]). exists d, w'. rewrite E, Gd, Gw, app_nil_r, Hw. done. }
  apply Forall_cons in Hall as [Hi Hall]. destruct (picenable_programs irq k w Hc Hw) as (d & E & G). erewrite bind_Ret; [|exact E].
  edestruct (IH (set_k_ext (set_x_intr (set_ic_irqmask (u16 (Z.land w (Z.lnot (Z.shiftl 1 irq)))) (x_intr (k_ext k))) (set_x_disk d (k_ext k))) k))
    as (d' & w' & E' & G' & M'); [exact G|reflexivity|by apply masks_enable|exact Hall|].
  exists d', w'. rewrite E', <-app_assoc in *. done.
Qed.
End pic.

(** Once [picinit] has run, whatever state the chips were in before, exactly the
    lines that were passed to [picenable] interrupt the processor, each at the
    vector [T_IRQ0 + irq] that trap.c dispatches on, those of the slave through
    the line that connects it to the master. *)
Theorem picenable_wires {PT : Ports} (chips : gmap (Z * Z) (list Z) → chip * chip) {PP : PicPorts chips} irqs (k : KX) :
  x_intr (k_ext k) = intrs0 → Forall (λ i, 0 <= i < 16) irqs →
  ∃ d w, (picinit ;; for_each picenable irqs) k =
      Ret tt (set_k_ext (set_x_intr (set_ic_irqmask w intrs0) (set_x_disk d (k_ext k))) k) ∧
    ∀ irq, 0 <= irq < 16 → irq ≠ IRQ_SLAVE →
      pic_vector (chips d) irq = if decide (irq ∈ irqs) then Some (T_IRQ0 + irq) else None.
Proof.
  intros Hk Hall. destruct (picinit_programs k) as (d & E & G); [by rewrite Hk|]. erewrite bind_Ret; [|exact E].
  destruct (picenables_program irqs (set_k_ext (set_x_disk d (k_ext k)) k) 0xFFFB []) as (d' & w & E' & G' & M).
  - cbn. by rewrite G, Hk.
  - cbn. by rewrite Hk.
  - intros i Hi. assert (i ∈ seqZ 0 16) as Hin by (apply elem_of_seqZ; lia). clear Hi. revert i Hin. apply Forall_forall.
    repeat constructor; by vm_compute.
  - done.
  - exists d', w. split; [rewrite E'; cbn; by rewrite Hk|]. intros irq Hi Hne. rewrite G'. by apply programmed_vector.
Qed.

(** A machine with the two chips, kept under a key no disk has. *)
Definition chip_list (c : chip) : list Z := [Z.of_nat (ch_expects c); ch_offset c; ch_cascade c; ch_mode c; ch_mask c].
Definition chip_of (l : list Z) : chip := Chip (Z.to_nat (l !!! 0%nat)) (l !!! 1%nat) (l !!! 2%nat) (l !!! 3%nat) (l !!! 4%nat).
Definition kept_chips (d : gmap (Z * Z) (list Z)) : chip * chip :=
  (chip_of (default [] (d !! (-2, 0))), chip_of (default [] (d !! (-2, 1)))).
Definition pic_ports : Ports := {|
  inb := λ _, mret 0;
  outb := λ p v, upd_ext (λ x, let c := pic_out p v (kept_chips (x_disk x)) in
    set_x_disk (<[(-2, 0) := chip_list c.1]> (<[(-2, 1) := chip_list c.2]> (x_disk x))) x);
  insl := λ _, mret [];
  outsl := λ _ _, mret tt;
  mmio_read := λ _, mret 0;
  mmio_write := λ _ _, mret tt
|}.

Lemma chip_of_list c : chip_of (chip_list c) = c.
Proof. destruct c. unfold chip_of. cbn. by rewrite Nat2Z.id. Qed.

Lemma pic_ports_ok : PicPorts (PT := pic_ports) kept_chips.
Proof.
  split. intros p v k. eexists. split; [reflexivity|]. unfold kept_chips at 1.
  rewrite lookup_insert_eq, lookup_insert_ne, lookup_insert_eq by done. cbn. rewrite !chip_of_list. by destruct (pic_out p v _).
Qed.

(** The lines of the timer, the keyboard and the disk. *)
Lemma picenable_wires_witness :
  let k := boot_core 1 (ext0 (λ _, 0)) in
  ∃ d w, (picinit (PT := pic_ports) ;; for_each (picenable (PT := pic_ports)) [IRQ_TIMER; IRQ_KBD; IRQ_IDE]) k =
      Ret tt (set_k_ext (set_x_intr (set_ic_irqmask w intrs0) (set_x_disk d (k_ext k))) k) ∧
    pic_vector (kept_chips d) IRQ_IDE = Some (T_IRQ0 + IRQ_IDE) ∧ pic_vector (kept_chips d) IRQ_COM1 = None.
Proof.
  intros k. destruct (picenable_wires (PT := pic_ports) kept_chips (PP := pic_ports_ok) [IRQ_TIMER; IRQ_KBD; IRQ_IDE] k) as (d & w & E & H).
  - reflexivity.
  - repeat constructor; done.
  - exists d, w. split; [exact E|]. split; [apply (H IRQ_IDE)|apply (H IRQ_COM1)]; done.
Defined.
