(* ===== verification/Kalloc.v ===== *)
(** * The page allocator (kalloc.c)

    Free pages are chained through their first word in memory.  The chain is
    related to the list of free pages it stands for, and the operations are
    shown to implement that list. *)

From stdpp Require Import base list gmap strings.
From Stdlib Require Import ZArith Lia.
From S2P Require Import Prelude KState Spinlock CString Proc ProcForms Syscall KExt.

Definition v2p (a : Z) : Z := u32 (a - KERNBASE).
Definition p2v (a : Z) : Z := u32 (a + KERNBASE).
Definition PGROUNDUP (sz : Z) : Z := Z.land (u32 (sz + PGSIZE - 1)) (Z.lnot (PGSIZE - 1)).
Definition PGROUNDDOWN (a : Z) : Z := Z.land (u32 a) (Z.lnot (PGSIZE - 1)).

(** The word at an address. *)
Definition get32 (m : mem) (a : Z) : Z :=
  word_of (m a) (m (a + 1)) (m (a + 2)) (m (a + 3)).

(** [if(kmem.use_lock) acquire(&kmem.lock);] and the release. *)
Definition kmem_acquire : M KX unit :=
  u ← ext_get (λ x, km_use_lock (x_kmem x));
  when (negb (bool_decide (u = 0))) (acquire kmem_lock).
Definition kmem_release : M KX unit :=
  u ← ext_get (λ x, km_use_lock (x_kmem x));
  when (negb (bool_decide (u = 0))) (release kmem_lock).

Section kalloc.
(** [end], the first address after the kernel, which the linker defines. *)
Context (end_ : Z).

Definition kfree (v : Z) : M KX unit :=
  if decide (v mod PGSIZE ≠ 0 ∨ v < end_ ∨ v2p v >= PHYSTOP) then panic "kfree" else
  upd_ext (λ x, set_x_mem (memset v 1 PGSIZE (x_mem x)) x) ;;
  kmem_acquire ;;
  fl ← ext_get (λ x, km_freelist (x_kmem x));
  upd_ext (λ x, set_x_mem (store32 v fl (x_mem x)) x) ;;
  upd_ext (λ x, set_x_kmem (set_km_freelist v (x_kmem x)) x) ;;
  kmem_release.

Definition kalloc : M KX Z :=
  kmem_acquire ;;
  r ← ext_get (λ x, km_freelist (x_kmem x));
  when (negb (bool_decide (r = 0)))
    (next ← ext_get (λ x, get32 (x_mem x) r);
     upd_ext (λ x, set_x_kmem (set_km_freelist next (x_kmem x)) x)) ;;
  kmem_release ;;
  mret r.

(** [for(; p + PGSIZE <= vend; p += PGSIZE) kfree(p);]; [fuel] bounds the number
    of pages. *)
Fixpoint freerange_loop (fuel : nat) (p vend : Z) : M KX unit :=
  if decide (u32 (p + PGSIZE) <= vend) then
    kfree p ;;
    match fuel with O => block | S fuel' => freerange_loop fuel' (u32 (p + PGSIZE)) vend end
  else mret tt.

Definition freerange (vstart vend : Z) : M KX unit :=
  freerange_loop (Z.to_nat (vend / PGSIZE)) (PGROUNDUP vstart) vend.

Definition kinit1 (vstart vend : Z) : M KX unit :=
  initlock kmem_lock ;;
  upd_ext (λ x, set_x_kmem (set_km_use_lock 0 (x_kmem x)) x) ;;
  freerange vstart vend.

Definition kinit2 (vstart vend : Z) : M KX unit :=
  freerange vstart vend ;;
  upd_ext (λ x, set_x_kmem (set_km_use_lock 1 (x_kmem x)) x).
End kalloc.

(** ** Words in memory *)

Lemma get32_store32 a w m : get32 (store32 a w m) a = u32 w.
Proof.
  rewrite <-word_of_bytes. unfold get32. rewrite !store32_filled.
  rewrite !decide_True by lia. unfold word_byte, word_of. repeat f_equal; lia.
Qed.

Lemma get32_ext m m' a :
  (∀ b, a <= b < a + 4 → m' b = m b) → get32 m' a = get32 m a.
Proof. intros H. unfold get32. rewrite !H by lia. done. Qed.

(** ** The chain of free pages *)

(** From [a] the chain runs through the pages of [l]. *)
Fixpoint run_chain (m : mem) (a : Z) (l : list Z) : Prop :=
  match l with
  | [] => a = 0
  | x :: l' => a = x ∧ run_chain m (get32 m x) l'
  end.

Lemma run_chain_ext m m' a l :
  (∀ x b, x ∈ l → x <= b < x + 4 → m' b = m b) → run_chain m a l → run_chain m' a l.
Proof.
  revert a. induction l as [|x l IH]; intros a Hm; [done|]. intros [-> Hc]. split; [done|].
  rewrite (get32_ext m) by (intros b Hb; by apply (Hm x); [left|]). apply IH; [|done].
  intros y b Hy. apply Hm. by right.
Qed.

Section spec.
Context (end_ : Z).

(** A page the allocator may own. *)
Record valid_page (v : Z) : Prop := {
  vp_align : v mod PGSIZE = 0;
  vp_end : end_ <= v;
  vp_phys : v2p v < PHYSTOP;
  vp_range : 0 < v < 2 ^ 32
}.

Record free_list (x : ext) (l : list Z) : Prop := {
  fl_chain : run_chain (x_mem x) (km_freelist (x_kmem x)) l;
  fl_nodup : NoDup l;
  fl_valid : Forall valid_page l
}.

(** Once the lock is in use it is free and can be taken. *)
Definition kmem_ready (k : KX) : Prop :=
  km_use_lock (x_kmem (k_ext k)) = 0 ∨ (nest_ok 1 k ∧ lock_idle kmem_lock k).

Definition kmem_held (k : KX) : KX :=
  if decide (km_use_lock (x_kmem (k_ext k)) = 0) then k else acquired kmem_lock k.
Definition kmem_done (k : KX) : KX :=
  if decide (km_use_lock (x_kmem (k_ext k)) = 0) then k else settle k.

Lemma kmem_acquire_ret k : kmem_ready k → kmem_acquire k = Ret tt (kmem_held k).
Proof.
  intros Hr. unfold kmem_acquire, kmem_held. rewrite (bind_Ret _ _ (km_use_lock (x_kmem (k_ext k))) k k) by done.
  case_bool_decide; case_decide; try done. destruct Hr as [?|[[? _] ?]]; [done|].
  apply acquire_free; [done|by apply lock_idle_free].
Qed.

Lemma kmem_release_ret k x :
  kmem_ready k → km_use_lock (x_kmem x) = km_use_lock (x_kmem (k_ext k)) →
  kmem_release (set_k_ext x (kmem_held k)) = Ret tt (kmem_done (set_k_ext x k)).
Proof.
  intros Hr Hx. unfold kmem_release, kmem_done. simpl.
  rewrite (bind_Ret _ _ (km_use_lock (x_kmem x)) _ (set_k_ext x (kmem_held k))) by done.
  rewrite Hx. unfold kmem_held. case_bool_decide; case_decide; try done.
  destruct Hr as [?|[? ?]]; [done|]. by apply (release_acquired kmem_lock (set_k_ext x k)).
Qed.

Lemma kmem_ready_done k : kmem_ready k → kmem_ready (kmem_done k).
Proof.
  unfold kmem_ready, kmem_done. intros Hr. case_decide as Hu; [by left|]. right.
  destruct Hr as [?|[? ?]]; [done|]. split; [by apply nest_ok_settle|done].
Qed.

Lemma kmem_done_ext k : k_ext (kmem_done k) = k_ext k.
Proof. unfold kmem_done. by case_decide. Qed.

Definition freed (v : Z) (x : ext) : ext :=
  set_x_kmem (set_km_freelist v (x_kmem x))
    (set_x_mem (store32 v (km_freelist (x_kmem x)) (memset v 1 PGSIZE (x_mem x))) x).

Lemma kfree_ret v k :
  valid_page v → kmem_ready k → kfree end_ v k = Ret tt (kmem_done (set_k_ext (freed v (k_ext k)) k)).
Proof.
  intros [H1 H2 H3 H4] Hr. unfold kfree. rewrite decide_False by (intros [?|[?|?]]; lia || done).
  set (x1 := set_x_mem (memset v 1 PGSIZE (x_mem (k_ext k))) (k_ext k)).
  rewrite (bind_Ret _ _ tt k (set_k_ext x1 k)) by done.
  rewrite (bind_Ret _ _ tt _ (kmem_held (set_k_ext x1 k))) by (by apply kmem_acquire_ret).
  assert (∀ x, kmem_held (set_k_ext x k) = set_k_ext x (kmem_held (set_k_ext x k))) as Hset.
  { intros x. unfold kmem_held. case_decide; done. }
  rewrite Hset. rewrite (bind_Ret _ _ (km_freelist (x_kmem (k_ext k))) _ (set_k_ext x1 (kmem_held (set_k_ext x1 k)))) by done.
  rewrite (bind_Ret _ _ tt _ (set_k_ext (set_x_mem (store32 v (km_freelist (x_kmem (k_ext k))) (x_mem x1)) x1)
     (kmem_held (set_k_ext x1 k)))) by done.
  rewrite (bind_Ret _ _ tt _ (set_k_ext (freed v (k_ext k)) (kmem_held (set_k_ext x1 k)))) by done.
  rewrite (kmem_release_ret (set_k_ext x1 k)); done.
Qed.

Definition popped (x : ext) : ext :=
  let r := km_freelist (x_kmem x) in
  if decide (r = 0) then x else set_x_kmem (set_km_freelist (get32 (x_mem x) r) (x_kmem x)) x.

Lemma kalloc_ret k :
  kmem_ready k →
  kalloc k = Ret (km_freelist (x_kmem (k_ext k))) (kmem_done (set_k_ext (popped (k_ext k)) k)).
Proof.
  intros Hr. unfold kalloc. rewrite (bind_Ret _ _ tt k (kmem_held k)) by (by apply kmem_acquire_ret).
  assert (k_ext (kmem_held k) = k_ext k) as He by (unfold kmem_held; by case_decide).
  set (r := km_freelist (x_kmem (k_ext k))).
  rewrite (bind_Ret _ _ r _ (kmem_held k)) by (unfold ext_get, gets; by rewrite He).
  rewrite (bind_Ret _ _ tt _ (set_k_ext (popped (k_ext k)) (kmem_held k))).
  - rewrite (bind_Ret _ _ tt _ (kmem_done (set_k_ext (popped (k_ext k)) k))); [done|].
    apply kmem_release_ret; [done|]. unfold popped. by case_decide.
  - unfold popped. fold r. case_bool_decide; case_decide; try done; simpl.
    + rewrite <-He. by destruct (kmem_held k).
    + unfold ext_get, upd_ext, modify, gets, mbind, M_bind. by rewrite He.
Qed.

(** Two pages do not overlap. *)
Lemma pages_apart v w : valid_page v → valid_page w → v ≠ w → v + PGSIZE <= w ∨ w + PGSIZE <= v.
Proof.
  intros [Hv _ _ _] [Hw _ _ _] Hne. unfold PGSIZE in *.
  apply Z.mod_divide in Hv as [a ->]; [|lia]. apply Z.mod_divide in Hw as [b ->]; [|lia]. lia.
Qed.

(** [kfree] writes only into the page it frees. *)
Lemma freed_mem v x b : ¬ (v <= b < v + PGSIZE) → x_mem (freed v x) b = x_mem x b.
Proof.
  intros Hb. unfold PGSIZE in *. simpl. rewrite store32_filled, decide_False by lia.
  rewrite memset_filled by (unfold PGSIZE; lia). by rewrite decide_False by (unfold PGSIZE; lia).
Qed.

Lemma freed_list v x l :
  valid_page v → v ∉ l → free_list x l → free_list (freed v x) (v :: l).
Proof.
  intros Hv Hn [Hc Hnd Hval]. split; [|by constructor|by constructor].
  simpl. split; [done|]. rewrite get32_store32.
  assert (is_u32 (km_freelist (x_kmem x))) as Hu.
  { unfold is_u32. destruct l as [|w l]; simpl in Hc; [lia|]. destruct Hc as [-> _].
    apply Forall_cons in Hval as [[_ _ _ ?] _]. lia. }
  rewrite u32_id by done. eapply run_chain_ext; [|done]. intros w b Hw Hb.
  apply (freed_mem v x). rewrite Forall_forall in Hval.
  destruct (pages_apart v w Hv (Hval w Hw)); [intros ->; done|unfold PGSIZE in *; lia..].
Qed.

Lemma popped_list x l :
  free_list x l →
  match l with
  | [] => km_freelist (x_kmem x) = 0 ∧ popped x = x
  | v :: l' => km_freelist (x_kmem x) = v ∧ free_list (popped x) l' ∧ x_mem (popped x) = x_mem x
  end.
Proof.
  intros [Hc Hnd Hval]. unfold popped. destruct l as [|v l]; simpl in Hc.
  - rewrite Hc. split; [done|]. by rewrite decide_True.
  - destruct Hc as [Hv Hc]. rewrite Hv. apply Forall_cons in Hval as [Hpv Hval].
    apply NoDup_cons in Hnd as [_ Hnd]. destruct Hpv as [_ _ _ ?].
    rewrite decide_False by lia. by split_and!.
Qed.

(** ** Refinement of a stack of pages *)

Inductive kop := KAlloc | KFree (v : Z).

Definition kop_run (o : kop) : M KX Z :=
  match o with KAlloc => kalloc | KFree v => kfree end_ v ;; mret 0 end.
Fixpoint kops_run (ops : list kop) : M KX (list Z) :=
  match ops with
  | [] => mret []
  | o :: ops' => r ← kop_run o; rs ← kops_run ops'; mret (r :: rs)
  end.

Definition kop_spec (o : kop) (l : list Z) : Z * list Z :=
  match o with
  | KAlloc => match l with [] => (0, []) | v :: l' => (v, l') end
  | KFree v => (0, v :: l)
  end.
Fixpoint kops_spec (ops : list kop) (l : list Z) : list Z * list Z :=
  match ops with
  | [] => ([], l)
  | o :: ops' => let '(r, l') := kop_spec o l in
                 let '(rs, l'') := kops_spec ops' l' in (r :: rs, l'')
  end.

(** Only pages that are not free are freed. *)
Fixpoint kops_legal (ops : list kop) (l : list Z) : Prop :=
  match ops with
  | [] => True
  | o :: ops' =>
      match o with KAlloc => True | KFree v => valid_page v ∧ v ∉ l end ∧
      kops_legal ops' (snd (kop_spec o l))
  end.

Definition in_freed (ops : list kop) (b : Z) : Prop :=
  ∃ v, KFree v ∈ ops ∧ v <= b < v + PGSIZE.

Lemma kop_refines o k l :
  kmem_ready k → free_list (k_ext k) l → kops_legal [o] l →
  ∃ k', kop_run o k = Ret (fst (kop_spec o l)) k' ∧ kmem_ready k' ∧
    free_list (k_ext k') (snd (kop_spec o l)) ∧
    ∀ b, ¬ in_freed [o] b → x_mem (k_ext k') b = x_mem (k_ext k) b.
Proof.
  intros Hr Hl [Ho _]. destruct o as [|v]; simpl.
  - rewrite kalloc_ret by done. eexists. pose proof (popped_list _ _ Hl) as Hp.
    destruct l as [|v l]; simpl; destruct Hp as [-> Hp].
    + split; [done|]. rewrite Hp. split; [apply kmem_ready_done; by destruct k|].
      rewrite kmem_done_ext. done.
    + destruct Hp as [Hp Hm]. split; [done|]. split; [apply kmem_ready_done|].
      * unfold kmem_ready in *. simpl. unfold popped. by case_decide.
      * rewrite kmem_done_ext. simpl. rewrite Hm. done.
  - destruct Ho as [Hv Hn]. rewrite (bind_Ret _ _ tt k _ (kfree_ret v k Hv Hr)).
    eexists. split; [done|]. split; [by apply kmem_ready_done|]. rewrite kmem_done_ext.
    split; [by apply freed_list|]. intros b Hb. apply freed_mem. intros Hvb. apply Hb.
    exists v. split; [left|done].
Qed.

(** C18. The allocator is a stack of pages.  For any sequence of allocations and
    frees in which only pages that are not free are freed, the results are those
    of the list - the page freed last, 0 when none is left - the chain in memory
    stands for the resulting list, no page is on it twice, and no byte outside the
    freed pages has changed. *)
Theorem kalloc_refines ops k l :
  kmem_ready k → free_list (k_ext k) l → kops_legal ops l →
  ∃ k', kops_run ops k = Ret (fst (kops_spec ops l)) k' ∧ kmem_ready k' ∧
    free_list (k_ext k') (snd (kops_spec ops l)) ∧
    ∀ b, ¬ in_freed ops b → x_mem (k_ext k') b = x_mem (k_ext k) b.
Proof.
  revert k l. induction ops as [|o ops IH]; intros k l Hr Hl Hops.
  { exists k. done. }
  destruct Hops as [Ho Hops]. destruct (kop_refines o k l Hr Hl) as (k1 & E1 & R1 & F1 & M1); [done|].
  destruct (IH k1 (snd (kop_spec o l)) R1 F1 Hops) as (k2 & E2 & R2 & F2 & M2).
  cbn [kops_run kops_spec]. rewrite (bind_Ret _ _ _ k k1 E1), (bind_Ret _ _ _ k1 k2 E2).
  destruct (kop_spec o l) as [r l1]. simpl in *. destruct (kops_spec ops l1) as [rs l2]. simpl in *.
  exists k2. split; [done|]. split; [done|]. split; [done|].
  intros b Hb. rewrite M2, M1; [done|..]; intros (v & Hv & ?); apply Hb; exists v.
  - apply list_elem_of_singleton in Hv as <-. split; [left|done].
  - split; [by right|done].
Qed.

(** ** Giving memory to the allocator *)

Definition pages_from (p : Z) (n : nat) : list Z := (λ i, p + PGSIZE * Z.of_nat i) <$> seq 0 n.

Lemma pages_from_S p n : pages_from p (S n) = p :: pages_from (p + PGSIZE) n.
Proof.
  unfold pages_from. cbn [seq fmap list_fmap]. f_equal; [lia|].
  rewrite <-fmap_S_seq, <-list_fmap_compose. apply list_fmap_ext. intros i x _. simpl. unfold PGSIZE. lia.
Qed.

Hypothesis (Hend : KERNBASE <= end_).

Lemma range_page v vend :
  v mod PGSIZE = 0 → end_ <= v → v + PGSIZE <= vend → vend <= KERNBASE + PHYSTOP → valid_page v.
Proof.
  intros Hm He Hv Hd. unfold KERNBASE, PHYSTOP, PGSIZE in *.
  split; [done|done|unfold v2p, KERNBASE, PHYSTOP; rewrite u32_id by lia; lia|lia].
Qed.

Lemma freerange_loop_ret fuel p vend k l :
  p mod PGSIZE = 0 → end_ <= p → p <= vend → vend <= KERNBASE + PHYSTOP →
  (vend - p) / PGSIZE <= Z.of_nat fuel → (∀ w, w ∈ l → w < p) →
  kmem_ready k → free_list (k_ext k) l →
  ∃ k', freerange_loop end_ fuel p vend k = Ret tt k' ∧ kmem_ready k' ∧
    free_list (k_ext k') (reverse (pages_from p (Z.to_nat ((vend - p) / PGSIZE))) ++ l).
Proof.
  revert p k l. induction fuel as [|fuel IH]; intros p k l Hm He Hp Hd Hf Hl Hr Hfl;
    cbn [freerange_loop]; rewrite u32_id by (unfold KERNBASE, PHYSTOP, PGSIZE in *; lia).
  - assert ((vend - p) / PGSIZE = 0) as E.
    { assert (0 <= (vend - p) / PGSIZE); [apply Z.div_pos; unfold PGSIZE; lia|lia]. }
    apply Z.div_small_iff in E; [|unfold PGSIZE; lia]. rewrite decide_False by (unfold PGSIZE in *; lia).
    rewrite Z.div_small by (unfold PGSIZE in *; lia). exists k. done.
  - case_decide as Hc.
    + assert (valid_page p) as Hv by (by apply (range_page p vend)).
      rewrite (bind_Ret _ _ tt k _ (kfree_ret p k Hv Hr)).
      assert ((vend - p) / PGSIZE = (vend - (p + PGSIZE)) / PGSIZE + 1) as E.
      { replace (vend - p) with (vend - (p + PGSIZE) + 1 * PGSIZE) by lia.
        by rewrite Z.div_add by (unfold PGSIZE; lia). }
      destruct (IH (p + PGSIZE) (kmem_done (set_k_ext (freed p (k_ext k)) k)) (p :: l)) as (k' & E' & R' & F').
      * unfold PGSIZE in *. rewrite <-Zplus_mod_idemp_r. change (4096 mod 4096) with 0. by rewrite Z.add_0_r.
      * unfold PGSIZE in *. lia.
      * done.
      * done.
      * lia.
      * intros w [->|Hw]%elem_of_cons; [unfold PGSIZE; lia|]. specialize (Hl w Hw). unfold PGSIZE in *. lia.
      * by apply kmem_ready_done.
      * rewrite kmem_done_ext. apply freed_list; [done| |done]. intros Hin. specialize (Hl p Hin). lia.
      * exists k'. split; [done|]. split; [done|]. rewrite E, Z2Nat.inj_add; [|apply Z.div_pos; unfold PGSIZE in *; lia|lia].
        change (Z.to_nat 1) with 1%nat. rewrite Nat.add_1_r, pages_from_S, reverse_cons, <-app_assoc. exact F'.
    + rewrite Z.div_small by (unfold PGSIZE in *; lia). exists k. done.
Qed.

Lemma pgroundup_spec a :
  0 <= a → a + PGSIZE <= 2 ^ 32 →
  PGROUNDUP a mod PGSIZE = 0 ∧ a <= PGROUNDUP a < a + PGSIZE.
Proof.
  intros H1 H2. unfold PGROUNDUP, PGSIZE in *. rewrite u32_id by lia.
  change (Z.lnot (4096 - 1)) with (Z.lnot (Z.ones 12)). rewrite <-Z.ldiff_land, Z.ldiff_ones_r by lia.
  rewrite Z.shiftl_mul_pow2, Z.shiftr_div_pow2 by lia. change (2 ^ 12) with 4096. split.
  - apply Z.mod_mul. lia.
  - pose proof (Z.div_mod (a + 4096 - 1) 4096 ltac:(lia)).
    pose proof (Z.mod_pos_bound (a + 4096 - 1) 4096 ltac:(lia)). lia.
Qed.

Lemma elem_of_pages_from p n v :
  v ∈ pages_from p n ↔ ∃ i, 0 <= i < Z.of_nat n ∧ v = p + PGSIZE * i.
Proof.
  unfold pages_from. rewrite list_elem_of_fmap. setoid_rewrite elem_of_seq. split.
  - intros (i & -> & Hi). exists (Z.of_nat i). split; [lia|done].
  - intros (i & Hi & ->). exists (Z.to_nat i). split; [rewrite Z2Nat.id; lia|lia].
Qed.

(** [freerange] gives the allocator exactly the pages that lie wholly inside
    the range, each once, in front of the pages it had; its loop ends. *)
Theorem freerange_spec vstart vend k l :
  end_ <= vstart → vstart + PGSIZE <= vend → vend <= KERNBASE + PHYSTOP →
  (∀ w, w ∈ l → w < vstart) → kmem_ready k → free_list (k_ext k) l →
  ∃ k' new, freerange end_ vstart vend k = Ret tt k' ∧ kmem_ready k' ∧
    free_list (k_ext k') (new ++ l) ∧
    ∀ v, v ∈ new ↔ v mod PGSIZE = 0 ∧ vstart <= v ∧ v + PGSIZE <= vend.
Proof.
  intros He Hv Hd Hl Hr Hf. unfold KERNBASE, PHYSTOP in *.
  destruct (pgroundup_spec vstart) as [Hm [Hp1 Hp2]]; [unfold PGSIZE in *; lia..|]. set (p := PGROUNDUP vstart) in *.
  destruct (freerange_loop_ret (Z.to_nat (vend / PGSIZE)) p vend k l) as (k' & E & R & F);
    try done; [lia|unfold PGSIZE in *; lia|..].
  { rewrite Z2Nat.id by (apply Z.div_pos; unfold PGSIZE in *; lia). apply Z.div_le_mono; unfold PGSIZE in *; lia. }
  { intros w Hw. specialize (Hl w Hw). lia. }
  exists k', (reverse (pages_from p (Z.to_nat ((vend - p) / PGSIZE)))). split; [exact E|].
  split; [done|]. split; [done|]. intros v. rewrite elem_of_reverse, elem_of_pages_from.
  rewrite Z2Nat.id by (apply Z.div_pos; unfold PGSIZE in *; lia).
  pose proof (Z.div_mod (vend - p) PGSIZE ltac:(unfold PGSIZE; lia)) as Hq.
  pose proof (Z.mod_pos_bound (vend - p) PGSIZE ltac:(unfold PGSIZE; lia)) as Hb.
  apply Z.mod_divide in Hm as [a Ha]; [|unfold PGSIZE; lia]. unfold PGSIZE in *. split.
  - intros (i & Hi & ->). split; [|lia]. rewrite Ha. replace (a * 4096 + 4096 * i) with ((a + i) * 4096) by lia.
    apply Z.mod_mul. lia.
  - intros (Hvm & H1 & H2). apply Z.mod_divide in Hvm as [c Hc]; [|lia]. exists (c - a). lia.
Qed.
End spec.

(** ** Witnesses *)

Definition kalloc_demo : KX := boot_core 1 (ext0 (λ _, 0)).

Lemma kalloc_demo_ready : kmem_ready kalloc_demo.
Proof. by left. Qed.

Lemma kalloc_demo_list end_ : free_list end_ (k_ext kalloc_demo) [].
Proof. split; [done|apply NoDup_nil_2|done]. Qed.

Lemma kalloc_refines_witness :
  ∃ k', kops_run KERNBASE [KFree 0x80400000; KAlloc; KAlloc] kalloc_demo = Ret [0; 0x80400000; 0] k'.
Proof.
  destruct (kalloc_refines KERNBASE [KFree 0x80400000; KAlloc; KAlloc] kalloc_demo []
    kalloc_demo_ready (kalloc_demo_list _)) as (k' & H & _).
  - split; [|done]. split; [|apply not_elem_of_nil]. split; vm_compute; done || lia.
  - exists k'. exact H.
Defined.

Lemma freerange_spec_witness :
  ∃ k', freerange KERNBASE (KERNBASE + 1) (KERNBASE + 12288) kalloc_demo = Ret tt k'.
Proof.
  destruct (freerange_spec KERNBASE ltac:(done) (KERNBASE + 1) (KERNBASE + 12288) kalloc_demo [])
    as (k' & new & H & _); [vm_compute; done || lia..| | | |].
  - intros w Hw. by apply not_elem_of_nil in Hw.
  - exact kalloc_demo_ready.
  - apply kalloc_demo_list.
  - exists k'. exact H.
Defined.
