(* ===== verification/Pipe.v ===== *)
(** * Pipes (pipe.c)

    A pipe is a ring of [PIPESIZE] bytes with two counters that wrap at 32
    bits.  The ring is related to the list of bytes in flight; writing and
    reading are shown to append to and take from that list.  [pipealloc] is
    with the file table. *)

From stdpp Require Import base list gmap strings.
From Stdlib Require Import ZArith Lia.
From S2P Require Import Prelude KState Spinlock RRQueue CString Proc ProcForms ProcInv KMachine ProcSpec Syscall KExt Kalloc.

Section pipe.
Context {UM : UserMem ext} (flag : schedflag) (swtch : M KX unit) (end_ : Z).

Definition pipe_at (p : Z) : M KX pipe := λ k,
  match x_pipes (k_ext k) !! p with Some q => Ret q k | None => Fault "no pipe" end.
Definition upd_pipe (p : Z) (f : pipe → pipe) : M KX unit :=
  upd_ext (λ x, set_x_pipes (alter f p (x_pipes x)) x).

Definition pipeclose (p writable : Z) : M KX unit :=
  acquire (pipe_lock p) ;;
  (if decide (writable ≠ 0) then
     upd_pipe p (set_pi_writeopen 0) ;; wakeup flag (ChPipeRead p)
   else
     upd_pipe p (set_pi_readopen 0) ;; wakeup flag (ChPipeWrite p)) ;;
  q ← pipe_at p;
  if decide (pi_readopen q = 0 ∧ pi_writeopen q = 0) then
    release (pipe_lock p) ;;
    upd_ext (λ x, set_x_pipes (delete p (x_pipes x)) x) ;;
    kfree end_ p
  else release (pipe_lock p).

(** The inner loop of [pipewrite]: [Some fuel'] when there is room, [None] when
    the write has failed (and the lock is released).  [fuel] bounds the number of
    times the process is switched back to. *)
Fixpoint pipe_wait_room (fuel : nat) (p : Z) : M KX (option nat) :=
  q ← pipe_at p;
  if decide (pi_nwrite q = u32 (pi_nread q + PIPESIZE)) then
    cur ← myproc;
    killed ← field cur p_killed;
    if decide (pi_readopen q = 0 ∨ killed ≠ 0) then
      release (pipe_lock p) ;; mret None
    else
      wakeup flag (ChPipeRead p) ;;
      sleep swtch (ChPipeWrite p) (Some (pipe_lock p)) ;;
      match fuel with O => block | S fuel' => pipe_wait_room fuel' p end
  else mret (Some fuel).

(** [p->data[p->nwrite++ % PIPESIZE] = c] *)
Definition pipe_put (c : Z) (q : pipe) : pipe :=
  set_pi_nwrite (u32 (pi_nwrite q + 1))
    (set_pi_data (<[Z.to_nat (pi_nwrite q mod PIPESIZE) := c]> (pi_data q)) q).

(** The loop over the bytes; [n] are left, the next one is at [a].  The result
    is false when the write has failed. *)
Fixpoint pipewrite_loop (n : nat) (fuel : nat) (p a : Z) : M KX bool :=
  match n with
  | O => mret true
  | S n' =>
      r ← pipe_wait_room fuel p;
      match r with
      | None => mret false
      | Some fuel' =>
          c ← uload8 a;
          upd_pipe p (pipe_put c) ;;
          pipewrite_loop n' fuel' p (a + 1)
      end
  end.

Definition pipewrite (fuel : nat) (p addr n : Z) : M KX Z :=
  acquire (pipe_lock p) ;;
  ok ← pipewrite_loop (Z.to_nat n) fuel p addr;
  if (ok : bool) then
    wakeup flag (ChPipeRead p) ;;
    release (pipe_lock p) ;;
    mret n
  else mret (-1).

(** The first loop of [piperead]; the result is false when the process was
    killed. *)
Fixpoint pipe_wait_data (fuel : nat) (p : Z) : M KX bool :=
  q ← pipe_at p;
  if decide (pi_nread q = pi_nwrite q ∧ pi_writeopen q ≠ 0) then
    cur ← myproc;
    killed ← field cur p_killed;
    if decide (killed ≠ 0) then release (pipe_lock p) ;; mret false
    else
      sleep swtch (ChPipeRead p) (Some (pipe_lock p)) ;;
      match fuel with O => block | S fuel' => pipe_wait_data fuel' p end
  else mret true.

Fixpoint piperead_loop (n : nat) (p a i : Z) : M KX Z :=
  match n with
  | O => mret i
  | S n' =>
      q ← pipe_at p;
      if decide (pi_nread q = pi_nwrite q) then mret i else
      upd_pipe p (set_pi_nread (u32 (pi_nread q + 1))) ;;
      ustore8 a (pi_data q !!! Z.to_nat (pi_nread q mod PIPESIZE)) ;;
      piperead_loop n' p (a + 1) (i + 1)
  end.

Definition piperead (fuel : nat) (p addr n : Z) : M KX Z :=
  acquire (pipe_lock p) ;;
  ok ← pipe_wait_data fuel p;
  if (ok : bool) then
    i ← piperead_loop (Z.to_nat n) p addr 0;
    wakeup flag (ChPipeWrite p) ;;
    release (pipe_lock p) ;;
    mret i
  else mret (-1).
End pipe.

(** ** The bytes in flight *)

Record pipe_repr (q : pipe) (l : list Z) : Prop := {
  pr_size : length (pi_data q) = Z.to_nat PIPESIZE;
  pr_nread : is_u32 (pi_nread q);
  pr_nwrite : pi_nwrite q = u32 (pi_nread q + Z.of_nat (length l));
  pr_fits : Z.of_nat (length l) <= PIPESIZE;
  pr_data : ∀ j c, l !! j = Some c →
    pi_data q !! Z.to_nat ((pi_nread q + Z.of_nat j) mod PIPESIZE) = Some c
}.

Lemma u32_mod_pipe z : u32 z mod PIPESIZE = z mod PIPESIZE.
Proof.
  unfold u32, PIPESIZE. rewrite (Z.mod_eq z (2 ^ 32)) by lia.
  replace (z - 2 ^ 32 * (z / 2 ^ 32)) with (z + (- (8388608 * (z / 2 ^ 32))) * 512) by lia.
  apply Z.mod_add. lia.
Qed.

Lemma u32_add_eq a b : is_u32 a → 0 <= b <= PIPESIZE → u32 (a + b) = a ↔ b = 0.
Proof.
  unfold is_u32, PIPESIZE, u32. intros Ha Hb. split; [|intros ->; rewrite Z.add_0_r; apply Z.mod_small; lia].
  intros He. destruct (decide (a + b < 2 ^ 32)).
  - rewrite Z.mod_small in He; lia.
  - replace (a + b) with (a + b - 2 ^ 32 + 1 * 2 ^ 32) in He by lia.
    rewrite Z.mod_add, Z.mod_small in He; lia.
Qed.

Lemma pipe_repr_empty q l : pipe_repr q l → pi_nread q = pi_nwrite q ↔ l = [].
Proof.
  intros [_ Hr Hw Hf _]. rewrite Hw. split.
  - intros He. apply length_zero_iff_nil.
    assert (Z.of_nat (length l) = 0); [|lia]. apply (u32_add_eq (pi_nread q)); [done|lia|done].
  - intros ->. simpl. by rewrite Z.add_0_r, u32_id.
Qed.

Lemma pipe_repr_full q l :
  pipe_repr q l → pi_nwrite q = u32 (pi_nread q + PIPESIZE) ↔ Z.of_nat (length l) = PIPESIZE.
Proof.
  intros [_ Hr Hw Hf _]. rewrite Hw. split; [|by intros ->]. intros He.
  assert (u32 (u32 (pi_nread q + Z.of_nat (length l)) + (PIPESIZE - Z.of_nat (length l))) =
    u32 (pi_nread q + Z.of_nat (length l))) as E.
  { unfold u32 in *. rewrite Zplus_mod_idemp_l.
    replace (pi_nread q + Z.of_nat (length l) + (PIPESIZE - Z.of_nat (length l)))
      with (pi_nread q + PIPESIZE) by lia. congruence. }
  apply u32_add_eq in E; [lia|apply u32_range|unfold PIPESIZE in *; lia].
Qed.

Lemma pipe_put_repr q l c :
  pipe_repr q l → Z.of_nat (length l) < PIPESIZE → pipe_repr (pipe_put c q) (l ++ [c]).
Proof.
  intros [Hs Hr Hw Hf Hd] Hlt. split; simpl.
  - by rewrite length_insert.
  - done.
  - rewrite Hw, length_app. simpl. unfold u32. rewrite Zplus_mod_idemp_l. f_equal. lia.
  - rewrite length_app. simpl. lia.
  - intros j d Hj. rewrite Hw, u32_mod_pipe. apply lookup_app_Some in Hj as [Hj|[Hge Hj]].
    + rewrite list_lookup_insert_ne; [by apply Hd|]. intros He.
      pose proof (lookup_lt_Some _ _ _ Hj) as Hjl.
      apply Z2Nat.inj in He; [|apply Z.mod_pos_bound; unfold PIPESIZE; lia..].
      assert (Z.of_nat (length l) = Z.of_nat j); [|lia].
      unfold PIPESIZE in *. rewrite (Z.mod_eq (_ + Z.of_nat (length l))), (Z.mod_eq (_ + Z.of_nat j)) in He by lia. lia.
    + apply list_lookup_singleton_Some in Hj as [Hj <-].
      replace j with (length l) by lia. apply list_lookup_insert_eq. rewrite Hs.
      apply Z2Nat.inj_lt; [apply Z.mod_pos_bound; unfold PIPESIZE; lia|unfold PIPESIZE; lia|].
      apply Z.mod_pos_bound. unfold PIPESIZE; lia.
Qed.

Lemma pipe_get_repr q c l :
  pipe_repr q (c :: l) →
  pi_data q !!! Z.to_nat (pi_nread q mod PIPESIZE) = c ∧
  pipe_repr (set_pi_nread (u32 (pi_nread q + 1)) q) l.
Proof.
  intros [Hs Hr Hw Hf Hd]. split.
  - apply list_lookup_total_correct. specialize (Hd 0%nat c eq_refl). by rewrite Z.add_0_r in Hd.
  - split; simpl in *; [done|apply u32_range| |lia|].
    + rewrite Hw. unfold u32. rewrite Zplus_mod_idemp_l. f_equal. lia.
    + intros j d Hj. specialize (Hd (S j) d Hj). rewrite <-Hd. do 2 f_equal.
      rewrite <-Zplus_mod_idemp_l, u32_mod_pipe, Zplus_mod_idemp_l. f_equal. lia.
Qed.

(** The memory of the user does not share state with the pipes. *)
Class PipeMem {UM : UserMem ext} : Prop := {
  pm_load : ∀ x ps a, um_load (set_x_pipes ps x) a = um_load x a;
  pm_store : ∀ x a b x', um_store x a b = Some x' → x_pipes x' = x_pipes x
}.

Section loops.
Context {UM : UserMem ext} {UO : UserMemOk ext} {PM : PipeMem}.
Context (flag : schedflag) (swtch : M KX unit) (p : Z).
Implicit Types (k : KX) (q : pipe) (l bs : list Z).

Definition has_pipe k q : Prop := x_pipes (k_ext k) !! p = Some q.
Definition with_pipe q k : KX := set_k_ext (set_x_pipes (<[p := q]> (x_pipes (k_ext k))) (k_ext k)) k.

Lemma pipe_at_ret k q : has_pipe k q → pipe_at p k = Ret q k.
Proof. unfold has_pipe, pipe_at. by intros ->. Qed.

Lemma upd_pipe_ret k q f : has_pipe k q → upd_pipe p f k = Ret tt (with_pipe (f q) k).
Proof.
  unfold has_pipe. intros Hq. unfold upd_pipe, upd_ext, modify, with_pipe. do 3 f_equal.
  apply map_eq. intros i. rewrite lookup_alter, lookup_insert. case_decide; [subst; by rewrite Hq|done].
Qed.

Lemma with_pipe_has q k : has_pipe (with_pipe q k) q.
Proof. apply lookup_insert_eq. Qed.

Lemma with_pipe_idem q q' k : with_pipe q' (with_pipe q k) = with_pipe q' k.
Proof. unfold with_pipe. simpl. by rewrite insert_insert_eq. Qed.

(** The bytes [bs] are at address [a] in the memory of the user. *)
Definition user_bytes k (a : Z) bs : Prop :=
  ∀ j c, bs !! j = Some c → um_load (k_ext k) (u32 (a + Z.of_nat j)) = Some c.

Lemma user_bytes_with q k a bs : user_bytes k a bs → user_bytes (with_pipe q k) a bs.
Proof. intros Hu j c Hj. simpl. rewrite pm_load. by apply Hu. Qed.

Lemma user_bytes_cons k a c bs :
  user_bytes k a (c :: bs) → um_load (k_ext k) (u32 a) = Some c ∧ user_bytes k (a + 1) bs.
Proof.
  intros Hu. split.
  - specialize (Hu 0%nat c eq_refl). by rewrite Z.add_0_r in Hu.
  - intros j d Hj. specialize (Hu (S j) d Hj). rewrite <-Hu. do 2 f_equal. lia.
Qed.

Lemma pipewrite_loop_room bs fuel a k q l :
  has_pipe k q → pipe_repr q l → Z.of_nat (length l + length bs) <= PIPESIZE → user_bytes k a bs →
  ∃ q', pipewrite_loop flag swtch (length bs) fuel p a k = Ret true (with_pipe q' k) ∧
    pipe_repr q' (l ++ bs) ∧ pi_readopen q' = pi_readopen q ∧ pi_writeopen q' = pi_writeopen q.
Proof.
  revert a k q l. induction bs as [|c bs IH]; intros a k q l Hq Hr Hf Hu.
  { exists q. rewrite app_nil_r. split; [|done]. simpl. unfold mret, M_ret. f_equal.
    unfold with_pipe. rewrite insert_id by done. destruct k as [? ? ? ? ? ? ? ? ? ? ? ? ? ? ? ? x]. by destruct x. }
  cbn [pipewrite_loop length] in *. apply user_bytes_cons in Hu as [Hc Hu].
  rewrite (bind_Ret _ _ (Some fuel) k k).
  2:{ destruct fuel; cbn [pipe_wait_room]; rewrite (bind_Ret _ _ q k k) by (by apply pipe_at_ret);
        rewrite decide_False; try done; rewrite (pipe_repr_full q l Hr); lia. }
  rewrite (bind_Ret _ _ c k k) by (unfold uload8; by rewrite Hc).
  rewrite (bind_Ret _ _ tt k _ (upd_pipe_ret k q (pipe_put c) Hq)).
  destruct (IH (a + 1) (with_pipe (pipe_put c q) k) (pipe_put c q) (l ++ [c])) as (q' & E & R & H1 & H2).
  - apply with_pipe_has.
  - apply pipe_put_repr; [done|lia].
  - rewrite length_app. simpl. lia.
  - by apply user_bytes_with.
  - exists q'. rewrite E, with_pipe_idem, <-app_assoc in *. done.
Qed.

(** Reading takes at most [n] bytes. *)
Lemma piperead_loop_ret n a i k q l :
  has_pipe k q → pipe_repr q l → Forall is_u8 l →
  0 <= a → a + Z.of_nat n <= 2 ^ 32 → mapped k a (Z.of_nat n) →
  let m := Nat.min n (length l) in
  ∃ q' x', piperead_loop n p a i k = Ret (i + Z.of_nat m) (set_k_ext x' k) ∧
    x_pipes x' = <[p := q']> (x_pipes (k_ext k)) ∧ written (k_ext k) a (take m l) x' ∧
    pipe_repr q' (drop m l).
Proof.
  revert a i k q l. induction n as [|n IH]; intros a i k q l Hq Hr Hb Ha He Hm m.
  { exists q, (k_ext k). rewrite insert_id by done. split; [simpl; rewrite Z.add_0_r; by destruct k|].
    split; [done|]. split; [|done]. intros x. simpl. by rewrite decide_False by lia. }
  cbn [piperead_loop]. rewrite (bind_Ret _ _ q k k) by (by apply pipe_at_ret).
  destruct l as [|c l].
  { rewrite decide_True by (by apply (pipe_repr_empty q [] Hr)). exists q, (k_ext k).
    rewrite insert_id by done. split; [simpl; rewrite Z.add_0_r; by destruct k|].
    split; [done|]. split; [|done]. intros x. simpl. by rewrite decide_False by lia. }
  rewrite decide_False by (rewrite (pipe_repr_empty q _ Hr); done).
  destruct (pipe_get_repr q c l Hr) as [Hc Hr']. rewrite Hc.
  set (q1 := set_pi_nread (u32 (pi_nread q + 1)) q) in *.
  rewrite (bind_Ret _ _ tt k (with_pipe q1 k)) by (by apply (upd_pipe_ret k q)).
  apply Forall_cons in Hb as [Hbc Hb].
  destruct (ustore8_ret (with_pipe q1 k) a c) as (x1 & E1 & W1); [unfold is_u32; lia|done| |].
  { intros x Hx. simpl. rewrite pm_load. apply Hm. lia. }
  rewrite (bind_Ret _ _ tt _ _ E1).
  assert (x_pipes x1 = <[p := q1]> (x_pipes (k_ext k))) as Hp1.
  { unfold ustore8 in E1. destruct (um_store _ _ _) as [v|] eqn:Hv; [|done]. injection E1 as <-.
    apply pm_store in Hv. done. }
  destruct (IH (a + 1) (i + 1) (set_k_ext x1 (with_pipe q1 k)) q1 l) as (q' & x' & E & P & W & R);
    [unfold has_pipe; simpl; rewrite Hp1; apply lookup_insert_eq|done|done|lia|lia| |].
  { intros y Hy. simpl. rewrite W1. simpl. rewrite pm_load. case_decide; [lia|]. apply Hm. lia. }
  exists q', x'. unfold m. cbn [Nat.min length take drop].
  split; [rewrite E; f_equal; lia|].
  split; [rewrite P; simpl; rewrite Hp1; apply insert_insert_eq|]. split; [|done].
  apply (written_app _ a [c] _ x1).
  - intros x. rewrite (W1 x). simpl. by rewrite pm_load.
  - exact W.
Qed.
End loops.

(** ** Writing and reading *)

Section pipe_specs.
Context {UM : UserMem ext} {UO : UserMemOk ext} {PM : PipeMem}.
Context (flag : schedflag) (swtch : M KX unit) (p : Z).
Implicit Types (k : KX) (q : pipe) (l bs : list Z).

(** The pipe's lock is free and can be taken, with [ptable.lock] inside it. *)
Record pipe_ready k : Prop := {
  pp_outside : outside k;
  pp_nest : nest_ok 3 k;
  pp_lock : lock_idle (pipe_lock p) k
}.

Lemma pipe_ready_calm k : pipe_ready k → calm (acquired (pipe_lock p) k).
Proof.
  intros [[_ _ Hp Hr Ht] Hn Hl]. split; [by apply nest_ok_acquired|by apply lock_idle_acquired..].
Qed.

Lemma wakeup_in_pipe chan k :
  pipe_ready k →
  wakeup flag chan (acquired (pipe_lock p) k) = Ret tt (acquired (pipe_lock p) (woken flag chan k)).
Proof.
  intros Hk. rewrite wakeup_calm by (by apply pipe_ready_calm). f_equal. rewrite woken_acquired.
  apply settle_nested, ncli_acquired. eapply same_sync_wf; [apply woken_sync|]. apply Hk.
Qed.

Lemma pipe_ready_sync k k' : same_sync k k' → pipe_ready k → pipe_ready k'.
Proof.
  intros Hs [H1 H2 H3]. split; [by eapply outside_sync|by eapply nest_ok_sync|by eapply lock_idle_sync].
Qed.

(** The tail both routines share: wake the other side, release, return. *)
Lemma pipe_finish {A} (r : A) chan k :
  pipe_ready k →
  (wakeup flag chan ;; release (pipe_lock p) ;; mret r) (acquired (pipe_lock p) k) =
  Ret r (settle (woken flag chan k)).
Proof.
  intros Hk. rewrite (bind_Ret _ _ tt _ _ (wakeup_in_pipe chan k Hk)).
  rewrite (bind_Ret _ _ tt _ (settle (woken flag chan k))); [done|].
  destruct (pipe_ready_sync _ _ (woken_sync flag chan k) Hk) as [? ? ?].
  apply release_acquired; [by apply (nest_ok_le 3)|done].
Qed.

(** C34. [pipewrite] with room for all the bytes appends them, in order, to the
    bytes in flight, wakes the readers and returns the count; neither the wrap of
    the counters at 32 bits nor that of the ring loses or reorders a byte. *)
Theorem pipewrite_spec fuel addr bs k q l :
  pipe_ready k → x_pipes (k_ext k) !! p = Some q → pipe_repr q l →
  Z.of_nat (length l + length bs) <= PIPESIZE → user_bytes k addr bs →
  ∃ q' k', pipewrite flag swtch fuel p addr (Z.of_nat (length bs)) k = Ret (Z.of_nat (length bs)) k' ∧
    x_pipes (k_ext k') !! p = Some q' ∧ pipe_repr q' (l ++ bs) ∧
    pi_readopen q' = pi_readopen q ∧ pi_writeopen q' = pi_writeopen q ∧
    k' = settle (woken flag (ChPipeRead p) (with_pipe p q' k)).
Proof.
  intros Hk Hq Hr Hf Hu. unfold pipewrite. rewrite Nat2Z.id.
  rewrite (bind_Ret _ _ tt k (acquired (pipe_lock p) k))
    by (apply acquire_outside; [apply Hk|apply Hk]).
  destruct (pipewrite_loop_room flag swtch p bs fuel addr (acquired (pipe_lock p) k) q l)
    as (q' & E & R & H1 & H2); [done..|].
  rewrite (bind_Ret _ _ true _ _ E).
  change (with_pipe p q' (acquired (pipe_lock p) k)) with (acquired (pipe_lock p) (with_pipe p q' k)).
  exists q', (settle (woken flag (ChPipeRead p) (with_pipe p q' k))).
  split; [apply pipe_finish; by apply (pipe_ready_sync k)|]. split; [|done].
  change (x_pipes (k_ext (woken flag (ChPipeRead p) (with_pipe p q' k))) !! p = Some q').
  assert (k_ext (woken flag (ChPipeRead p) (with_pipe p q' k)) = k_ext (with_pipe p q' k)) as ->
    by (pose proof (woken_rest flag (ChPipeRead p) (with_pipe p q' k)) as Hw; by injection Hw).
  apply lookup_insert_eq.
Qed.

Lemma wait_data_ret fuel k q l :
  has_pipe p k q → pipe_repr q l → l ≠ [] ∨ pi_writeopen q = 0 →
  pipe_wait_data swtch fuel p k = Ret true k.
Proof.
  intros Hq Hr Hl. destruct fuel; cbn [pipe_wait_data]; rewrite (bind_Ret _ _ q k k) by (by apply pipe_at_ret);
    rewrite decide_False; try done; rewrite (pipe_repr_empty q l Hr); naive_solver.
Qed.

(** C35. [piperead], when bytes are in flight or the write end is closed, takes the
    oldest bytes, at most [n], stores exactly these at the caller's address and
    nothing else, wakes the writers and returns the count; with the write end
    closed and nothing in flight it returns 0, the end of file. *)
Theorem piperead_spec fuel addr n k q l :
  pipe_ready k → x_pipes (k_ext k) !! p = Some q → pipe_repr q l → Forall is_u8 l →
  l ≠ [] ∨ pi_writeopen q = 0 →
  0 <= addr → 0 <= n → addr + n <= 2 ^ 32 → mapped k addr n →
  let m := Nat.min (Z.to_nat n) (length l) in
  ∃ q' x', piperead flag swtch fuel p addr n k =
      Ret (Z.of_nat m) (settle (woken flag (ChPipeWrite p) (set_k_ext x' k))) ∧
    x_pipes x' !! p = Some q' ∧ pipe_repr q' (drop m l) ∧ written (k_ext k) addr (take m l) x'.
Proof.
  intros Hk Hq Hr Hb Hl Ha Hn He Hm m. unfold piperead.
  rewrite (bind_Ret _ _ tt k (acquired (pipe_lock p) k))
    by (apply acquire_outside; [apply Hk|apply Hk]).
  rewrite (bind_Ret _ _ true _ (acquired (pipe_lock p) k)) by (by eapply wait_data_ret).
  destruct (piperead_loop_ret p (Z.to_nat n) addr 0 (acquired (pipe_lock p) k) q l)
    as (q' & x' & E & P & W & R); try done; [rewrite Z2Nat.id; done..|].
  rewrite (bind_Ret _ _ _ _ _ E).
  change (set_k_ext x' (acquired (pipe_lock p) k)) with (acquired (pipe_lock p) (set_k_ext x' k)).
  exists q', x'. split; [apply pipe_finish; by apply (pipe_ready_sync k)|].
  split; [rewrite P; apply lookup_insert_eq|]. done.
Qed.
End pipe_specs.

(** ** Witnesses *)

(** User memory as a part of the kernel's: the bytes from 0 to 4096. *)
#[local] Instance low_mem : UserMem ext := {|
  um_load := λ x a, if decide (0 <= a < 4096) then Some (x_mem x a) else None;
  um_store := λ x a b, if decide (0 <= a < 4096) then Some (set_x_mem (<[a := b]> (x_mem x)) x) else None
|}.

#[local] Instance low_mem_ok : UserMemOk ext.
Proof.
  split; simpl.
  - intros v a b v' x. case_decide; [|done]. intros [= <-]. simpl. rewrite insert_mem.
    repeat case_decide; subst; done || lia.
  - intros v a b [c Hc]. case_decide; [by eexists|done].
Qed.

#[local] Instance low_mem_pipes : PipeMem.
Proof. split; simpl; [done|]. intros x a b x'. case_decide; [|done]. by intros [= <-]. Qed.

(** A pipe that holds two bytes across the wrap of the ring. *)
Definition pipe_demo_q : pipe := Pipe (<[511%nat := 65]> (<[0%nat := 66]> (replicate 512 0))) 511 513 1 1.
Definition pipe_demo : KX :=
  set_k_locks (<[pipe_lock 8192 := Lock 0 None]> (k_locks kalloc_demo))
    (set_k_ext (set_x_pipes {[ 8192 := pipe_demo_q ]} (ext0 (λ a, a mod 256))) kalloc_demo).

Lemma pipe_demo_ready : pipe_ready 8192 pipe_demo.
Proof. split; [by split; vm_compute|by vm_compute|by vm_compute]. Qed.

Lemma pipe_demo_repr : pipe_repr pipe_demo_q [65; 66].
Proof.
  split; try (by vm_compute).
  intros [|[|j]] c; simpl; [intros [= <-]; by vm_compute..|done].
Qed.

Lemma pipewrite_spec_witness :
  ∃ q' k', pipewrite FRR block 0 8192 10 2 pipe_demo = Ret 2 k' ∧ pipe_repr q' [65; 66; 10; 11].
Proof.
  destruct (pipewrite_spec FRR block 8192 0 10 [10; 11] pipe_demo pipe_demo_q [65; 66] pipe_demo_ready)
    as (q' & k' & H1 & _ & H2 & _).
  - by vm_compute.
  - exact pipe_demo_repr.
  - by vm_compute.
  - intros [|[|j]] c; simpl; [intros [= <-]; by vm_compute..|done].
  - exists q', k'. split; [exact H1|exact H2].
Defined.

Lemma piperead_spec_witness :
  ∃ x', piperead FRR block 0 8192 20 5 pipe_demo =
      Ret 2 (settle (woken FRR (ChPipeWrite 8192) (set_k_ext x' pipe_demo))) ∧
    written (k_ext pipe_demo) 20 [65; 66] x'.
Proof.
  destruct (piperead_spec FRR block 8192 0 20 5 pipe_demo pipe_demo_q [65; 66] pipe_demo_ready)
    as (q' & x' & H1 & _ & _ & H2).
  - by vm_compute.
  - exact pipe_demo_repr.
  - repeat constructor; unfold is_u8; lia.
  - by left.
  - lia.
  - lia.
  - lia.
  - intros x Hx. simpl. rewrite decide_True by lia. by eexists.
  - exists x'. split; [exact H1|exact H2].
Defined.
