(* ===== verification/KRun.v ===== *)
(** * Sequential runs of the upper kernel

    The file system runs outside the process table's critical sections, takes
    its own locks for short sections, and wakes processes.  This file has the
    states in which it runs, what such a run leaves of the kernel core, and a
    small program logic whose assertions speak of the component state [ext]
    alone: a run returns, or it stops in a state (the machine is switched off in
    the middle) of which the crash condition holds. *)

From stdpp Require Import base list gmap strings.
From Stdlib Require Import ZArith Lia.
From S2P Require Import Prelude KState Spinlock RRQueue CString Proc ProcForms ProcInv ProcSpec KExt.

Definition fs_locks : list lockid :=
  [bcache_lock; log_lock; icache_lock; ftable_lock; kmem_lock; ide_lock; cons_lock; input_lock].

Lemma icache_lock_fs : icache_lock ∈ fs_locks.
Proof. unfold fs_locks. set_solver. Qed.

(** No lock of the process table, of the file system or of the console is held. *)
Record fsok (k : KX) : Prop := {
  fo_outside : outside k;
  fo_nest : nest_ok 5 k;
  fo_locks : Forall (λ lk, lock_idle lk k) fs_locks
}.

(** A process but for what waking it changes. *)
Definition unqueued (p : proc) : proc := set_p_state UNUSED (unlinked p).

(** [k'] is [k] after some processes were woken and some components worked. *)
Record woke (k k' : KX) : Prop := {
  wk_sync : same_sync k k';
  wk_len : length (k_ptable k') = length (k_ptable k);
  wk_proc : ∀ i, unqueued (proc_at k' i) = unqueued (proc_at k i);
  wk_tf : k_tfmem k' = k_tfmem k
}.

(** The same after a complete run. *)
Record calmly (k k' : KX) : Prop := {
  ca_ok : fsok k';
  ca_cur : curproc k' = curproc k;
  ca_len : length (k_ptable k') = length (k_ptable k);
  ca_proc : ∀ i, unqueued (proc_at k' i) = unqueued (proc_at k i);
  ca_tf : k_tfmem k' = k_tfmem k
}.

Section woke.
Implicit Types (k : KX).

Lemma woke_refl k : woke k k.
Proof. by split. Qed.

Lemma woke_trans k1 k2 k3 : woke k1 k2 → woke k2 k3 → woke k1 k3.
Proof.
  intros [H1 H2 H3 H4] [G1 G2 G3 G4]. split; [by eapply same_sync_trans|congruence| |congruence].
  intros i. by rewrite G3, H3.
Qed.

Lemma woke_ext k x : woke k (set_k_ext x k).
Proof. by split. Qed.

Lemma woken_ext flag chan k : k_ext (woken flag chan k) = k_ext k.
Proof. pose proof (woken_rest flag chan k) as Hr. unfold rest in Hr. by simplify_eq. Qed.

Lemma woke_woken flag chan k : woke k (woken flag chan k).
Proof.
  pose proof (woken_rest flag chan k) as Hr. unfold rest in Hr.
  split; [apply woken_sync|apply woken_len| |by simplify_eq].
  intros i. unfold unqueued. rewrite woken_proc. unfold ready_if. by destruct (sleeps_on k chan i).
Qed.

Lemma fsok_sync k k' : same_sync k k' → fsok k → fsok k'.
Proof.
  intros Hs [Ho Hn Hl]. split; [by eapply outside_sync|by eapply nest_ok_sync|].
  eapply Forall_impl; [exact Hl|]. intros lk. by apply lock_idle_sync.
Qed.

Lemma fsok_settle k : fsok k → fsok (settle k).
Proof.
  intros [Ho Hn Hl]. split; [by apply outside_settle|by apply nest_ok_settle|done].
Qed.

Lemma calmly_refl k : fsok k → calmly k k.
Proof. by split. Qed.

Lemma calmly_trans k1 k2 k3 : calmly k1 k2 → calmly k2 k3 → calmly k1 k3.
Proof.
  intros [H1 H2 H3 H4 H5] [G1 G2 G3 G4 G5]. split; [done|congruence|congruence| |congruence].
  intros i. by rewrite G4, H4.
Qed.

Lemma woke_calmly k k' : fsok k → woke k k' → calmly k k'.
Proof.
  intros Hk [Hs Hl Hp Ht]. split; [by eapply fsok_sync| |done..].
  destruct Hs as (H1 & H2 & _). unfold curproc, this_cpu. by rewrite H1, H2.
Qed.

Lemma calmly_settle k : fsok k → calmly k (settle k).
Proof. intros Hk. split; [by apply fsok_settle|apply curproc_settle|done..]. Qed.

Lemma woke_settle k k' : fsok k → woke k k' → calmly k (settle k').
Proof.
  intros Hk Hw. pose proof (woke_calmly _ _ Hk Hw) as Hc.
  eapply calmly_trans; [exact Hc|]. apply calmly_settle, Hc.
Qed.

(** Critical sections of the file system's locks. *)
Lemma acquire_fs lk k : fsok k → lk ∈ fs_locks → acquire lk k = Ret tt (acquired lk k).
Proof.
  intros [Ho _ Hl] Hlk. rewrite Forall_forall in Hl. apply acquire_outside; [done|]. by apply Hl.
Qed.

Lemma release_fs lk k k' :
  fsok k → lk ∈ fs_locks → woke k k' → release lk (acquired lk k') = Ret tt (settle k').
Proof.
  intros Hk Hlk Hw. destruct (fsok_sync _ _ (wk_sync _ _ Hw) Hk) as [_ Hn Hl].
  rewrite Forall_forall in Hl. apply release_acquired; [by apply (nest_ok_le 5)|by apply Hl].
Qed.

Lemma wakeup_fs flag chan lk k :
  fsok k → lk ∈ fs_locks →
  wakeup flag chan (acquired lk k) = Ret tt (acquired lk (woken flag chan k)).
Proof.
  intros [[Hn Hc Hp Hr Ht] Hn5 _] Hlk.
  assert (lk ≠ PtableLock ∧ lk ≠ RRLock ∧ lk ≠ TicksLock) as (H1 & H2 & H3).
  { unfold fs_locks in Hlk. set_unfold in Hlk. naive_solver. }
  rewrite wakeup_calm.
  - f_equal. rewrite woken_acquired. apply settle_nested, ncli_acquired.
    eapply same_sync_wf; [apply woken_sync|apply Hn].
  - split; [|by apply lock_idle_acquired..]. apply nest_ok_acquired; [lia|]. by apply (nest_ok_le 5).
Qed.
End woke.

(** ** Runs over the component state *)

(** Run from any quiet kernel state with components [x], [m] returns calmly with
    [Q] of its value and the components, or stops with [C] of them. *)
Definition does {A : Type} (m : M KX A) (x : ext) (Q : A → ext → Prop) (C : ext → Prop) : Prop :=
  ∀ k, fsok k → k_ext k = x →
  match m k with
  | Ret a k' => calmly k k' ∧ Q a (k_ext k')
  | Blocked k' => C (k_ext k')
  | Panic _ | Fault _ => False
  end.

Section does.
Context {A B : Type}.
Implicit Types (m : M KX A) (x : ext) (C : ext → Prop).

Lemma does_ret (a : A) x (Q : A → ext → Prop) C : Q a x → does (mret a) x Q C.
Proof. intros HQ k Hk <-. split; [by apply calmly_refl|done]. Qed.

Lemma does_mono m x (Q R : A → ext → Prop) C D :
  does m x Q C → (∀ a y, Q a y → R a y) → (∀ y, C y → D y) → does m x R D.
Proof.
  intros Hm HQ HC k Hk Hx. specialize (Hm k Hk Hx). destruct (m k); naive_solver.
Qed.

Lemma does_bind m (f : A → M KX B) x (R : A → ext → Prop) (Q : B → ext → Prop) C :
  does m x R C → (∀ a y, R a y → does (f a) y Q C) → does (m ≫= f) x Q C.
Proof.
  intros Hm Hf k Hk Hx. specialize (Hm k Hk Hx). unfold mbind, M_bind.
  destruct (m k) as [a k'| | |k']; try done. destruct Hm as [Hc HR].
  specialize (Hf a _ HR k' (ca_ok _ _ Hc) eq_refl).
  destruct (f a k') as [b k''| | |]; try done. destruct Hf as [Hc' HQ].
  split; [by eapply calmly_trans|done].
Qed.

Lemma does_get (f : ext → A) x (Q : A → ext → Prop) C : Q (f x) x → does (ext_get f) x Q C.
Proof. intros HQ k Hk <-. split; [by apply calmly_refl|done]. Qed.

Lemma does_upd (f : ext → ext) x (Q : unit → ext → Prop) C : Q tt (f x) → does (upd_ext f) x Q C.
Proof. intros HQ k Hk <-. split; [|done]. by apply woke_calmly, woke_ext. Qed.

Lemma does_get_bind (f : ext → A) (g : A → M KX B) x (Q : B → ext → Prop) C :
  does (g (f x)) x Q C → does (ext_get f ≫= g) x Q C.
Proof. intros Hg. eapply (does_bind _ _ _ (λ a y, a = f x ∧ y = x)); [by apply does_get|]. by intros ? ? [-> ->]. Qed.

(** A body that computes in a critical section. *)
Lemma does_section lk m x (a : A) (y : ext) (Q : A → ext → Prop) C :
  lk ∈ fs_locks →
  (∀ k, fsok k → k_ext k = x → ∃ k', m (acquired lk k) = Ret a (acquired lk k') ∧ woke k k' ∧ k_ext k' = y) →
  Q a y → does (locked lk m) x Q C.
Proof.
  intros Hlk Hm HQ k Hk Hx. destruct (Hm k Hk Hx) as (k' & Hk' & Hw & <-).
  unfold locked, mbind, M_bind. rewrite acquire_fs, Hk', (release_fs _ k) by done.
  split; [by apply woke_settle|done].
Qed.
End does.

Lemma does_upd_bind {B} (f : ext → ext) (g : unit → M KX B) x (Q : B → ext → Prop) (C : ext → Prop) :
  does (g tt) (f x) Q C → does (upd_ext f ≫= g) x Q C.
Proof. intros Hg. eapply (does_bind _ _ _ (λ _ y, y = f x)); [by apply does_upd|]. by intros [] ? ->. Qed.

(** Initialising a lock that is free. *)
Lemma does_initlock lk x (Q : unit → ext → Prop) C : lk ∈ fs_locks → Q tt x → does (initlock lk) x Q C.
Proof.
  intros Hlk HQ k Hk <-. unfold initlock, set_lock, modify.
  destruct Hk as [Ho Hn Hl]. pose proof (proj1 (Forall_forall _ _) Hl lk Hlk) as Hi. unfold lock_idle in Hi.
  rewrite insert_id by done. destruct k. split; [|done]. by apply calmly_refl.
Qed.

(** A counted loop, with an invariant that depends on the counter. *)
Lemma does_for_each_seq (f : nat → M KX unit) (I : nat → ext → Prop) a m x C :
  (∀ t y, (a <= t < a + m)%nat → I t y → does (f t) y (λ _ z, I (S t) z) C) →
  I a x → does (for_each f (seq a m)) x (λ _ y, I (a + m)%nat y) C.
Proof.
  revert a x. induction m as [|m IH]; intros a x Hf HI; cbn [seq for_each].
  { apply does_ret. by rewrite Nat.add_0_r. }
  eapply does_bind; [apply Hf; [lia|done]|]. intros [] y HI'. rewrite <-Nat.add_succ_comm.
  apply IH; [|done]. intros t z Ht. apply Hf. lia.
Qed.

(** From the logic to a run that returns. *)
Lemma does_returns {A} (m : M KX A) k (Q : A → ext → Prop) :
  fsok k → does m (k_ext k) Q (λ _, False) → ∃ a k', m k = Ret a k' ∧ calmly k k' ∧ Q a (k_ext k').
Proof.
  intros Hk Hm. specialize (Hm k Hk eq_refl). destruct (m k) as [a k'| | |]; try done. by exists a, k'.
Qed.

(** ** Runs inside a critical section

    Run with the lock [lk] of a quiet kernel state taken, [m] returns with the lock
    still held and with [Q] of its value and the components. *)
Section sections.
Context (lk : lockid).
Implicit Types (x y : ext).

Definition in_section {A : Type} (m : M KX A) (x : ext) (Q : A → ext → Prop) : Prop :=
  ∀ k, fsok k → k_ext k = x →
  ∃ a k', m (acquired lk k) = Ret a (acquired lk k') ∧ woke k k' ∧ Q a (k_ext k').

Lemma section_ret {A} (a : A) x (Q : A → ext → Prop) : Q a x → in_section (mret a) x Q.
Proof. intros HQ k Hk <-. exists a, k. split; [done|]. split; [apply woke_refl|done]. Qed.

Lemma section_bind {A B} (m : M KX A) (f : A → M KX B) x (R : A → ext → Prop) (Q : B → ext → Prop) :
  in_section m x R → (∀ a y, R a y → in_section (f a) y Q) → in_section (m ≫= f) x Q.
Proof.
  intros Hm Hf k Hk Hx. destruct (Hm k Hk Hx) as (a & k1 & H1 & Hw1 & HR).
  destruct (Hf a _ HR k1 (fsok_sync _ _ (wk_sync _ _ Hw1) Hk) eq_refl) as (b & k2 & H2 & Hw2 & HQ).
  exists b, k2. split; [by rewrite (bind_Ret _ _ _ _ _ H1)|]. split; [by eapply woke_trans|done].
Qed.

Lemma section_mono {A} (m : M KX A) x (Q R : A → ext → Prop) :
  in_section m x Q → (∀ a y, Q a y → R a y) → in_section m x R.
Proof. intros Hm HQ k Hk Hx. destruct (Hm k Hk Hx) as (a & k' & H1 & H2 & H3). exists a, k'. auto. Qed.

Lemma section_get {A B} (f : ext → A) (g : A → M KX B) x (Q : B → ext → Prop) :
  in_section (g (f x)) x Q → in_section (ext_get f ≫= g) x Q.
Proof. intros Hg k Hk <-. by apply Hg. Qed.

Lemma section_upd (f : ext → ext) x (Q : unit → ext → Prop) : Q tt (f x) → in_section (upd_ext f) x Q.
Proof. intros HQ k Hk <-. exists tt, (set_k_ext (f (k_ext k)) k). split; [done|]. split; [apply woke_ext|done]. Qed.

Lemma section_wakeup flag chan x (Q : unit → ext → Prop) :
  lk ∈ fs_locks → Q tt x → in_section (wakeup flag chan) x Q.
Proof.
  intros Hlk HQ k Hk <-. exists tt, (woken flag chan k). split; [by apply wakeup_fs|]. split; [apply woke_woken|].
  by rewrite woken_ext.
Qed.

(** Run with the lock taken, [m] leaves the section and then goes on as in [does]. *)
Definition leaves {A : Type} (m : M KX A) (x : ext) (Q : A → ext → Prop) (C : ext → Prop) : Prop :=
  ∀ k, fsok k → k_ext k = x →
  match m (acquired lk k) with
  | Ret a k' => calmly k k' ∧ Q a (k_ext k')
  | Blocked k' => C (k_ext k')
  | Panic _ | Fault _ => False
  end.

Context (Hlk : lk ∈ fs_locks).

Lemma does_acquire {A} (m : M KX A) x (Q : A → ext → Prop) C : leaves m x Q C → does (acquire lk ;; m) x Q C.
Proof. intros Hm k Hk Hx. rewrite (bind_Ret _ _ _ _ _ (acquire_fs lk k Hk Hlk)). by apply Hm. Qed.

Lemma leaves_bind {A B} (m : M KX A) (f : A → M KX B) x (R : A → ext → Prop) (Q : B → ext → Prop) C :
  in_section m x R → (∀ a y, R a y → leaves (f a) y Q C) → leaves (m ≫= f) x Q C.
Proof.
  intros Hm Hf k Hk Hx. destruct (Hm k Hk Hx) as (a & k' & H1 & Hw & HR). rewrite (bind_Ret _ _ _ _ _ H1).
  pose proof (woke_calmly _ _ Hk Hw) as Hc. specialize (Hf a _ HR k' (ca_ok _ _ Hc) eq_refl).
  destruct (f a (acquired lk k')); try done. destruct Hf as [Hc' HQ]. split; [by eapply calmly_trans|done].
Qed.

Lemma leaves_get {A B} (f : ext → A) (g : A → M KX B) x (Q : B → ext → Prop) C :
  leaves (g (f x)) x Q C → leaves (ext_get f ≫= g) x Q C.
Proof. intros Hg k Hk <-. by apply Hg. Qed.

Lemma leaves_upd {A} (f : ext → ext) (m : M KX A) x (Q : A → ext → Prop) C :
  leaves m (f x) Q C → leaves (upd_ext f ;; m) x Q C.
Proof. intros Hm. eapply (leaves_bind _ _ _ (λ _ y, y = f x)); [by apply section_upd|]. by intros [] ? ->. Qed.

Lemma leaves_release {A} (m : M KX A) x (Q : A → ext → Prop) C : does m x Q C → leaves (release lk ;; m) x Q C.
Proof.
  intros Hm k Hk Hx. rewrite (bind_Ret _ _ _ _ _ (release_fs lk k k Hk Hlk (woke_refl k))).
  pose proof (calmly_settle _ Hk) as Hc. specialize (Hm (settle k) (ca_ok _ _ Hc) Hx).
  destruct (m (settle k)); try done. destruct Hm as [Hc' HQ]. split; [by eapply calmly_trans|done].
Qed.

Lemma leaves_end x (Q : unit → ext → Prop) C : Q tt x → leaves (release lk) x Q C.
Proof.
  intros HQ k Hk <-. rewrite (release_fs lk k k Hk Hlk (woke_refl k)). split; [by apply calmly_settle|done].
Qed.
End sections.

(** ** The state the file system starts in

    The boot image with the locks of the file system initialised. *)
Definition fs_boot (x : ext) : KX :=
  let k := boot_core 1 x in
  set_k_locks (foldr (λ lk m, <[lk := Lock 0 None]> m) (k_locks k) fs_locks) k.

Lemma fsok_boot x : fsok (fs_boot x).
Proof.
  assert (cpu_wf (fs_boot x)) as Hwf by (vm_compute; split_and!; done || lia).
  split; [split| |]; try (by split; [done|vm_compute; lia]); try by vm_compute.
  unfold fs_locks. repeat constructor; by vm_compute.
Qed.
