(* ===== verification/Ide.v ===== *)
(** * The disk drivers (memide.c, ide.c)

    The repository has two drivers with one interface.  [Memide] is the disk
    held in memory; [Ide] is the driver of the real disk, with the device behind
    its ports as a parameter.  A buffer is named by its index in the cache. *)

From stdpp Require Import base list gmap strings.
From Stdlib Require Import ZArith Lia.
From S2P Require Import Prelude KState Spinlock CString Proc ProcForms KExt Pic KRun.

(** ** Buffers and blocks *)

Definition zero_block : list Z := replicate 512 0.

Definition disk_at (x : ext) (dev sector : Z) : list Z := default zero_block (x_disk x !! (dev, sector)).
Definition buf_at (x : ext) (b : nat) : buf := x_bufs x !!! b.
Definition with_buf (b : nat) (f : buf → buf) (x : ext) : ext := set_x_bufs (alter f b (x_bufs x)) x.
Definition upd_buf (b : nat) (f : buf → buf) : M KX unit := upd_ext (with_buf b f).
Definition bfield {A : Type} (b : nat) (f : buf → A) : M KX A := ext_get (λ x, f (buf_at x b)).

(** [flags & mask] as a condition. *)
Definition has_flag (flags mask : Z) : bool := negb (bool_decide (Z.land flags mask = 0)).

(** ** The disk in memory *)

Module Memide.
(** [fs_img] is the image linked into the kernel, [size] its size in bytes. *)
Definition ideinit (fs_img : gmap (Z * Z) (list Z)) (size : Z) : M KX unit :=
  upd_ext (λ x, set_x_disk fs_img x) ;;
  upd_ext (λ x, set_x_ide (set_ide_disksize (u32 size / 512) (x_ide x)) x).

Definition ideintr : M KX unit := mret tt.

Definition iderw (b : nat) : M KX unit :=
  flags ← bfield b b_flags;
  if negb (has_flag flags B_BUSY) then panic "iderw: buf not busy" else
  if decide (Z.land flags (Z.lor B_VALID B_DIRTY) = B_VALID) then panic "iderw: nothing to do" else
  dev ← bfield b b_dev;
  if decide (dev ≠ 1) then panic "iderw: request not for disk 1" else
  sector ← bfield b b_sector;
  disksize ← ext_get (λ x, ide_disksize (x_ide x));
  if decide (sector >= u32 disksize) then panic "iderw: sector out of range" else
  (if has_flag flags B_DIRTY then
     upd_buf b (λ q, set_b_flags (Z.ldiff (b_flags q) B_DIRTY) q) ;;
     data ← bfield b b_data;
     upd_ext (λ x, set_x_disk (<[(1, sector) := data]> (x_disk x)) x)
   else
     data ← ext_get (λ x, disk_at x 1 sector);
     upd_buf b (set_b_data data)) ;;
  upd_buf b (λ q, set_b_flags (Z.lor (b_flags q) B_VALID) q).
End Memide.

(** ** The disk behind its ports *)

Definition IDE_BSY : Z := 0x80.
Definition IDE_DRDY : Z := 0x40.
Definition IDE_DF : Z := 0x20.
Definition IDE_ERR : Z := 0x01.
Definition IDE_CMD_READ : Z := 0x20.
Definition IDE_CMD_WRITE : Z := 0x30.

Module Ide.
Section ide.
Context {PT : Ports} (flag : schedflag) (swtch : M KX unit).

(** The device is polled until it is ready; [fuel] bounds the polls. *)
Fixpoint idewait (fuel : nat) (checkerr : bool) : M KX Z :=
  r ← inb 0x1f7;
  if decide (Z.land r (Z.lor IDE_BSY IDE_DRDY) ≠ IDE_DRDY) then
    match fuel with O => block | S fuel' => idewait fuel' checkerr end
  else mret (if checkerr && has_flag r (Z.lor IDE_DF IDE_ERR) then -1 else 0).

Fixpoint probe (n : nat) : M KX unit :=
  match n with
  | O => mret tt
  | S n' =>
      r ← inb 0x1f7;
      if decide (r ≠ 0) then upd_ext (λ x, set_x_ide (set_ide_havedisk1 1 (x_ide x)) x) else probe n'
  end.

Definition ideinit (fuel : nat) : M KX unit :=
  initlock ide_lock ;;
  picenable IRQ_IDE ;;
  ncpu ← intr_get ic_ncpu;
  ioapicenable IRQ_IDE (ncpu - 1) ;;
  idewait fuel false ;;
  outb 0x1f6 (Z.lor 0xe0 (Z.shiftl 1 4)) ;;
  probe 1000 ;;
  outb 0x1f6 (Z.lor 0xe0 (Z.shiftl 0 4)).

Definition idestart (fuel : nat) (b : option nat) : M KX unit :=
  match b with
  | None => panic "idestart"
  | Some b =>
      idewait fuel false ;;
      q ← ext_get (λ x, buf_at x b);
      outb 0x3f6 0 ;;
      outb 0x1f2 1 ;;
      outb 0x1f3 (Z.land (b_sector q) 0xff) ;;
      outb 0x1f4 (Z.land (Z.shiftr (b_sector q) 8) 0xff) ;;
      outb 0x1f5 (Z.land (Z.shiftr (b_sector q) 16) 0xff) ;;
      outb 0x1f6 (Z.lor (Z.lor 0xe0 (Z.shiftl (Z.land (b_dev q) 1) 4)) (Z.land (Z.shiftr (b_sector q) 24) 0x0f)) ;;
      if has_flag (b_flags q) B_DIRTY then
        outb 0x1f7 IDE_CMD_WRITE ;;
        outsl 0x1f0 (b_data q)
      else outb 0x1f7 IDE_CMD_READ
  end.

(** [if(!(b->flags & B_DIRTY) && idewait(1) >= 0) insl(0x1f0, b->data, 512/4);] *)
Definition ide_fetch (fuel : nat) (b : nat) : M KX unit :=
  flags ← bfield b b_flags;
  if has_flag flags B_DIRTY then mret tt else
  r ← idewait fuel true;
  if decide (r >= 0) then data ← insl 0x1f0; upd_buf b (set_b_data data) else mret tt.

Definition ideintr (fuel : nat) : M KX unit :=
  acquire ide_lock ;;
  head ← ext_get (λ x, ide_queue (x_ide x));
  match head with
  | None => release ide_lock
  | Some b =>
      next ← bfield b b_qnext;
      upd_ext (λ x, set_x_ide (set_ide_queue next (x_ide x)) x) ;;
      ide_fetch fuel b ;;
      upd_buf b (λ q, set_b_flags (Z.lor (b_flags q) B_VALID) q) ;;
      upd_buf b (λ q, set_b_flags (Z.ldiff (b_flags q) B_DIRTY) q) ;;
      wakeup flag (ChBuf b) ;;
      head ← ext_get (λ x, ide_queue (x_ide x));
      (if decide (head ≠ None) then idestart fuel head else mret tt) ;;
      release ide_lock
  end.

(** [for(pp=&idequeue; *pp; pp=&( *pp)->qnext);  *pp = b;]  The walk from [p],
    whose predecessor is [prev] ([None]: the variable [idequeue] itself). *)
Fixpoint ide_append (fuel : nat) (prev p : option nat) (b : nat) : M KX unit :=
  match p with
  | None =>
      match prev with
      | None => upd_ext (λ x, set_x_ide (set_ide_queue (Some b) (x_ide x)) x)
      | Some q => upd_buf q (set_b_qnext (Some b))
      end
  | Some i =>
      match fuel with
      | O => block
      | S fuel' => next ← bfield i b_qnext; ide_append fuel' p next b
      end
  end.

(** Wait for the request to finish; [fuel] bounds the number of sleeps. *)
Fixpoint ide_sync (fuel : nat) (b : nat) : M KX unit :=
  flags ← bfield b b_flags;
  if decide (Z.land flags (Z.lor B_VALID B_DIRTY) ≠ B_VALID) then
    sleep swtch (ChBuf b) (Some ide_lock) ;;
    match fuel with O => block | S fuel' => ide_sync fuel' b end
  else mret tt.

Definition iderw (fuel : nat) (b : nat) : M KX unit :=
  flags ← bfield b b_flags;
  if negb (has_flag flags B_BUSY) then panic "iderw: buf not busy" else
  if decide (Z.land flags (Z.lor B_VALID B_DIRTY) = B_VALID) then panic "iderw: nothing to do" else
  dev ← bfield b b_dev;
  havedisk1 ← ext_get (λ x, ide_havedisk1 (x_ide x));
  if decide (dev ≠ 0 ∧ havedisk1 = 0) then panic "iderw: ide disk 1 not present" else
  acquire ide_lock ;;
  upd_buf b (set_b_qnext None) ;;
  head ← ext_get (λ x, ide_queue (x_ide x));
  ide_append (S NBUF) None head b ;;
  head ← ext_get (λ x, ide_queue (x_ide x));
  when (bool_decide (head = Some b)) (idestart fuel (Some b)) ;;
  ide_sync fuel b ;;
  release ide_lock.
End ide.
End Ide.

(** ** Flags *)

Lemma has_flag_bit f i : 0 <= i → has_flag f (2 ^ i) = Z.testbit f i.
Proof.
  intros Hi. unfold has_flag. destruct (Z.testbit f i) eqn:Ht.
  - rewrite bool_decide_eq_false_2; [done|]. intros H0.
    assert (Z.testbit (Z.land f (2 ^ i)) i = true) as Hb
      by (by rewrite Z.land_spec, Ht, Z.pow2_bits_true).
    by rewrite H0, Z.bits_0 in Hb.
  - rewrite bool_decide_eq_true_2; [done|]. apply Z.bits_inj'. intros n Hn.
    rewrite Z.land_spec, Z.bits_0. destruct (decide (n = i)) as [->|Hne]; [by rewrite Ht|].
    by rewrite Z.pow2_bits_false, andb_false_r by done.
Qed.

Definition busy (q : buf) : bool := has_flag (b_flags q) B_BUSY.
Definition valid (q : buf) : bool := has_flag (b_flags q) B_VALID.
Definition dirty (q : buf) : bool := has_flag (b_flags q) B_DIRTY.

Lemma has_busy f : has_flag f B_BUSY = Z.testbit f 0.
Proof. by apply (has_flag_bit f 0). Qed.
Lemma has_valid f : has_flag f B_VALID = Z.testbit f 1.
Proof. by apply (has_flag_bit f 1). Qed.
Lemma has_dirty f : has_flag f B_DIRTY = Z.testbit f 2.
Proof. by apply (has_flag_bit f 2). Qed.

(** [(flags & (B_VALID|B_DIRTY)) == B_VALID]: there is nothing to do. *)
Lemma nothing_to_do q : Z.land (b_flags q) (Z.lor B_VALID B_DIRTY) = B_VALID ↔ valid q = true ∧ dirty q = false.
Proof.
  unfold valid, dirty. rewrite has_valid, has_dirty. split.
  - intros Hf. apply (f_equal (λ z, (Z.testbit z 1, Z.testbit z 2))) in Hf.
    rewrite !Z.land_spec, !Z.lor_spec in Hf. simpl in Hf. rewrite !andb_true_r in Hf. by simplify_eq.
  - intros [Hv Hd]. apply Z.bits_inj'. intros n Hn. rewrite Z.land_spec.
    destruct (decide (n = 1)) as [->|H1]; [by rewrite Hv|].
    destruct (decide (n = 2)) as [->|H2]; [by rewrite Hd|].
    change B_VALID with (2 ^ 1). rewrite Z.lor_spec, Z.pow2_bits_false by done.
    change B_DIRTY with (2 ^ 2). by rewrite Z.pow2_bits_false, andb_false_r by done.
Qed.

(** Compute the flags of an updated buffer. *)
Ltac flag_bits :=
  unfold busy, valid, dirty in *;
  cbn [b_flags b_dev b_sector b_data set_b_flags set_b_data set_b_dev set_b_sector] in *;
  rewrite ?has_busy, ?has_valid, ?has_dirty in *;
  repeat (rewrite Z.lor_spec in * || rewrite Z.ldiff_spec in *);
  change (Z.testbit B_BUSY 0) with true in *; change (Z.testbit B_BUSY 1) with false in *;
  change (Z.testbit B_BUSY 2) with false in *; change (Z.testbit B_VALID 0) with false in *;
  change (Z.testbit B_VALID 1) with true in *; change (Z.testbit B_VALID 2) with false in *;
  change (Z.testbit B_DIRTY 0) with false in *; change (Z.testbit B_DIRTY 1) with false in *;
  change (Z.testbit B_DIRTY 2) with true in *; cbn [negb] in *;
  rewrite ?orb_true_r, ?orb_false_r, ?andb_true_r, ?andb_false_r in *.

(** ** What the cache relies on

    [on_disk]: the sector exists.  [fetched] and [stored] are the two effects of
    [iderw], for a buffer to be read and for one to be written.  A driver may
    stop the machine ([stop]) before the transfer: this is how a power failure
    is expressed.  A transfer is atomic. *)

Definition on_disk (x : ext) (dev sector : Z) : Prop :=
  dev = ROOTDEV ∧ 0 <= sector < ide_disksize (x_ide x) ∧ ide_disksize (x_ide x) < 2 ^ 31.

Definition fetched (b : nat) (x : ext) : ext :=
  with_buf b (λ q, set_b_flags (Z.lor (b_flags q) B_VALID) (set_b_data (disk_at x (b_dev q) (b_sector q)) q)) x.
Definition stored (b : nat) (x : ext) : ext :=
  let q := buf_at x b in
  with_buf b (λ q, set_b_flags (Z.lor (Z.ldiff (b_flags q) B_DIRTY) B_VALID) q)
    (set_x_disk (<[(b_dev q, b_sector q) := b_data q]> (x_disk x)) x).

Class DiskOk (iderw : nat → M KX unit) (stop : Prop) : Prop := {
  disk_read b x :
    (b < length (x_bufs x))%nat → busy (buf_at x b) = true → valid (buf_at x b) = false →
    dirty (buf_at x b) = false → on_disk x (b_dev (buf_at x b)) (b_sector (buf_at x b)) →
    does (iderw b) x (λ _ y, y = fetched b x) (λ y, stop ∧ y = x);
  disk_write b x :
    (b < length (x_bufs x))%nat → busy (buf_at x b) = true → dirty (buf_at x b) = true →
    on_disk x (b_dev (buf_at x b)) (b_sector (buf_at x b)) →
    does (iderw b) x (λ _ y, y = stored b x) (λ y, stop ∧ y = x)
}.

Lemma buf_at_with b f x i :
  (b < length (x_bufs x))%nat → buf_at (with_buf b f x) i = if decide (i = b) then f (buf_at x b) else buf_at x i.
Proof.
  intros Hb. unfold buf_at, with_buf. simpl. rewrite list_lookup_total_alter.
  repeat case_decide; naive_solver.
Qed.

Lemma with_buf_with_buf b f g x : with_buf b f (with_buf b g x) = with_buf b (λ q, f (g q)) x.
Proof.
  unfold with_buf, set_x_bufs; simpl. f_equal. apply list_eq. intros j.
  rewrite !list_lookup_alter. repeat case_decide; try done. by destruct (x_bufs x !! _).
Qed.

Lemma with_buf_ext b f g x : f (buf_at x b) = g (buf_at x b) → (b < length (x_bufs x))%nat → with_buf b f x = with_buf b g x.
Proof.
  intros Hfg Hb. unfold with_buf. f_equal. apply list_alter_ext; [|done].
  intros q Hq. unfold buf_at in Hfg. by rewrite (list_lookup_total_correct _ _ _ Hq) in Hfg.
Qed.

(** The machine is switched off at the first transfer from a state that [cut]
    accepts; any moment of a run can be singled out this way. *)
Definition power_cut (cut : KX → bool) (iderw : nat → M KX unit) (b : nat) : M KX unit :=
  k ← get;
  if cut k then block else iderw b.

Section memide_ok.
Implicit Types (x : ext).

Lemma memide_guards b x (Q : unit → ext → Prop) C :
  busy (buf_at x b) = true → ¬ (valid (buf_at x b) = true ∧ dirty (buf_at x b) = false) →
  on_disk x (b_dev (buf_at x b)) (b_sector (buf_at x b)) →
  does ((if dirty (buf_at x b) then
           upd_buf b (λ q, set_b_flags (Z.ldiff (b_flags q) B_DIRTY) q) ;;
           data ← bfield b b_data;
           upd_ext (λ x', set_x_disk (<[(1, b_sector (buf_at x b)) := data]> (x_disk x')) x')
         else
           data ← ext_get (λ x', disk_at x' 1 (b_sector (buf_at x b)));
           upd_buf b (set_b_data data)) ;;
        upd_buf b (λ q, set_b_flags (Z.lor (b_flags q) B_VALID) q)) x Q C →
  does (Memide.iderw b) x Q C.
Proof.
  intros Hb Hv (Hd & Hs & Hsz) Hm. unfold Memide.iderw. apply does_get_bind.
  fold (busy (buf_at x b)). rewrite Hb. simpl. rewrite decide_False by (by rewrite nothing_to_do).
  apply does_get_bind. rewrite decide_False by (rewrite Hd; by intros []).
  apply does_get_bind, does_get_bind. rewrite decide_False; [done|].
  rewrite u32_id; lia.
Qed.

#[export] Instance memide_disk_ok : DiskOk Memide.iderw False.
Proof.
  split; intros b x Hl Hb.
  - intros Hv Hd Ho. apply memide_guards; [done| |done|]; [by rewrite Hv; intros []|].
    rewrite Hd. destruct Ho as [Hdev _].
    eapply (does_bind _ _ _ (λ _ y, y = with_buf b (set_b_data (disk_at x 1 (b_sector (buf_at x b)))) x)).
    { apply does_get_bind. by apply does_upd. }
    intros [] y ->. apply does_upd. rewrite with_buf_with_buf. apply with_buf_ext; [|done].
    simpl. by rewrite Hdev.
  - intros Hd Ho. apply memide_guards; [done| |done|]; [by rewrite Hd; intros []|].
    rewrite Hd. destruct Ho as [Hdev _].
    eapply (does_bind _ _ _ (λ _ y, y = set_x_disk (<[(1, b_sector (buf_at x b)) := b_data (buf_at x b)]> (x_disk x))
      (with_buf b (λ q, set_b_flags (Z.ldiff (b_flags q) B_DIRTY) q) x))).
    { apply does_upd_bind, does_get_bind. rewrite buf_at_with, decide_True by done. by apply does_upd. }
    intros [] y ->. apply does_upd. unfold stored. rewrite Hdev.
    exact (with_buf_with_buf b (λ q, set_b_flags (Z.lor (b_flags q) B_VALID) q)
      (λ q, set_b_flags (Z.ldiff (b_flags q) B_DIRTY) q)
      (set_x_disk (<[(1, b_sector (buf_at x b)) := b_data (buf_at x b)]> (x_disk x)) x)).
Qed.

#[export] Instance power_cut_disk_ok cut iderw stop : DiskOk iderw stop → DiskOk (power_cut cut iderw) True.
Proof.
  intros Hi. split; intros b x Hl Hb; intros; intros k Hk Hx; unfold power_cut, mbind, M_bind, get.
  - destruct (cut k); [by split|]. pose proof (disk_read b x Hl Hb ltac:(done) ltac:(done) ltac:(done) k Hk Hx) as Hd.
    destruct (iderw b k); naive_solver.
  - destruct (cut k); [by split|]. pose proof (disk_write b x Hl Hb ltac:(done) ltac:(done) k Hk Hx) as Hd.
    destruct (iderw b k); naive_solver.
Qed.
End memide_ok.
