(* ===== verification/Bio.v ===== *)
(** * The buffer cache (bio.c)

    Thirty buffers on a circular list in the order of their last use.  The
    operations are translated over the list's links; the driver under them is an
    argument, [iderw], known by the interface [DiskOk].  The cache is shown to
    implement an abstract block store: the disk, the blocks pinned in memory
    because they are dirty, and the blocks some process holds. *)

From stdpp Require Import base list gmap functions strings.
From Stdlib Require Import ZArith Lia.
From S2P Require Import Prelude KState Spinlock CString Proc ProcForms KExt KRun Ide.

Definition NODEV : Z := u32 (-1).

(** ** The operations *)

Section bio.
Context (flag : schedflag) (swtch : M KX unit) (iderw : nat → M KX unit).

(** The list head is the buffer after the last. *)
Definition bhead : nat := NBUF.

Definition binit_buf (b : nat) : M KX unit :=
  next ← bfield bhead b_next;
  upd_buf b (set_b_next next) ;;
  upd_buf b (set_b_prev bhead) ;;
  upd_buf b (set_b_dev NODEV) ;;
  next ← bfield bhead b_next;
  upd_buf next (set_b_prev b) ;;
  upd_buf bhead (set_b_next b).

Definition binit : M KX unit :=
  initlock bcache_lock ;;
  upd_buf bhead (set_b_prev bhead) ;;
  upd_buf bhead (set_b_next bhead) ;;
  for_each binit_buf (seq 0 NBUF).

(** The two scans of [bget], forwards for the sector and backwards for a buffer
    to recycle.  A list of [NBUF] buffers is walked in [NBUF] steps. *)
Fixpoint bget_cached (fuel b : nat) (dev sector : Z) : M KX (option nat) :=
  if decide (b = bhead) then mret None else
  match fuel with
  | O => block
  | S fuel' =>
      q ← ext_get (λ x, buf_at x b);
      if decide (b_dev q = dev ∧ b_sector q = sector) then mret (Some b)
      else bget_cached fuel' (b_next q) dev sector
  end.

Fixpoint bget_recycle (fuel b : nat) : M KX (option nat) :=
  if decide (b = bhead) then mret None else
  match fuel with
  | O => block
  | S fuel' =>
      q ← ext_get (λ x, buf_at x b);
      if negb (has_flag (b_flags q) B_BUSY) && negb (has_flag (b_flags q) B_DIRTY) then mret (Some b)
      else bget_recycle fuel' (b_prev q)
  end.

(** From the label [loop] on; [fuel] bounds the number of sleeps. *)
Fixpoint bget_loop (fuel : nat) (dev sector : Z) : M KX nat :=
  first ← bfield bhead b_next;
  found ← bget_cached NBUF first dev sector;
  match found with
  | Some b =>
      flags ← bfield b b_flags;
      if has_flag flags B_BUSY then
        sleep swtch (ChBuf b) (Some bcache_lock) ;;
        match fuel with O => block | S fuel' => bget_loop fuel' dev sector end
      else
        upd_buf b (λ q, set_b_flags (Z.lor (b_flags q) B_BUSY) q) ;;
        release bcache_lock ;;
        mret b
  | None =>
      last ← bfield bhead b_prev;
      free ← bget_recycle NBUF last;
      match free with
      | Some b =>
          upd_buf b (set_b_dev dev) ;;
          upd_buf b (set_b_sector sector) ;;
          upd_buf b (set_b_flags B_BUSY) ;;
          release bcache_lock ;;
          mret b
      | None => panic "bget: no buffers"
      end
  end.

Definition bget (fuel : nat) (dev sector : Z) : M KX nat :=
  acquire bcache_lock ;;
  bget_loop fuel dev sector.

Definition bread (fuel : nat) (dev sector : Z) : M KX nat :=
  b ← bget fuel dev sector;
  flags ← bfield b b_flags;
  when (negb (has_flag flags B_VALID)) (iderw b) ;;
  mret b.

Definition bwrite (b : nat) : M KX unit :=
  flags ← bfield b b_flags;
  if negb (has_flag flags B_BUSY) then panic "bwrite" else
  upd_buf b (λ q, set_b_flags (Z.lor (b_flags q) B_DIRTY) q) ;;
  iderw b.

(** Move [b] to the head of the list. *)
Definition brelse_move (b : nat) : M KX unit :=
  next ← bfield b b_next; prev ← bfield b b_prev;
  upd_buf next (set_b_prev prev) ;;
  next ← bfield b b_next; prev ← bfield b b_prev;
  upd_buf prev (set_b_next next) ;;
  first ← bfield bhead b_next;
  upd_buf b (set_b_next first) ;;
  upd_buf b (set_b_prev bhead) ;;
  first ← bfield bhead b_next;
  upd_buf first (set_b_prev b) ;;
  upd_buf bhead (set_b_next b).

Definition brelse (b : nat) : M KX unit :=
  flags ← bfield b b_flags;
  if negb (has_flag flags B_BUSY) then panic "brelse" else
  locked bcache_lock (
    brelse_move b ;;
    upd_buf b (λ q, set_b_flags (Z.ldiff (b_flags q) B_BUSY) q) ;;
    wakeup flag (ChBuf b)).
End bio.

(** ** The circular list

    [ring nx pv a l b]: following [nx] from [a] visits the elements of [l] and
    then [b], and [pv] leads back the same way. *)

Fixpoint ring (nx pv : nat → nat) (a : nat) (l : list nat) (b : nat) : Prop :=
  match l with
  | [] => nx a = b ∧ pv b = a
  | c :: l' => nx a = c ∧ pv c = a ∧ ring nx pv c l' b
  end.

Fixpoint last_of (a : nat) (l : list nat) : nat :=
  match l with [] => a | c :: l' => last_of c l' end.

Section ring.
Implicit Types (nx pv : nat → nat) (a b c h : nat) (l : list nat).

Lemma last_of_in a l : last_of a l = a ∨ last_of a l ∈ l.
Proof.
  revert a. induction l as [|c l IH]; intros a; [by left|]. right. simpl.
  destruct (IH c) as [->|Hl]; [left|by right].
Qed.

Lemma ring_app nx pv a l1 c l2 b :
  ring nx pv a (l1 ++ c :: l2) b ↔ ring nx pv a l1 c ∧ ring nx pv c l2 b.
Proof. revert a. induction l1 as [|d l1 IH]; intros a; simpl; [tauto|]. rewrite IH. tauto. Qed.

Lemma ring_ends nx pv a l b : ring nx pv a l b → nx a = hd b l ∧ pv b = last_of a l.
Proof.
  revert a. induction l as [|c l IH]; intros a; simpl; [done|]. intros (H1 & H2 & H3).
  split; [done|]. by apply IH.
Qed.

Lemma ring_ext nx pv nx' pv' a l b :
  (∀ i, i = a ∨ i ∈ l → nx' i = nx i) → (∀ i, i = b ∨ i ∈ l → pv' i = pv i) →
  ring nx pv a l b → ring nx' pv' a l b.
Proof.
  revert a. induction l as [|c l IH]; intros a Hn Hp; simpl.
  - rewrite Hn, Hp by auto. done.
  - rewrite Hn by auto. rewrite (Hp c) by (right; left). intros (H1 & H2 & H3).
    split; [done|]. split; [done|]. apply IH; [| |done].
    + intros i [->|Hi]; apply Hn; right; [left|by right].
    + intros i [->|Hi]; apply Hp; [by left|right; by right].
Qed.

(** Changing the last link. *)
Lemma ring_snip nx pv a l b c :
  NoDup (a :: l) → b ∉ l → c ∉ l →
  ring nx pv a l b →
  ring (<[last_of a l := c]> nx) (<[c := last_of a l]> pv) a l c.
Proof.
  revert a. induction l as [|d l IH]; intros a Hd Hb Hc; simpl.
  - intros _. by rewrite !fn_lookup_insert.
  - intros (H1 & H2 & H3).
    apply NoDup_cons in Hd as [Ha Hd].     assert (last_of d l ≠ a).
    { intros Hl. apply Ha, elem_of_cons. rewrite <-Hl. apply last_of_in. }
    rewrite fn_lookup_insert_ne by done. rewrite (fn_lookup_insert_ne pv) by set_solver.
    split; [done|]. split; [done|]. apply IH; set_solver.
Qed.

Lemma ring_unlink nx pv h l1 b l2 :
  NoDup (h :: l1 ++ b :: l2) → ring nx pv h (l1 ++ b :: l2) h →
  ring (<[pv b := nx b]> nx) (<[nx b := pv b]> pv) h (l1 ++ l2) h.
Proof.
  intros Hd Hr. apply ring_app in Hr as [H1 H2].
  destruct (ring_ends _ _ _ _ _ H1) as [_ ->]. destruct (ring_ends _ _ _ _ _ H2) as [-> _].
  pose proof (last_of_in h l1) as Hu. set (u := last_of h l1) in *.
  apply NoDup_cons in Hd as [Hh Hd]. apply NoDup_app in Hd as (Hd1 & Hd12 & Hd2).
  apply NoDup_cons in Hd2 as [Hb Hd2].
  destruct l2 as [|c l2]; simpl.
  - rewrite app_nil_r. apply (ring_snip _ _ _ _ b); [constructor|..]; set_solver.
  - apply ring_app. split; [apply (ring_snip _ _ _ _ b); [constructor|..]; set_solver|].
    destruct H2 as (_ & _ & H2). apply NoDup_cons in Hd2 as [Hc Hd2]. revert H2. apply ring_ext.
    + intros i Hi. apply fn_lookup_insert_ne. clearbody u. set_solver.
    + intros i Hi. apply fn_lookup_insert_ne. clearbody u. set_solver.
Qed.

Lemma ring_link nx pv h b l :
  NoDup (h :: l) → b ≠ h → b ∉ l → ring nx pv h l h →
  ring (<[h := b]> (<[b := nx h]> nx)) (<[nx h := b]> (<[b := h]> pv)) h (b :: l) h.
Proof.
  intros Hd Hbh Hb Hr. destruct (ring_ends _ _ _ _ _ Hr) as [Hf _]. rewrite Hf.
  apply NoDup_cons in Hd as [Hh Hd]. simpl. rewrite fn_lookup_insert.
  split; [done|]. destruct l as [|c l]; simpl in *.
  - rewrite fn_lookup_insert_ne, fn_lookup_insert by done. split; [done|].
    by rewrite fn_lookup_insert_ne, !fn_lookup_insert by done.
  - set_unfold. rewrite (fn_lookup_insert_ne _ c b), fn_lookup_insert by naive_solver.
    split; [done|]. rewrite (fn_lookup_insert_ne _ h b), !fn_lookup_insert by done.
    split; [done|]. split; [done|].
    destruct Hr as (_ & _ & Hr). apply NoDup_cons in Hd as [Hc Hd]. revert Hr. apply ring_ext.
    + intros i Hi. rewrite !fn_lookup_insert_ne; [done|set_solver..].
    + intros i Hi. rewrite !fn_lookup_insert_ne; [done|set_solver..].
Qed.
End ring.

(** ** The abstract block store

    [D] is the disk, [P] the blocks that are newer in memory than on the disk
    (dirty, held by nobody), [H] the buffers that are held, each with its block. *)

Abbreviation blocks := (gmap (Z * Z) (list Z)).

Record held_block := Held {
  h_key : Z * Z;
  h_data : list Z;
  h_dirty : bool
}.

Definition key_of (q : buf) : Z * Z := (b_dev q, b_sector q).
Definition held_of (q : buf) : held_block := Held (key_of q) (b_data q) (dirty q).
Definition payload (q : buf) : Z * Z * Z * list Z := (b_flags q, b_dev q, b_sector q, b_data q).

(** What a reader of block [key] gets. *)
Definition contents (D P : blocks) (key : Z * Z) : list Z :=
  match P !! key with Some d => d | None => default zero_block (D !! key) end.

Record bview (f : nat → buf) (D P : blocks) (H : gmap nat held_block) : Prop := {
  bv_uniq i j : (i < NBUF)%nat → (j < NBUF)%nat → key_of (f i) = key_of (f j) → b_dev (f i) ≠ NODEV → i = j;
  bv_held i h : H !! i = Some h ↔ (i < NBUF)%nat ∧ busy (f i) = true ∧ held_of (f i) = h;
  bv_pin key d : P !! key = Some d ↔
    ∃ i, (i < NBUF)%nat ∧ busy (f i) = false ∧ dirty (f i) = true ∧ key_of (f i) = key ∧ b_data (f i) = d;
  bv_valid i : (i < NBUF)%nat → busy (f i) = true ∨ dirty (f i) = true → valid (f i) = true ∧ b_dev (f i) ≠ NODEV;
  bv_clean i : (i < NBUF)%nat → busy (f i) = false → dirty (f i) = false → valid (f i) = true →
    b_data (f i) = default zero_block (D !! key_of (f i))
}.

Section bview.
Implicit Types (f g : nat → buf) (D P : blocks) (H : gmap nat held_block) (q : buf).

Lemma payload_parts q q' :
  payload q = payload q' →
  busy q = busy q' ∧ dirty q = dirty q' ∧ valid q = valid q' ∧ key_of q = key_of q' ∧ b_data q = b_data q'.
Proof. unfold payload, busy, dirty, valid, key_of. intros [= -> -> -> ->]. done. Qed.

Lemma key_dev q q' : key_of q = key_of q' → b_dev q = b_dev q'.
Proof. by intros [= ? ?]. Qed.

Lemma bview_ext f g D P H :
  (∀ i, (i < NBUF)%nat → payload (g i) = payload (f i)) → bview f D P H → bview g D P H.
Proof.
  intros Hp [Hu Hh Hpin Hv Hc].
  assert (∀ i, (i < NBUF)%nat → busy (g i) = busy (f i) ∧ dirty (g i) = dirty (f i) ∧
    valid (g i) = valid (f i) ∧ key_of (g i) = key_of (f i) ∧ b_data (g i) = b_data (f i)) as He
    by (intros i Hi; by apply payload_parts, Hp).
  split.
  - intros i j Hi Hj. destruct (He i Hi) as (_ & _ & _ & Ki & _), (He j Hj) as (_ & _ & _ & Kj & _).
    rewrite Ki, Kj, (key_dev _ _ Ki). by apply Hu.
  - intros i h. rewrite Hh. unfold held_of. split; intros (Hi & H1 & H2); destruct (He i Hi) as (E1 & E2 & _ & E4 & E5);
      [rewrite E1, E2, E4, E5|rewrite <-E1, <-E2, <-E4, <-E5]; done.
  - intros key d. rewrite Hpin. split; intros (i & Hi & H1 & H2 & H3 & H4); exists i; destruct (He i Hi) as (E1 & E2 & _ & E4 & E5);
      [rewrite E1, E2, E4, E5|rewrite <-E1, <-E2, <-E4, <-E5]; done.
  - intros i Hi. destruct (He i Hi) as (-> & -> & -> & E4 & _). rewrite (key_dev _ _ E4). by apply Hv.
  - intros i Hi. destruct (He i Hi) as (-> & -> & -> & -> & ->). by apply Hc.
Qed.

(** A held block has no other copy. *)
Lemma bview_other f D P H i b :
  bview f D P H → (b < NBUF)%nat → busy (f b) = true → (i < NBUF)%nat → i ≠ b → key_of (f i) ≠ key_of (f b).
Proof.
  intros Hb Hlt Hbusy Hi Hne He. apply Hne. apply (bv_uniq _ _ _ _ Hb); try done.
  rewrite (key_dev _ _ He). apply (bv_valid _ _ _ _ Hb b); auto.
Qed.

(** Nobody else has the block of a held buffer, so it is not pinned either. *)
Lemma bview_not_pinned f D P H b :
  bview f D P H → (b < NBUF)%nat → busy (f b) = true → P !! key_of (f b) = None.
Proof.
  intros Hv Hb Hbusy. destruct (P !! key_of (f b)) as [d|] eqn:Hp; [|done].
  apply (bv_pin _ _ _ _ Hv) in Hp as (i & Hi & H1 & _ & H3 & _).
  destruct (decide (i = b)) as [->|Hne]; [congruence|]. by destruct (bview_other _ _ _ _ i b Hv).
Qed.

Lemma bview_edit f D P H b q :
  bview f D P H → (b < NBUF)%nat → busy (f b) = true → busy q = true → valid q = true →
  key_of q = key_of (f b) → bview (<[b := q]> f) D P (<[b := held_of q]> H).
Proof.
  intros Hv Hb Hbusy Hq Hqv Hk.
  assert (b_dev q ≠ NODEV) as Hdev by (rewrite (key_dev _ _ Hk); apply (bv_valid _ _ _ _ Hv b); auto).
  assert (∀ i, (i < NBUF)%nat → i ≠ b → key_of (f i) ≠ key_of q) as Ho
    by (intros i Hi Hne; rewrite Hk; by apply (bview_other _ _ _ _ i b Hv)).
  split.
  - intros i j Hi Hj. destruct (decide (i = b)) as [->|Hib], (decide (j = b)) as [->|Hjb];
      rewrite ?fn_lookup_insert, ?fn_lookup_insert_ne by done; [done|..].
    + intros He. by destruct (Ho j Hj Hjb).
    + intros He. by destruct (Ho i Hi Hib).
    + by apply (bv_uniq _ _ _ _ Hv).
  - intros i h. destruct (decide (i = b)) as [->|Hib].
    + rewrite lookup_insert_eq, fn_lookup_insert. naive_solver.
    + rewrite lookup_insert_ne, fn_lookup_insert_ne by done. apply (bv_held _ _ _ _ Hv).
  - intros key d. rewrite (bv_pin _ _ _ _ Hv). split; intros (i & Hi & H1 & H2); exists i.
    + assert (i ≠ b) by (intros ->; congruence). by rewrite fn_lookup_insert_ne by done.
    + destruct (decide (i = b)) as [->|Hib]; [rewrite fn_lookup_insert in H1; congruence|].
      by rewrite fn_lookup_insert_ne in H1, H2 by done.
  - intros i Hi. destruct (decide (i = b)) as [->|Hib];
      rewrite ?fn_lookup_insert, ?fn_lookup_insert_ne by done; [done|]. by apply (bv_valid _ _ _ _ Hv).
  - intros i Hi. destruct (decide (i = b)) as [->|Hib];
      rewrite ?fn_lookup_insert, ?fn_lookup_insert_ne by done; [congruence|]. by apply (bv_clean _ _ _ _ Hv).
Qed.

(** Writing a held block to the disk. *)
Lemma bview_store f D P H b :
  bview f D P H → (b < NBUF)%nat → busy (f b) = true →
  bview f (<[key_of (f b) := b_data (f b)]> D) P H.
Proof.
  intros Hv Hb Hbusy. destruct (Hv) as [Hu Hh Hp Hva Hc]. split; try done.
  intros i Hi H1 H2 H3. assert (i ≠ b) by (intros ->; congruence).
  rewrite lookup_insert_ne; [by apply Hc|]. intros He. by destruct (bview_other _ _ _ _ i b Hv).
Qed.

(** Taking a buffer: either it has the block, or nobody has it and the buffer is
    clean. *)
Lemma bview_take f D P H b key q :
  bview f D P H → (b < NBUF)%nat → busy (f b) = false → key.1 ≠ NODEV →
  key_of (f b) = key ∨ dirty (f b) = false ∧ (∀ i, (i < NBUF)%nat → key_of (f i) ≠ key) →
  busy q = true → valid q = true → key_of q = key → b_data q = contents D P key →
  dirty q = bool_decide (is_Some (P !! key)) →
  bview (<[b := q]> f) D (delete key P) (<[b := held_of q]> H).
Proof.
  intros Hv Hb Hnb Hdev Hcase Hq Hqv Hk Hd Hdirty.
  assert (∀ i, (i < NBUF)%nat → i ≠ b → key_of (f i) ≠ key) as Ho.
  { intros i Hi Hne. destruct Hcase as [Hbk|[_ Hn]]; [|by apply Hn]. intros He. apply Hne.
    apply (bv_uniq _ _ _ _ Hv); [done..|congruence|]. intros Hno. apply Hdev. by rewrite <-He. }
  split.
  - intros i j Hi Hj. destruct (decide (i = b)) as [->|Hib], (decide (j = b)) as [->|Hjb];
      rewrite ?fn_lookup_insert, ?fn_lookup_insert_ne by done; [done|..].
    + intros He. destruct (Ho j Hj Hjb). congruence.
    + intros He. destruct (Ho i Hi Hib). congruence.
    + by apply (bv_uniq _ _ _ _ Hv).
  - intros i h. destruct (decide (i = b)) as [->|Hib].
    + rewrite lookup_insert_eq, fn_lookup_insert. naive_solver.
    + rewrite lookup_insert_ne, fn_lookup_insert_ne by done. apply (bv_held _ _ _ _ Hv).
  - intros key' d. rewrite lookup_delete_Some, (bv_pin _ _ _ _ Hv). split.
    + intros (Hne & i & Hi & H1 & H2 & H3 & H4). exists i.
      assert (i ≠ b).
      { intros ->. destruct Hcase as [?|[? _]]; congruence. }
      by rewrite fn_lookup_insert_ne by done.
    + intros (i & Hi & H1 & H2 & H3). destruct (decide (i = b)) as [->|Hib].
      { rewrite fn_lookup_insert in H1. congruence. }
      rewrite fn_lookup_insert_ne in H1, H2, H3 by done. split; [|by exists i].
      intros <-. by destruct (Ho i Hi Hib), H3.
  - intros i Hi. destruct (decide (i = b)) as [->|Hib];
      rewrite ?fn_lookup_insert, ?fn_lookup_insert_ne by done.
    + intros _. split; [done|]. intros Hno. apply Hdev. by rewrite <-Hk.
    + by apply (bv_valid _ _ _ _ Hv).
  - intros i Hi. destruct (decide (i = b)) as [->|Hib];
      rewrite ?fn_lookup_insert, ?fn_lookup_insert_ne by done; [congruence|]. by apply (bv_clean _ _ _ _ Hv).
Qed.

(** Giving a buffer back: dirty, or equal to the disk. *)
Lemma bview_release f D P H b q :
  bview f D P H → (b < NBUF)%nat → busy (f b) = true → busy q = false → held_of q = held_of (f b) →
  valid q = valid (f b) → dirty q = true ∨ b_data q = default zero_block (D !! key_of q) →
  bview (<[b := q]> f) D (if dirty q then <[key_of q := b_data q]> P else P) (delete b H).
Proof.
  intros Hv Hb Hbusy Hq [= Hk Hs Hd Hdirty] Hqv Hcase.
  assert (∀ i, (i < NBUF)%nat → i ≠ b → key_of (f i) ≠ key_of q) as Ho.
  { intros i Hi Hne. unfold key_of at 2. rewrite Hk, Hs. by apply (bview_other _ _ _ _ i b Hv). }
  destruct (bv_valid _ _ _ _ Hv b Hb (or_introl Hbusy)) as [Hbv Hbdev].
  split.
  - intros i j Hi Hj. destruct (decide (i = b)) as [->|Hib], (decide (j = b)) as [->|Hjb];
      rewrite ?fn_lookup_insert, ?fn_lookup_insert_ne by done; [done|..].
    + intros He. by destruct (Ho j Hj Hjb).
    + intros He. by destruct (Ho i Hi Hib).
    + by apply (bv_uniq _ _ _ _ Hv).
  - intros i h. destruct (decide (i = b)) as [->|Hib].
    + rewrite lookup_delete_eq, fn_lookup_insert. naive_solver congruence.
    + rewrite lookup_delete_ne, fn_lookup_insert_ne by done. apply (bv_held _ _ _ _ Hv).
  - intros key d. assert (P !! key = Some d ↔ key ≠ key_of q ∧ P !! key = Some d) as Hpk.
    { split; [|tauto]. intros Hp. split; [|done]. intros ->.
      apply (bv_pin _ _ _ _ Hv) in Hp as (i & Hi & H1 & _ & H3 & _).
      apply (Ho i Hi); [intros ->; congruence|done]. }
    assert ((∃ i, (i < NBUF)%nat ∧ busy (<[b := q]> f i) = false ∧ dirty (<[b := q]> f i) = true ∧
        key_of (<[b := q]> f i) = key ∧ b_data (<[b := q]> f i) = d) ↔
      (dirty q = true ∧ key_of q = key ∧ b_data q = d) ∨ P !! key = Some d) as ->.
    { rewrite (bv_pin _ _ _ _ Hv). split.
      - intros (i & Hi & Hr). destruct (decide (i = b)) as [->|Hib].
        + rewrite !fn_lookup_insert in Hr. left. tauto.
        + rewrite !fn_lookup_insert_ne in Hr by done. right. by exists i.
      - intros [Hr|(i & Hi & Hr)].
        + exists b. by rewrite !fn_lookup_insert.
        + exists i. assert (i ≠ b) by (intros ->; naive_solver congruence). by rewrite !fn_lookup_insert_ne by done. }
    destruct (dirty q) eqn:Hdq; [rewrite lookup_insert_Some|]; naive_solver.
  - intros i Hi. destruct (decide (i = b)) as [->|Hib];
      rewrite ?fn_lookup_insert, ?fn_lookup_insert_ne by done; [|by apply (bv_valid _ _ _ _ Hv)].
    intros _. rewrite Hqv, Hk. done.
  - intros i Hi. destruct (decide (i = b)) as [->|Hib];
      rewrite ?fn_lookup_insert, ?fn_lookup_insert_ne by done; [|by apply (bv_clean _ _ _ _ Hv)].
    intros _ Hdq _. destruct Hcase; [congruence|done].
Qed.
End bview.

(** ** The operations implement the block store *)

Definition nxf (x : ext) (i : nat) : nat := b_next (buf_at x i).
Definition pvf (x : ext) (i : nat) : nat := b_prev (buf_at x i).

(** [l] is the order of the list, the most recently used buffer first. *)
Record cache_list (x : ext) (l : list nat) : Prop := {
  cl_len : length (x_bufs x) = S NBUF;
  cl_perm : l ≡ₚ seq 0 NBUF;
  cl_ring : ring (nxf x) (pvf x) bhead l bhead
}.

Definition bstate (x : ext) (D P : blocks) (H : gmap nat held_block) : Prop :=
  (∃ l, cache_list x l) ∧ x_disk x = D ∧ bview (buf_at x) D P H.

(** Only the cache and the disk differ. *)
Definition bio_only (x y : ext) : Prop := y = set_x_bufs (x_bufs y) (set_x_disk (x_disk y) x).

Section lists.
Implicit Types (x y : ext) (l : list nat).

Lemma cache_list_in x l b : cache_list x l → b ∈ l ↔ (b < NBUF)%nat.
Proof. intros [_ Hp _]. rewrite Hp. rewrite elem_of_seq. lia. Qed.

Lemma cache_list_nodup x l : cache_list x l → NoDup (bhead :: l).
Proof.
  intros Hc. constructor; [rewrite (cache_list_in x) by done; unfold bhead; lia|].
  rewrite (cl_perm _ _ Hc). apply NoDup_seq.
Qed.

Lemma cache_list_lt x l b : cache_list x l → (b < NBUF)%nat → (b < length (x_bufs x))%nat.
Proof. intros [-> _ _]. lia. Qed.

Lemma cache_list_payload x l b g :
  (∀ q, b_next (g q) = b_next q ∧ b_prev (g q) = b_prev q) →
  cache_list x l → cache_list (with_buf b g x) l.
Proof.
  intros Hg [Hl Hp Hr]. split; [|done|].
  - unfold with_buf. simpl. by rewrite length_alter.
  - revert Hr. apply ring_ext; intros i _; unfold nxf, pvf, with_buf, buf_at; simpl; rewrite list_lookup_total_alter;
      case_decide as Hd; try done; destruct Hd as [-> _]; apply Hg.
Qed.

Lemma bio_only_refl x : bio_only x x.
Proof. by destruct x. Qed.
Lemma bio_only_trans x y z : bio_only x y → bio_only y z → bio_only x z.
Proof. unfold bio_only. intros -> ->. by destruct x. Qed.
Lemma bio_only_with b g x : bio_only x (with_buf b g x).
Proof. by destruct x. Qed.
Lemma bio_only_on_disk x y dev sec : bio_only x y → on_disk x dev sec → on_disk y dev sec.
Proof. unfold bio_only, on_disk. by intros ->. Qed.

Definition has_key x (key : Z * Z) (i : nat) : Prop := key_of (buf_at x i) = key.
Definition is_clean x (i : nat) : Prop := busy (buf_at x i) = false ∧ dirty (buf_at x i) = false.
#[global] Instance has_key_dec x key i : Decision (has_key x key i).
Proof. unfold has_key. apply _. Defined.
#[global] Instance is_clean_dec x i : Decision (is_clean x i).
Proof. unfold is_clean. apply _. Defined.

Lemma bget_cached_ret fuel dev sec (k : KX) a l :
  ring (nxf (k_ext k)) (pvf (k_ext k)) a l bhead →
  bhead ∉ l → (length l <= fuel)%nat →
  bget_cached fuel (hd bhead l) dev sec k = Ret (head (filter (has_key (k_ext k) (dev, sec)) l)) k.
Proof.
  revert fuel a. induction l as [|b l IH]; intros fuel a Hr Hn Hf.
  { destruct fuel; cbn [hd bget_cached]; by rewrite decide_True. }
  destruct fuel as [|fuel]; simpl in Hf; [lia|]. destruct Hr as (_ & _ & Hr). apply not_elem_of_cons in Hn as [Hb Hn].
  cbn [hd bget_cached]. rewrite decide_False by done. rewrite filter_cons.
  rewrite (bind_Ret _ _ (buf_at (k_ext k) b) k k) by done.
  destruct (decide (b_dev (buf_at (k_ext k) b) = dev ∧ b_sector (buf_at (k_ext k) b) = sec)) as [[H1 H2]|Hne].
  - rewrite decide_True; [done|]. unfold has_key, key_of. by rewrite H1, H2.
  - rewrite decide_False by (intros [= H1 H2]; by apply Hne). fold (nxf (k_ext k) b). rewrite (proj1 (ring_ends _ _ _ _ _ Hr)). by apply (IH fuel b); [|..|lia].
Qed.

Lemma bget_recycle_ret fuel (k : KX) b l :
  ring (nxf (k_ext k)) (pvf (k_ext k)) bhead l b →
  bhead ∉ l → (length l <= fuel)%nat →
  bget_recycle fuel (b_prev (buf_at (k_ext k) b)) k = Ret (head (filter (is_clean (k_ext k)) (reverse l))) k.
Proof.
  revert fuel b. induction l as [|c l IH] using rev_ind; intros fuel b Hr Hn Hf.
  { destruct Hr as [_ Hp]. fold (pvf (k_ext k) b). rewrite Hp. destruct fuel; cbn [bget_recycle]; by rewrite decide_True. }
  rewrite length_app in Hf. destruct fuel as [|fuel]; simpl in Hf; [lia|].
  apply ring_app in Hr as [Hr [_ Hp]]. fold (pvf (k_ext k) b). rewrite Hp. apply not_elem_of_app in Hn as [Hn Hc].
  cbn [bget_recycle]. rewrite decide_False by set_solver. rewrite reverse_snoc, filter_cons.
  rewrite (bind_Ret _ _ (buf_at (k_ext k) c) k k) by done.
  change (has_flag (b_flags (buf_at (k_ext k) c)) B_BUSY) with (busy (buf_at (k_ext k) c)).
  change (has_flag (b_flags (buf_at (k_ext k) c)) B_DIRTY) with (dirty (buf_at (k_ext k) c)).
  destruct (busy (buf_at (k_ext k) c)) eqn:E1, (dirty (buf_at (k_ext k) c)) eqn:E2; cbn [negb andb].
  1-3: rewrite decide_False by (unfold is_clean; naive_solver congruence); apply IH; [done|done|lia].
  by rewrite decide_True.
Qed.
End lists.

Lemma bcache_lock_fs : bcache_lock ∈ fs_locks.
Proof. unfold fs_locks. set_solver. Qed.

Section bio_ops.
Context (flag : schedflag) (swtch : M KX unit) (iderw : nat → M KX unit).
Context {stop : Prop} {DK : DiskOk iderw stop}.
Implicit Types (x y : ext) (D P : blocks) (H : gmap nat held_block) (l : list nat).

(** The walk over the list gives the first buffer with the block. *)
Lemma bget_found dev sec x l (k : KX) (m : option nat → M KX nat) :
  k_ext k = x → cache_list x l →
  (first ← bfield bhead b_next; found ← bget_cached NBUF first dev sec; m found) (acquired bcache_lock k) =
  m (head (filter (has_key x (dev, sec)) l)) (acquired bcache_lock k).
Proof.
  intros Hx Hc. pose proof (cache_list_nodup _ _ Hc) as [Hn _]%NoDup_cons.
  assert (length l = NBUF) as Hl by (by rewrite (cl_perm _ _ Hc), length_seq).
  rewrite (bind_Ret _ _ (hd bhead l) (acquired bcache_lock k) (acquired bcache_lock k)).
  2:{ unfold bfield, ext_get, gets. f_equal. change (k_ext (acquired bcache_lock k)) with (k_ext k).
      rewrite Hx. apply (ring_ends _ _ _ _ _ (cl_ring _ _ Hc)). }
  rewrite <-Hx in *. erewrite bind_Ret; [done|].
  apply (bget_cached_ret _ _ _ (acquired bcache_lock k) bhead); [apply Hc|done|lia].
Qed.

Definition mark_busy (q : buf) : buf := set_b_flags (Z.lor (b_flags q) B_BUSY) q.
Definition recycle (dev sec : Z) (q : buf) : buf := set_b_flags B_BUSY (set_b_sector sec (set_b_dev dev q)).

Lemma bget_hit fuel dev sec x l b (Q : nat → ext → Prop) C :
  cache_list x l → head (filter (has_key x (dev, sec)) l) = Some b → busy (buf_at x b) = false →
  Q b (with_buf b mark_busy x) → does (bget swtch fuel dev sec) x Q C.
Proof.
  intros Hc Hb Hnb HQ k Hk Hx. unfold bget.
  rewrite (bind_Ret _ _ tt k (acquired bcache_lock k)) by (apply acquire_fs, bcache_lock_fs; done).
  assert (bget_loop swtch fuel dev sec (acquired bcache_lock k) =
    Ret b (settle (set_k_ext (with_buf b mark_busy x) k))) as ->.
  { destruct fuel; cbn [bget_loop]; rewrite (bget_found _ _ x l) by done; rewrite Hb;
      (rewrite (bind_Ret _ _ (b_flags (buf_at x b)) (acquired bcache_lock k) (acquired bcache_lock k)) by (by rewrite <-Hx));
      change (has_flag (b_flags (buf_at x b)) B_BUSY) with (busy (buf_at x b)); rewrite Hnb;
      (rewrite (bind_Ret _ _ tt _ (acquired bcache_lock (set_k_ext (with_buf b mark_busy x) k))) by (by rewrite <-Hx));
      by rewrite (bind_Ret _ _ tt _ _ (release_fs _ k _ Hk bcache_lock_fs (woke_ext k _))). }
  split; [apply woke_settle, woke_ext; done|done].
Qed.

Lemma bget_miss fuel dev sec x l b (Q : nat → ext → Prop) C :
  cache_list x l → head (filter (has_key x (dev, sec)) l) = None →
  head (filter (is_clean x) (reverse l)) = Some b →
  Q b (with_buf b (recycle dev sec) x) → does (bget swtch fuel dev sec) x Q C.
Proof.
  intros Hc Hb Hr HQ k Hk Hx. unfold bget.
  rewrite (bind_Ret _ _ tt k (acquired bcache_lock k)) by (apply acquire_fs, bcache_lock_fs; done).
  pose proof (cache_list_nodup _ _ Hc) as [Hn _]%NoDup_cons.
  assert (length l = NBUF) as Hl by (by rewrite (cl_perm _ _ Hc), length_seq).
  set (ka := acquired bcache_lock k).
  assert (bget_recycle NBUF (b_prev (buf_at x bhead)) ka = Ret (Some b) ka) as Hrec.
  { rewrite <-Hr, <-Hx in *. apply (bget_recycle_ret _ ka); [apply Hc|done|lia]. }
  assert (bget_loop swtch fuel dev sec ka = Ret b (settle (set_k_ext (with_buf b (recycle dev sec) x) k))) as ->.
  { unfold ka. destruct fuel; cbn [bget_loop]; rewrite (bget_found _ _ x l) by done; rewrite Hb; fold ka;
      (rewrite (bind_Ret _ _ (b_prev (buf_at x bhead)) ka ka) by (by rewrite <-Hx));
      rewrite (bind_Ret _ _ _ _ _ Hrec);
      do 3 (erewrite (bind_Ret (upd_buf _ _)); [|reflexivity]);
      (rewrite (bind_Ret _ _ tt _ (settle (set_k_ext (with_buf b (recycle dev sec) x) k))); [done|]);
      rewrite <-(release_fs bcache_lock k _ Hk bcache_lock_fs (woke_ext k _));
      f_equal; unfold ka, acquired, set_k_ext, upd_cpu; simpl; rewrite <-Hx; f_equal;
      by rewrite !with_buf_with_buf. }
  split; [apply woke_settle, woke_ext; done|done].
Qed.

(** There is a buffer to recycle as long as fewer than [NBUF] are in use. *)
Lemma clean_exists x l D P H :
  bview (buf_at x) D P H → cache_list x l → (size P + size H < NBUF)%nat →
  ∃ b, head (filter (is_clean x) (reverse l)) = Some b.
Proof.
  intros Hv Hc Hs. destruct (head (filter (is_clean x) (reverse l))) as [b|] eqn:Hh; [by exists b|]. exfalso.
  assert (∀ i, (i < NBUF)%nat → busy (buf_at x i) = true ∨ busy (buf_at x i) = false ∧ dirty (buf_at x i) = true) as Hall.
  { intros i Hi. pose proof (head_filter_None _ _ Hh i) as Hn. rewrite elem_of_reverse, (cache_list_in x) in Hn by done.
    specialize (Hn Hi). unfold is_clean in Hn. destruct (busy (buf_at x i)), (dirty (buf_at x i)); naive_solver. }
  set (tag := λ i, if busy (buf_at x i) then inl i else inr (key_of (buf_at x i)) : nat + Z * Z).
  assert (NoDup (tag <$> seq 0 NBUF)) as Hnd.
  { apply NoDup_fmap_2_strong; [|apply NoDup_seq]. intros i j Hi%elem_of_seq Hj%elem_of_seq. unfold tag.
    destruct (busy (buf_at x i)) eqn:Ei, (busy (buf_at x j)) eqn:Ej; try done; [by intros [= ->]|].
    intros [= Hd Hsec]. apply (bv_uniq _ _ _ _ Hv); [lia|lia|by unfold key_of; rewrite Hd, Hsec|].
    apply (bv_valid _ _ _ _ Hv i); [lia|]. destruct (Hall i); [lia|naive_solver..]. }
  assert (length (tag <$> seq 0 NBUF) <= length ((inl <$> (map_to_list H).*1) ++ (inr <$> (map_to_list P).*1)))%nat as Hlen.
  { apply submseteq_length, NoDup_submseteq; [done|]. intros y (i & -> & Hi%elem_of_seq)%list_elem_of_fmap.
    rewrite elem_of_app. unfold tag. destruct (Hall i) as [Hb|[Hb Hd]]; [lia|..]; rewrite Hb.
    - left. apply list_elem_of_fmap_2, list_elem_of_fmap. exists (i, held_of (buf_at x i)). split; [done|].
      apply elem_of_map_to_list, (bv_held _ _ _ _ Hv). split; [lia|done].
    - right. apply list_elem_of_fmap_2, list_elem_of_fmap. exists (key_of (buf_at x i), b_data (buf_at x i)). split; [done|].
      apply elem_of_map_to_list, (bv_pin _ _ _ _ Hv). exists i. split; [lia|done]. }
  rewrite length_app, !length_fmap, !length_map_to_list, length_seq in Hlen. lia.
Qed.

Lemma bview_with x b g D P H :
  (b < length (x_bufs x))%nat → bview (<[b := g (buf_at x b)]> (buf_at x)) D P H →
  bview (buf_at (with_buf b g x)) D P H.
Proof.
  intros Hb. apply bview_ext. intros i _. rewrite buf_at_with by done. f_equal.
  case_decide as Hi; [subst; by rewrite fn_lookup_insert|by rewrite fn_lookup_insert_ne].
Qed.

Lemma keep_links x l b g D P H :
  cache_list x l → (b < NBUF)%nat → (∀ q, b_next (g q) = b_next q ∧ b_prev (g q) = b_prev q) →
  x_disk x = D → bview (<[b := g (buf_at x b)]> (buf_at x)) D P H → bstate (with_buf b g x) D P H.
Proof.
  intros Hc Hb Hg Hd Hv. split; [exists l; by apply cache_list_payload|]. split; [done|].
  apply bview_with; [by eapply cache_list_lt|done].
Qed.

(** The second half of [bread], after [bget] has changed buffer [b] by [g]. *)
Definition fetch_in (D : blocks) (q : buf) : buf :=
  set_b_flags (Z.lor (b_flags q) B_VALID) (set_b_data (default zero_block (D !! key_of q)) q).

Lemma bread_finish x b g (Q : nat → ext → Prop) :
  let q := g (buf_at x b) in
  (b < length (x_bufs x))%nat → busy q = true → (valid q = false → dirty q = false) →
  on_disk x (b_dev q) (b_sector q) →
  (if valid q then Q b (with_buf b g x) else Q b (with_buf b (λ q, fetch_in (x_disk x) (g q)) x)) →
  does (flags ← bfield b b_flags; when (negb (has_flag flags B_VALID)) (iderw b) ;; mret b)
    (with_buf b g x) Q (λ y, stop ∧ x_disk y = x_disk x).
Proof.
  intros q Hb Hbusy Hnd Ho HQ. apply does_get_bind.
  assert (buf_at (with_buf b g x) b = q) as Hq by (by rewrite buf_at_with, decide_True).
  change (has_flag (b_flags (buf_at (with_buf b g x) b)) B_VALID) with (valid (buf_at (with_buf b g x) b)).
  rewrite Hq. destruct (valid q) eqn:Hv; simpl.
  { eapply (does_bind _ _ _ (λ _ y, y = with_buf b g x)); [by apply does_ret|]. intros _ y ->. by apply does_ret. }
  eapply (does_bind _ _ _ (λ _ y, y = fetched b (with_buf b g x))).
  - eapply does_mono; [apply disk_read; rewrite ?Hq; auto|done|by intros y [Hs ->]].
    unfold with_buf. simpl. by rewrite length_alter.
  - intros _ y ->. apply does_ret. unfold fetched. by rewrite with_buf_with_buf.
Qed.

Definition taken (D P : blocks) (key : Z * Z) : held_block :=
  Held key (contents D P key) (bool_decide (is_Some (P !! key))).

Lemma fetch_in_bits D q :
  busy (fetch_in D q) = busy q ∧ valid (fetch_in D q) = true ∧ dirty (fetch_in D q) = dirty q ∧
  key_of (fetch_in D q) = key_of q ∧ b_data (fetch_in D q) = default zero_block (D !! key_of q).
Proof. unfold fetch_in, key_of. flag_bits. auto. Qed.

Lemma mark_busy_bits q :
  busy (mark_busy q) = true ∧ valid (mark_busy q) = valid q ∧ dirty (mark_busy q) = dirty q ∧
  key_of (mark_busy q) = key_of q ∧ b_data (mark_busy q) = b_data q.
Proof. unfold mark_busy, key_of. flag_bits. auto. Qed.

(** The block a resting buffer holds. *)
Lemma bview_resting f D P H b :
  bview f D P H → (b < NBUF)%nat → busy (f b) = false → b_dev (f b) ≠ NODEV →
  dirty (f b) = bool_decide (is_Some (P !! key_of (f b))) ∧
  (valid (f b) = true → b_data (f b) = contents D P (key_of (f b))) ∧
  (dirty (f b) = false → contents D P (key_of (f b)) = default zero_block (D !! key_of (f b))).
Proof.
  intros Hv Hb Hnb Hdev. unfold contents. destruct (dirty (f b)) eqn:Hd.
  - assert (P !! key_of (f b) = Some (b_data (f b))) as Hp by (apply (bv_pin _ _ _ _ Hv); by exists b).
    rewrite Hp. by rewrite bool_decide_eq_true_2 by done.
  - assert (P !! key_of (f b) = None) as Hp.
    { destruct (P !! key_of (f b)) as [d|] eqn:Hp; [|done].
      apply (bv_pin _ _ _ _ Hv) in Hp as (i & Hi & _ & Hdi & Hki & _).
      rewrite <-(bv_uniq _ _ _ _ Hv b i) in Hdi by done. congruence. }
    rewrite Hp. rewrite bool_decide_eq_false_2 by (by intros [? ?]).
    split; [done|]. split; [|done]. by apply (bv_clean _ _ _ _ Hv).
Qed.

(** [bread] takes the block out of the store. *)
Definition bread_takes fuel dev sec x P H : Prop :=
  does (bread swtch iderw fuel dev sec) x
    (λ b y, H !! b = None ∧
      bstate y (x_disk x) (delete (dev, sec) P) (<[b := taken (x_disk x) P (dev, sec)]> H) ∧ bio_only x y)
    (λ y, stop ∧ x_disk y = x_disk x).

Lemma bview_unheld f D P H b : bview f D P H → busy (f b) = false → H !! b = None.
Proof.
  intros Hv Hnb. destruct (H !! b) eqn:Hh; [|done]. apply (bv_held _ _ _ _ Hv) in Hh as (_ & ? & _). congruence.
Qed.

Lemma bread_hit fuel dev sec x l P H b :
  cache_list x l → bview (buf_at x) (x_disk x) P H → on_disk x dev sec →
  (∀ i h, H !! i = Some h → h_key h ≠ (dev, sec)) →
  head (filter (has_key x (dev, sec)) l) = Some b → bread_takes fuel dev sec x P H.
Proof.
  intros Hc Hv Ho Hfree Hf. unfold bread_takes. set (D := x_disk x) in *. set (key := (dev, sec)) in *.
  assert (key.1 ≠ NODEV) as Hdev by (destruct Ho as [Hdev _]; simpl; by rewrite Hdev).
  destruct (head_filter_Some _ _ _ Hf) as [Hb%(cache_list_in _ _ _ Hc) Hk]. unfold has_key in Hk.
  assert (busy (buf_at x b) = false) as Hnb.
  { destruct (busy (buf_at x b)) eqn:Hbb; [|done]. destruct (Hfree b (held_of (buf_at x b))); [|done].
    by apply (bv_held _ _ _ _ Hv). }
  destruct (bview_resting _ _ _ _ b Hv Hb Hnb) as (Hdb & Hval & Hcl); [by rewrite <-Hk in Hdev|]. rewrite Hk in *.
  pose proof (cache_list_lt _ _ _ Hc Hb) as Hlt. destruct (mark_busy_bits (buf_at x b)) as (M1 & M2 & M3 & M4 & M5).
  assert (valid (buf_at x b) = false → dirty (buf_at x b) = false) as Hnv.
  { intros Hnv. destruct (dirty (buf_at x b)) eqn:Hdd; [|done].
    destruct (bv_valid _ _ _ _ Hv b Hb (or_intror Hdd)). congruence. }
  eapply (does_bind _ _ _ (λ b' y, b' = b ∧ y = with_buf b mark_busy x)); [by eapply bget_hit|].
  intros ? ? [-> ->]. apply bread_finish; [done|done|by rewrite M2, M3| |].
  { unfold mark_busy. simpl. unfold key_of in Hk. by injection Hk as -> ->. }
  rewrite M2. destruct (valid (buf_at x b)) eqn:Hvb.
  - split; [by eapply bview_unheld|]. split; [|apply bio_only_with]. eapply keep_links; try done.
    replace (taken D P key) with (held_of (mark_busy (buf_at x b))).
    2:{ unfold held_of, taken. by rewrite M3, M4, M5, Hk, Hdb, Hval by done. }
    apply bview_take; auto; congruence.
  - destruct (fetch_in_bits D (mark_busy (buf_at x b))) as (F1 & F2 & F3 & F4 & F5).
    split; [by eapply bview_unheld|]. split; [|apply bio_only_with]. eapply keep_links; try done.
    replace (taken D P key) with (held_of (fetch_in D (mark_busy (buf_at x b)))).
    2:{ unfold held_of, taken. by rewrite F3, F4, F5, M3, M4, Hk, Hcl, <-Hdb by auto. }
    apply bview_take; auto; try congruence. rewrite F5, M4, Hk. rewrite Hcl; auto.
Qed.

Lemma bread_miss fuel dev sec x l P H :
  cache_list x l → bview (buf_at x) (x_disk x) P H → on_disk x dev sec →
  head (filter (has_key x (dev, sec)) l) = None → (size P + size H < NBUF)%nat → bread_takes fuel dev sec x P H.
Proof.
  intros Hc Hv Ho Hf Hroom. unfold bread_takes. set (D := x_disk x) in *. set (key := (dev, sec)) in *.
  assert (∀ i, (i < NBUF)%nat → key_of (buf_at x i) ≠ key) as Hne.
  { intros i Hi. apply (head_filter_None _ _ Hf). by apply (cache_list_in x). }
  assert (P !! key = None) as HPk.
  { destruct (P !! key) as [d|] eqn:Hp; [|done]. apply (bv_pin _ _ _ _ Hv) in Hp as (i & Hi & _ & _ & Hki & _).
    by destruct (Hne i Hi). }
  destruct (clean_exists x l D P H Hv Hc Hroom) as [b Hb].
  destruct (head_filter_Some _ _ _ Hb) as [Hin [Hnb Hnd]]. rewrite elem_of_reverse, (cache_list_in x) in Hin by done.
  pose proof (cache_list_lt _ _ _ Hc Hin) as Hlt.
  eapply (does_bind _ _ _ (λ b' y, b' = b ∧ y = with_buf b (recycle dev sec) x)); [by eapply bget_miss|].
  intros ? ? [-> ->]. apply bread_finish; [done|done|done|done|]. change (valid (recycle dev sec (buf_at x b))) with false.
  cbv iota beta. destruct (fetch_in_bits D (recycle dev sec (buf_at x b))) as (F1 & F2 & F3 & F4 & F5).
  split; [by eapply bview_unheld|]. split; [|apply bio_only_with]. eapply keep_links; try done.
  replace (taken D P key) with (held_of (fetch_in D (recycle dev sec (buf_at x b)))).
  2:{ unfold held_of, taken, contents. rewrite F3, F4, F5, HPk. by rewrite bool_decide_eq_false_2 by (by intros [? ?]). }
  apply bview_take; auto.
  - destruct Ho as [Hdev _]. simpl. by rewrite Hdev.
  - rewrite F5. unfold contents. by rewrite HPk.
  - rewrite F3. by rewrite HPk, bool_decide_eq_false_2 by (by intros [? ?]).
Qed.

Lemma bread_does fuel dev sec x D P H :
  bstate x D P H → on_disk x dev sec → (∀ i h, H !! i = Some h → h_key h ≠ (dev, sec)) →
  is_Some (P !! (dev, sec)) ∨ (size P + size H < NBUF)%nat →
  does (bread swtch iderw fuel dev sec) x
    (λ b y, H !! b = None ∧ bstate y D (delete (dev, sec) P) (<[b := taken D P (dev, sec)]> H) ∧ bio_only x y)
    (λ y, stop ∧ x_disk y = D).
Proof.
  intros ((l & Hc) & <- & Hv) Ho Hfree Hroom.
  destruct (head (filter (has_key x (dev, sec)) l)) as [b|] eqn:Hf; [by eapply bread_hit|].
  eapply bread_miss; try done. destruct Hroom as [[d Hp]|?]; [|done].
  apply (bv_pin _ _ _ _ Hv) in Hp as (i & Hi & _ & _ & Hki & _).
  by destruct (head_filter_None _ _ Hf i); [apply (cache_list_in x)|].
Qed.

End bio_ops.

(** ** Writing and releasing *)

Section moving.
Implicit Types (x y : ext) (D P : blocks) (H : gmap nat held_block) (l : list nat).

Definition moved (b : nat) (x : ext) : ext :=
  let x1 := with_buf (b_next (buf_at x b)) (set_b_prev (b_prev (buf_at x b))) x in
  let x2 := with_buf (b_prev (buf_at x1 b)) (set_b_next (b_next (buf_at x1 b))) x1 in
  let x3 := with_buf b (set_b_next (b_next (buf_at x2 bhead))) x2 in
  let x4 := with_buf b (set_b_prev bhead) x3 in
  let x5 := with_buf (b_next (buf_at x4 bhead)) (set_b_prev b) x4 in
  with_buf bhead (set_b_next b) x5.

Lemma length_with_buf b g x : length (x_bufs (with_buf b g x)) = length (x_bufs x).
Proof. apply length_alter. Qed.

Lemma nxf_next x j v i : (j < length (x_bufs x))%nat → nxf (with_buf j (set_b_next v) x) i = <[j := v]> (nxf x) i.
Proof.
  intros Hj. unfold nxf. rewrite buf_at_with by done.
  case_decide; [subst; by rewrite fn_lookup_insert|by rewrite fn_lookup_insert_ne].
Qed.
Lemma pvf_prev x j v i : (j < length (x_bufs x))%nat → pvf (with_buf j (set_b_prev v) x) i = <[j := v]> (pvf x) i.
Proof.
  intros Hj. unfold pvf. rewrite buf_at_with by done.
  case_decide; [subst; by rewrite fn_lookup_insert|by rewrite fn_lookup_insert_ne].
Qed.
Lemma nxf_prev x j v i : (j < length (x_bufs x))%nat → nxf (with_buf j (set_b_prev v) x) i = nxf x i.
Proof. intros Hj. unfold nxf. rewrite buf_at_with by done. by case_decide; subst. Qed.
Lemma pvf_next x j v i : (j < length (x_bufs x))%nat → pvf (with_buf j (set_b_next v) x) i = pvf x i.
Proof. intros Hj. unfold pvf. rewrite buf_at_with by done. by case_decide; subst. Qed.

Lemma fn_insert_ext (f g : nat → nat) j v : (∀ i, f i = g i) → ∀ i, <[j := v]> f i = <[j := v]> g i.
Proof.
  intros He i. destruct (decide (j = i)) as [->|Hne]; [by rewrite !fn_lookup_insert|by rewrite !fn_lookup_insert_ne].
Qed.

(** Buffers of the list and its head are in the array. *)
Definition in_array x (i : nat) : Prop := (i < length (x_bufs x))%nat.

Lemma unlink_list x l1 b l2 :
  NoDup (bhead :: l1 ++ b :: l2) → (∀ i, i ∈ bhead :: l1 ++ b :: l2 → in_array x i) →
  ring (nxf x) (pvf x) bhead (l1 ++ b :: l2) bhead →
  let x1 := with_buf (nxf x b) (set_b_prev (pvf x b)) x in
  let x2 := with_buf (pvf x1 b) (set_b_next (nxf x1 b)) x1 in
  ring (nxf x2) (pvf x2) bhead (l1 ++ l2) bhead.
Proof.
  intros Hnd Hin Hring x1 x2. pose proof (proj1 (ring_app _ _ _ _ _ _ _) Hring) as [R1 R2].
  pose proof (proj2 (ring_ends _ _ _ _ _ R1)) as Hp. pose proof (proj1 (ring_ends _ _ _ _ _ R2)) as Hn.
  assert (nxf x b ∈ bhead :: l2) as Hnx by (rewrite Hn; destruct l2; simpl; set_solver).
  assert (pvf x b ∈ bhead :: l1) as Hpv by (rewrite Hp, elem_of_cons; apply last_of_in).
  assert (nxf x b ≠ b) as Hnb.
  { intros He. rewrite He in Hnx. apply NoDup_cons in Hnd as [Hh Hnd].
    apply NoDup_app in Hnd as (_ & _ & [Hb _]%NoDup_cons). set_solver. }
  assert (in_array x (nxf x b)) as Ln by (apply Hin; set_solver).
  assert (in_array x (pvf x b)) as Lp by (apply Hin; set_solver).
  assert (pvf x1 b = pvf x b) as E1 by (unfold x1; rewrite pvf_prev, fn_lookup_insert_ne by done; done).
  assert (nxf x1 b = nxf x b) as E2 by (unfold x1; by rewrite nxf_prev).
  assert (∀ i, nxf x2 i = <[pvf x b := nxf x b]> (nxf x) i) as Hx2n.
  { intros i. unfold x2. rewrite E1, E2, nxf_next by (unfold x1; by rewrite length_with_buf). apply fn_insert_ext.
    intros j. unfold x1. by rewrite nxf_prev. }
  assert (∀ i, pvf x2 i = <[nxf x b := pvf x b]> (pvf x) i) as Hx2p.
  { intros i. unfold x2. rewrite E1, pvf_next by (unfold x1; by rewrite length_with_buf). unfold x1. by rewrite pvf_prev. }
  eapply ring_ext; [intros i _; apply Hx2n|intros i _; apply Hx2p|]. by apply ring_unlink.
Qed.

Lemma link_list x b l :
  NoDup (bhead :: b :: l) → (∀ i, i ∈ bhead :: b :: l → in_array x i) →
  ring (nxf x) (pvf x) bhead l bhead →
  let x4 := with_buf b (set_b_prev bhead) (with_buf b (set_b_next (nxf x bhead)) x) in
  let x6 := with_buf bhead (set_b_next b) (with_buf (nxf x4 bhead) (set_b_prev b) x4) in
  ring (nxf x6) (pvf x6) bhead (b :: l) bhead.
Proof.
  intros Hnd Hin R x4 x6. unfold in_array in Hin.
  assert (b < length (x_bufs x))%nat as Lb by (apply Hin; set_solver).
  assert (bhead < length (x_bufs x))%nat as Lh by (apply Hin; set_solver).
  assert (nxf x bhead < length (x_bufs x))%nat as Ln.
  { apply Hin. rewrite (proj1 (ring_ends _ _ _ _ _ R)). destruct l; simpl; set_solver. }
  apply NoDup_cons in Hnd as [Hh Hnd]. apply NoDup_cons in Hnd as [Hb Hnd].
  assert (∀ i, nxf x4 i = <[b := nxf x bhead]> (nxf x) i) as Hx4n.
  { intros i. unfold x4. rewrite nxf_prev by (by rewrite length_with_buf). by apply nxf_next. }
  assert (∀ i, pvf x4 i = <[b := bhead]> (pvf x) i) as Hx4p.
  { intros i. unfold x4. rewrite pvf_prev by (by rewrite length_with_buf). apply fn_insert_ext.
    intros j. by apply pvf_next. }
  assert (nxf x4 bhead = nxf x bhead) as E by (rewrite Hx4n, fn_lookup_insert_ne; [done|set_solver]).
  assert (length (x_bufs x4) = length (x_bufs x)) as L4 by (unfold x4; by rewrite !length_with_buf).
  eapply ring_ext; [| |apply (ring_link (nxf x) (pvf x) bhead b l); try done]; [..|by constructor; set_solver|set_solver].
  - intros i _. unfold x6. rewrite E, nxf_next by (rewrite length_with_buf; lia). apply fn_insert_ext.
    intros j. rewrite nxf_prev by lia. apply Hx4n.
  - intros i _. unfold x6. rewrite E, pvf_next by (rewrite length_with_buf; lia).
    rewrite pvf_prev by lia. by apply fn_insert_ext.
Qed.

Lemma moved_list x l1 b l2 : cache_list x (l1 ++ b :: l2) → cache_list (moved b x) (b :: l1 ++ l2).
Proof.
  intros Hc. pose proof (cache_list_nodup _ _ Hc) as Hnd. destruct (Hc) as [Hlen Hperm Hring].
  assert (∀ i, i ∈ bhead :: l1 ++ b :: l2 → in_array x i) as Hin.
  { intros i Hi. unfold in_array. rewrite Hlen. apply elem_of_cons in Hi as [->|Hi]; [unfold bhead; lia|].
    apply (cache_list_in _ _ _ Hc) in Hi. lia. }
  pose proof (unlink_list x l1 b l2 Hnd Hin Hring) as R. cbv zeta in R.
  set (x1 := with_buf (nxf x b) (set_b_prev (pvf x b)) x) in *.
  set (x2 := with_buf (pvf x1 b) (set_b_next (nxf x1 b)) x1) in *.
  assert (length (x_bufs x2) = length (x_bufs x)) as L2 by (unfold x2, x1; by rewrite !length_with_buf).
  split; [unfold moved; rewrite !length_with_buf; lia| |].
  - rewrite <-Hperm. by rewrite Permutation_middle.
  - apply (link_list x2 b (l1 ++ l2)).
    + by rewrite Permutation_middle.
    + intros i Hi. unfold in_array in *. rewrite L2. apply Hin. set_solver.
    + exact R.
Qed.

Lemma moved_payload x b i : payload (buf_at (moved b x) i) = payload (buf_at x i).
Proof.
  assert (∀ j g y, (∀ q, payload (g q) = payload q) → payload (buf_at (with_buf j g y) i) = payload (buf_at y i)) as Hw.
  { intros j g y Hg. unfold with_buf, buf_at. simpl. rewrite list_lookup_total_alter.
    case_decide as Hd; [destruct Hd as [-> _]; apply Hg|done]. }
  unfold moved. cbv zeta. by rewrite !Hw.
Qed.

Lemma moved_only b x : bio_only x (moved b x) ∧ x_disk (moved b x) = x_disk x.
Proof. unfold moved, bio_only, with_buf. by destruct x. Qed.

End moving.

Section bio_writes.
Context (flag : schedflag) (iderw : nat → M KX unit).
Context {stop : Prop} {DK : DiskOk iderw stop}.
Implicit Types (x y : ext) (D P : blocks) (H : gmap nat held_block) (l : list nat).

(** Changing a held buffer in place. *)
Lemma bstate_edit x D P H b h g :
  bstate x D P H → H !! b = Some h →
  (∀ q, b_next (g q) = b_next q ∧ b_prev (g q) = b_prev q) →
  (busy (buf_at x b) = true → valid (buf_at x b) = true →
   key_of (g (buf_at x b)) = key_of (buf_at x b) ∧ busy (g (buf_at x b)) = true ∧ valid (g (buf_at x b)) = true) →
  bstate (with_buf b g x) D P (<[b := held_of (g (buf_at x b))]> H).
Proof.
  intros ((l & Hc) & Hd & Hv) Hh Hl Hg. apply (bv_held _ _ _ _ Hv) in Hh as (Hb & Hbusy & <-).
  destruct (bv_valid _ _ _ _ Hv b Hb (or_introl Hbusy)) as [Hvb _]. destruct (Hg Hbusy Hvb) as (G1 & G2 & G3).
  eapply keep_links; try done. apply bview_edit; congruence.
Qed.

Lemma held_payload x D P H b h : bstate x D P H → H !! b = Some h → held_of (buf_at x b) = h.
Proof. intros (_ & _ & Hv) Hh. by apply (bv_held _ _ _ _ Hv) in Hh as (_ & _ & ?). Qed.

Lemma held_data x D P H b h : bstate x D P H → H !! b = Some h → b_data (buf_at x b) = h_data h.
Proof. intros Hs Hh. by rewrite <-(held_payload _ _ _ _ _ _ Hs Hh). Qed.

Lemma bstate_map_data x D P H b h (F : list Z → list Z) :
  bstate x D P H → H !! b = Some h →
  bstate (with_buf b (λ q, set_b_data (F (b_data q)) q) x) D P (<[b := Held (h_key h) (F (h_data h)) (h_dirty h)]> H).
Proof.
  intros Hs Hh. rewrite <-(held_payload _ _ _ _ _ _ Hs Hh).
  by eapply (bstate_edit x D P H b h (λ q, set_b_data (F (b_data q)) q)).
Qed.

Lemma bwrite_does b x D P H h :
  bstate x D P H → H !! b = Some h → on_disk x (h_key h).1 (h_key h).2 →
  does (bwrite iderw b) x
    (λ _ y, bstate y (<[h_key h := h_data h]> D) P (<[b := Held (h_key h) (h_data h) false]> H) ∧ bio_only x y)
    (λ y, stop ∧ x_disk y = D).
Proof.
  intros Hs Hh Ho. pose proof Hs as ((l & Hc) & Hd & Hv). subst D.
  pose proof (proj1 (bv_held _ _ _ _ Hv b h) Hh) as (Hb & Hbusy & Hheld).
  pose proof (cache_list_lt _ _ _ Hc Hb) as Hlt. unfold bwrite. apply does_get_bind.
  change (has_flag (b_flags (buf_at x b)) B_BUSY) with (busy (buf_at x b)). rewrite Hbusy. simpl.
  apply does_upd_bind. set (mark := λ q, set_b_flags (Z.lor (b_flags q) B_DIRTY) q). set (y := with_buf b mark x).
  assert (buf_at y b = mark (buf_at x b)) as Hy by (unfold y; by rewrite buf_at_with, decide_True).
  assert (held_of (buf_at x b) = h) as Hhx by done. rewrite <-Hhx in Ho.
  eapply does_mono; [apply (disk_write b y); rewrite ?Hy|..].
  - unfold y. by rewrite length_with_buf.
  - unfold mark. flag_bits. by rewrite Hbusy.
  - unfold mark. by flag_bits.
  - exact Ho.
  - intros _ z ->. split.
    2:{ unfold stored, y, bio_only, with_buf. by destruct x. }
    unfold stored. rewrite Hy. set (done_ := λ q, set_b_flags (Z.lor (Z.ldiff (b_flags q) B_DIRTY) B_VALID) q).
    change (b_dev (mark (buf_at x b)), b_sector (mark (buf_at x b))) with (key_of (buf_at x b)).
    change (b_data (mark (buf_at x b))) with (b_data (buf_at x b)).
    set (D := <[key_of (buf_at x b) := b_data (buf_at x b)]> (x_disk x)).
    change (x_disk y) with (x_disk x). fold D.
    change (with_buf b done_ (set_x_disk D y)) with (with_buf b done_ (with_buf b mark (set_x_disk D x))).
    rewrite with_buf_with_buf. replace (<[h_key h := h_data h]> (x_disk x)) with D by (by rewrite <-Hhx).
    replace (Held (h_key h) (h_data h) false) with (held_of (done_ (mark (buf_at x b)))).
    2:{ rewrite <-Hhx. unfold held_of, done_, mark, key_of. simpl. f_equal. by flag_bits. }
    apply (bstate_edit (set_x_disk D x) D P H b h (λ q, done_ (mark q))); [|done|done|].
    + split; [exists l; by destruct Hc|]. split; [done|]. by apply (bview_store (buf_at x)).
    + intros Hbb _. change (buf_at (set_x_disk D x) b) with (buf_at x b) in *. unfold done_, mark, key_of. flag_bits. by rewrite Hbb.
  - by intros z [? ->].
Qed.

Lemma brelse_does b x D P H h C :
  bstate x D P H → H !! b = Some h → h_dirty h = true ∨ h_data h = default zero_block (D !! h_key h) →
  does (brelse flag b) x
    (λ _ y, bstate y D (if h_dirty h then <[h_key h := h_data h]> P else P) (delete b H) ∧ bio_only x y) C.
Proof.
  intros ((l & Hc) & Hd & Hv) Hh Hcase. pose proof (proj1 (bv_held _ _ _ _ Hv b h) Hh) as (Hb & Hbusy & Hheld).
  pose proof (cache_list_lt _ _ _ Hc Hb) as Hlt. unfold brelse. apply does_get_bind.
  change (has_flag (b_flags (buf_at x b)) B_BUSY) with (busy (buf_at x b)). rewrite Hbusy. simpl.
  set (clear := λ q, set_b_flags (Z.ldiff (b_flags q) B_BUSY) q).
  apply (does_section bcache_lock _ _ tt (with_buf b clear (moved b x))); [apply bcache_lock_fs| |].
  - intros k Hk Hx. exists (woken flag (ChBuf b) (set_k_ext (with_buf b clear (moved b x)) k)).
    split; [|split; [|apply woken_ext]].
    + rewrite (bind_Ret _ _ tt _ (acquired bcache_lock (set_k_ext (moved b x) k))) by (by rewrite <-Hx).
      rewrite (bind_Ret _ _ tt _ (acquired bcache_lock (set_k_ext (with_buf b clear (moved b x)) k))) by done.
      apply wakeup_fs; [|apply bcache_lock_fs]. by eapply fsok_sync; [apply woke_ext|].
    + eapply woke_trans; [apply woke_ext|apply woke_woken].
  - assert (b ∈ l) as Hbl by (by apply (cache_list_in x)).
    apply list_elem_of_split in Hbl as (l1 & l2 & ->).
    pose proof (moved_list x l1 b l2 Hc) as Hm. destruct (moved_only b x) as [Ho Hmd].
    split; [|eapply bio_only_trans; [exact Ho|apply bio_only_with]].
    eapply keep_links; [exact Hm|done|done|congruence|]. rewrite <-Hheld in *.
    destruct (payload_parts _ _ (moved_payload x b b)) as (E1 & E2 & E3 & E4 & E5).
    assert (busy (clear (buf_at (moved b x) b)) = false ∧ held_of (clear (buf_at (moved b x) b)) = held_of (buf_at x b) ∧
      valid (clear (buf_at (moved b x) b)) = valid (buf_at x b)) as (C1 & C2 & C3).
    { unfold held_of. rewrite <-E2, <-E3, <-E4, <-E5. unfold clear, key_of. by flag_bits. }
    rewrite <-C2 in Hcase |- *. apply (bview_ext (<[b := clear (buf_at (moved b x) b)]> (buf_at x))).
    { intros i _. destruct (decide (b = i)) as [->|Hne];
        [by rewrite !fn_lookup_insert|rewrite !fn_lookup_insert_ne by done; apply moved_payload]. }
    by apply (bview_release (buf_at x)).
Qed.
End bio_writes.

(** Looking at a block and giving it back. *)
Lemma peek_does {A} (flag : schedflag) swtch iderw `{!DiskOk iderw stop} fuel dev sec (f : list Z → A) x D P H :
  bstate x D P H → on_disk x dev sec → (∀ i h, H !! i = Some h → h_key h ≠ (dev, sec)) →
  is_Some (P !! (dev, sec)) ∨ (size P + size H < NBUF)%nat →
  does (b ← bread swtch iderw fuel dev sec; d ← bfield b b_data; brelse flag b ;; mret (f d)) x
    (λ r y, r = f (contents D P (dev, sec)) ∧ bstate y D P H ∧ bio_only x y) (λ y, stop ∧ x_disk y = D).
Proof.
  intros Hs Ho Hfree Hroom. eapply does_bind; [by apply (bread_does swtch iderw fuel dev sec x D P H)|].
  intros b y (Hb & Hy & Hio). apply does_get_bind. rewrite (held_data _ _ _ _ _ _ Hy (lookup_insert_eq _ _ _)).
  eapply does_bind.
  { eapply (brelse_does flag b y _ _ _ _ _ Hy (lookup_insert_eq _ _ _)). cbn [taken h_dirty h_data h_key].
    unfold contents. destruct (P !! (dev, sec)) eqn:Hp; [left; by rewrite bool_decide_eq_true_2|by right]. }
  intros [] z [Hz Hio2]. apply does_ret. split; [done|]. split; [|by eapply bio_only_trans].
  rewrite delete_insert_id in Hz by done. cbn [taken h_dirty h_data h_key] in Hz. unfold contents in Hz.
  destruct (P !! (dev, sec)) as [d|] eqn:Hp.
  - rewrite bool_decide_eq_true_2 in Hz by done. by rewrite insert_delete_id in Hz.
  - rewrite bool_decide_eq_false_2 in Hz by (by intros [? ?]). by rewrite delete_id in Hz.
Qed.

(** ** Sequences of operations

    A client reads blocks, changes those it holds, writes them through or marks
    them dirty as the log does, and releases them.  [env] is the client's map
    from blocks to the buffers it was given. *)

Inductive bop :=
  | OpRead (key : Z * Z)
  | OpEdit (key : Z * Z) (d : list Z)
  | OpPin (key : Z * Z)
  | OpWrite (key : Z * Z)
  | OpRelse (key : Z * Z).

Abbreviation benv := (gmap (Z * Z) nat).

Section bops.
Context (flag : schedflag) (swtch : M KX unit) (iderw : nat → M KX unit) (fuel : nat).

(** The result is what [OpRead] finds in the buffer. *)
Definition bop_run (o : bop) (env : benv) : M KX (option (list Z) * benv) :=
  match o with
  | OpRead key => b ← bread swtch iderw fuel key.1 key.2; d ← bfield b b_data; mret (Some d, <[key := b]> env)
  | OpEdit key d => upd_buf (env !!! key) (set_b_data d) ;; mret (None, env)
  | OpPin key => upd_buf (env !!! key) (λ q, set_b_flags (Z.lor (b_flags q) B_DIRTY) q) ;; mret (None, env)
  | OpWrite key => bwrite iderw (env !!! key) ;; mret (None, env)
  | OpRelse key => brelse flag (env !!! key) ;; mret (None, delete key env)
  end.

Fixpoint bops_run (ops : list bop) (env : benv) : M KX (list (option (list Z))) :=
  match ops with
  | [] => mret []
  | o :: ops' => r ← bop_run o env; rs ← bops_run ops' r.2; mret (r.1 :: rs)
  end.
End bops.

(** The block store: the disk, the pinned blocks, the held blocks. *)
Record bstore := BStore {
  st_disk : blocks;
  st_pins : blocks;
  st_held : gmap (Z * Z) (list Z * bool)
}.

Definition bop_spec (o : bop) (s : bstore) : option (list Z) * bstore :=
  let '(BStore D P H) := s in
  match o with
  | OpRead key =>
      (Some (contents D P key), BStore D (delete key P) (<[key := (contents D P key, bool_decide (is_Some (P !! key)))]> H))
  | OpEdit key d => (None, BStore D P (<[key := (d, (H !!! key).2)]> H))
  | OpPin key => (None, BStore D P (<[key := ((H !!! key).1, true)]> H))
  | OpWrite key => (None, BStore (<[key := (H !!! key).1]> D) P (<[key := ((H !!! key).1, false)]> H))
  | OpRelse key => (None, BStore D (if (H !!! key : list Z * bool).2 then <[key := (H !!! key).1]> P else P) (delete key H))
  end.

Fixpoint bops_spec (ops : list bop) (s : bstore) : list (option (list Z)) * bstore :=
  match ops with
  | [] => ([], s)
  | o :: ops' => let '(r, s') := bop_spec o s in let '(rs, s'') := bops_spec ops' s' in (r :: rs, s'')
  end.

(** A client reads a sector of the disk that it does not hold and for which there
    is room, works on what it holds, and does not release a change that is neither
    written nor marked dirty.  [n] is the number of sectors. *)
Definition bop_legal (n : Z) (o : bop) (s : bstore) : Prop :=
  let '(BStore D P H) := s in
  match o with
  | OpRead key => key.1 = ROOTDEV ∧ 0 <= key.2 < n ∧ H !! key = None ∧
      (is_Some (P !! key) ∨ (size P + size H < NBUF)%nat)
  | OpEdit key _ | OpPin key | OpWrite key => is_Some (H !! key)
  | OpRelse key => ∃ d p, H !! key = Some (d, p) ∧ (p = true ∨ d = default zero_block (D !! key))
  end.

Fixpoint bops_legal (n : Z) (ops : list bop) (s : bstore) : Prop :=
  match ops with
  | [] => True
  | o :: ops' => bop_legal n o s ∧ bops_legal n ops' (bop_spec o s).2
  end.

Section bcache_refines.
Context (flag : schedflag) (swtch : M KX unit) (iderw : nat → M KX unit) (fuel : nat).
Context {DK : DiskOk iderw False}.
Implicit Types (x y : ext) (D P : blocks) (H : gmap nat held_block) (Hk : gmap (Z * Z) (list Z * bool)) (env : benv).

(** The client's view of the held buffers. *)
Record same_held (n : Z) env H Hk : Prop := {
  sh_size : size H = size Hk;
  sh_key key d p : Hk !! key = Some (d, p) → ∃ b, env !! key = Some b ∧ H !! b = Some (Held key d p);
  sh_buf b h : H !! b = Some h → env !! h_key h = Some b ∧ Hk !! h_key h = Some (h_data h, h_dirty h);
  sh_disk key : is_Some (Hk !! key) → key.1 = ROOTDEV ∧ 0 <= key.2 < n
}.

Definition brepr (n : Z) x env (s : bstore) : Prop :=
  (∃ H, bstate x (st_disk s) (st_pins s) H ∧ same_held n env H (st_held s)) ∧
  ide_disksize (x_ide x) = n ∧ n < 2 ^ 31.

Lemma same_held_insert n env H Hk key b d p :
  same_held n env H Hk → H !! b = None → Hk !! key = None → key.1 = ROOTDEV → 0 <= key.2 < n →
  same_held n (<[key := b]> env) (<[b := Held key d p]> H) (<[key := (d, p)]> Hk).
Proof.
  intros [Hs Hke Hb Hd] HH HHk H1 H2. split.
  - by rewrite !map_size_insert_None by done; rewrite Hs.
  - intros key' d' p' [[-> [= -> ->]]|[Hne Hl]]%lookup_insert_Some.
    + exists b. by rewrite !lookup_insert_eq.
    + destruct (Hke _ _ _ Hl) as (b' & E1 & E2). exists b'. rewrite !lookup_insert_ne; [done| |done].
      intros ->. congruence.
  - intros b' h [[-> <-]|[Hne Hl]]%lookup_insert_Some; simpl; [by rewrite !lookup_insert_eq|].
    destruct (Hb _ _ Hl) as [E1 E2]. rewrite !lookup_insert_ne; [done|congruence..].
  - intros key' [? [[-> _]|[_ Hl]]%lookup_insert_Some]; [done|]. by apply Hd.
Qed.

Lemma same_held_edit n env H Hk key b d p d' p' :
  same_held n env H Hk → H !! b = Some (Held key d p) →
  same_held n env (<[b := Held key d' p']> H) (<[key := (d', p')]> Hk).
Proof.
  intros [Hs Hke Hb Hd] HH. destruct (Hb _ _ HH) as [He Hl]. simpl in *. split.
  - by rewrite !map_size_insert_Some by done.
  - intros key' d1 p1 [[-> [= -> ->]]|[Hne Hk1]]%lookup_insert_Some.
    + exists b. by rewrite lookup_insert_eq.
    + destruct (Hke _ _ _ Hk1) as (b' & E1 & E2). exists b'. rewrite lookup_insert_ne; [done|].
      intros ->. congruence.
  - intros b' h [[-> <-]|[Hne Hk1]]%lookup_insert_Some; simpl; [by rewrite lookup_insert_eq|].
    destruct (Hb _ _ Hk1) as [E1 E2]. rewrite lookup_insert_ne; [done|]. congruence.
  - intros key' [? [[-> _]|[_ Hk1]]%lookup_insert_Some]; apply Hd; [by rewrite Hl|done].
Qed.

Lemma same_held_delete n env H Hk key b d p :
  same_held n env H Hk → H !! b = Some (Held key d p) →
  same_held n (delete key env) (delete b H) (delete key Hk).
Proof.
  intros [Hs Hke Hb Hd] HH. destruct (Hb _ _ HH) as [He Hl]. simpl in *. split.
  - rewrite !map_size_delete_Some by done. by rewrite Hs.
  - intros key' d1 p1 [Hne Hk1]%lookup_delete_Some. destruct (Hke _ _ _ Hk1) as (b' & E1 & E2). exists b'.
    rewrite !lookup_delete_ne; [done| |done]. intros ->. congruence.
  - intros b' h [Hne Hk1]%lookup_delete_Some. destruct (Hb _ _ Hk1) as [E1 E2].
    rewrite !lookup_delete_ne; [done|congruence..].
  - intros key' [? [_ Hk1]%lookup_delete_Some]. by apply Hd.
Qed.

Definition bop_ok (n : Z) (o : bop) x env (s : bstore) : Prop :=
  does (bop_run flag swtch iderw fuel o env) x
    (λ r y, r.1 = (bop_spec o s).1 ∧ brepr n y r.2 (bop_spec o s).2) (λ _, False).

Lemma bop_read n dev sec x env s :
  brepr n x env s → bop_legal n (OpRead (dev, sec)) s → bop_ok n (OpRead (dev, sec)) x env s.
Proof.
  destruct s as [D P Hk]. intros ((H & Hst & Hsh) & Hn & Hlt) (H1 & H2 & H3 & H4). simpl in Hst, Hsh, H1, H2.
  rewrite <-(sh_size _ _ _ _ Hsh) in H4.
  eapply (does_bind _ _ _ (λ b y, H !! b = None ∧
    bstate y D (delete (dev, sec) P) (<[b := taken D P (dev, sec)]> H) ∧ bio_only x y)).
  { eapply does_mono; [apply (bread_does (stop := False) swtch iderw fuel dev sec x D P H)|done|by intros ? [? _]]; try done.
    - split; [done|]. rewrite Hn. lia.
    - intros i h Hi He. destruct (sh_buf _ _ _ _ Hsh _ _ Hi) as [_ Hki]. congruence. }
  intros b y (Hb & Hy & Hio). apply does_get_bind, does_ret. cbn [fst snd st_disk st_pins st_held bop_spec].
  assert (held_of (buf_at y b) = taken D P (dev, sec)) as Hheld.
  { destruct Hy as (_ & _ & Hv). pose proof (proj1 (bv_held _ _ _ _ Hv b (taken D P (dev, sec)))) as Hx.
    destruct Hx as (_ & _ & ?); [apply lookup_insert_eq|done]. }
  split; [by injection Hheld as _ _ -> _|]. split; [|by rewrite Hio].
  exists (<[b := taken D P (dev, sec)]> H). split; [done|]. by apply same_held_insert.
Qed.

(** Changes in place: new data, or the dirty flag. *)
Lemma bop_change n x env D P Hk key d p d' p' g :
  brepr n x env (BStore D P Hk) → Hk !! key = Some (d, p) →
  (∀ q, b_next (g q) = b_next q ∧ b_prev (g q) = b_prev q) →
  (∀ q, key_of (g q) = key_of q ∧ busy (g q) = busy q ∧ valid (g q) = valid q) →
  (∀ q, held_of q = Held key d p → held_of (g q) = Held key d' p') →
  brepr n (with_buf (env !!! key) g x) env (BStore D P (<[key := (d', p')]> Hk)).
Proof.
  intros ((H & Hst & Hsh) & Hn & Hlt) Hkey Hl Hg Hh. destruct (sh_key _ _ _ _ Hsh _ _ _ Hkey) as (b & He & Hb).
  rewrite (lookup_total_correct _ _ _ He). split; [|done].
  pose proof Hst as (_ & _ & Hv). pose proof (proj1 (bv_held _ _ _ _ Hv _ _) Hb) as (_ & _ & Hx).
  exists (<[b := Held key d' p']> H). cbn [st_disk st_pins st_held]. split.
  - rewrite <-(Hh _ Hx). eapply bstate_edit; [done..|].
    intros B1 B2. destruct (Hg (buf_at x b)) as (-> & -> & ->). done.
  - by eapply same_held_edit.
Qed.

Lemma bop_write n key x env s :
  brepr n x env s → bop_legal n (OpWrite key) s → bop_ok n (OpWrite key) x env s.
Proof.
  destruct s as [D P Hk]. intros ((H & Hst & Hsh) & Hn & Hlt) [[d p] Hkey]. simpl in Hst, Hsh.
  destruct (sh_key _ _ _ _ Hsh _ _ _ Hkey) as (b & He & Hb). unfold bop_ok. cbn [bop_run bop_spec].
  rewrite (lookup_total_correct _ _ _ He). destruct (sh_disk _ _ _ _ Hsh key) as [H1 H2]; [by rewrite Hkey|].
  eapply (does_bind _ _ _ (λ _ y, bstate y (<[key := d]> D) P (<[b := Held key d false]> H) ∧ bio_only x y)).
  { eapply does_mono; [apply (bwrite_does (stop := False) iderw b x D P H (Held key d p))|done|by intros ? [? _]]; try done.
    split; [done|]. rewrite Hn. simpl. lia. }
  intros _ y [Hy Hio]. apply does_ret. split; [done|]. split; [|by rewrite Hio]. cbn [fst snd st_disk st_pins st_held].
  rewrite (lookup_total_correct _ _ _ Hkey). eexists. split; [exact Hy|].
  by eapply same_held_edit.
Qed.

Lemma bop_relse n key x env s :
  brepr n x env s → bop_legal n (OpRelse key) s → bop_ok n (OpRelse key) x env s.
Proof.
  destruct s as [D P Hk]. intros ((H & Hst & Hsh) & Hn & Hlt) (d & p & Hkey & Hcase). simpl in Hst, Hsh.
  destruct (sh_key _ _ _ _ Hsh _ _ _ Hkey) as (b & He & Hb). unfold bop_ok. cbn [bop_run bop_spec].
  rewrite (lookup_total_correct _ _ _ He).
  eapply (does_bind _ _ _ (λ _ y, bstate y D (if p then <[key := d]> P else P) (delete b H) ∧ bio_only x y)).
  { by eapply (brelse_does _ b x D P H (Held key d p)). }
  intros _ y [Hy Hio]. apply does_ret. split; [done|]. split; [|by rewrite Hio]. cbn [fst snd st_disk st_pins st_held].
  rewrite (lookup_total_correct _ _ _ Hkey). eexists. split; [exact Hy|]. by eapply same_held_delete.
Qed.

(** One operation. *)
Lemma bop_refines n o x env s : brepr n x env s → bop_legal n o s → bop_ok n o x env s.
Proof.
  destruct o as [[dev sec]|key d|key|key|key]; [apply bop_read| | |apply bop_write|apply bop_relse];
    destruct s as [D P Hk]; intros Hr [[d0 p] Hkey]; unfold bop_ok; cbn [bop_run bop_spec];
    rewrite (lookup_total_correct _ _ _ Hkey); apply does_upd_bind, does_ret; (split; [done|]); cbn [fst snd].
  - eapply bop_change; [done|exact Hkey|done|done|]. by intros q [= <- _ <-].
  - eapply bop_change; [done|exact Hkey|done|..].
    + intros q. unfold key_of. by flag_bits.
    + intros q [= <- <- _]. unfold held_of, key_of. f_equal. by flag_bits.
Qed.
End bcache_refines.

(** ** The cache after [binit] *)

Definition binit_step (l : list buf) (b : nat) : list buf :=
  let l := alter (set_b_next (b_next (l !!! bhead))) b l in
  let l := alter (set_b_dev NODEV) b (alter (set_b_prev bhead) b l) in
  let l := alter (set_b_prev b) (b_next (l !!! bhead)) l in
  alter (set_b_next b) bhead l.

Definition binit_bufs (l : list buf) : list buf :=
  foldl binit_step (alter (set_b_next bhead) bhead (alter (set_b_prev bhead) bhead l)) (seq 0 NBUF).

Lemma binit_ret (k : KX) :
  binit k = Ret tt (set_k_ext (set_x_bufs (binit_bufs (x_bufs (k_ext k))) (k_ext k))
    (set_k_locks (<[bcache_lock := Lock 0 None]> (k_locks k)) k)).
Proof.
  assert (∀ bs (k : KX), for_each binit_buf bs k =
    Ret tt (set_k_ext (set_x_bufs (foldl binit_step (x_bufs (k_ext k)) bs) (k_ext k)) k)) as Hl.
  { induction bs as [|b bs IH]; intros k'; cbn [for_each foldl].
    - by destruct k' as [? ? ? ? ? ? ? ? ? ? ? ? ? ? ? ? []].
    - rewrite (bind_Ret _ _ tt k' (set_k_ext (set_x_bufs (binit_step (x_bufs (k_ext k')) b) (k_ext k')) k')) by done.
      by rewrite IH. }
  unfold binit, binit_bufs. generalize (seq 0 NBUF). intros bs. do 3 (erewrite bind_Ret; [|reflexivity]). by rewrite Hl.
Qed.

(** With the zeroed buffers of the boot image, [binit] gives an empty cache. *)
Definition empty_bufs : list buf := binit_bufs (replicate (S NBUF) buf0).

Lemma empty_bufs_length : length empty_bufs = S NBUF.
Proof. by vm_compute. Qed.
Lemma empty_bufs_flags : Forall (λ q, b_flags q = 0 ∧ b_dev q = NODEV) (take NBUF empty_bufs).
Proof. vm_compute. repeat constructor. Qed.
Lemma empty_bufs_ring :
  ring (λ i, b_next (empty_bufs !!! i)) (λ i, b_prev (empty_bufs !!! i)) bhead (reverse (seq 0 NBUF)) bhead.
Proof. vm_compute. repeat split. Qed.

Lemma empty_bufs_clear x i :
  x_bufs x = empty_bufs → (i < NBUF)%nat → b_flags (buf_at x i) = 0 ∧ b_dev (buf_at x i) = NODEV.
Proof.
  intros Hb Hi. pose proof empty_bufs_flags as Ha. rewrite Forall_lookup in Ha. apply (Ha i).
  rewrite lookup_take_lt by done. unfold buf_at. rewrite Hb. apply list_lookup_lookup_total_lt.
  rewrite empty_bufs_length. lia.
Qed.

Lemma empty_bufs_list x : x_bufs x = empty_bufs → cache_list x (reverse (seq 0 NBUF)).
Proof.
  intros Hb. split; [rewrite Hb; apply empty_bufs_length|by rewrite reverse_Permutation|].
  unfold nxf, pvf, buf_at. rewrite Hb. apply empty_bufs_ring.
Qed.

Lemma empty_bufs_bstate x : x_bufs x = empty_bufs → bstate x (x_disk x) ∅ ∅.
Proof.
  intros Hb. pose proof (λ i, empty_bufs_clear x i Hb) as Hf.
  split; [exists (reverse (seq 0 NBUF)); by apply empty_bufs_list|split; [done|]].
  - clear Hb. split.
    + intros i j Hi _ _. by destruct (Hf i Hi) as [_ ->].
    + intros i h. rewrite lookup_empty. split; [done|]. intros (Hi & Hbu & _). unfold busy in Hbu.
      by rewrite (proj1 (Hf i Hi)) in Hbu.
    + intros key d. rewrite lookup_empty. split; [done|]. intros (i & Hi & _ & Hd & _). unfold dirty in Hd.
      by rewrite (proj1 (Hf i Hi)) in Hd.
    + intros i Hi. unfold busy, dirty. rewrite (proj1 (Hf i Hi)). by intros [?|?].
    + intros i Hi. unfold valid. by rewrite (proj1 (Hf i Hi)).
Qed.

(** An otherwise empty cache with one dirty buffer. *)
Lemma bview_one f D b q :
  (b < NBUF)%nat → (∀ i, (i < NBUF)%nat → b_flags (f i) = 0 ∧ b_dev (f i) = NODEV) →
  busy q = false → dirty q = true → valid q = true → b_dev q ≠ NODEV →
  bview (<[b := q]> f) D {[key_of q := b_data q]} ∅.
Proof.
  intros Hb Hf Hbusy Hd Hv Hn.
  assert (∀ i, (i < NBUF)%nat → i ≠ b →
    busy ((<[b := q]> f) i) = false ∧ dirty ((<[b := q]> f) i) = false ∧ valid ((<[b := q]> f) i) = false ∧
    b_dev ((<[b := q]> f) i) = NODEV) as Ho.
  { intros i Hi Hib. rewrite fn_lookup_insert_ne by done. unfold busy, dirty, valid. by destruct (Hf i Hi) as [-> ->]. }
  pose proof (fn_lookup_insert f b q) as He. set (g := <[b := q]> f) in *. clearbody g. split.
  - intros i j Hi Hj Hk Hne. destruct (decide (i = b)) as [->|Hib], (decide (j = b)) as [->|Hjb]; try done.
    + apply key_dev in Hk. destruct (Ho j Hj Hjb) as (_ & _ & _ & E). congruence.
    + by destruct (Ho i Hi Hib) as (_ & _ & _ & E).
    + by destruct (Ho i Hi Hib) as (_ & _ & _ & E).
  - intros i h. rewrite lookup_empty. split; [done|]. intros (Hi & H1 & _).
    destruct (decide (i = b)) as [->|Hib]; [|destruct (Ho i Hi Hib)]; congruence.
  - intros key d. rewrite lookup_singleton_Some. split.
    + intros [<- <-]. exists b. by rewrite He.
    + intros (i & Hi & _ & H1 & <- & <-). destruct (decide (i = b)) as [->|Hib]; [by rewrite He|].
      destruct (Ho i Hi Hib) as (_ & ? & _). congruence.
  - intros i Hi. destruct (decide (i = b)) as [->|Hib]; [by rewrite He|].
    destruct (Ho i Hi Hib) as (-> & -> & _). by intros [?|?].
  - intros i Hi. destruct (decide (i = b)) as [->|Hib]; [rewrite He; congruence|].
    destruct (Ho i Hi Hib) as (_ & _ & -> & _). done.
Qed.

(** ** The claims *)

Section bio_claims.
Context (flag : schedflag) (swtch : M KX unit) (iderw : nat → M KX unit) (fuel : nat).

(** With every buffer held or dirty, a block that is not in the cache cannot be
    read: the kernel panics. *)
Lemma bread_no_buffers dev sec (k : KX) l :
  fsok k → cache_list (k_ext k) l → (∀ b, (b < NBUF)%nat → key_of (buf_at (k_ext k) b) ≠ (dev, sec)) →
  (∀ b, (b < NBUF)%nat → busy (buf_at (k_ext k) b) = true ∨ dirty (buf_at (k_ext k) b) = true) →
  bread swtch iderw fuel dev sec k = Panic "bget: no buffers".
Proof.
  intros Hk Hc Hne Hall. unfold bread, bget.
  assert (∀ (P : nat → Prop) `{!∀ x, Decision (P x)} m, m ⊆ l → (∀ b, (b < NBUF)%nat → ¬ P b) → head (filter P m) = None) as Hnone.
  { intros P ? m Hm HP. destruct (head (filter P m)) as [b|] eqn:He; [|done].
    apply head_filter_Some in He as [Hb HPb]. by destruct (HP b); [apply (cache_list_in _ _ _ Hc), Hm|]. }
  pose proof (cache_list_nodup _ _ Hc) as [Hn _]%NoDup_cons.
  assert (length l = NBUF) as Hl by (by rewrite (cl_perm _ _ Hc), length_seq).
  set (ka := acquired bcache_lock k). enough (bget_loop swtch fuel dev sec ka = Panic "bget: no buffers") as Hp.
  { unfold mbind, M_bind. rewrite acquire_fs by (done || apply bcache_lock_fs). fold ka. by rewrite Hp. }
  unfold ka. destruct fuel; cbn [bget_loop]; rewrite (bget_found _ _ (k_ext k) l) by done.
  all: rewrite (Hnone (has_key (k_ext k) (dev, sec)) _ l) by (done || intros b Hb; by apply Hne); fold ka.
  all: rewrite (bind_Ret _ _ (b_prev (buf_at (k_ext k) bhead)) ka ka) by done.
  all: erewrite bind_Ret; [|apply (bget_recycle_ret _ ka _ l); [apply Hc|done|lia]].
  all: rewrite (Hnone (is_clean (k_ext k)) _ (reverse l)); [done|intros b; by rewrite elem_of_reverse|].
  all: intros b Hb [H1 H2]; destruct (Hall b Hb); congruence.
Qed.

Context {DK : DiskOk iderw False}.

Lemma bops_refines n ops x env s :
  brepr n x env s → bops_legal n ops s →
  does (bops_run flag swtch iderw fuel ops env) x
    (λ rs y, rs = (bops_spec ops s).1 ∧ ∃ env', brepr n y env' (bops_spec ops s).2) (λ _, False).
Proof.
  revert x env s. induction ops as [|o ops IH]; intros x env s Hr Hl.
  { apply does_ret. split; [done|by exists env]. }
  destruct Hl as [Ho Hl]. cbn [bops_run bops_spec].
  eapply does_bind; [by apply (bop_refines flag swtch iderw fuel n o x env s)|].
  intros [r env1] y [Hr1 Hy]. cbn [fst snd] in *. eapply does_bind; [by apply (IH y env1 (bop_spec o s).2)|].
  intros rs z [-> Hz]. apply does_ret. rewrite Hr1. destruct (bop_spec o s) as [r' s']; cbn [fst snd] in *.
  destruct (bops_spec ops s') as [rs' s'']. done.
Qed.

(** C4. The buffer cache is transparent.  Take any cache state that stands for a
    block store (the disk, the dirty blocks kept in memory, the blocks the client
    holds) and any sequence of reads, changes, writes, markings and releases a
    client may perform: it reads existing sectors it does not hold already, only
    while some buffer is neither held nor dirty (or the block itself is dirty in
    memory), changes only what it holds, and does not drop a change.  Then the
    sequence returns, every read gives what the store has for the block, that is
    the last change and not the older contents of the disk, and the state reached
    stands for the store after the sequence, the disk included. *)
Theorem bcache_refines n ops k env s :
  fsok k → brepr n (k_ext k) env s → bops_legal n ops s →
  ∃ k' env', bops_run flag swtch iderw fuel ops env k = Ret (bops_spec ops s).1 k' ∧ calmly k k' ∧
    brepr n (k_ext k') env' (bops_spec ops s).2.
Proof.
  intros Hk Hr Hl. destruct (does_returns _ k _ Hk (bops_refines n ops (k_ext k) env s Hr Hl))
    as (rs & k' & Hrun & Hc & -> & env' & Hy). by exists k', env'.
Qed.
End bio_claims.

(** A disk of sixteen sectors, the cache just initialised; a block is changed and
    marked dirty, released, read again, and written through. *)
Definition bio_demo : KX :=
  fs_boot (set_x_bufs empty_bufs (set_x_ide (Ide None 0 16) (ext0 (λ _, 0)))).
Definition bio_demo_ops : list bop :=
  let b := (1, 5) in
  [OpRead b; OpEdit b [7]; OpPin b; OpRelse b; OpRead b; OpWrite b; OpRelse b; OpRead b].

Lemma bio_demo_repr : brepr 16 (k_ext bio_demo) ∅ (BStore ∅ ∅ ∅).
Proof.
  split; [|by split]. exists ∅. split; [by apply (empty_bufs_bstate (k_ext bio_demo))|]. split; try done.
  by intros key [? ?].
Qed.

Lemma bio_demo_legal : bops_legal 16 bio_demo_ops (BStore ∅ ∅ ∅).
Proof.
  cbn -[NBUF zero_block contents]. split_and!; try done; try lia.
  - right. vm_compute. lia.
  - exists [7], true. split; [by vm_compute|by left].
  - left. eexists. by vm_compute.
  - exists [7], false. split; [by vm_compute|right; by vm_compute].
  - right. vm_compute. lia.
Qed.

Lemma bcache_refines_witness :
  ∃ k' env', bops_run DEFAULT block Memide.iderw 0 bio_demo_ops ∅ bio_demo =
      Ret [Some zero_block; None; None; None; Some [7]; None; None; Some [7]] k' ∧
    brepr 16 (k_ext k') env' (bops_spec bio_demo_ops (BStore ∅ ∅ ∅)).2.
Proof.
  destruct (bcache_refines DEFAULT block Memide.iderw 0 16 bio_demo_ops bio_demo ∅ (BStore ∅ ∅ ∅))
    as (k' & env' & Hrun & _ & Hr).
  - apply fsok_boot.
  - apply bio_demo_repr.
  - apply bio_demo_legal.
  - exists k', env'. split; [exact Hrun|exact Hr].
Defined.
