(* ===== verification/Log.v ===== *)
(** * The log (log.c)

    Transactions of the file system: [begin_op] and [end_op] count the system
    calls in progress, [log_write] records the blocks they change, and the last
    [end_op] commits them: the blocks are copied to the log, the header is
    written, the blocks are installed, the header is cleared.  The operations run
    over the buffer cache; the crash-safety theorem switches the machine off at
    any transfer and runs the recovery of [initlog]. *)

From stdpp Require Import base list gmap strings.
From Stdlib Require Import ZArith Lia.
From S2P Require Import Prelude KState Spinlock CString Proc ProcForms Syscall KExt KRun Ide Bio.

(** ** Words of a block *)

Definition block_word (d : list Z) (i : nat) : Z :=
  word_of (d !!! (4 * i)%nat) (d !!! (4 * i + 1)%nat) (d !!! (4 * i + 2)%nat) (d !!! (4 * i + 3)%nat).

Definition put_block_word (i : nat) (w : Z) (d : list Z) : list Z :=
  <[(4 * i)%nat := word_byte 0 w]> (<[(4 * i + 1)%nat := word_byte 1 w]>
    (<[(4 * i + 2)%nat := word_byte 2 w]> (<[(4 * i + 3)%nat := word_byte 3 w]> d))).

(** [struct superblock] (fs.h). *)
Record superblock := SuperBlock {
  sb_size : Z;
  sb_nblocks : Z;
  sb_ninodes : Z;
  sb_nlog : Z
}.

Section log.
Context (flag : schedflag) (swtch : M KX unit) (iderw : nat → M KX unit) (fuel : nat).

Definition log_get {A : Type} (f : log → A) : M KX A := ext_get (λ x, f (x_log x)).
Definition log_upd (f : log → log) : M KX unit := upd_ext (λ x, set_x_log (f (x_log x)) x).

(** [log.lh.sector[i]], which has [LOGSIZE] elements. *)
Definition sector_at (i : nat) : M KX Z :=
  l ← log_get lg_sector;
  match l !! i with Some s => mret s | None => fault "log.lh.sector" end.
Definition set_sector (i : nat) (s : Z) : M KX unit :=
  l ← log_get lg_sector;
  if decide (i < length l)%nat then log_upd (set_lg_sector (<[i := s]> l)) else fault "log.lh.sector".

(** fs.c's [readsb], which [initlog] calls. *)
Definition readsb (dev : Z) : M KX superblock :=
  bp ← bread swtch iderw fuel dev 1;
  d ← bfield bp b_data;
  brelse flag bp ;;
  mret (SuperBlock (block_word d 0) (block_word d 1) (block_word d 2) (block_word d 3)).

(** The body of the loop of [install_trans]. *)
Definition install_block (tail : nat) : M KX unit :=
  dev ← log_get lg_dev;
  start ← log_get lg_start;
  lbuf ← bread swtch iderw fuel (u32 dev) (u32 (start + Z.of_nat tail + 1));
  s ← sector_at tail;
  dbuf ← bread swtch iderw fuel (u32 dev) (u32 s);
  d ← bfield lbuf b_data;
  upd_buf dbuf (set_b_data d) ;;
  bwrite iderw dbuf ;;
  brelse flag lbuf ;;
  brelse flag dbuf.

Definition install_trans : M KX unit :=
  n ← log_get lg_n;
  for_each install_block (seq 0 (Z.to_nat n)).

Definition read_head : M KX unit :=
  dev ← log_get lg_dev;
  start ← log_get lg_start;
  buf ← bread swtch iderw fuel (u32 dev) (u32 start);
  n ← bfield buf (λ b, s32 (block_word (b_data b) 0));
  log_upd (set_lg_n n) ;;
  for_each (λ i, s ← bfield buf (λ b, s32 (block_word (b_data b) (S i))); set_sector i s) (seq 0 (Z.to_nat n)) ;;
  brelse flag buf.

Definition write_head : M KX unit :=
  dev ← log_get lg_dev;
  start ← log_get lg_start;
  buf ← bread swtch iderw fuel (u32 dev) (u32 start);
  n ← log_get lg_n;
  upd_buf buf (λ b, set_b_data (put_block_word 0 n (b_data b)) b) ;;
  for_each (λ i, s ← sector_at i; upd_buf buf (λ b, set_b_data (put_block_word (S i) s (b_data b)) b))
    (seq 0 (Z.to_nat n)) ;;
  bwrite iderw buf ;;
  brelse flag buf.

Definition recover_from_log : M KX unit :=
  read_head ;;
  install_trans ;;
  log_upd (set_lg_n 0) ;;
  write_head.

Definition SIZEOF_LOGHEADER : Z := 4 + 4 * LOGSIZE.

Definition initlog : M KX unit :=
  if decide (SIZEOF_LOGHEADER >= BSIZE) then panic "initlog: too big logheader" else
  initlock log_lock ;;
  sb ← readsb ROOTDEV;
  log_upd (set_lg_start (s32 (sb_size sb - sb_nlog sb))) ;;
  log_upd (set_lg_size (s32 (sb_nlog sb))) ;;
  log_upd (set_lg_dev ROOTDEV) ;;
  recover_from_log.

(** [n] bounds the number of sleeps. *)
Fixpoint begin_op_loop (n : nat) : M KX unit :=
  l ← log_get id;
  if decide (lg_committing l ≠ 0 ∨ lg_n l + (lg_outstanding l + 1) * MAXOPBLOCKS > LOGSIZE) then
    sleep swtch ChLog (Some log_lock) ;;
    match n with O => block | S n' => begin_op_loop n' end
  else
    log_upd (λ l, set_lg_outstanding (s32 (lg_outstanding l + 1)) l) ;;
    release log_lock.

Definition begin_op : M KX unit :=
  acquire log_lock ;;
  begin_op_loop fuel.

Definition write_log_block (tail : nat) : M KX unit :=
  dev ← log_get lg_dev;
  start ← log_get lg_start;
  to ← bread swtch iderw fuel (u32 dev) (u32 (start + Z.of_nat tail + 1));
  s ← sector_at tail;
  from ← bread swtch iderw fuel (u32 dev) (u32 s);
  d ← bfield from b_data;
  upd_buf to (set_b_data d) ;;
  bwrite iderw to ;;
  brelse flag from ;;
  brelse flag to.

Definition write_log : M KX unit :=
  n ← log_get lg_n;
  for_each write_log_block (seq 0 (Z.to_nat n)).

Definition commit : M KX unit :=
  n ← log_get lg_n;
  when (bool_decide (n > 0)) (
    write_log ;;
    write_head ;;
    install_trans ;;
    log_upd (set_lg_n 0) ;;
    write_head).

(** The first critical section of [end_op]: whether to commit. *)
Definition end_op_count : M KX bool :=
  locked log_lock (
    log_upd (λ l, set_lg_outstanding (s32 (lg_outstanding l - 1)) l) ;;
    l ← log_get id;
    if decide (lg_committing l ≠ 0) then panic "log.committing" else
    if decide (lg_outstanding l = 0) then log_upd (set_lg_committing 1) ;; mret true
    else wakeup flag ChLog ;; mret false).

Definition end_op : M KX unit :=
  do_commit ← end_op_count;
  when do_commit (
    commit ;;
    locked log_lock (log_upd (set_lg_committing 0) ;; wakeup flag ChLog)).

(** [for (i = 0; i < n; i++) if (sector[i] == b->sector) break;]: the index found,
    [n] when there is none. *)
Fixpoint log_index (l : list Z) (n : nat) (sector : Z) : nat :=
  match n, l with
  | S n', s :: l' => if decide (u32 s = sector) then O else S (log_index l' n' sector)
  | _, _ => O
  end.

Definition log_write (b : nat) : M KX unit :=
  l ← log_get id;
  if decide (lg_n l >= LOGSIZE ∨ lg_n l >= lg_size l - 1) then panic "too big a transaction" else
  if decide (lg_outstanding l < 1) then panic "log_write outside of trans" else
  locked log_lock (
    sector ← bfield b b_sector;
    l ← log_get id;
    let i := log_index (lg_sector l) (Z.to_nat (lg_n l)) sector in
    set_sector i (s32 sector) ;;
    when (bool_decide (Z.of_nat i = lg_n l)) (log_upd (λ l, set_lg_n (s32 (lg_n l + 1)) l)) ;;
    upd_buf b (λ q, set_b_flags (Z.lor (b_flags q) B_DIRTY) q)).
End log.

(** ** Words *)

Section words.
Implicit Types (d : list Z) (i j : nat) (w : Z).

Lemma length_put_block_word i w d : length (put_block_word i w d) = length d.
Proof. unfold put_block_word. by rewrite !length_insert. Qed.

Lemma put_block_word_at i w d j :
  (4 * i + 3 < length d)%nat →
  put_block_word i w d !!! j =
  if decide (j = 4 * i)%nat then word_byte 0 w else if decide (j = 4 * i + 1)%nat then word_byte 1 w
  else if decide (j = 4 * i + 2)%nat then word_byte 2 w else if decide (j = 4 * i + 3)%nat then word_byte 3 w
  else d !!! j.
Proof.
  intros Hi. unfold put_block_word. rewrite !list_lookup_total_insert, !length_insert.
  repeat case_decide; try done; lia.
Qed.

Lemma block_word_put i w d j :
  (4 * i + 3 < length d)%nat →
  block_word (put_block_word i w d) j = if decide (j = i) then u32 w else block_word d j.
Proof.
  intros Hi. unfold block_word. rewrite !put_block_word_at by done. destruct (decide (j = i)) as [->|Hj].
  - rewrite <-word_of_bytes. f_equal; repeat (case_decide; try lia); done.
  - f_equal; repeat (case_decide; try lia); done.
Qed.
End words.

(** ** Geometry

    The log starts at sector [start], after every home sector; its header is
    there and its blocks follow.  [ss] are the sectors the in-memory header lists. *)

Definition home (s : Z) : Z * Z := (ROOTDEV, s).
Definition log_key (start : Z) (t : nat) : Z * Z := (ROOTDEV, start + Z.of_nat t + 1).

Record log_at (x : ext) (start : Z) (ss : list Z) : Prop := {
  la_dev : lg_dev (x_log x) = ROOTDEV;
  la_start : lg_start (x_log x) = start;
  la_n : lg_n (x_log x) = Z.of_nat (length ss);
  la_sec : take (length ss) (lg_sector (x_log x)) = ss;
  la_len : length (lg_sector (x_log x)) = Z.to_nat LOGSIZE;
  la_le : (length ss <= Z.to_nat LOGSIZE)%nat
}.

Record geometry (x : ext) (start : Z) (ss : list Z) : Prop := {
  ge_pos : 0 < start;
  ge_fits : start + Z.of_nat (length ss) < ide_disksize (x_ide x);
  ge_disk : ide_disksize (x_ide x) < 2 ^ 31;
  ge_home : Forall (λ s, 0 <= s < start) ss
}.

(** The disk after the first [n] blocks of the log are installed, and after the
    first [n] blocks [P] has for the sectors [ss] are logged. *)
Definition installed (start : Z) (ss : list Z) (D : blocks) (n : nat) : blocks :=
  foldl (λ D t, <[home (ss !!! t) := default zero_block (D !! log_key start t)]> D) D (seq 0 n).
Definition logged (start : Z) (ss : list Z) (P D : blocks) (n : nat) : blocks :=
  foldl (λ D t, <[log_key start t := contents D P (home (ss !!! t))]> D) D (seq 0 n).

(** The pinned blocks after the first [n] homes were written. *)
Definition unpinned (ss : list Z) (P : blocks) (n : nat) : blocks :=
  foldl (λ P t, delete (home (ss !!! t)) P) P (seq 0 n).

(** The header block that lists [ss], written over the block [d]; the list a
    header block [d] stands for. *)
Definition head_block (ss : list Z) (d : list Z) (n : nat) : list Z :=
  foldl (λ d i, put_block_word (S i) (ss !!! i) d) (put_block_word 0 (Z.of_nat (length ss)) d) (seq 0 n).
Definition head_list (d : list Z) : list Z :=
  (λ i, s32 (block_word d (S i))) <$> seq 0 (Z.to_nat (s32 (block_word d 0))).

Lemma length_head_block ss d n : length (head_block ss d n) = length d.
Proof.
  unfold head_block. rewrite <-(length_put_block_word 0 (Z.of_nat (length ss)) d).
  generalize (put_block_word 0 (Z.of_nat (length ss)) d) as e. induction (seq 0 n) as [|i l IH]; intros e; simpl; [done|]. by rewrite IH, length_put_block_word.
Qed.

Lemma head_block_word ss d n j :
  length d = 512%nat → (n <= length ss <= Z.to_nat LOGSIZE)%nat →
  block_word (head_block ss d n) j =
  if decide (j = O) then Z.of_nat (length ss) else if decide (j <= n)%nat then u32 (ss !!! pred j) else block_word d j.
Proof.
  intros Hd Hn. change (Z.to_nat LOGSIZE) with 30%nat in Hn. induction n as [|n IH].
  - unfold head_block. simpl. rewrite block_word_put by lia. repeat case_decide; try done; try lia.
    apply u32_id. lia.
  - unfold head_block. rewrite seq_S, foldl_app. cbn [foldl]. fold (head_block ss d n).
    rewrite block_word_put by (rewrite length_head_block; lia). simpl. rewrite IH by lia.
    repeat case_decide; try done; try lia. by subst.
Qed.

(** Reading a header back. *)
Lemma head_list_block ss d :
  length d = 512%nat → (length ss <= Z.to_nat LOGSIZE)%nat → Forall (λ s, 0 <= s < 2 ^ 31) ss →
  head_list (head_block ss d (length ss)) = ss.
Proof.
  intros Hd Hl Hs. unfold head_list. pose proof Hl as Hl'. change (Z.to_nat LOGSIZE) with 30%nat in Hl'.
  rewrite (head_block_word _ _ _ 0) by (done || lia). cbn [decide]. rewrite decide_True by done.
  rewrite s32_id by lia. rewrite Nat2Z.id. apply list_eq. intros i. rewrite list_lookup_fmap.
  destruct (decide (i < length ss)%nat) as [Hi|Hi].
  - rewrite lookup_seq_lt by done. cbn [fmap option_fmap option_map Nat.add]. rewrite head_block_word by (done || lia).
    rewrite decide_False, decide_True by lia. cbn [pred]. pose proof (list_lookup_lookup_total_lt ss i Hi) as Hx.
    rewrite Hx. f_equal. rewrite s32_u32. apply s32_id. rewrite Forall_lookup in Hs. specialize (Hs _ _ Hx). simpl in Hs. lia.
  - rewrite lookup_seq_ge by lia. rewrite lookup_ge_None_2 by lia. done.
Qed.

(** Only the cache, the disk and the in-memory log differ. *)
Definition fs_only (x y : ext) : Prop := y = set_x_log (x_log y) (set_x_bufs (x_bufs y) (set_x_disk (x_disk y) x)).

Lemma fs_only_refl x : fs_only x x.
Proof. by destruct x. Qed.
Lemma fs_only_trans x y z : fs_only x y → fs_only y z → fs_only x z.
Proof. unfold fs_only. intros -> ->. by destruct x. Qed.
Lemma fs_only_bio x y : bio_only x y → fs_only x y.
Proof. unfold fs_only, bio_only. intros ->. by destruct x. Qed.
Lemma fs_only_log l x : fs_only x (set_x_log l x).
Proof. by destruct x. Qed.
Lemma bstate_log l x D P H : bstate x D P H → bstate (set_x_log l x) D P H.
Proof. intros ((o & Ho) & Hd & Hv). split; [exists o; by destruct Ho|]. by split. Qed.
Lemma bio_only_log x y : bio_only x y → x_log y = x_log x.
Proof. by intros ->. Qed.

Section plans.
Context (start : Z) (ss : list Z).
Implicit Types (D P : blocks).

(** What [commit] and recovery need of the pinned blocks [P]. *)
Record pins_ok P : Prop := {
  po_log t : P !! log_key start t = None;
  po_room : (size P < NBUF)%nat;
  po_home : P = ∅ ∨ NoDup ss ∧ ∀ s, s ∈ ss → is_Some (P !! home s)
}.

Lemma installed_S D n :
  installed start ss D (S n) = <[home (ss !!! n) := default zero_block (installed start ss D n !! log_key start n)]> (installed start ss D n).
Proof. unfold installed. by rewrite seq_S, foldl_app. Qed.
Lemma logged_S P D n :
  logged start ss P D (S n) = <[log_key start n := contents (logged start ss P D n) P (home (ss !!! n))]> (logged start ss P D n).
Proof. unfold logged. by rewrite seq_S, foldl_app. Qed.
Lemma unpinned_S P n : unpinned ss P (S n) = delete (home (ss !!! n)) (unpinned ss P n).
Proof. unfold unpinned. by rewrite seq_S, foldl_app. Qed.

Lemma unpinned_lookup P n key :
  (n <= length ss)%nat →
  unpinned ss P n !! key = if decide (key ∈ home <$> take n ss) then None else P !! key.
Proof.
  induction n as [|n IH]; intros Hn; [done|]. rewrite unpinned_S, lookup_delete, IH by lia.
  rewrite (take_S_r _ _ (ss !!! n)) by (by apply list_lookup_lookup_total_lt).
  rewrite fmap_app. repeat case_decide; set_solver.
Qed.

Lemma unpinned_size P n : (size (unpinned ss P n) <= size P)%nat.
Proof.
  induction n as [|n IH]; [done|]. rewrite unpinned_S, map_size_delete. case_match; simpl; lia.
Qed.

End plans.

Section log_ops.
Context (flag : schedflag) (swtch : M KX unit) (iderw : nat → M KX unit) (fuel : nat).
Context {stop : Prop} {DK : DiskOk iderw stop}.
Context (start : Z) (ss : list Z).
Implicit Types (x y : ext) (D P : blocks) (H : gmap nat held_block).

Lemma log_at_bio x y : bio_only x y → log_at x start ss → log_at y start ss.
Proof. intros -> Hl. by destruct Hl. Qed.
Lemma geometry_bio x y : bio_only x y → geometry x start ss → geometry y start ss.
Proof. intros -> Hl. by destruct Hl. Qed.

Lemma home_on_disk x t : geometry x start ss → (t < length ss)%nat → on_disk x ROOTDEV (ss !!! t).
Proof.
  intros [H1 H2 H3 H4] Ht. rewrite Forall_lookup in H4.
  destruct (lookup_lt_is_Some_2 ss t Ht) as [s Hs]. rewrite (list_lookup_total_correct _ _ _ Hs).
  specialize (H4 _ _ Hs). simpl in H4. split; [done|]. lia.
Qed.

Lemma home_range x t : geometry x start ss → (t < length ss)%nat → 0 <= ss !!! t < start.
Proof.
  intros [_ _ _ H4] Ht. rewrite Forall_lookup in H4. destruct (lookup_lt_is_Some_2 ss t Ht) as [s Hs].
  rewrite (list_lookup_total_correct _ _ _ Hs). by apply (H4 t).
Qed.

Lemma log_on_disk x t : geometry x start ss → (t < length ss)%nat → on_disk x ROOTDEV (start + Z.of_nat t + 1).
Proof. intros [H1 H2 H3 H4] Ht. split; [done|]. lia. Qed.

Lemma home_not_log x t t' : geometry x start ss → (t < length ss)%nat → home (ss !!! t) ≠ log_key start t'.
Proof. intros Hg Ht. pose proof (home_range x t Hg Ht). unfold home, log_key. intros [= He]. lia. Qed.

Lemma sector_at_does t x (Q : Z → ext → Prop) C :
  log_at x start ss → (t < length ss)%nat → Q (ss !!! t) x → does (sector_at t) x Q C.
Proof.
  intros Hl Ht HQ. unfold sector_at. apply does_get_bind.
  assert (lg_sector (x_log x) !! t = Some (ss !!! t)) as ->; [|by apply does_ret].
  rewrite <-(lookup_take_lt _ (length ss)) by done. rewrite (la_sec _ _ _ Hl). by apply list_lookup_lookup_total_lt.
Qed.

(** The part [install_trans] and [write_log] share: two buffers, one for the log
    block and one for its home, the contents of [src] copied to [dst]. *)
Lemma log_pair_does t (m : nat → nat → M KX unit) x D P (Q : unit → ext → Prop) C :
  bstate x D P ∅ → log_at x start ss → geometry x start ss → (t < length ss)%nat →
  P !! log_key start t = None → (size P < NBUF)%nat →
  is_Some (P !! home (ss !!! t)) ∨ (size P + 1 < NBUF)%nat →
  (∀ y, stop → x_disk y = D → C y) →
  (∀ lb db y, lb ≠ db →
    bstate y D (delete (home (ss !!! t)) P)
      (<[db := taken D P (home (ss !!! t))]> (<[lb := Held (log_key start t) (default zero_block (D !! log_key start t)) false]> ∅)) →
    bio_only x y → does (m lb db) y Q C) →
  does (dev ← log_get lg_dev; st ← log_get lg_start;
        lbuf ← bread swtch iderw fuel (u32 dev) (u32 (st + Z.of_nat t + 1));
        s ← sector_at t; dbuf ← bread swtch iderw fuel (u32 dev) (u32 s); m lbuf dbuf) x Q C.
Proof.
  intros Hs Hl Hg Ht HPl Hroom Hhome HC Hm. apply does_get_bind, does_get_bind.
  rewrite (la_dev _ _ _ Hl), (la_start _ _ _ Hl). change (u32 ROOTDEV) with ROOTDEV.
  pose proof (log_on_disk x t Hg Ht) as Hon. pose proof (home_on_disk x t Hg Ht) as Hon'.
  rewrite u32_id by (destruct Hon as (_ & ? & ?); lia).
  eapply does_bind.
  { eapply does_mono; [eapply (bread_does swtch iderw fuel _ _ x D P ∅ Hs Hon)|intros b y Hy; exact Hy|].
    - intros i h. by rewrite lookup_empty.
    - right. rewrite map_size_empty. lia.
    - intros y [Hst Hd]. by apply HC. }
  intros lb y (_ & Hy & Hio). fold (log_key start t) in Hy. rewrite delete_id in Hy by done.
  assert (taken D P (log_key start t) = Held (log_key start t) (default zero_block (D !! log_key start t)) false) as Htk.
  { unfold taken, contents. rewrite HPl. by rewrite bool_decide_eq_false_2 by (by intros [? ?]). }
  rewrite Htk in Hy. eapply does_bind.
  { apply (sector_at_does t y (λ s z, s = ss !!! t ∧ z = y)); [by eapply log_at_bio|done|done]. }
  intros ? ? [-> ->]. rewrite (u32_id (ss !!! t)) by (destruct Hon' as (_ & ? & ?); lia).
  eapply does_bind.
  { eapply does_mono; [eapply (bread_does swtch iderw fuel _ _ y D P _ Hy)|intros b z Hz; exact Hz|].
    - by eapply bio_only_on_disk.
    - intros i h [[_ <-]|[_ Hi]]%lookup_insert_Some; [|by rewrite lookup_empty in Hi]. simpl.
      intros He. by apply (home_not_log x t t Hg Ht).
    - rewrite insert_empty, map_size_singleton. destruct Hhome; [by left|right; lia].
    - intros z [Hst Hd]. by apply HC. }
  intros db z (Hdb & Hz & Hio'). apply Hm; [|exact Hz|by eapply bio_only_trans].
  intros ->. by rewrite lookup_insert_eq in Hdb.
Qed.

(** Storing new data in a held buffer. *)
Lemma put_data_does b d (k : M KX unit) x D P H h Q C :
  bstate x D P H → H !! b = Some h →
  (∀ y, bstate y D P (<[b := Held (h_key h) d (h_dirty h)]> H) → bio_only x y → does k y Q C) →
  does (upd_buf b (set_b_data d) ;; k) x Q C.
Proof.
  intros Hs Hh Hk. apply does_upd_bind. apply Hk; [|apply bio_only_with].
  by apply (bstate_map_data x D P H b h (λ _, d)).
Qed.

(** Writing one held buffer through and releasing both. *)
Lemma write_release_does b1 b2 x D P key1 d1 key2 d2 dirty2 dirty1 (Q : unit → ext → Prop) C :
  b1 ≠ b2 → key1 ≠ key2 → on_disk x key1.1 key1.2 →
  bstate x D P (<[b1 := Held key1 d1 dirty1]> (<[b2 := Held key2 d2 dirty2]> ∅)) →
  dirty2 = true ∨ d2 = default zero_block (D !! key2) →
  (∀ y, stop → x_disk y = D → C y) →
  (∀ y, bstate y (<[key1 := d1]> D) (if dirty2 then <[key2 := d2]> P else P) ∅ → bio_only x y → Q tt y) →
  does (bwrite iderw b1 ;; brelse flag b2 ;; brelse flag b1) x Q C.
Proof.
  intros Hne Hk Ho Hs Hcase HC HQ. eapply does_bind.
  { eapply does_mono; [eapply (bwrite_does iderw b1 x D P _ _ Hs (lookup_insert_eq _ _ _) Ho)|intros ? y Hy; exact Hy|].
    intros y [Hst Hd]. by apply HC. }
  intros _ y [Hy Hio]. cbn [h_key h_data] in Hy. rewrite insert_insert_eq, insert_insert_ne in Hy by done.
  eapply does_bind.
  { eapply (brelse_does flag b2 y _ _ _ _ C Hy (lookup_insert_eq _ _ _)). cbn [h_dirty h_key h_data].
    by rewrite lookup_insert_ne. }
  intros _ z [Hz Hio2]. rewrite delete_insert_id in Hz by (by rewrite lookup_insert_ne, lookup_empty).
  eapply does_mono; [eapply (brelse_does flag b1 z _ _ _ _ C Hz (lookup_insert_eq _ _ _))|..]; [| |done].
  { right. cbn [h_key h_data]. by rewrite lookup_insert_eq. }
  intros [] w [Hw Hio3]. cbn [h_dirty] in Hw. rewrite delete_insert_id in Hw by apply lookup_empty.
  apply HQ; [done|]. eapply bio_only_trans; [exact Hio|]. by eapply bio_only_trans.
Qed.

Lemma install_block_does t x D P :
  bstate x D P ∅ → log_at x start ss → geometry x start ss → (t < length ss)%nat →
  P !! log_key start t = None → (size P < NBUF)%nat →
  is_Some (P !! home (ss !!! t)) ∨ (size P + 1 < NBUF)%nat →
  does (install_block flag swtch iderw fuel t) x
    (λ _ y, bstate y (<[home (ss !!! t) := default zero_block (D !! log_key start t)]> D)
      (delete (home (ss !!! t)) P) ∅ ∧ bio_only x y)
    (λ y, stop ∧ x_disk y = D).
Proof.
  intros Hs Hl Hg Ht HPl Hroom Hhome. unfold install_block.
  apply (log_pair_does t _ x D P); try done. intros lb db y Hne Hy Hio. apply does_get_bind.
  pose proof (home_not_log x t t Hg Ht) as Hkeys.
  assert (b_data (buf_at y lb) = default zero_block (D !! log_key start t)) as ->.
  { eapply (held_data y _ _ _ lb (Held _ _ _) Hy). rewrite lookup_insert_ne by done. apply lookup_insert_eq. }
  eapply put_data_does; [exact Hy|apply lookup_insert_eq|]. intros z Hz Hio2. cbn [h_key h_dirty taken] in Hz.
  rewrite insert_insert_eq in Hz.
  eapply (write_release_does db lb z D _ (home (ss !!! t)) _ (log_key start t)); [done|done| |exact Hz|by right|done|].
  - apply (bio_only_on_disk x); [by eapply bio_only_trans|]. by apply home_on_disk.
  - intros w Hw Hio3. split; [done|]. eapply bio_only_trans; [exact Hio|]. by eapply bio_only_trans.
Qed.

Lemma write_log_block_does t x D P :
  bstate x D P ∅ → log_at x start ss → geometry x start ss → (t < length ss)%nat →
  P !! log_key start t = None → (size P < NBUF)%nat → is_Some (P !! home (ss !!! t)) →
  does (write_log_block flag swtch iderw fuel t) x
    (λ _ y, bstate y (<[log_key start t := contents D P (home (ss !!! t))]> D) P ∅ ∧ bio_only x y)
    (λ y, stop ∧ x_disk y = D).
Proof.
  intros Hs Hl Hg Ht HPl Hroom [d Hd]. unfold write_log_block.
  apply (log_pair_does t _ x D P); try done; [by left|]. intros lb db y Hne Hy Hio. apply does_get_bind.
  pose proof (home_not_log x t t Hg Ht) as Hkeys.
  assert (taken D P (home (ss !!! t)) = Held (home (ss !!! t)) d true) as Htk.
  { unfold taken, contents. rewrite Hd. by rewrite bool_decide_eq_true_2. }
  rewrite Htk in Hy. assert (contents D P (home (ss !!! t)) = d) as -> by (unfold contents; by rewrite Hd).
  assert (b_data (buf_at y db) = d) as ->.
  { eapply (held_data y _ _ _ db (Held _ _ _) Hy). apply lookup_insert_eq. }
  rewrite insert_insert_ne in Hy by done.
  eapply put_data_does; [exact Hy|apply lookup_insert_eq|]. intros z Hz Hio2. cbn [h_key h_dirty] in Hz.
  rewrite insert_insert_eq in Hz.
  eapply (write_release_does lb db z D _ (log_key start t) _ (home (ss !!! t))); [done|done| |exact Hz|by left|done|].
  - apply (bio_only_on_disk x); [by eapply bio_only_trans|]. by apply log_on_disk.
  - intros w Hw Hio3. rewrite insert_delete_id in Hw by done. split; [done|].
    eapply bio_only_trans; [exact Hio|]. by eapply bio_only_trans.
Qed.

Lemma install_loop_does n x D P :
  bstate x D P ∅ → log_at x start ss → geometry x start ss → pins_ok start ss P → n = length ss →
  does (for_each (install_block flag swtch iderw fuel) (seq 0 n)) x
    (λ _ y, bstate y (installed start ss D n) (unpinned ss P n) ∅ ∧ bio_only x y)
    (λ y, stop ∧ ∃ t, (t <= n)%nat ∧ x_disk y = installed start ss D t).
Proof.
  intros Hs Hl Hg Hp ->.
  apply (does_for_each_seq _ (λ t y, bstate y (installed start ss D t) (unpinned ss P t) ∅ ∧ bio_only x y));
    [|split; [done|apply bio_only_refl]].
  intros t y Ht [Hy Hio]. pose proof (unpinned_size ss P t) as Hsz. destruct Hp as [P1 P2 P3].
  eapply does_mono; [apply install_block_does; [exact Hy|by eapply log_at_bio|by eapply geometry_bio|lia|..]|..].
  - rewrite unpinned_lookup, P1 by lia. by case_decide.
  - lia.
  - destruct P3 as [->|[Hnd Hin]].
    + right. rewrite map_size_empty in Hsz. unfold NBUF. lia.
    + left. rewrite unpinned_lookup by lia. rewrite decide_False; [apply Hin, list_elem_of_lookup_total_2; lia|].
      intros (s & [= Hs'] & Hin')%list_elem_of_fmap. apply list_elem_of_lookup in Hin' as (j & Hj).
      apply lookup_take_Some in Hj as [Hj Hjt]. rewrite NoDup_alt in Hnd.
      pose proof (list_lookup_lookup_total_lt ss t ltac:(lia)) as Hlt. rewrite Hs' in Hlt.
      specialize (Hnd _ _ _ Hj Hlt). lia.
  - intros [] z [Hz Hio2]. rewrite installed_S, unpinned_S. split; [done|]. by eapply bio_only_trans.
  - intros z [Hst Hd]. split; [done|]. exists t. split; [lia|done].
Qed.

Lemma write_log_loop_does n x D P :
  bstate x D P ∅ → log_at x start ss → geometry x start ss → pins_ok start ss P →
  (∀ s, s ∈ ss → is_Some (P !! home s)) → n = length ss →
  does (for_each (write_log_block flag swtch iderw fuel) (seq 0 n)) x
    (λ _ y, bstate y (logged start ss P D n) P ∅ ∧ bio_only x y)
    (λ y, stop ∧ ∃ t, (t <= n)%nat ∧ x_disk y = logged start ss P D t).
Proof.
  intros Hs Hl Hg [P1 P2 _] Hin ->.
  apply (does_for_each_seq _ (λ t y, bstate y (logged start ss P D t) P ∅ ∧ bio_only x y));
    [|split; [done|apply bio_only_refl]].
  intros t y Ht [Hy Hio].
  eapply does_mono; [apply write_log_block_does; [exact Hy|by eapply log_at_bio|by eapply geometry_bio|lia|..]|..].
  - apply P1.
  - done.
  - apply Hin, list_elem_of_lookup_total_2. lia.
  - intros [] z [Hz Hio2]. rewrite logged_S. split; [done|]. by eapply bio_only_trans.
  - intros z [Hst Hd]. split; [done|]. exists t. split; [lia|done].
Qed.

(** ** The header *)

Definition head_data D : list Z := default zero_block (D !! home start).

Lemma start_on_disk x : geometry x start ss → on_disk x ROOTDEV start.
Proof. intros [H1 H2 H3 _]. split; [done|]. lia. Qed.

(** Taking the header block when no other buffer is held. *)
Lemma head_taken_does (m : nat → M KX unit) x D P (Q : unit → ext → Prop) C :
  bstate x D P ∅ → lg_dev (x_log x) = ROOTDEV → lg_start (x_log x) = start → on_disk x ROOTDEV start →
  P !! home start = None → (size P < NBUF)%nat → (∀ y, stop → x_disk y = D → C y) →
  (∀ b y, bstate y D P {[b := Held (home start) (head_data D) false]} → bio_only x y → does (m b) y Q C) →
  does (dev ← log_get lg_dev; st ← log_get lg_start; b ← bread swtch iderw fuel (u32 dev) (u32 st); m b) x Q C.
Proof.
  intros Hs Hdev Hst Hon HP Hroom HC Hm. apply does_get_bind, does_get_bind. rewrite Hdev, Hst.
  change (u32 ROOTDEV) with ROOTDEV. rewrite u32_id by (destruct Hon as (_ & ? & ?); lia).
  eapply does_bind.
  { eapply does_mono; [eapply (bread_does swtch iderw fuel _ _ x D P ∅ Hs Hon)|intros b y Hy; exact Hy|].
    - intros i h. by rewrite lookup_empty.
    - right. rewrite map_size_empty. lia.
    - intros y [? ?]. by apply HC. }
  intros b y (_ & Hy & Hio). fold (home start) in Hy. rewrite delete_id in Hy by done. apply Hm; [|done].
  replace (Held (home start) (head_data D) false) with (taken D P (home start)); [done|].
  unfold taken, contents. rewrite HP. by rewrite bool_decide_eq_false_2 by (by intros [? ?]).
Qed.

Lemma write_head_does x D P :
  bstate x D P ∅ → log_at x start ss → geometry x start ss → P !! home start = None → (size P < NBUF)%nat →
  does (write_head flag swtch iderw fuel) x
    (λ _ y, bstate y (<[home start := head_block ss (head_data D) (length ss)]> D) P ∅ ∧ bio_only x y)
    (λ y, stop ∧ x_disk y = D).
Proof.
  intros Hs Hl Hg HP Hroom. unfold write_head.
  apply (head_taken_does _ x D P); [done|apply Hl|apply Hl|by apply start_on_disk|done..|].
  intros b y Hy Hio. apply does_get_bind.
  assert (log_at y start ss) as Hly by (by eapply log_at_bio). rewrite (la_n _ _ _ Hly).
  apply does_upd_bind. set (y1 := with_buf _ _ y).
  assert (bstate y1 D P {[b := Held (home start) (head_block ss (head_data D) 0) false]} ∧ bio_only x y1) as [Hy1 Hio1].
  { split; [|eapply bio_only_trans; [exact Hio|apply bio_only_with]].
    pose proof (bstate_map_data y D P _ b _ (put_block_word 0 (Z.of_nat (length ss))) Hy (lookup_singleton_eq _ _)) as He.
    by rewrite insert_singleton_eq in He. }
  clearbody y1. rewrite Nat2Z.id. eapply does_bind.
  { apply (does_for_each_seq _ (λ t z, bstate z D P {[b := Held (home start) (head_block ss (head_data D) t) false]} ∧ bio_only x z));
      [|done]. intros t z Ht [Hz Hioz].
    eapply does_bind; [apply (sector_at_does t z (λ s w, s = ss !!! t ∧ w = z)); [by eapply log_at_bio|lia|done]|].
    intros ? ? [-> ->]. apply does_upd. split; [|eapply bio_only_trans; [exact Hioz|apply bio_only_with]].
    pose proof (bstate_map_data z D P _ b _ (put_block_word (S t) (ss !!! t)) Hz (lookup_singleton_eq _ _)) as He.
    rewrite insert_singleton_eq in He. unfold head_block. by rewrite seq_S, foldl_app. }
  intros [] z [Hz Hioz]. cbn [Nat.add] in Hz. eapply does_bind.
  { eapply does_mono; [eapply (bwrite_does iderw b z D P _ _ Hz (lookup_singleton_eq _ _))|intros ? w Hw; exact Hw|done].
    apply (bio_only_on_disk x); [done|by apply start_on_disk]. }
  intros _ w [Hw Hiow]. cbn [h_key h_data] in Hw. rewrite insert_singleton_eq in Hw.
  eapply does_mono; [eapply (brelse_does flag b w _ _ _ _ (λ v, stop ∧ x_disk v = D) Hw (lookup_singleton_eq _ _))|..|done].
  { right. cbn [h_key h_data]. by rewrite lookup_insert_eq. }
  intros [] v [Hv Hiov]. rewrite delete_singleton_eq in Hv. split; [done|].
  eapply bio_only_trans; [exact Hioz|]. by eapply bio_only_trans.
Qed.

Lemma read_head_does x D :
  let d := head_data D in
  bstate x D ∅ ∅ → lg_dev (x_log x) = ROOTDEV → lg_start (x_log x) = start → on_disk x ROOTDEV start →
  length (lg_sector (x_log x)) = Z.to_nat LOGSIZE → 0 <= s32 (block_word d 0) <= LOGSIZE →
  does (read_head flag swtch iderw fuel) x
    (λ _ y, bstate y D ∅ ∅ ∧ log_at y start (head_list d) ∧ fs_only x y) (λ y, stop ∧ x_disk y = D).
Proof.
  intros d Hs Hdev Hst Hon Hlen Hn. unfold read_head.
  apply (head_taken_does _ x D ∅); [done..|by unfold NBUF; rewrite map_size_empty; lia|done|].
  intros b y Hy Hio. apply does_get_bind. rewrite (held_data _ _ _ _ _ _ Hy (lookup_singleton_eq _ _)). cbn [h_data]. fold d.
  set (n := Z.to_nat (s32 (block_word d 0))). assert (s32 (block_word d 0) = Z.of_nat n) as Hnn by lia.
  assert (n <= Z.to_nat LOGSIZE)%nat as Hn30 by lia. rewrite Hnn. apply does_upd_bind. set (y1 := set_x_log _ y).
  pose proof (bio_only_log _ _ Hio) as Hlog.
  set (h := Held (home start) (head_data D) false) in *.
  set (I := λ (t : nat) z, bstate z D ∅ {[b := h]} ∧ fs_only x z ∧
    lg_dev (x_log z) = ROOTDEV ∧ lg_start (x_log z) = start ∧ lg_n (x_log z) = Z.of_nat n ∧
    length (lg_sector (x_log z)) = Z.to_nat LOGSIZE ∧ ∀ i, (i < t)%nat → lg_sector (x_log z) !! i = Some (s32 (block_word d (S i)))).
  eapply (does_bind _ _ _ (λ _ z, I n z)).
  { apply (does_for_each_seq _ I).
    2:{ unfold I, y1. simpl. rewrite Hlog. split_and!; try done; [by apply bstate_log| |by intros; lia].
        eapply fs_only_trans; [by apply fs_only_bio|apply fs_only_log]. }
    intros t z Ht (Hz & Hf & L1 & L2 & L3 & L4 & L5). apply does_get_bind.
    rewrite (held_data _ _ _ _ _ _ Hz (lookup_singleton_eq _ _)). cbn [h_data h]. fold d. unfold set_sector. apply does_get_bind.
    rewrite decide_True by lia. apply does_upd. unfold I. simpl. split_and!; try done.
    - by apply bstate_log.
    - eapply fs_only_trans; [exact Hf|apply fs_only_log].
    - by rewrite length_insert.
    - intros i Hi. destruct (decide (i = t)) as [->|Hne]; [by rewrite list_lookup_insert_eq by lia|].
      rewrite list_lookup_insert_ne by done. apply L5. lia. }
  intros [] z (Hz & Hf & L1 & L2 & L3 & L4 & L5).
  eapply does_mono; [eapply (brelse_does flag b z _ _ _ _ (λ v, stop ∧ x_disk v = D) Hz (lookup_singleton_eq _ _)); by right|..|done].
  intros [] w [Hw Hiow]. cbn [h_dirty h] in Hw. rewrite delete_singleton_eq in Hw. split; [done|].
  assert (length (head_list d) = n) as Hhl by (unfold head_list; rewrite length_fmap, length_seq; lia).
  split; [|eapply fs_only_trans; [exact Hf|by apply fs_only_bio]].
  rewrite <-(bio_only_log _ _ Hiow) in L1, L2, L3, L4, L5.
  split; rewrite ?Hhl; try done. apply list_eq. intros i. destruct (decide (i < n)%nat) as [Hi|Hi].
  - rewrite lookup_take_lt, L5 by done. unfold head_list. rewrite list_lookup_fmap. fold n. by rewrite lookup_seq_lt.
  - rewrite (lookup_ge_None_2 (head_list d)) by lia. apply lookup_ge_None_2. rewrite length_take. lia.
Qed.
End log_ops.

(** ** What is on the disk

    [same_home]: two disks agree but for the log.  [recover_disk]: the disk that
    recovery makes of a disk. *)

Definition same_home (start : Z) (D D' : blocks) : Prop :=
  ∀ key, key.1 ≠ ROOTDEV ∨ key.2 < start → default zero_block (D !! key) = default zero_block (D' !! key).

Definition disk_head (start : Z) (D : blocks) : list Z := head_list (head_data start D).

Definition clear_head (start : Z) (D : blocks) : blocks :=
  <[home start := head_block [] (head_data start D) 0]> D.
Definition commit_head (start : Z) (ss : list Z) (D : blocks) : blocks :=
  <[home start := head_block ss (head_data start D) (length ss)]> D.

Definition recover_disk (start : Z) (D : blocks) : blocks :=
  let ss := disk_head start D in clear_head start (installed start ss D (length ss)).

Section disks.
Context (start : Z) (ss : list Z).
Hypothesis (Hnd : NoDup ss) (Hhome : Forall (λ s, 0 <= s < start) ss).
Implicit Types (D P : blocks) (key : Z * Z) (t n : nat).

Lemma ss_range t : (t < length ss)%nat → 0 <= ss !!! t < start.
Proof.
  intros Ht. rewrite Forall_lookup in Hhome. destruct (lookup_lt_is_Some_2 ss t Ht) as [s Hs].
  rewrite (list_lookup_total_correct _ _ _ Hs). by apply (Hhome t).
Qed.

Lemma installed_other D n key :
  (n <= length ss)%nat → key ∉ home <$> ss → installed start ss D n !! key = D !! key.
Proof.
  intros Hn Hk. induction n as [|n IH]; [done|]. rewrite installed_S, lookup_insert_ne; [apply IH; lia|].
  intros <-. apply Hk. apply list_elem_of_fmap_2, list_elem_of_lookup_total_2. lia.
Qed.

Lemma not_home_high key : start <= key.2 → key ∉ home <$> ss.
Proof.
  intros Hk (s & -> & Hs)%list_elem_of_fmap. rewrite Forall_forall in Hhome. specialize (Hhome _ Hs). simpl in *. lia.
Qed.

Lemma installed_log D n t : (n <= length ss)%nat → installed start ss D n !! log_key start t = D !! log_key start t.
Proof. intros Hn. apply installed_other; [done|]. apply not_home_high. simpl. lia. Qed.

Lemma installed_home D n t :
  (t < n)%nat → (n <= length ss)%nat →
  installed start ss D n !! home (ss !!! t) = Some (default zero_block (D !! log_key start t)).
Proof.
  intros Ht Hn. induction n as [|n IH]; [lia|]. rewrite installed_S.
  destruct (decide (t = n)) as [->|Hne].
  - by rewrite lookup_insert_eq, installed_log by lia.
  - rewrite lookup_insert_ne; [apply IH; lia|]. intros [= He].
    rewrite NoDup_alt in Hnd. apply Hne. symmetry. apply (Hnd n t (ss !!! n)).
    + apply list_lookup_lookup_total_lt. lia.
    + rewrite He. apply list_lookup_lookup_total_lt. lia.
Qed.

Lemma logged_other P D n key : (∀ t, key ≠ log_key start t) → logged start ss P D n !! key = D !! key.
Proof. intros Hk. induction n as [|n IH]; [done|]. by rewrite logged_S, lookup_insert_ne. Qed.

Lemma logged_log P D n t :
  (t < n)%nat → (n <= length ss)%nat →
  logged start ss P D n !! log_key start t = Some (contents D P (home (ss !!! t))).
Proof.
  intros Ht Hn. induction n as [|n IH]; [lia|]. rewrite logged_S. destruct (decide (t = n)) as [->|Hne].
  - rewrite lookup_insert_eq. f_equal. unfold contents. rewrite logged_other; [done|].
    intros t' [= He]. pose proof (ss_range n ltac:(lia)). lia.
  - rewrite lookup_insert_ne; [apply IH; lia|]. intros [= He]. lia.
Qed.

(** [P] has exactly the blocks of [ss]. *)
Definition pins_exactly P : Prop := ∀ key, is_Some (P !! key) ↔ key ∈ home <$> ss.

Definition low key : Prop := key.1 ≠ ROOTDEV ∨ key.2 < start.

Lemma low_not_log key t : low key → key ≠ log_key start t.
Proof. intros [Hd|Hs] ->; simpl in *; [done|lia]. Qed.
Lemma low_not_head key : low key → key ≠ home start.
Proof. intros [Hd|Hs] ->; simpl in *; [done|lia]. Qed.
Lemma head_not_log t : home start ≠ log_key start t.
Proof. unfold home, log_key. intros [= He]. lia. Qed.

(** A disk whose header is empty is recovered as it is. *)
Lemma recover_empty D : disk_head start D = [] → same_home start (recover_disk start D) D.
Proof.
  intros Hh key Hk. unfold recover_disk. rewrite Hh. unfold clear_head, installed. simpl.
  by rewrite lookup_insert_ne by (symmetry; by apply low_not_head).
Qed.

(** A disk with a committed header is recovered to the new contents. *)
Lemma recover_committed P D D' :
  pins_exactly P → disk_head start D' = ss →
  (∀ t, (t < length ss)%nat → D' !! log_key start t = Some (contents D P (home (ss !!! t)))) →
  (∀ key, low key → key ∉ home <$> ss → D' !! key = D !! key) →
  same_home start (recover_disk start D') (P ∪ D).
Proof.
  intros HP Hh Hlog Hoth key Hk. unfold recover_disk. rewrite Hh. unfold clear_head.
  rewrite lookup_insert_ne by (symmetry; by apply low_not_head).
  destruct (decide (key ∈ home <$> ss)) as [Hin|Hout].
  - pose proof (proj2 (HP key) Hin) as [d Hd]. rewrite (lookup_union_Some_l _ _ _ _ Hd).
    apply list_elem_of_fmap in Hin as (s & -> & (t & Ht)%list_elem_of_lookup).
    pose proof (lookup_lt_Some _ _ _ Ht) as Hlt. rewrite <-(list_lookup_total_correct _ _ _ Ht).
    rewrite installed_home by (done || lia). simpl. rewrite Hlog by done. simpl. unfold contents.
    rewrite (list_lookup_total_correct _ _ _ Ht). by rewrite Hd.
  - rewrite installed_other, Hoth by (done || lia). rewrite lookup_union_r; [done|].
    destruct (P !! key) eqn:Hp; [|done]. destruct Hout. apply HP. by rewrite Hp.
Qed.

(** The disks [commit] goes through. *)
Lemma logged_head P D n : disk_head start (logged start ss P D n) = disk_head start D.
Proof. unfold disk_head, head_data. by rewrite logged_other by (intros t; apply head_not_log). Qed.

Lemma installed_head D n : (n <= length ss)%nat → disk_head start (installed start ss D n) = disk_head start D.
Proof. intros Hn. unfold disk_head, head_data. by rewrite installed_other by (done || apply not_home_high; done). Qed.

Lemma committed_head D :
  length (head_data start D) = 512%nat → (length ss <= Z.to_nat LOGSIZE)%nat → start < 2 ^ 31 →
  disk_head start (commit_head start ss D) = ss.
Proof.
  intros Hl Hle Hs. unfold disk_head, commit_head, head_data at 1. rewrite lookup_insert_eq. simpl.
  apply head_list_block; [done|done|]. eapply Forall_impl; [exact Hhome|]. simpl. lia.
Qed.

Lemma cleared_head D : length (head_data start D) = 512%nat → disk_head start (clear_head start D) = [].
Proof.
  intros Hl. unfold disk_head, clear_head, head_data at 1. rewrite lookup_insert_eq. simpl.
  by apply (head_list_block [] _ Hl); [simpl; lia|constructor].
Qed.

(** Writing the header is the commit point: before it recovery gives the old
    disk, after it, at any moment of the installation, the new one. *)
Lemma recover_logged P D n :
  disk_head start D = [] → same_home start (recover_disk start (logged start ss P D n)) D.
Proof.
  intros Hh key Hk. rewrite recover_empty by (by rewrite logged_head || done).
  by rewrite logged_other by (intros t; by apply low_not_log).
Qed.

Lemma recover_installed P D n :
  pins_exactly P → length (head_data start D) = 512%nat → (length ss <= Z.to_nat LOGSIZE)%nat → start < 2 ^ 31 →
  (n <= length ss)%nat →
  same_home start
    (recover_disk start (installed start ss (commit_head start ss (logged start ss P D (length ss))) n)) (P ∪ D).
Proof.
  intros HP Hl Hle Hs Hn. set (D2 := commit_head start ss (logged start ss P D (length ss))).
  assert (head_data start (logged start ss P D (length ss)) = head_data start D) as Hhd.
  { unfold head_data. by rewrite logged_other by (intros t; apply head_not_log). }
  assert (∀ key, low key → D2 !! key = D !! key) as HD2.
  { intros key Hk. unfold D2, commit_head. rewrite lookup_insert_ne by (symmetry; by apply low_not_head).
    apply logged_other. intros t. by apply low_not_log. }
  apply recover_committed; [done| | |].
  - rewrite installed_head by done. apply committed_head; [by rewrite Hhd|done..].
  - intros t Ht. rewrite installed_log by done. unfold D2, commit_head.
    rewrite lookup_insert_ne by apply head_not_log. by apply logged_log.
  - intros key Hk Hout. rewrite installed_other by done. by apply HD2.
Qed.
End disks.

(** ** Commit and recovery *)

Section commit_setup.
Context (flag : schedflag) (swtch : M KX unit) (iderw : nat → M KX unit) (fuel : nat).
Context {stop : Prop} {DK : DiskOk iderw stop}.
Context (start : Z).
Implicit Types (x y : ext) (D P : blocks) (ss : list Z).

Lemma geometry_nil x ss : geometry x start ss → geometry x start [].
Proof. intros [H1 H2 H3 H4]. split; [done|simpl; lia|done|constructor]. Qed.

Lemma geometry_fs x y ss : fs_only x y → geometry x start ss → geometry y start ss.
Proof. intros -> []. by split. Qed.

(** [log.lh.n = 0; write_head();] *)
Lemma clear_log_does x D P ss :
  bstate x D P ∅ → log_at x start ss → geometry x start ss → P !! home start = None → (size P < NBUF)%nat →
  does (log_upd (set_lg_n 0) ;; write_head flag swtch iderw fuel) x
    (λ _ y, bstate y (clear_head start D) P ∅ ∧ log_at y start [] ∧ fs_only x y) (λ y, stop ∧ x_disk y = D).
Proof.
  intros Hs [L1 L2 L3 L4 L5 L6] Hg HP Hroom. apply does_upd_bind. set (y := set_x_log _ x).
  assert (log_at y start []) as Hly by (split; simpl; try done; lia).
  eapply does_mono; [eapply (write_head_does flag swtch iderw fuel start [] y D P)|..].
  - by apply bstate_log.
  - done.
  - eapply geometry_nil, geometry_fs; [apply fs_only_log|done].
  - done.
  - done.
  - intros [] z [Hz Hio]. split; [done|]. split; [by eapply log_at_bio|].
    eapply fs_only_trans; [apply fs_only_log|by apply fs_only_bio].
  - done.
Qed.

Lemma install_trans_does x D P ss :
  bstate x D P ∅ → log_at x start ss → geometry x start ss → pins_ok start ss P →
  does (install_trans flag swtch iderw fuel) x
    (λ _ y, bstate y (installed start ss D (length ss)) (unpinned ss P (length ss)) ∅ ∧ bio_only x y)
    (λ y, stop ∧ ∃ t, (t <= length ss)%nat ∧ x_disk y = installed start ss D t).
Proof.
  intros Hs Hl Hg Hp. unfold install_trans. apply does_get_bind. rewrite (la_n _ _ _ Hl), Nat2Z.id.
  by apply install_loop_does.
Qed.

Lemma pins_ok_empty ss : pins_ok start ss ∅.
Proof. split; [done|unfold NBUF; rewrite map_size_empty; lia|by left]. Qed.

Lemma unpinned_empty ss n : unpinned ss ∅ n = ∅.
Proof. induction n as [|n IH]; [done|]. by rewrite unpinned_S, IH, delete_empty. Qed.

(** Recovery, when the header on the disk is one this log can have written. *)
Record head_ok x D : Prop := {
  ho_n : 0 <= s32 (block_word (head_data start D) 0) <= LOGSIZE;
  ho_geometry : geometry x start (disk_head start D)
}.

Lemma recover_does x D :
  bstate x D ∅ ∅ → lg_dev (x_log x) = ROOTDEV → lg_start (x_log x) = start →
  length (lg_sector (x_log x)) = Z.to_nat LOGSIZE → head_ok x D →
  does (recover_from_log flag swtch iderw fuel) x
    (λ _ y, bstate y (recover_disk start D) ∅ ∅ ∧ log_at y start [] ∧ fs_only x y)
    (λ y, stop ∧ ∃ t, (t <= length (disk_head start D))%nat ∧ x_disk y = installed start (disk_head start D) D t).
Proof.
  intros Hs Hdev Hst Hlen [Hn Hg]. unfold recover_from_log. set (ss := disk_head start D) in *.
  eapply does_bind.
  { eapply does_mono; [apply (read_head_does flag swtch iderw fuel start x D)|intros ? y Hy; exact Hy|];
      [done..|by eapply start_on_disk|done|done|]. intros y [Hstop Hd]. split; [done|]. exists O. split; [lia|done]. }
  intros [] y (Hy & Hly & Hfy). eapply does_bind.
  { apply (install_trans_does y D ∅ ss); [done|done|by eapply geometry_fs|apply pins_ok_empty]. }
  intros [] z [Hz Hio]. rewrite unpinned_empty in Hz.
  eapply does_mono; [apply (clear_log_does z _ ∅ ss Hz)|..].
  - by eapply log_at_bio.
  - eapply geometry_bio; [done|]. by eapply geometry_fs.
  - done.
  - unfold NBUF. rewrite map_size_empty. lia.
  - intros [] w (Hw & Hlw & Hfw). split; [done|]. split; [done|].
    eapply fs_only_trans; [exact Hfy|]. eapply fs_only_trans; [by apply fs_only_bio|done].
  - intros w [Hstop Hd]. split; [done|]. exists (length ss). split; [lia|done].
Qed.

End commit_setup.

(** The start of the log according to the superblock on the disk. *)
Definition sb_of (d : list Z) : superblock :=
  SuperBlock (block_word d 0) (block_word d 1) (block_word d 2) (block_word d 3).
Definition disk_start (D : blocks) : Z :=
  let sb := sb_of (default zero_block (D !! home 1)) in s32 (sb_size sb - sb_nlog sb).

Lemma initlog_does (flag : schedflag) swtch iderw `{!DiskOk iderw stop} fuel x D :
  bstate x D ∅ ∅ → on_disk x ROOTDEV 1 → length (lg_sector (x_log x)) = Z.to_nat LOGSIZE →
  head_ok (disk_start D) x D →
  does (initlog flag swtch iderw fuel) x
    (λ _ y, bstate y (recover_disk (disk_start D) D) ∅ ∅ ∧ log_at y (disk_start D) [] ∧ fs_only x y)
    (λ y, stop ∧ ∃ t, (t <= length (disk_head (disk_start D) D))%nat ∧
      x_disk y = installed (disk_start D) (disk_head (disk_start D) D) D t).
Proof.
  intros Hs Hon Hlen Hh. unfold initlog. rewrite decide_False by (unfold SIZEOF_LOGHEADER, LOGSIZE, BSIZE, MAXOPBLOCKS; lia).
  eapply (does_bind _ _ _ (λ _ y, y = x)); [apply does_initlock; [unfold fs_locks; set_solver|done]|].
  intros [] ? ->. eapply does_bind.
  { eapply does_mono; [apply (peek_does flag swtch iderw fuel ROOTDEV 1 sb_of x D ∅ ∅ Hs Hon)|intros ? y Hy; exact Hy|].
    - by intros i h ?.
    - right. unfold NBUF. rewrite !map_size_empty. lia.
    - intros y [Hst Hd]. split; [done|]. exists O. split; [lia|done]. }
  intros sb y (-> & Hy & Hio). unfold contents. rewrite lookup_empty. change (ROOTDEV, 1) with (home 1).
  do 3 apply does_upd_bind. set (z := set_x_log _ _). pose proof (bio_only_log _ _ Hio) as Hlog.
  assert (fs_only x z) as Hxz by (eapply fs_only_trans; [by apply fs_only_bio|]; by destruct y).
  eapply does_mono; [apply (recover_does flag swtch iderw fuel (disk_start D) z D)|..].
  - by apply (bstate_log _ y).
  - done.
  - done.
  - simpl. by rewrite Hlog.
  - destruct Hh as [Hn Hg]. split; [done|]. by eapply geometry_fs.
  - intros [] w (Hw & Hl & Hf). split; [done|]. split; [done|]. by eapply fs_only_trans.
  - done.
Qed.

Section commit_run.
Context (flag : schedflag) (swtch : M KX unit) (iderw : nat → M KX unit) (fuel : nat).
Context {stop : Prop} {DK : DiskOk iderw stop}.
Context (start : Z).
Implicit Types (x y : ext) (D P : blocks) (ss : list Z).

(** The disks at which [commit] can be interrupted. *)
Inductive commit_disk ss P D : blocks → Prop :=
  | cd_logging t : (t <= length ss)%nat → commit_disk ss P D (logged start ss P D t)
  | cd_installing t : (t <= length ss)%nat →
      commit_disk ss P D (installed start ss (commit_head start ss (logged start ss P D (length ss))) t).

Definition commit_end ss P D : blocks :=
  clear_head start (installed start ss (commit_head start ss (logged start ss P D (length ss))) (length ss)).

Lemma unpinned_all ss P : pins_exactly ss P → unpinned ss P (length ss) = ∅.
Proof.
  intros HP. apply map_eq. intros key. rewrite unpinned_lookup, lookup_empty by lia. rewrite take_ge by lia.
  case_decide as Hk; [done|]. destruct (P !! key) eqn:Hp; [|done]. destruct Hk. apply HP. by rewrite Hp.
Qed.

Lemma commit_does x D P ss :
  bstate x D P ∅ → log_at x start ss → geometry x start ss → NoDup ss → pins_exactly ss P → (size P < NBUF)%nat →
  ss ≠ [] →
  does (commit flag swtch iderw fuel) x
    (λ _ y, bstate y (commit_end ss P D) ∅ ∅ ∧ log_at y start [] ∧ fs_only x y)
    (λ y, stop ∧ commit_disk ss P D (x_disk y)).
Proof.
  intros Hs Hl Hg Hnd HP Hroom Hne.
  assert (∀ key, start <= key.2 → P !! key = None) as Hhigh.
  { intros key Hk. destruct (P !! key) eqn:Hp; [|done]. destruct (not_home_high start ss (ge_home _ _ _ Hg) key Hk).
    apply HP. by rewrite Hp. }
  assert (∀ s, s ∈ ss → is_Some (P !! home s)) as Hin by (intros s Hin; apply HP, list_elem_of_fmap_2, Hin).
  assert (pins_ok start ss P) as Hpins.
  { split; [|done|by right]. intros t. apply Hhigh. simpl. lia. }
  unfold commit. apply does_get_bind. rewrite (la_n _ _ _ Hl).
  rewrite bool_decide_eq_true_2 by (destruct ss; [done|simpl; lia]). cbn [when]. eapply does_bind.
  { unfold write_log. apply does_get_bind. rewrite (la_n _ _ _ Hl), Nat2Z.id.
    eapply does_mono; [by apply (write_log_loop_does flag swtch iderw fuel start ss _ x D P)|intros ? y Hy; exact Hy|].
    intros y (Hstop & t & Ht & Hd). split; [done|]. rewrite Hd. by constructor. }
  intros [] y [Hy Hio]. eapply does_bind.
  { eapply does_mono; [apply (write_head_does flag swtch iderw fuel start ss y _ P Hy)|intros ? z Hz; exact Hz|].
    - by eapply log_at_bio.
    - by eapply geometry_bio.
    - apply Hhigh. simpl. lia.
    - done.
    - intros z [Hstop Hd]. split; [done|]. rewrite Hd. by constructor. }
  intros [] z [Hz Hio2]. fold (commit_head start ss (logged start ss P D (length ss))) in Hz. eapply does_bind.
  { eapply does_mono; [apply (install_trans_does flag swtch iderw fuel start z _ P ss Hz)|intros ? w Hw; exact Hw|].
    - eapply log_at_bio; [done|]. by eapply log_at_bio.
    - eapply geometry_bio; [done|]. by eapply geometry_bio.
    - done.
    - intros w (Hstop & t & Ht & Hd). split; [done|]. rewrite Hd. by constructor. }
  intros [] w [Hw Hio3]. rewrite unpinned_all in Hw by done.
  assert (bio_only x w) as Hxw by (eapply bio_only_trans; [exact Hio|by eapply bio_only_trans]).
  eapply does_mono; [apply (clear_log_does flag swtch iderw fuel start w _ ∅ ss Hw)|..].
  - by eapply log_at_bio.
  - by eapply geometry_bio.
  - done.
  - unfold NBUF. rewrite map_size_empty. lia.
  - intros [] v (Hv & Hlv & Hfv). split; [done|]. split; [done|].
    eapply fs_only_trans; [by apply fs_only_bio|done].
  - intros v [Hstop Hd]. split; [done|]. rewrite Hd. by constructor.
Qed.
End commit_run.

(** ** The claims *)

(** A machine started on the disk [D] of [n] sectors, before [initlog]. *)
Definition reboot (n : Z) (D : blocks) : KX :=
  fs_boot (set_x_disk D (set_x_bufs empty_bufs (set_x_ide (Ide None 0 n) (ext0 (λ _, 0))))).

(** A transaction is ready to commit: the in-memory header lists the sectors [ss],
    once each, all before the log; exactly their blocks are dirty in the cache,
    with the contents [P]; the header on the disk [D] is clear; the superblock,
    which is not among [ss], says where the log is. *)
Record committable (k : KX) (start : Z) (ss : list Z) (D P : blocks) : Prop := {
  co_ok : fsok k;
  co_cache : bstate (k_ext k) D P ∅;
  co_log : log_at (k_ext k) start ss;
  co_geometry : geometry (k_ext k) start ss;
  co_nodup : NoDup ss;
  co_some : ss ≠ [];
  co_pins : pins_exactly ss P;
  co_room : (size P < NBUF)%nat;
  co_head : block_word (head_data start D) 0 = 0;
  co_size : length (head_data start D) = 512%nat;
  co_start : disk_start D = start;
  co_super : 1 < start ∧ 1 ∉ ss
}.

Section crash.
Context (flag : schedflag) (swtch : M KX unit) (fuel : nat).
Context (iderw : nat → M KX unit) {stop : Prop} {DK : DiskOk iderw stop}.
Context (iderw' : nat → M KX unit) {DK' : DiskOk iderw' False}.
Implicit Types (k : KX) (D P : blocks) (ss : list Z).

(** Started on the disk [D'] of [n] sectors, [initlog] returns with the home
    blocks of [D] on the disk. *)
Definition recovers (n start : Z) (D' D : blocks) : Prop :=
  ∃ k', initlog flag swtch iderw' fuel (reboot n D') = Ret tt k' ∧ same_home start (x_disk (k_ext k')) D.

Lemma recovers_intro n start D' D ss :
  disk_start D' = start → 1 < start → block_word (head_data start D') 0 = Z.of_nat (length ss) →
  (length ss <= Z.to_nat LOGSIZE)%nat → disk_head start D' = ss →
  Forall (λ s, 0 <= s < start) ss → start + Z.of_nat (length ss) < n → n < 2 ^ 31 →
  same_home start (recover_disk start D') D → recovers n start D' D.
Proof.
  intros <- H1 Hw Hl Hh Hss Hn1 Hn2 Hsame. unfold recovers. change (Z.to_nat LOGSIZE) with 30%nat in Hl.
  set (x := set_x_disk D' (set_x_bufs empty_bufs (set_x_ide (Ide None 0 n) (ext0 (λ _, 0))))).
  destruct (does_returns (initlog flag swtch iderw' fuel) (fs_boot x)
    (λ _ y, bstate y (recover_disk (disk_start D') D') ∅ ∅)) as ([] & k' & Hrun & _ & Hy).
  - apply fsok_boot.
  - eapply does_mono; [apply (initlog_does flag swtch iderw' fuel x D')|by intros ? ? [? _]|by intros ? [? _]].
    + by apply (empty_bufs_bstate x).
    + split; [done|]. change (ide_disksize (x_ide x)) with n. lia.
    + done.
    + split; [rewrite Hw, s32_id by lia; unfold LOGSIZE, MAXOPBLOCKS; lia|]. rewrite Hh.
      split; [lia|done..].
  - exists k'. split; [done|]. destruct Hy as (_ & -> & _). done.
Qed.

(** The blocks below the log, the superblock's among them, are not touched while
    the log is written. *)
Lemma commit_head_low start ss P D key :
  low start key → commit_head start ss (logged start ss P D (length ss)) !! key = D !! key.
Proof.
  intros Hk. unfold commit_head. rewrite lookup_insert_ne by (symmetry; by apply low_not_head).
  apply logged_other. intros t. by apply low_not_log.
Qed.

Lemma logged_head_data start ss P D n : head_data start (logged start ss P D n) = head_data start D.
Proof. unfold head_data. by rewrite logged_other by (intros t; apply head_not_log). Qed.

Lemma commit_head_data start ss P D :
  head_data start (commit_head start ss (logged start ss P D (length ss))) =
  head_block ss (head_data start D) (length ss).
Proof. unfold head_data at 1, commit_head. rewrite lookup_insert_eq. simpl. by rewrite logged_head_data. Qed.

Lemma disk_start_of D D' : D' !! home 1 = D !! home 1 → disk_start D' = disk_start D.
Proof. unfold disk_start. by intros ->. Qed.

(** Recovery from the disks of a commit. *)
Lemma logged_recovers k start ss D P t :
  committable k start ss D P → recovers (ide_disksize (x_ide (k_ext k))) start (logged start ss P D t) D.
Proof.
  intros [? ? ? [G1 G2 G3 G4] ? ? ? ? Hhd Hlen Hst [H1 ?]].
  apply (recovers_intro _ start _ D []).
  - rewrite (disk_start_of D); [done|]. apply logged_other. intros t'. apply low_not_log. right. simpl. lia.
  - done.
  - by rewrite logged_head_data, Hhd.
  - simpl. lia.
  - rewrite logged_head. unfold disk_head, head_list. by rewrite Hhd.
  - constructor.
  - simpl. lia.
  - done.
  - apply recover_logged. unfold disk_head, head_list. by rewrite Hhd.
Qed.

Lemma installed_recovers k start ss D P t :
  committable k start ss D P → (t <= length ss)%nat →
  recovers (ide_disksize (x_ide (k_ext k))) start
    (installed start ss (commit_head start ss (logged start ss P D (length ss))) t) (P ∪ D).
Proof.
  intros [? ? [L1 L2 L3 L4 L5 L6] [G1 G2 G3 G4] Hnd ? HP ? Hhd Hlen Hst [H1 Hsup]] Ht.
  set (D2 := commit_head start ss (logged start ss P D (length ss))).
  assert (head_data start (installed start ss D2 t) = head_block ss (head_data start D) (length ss)) as Hi.
  { rewrite <-(commit_head_data start ss P D). unfold head_data.
    rewrite installed_other; [done|done|]. by apply (not_home_high start). }
  apply (recovers_intro _ start _ _ ss).
  - rewrite (disk_start_of D); [done|]. rewrite installed_other; [|done|].
    + apply commit_head_low. right. simpl. lia.
    + intros (s & [= <-] & ?)%list_elem_of_fmap. done.
  - done.
  - rewrite Hi, head_block_word by (done || lia). by rewrite decide_True.
  - done.
  - unfold disk_head. rewrite Hi. apply head_list_block; [done..|]. eapply Forall_impl; [exact G4|]. simpl. lia.
  - done.
  - done.
  - done.
  - apply recover_installed; [done..|lia|done].
Qed.

Lemma recover_of_end start ss D P :
  NoDup ss → Forall (λ s, 0 <= s < start) ss → length (head_data start D) = 512%nat →
  (length ss <= Z.to_nat LOGSIZE)%nat → start < 2 ^ 31 →
  commit_end start ss P D = recover_disk start (commit_head start ss (logged start ss P D (length ss))).
Proof.
  intros Hnd Hss Hlen Hle Hs. unfold recover_disk. rewrite committed_head; [done|done| |done|done].
  by rewrite logged_head_data.
Qed.

Lemma ended_recovers k start ss D P :
  committable k start ss D P →
  recovers (ide_disksize (x_ide (k_ext k))) start (commit_end start ss P D) (P ∪ D) ∧
  same_home start (commit_end start ss P D) (P ∪ D).
Proof.
  intros [? ? [L1 L2 L3 L4 L5 L6] [G1 G2 G3 G4] Hnd ? HP ? Hhd Hlen Hst [H1 Hsup]].
  assert (same_home start (commit_end start ss P D) (P ∪ D)) as Hsame.
  { rewrite recover_of_end by (done || lia). apply (recover_installed start ss Hnd G4 P D 0); done || lia. }
  split; [|done]. set (D3 := installed start ss (commit_head start ss (logged start ss P D (length ss))) (length ss)).
  assert (head_data start D3 = head_block ss (head_data start D) (length ss)) as Hi.
  { rewrite <-(commit_head_data start ss P D). unfold head_data, D3.
    rewrite installed_other; [done|done|]. by apply (not_home_high start). }
  assert (disk_head start (clear_head start D3) = []) as Hcl.
  { apply cleared_head. by rewrite Hi, length_head_block. }
  apply (recovers_intro _ start _ _ []).
  - rewrite (disk_start_of D); [done|]. unfold commit_end, clear_head.
    rewrite lookup_insert_ne by (intros [= ?]; lia). rewrite installed_other; [|done|].
    + apply commit_head_low. right. simpl. lia.
    + intros (s & [= <-] & ?)%list_elem_of_fmap. done.
  - done.
  - unfold commit_end, clear_head, head_data at 1. rewrite lookup_insert_eq. cbn [default from_option id].
    fold D3. rewrite Hi, head_block_word; [done| |simpl; lia]. by rewrite length_head_block.
  - simpl. lia.
  - done.
  - constructor.
  - simpl. lia.
  - done.
  - intros key Hk. rewrite recover_empty by done. by apply Hsame.
Qed.

(** C2. A transaction is committed atomically with respect to power failures.
    Whatever the driver does, as long as a transfer is all or nothing, [commit]
    of a transaction never panics, and either returns, or stops because the power
    was cut; when it returned, the next boot's [initlog] gives a disk with every
    block of the transaction, and when it was stopped, a disk with all of them or
    with none of them.  Blocks outside the transaction keep their contents. *)
Theorem commit_atomic k start ss D P :
  committable k start ss D P →
  let n := ide_disksize (x_ide (k_ext k)) in
  match commit flag swtch iderw fuel k with
  | Ret _ k' => recovers n start (x_disk (k_ext k')) (P ∪ D) ∧ same_home start (x_disk (k_ext k')) (P ∪ D)
  | Blocked k' => stop ∧ (recovers n start (x_disk (k_ext k')) D ∨ recovers n start (x_disk (k_ext k')) (P ∪ D))
  | _ => False
  end.
Proof.
  intros Hco n. pose proof (commit_does flag swtch iderw fuel start (k_ext k) D P ss (co_cache _ _ _ _ _ Hco)
    (co_log _ _ _ _ _ Hco) (co_geometry _ _ _ _ _ Hco) (co_nodup _ _ _ _ _ Hco) (co_pins _ _ _ _ _ Hco)
    (co_room _ _ _ _ _ Hco) (co_some _ _ _ _ _ Hco) k (co_ok _ _ _ _ _ Hco) eq_refl) as Hrun.
  destruct (commit flag swtch iderw fuel k) as [[] k'| | |k']; try done.
  - destruct Hrun as [_ [(_ & -> & _) _]]. by apply ended_recovers.
  - destruct Hrun as [Hstop Hd]. split; [done|]. destruct Hd as [t Ht|t Ht].
    + left. by apply logged_recovers.
    + right. by apply installed_recovers.
Qed.
End crash.

(** A transaction of one block, sector 5, on a disk whose log starts at sector 10. *)
Definition demo_sb : list Z := put_block_word 3 30 (put_block_word 0 40 zero_block).
Definition demo_block : list Z := put_block_word 0 7 zero_block.
Definition demo_disk : blocks := {[home 1 := demo_sb]}.
Definition demo_pins : blocks := {[home 5 := demo_block]}.
Definition demo_dirty (q : buf) : buf :=
  set_b_flags (Z.lor B_VALID B_DIRTY) (set_b_dev 1 (set_b_sector 5 (set_b_data demo_block q))).
Definition demo_ext : ext :=
  with_buf 0 demo_dirty (set_x_log (Log 10 30 1 0 1 1 (<[0%nat := 5]> (replicate (Z.to_nat LOGSIZE) 0)))
    (set_x_disk demo_disk (set_x_bufs empty_bufs (set_x_ide (Ide None 0 64) (ext0 (λ _, 0)))))).

Lemma demo_committable : committable (fs_boot demo_ext) 10 [5] demo_disk demo_pins.
Proof.
  assert (bstate demo_ext demo_disk demo_pins ∅) as Hb.
  { apply (keep_links _ (reverse (seq 0 NBUF))); [by apply empty_bufs_list|unfold NBUF; lia|done|done|].
    apply bview_one; try done; [unfold NBUF; lia|]. intros i Hi. by apply empty_bufs_clear. }
  split; try done.
  - apply fsok_boot.
  - split; try done. change (Z.to_nat LOGSIZE) with 30%nat. simpl. lia.
  - split; try done. constructor; [lia|constructor].
  - repeat constructor. set_solver.
  - intros key. unfold demo_pins. rewrite lookup_singleton_is_Some. set_solver.
  - unfold demo_pins. rewrite map_size_singleton. unfold NBUF. lia.
  - split; [done|]. set_solver.
Qed.

(** The power is cut once the header is on the disk. *)
Lemma commit_atomic_witness :
  let cut k := bool_decide (is_Some (x_disk (k_ext k) !! home 10)) in
  ∃ k', commit DEFAULT block (power_cut cut Memide.iderw) 0 (fs_boot demo_ext) = Blocked k' ∧
    (recovers DEFAULT block 0 Memide.iderw 64 10 (x_disk (k_ext k')) demo_disk ∨
     recovers DEFAULT block 0 Memide.iderw 64 10 (x_disk (k_ext k')) (demo_pins ∪ demo_disk)).
Proof.
  intros cut. pose proof (commit_atomic DEFAULT block 0 (power_cut cut Memide.iderw) (stop := True) Memide.iderw
    (fs_boot demo_ext) 10 [5] demo_disk demo_pins demo_committable) as Hc.
  assert (match commit DEFAULT block (power_cut cut Memide.iderw) 0 (fs_boot demo_ext) with
    Blocked _ => true | _ => false end = true) as Hb by (vm_compute; reflexivity).
  destruct (commit DEFAULT block (power_cut cut Memide.iderw) 0 (fs_boot demo_ext)) as [| | |k']; try discriminate.
  exists k'. split; [reflexivity|]. exact (proj2 Hc).
Defined.
