(* ===== verification/Cprintf.v ===== *)
(** * Formatted output (console.c, uart.c, printf.c)

    The kernel's [cprintf], down to the ports of the serial line and the memory
    of the screen, and the [printf] of the user library.  Both convert integers
    with the same routine, which is shown to print the number it is given; the
    two format interpreters are shown to print the same text. *)

From stdpp Require Import base list gmap strings.
From Stdlib Require Import ZArith Lia.
From S2P Require Import Prelude KState Spinlock CString Proc ProcForms Syscall KExt Pic KRun Ide.

(** The characters of a string constant. *)
Fixpoint chars (s : string) : list Z :=
  match s with
  | EmptyString => []
  | String c s' => Z.of_nat (Ascii.nat_of_ascii c) :: chars s'
  end.

Definition ch_percent : Z := 37.
Definition ch_minus : Z := 45.
Definition ch_newline : Z := 10.
Definition lower_digits : list Z := chars "0123456789abcdef".
Definition upper_digits : list Z := chars "0123456789ABCDEF".

(** ** Integers

    [do { buf[i++] = digits[x % base]; } while((x /= base) != 0);]: the buffer it
    leaves.  32 rounds are enough for any base from 2 on. *)
Fixpoint int_loop (fuel : nat) (digits : list Z) (x base : Z) : list Z :=
  digits !!! Z.to_nat (x mod base) ::
  (if decide (x / base = 0) then [] else
   match fuel with O => [] | S fuel' => int_loop fuel' digits (x / base) base end).

(** The buffer of [printint], sign included, in the order it is printed. *)
Definition int_text (digits : list Z) (xx base : Z) (sign : bool) : list Z :=
  let neg := sign && bool_decide (xx < 0) in
  let x := if neg then u32 (- xx) else u32 xx in
  reverse (int_loop 31 digits x base ++ if neg then [ch_minus] else []).

(** ** The console's output *)

Section console.
Context {PT : Ports}.

Definition COM1 : Z := 0x3f8.

Fixpoint uart_wait (n : nat) : M KX unit :=
  match n with
  | O => mret tt
  | S n' => r ← inb (COM1 + 5); if has_flag r 0x20 then mret tt else uart_wait n'
  end.

Definition uartputc (c : Z) : M KX unit :=
  uart ← ext_get (λ x, cn_uart (x_cons x));
  if decide (uart = 0) then mret tt else
  uart_wait 128 ;;
  outb COM1 (u8 c).

Definition BACKSPACE : Z := 0x100.
Definition CRTPORT : Z := 0x3d4.
Definition crt : Z := KERNBASE + 0xb8000.

(** [crt[pos] = w], a 16-bit store. *)
Definition crt_store (pos w : Z) : M KX unit :=
  upd_ext (λ x, set_x_mem (<[crt + 2 * pos := u8 w]> (<[crt + 2 * pos + 1 := u8 (Z.shiftr w 8)]> (x_mem x))) x).

(** The position after [c] is put at [pos], before scrolling. *)
Definition cga_advance (c pos : Z) : M KX Z :=
  if decide (c = ch_newline) then mret (pos + (80 - Z.rem pos 80))
  else if decide (c = BACKSPACE) then mret (if decide (pos > 0) then pos - 1 else pos)
  else crt_store pos (Z.lor (Z.land c 0xff) 0x0700) ;; mret (pos + 1).

Definition cga_scroll (pos : Z) : M KX Z :=
  if decide (Z.quot pos 80 >= 24) then
    upd_ext (λ x, set_x_mem (memmove crt (crt + 2 * 80) (2 * 23 * 80) (x_mem x)) x) ;;
    upd_ext (λ x, set_x_mem (memset (crt + 2 * (pos - 80)) 0 (u32 (2 * (24 * 80 - (pos - 80)))) (x_mem x)) x) ;;
    mret (pos - 80)
  else mret pos.

Definition cgaputc (c : Z) : M KX unit :=
  outb CRTPORT 14 ;;
  hi ← inb (CRTPORT + 1);
  outb CRTPORT 15 ;;
  lo ← inb (CRTPORT + 1);
  pos ← cga_advance c (Z.lor (Z.shiftl hi 8) lo);
  pos ← cga_scroll pos;
  outb CRTPORT 14 ;;
  outb (CRTPORT + 1) (u8 (Z.shiftr pos 8)) ;;
  outb CRTPORT 15 ;;
  outb (CRTPORT + 1) (u8 pos) ;;
  crt_store pos (Z.lor 32 0x0700).

(** After a panic every processor stops here. *)
Definition consputc (c : Z) : M KX unit :=
  panicked ← ext_get (λ x, cn_panicked (x_cons x));
  if decide (panicked ≠ 0) then cli ;; block else
  (if decide (c = BACKSPACE) then uartputc 8 ;; uartputc 32 ;; uartputc 8
   else uartputc c) ;;
  cgaputc c.

Definition printint (xx base : Z) (sign : bool) : M KX unit :=
  for_each consputc (int_text lower_digits xx base sign).

(** [str] gives the characters a string argument points to. *)
Context (str : Z → list Z).

(** [*argp++]: a word of the caller's stack. *)
Definition next_arg (args : list Z) : M KX (Z * list Z) :=
  match args with a :: args' => mret (a, args') | [] => fault "cprintf: no argument" end.

Fixpoint cprintf_loop (fmt args : list Z) : M KX unit :=
  match fmt with
  | [] => mret tt
  | c :: fmt =>
      if decide (c ≠ ch_percent) then consputc c ;; cprintf_loop fmt args else
      match fmt with
      | [] => mret tt
      | c :: fmt =>
          if decide (c = 100) then
            '(a, args) ← next_arg args; printint (s32 a) 10 true ;; cprintf_loop fmt args
          else if decide (c = 120 ∨ c = 112) then
            '(a, args) ← next_arg args; printint (s32 a) 16 false ;; cprintf_loop fmt args
          else if decide (c = 115) then
            '(a, args) ← next_arg args;
            for_each consputc (if decide (a = 0) then chars "(null)" else str a) ;;
            cprintf_loop fmt args
          else if decide (c = ch_percent) then consputc ch_percent ;; cprintf_loop fmt args
          else consputc ch_percent ;; consputc c ;; cprintf_loop fmt args
      end
  end.

Definition cprintf (fmt : option (list Z)) (args : list Z) : M KX unit :=
  locking ← ext_get (λ x, cn_locking (x_cons x));
  when (bool_decide (locking ≠ 0)) (acquire cons_lock) ;;
  match fmt with
  | None => panic "null fmt"
  | Some fmt =>
      cprintf_loop fmt args ;;
      when (bool_decide (locking ≠ 0)) (release cons_lock)
  end.

(** The routine behind the outcome [Panic]: it prints and stops the processor.
    [id] is the number of the processor, [pcs] the return addresses on its stack. *)
Definition panic_routine (id : Z) (s : list Z) (pcs : list Z) : M KX unit :=
  cli ;;
  upd_ext (λ x, set_x_cons (set_cn_locking 0 (x_cons x)) x) ;;
  cprintf (Some (chars "cpu%d: panic: ")) [id] ;;
  cprintf (Some s) [] ;;
  cprintf (Some [ch_newline]) [] ;;
  for_each (λ pc, cprintf (Some (chars " %p")) [pc]) pcs ;;
  upd_ext (λ x, set_x_cons (set_cn_panicked 1 (x_cons x)) x) ;;
  block.
End console.

(** ** The user library *)

Module Printf.
Section printf.
Context (str : Z → list Z).

Definition printint (xx base : Z) (sgn : bool) : list Z := int_text upper_digits xx base sgn.

(** The text [printf] writes, [num] being how it writes integers.  [state] is
    whether the last character was a percent sign; [None] when an argument is
    missing. *)
Fixpoint printf_loop (num : Z → Z → bool → list Z) (state : bool) (fmt args : list Z) : option (list Z) :=
  match fmt with
  | [] => Some []
  | c :: fmt =>
      if negb state then
        if decide (c = ch_percent) then printf_loop num true fmt args
        else (c ::.) <$> printf_loop num false fmt args
      else if decide (c = 100) then
        match args with a :: args => (num (s32 a) 10 true ++.) <$> printf_loop num false fmt args | [] => None end
      else if decide (c = 120 ∨ c = 112) then
        match args with a :: args => (num (s32 a) 16 false ++.) <$> printf_loop num false fmt args | [] => None end
      else if decide (c = 115) then
        match args with
        | a :: args => ((if decide (a = 0) then chars "(null)" else str a) ++.) <$> printf_loop num false fmt args
        | [] => None
        end
      else if decide (c = 99) then
        match args with a :: args => (u8 a ::.) <$> printf_loop num false fmt args | [] => None end
      else if decide (c = ch_percent) then (c ::.) <$> printf_loop num false fmt args
      else (λ l, ch_percent :: c :: l) <$> printf_loop num false fmt args
  end.

Definition printf (fmt args : list Z) : option (list Z) := printf_loop printint false fmt args.
End printf.
End Printf.

(** ** What is printed *)

(** The number that a list of digits stands for, the first one the highest. *)
Definition numeral (base : Z) (ds : list Z) : Z := foldl (λ a d, a * base + d) 0 ds.

Lemma numeral_app base ds d : numeral base (ds ++ [d]) = numeral base ds * base + d.
Proof. unfold numeral. by rewrite foldl_app. Qed.

(** The digits the loop finds, the lowest first. *)
Lemma int_loop_digits n fuel digits x base :
  2 <= base → (n <= fuel)%nat → 0 <= x < base ^ Z.of_nat (S n) →
  ∃ ds, int_loop fuel digits x base = (λ d, digits !!! Z.to_nat d) <$> reverse ds ∧
    Forall (λ d, 0 <= d < base) ds ∧ numeral base ds = x ∧
    (0 < length ds <= S n)%nat ∧ (head ds = Some 0 → ds = [0]).
Proof.
  intros Hb. revert fuel x. induction n as [|n IH]; intros fuel x Hf Hx.
  - rewrite Z.pow_1_r in Hx. destruct fuel; cbn [int_loop]; rewrite decide_True by (apply Z.div_small; lia);
      (exists [x]; rewrite (Z.mod_small x) by lia; unfold numeral; simpl; split_and!; [done|constructor; [lia|constructor]|lia..|congruence]).
  - destruct fuel as [|fuel]; [lia|]. cbn [int_loop].
    pose proof (Z.mod_pos_bound x base ltac:(lia)). pose proof (Z.div_mod x base ltac:(lia)) as Hd.
    destruct (decide (x / base = 0)) as [H0|H0].
    + exists [x mod base]. unfold numeral. simpl. split_and!; [done|constructor; [lia|constructor]|lia..|congruence].
    + destruct (IH fuel (x / base)) as (ds & -> & Hds & Hn & Hl & Hh); [lia| |].
      { split; [apply Z.div_pos; lia|]. apply Z.div_lt_upper_bound; [lia|].
        rewrite <-Z.pow_succ_r, <-Nat2Z.inj_succ by lia. lia. }
      exists (ds ++ [x mod base]). rewrite reverse_app, numeral_app, Hn, length_app. simpl.
      split_and!; [done|apply Forall_app; split; [done|]; constructor; [lia|constructor]|lia..|].
      intros Hz. destruct ds as [|d ds]; [simpl in Hl; lia|]. simpl in Hz. specialize (Hh Hz) as [= -> ->].
      unfold numeral in Hn. simpl in Hn. lia.
Qed.

(** [printint], of the kernel and of the user library, prints the number it
    is given: a minus sign exactly when the number is signed and negative, then
    the digits of its absolute value in the base, the highest first and without
    leading zeros; the sixteen characters of its buffer are enough for the bases
    it is called with. *)
Theorem int_text_spec digits xx base (sign : bool) :
  10 <= base → is_s32 xx →
  ∃ ds, int_text digits xx base sign =
      (if sign && bool_decide (xx < 0) then [ch_minus] else []) ++ ((λ d, digits !!! Z.to_nat d) <$> ds) ∧
    Forall (λ d, 0 <= d < base) ds ∧ (0 < length ds)%nat ∧ (head ds = Some 0 → ds = [0]) ∧
    numeral base ds = (if sign then Z.abs xx else u32 xx) ∧
    (length (int_text digits xx base sign) <= 16)%nat.
Proof.
  intros Hb Hx. unfold int_text. unfold is_s32 in Hx. set (neg := sign && bool_decide (xx < 0)).
  set (x := if neg then u32 (- xx) else u32 xx).
  assert (0 <= x < 2 ^ 32) as Hr by (unfold x, u32; destruct neg; apply Z.mod_pos_bound; lia).
  assert (2 ^ 32 <= base ^ 10) as Hp by (transitivity (10 ^ 10); [done|apply Z.pow_le_mono_l; lia]).
  destruct (int_loop_digits 9 31 digits x base) as (ds & Hds & Hf & Hn & Hl & Hh); [lia|lia|simpl; lia|].
  exists ds. rewrite Hds, reverse_app, <-fmap_reverse, reverse_involutive. split_and!; [|done|lia|done| |].
  - by destruct neg.
  - rewrite Hn. unfold x, neg. destruct sign; [|done]. simpl. case_bool_decide; rewrite u32_id; lia.
  - rewrite !length_app, length_fmap. destruct neg; simpl; lia.
Qed.

Lemma int_text_spec_witness :
  int_text lower_digits (-2147483648) 10 true = chars "-2147483648" ∧
  ∃ ds, int_text lower_digits (-2147483648) 10 true = [ch_minus] ++ ((λ d, lower_digits !!! Z.to_nat d) <$> ds) ∧
    numeral 10 ds = 2147483648.
Proof.
  split; [reflexivity|].
  destruct (int_text_spec lower_digits (-2147483648) 10 true) as (ds & H1 & _ & _ & _ & H2 & _);
    [lia|unfold is_s32; lia|]. exists ds. split; [exact H1|exact H2].
Defined.

(** A format without the directive for characters, which [cprintf] lacks. *)
Fixpoint no_char_directive (state : bool) (fmt : list Z) : Prop :=
  match fmt with
  | [] => True
  | c :: fmt => (state = true → c ≠ 99) ∧ no_char_directive (negb state && bool_decide (c = ch_percent)) fmt
  end.

Section agree.
Context {PT : Ports} (str : Z → list Z).
Implicit Types (k : KX) (fmt args l : list Z).

(** Printing a first part, then the rest. *)
Lemma print_then (m : M KX unit) l1 l2 k :
  (∀ k, m k = for_each consputc l2 k) → (for_each consputc l1 ;; m) k = for_each consputc (l1 ++ l2) k.
Proof.
  intros Hm. rewrite for_each_app. unfold mbind, M_bind. destruct (for_each consputc l1 k) as [? k'| | |]; try done.
Qed.

Lemma print_one (m : M KX unit) c l2 k :
  (∀ k, m k = for_each consputc l2 k) → (consputc c ;; m) k = for_each consputc (c :: l2) k.
Proof. intros Hm. simpl. unfold mbind, M_bind. destruct (consputc c k) as [? k'| | |]; try done. Qed.

(** The kernel's [cprintf] and the library's [printf] interpret formats the
    same way: whenever [printf], writing numbers the way the kernel does, writes
    the text [l] for a format that has no directive for single characters,
    [cprintf] puts exactly the characters of [l] on the console, in order. *)
Theorem cprintf_prints_printf fmt args l k :
  no_char_directive false fmt →
  Printf.printf_loop str (int_text lower_digits) false fmt args = Some l →
  cprintf_loop str fmt args k = for_each consputc l k.
Proof.
  remember (length fmt) as n eqn:Hn. revert fmt args l k Hn.
  induction n as [n IH] using lt_wf_ind; intros fmt args l k -> Hc Hp.
  destruct fmt as [|c fmt]; [by injection Hp as <-|]. simpl in Hp, Hc. destruct Hc as [_ Hc].
  cbn [cprintf_loop]. destruct (decide (c = ch_percent)) as [->|H1]; cycle 1.
  - rewrite decide_True by done. rewrite bool_decide_eq_false_2 in Hc by done. apply fmap_Some in Hp as (l' & Hp & ->).
    apply print_one. intros k'. by eapply (IH (length fmt)); [simpl; lia|..].
  - rewrite decide_False by naive_solver. rewrite bool_decide_eq_true_2 in Hc by done.
    destruct fmt as [|d fmt]; [by injection Hp as <-|]. cbn [Printf.printf_loop negb] in Hp. simpl in Hc. destruct Hc as [Hd Hc].
    rewrite (decide_False (P := d = 99)) in Hp by (by apply Hd).
    assert (∀ args l k, Printf.printf_loop str (int_text lower_digits) false fmt args = Some l →
      cprintf_loop str fmt args k = for_each consputc l k) as Hrest
      by (intros args' l' k' Hp'; by eapply (IH (length fmt)); [simpl; lia|..]).
    clear IH. destruct (decide (d = 100)); [|destruct (decide (d = 120 ∨ d = 112)); [|destruct (decide (d = 115))]];
      try (destruct args as [|a args]; [done|]; apply fmap_Some in Hp as (l' & Hp & ->);
           apply print_then; intros k'; by apply Hrest).
    destruct (decide (d = ch_percent)); apply fmap_Some in Hp as (l' & Hp & ->).
    + subst d. apply print_one. intros k'. by apply Hrest.
    + apply print_one. intros k'. apply print_one. intros k''. by apply Hrest.
Qed.
End agree.

(** Ports that answer every read with 0 and ignore writes. *)
Definition quiet_ports : Ports := {|
  inb := λ _, mret 0;
  outb := λ _ _, mret tt;
  insl := λ _, mret [];
  outsl := λ _ _, mret tt;
  mmio_read := λ _, mret 0;
  mmio_write := λ _ _, mret tt
|}.

Lemma cprintf_prints_printf_witness :
  let k := fs_boot (ext0 (λ _, 0)) in
  @cprintf_loop quiet_ports (λ _, chars "ls") (chars "pid %d: %s %x%%") [-1; 4096; 255] k =
  for_each (@consputc quiet_ports) (chars "pid -1: ls ff%") k.
Proof.
  intros k. apply (@cprintf_prints_printf quiet_ports (λ _, chars "ls") (chars "pid %d: %s %x%%") [-1; 4096; 255]).
  - vm_compute. repeat split; discriminate.
  - reflexivity.
Defined.
