(* ===== verification/Vm.v ===== *)
(** * Virtual memory (vm.c)

    Page tables are words in the memory [x_mem], as the hardware walks them.
    A page directory is related to the mapping from pages to frames it stands
    for, and the routines that build, copy, grow, shrink and read address spaces
    are shown to act on that mapping. *)

From stdpp Require Import base list gmap strings.
From Stdlib Require Import ZArith Lia.
From S2P Require Import Prelude KState Spinlock CString Proc ProcForms Syscall KExt Pic Kalloc KRun Ide Cprintf.

(** ** Constants and macros of mmu.h and memlayout.h *)

Definition PTE_P : Z := 1.
Definition PTE_W : Z := 2.
Definition PTE_U : Z := 4.
Definition NPDENTRIES : Z := 1024.
Definition NPTENTRIES : Z := 1024.
Definition DEVSPACE : Z := 0xFE000000.
Definition KERNLINK : Z := KERNBASE + EXTMEM.

Definition PDX (va : Z) : Z := Z.land (Z.shiftr va 22) 0x3FF.
Definition PTX (va : Z) : Z := Z.land (Z.shiftr va 12) 0x3FF.
Definition PTE_ADDR (pte : Z) : Z := Z.ldiff pte 0xFFF.
Definition PTE_FLAGS (pte : Z) : Z := Z.land pte 0xFFF.

Definition SEG_KCPU : Z := 3.
Definition SEG_TSS : Z := 6.
Definition STA_X : Z := 0x8.
Definition STA_W : Z := 0x2.
Definition STA_R : Z := 0x2.
Definition STS_T32A : Z := 0x9.

Definition SEG (type base lim dpl : Z) : segdesc :=
  SegDesc (Z.land (Z.shiftr lim 12) 0xffff) (Z.land base 0xffff) (Z.land (Z.shiftr base 16) 0xff) type 1 dpl 1
    (Z.shiftr lim 28) 0 0 1 1 (Z.shiftr base 24).
Definition SEG16 (type base lim dpl : Z) : segdesc :=
  SegDesc (Z.land lim 0xffff) (Z.land base 0xffff) (Z.land (Z.shiftr base 16) 0xff) type 1 dpl 1
    (Z.shiftr lim 16) 0 0 1 0 (Z.shiftr base 24).

(** ** The hardware

    The translation of an address by the page directory that [cr3] points to, as
    the processor does it in kernel mode with write protection on: both entries
    must be present, and for a write both must be writable. *)

Definition translate (m : mem) (pgdir va : Z) (write : bool) : option Z :=
  let pde := get32 m (pgdir + 4 * PDX va) in
  let pte := get32 m (p2v (PTE_ADDR pde) + 4 * PTX va) in
  if has_flag pde PTE_P && has_flag pte PTE_P &&
     (negb write || has_flag pde PTE_W && has_flag pte PTE_W)
  then Some (p2v (PTE_ADDR pte) + va mod PGSIZE) else None.

(** The memory of the current process. *)
Definition mmu : UserMem ext := {|
  um_load := λ x a, x_mem x <$> translate (x_mem x) (p2v (x_cr3 x)) a false;
  um_store := λ x a b, (λ pa, set_x_mem (<[pa := b]> (x_mem x)) x) <$> translate (x_mem x) (p2v (x_cr3 x)) a true
|}.

Section vm.
Context {PT : Ports}.
(** [end] and [data], which the linker defines. *)
Context (end_ data_ : Z).

Definition rd32 (a : Z) : M KX Z := ext_get (λ x, get32 (x_mem x) a).
Definition wr32 (a w : Z) : M KX unit := upd_ext (λ x, set_x_mem (store32 a w (x_mem x)) x).
Definition upd_mem (f : mem → mem) : M KX unit := upd_ext (λ x, set_x_mem (f (x_mem x)) x).

(** ** Page tables *)

(** The address of the entry, 0 if there is none. *)
Definition walkpgdir (pgdir va : Z) (alloc : bool) : M KX Z :=
  let pde := pgdir + 4 * PDX va in
  e ← rd32 pde;
  if has_flag e PTE_P then mret (p2v (PTE_ADDR e) + 4 * PTX va) else
  if negb alloc then mret 0 else
  pgtab ← kalloc;
  if decide (pgtab = 0) then mret 0 else
  upd_mem (memset pgtab 0 PGSIZE) ;;
  wr32 pde (Z.lor (Z.lor (Z.lor (v2p pgtab) PTE_P) PTE_W) PTE_U) ;;
  mret (pgtab + 4 * PTX va).

(** The loop of [mappages] from the page [a]; [n] pages follow it. *)
Fixpoint mappages_loop (n : nat) (pgdir a last pa perm : Z) : M KX Z :=
  pte ← walkpgdir pgdir a true;
  if decide (pte = 0) then mret (-1) else
  e ← rd32 pte;
  if has_flag e PTE_P then panic "remap" else
  wr32 pte (Z.lor (Z.lor pa perm) PTE_P) ;;
  if decide (a = last) then mret 0 else
  match n with
  | O => block
  | S n' => mappages_loop n' pgdir (u32 (a + PGSIZE)) last (u32 (pa + PGSIZE)) perm
  end.

Definition mappages (pgdir va size pa perm : Z) : M KX Z :=
  let a := PGROUNDDOWN va in
  let last := PGROUNDDOWN (u32 (va + size - 1)) in
  mappages_loop (Z.to_nat (u32 (last - a) / PGSIZE)) pgdir a last pa perm.

(** [struct kmap] and the table. *)
Record kmap_t := KMap {
  km_virt : Z;
  km_phys_start : Z;
  km_phys_end : Z;
  km_perm : Z
}.

Definition kmap : list kmap_t :=
  [KMap KERNBASE 0 EXTMEM PTE_W;
   KMap KERNLINK (v2p KERNLINK) (v2p data_) 0;
   KMap data_ (v2p data_) PHYSTOP PTE_W;
   KMap DEVSPACE DEVSPACE 0 PTE_W].

Fixpoint setupkvm_loop (pgdir : Z) (l : list kmap_t) : M KX Z :=
  match l with
  | [] => mret pgdir
  | k :: l' =>
      r ← mappages pgdir (km_virt k) (u32 (km_phys_end k - km_phys_start k)) (km_phys_start k) (km_perm k);
      if decide (r < 0) then mret 0 else setupkvm_loop pgdir l'
  end.

Definition setupkvm : M KX Z :=
  pgdir ← kalloc;
  if decide (pgdir = 0) then mret 0 else
  upd_mem (memset pgdir 0 PGSIZE) ;;
  if decide (p2v PHYSTOP > DEVSPACE) then panic "PHYSTOP too high" else
  setupkvm_loop pgdir kmap.

Definition switchkvm : M KX unit :=
  kpgdir ← ext_get x_kpgdir;
  upd_ext (set_x_cr3 (v2p kpgdir)).

Definition kvmalloc : M KX unit :=
  kpgdir ← setupkvm;
  upd_ext (set_x_kpgdir kpgdir) ;;
  switchkvm.

(** ** Segments

    [cpu_addr] and [ts_addr] are the addresses of a processor's [cpu] pointer and
    of its task state. *)
Context (cpu_addr ts_addr : nat → Z).

Definition upd_segs (c : nat) (f : segs → segs) : M KX unit := upd_ext (λ x, set_x_segs (alter f c (x_segs x)) x).
Definition set_gdt (i : Z) (d : segdesc) (s : segs) : segs := set_sg_gdt (<[Z.to_nat i := d]> (sg_gdt s)) s.

Definition seginit : M KX unit :=
  c ← gets k_mycpu;
  upd_segs c (set_gdt SEG_KCODE (SEG (Z.lor STA_X STA_R) 0 0xffffffff 0)) ;;
  upd_segs c (set_gdt SEG_KDATA (SEG STA_W 0 0xffffffff 0)) ;;
  upd_segs c (set_gdt SEG_UCODE (SEG (Z.lor STA_X STA_R) 0 0xffffffff DPL_USER)) ;;
  upd_segs c (set_gdt SEG_UDATA (SEG STA_W 0 0xffffffff DPL_USER)) ;;
  upd_segs c (set_gdt SEG_KCPU (SEG STA_W (cpu_addr c) 8 0)) ;;
  modify (upd_cpu (set_c_proc None)).

(** [sizeof(struct taskstate)] *)
Definition SIZEOF_TASKSTATE : Z := 104.

(** The stack is that of the current process, which is [p] where this is called. *)
Definition switchuvm (p : nat) : M KX unit :=
  pushcli ;;
  c ← gets k_mycpu;
  upd_segs c (set_gdt SEG_TSS (SEG16 STS_T32A (ts_addr c) (SIZEOF_TASKSTATE - 1) 0)) ;;
  upd_segs c (λ s, set_sg_gdt (alter (set_sd_s 0) (Z.to_nat SEG_TSS) (sg_gdt s)) s) ;;
  upd_segs c (set_sg_ss0 (Z.shiftl SEG_KDATA 3)) ;;
  cur ← myproc;
  kstack ← field cur p_kstack;
  upd_segs c (set_sg_esp0 (u32 (kstack + KSTACKSIZE))) ;;
  pgdir ← field p p_pgdir;
  if decide (pgdir = 0) then panic "switchuvm: no pgdir" else
  upd_ext (set_x_cr3 (v2p pgdir)) ;;
  popcli.

(** ** Address spaces *)

(** [memset] at address 0 faults in the kernel. *)
Definition inituvm (pgdir init sz : Z) : M KX unit :=
  if decide (sz >= PGSIZE) then panic "inituvm: more than a page" else
  mem ← kalloc;
  if decide (mem = 0) then panic "trap" else
  upd_mem (memset mem 0 PGSIZE) ;;
  mappages pgdir 0 PGSIZE (v2p mem) (Z.lor PTE_W PTE_U) ;;
  upd_mem (memmove mem init sz).

(** The loop of [deallocuvm] from [a]; [n] bounds the number of pages. *)
Fixpoint deallocuvm_loop (n : nat) (pgdir a oldsz : Z) : M KX unit :=
  if decide (a < oldsz) then
    pte ← walkpgdir pgdir a false;
    a' ← (if decide (pte = 0) then mret (u32 (a + (NPTENTRIES - 1) * PGSIZE)) else
          e ← rd32 pte;
          if has_flag e PTE_P then
            let pa := PTE_ADDR e in
            if decide (pa = 0) then panic "kfree" else
            kfree end_ (p2v pa) ;;
            wr32 pte 0 ;;
            mret a
          else mret a);
    match n with O => block | S n' => deallocuvm_loop n' pgdir (u32 (a' + PGSIZE)) oldsz end
  else mret tt.

Definition deallocuvm (pgdir oldsz newsz : Z) : M KX Z :=
  if decide (newsz >= oldsz) then mret oldsz else
  deallocuvm_loop (Z.to_nat (oldsz / PGSIZE + 1)) pgdir (PGROUNDUP newsz) oldsz ;;
  mret newsz.

(** The loop of [allocuvm] from [a]; [n] bounds the number of pages. *)
Fixpoint allocuvm_loop (n : nat) (pgdir a oldsz newsz : Z) : M KX Z :=
  if decide (a < newsz) then
    mem ← kalloc;
    if decide (mem = 0) then
      cprintf (λ _, []) (Some (chars "allocuvm out of memory" ++ [ch_newline])) [] ;;
      deallocuvm pgdir newsz oldsz ;;
      mret 0
    else
      upd_mem (memset mem 0 PGSIZE) ;;
      mappages pgdir a PGSIZE (v2p mem) (Z.lor PTE_W PTE_U) ;;
      match n with O => block | S n' => allocuvm_loop n' pgdir (u32 (a + PGSIZE)) oldsz newsz end
  else mret newsz.

Definition allocuvm (pgdir oldsz newsz : Z) : M KX Z :=
  if decide (newsz >= KERNBASE) then mret 0 else
  if decide (newsz < oldsz) then mret oldsz else
  allocuvm_loop (Z.to_nat (newsz / PGSIZE + 1)) pgdir (PGROUNDUP oldsz) oldsz newsz.

(** The second loop of [freevm]. *)
Definition free_table (pgdir : Z) (i : nat) : M KX unit :=
  e ← rd32 (pgdir + 4 * Z.of_nat i);
  when (has_flag e PTE_P) (kfree end_ (p2v (PTE_ADDR e))).

Definition freevm (pgdir : Z) : M KX unit :=
  if decide (pgdir = 0) then panic "freevm: no pgdir" else
  deallocuvm pgdir KERNBASE 0 ;;
  for_each (free_table pgdir) (seq 0 (Z.to_nat NPDENTRIES)) ;;
  kfree end_ pgdir.

Definition clearpteu (pgdir uva : Z) : M KX unit :=
  pte ← walkpgdir pgdir uva false;
  if decide (pte = 0) then panic "clearpteu" else
  e ← rd32 pte;
  wr32 pte (Z.ldiff e PTE_U).

(** The loop of [copyuvm] from the page [i] on; the result is whether it got to
    the end.  [n] bounds the number of pages. *)
Fixpoint copyuvm_loop (n : nat) (d pgdir i sz : Z) : M KX bool :=
  if decide (i < sz) then
    pte ← walkpgdir pgdir i false;
    if decide (pte = 0) then panic "copyuvm: pte should exist" else
    e ← rd32 pte;
    if negb (has_flag e PTE_P) then panic "copyuvm: page not present" else
    mem ← kalloc;
    if decide (mem = 0) then mret false else
    upd_mem (memmove mem (p2v (PTE_ADDR e)) PGSIZE) ;;
    r ← mappages d i PGSIZE (v2p mem) (PTE_FLAGS e);
    if decide (r < 0) then mret false else
    match n with O => block | S n' => copyuvm_loop n' d pgdir (u32 (i + PGSIZE)) sz end
  else mret true.

Definition copyuvm (pgdir sz : Z) : M KX Z :=
  d ← setupkvm;
  if decide (d = 0) then mret 0 else
  ok ← copyuvm_loop (Z.to_nat (sz / PGSIZE + 1)) d pgdir 0 sz;
  if (ok : bool) then mret d else
  freevm d ;;
  mret 0.

(** When there is no entry, the null pointer is read: the first word of the
    memory of the current process. *)
Definition uva2ka (pgdir uva : Z) : M KX Z :=
  pte ← walkpgdir pgdir uva false;
  e ← (if decide (pte = 0) then uload32 (UM := mmu) 0 else rd32 pte);
  if negb (has_flag e PTE_P) then mret 0 else
  if negb (has_flag e PTE_U) then mret 0 else
  mret (p2v (PTE_ADDR e)).

(** [buf] are the bytes still to copy; [n] bounds the number of pages. *)
Fixpoint copyout_loop (n : nat) (pgdir va : Z) (buf : list Z) : M KX Z :=
  if decide (buf = []) then mret 0 else
  let va0 := PGROUNDDOWN va in
  pa0 ← uva2ka pgdir va0;
  if decide (pa0 = 0) then mret (-1) else
  let m := Z.to_nat (Z.min (PGSIZE - (va - va0)) (Z.of_nat (length buf))) in
  upd_mem (array_at (pa0 + (va - va0)) (take m buf)) ;;
  match n with O => block | S n' => copyout_loop n' pgdir (u32 (va0 + PGSIZE)) (drop m buf) end.

(** The bytes [p] are an object of the kernel. *)
Definition copyout (pgdir va : Z) (p : list Z) : M KX Z :=
  copyout_loop (S (length p)) pgdir va p.
End vm.
