(* ===== verification/VmSpec.v ===== *)
(** * Page tables as mappings

    A page directory with its tables stands for a mapping from page numbers to
    entries.  The routines of vm.c are shown to change that mapping as they mean
    to, and the hardware's translation is shown to follow it.  [T] gives the
    tables of a directory, [l] the free pages. *)

From stdpp Require Import base list gmap strings.
From Stdlib Require Import ZArith Lia.
From S2P Require Import Prelude KState Spinlock CString Proc ProcForms Syscall KExt Pic Kalloc KRun Ide Cprintf Vm.

(** ** Numbers *)

Lemma PTE_ADDR_eq z : PTE_ADDR z = z - z mod 4096.
Proof.
  unfold PTE_ADDR. change 0xFFF with (Z.ones 12). rewrite Z.ldiff_ones_r, Z.shiftl_mul_pow2, Z.shiftr_div_pow2 by lia.
  change (2 ^ 12) with 4096. pose proof (Z.div_mod z 4096 ltac:(lia)). lia.
Qed.
Lemma PTE_FLAGS_eq z : PTE_FLAGS z = z mod 4096.
Proof. unfold PTE_FLAGS. change 0xFFF with (Z.ones 12). by rewrite Z.land_ones by lia. Qed.
Lemma PGROUNDDOWN_eq a : 0 <= a < 2 ^ 32 → PGROUNDDOWN a = a - a mod 4096.
Proof.
  intros Ha. unfold PGROUNDDOWN. rewrite u32_id by done. rewrite <-PTE_ADDR_eq. unfold PTE_ADDR.
  by rewrite Z.ldiff_land.
Qed.

Lemma PDX_eq va : 0 <= va < 2 ^ 32 → PDX va = va / 4096 / 1024.
Proof.
  intros Hva. unfold PDX. change 0x3FF with (Z.ones 10). rewrite Z.land_ones, Z.shiftr_div_pow2 by lia.
  change (2 ^ 22) with (4096 * 1024). rewrite <-Z.div_div by lia. apply Z.mod_small.
  split; [repeat (apply Z.div_pos; [|lia]); lia|]. change (2 ^ 10) with 1024.
  apply Z.div_lt_upper_bound; [lia|]. apply Z.div_lt_upper_bound; lia.
Qed.
Lemma PTX_eq va : PTX va = va / 4096 mod 1024.
Proof. unfold PTX. change 0x3FF with (Z.ones 10). by rewrite Z.land_ones, Z.shiftr_div_pow2 by lia. Qed.

(** An aligned address and twelve bits of flags. *)
Lemma lor_aligned a fl : a mod 4096 = 0 → 0 <= fl < 4096 → Z.lor a fl = a + fl.
Proof.
  intros Ha Hf. rewrite <-Z.add_lor_land. enough (Z.land a fl = 0) as -> by lia.
  apply Z.mod_divide in Ha as [q ->]; [|lia]. change 4096 with (2 ^ 12) in *.
  rewrite <-Z.shiftl_mul_pow2 by lia. apply Z.bits_inj'. intros i Hi. rewrite Z.land_spec, Z.bits_0.
  destruct (decide (i < 12)).
  - by rewrite Z.shiftl_spec_low by lia.
  - replace fl with (fl mod 2 ^ 12) by (apply Z.mod_small; lia). by rewrite Z.mod_pow2_bits_high, andb_false_r by lia.
Qed.

Lemma aligned_flags a fl : a mod 4096 = 0 → 0 <= fl < 4096 → PTE_ADDR (a + fl) = a ∧ PTE_FLAGS (a + fl) = fl.
Proof.
  intros Ha Hf. rewrite PTE_ADDR_eq, PTE_FLAGS_eq. rewrite <-Z.add_mod_idemp_l, Ha, Z.add_0_l, Z.mod_small by lia. lia.
Qed.

(** The entry [mappages] writes. *)
Definition mk_pte (pa perm : Z) : Z := Z.lor (Z.lor pa perm) PTE_P.

Lemma perm_range perm : 0 <= perm < 4096 → 0 <= Z.lor perm PTE_P < 4096.
Proof.
  intros Hp. unfold PTE_P. split; [apply Z.lor_nonneg; lia|]. change 4096 with (2 ^ 12).
  destruct (decide (Z.lor perm 1 = 0)) as [->|]; [done|]. apply Z.log2_lt_pow2; [pose proof (Z.lor_nonneg perm 1); lia|].
  rewrite Z.log2_lor by lia. apply Z.max_lub_lt; [|done]. destruct (decide (perm = 0)) as [->|]; [done|].
  apply Z.log2_lt_pow2; lia.
Qed.

Lemma mk_pte_eq pa perm : pa mod 4096 = 0 → 0 <= perm < 4096 → mk_pte pa perm = pa + Z.lor perm PTE_P.
Proof.
  intros Ha Hp. unfold mk_pte. rewrite <-Z.lor_assoc. apply lor_aligned; [done|]. by apply perm_range.
Qed.

Lemma mk_pte_present pa perm : has_flag (mk_pte pa perm) PTE_P = true.
Proof.
  unfold mk_pte. change PTE_P with (2 ^ 0). rewrite has_flag_bit by lia.
  by rewrite Z.lor_spec, Z.pow2_bits_true, orb_true_r.
Qed.

Lemma mk_pte_addr pa perm : pa mod 4096 = 0 → 0 <= perm < 4096 → PTE_ADDR (mk_pte pa perm) = pa.
Proof. intros Ha Hp. rewrite mk_pte_eq by done. apply aligned_flags; [done|]. by apply perm_range. Qed.

Lemma mk_pte_flag pa perm i :
  pa mod 4096 = 0 → 0 <= perm < 4096 → 0 <= i < 12 → has_flag (mk_pte pa perm) (2 ^ i) = Z.testbit (Z.lor perm PTE_P) i.
Proof.
  intros Ha Hp Hi. rewrite has_flag_bit by lia. unfold mk_pte. rewrite !Z.lor_spec.
  apply Z.mod_divide in Ha as [q ->]; [|lia]. change 4096 with (2 ^ 12).
  by rewrite <-Z.shiftl_mul_pow2, Z.shiftl_spec_low by lia.
Qed.

Lemma mk_pte_range pa perm :
  pa mod 4096 = 0 → 0 <= pa < 2 ^ 32 → 0 <= perm < 4096 → 0 <= mk_pte pa perm < 2 ^ 32.
Proof.
  intros Ha Hr Hp. rewrite mk_pte_eq by done. pose proof (perm_range perm Hp).
  apply Z.mod_divide in Ha as [q ->]; [|lia]. change (2 ^ 32) with (1048576 * 4096) in *. lia.
Qed.

(** ** Words *)

Lemma get32_store32_ne a w m b : a + 4 <= b ∨ b + 4 <= a → get32 (store32 a w m) b = get32 m b.
Proof. intros Hab. apply get32_ext. intros c Hc. by rewrite store32_filled, decide_False by lia. Qed.

Lemma get32_zeroed v m a : v <= a → a + 4 <= v + PGSIZE → get32 (memset v 0 PGSIZE m) a = 0.
Proof.
  intros H1 H2. unfold get32. rewrite !memset_filled by (unfold PGSIZE; lia). by rewrite !decide_True by lia.
Qed.

Lemma get32_memset_ne v m a : a + 4 <= v ∨ v + PGSIZE <= a → get32 (memset v 0 PGSIZE m) a = get32 m a.
Proof.
  intros H. apply get32_ext. intros c Hc. by rewrite memset_filled, decide_False by (unfold PGSIZE in *; lia).
Qed.

(** ** Pages *)

Section pages.
Context (end_ : Z).
Abbreviation valid_page := (valid_page end_).
Abbreviation free_list := (free_list end_).
Implicit Types (x y : ext) (m : mem) (T : gmap Z Z) (l : list Z).

Definition in_page (p b : Z) : Prop := p <= b < p + PGSIZE.

Lemma page_kernel v : valid_page v → KERNBASE <= v ∧ v + PGSIZE <= KERNBASE + PHYSTOP ∧ v2p v = v - KERNBASE ∧
  (v - KERNBASE) mod 4096 = 0.
Proof.
  intros [Ha _ Hp Hr]. unfold v2p, u32, KERNBASE, PHYSTOP, PGSIZE in *.
  apply Z.mod_divide in Ha as [q ->]; [|lia]. destruct (decide (q * 4096 < 2147483648)).
  - replace (q * 4096 - 2147483648) with (q * 4096 + 2147483648 + (-1) * 2 ^ 32) in Hp by lia.
    rewrite Z.mod_add, Z.mod_small in Hp by lia. lia.
  - rewrite Z.mod_small in Hp |- * by lia. split; [lia|]. split; [lia|]. split; [done|].
    replace (q * 4096 - 2147483648) with ((q - 524288) * 4096) by lia. apply Z.mod_mul. lia.
Qed.

(** The entry of a page with some flags. *)
Lemma page_entry v fl : valid_page v → 0 <= fl < 4096 → p2v (PTE_ADDR (v2p v + fl)) = v.
Proof.
  intros Hv Hf. pose proof (vp_range _ _ Hv). destruct (page_kernel v Hv) as (H1 & H2 & -> & H4).
  destruct (aligned_flags _ fl H4 Hf) as [-> _]. unfold p2v. rewrite u32_id; lia.
Qed.

(** ** The allocator *)

Lemma fsok_kmem k : fsok k → kmem_ready k.
Proof.
  intros [_ Hn Hl]. right. split; [by apply (nest_ok_le 5)|]. rewrite Forall_forall in Hl. apply Hl.
  unfold fs_locks. set_solver.
Qed.

Lemma calmly_kmem_done k x : fsok k → calmly k (kmem_done (set_k_ext x k)).
Proof.
  intros Hk. unfold kmem_done. case_decide.
  - by apply woke_calmly, woke_ext.
  - by apply woke_settle, woke_ext.
Qed.

Lemma kalloc_does x l C :
  free_list x l →
  does kalloc x (λ r y, y = popped x ∧ free_list y (tail l) ∧ x_mem y = x_mem x ∧
    r = default 0 (head l) ∧ (l = [] → y = x)) C.
Proof.
  intros Hl k Hk <-. rewrite kalloc_ret by (by apply fsok_kmem). split; [by apply calmly_kmem_done|].
  rewrite kmem_done_ext. simpl. pose proof (popped_list _ _ _ Hl) as Hp.
  destruct l as [|v l]; simpl; [destruct Hp as [Hr ->]|destruct Hp as (Hr & Hl' & Hm)]; by rewrite Hr.
Qed.

Lemma kfree_does v x l C :
  valid_page v → free_list x l → v ∉ l → does (kfree end_ v) x (λ _ y, y = freed v x ∧ free_list y (v :: l)) C.
Proof.
  intros Hv Hl Hn k Hk <-. rewrite (kfree_ret end_) by (done || by apply fsok_kmem).
  split; [by apply calmly_kmem_done|]. rewrite kmem_done_ext. split; [done|]. by apply freed_list.
Qed.

(** ** Address spaces *)

(** [pgdir] is a page directory whose tables are [T] and which owns its pages;
    [l] are the free pages. *)
Record aspace (x : ext) (pgdir : Z) T l : Prop := {
  as_free : free_list x l;
  as_dir : valid_page pgdir;
  as_tab i t : T !! i = Some t → 0 <= i < 1024 ∧ valid_page t ∧ t ≠ pgdir ∧ t ∉ l;
  as_inj i j t : T !! i = Some t → T !! j = Some t → i = j;
  as_used : pgdir ∉ l;
  as_pde i : 0 <= i < 1024 →
    match T !! i with
    | Some t => get32 (x_mem x) (pgdir + 4 * i) = v2p t + 7
    | None => has_flag (get32 (x_mem x) (pgdir + 4 * i)) PTE_P = false
    end
}.

(** The entry of page number [vpn], and the mapping: the entries that are present. *)
Definition entry m T (vpn : Z) : Z :=
  match T !! (vpn / 1024) with Some t => get32 m (t + 4 * (vpn mod 1024)) | None => 0 end.
Definition mapping x T (vpn : Z) : option Z :=
  let e := entry (x_mem x) T vpn in if has_flag e PTE_P then Some e else None.

(** The bytes an address space and the free pages own. *)
Definition owned (pgdir : Z) T l (b : Z) : Prop :=
  in_page pgdir b ∨ (∃ i t, T !! i = Some t ∧ in_page t b) ∨ (∃ p, p ∈ l ∧ in_page p b).

(** Only memory and the free list differ. *)
Definition vm_only x y : Prop := y = set_x_kmem (x_kmem y) (set_x_mem (x_mem y) x).

Lemma vm_only_refl x : vm_only x x.
Proof. by destruct x. Qed.
Lemma vm_only_trans x y z : vm_only x y → vm_only y z → vm_only x z.
Proof. unfold vm_only. intros -> ->. by destruct x. Qed.
Lemma vm_only_mem x m : vm_only x (set_x_mem m x).
Proof. by destruct x. Qed.
Lemma vm_only_popped x : vm_only x (popped x).
Proof. unfold popped. case_decide; [apply vm_only_refl|by destruct x]. Qed.

Section walk.
Context (pgdir : Z).

Lemma in_page_apart p q b : valid_page p → valid_page q → p ≠ q → in_page p b → in_page q b → False.
Proof. intros Hp Hq Hne H1 H2. unfold in_page in *. pose proof (pages_apart end_ p q Hp Hq Hne). lia. Qed.

Lemma word_apart p q i j :
  valid_page p → valid_page q → p ≠ q → 0 <= i < 1024 → 0 <= j < 1024 →
  p + 4 * i + 4 <= q + 4 * j ∨ q + 4 * j + 4 <= p + 4 * i.
Proof. intros Hp Hq Hne Hi Hj. pose proof (pages_apart end_ p q Hp Hq Hne). unfold PGSIZE in *. lia. Qed.

(** The free list survives a change of bytes outside the free pages. *)
Lemma free_list_mem x m l :
  free_list x l → (∀ p b, p ∈ l → in_page p b → m b = x_mem x b) → free_list (set_x_mem m x) l.
Proof.
  intros [Hc Hn Hv] Hm. split; [|done..]. eapply run_chain_ext; [|exact Hc]. intros p b Hp Hb.
  apply (Hm p b Hp). unfold in_page, PGSIZE. lia.
Qed.

Lemma pdx_range va : 0 <= va < 2 ^ 32 → 0 <= PDX va < 1024 ∧ 0 <= PTX va < 1024.
Proof.
  intros Hva. rewrite PDX_eq, PTX_eq by done. split; [|apply Z.mod_pos_bound; lia].
  split; [repeat (apply Z.div_pos; [|lia]); lia|]. apply Z.div_lt_upper_bound; [lia|]. apply Z.div_lt_upper_bound; lia.
Qed.

(** The entry of a table has all three flags. *)
Lemma table_flags t :
  valid_page t → has_flag (v2p t + 7) PTE_P = true ∧ has_flag (v2p t + 7) PTE_W = true ∧ has_flag (v2p t + 7) PTE_U = true.
Proof.
  intros Hv. change PTE_P with (2 ^ 0). change PTE_W with (2 ^ 1). change PTE_U with (2 ^ 2).
  enough (∀ i, 0 <= i < 3 → has_flag (v2p t + 7) (2 ^ i) = true) as Hi by (by rewrite !Hi by lia).
  intros i Hi. destruct (page_kernel t Hv) as (_ & _ & E & Hal). rewrite <-E in Hal.
  rewrite <-lor_aligned by (done || lia). rewrite has_flag_bit, Z.lor_spec by lia. change 7 with (Z.ones 3).
  by rewrite Z.ones_spec_low, orb_true_r by lia.
Qed.

(** Looking an entry up. *)
Lemma walk_does x T l va C :
  aspace x pgdir T l → 0 <= va < 2 ^ 32 →
  does (walkpgdir pgdir va false) x
    (λ r y, y = x ∧ r = match T !! PDX va with Some t => t + 4 * PTX va | None => 0 end) C.
Proof.
  intros Ha Hva. unfold walkpgdir. apply does_get_bind. destruct (pdx_range va Hva) as [Hd _].
  pose proof (as_pde _ _ _ _ Ha _ Hd) as He. destruct (T !! PDX va) as [t|] eqn:Ht.
  - destruct (as_tab _ _ _ _ Ha _ _ Ht) as (_ & Hv & _). rewrite He.
    rewrite (proj1 (table_flags t Hv)). apply does_ret. split; [done|]. by rewrite page_entry by (done || lia).
  - rewrite He. cbn [negb]. by apply does_ret.
Qed.

(** [y] is [x] after the address space got new tables from the free pages. *)
Record extends x T l y T' l' : Prop := {
  ex_as : aspace y pgdir T' l';
  ex_only : vm_only x y;
  ex_sub : T ⊆ T';
  ex_used : l' `suffix_of` l;
  ex_owned b : owned pgdir T' l' b → owned pgdir T l b;
  ex_mem b : ¬ owned pgdir T l b → x_mem y b = x_mem x b
}.

Lemma extends_refl x T l : aspace x pgdir T l → extends x T l x T l.
Proof. intros Ha. split; [done|apply vm_only_refl|done..]. Qed.

Lemma extends_trans x T l y T' l' z T'' l'' :
  extends x T l y T' l' → extends y T' l' z T'' l'' → extends x T l z T'' l''.
Proof.
  intros [A1 A2 A3 A4 A5 A6] [B1 B2 B3 B4 B5 B6]. split; [done|by eapply vm_only_trans|by etrans|by etrans|auto|].
  intros b Hb. rewrite B6, A6 by auto. done.
Qed.

(** A new table: a free page, zeroed and entered in the directory. *)
Definition with_table x (d p : Z) : ext :=
  set_x_mem (store32 (pgdir + 4 * d) (v2p p + 7) (memset p 0 PGSIZE (x_mem x))) (popped x).

Lemma table_word_other p q w m i j :
  valid_page p → valid_page q → p ≠ q → 0 <= i < 1024 → 0 <= j < 1024 →
  get32 (store32 (p + 4 * i) w m) (q + 4 * j) = get32 m (q + 4 * j).
Proof. intros. apply get32_store32_ne. by apply word_apart. Qed.

Lemma page_word_other p q m j :
  valid_page p → valid_page q → p ≠ q → 0 <= j < 1024 →
  get32 (memset p 0 PGSIZE m) (q + 4 * j) = get32 m (q + 4 * j).
Proof.
  intros Hp Hq Hne Hj. apply get32_memset_ne. pose proof (pages_apart end_ p q Hp Hq Hne). unfold PGSIZE in *. lia.
Qed.

Lemma table_entry_range p : valid_page p → 0 <= v2p p + 7 < 2 ^ 32.
Proof. intros Hp. destruct (page_kernel p Hp) as (? & ? & -> & _). unfold KERNBASE, PHYSTOP, PGSIZE in *. lia. Qed.

Lemma with_table_extends x T p l d :
  aspace x pgdir T (p :: l) → 0 <= d < 1024 → T !! d = None → extends x T (p :: l) (with_table x d p) (<[d := p]> T) l.
Proof.
  intros Ha Hd HT. pose proof (as_free _ _ _ _ Ha) as Hf. destruct (popped_list _ _ _ Hf) as (Hr & Hl & Hm).
  pose proof (fl_valid _ _ _ Hf) as Hval. apply Forall_cons in Hval as [Hp Hval].
  pose proof (fl_nodup _ _ _ Hf) as Hnd. apply NoDup_cons in Hnd as [Hpl Hnd].
  pose proof (as_dir _ _ _ _ Ha) as Hdir. pose proof (as_used _ _ _ _ Ha) as Hus.
  assert (pgdir ≠ p) as Hne by (intros ->; apply Hus; left).
  split; [split|..].
  - apply free_list_mem; [done|]. intros q b Hq Hb. rewrite Hm.
    assert (valid_page q) as Hvq by (rewrite Forall_forall in Hval; by apply Hval).
    rewrite store32_filled, decide_False, memset_filled, decide_False; [done|..|unfold PGSIZE; lia|].
    + intros Hb'. apply (in_page_apart p q b); try done. by intros ->.
    + intros Hb'. apply (in_page_apart pgdir q b); try done; [|unfold in_page, PGSIZE; lia].
      intros ->. apply Hus. by right.
  - done.
  - intros i q Hq. apply lookup_insert_Some in Hq as [[<- <-]|[Hid Hq]].
    + split; [done|]. by split_and!.
    + destruct (as_tab _ _ _ _ Ha _ _ Hq) as (? & ? & ? & Hnin). split; [done|]. split_and!; try done.
      intros ?. apply Hnin. by right.
  - intros i j q Hi Hj. apply lookup_insert_Some in Hi as [[<- <-]|[Hi1 Hi]], Hj as [[<- Hjq]|[Hj1 Hj]]; try done.
    + destruct (as_tab _ _ _ _ Ha _ _ Hj) as (_ & _ & _ & Hnin). destruct Hnin. left.
    + subst q. destruct (as_tab _ _ _ _ Ha _ _ Hi) as (_ & _ & _ & Hnin). destruct Hnin. left.
    + by eapply as_inj.
  - intros ?. apply Hus. by right.
  - intros i Hi. unfold with_table. cbn [x_mem set_x_mem]. destruct (decide (d = i)) as [<-|Hdi].
    + rewrite lookup_insert_eq, get32_store32. apply u32_id. by apply table_entry_range.
    + rewrite lookup_insert_ne by done. rewrite get32_store32_ne, page_word_other by (done || lia).
      by apply (as_pde _ _ _ _ Ha).
  - eapply vm_only_trans; [apply vm_only_popped|apply vm_only_mem].
  - by apply insert_subseteq.
  - by exists [p].
  - intros b [Hb|[(i & q & Hq & Hb)|(q & Hq & Hb)]].
    + by left.
    + apply lookup_insert_Some in Hq as [[_ <-]|[_ Hq]]; [right; right; exists p; split; [left|done]|].
      right; left. by exists i, q.
    + right; right. exists q. split; [by right|done].
  - intros b Hb. unfold with_table. cbn [x_mem set_x_mem]. rewrite store32_filled, decide_False, memset_filled, decide_False;
      [done|..|unfold PGSIZE; lia|].
    + intros Hb'. apply Hb. right; right. exists p. split; [left|done].
    + intros Hb'. apply Hb. left. unfold in_page, PGSIZE. lia.
Qed.

Lemma has_flag_zero f : has_flag 0 f = false.
Proof. done. Qed.

Lemma vpn_parts vpn : 0 <= vpn < 2 ^ 20 → 0 <= vpn / 1024 < 1024 ∧ 0 <= vpn mod 1024 < 1024.
Proof.
  intros Hv. split; [|apply Z.mod_pos_bound; lia]. split; [apply Z.div_pos; lia|]. apply Z.div_lt_upper_bound; lia.
Qed.

Lemma with_table_mapping x T p l d vpn :
  aspace x pgdir T (p :: l) → 0 <= d < 1024 → T !! d = None → 0 <= vpn < 2 ^ 20 →
  mapping (with_table x d p) (<[d := p]> T) vpn = mapping x T vpn.
Proof.
  intros Ha Hd HT Hv. destruct (vpn_parts vpn Hv) as [_ Hm]. pose proof (as_dir _ _ _ _ Ha) as Hdir.
  pose proof (fl_valid _ _ _ (as_free _ _ _ _ Ha)) as Hval. apply Forall_cons in Hval as [Hp _].
  assert (pgdir ≠ p) as Hne by (intros ->; apply (as_used _ _ _ _ Ha); left).
  unfold mapping, entry, with_table. cbn [x_mem set_x_mem]. destruct (decide (d = vpn / 1024)) as [Hdv|Hdv].
  - rewrite <-Hdv, lookup_insert_eq, HT. rewrite table_word_other by done.
    by rewrite get32_zeroed by (unfold PGSIZE; lia).
  - rewrite lookup_insert_ne by done. destruct (T !! (vpn / 1024)) as [q|] eqn:Hq; [|done].
    destruct (as_tab _ _ _ _ Ha _ _ Hq) as (_ & Hvq & Hqd & Hql).
    rewrite table_word_other, page_word_other; try done. intros ->. apply Hql. left.
Qed.

Lemma walk_alloc_does x T l va C :
  aspace x pgdir T l → 0 <= va < 2 ^ 32 →
  does (walkpgdir pgdir va true) x
    (λ r y, r = 0 ∧ y = x ∧ l = [] ∨
       ∃ T' l' t, r = t + 4 * PTX va ∧ T' !! PDX va = Some t ∧ extends x T l y T' l' ∧
         ∀ v, 0 <= v < 2 ^ 20 → mapping y T' v = mapping x T v) C.
Proof.
  intros Ha Hva. destruct (T !! PDX va) as [t|] eqn:Ht.
  - unfold walkpgdir. apply does_get_bind. destruct (pdx_range va Hva) as [Hd _].
    pose proof (as_pde _ _ _ _ Ha _ Hd) as He. rewrite Ht in He. rewrite He.
    destruct (as_tab _ _ _ _ Ha _ _ Ht) as (_ & Hv & _). rewrite (proj1 (table_flags t Hv)).
    apply does_ret. right. exists T, l, t. rewrite page_entry by (done || lia). split; [done|]. split; [done|].
    split; [by apply extends_refl|done].
  - unfold walkpgdir. apply does_get_bind. destruct (pdx_range va Hva) as [Hd Hx].
    pose proof (as_pde _ _ _ _ Ha _ Hd) as He. rewrite Ht in He. rewrite He. cbn [negb].
    eapply does_bind; [eapply kalloc_does, (as_free _ _ _ _ Ha)|].
    intros r y (-> & _ & Hm & -> & Hnil). destruct l as [|p l]; cbn [head default from_option id].
    + rewrite decide_True by done. apply does_ret. left. by rewrite (Hnil eq_refl).
    + pose proof (fl_valid _ _ _ (as_free _ _ _ _ Ha)) as Hval. apply Forall_cons in Hval as [Hp _].
      pose proof (vp_range _ _ Hp). rewrite decide_False by lia. do 2 apply does_upd_bind. apply does_ret. right.
      exists (<[PDX va := p]> T), l, p. split; [done|]. split; [apply lookup_insert_eq|].
      assert (Z.lor (Z.lor (Z.lor (v2p p) PTE_P) PTE_W) PTE_U = v2p p + 7) as ->.
      { rewrite <-!Z.lor_assoc. destruct (page_kernel p Hp) as (_ & _ & E & Hal). rewrite <-E in Hal.
        by apply lor_aligned; [|vm_compute]. }
      cbn [x_mem set_x_mem]. rewrite Hm.
      split; [by apply (with_table_extends x T p l)|]. intros v Hv. by apply (with_table_mapping x T p l).
Qed.

(** Writing an entry. *)
Definition with_entry x (t i w : Z) : ext := set_x_mem (store32 (t + 4 * i) w (x_mem x)) x.

Lemma with_entry_extends x T l d t i w :
  aspace x pgdir T l → T !! d = Some t → 0 <= i < 1024 → extends x T l (with_entry x t i w) T l.
Proof.
  intros Ha Ht Hi. destruct (as_tab _ _ _ _ Ha _ _ Ht) as (Hd & Hvt & Htd & Htl).
  split; [split|..]; try (by destruct Ha).
  - apply free_list_mem; [apply Ha|]. intros q b Hq Hb. rewrite store32_filled, decide_False; [done|].
    intros Hb'. apply (in_page_apart t q b); try done; [|by intros ->|unfold in_page, PGSIZE; lia].
    pose proof (fl_valid _ _ _ (as_free _ _ _ _ Ha)) as Hval. rewrite Forall_forall in Hval. by apply Hval.
  - intros j Hj. unfold with_entry. cbn [x_mem set_x_mem]. rewrite table_word_other; try done; [|by apply Ha].
    by apply (as_pde _ _ _ _ Ha).
  - intros b Hb. unfold with_entry. cbn [x_mem set_x_mem]. rewrite store32_filled, decide_False; [done|].
    intros Hb'. apply Hb. right; left. exists d, t. split; [done|]. unfold in_page, PGSIZE. lia.
Qed.

Lemma with_entry_mapping x T l d t i w vpn :
  aspace x pgdir T l → T !! d = Some t → 0 <= i < 1024 → 0 <= vpn < 2 ^ 20 → 0 <= w < 2 ^ 32 →
  mapping (with_entry x t i w) T vpn =
  if decide (vpn = d * 1024 + i) then (if has_flag w PTE_P then Some w else None) else mapping x T vpn.
Proof.
  intros Ha Ht Hi Hv Hw. destruct (vpn_parts vpn Hv) as [_ Hm]. pose proof (Z.div_mod vpn 1024 ltac:(lia)) as Hdm.
  unfold mapping, entry, with_entry. cbn [x_mem set_x_mem]. case_decide as Hd.
  - assert (vpn / 1024 = d ∧ vpn mod 1024 = i) as [-> ->].
    { subst vpn. rewrite Z.add_comm, Z.div_add, Z.mod_add, Z.div_small, Z.mod_small by lia. lia. }
    by rewrite Ht, get32_store32, u32_id by done.
  - destruct (T !! (vpn / 1024)) as [q|] eqn:Hq; [|done]. rewrite get32_store32_ne; [done|].
    destruct (decide (q = t)) as [->|Hqt].
    + pose proof (as_inj _ _ _ _ Ha _ _ _ Hq Ht). assert (vpn mod 1024 ≠ i) by lia. lia.
    + destruct (as_tab _ _ _ _ Ha _ _ Ht) as (_ & Hvt & _), (as_tab _ _ _ _ Ha _ _ Hq) as (_ & Hvq & _).
      by apply word_apart.
Qed.

(** [y] maps [n] more pages than [x], from [vpn] on, to the frames from [pa] on. *)
Definition mapped_more x T y T' (vpn n pa perm : Z) : Prop :=
  ∀ v, 0 <= v < 2 ^ 20 →
    mapping y T' v = if decide (vpn <= v < vpn + n) then Some (mk_pte (pa + (v - vpn) * 4096) perm) else mapping x T v.

Lemma page_parts vpn : 0 <= vpn < 2 ^ 20 → 0 <= vpn * 4096 < 2 ^ 32 ∧ PDX (vpn * 4096) = vpn / 1024 ∧ PTX (vpn * 4096) = vpn mod 1024.
Proof.
  intros Hv. assert (0 <= vpn * 4096 < 2 ^ 32) as Hr by lia. split; [done|].
  rewrite PDX_eq, PTX_eq by done. by rewrite Z.div_mul by lia.
Qed.

(** One round of the loop of [mappages]. *)
Lemma map_page_does (k : M KX Z) x T l vpn pa perm Q C :
  aspace x pgdir T l → 0 <= vpn < 2 ^ 20 → pa mod 4096 = 0 → 0 <= pa < 2 ^ 32 → 0 <= perm < 4096 →
  mapping x T vpn = None →
  (l = [] → Q (-1) x) →
  (∀ y T' l', extends x T l y T' l' → mapped_more x T y T' vpn 1 pa perm → does k y Q C) →
  does (pte ← walkpgdir pgdir (vpn * 4096) true;
        if decide (pte = 0) then mret (-1) else
        e ← rd32 pte;
        if has_flag e PTE_P then panic "remap" else
        wr32 pte (Z.lor (Z.lor pa perm) PTE_P) ;; k) x Q C.
Proof.
  intros Ha Hv Hpa Hpr Hperm Hnone Hfail Hk. destruct (page_parts vpn Hv) as (Hva & Hdx & Htx).
  eapply does_bind; [by apply (walk_alloc_does x T l)|]. rewrite Hdx, Htx.
  intros r y [(-> & -> & ->)|(T' & l' & t & -> & Ht & He & Hmap)].
  { rewrite decide_True by done. apply does_ret. by apply Hfail. }
  pose proof (ex_as _ _ _ _ _ _ He) as Hay. destruct (as_tab _ _ _ _ Hay _ _ Ht) as (_ & Hvt & _).
  pose proof (vp_range _ _ Hvt). destruct (vpn_parts vpn Hv) as [Hd Hm]. rewrite decide_False by lia.
  apply does_get_bind. pose proof (Hmap vpn Hv) as Hm0. rewrite Hnone in Hm0. unfold mapping, entry in Hm0.
  rewrite Ht in Hm0. destruct (has_flag (get32 (x_mem y) (t + 4 * (vpn mod 1024))) PTE_P); [done|].
  apply does_upd_bind. fold (mk_pte pa perm). fold (with_entry y t (vpn mod 1024) (mk_pte pa perm)).
  eapply Hk; [eapply extends_trans; [exact He|by eapply with_entry_extends]|].
  intros v Hvr. rewrite (with_entry_mapping y T' l' (vpn / 1024)) by (done || by apply mk_pte_range).
  rewrite mk_pte_present. pose proof (Z.div_mod vpn 1024 ltac:(lia)). case_decide as H1; case_decide as H2; try lia.
  - do 2 f_equal. lia.
  - by apply Hmap.
Qed.

Lemma mapped_more_step x T y T' z T'' vpn n pa perm :
  0 <= n → mapped_more x T y T' vpn 1 pa perm → mapped_more y T' z T'' (vpn + 1) n (pa + 4096) perm →
  mapped_more x T z T'' vpn (n + 1) pa perm.
Proof.
  intros Hn H1 H2 v Hv. rewrite H2, H1 by done. repeat case_decide; try lia; try done; do 2 f_equal; lia.
Qed.

(** The result of mapping [n] pages: all of them are mapped, or the free pages
    ran out and the first few are. *)
Definition map_result x T l (vpn n pa perm r : Z) y : Prop :=
  ∃ T' l', extends x T l y T' l' ∧
    (r = 0 ∧ mapped_more x T y T' vpn n pa perm ∨
     r = -1 ∧ l' = [] ∧ ∃ j, 0 <= j < n ∧ mapped_more x T y T' vpn j pa perm).

Lemma map_result_fail x T l vpn n pa perm :
  aspace x pgdir T l → 0 < n → l = [] → map_result x T l vpn n pa perm (-1) x.
Proof.
  intros Ha Hn ->. exists T, []. split; [by apply extends_refl|]. right. split; [done|]. split; [done|].
  exists 0. split; [lia|]. intros v Hv. by rewrite decide_False by lia.
Qed.

Lemma mappages_loop_does n x T l vpn pa perm C :
  aspace x pgdir T l → 0 <= vpn → vpn + Z.of_nat n < 2 ^ 20 →
  pa mod 4096 = 0 → 0 <= pa → pa + Z.of_nat n * 4096 < 2 ^ 32 → 0 <= perm < 4096 →
  (∀ v, vpn <= v <= vpn + Z.of_nat n → mapping x T v = None) →
  does (mappages_loop n pgdir (vpn * 4096) ((vpn + Z.of_nat n) * 4096) pa perm) x
    (map_result x T l vpn (Z.of_nat n + 1) pa perm) C.
Proof.
  revert x T l vpn pa. induction n as [|n IH]; intros x T l vpn pa Ha Hv Hvn Hpa Hpr Hpn Hperm Hnone; cbn [mappages_loop];
    (apply (map_page_does _ x T l); [done|lia|done|lia|done|apply Hnone; lia|intros Hl; apply map_result_fail; [done|lia|done]|]);
    intros y T' l' He Hmap.
  - rewrite decide_True by lia. apply does_ret. exists T', l'. split; [done|]. by left.
  - rewrite decide_False, !u32_id by (unfold PGSIZE; lia).
    replace (vpn * 4096 + PGSIZE) with ((vpn + 1) * 4096) by (unfold PGSIZE; lia).
    replace ((vpn + Z.of_nat (S n)) * 4096) with ((vpn + 1 + Z.of_nat n) * 4096) by lia.
    eapply does_mono; [apply (IH y T' l' (vpn + 1) (pa + PGSIZE))| |done]; unfold PGSIZE in *.
    + apply He.
    + lia.
    + lia.
    + by rewrite <-Z.add_mod_idemp_r, Z.mod_same, Z.add_0_r by lia.
    + lia.
    + lia.
    + done.
    + intros v Hvr. rewrite Hmap by lia. rewrite decide_False by lia. apply Hnone. lia.
    + intros r z (T2 & l2 & He2 & Hres). exists T2, l2. split; [by eapply extends_trans|].
      destruct Hres as [[-> Hm]|(-> & -> & j & Hj & Hm)]; [left|right]; split; try done.
      * replace (Z.of_nat (S n) + 1) with (Z.of_nat n + 1 + 1) by lia. eapply mapped_more_step; [lia|done|done].
      * split; [done|]. exists (j + 1). split; [lia|]. eapply mapped_more_step; [lia|done|done].
Qed.

(** [mappages] of page-aligned ranges. *)
Lemma mappages_does x T l vpn n pa perm C :
  aspace x pgdir T l → 0 <= vpn → 0 < n → vpn + n <= 2 ^ 20 →
  pa mod 4096 = 0 → 0 <= pa → pa + n * 4096 <= 2 ^ 32 → 0 <= perm < 4096 →
  (∀ v, vpn <= v < vpn + n → mapping x T v = None) →
  does (mappages pgdir (vpn * 4096) (u32 (n * 4096)) pa perm) x (map_result x T l vpn n pa perm) C.
Proof.
  intros Ha Hv Hn Hvn Hpa Hpr Hpn Hperm Hnone. unfold mappages.
  assert (u32 (vpn * 4096 + u32 (n * 4096) - 1) = (vpn + n) * 4096 - 1) as ->.
  { unfold u32. replace (vpn * 4096 + (n * 4096) mod 2 ^ 32 - 1) with (vpn * 4096 - 1 + (n * 4096) mod 2 ^ 32) by lia.
    rewrite Z.add_mod_idemp_r by lia. rewrite Z.mod_small; lia. }
  rewrite !PGROUNDDOWN_eq by lia. rewrite Z.mod_mul, Z.sub_0_r by lia.
  replace ((vpn + n) * 4096 - 1) with (4095 + (vpn + n - 1) * 4096) by lia.
  rewrite Z.mod_add, (Z.mod_small 4095) by lia.
  replace (4095 + (vpn + n - 1) * 4096 - 4095) with ((vpn + Z.of_nat (Z.to_nat (n - 1))) * 4096) by lia.
  assert (u32 ((vpn + Z.of_nat (Z.to_nat (n - 1))) * 4096 - vpn * 4096) / PGSIZE = n - 1) as ->.
  { rewrite u32_id by lia. unfold PGSIZE. 
    replace (_ * 4096 - vpn * 4096) with ((n - 1) * 4096) by lia. apply Z.div_mul. lia. }
  replace n with (Z.of_nat (Z.to_nat (n - 1)) + 1) at 3 by lia.
  apply mappages_loop_does; try done; try lia. intros v Hvr. apply Hnone. lia.
Qed.

(** ** The hardware follows the mapping *)

Lemma translate_mapping x T l va :
  aspace x pgdir T l → 0 <= va < 2 ^ 32 →
  translate (x_mem x) pgdir va false = (λ e, p2v (PTE_ADDR e) + va mod 4096) <$> mapping x T (va / 4096).
Proof.
  intros Ha Hva. unfold translate, mapping, entry. rewrite PDX_eq, PTX_eq by done. destruct (pdx_range va Hva) as [Hd _].
  rewrite PDX_eq in Hd by done. pose proof (as_pde _ _ _ _ Ha _ Hd) as He. destruct (T !! (va / 4096 / 1024)) as [t|] eqn:Ht.
  - rewrite He. destruct (as_tab _ _ _ _ Ha _ _ Ht) as (_ & Hv & _). rewrite (proj1 (table_flags t Hv)).
    rewrite page_entry by (done || lia). rewrite andb_true_l, andb_true_r. by case_match.
  - by rewrite He.
Qed.

(** An address space does not change when memory it does not own does. *)
Lemma aspace_mem x T l m :
  aspace x pgdir T l → (∀ b, owned pgdir T l b → m b = x_mem x b) →
  aspace (set_x_mem m x) pgdir T l ∧ ∀ v, 0 <= v < 2 ^ 20 → mapping (set_x_mem m x) T v = mapping x T v.
Proof.
  intros Ha Hm. assert (∀ p i, (p = pgdir ∨ ∃ d, T !! d = Some p) → 0 <= i < 1024 →
    get32 m (p + 4 * i) = get32 (x_mem x) (p + 4 * i)) as Hw.
  { intros p i Hp Hi. apply get32_ext. intros b Hb. apply Hm. assert (in_page p b) by (unfold in_page, PGSIZE; lia).
    destruct Hp as [->|[d Hd]]; [by left|]. right; left. by exists d, p. }
  split.
  - split; try (by destruct Ha).
    + apply free_list_mem; [apply Ha|]. intros p b Hp Hb. apply Hm. right; right. by exists p.
    + intros i Hi. cbn [x_mem set_x_mem]. rewrite Hw by (done || by left). by apply (as_pde _ _ _ _ Ha).
  - intros v Hv. unfold mapping, entry. cbn [x_mem set_x_mem]. destruct (vpn_parts v Hv) as [_ Hmod].
    destruct (T !! (v / 1024)) as [t|] eqn:Ht; [|done]. rewrite Hw; [done|right; by exists (v / 1024)|done].
Qed.

(** ** Frames of user pages

    The pages from [lo] to [hi] are mapped for the user to the frames [F], which
    are pages of their own. *)
Record user_range x T l (F : Z → Z) (lo hi : Z) : Prop := {
  ur_range : 0 <= lo ∧ hi < 2 ^ 19;
  ur_map v : lo <= v <= hi → ∃ fl, 0 <= fl < 4096 ∧ mapping x T v = Some (v2p (F v) + fl) ∧
    has_flag (v2p (F v) + fl) PTE_U = true;
  ur_page v : lo <= v <= hi → valid_page (F v);
  ur_own v b : lo <= v <= hi → in_page (F v) b → ¬ owned pgdir T l b;
  ur_inj v w : lo <= v <= hi → lo <= w <= hi → F v = F w → v = w
}.

(** The physical address, as the kernel maps it, of a user address. *)
Definition phys (F : Z → Z) (a : Z) : Z := F (a / 4096) + a mod 4096.

(** [m'] is [m] with the bytes of [buf] at the user addresses from [va] on. *)
Definition bytes_copied (F : Z → Z) (va : Z) (buf : list Z) m m' : Prop :=
  (∀ j, (j < length buf)%nat → m' (phys F (va + Z.of_nat j)) = buf !!! j) ∧
  (∀ b, (∀ j, (j < length buf)%nat → b ≠ phys F (va + Z.of_nat j)) → m' b = m b).

Lemma page_of a lo hi : lo * 4096 <= a < (hi + 1) * 4096 → lo <= a / 4096 <= hi.
Proof. intros Ha. split; [apply Z.div_le_lower_bound; lia|]. enough (a / 4096 < hi + 1) by lia. apply Z.div_lt_upper_bound; lia. Qed.

Lemma phys_inj x T l F lo hi a b :
  user_range x T l F lo hi → lo * 4096 <= a < (hi + 1) * 4096 → lo * 4096 <= b < (hi + 1) * 4096 →
  phys F a = phys F b → a = b.
Proof.
  intros Hu Ha Hb He. pose proof (page_of a lo hi Ha) as Hpa. pose proof (page_of b lo hi Hb) as Hpb. unfold phys in He.
  pose proof (Z.mod_pos_bound a 4096 ltac:(lia)). pose proof (Z.mod_pos_bound b 4096 ltac:(lia)).
  assert (a / 4096 = b / 4096) as Hq.
  { destruct (decide (F (a / 4096) = F (b / 4096))) as [Hf|Hf]; [by apply (ur_inj _ _ _ _ _ _ Hu)|]. exfalso.
    apply (in_page_apart (F (a / 4096)) (F (b / 4096)) (phys F a)); [by apply Hu..|done| |]; unfold in_page, phys, PGSIZE; lia. }
  rewrite Hq in He. pose proof (Z.div_mod a 4096 ltac:(lia)). pose proof (Z.div_mod b 4096 ltac:(lia)). lia.
Qed.

Lemma copied_app x T l F lo hi va b1 b2 m m1 m2 :
  user_range x T l F lo hi → lo * 4096 <= va → va + Z.of_nat (length (b1 ++ b2)) <= (hi + 1) * 4096 →
  bytes_copied F va b1 m m1 → bytes_copied F (va + Z.of_nat (length b1)) b2 m1 m2 → bytes_copied F va (b1 ++ b2) m m2.
Proof.
  intros Hu Hlo Hhi [A1 A2] [B1 B2]. rewrite length_app in Hhi. split.
  - intros j Hj. rewrite length_app in Hj. destruct (decide (j < length b1)%nat) as [Hjb|Hjb].
    + rewrite lookup_total_app_l by done. rewrite B2; [by apply A1|]. intros i Hi He.
      apply (phys_inj x T l F lo hi) in He; [lia|done|lia|lia].
    + rewrite lookup_total_app_r by lia. rewrite <-B1 by lia. do 2 f_equal. lia.
  - intros b Hb. rewrite length_app in Hb. rewrite B2, A2; [done| |].
    + intros j Hj. apply Hb. lia.
    + intros j Hj. replace (va + Z.of_nat (length b1) + Z.of_nat j) with (va + Z.of_nat (length b1 + j)) by lia.
      apply Hb. lia.
Qed.

(** Bytes within one page. *)
Lemma copied_page F va buf m :
  va mod 4096 + Z.of_nat (length buf) <= 4096 → bytes_copied F va buf m (array_at (phys F va) buf m).
Proof.
  intros Hl. assert (∀ j, (j < length buf)%nat → phys F (va + Z.of_nat j) = phys F va + Z.of_nat j) as Hp.
  { intros j Hj. unfold phys. pose proof (Z.div_mod va 4096 ltac:(lia)). pose proof (Z.mod_pos_bound va 4096 ltac:(lia)).
    replace (va + Z.of_nat j) with (va mod 4096 + Z.of_nat j + va / 4096 * 4096) by lia.
    rewrite Z.div_add, Z.mod_add, Z.div_small, Z.mod_small, Z.add_0_l by lia. lia. }
  split.
  - intros j Hj. unfold array_at. rewrite Hp, decide_True by (done || lia). f_equal. lia.
  - intros b Hb. unfold array_at. case_decide as Hd; [|done]. exfalso.
    apply (Hb (Z.to_nat (b - phys F va))); [lia|]. rewrite Hp by lia. lia.
Qed.

Lemma user_range_mem x T l F lo hi m :
  aspace x pgdir T l → user_range x T l F lo hi → (∀ b, owned pgdir T l b → m b = x_mem x b) →
  user_range (set_x_mem m x) T l F lo hi.
Proof.
  intros Ha [U1 U2 U3 U4 U5] Hm. destruct (aspace_mem x T l m Ha Hm) as [_ Hmap]. split; try done.
  intros v Hv. rewrite Hmap by lia. by apply U2.
Qed.

Lemma uva2ka_does x T l F lo hi v C :
  aspace x pgdir T l → user_range x T l F lo hi → lo <= v <= hi →
  does (uva2ka pgdir (v * 4096)) x (λ r y, y = x ∧ r = F v) C.
Proof.
  intros Ha Hu Hv. pose proof (ur_range _ _ _ _ _ _ Hu). destruct (page_parts v ltac:(lia)) as (Hva & Hdx & Htx).
  destruct (ur_map _ _ _ _ _ _ Hu v Hv) as (fl & Hfl & Hmap & HU). unfold uva2ka.
  eapply does_bind; [by apply (walk_does x T l)|]. intros ? ? [-> ->]. rewrite Hdx, Htx. unfold mapping, entry in Hmap.
  destruct (T !! (v / 1024)) as [t|] eqn:Ht; [|done]. destruct (as_tab _ _ _ _ Ha _ _ Ht) as (_ & Hvt & _).
  pose proof (vp_range _ _ Hvt). destruct (vpn_parts v ltac:(lia)) as [_ Hm]. rewrite decide_False by lia.
  apply does_get_bind. destruct (has_flag (get32 (x_mem x) (t + 4 * (v mod 1024))) PTE_P) eqn:HP; [|done].
  injection Hmap as Hmap. rewrite Hmap in *. rewrite HU. cbn [negb]. apply does_ret. split; [done|].
  apply page_entry; [by apply Hu|done].
Qed.

Lemma copyout_loop_does n x T l F lo hi va buf C :
  aspace x pgdir T l → user_range x T l F lo hi → (length buf <= n)%nat →
  lo * 4096 <= va → va + Z.of_nat (length buf) <= (hi + 1) * 4096 →
  does (copyout_loop n pgdir va buf) x
    (λ r y, r = 0 ∧ ∃ m', y = set_x_mem m' x ∧ bytes_copied F va buf (x_mem x) m') C.
Proof.
  revert x va buf. induction n as [|n IH]; intros x va buf Ha Hu Hn Hlo Hhi; cbn [copyout_loop];
    (destruct (decide (buf = [])) as [->|Hne];
      [apply does_ret; split; [done|]; exists (x_mem x); split; [by destruct x|by split; [intros j Hj; simpl in Hj; lia|]]|]).
  { destruct buf; simpl in Hn; [done|lia]. }
  pose proof (ur_range _ _ _ _ _ _ Hu). assert (0 < Z.of_nat (length buf)) as Hpos by (destruct buf; [done|simpl; lia]).
  pose proof (page_of va lo hi ltac:(lia)) as Hpg. pose proof (Z.div_mod va 4096 ltac:(lia)) as Hdm.
  pose proof (Z.mod_pos_bound va 4096 ltac:(lia)) as Hmb.
  rewrite PGROUNDDOWN_eq by lia. replace (va - va mod 4096) with (va / 4096 * 4096) by lia.
  eapply does_bind; [by apply (uva2ka_does x T l F lo hi)|]. intros ? ? [-> ->].
  pose proof (ur_page _ _ _ _ _ _ Hu _ Hpg) as Hvp. pose proof (vp_range _ _ Hvp). rewrite decide_False by lia.
  apply does_upd_bind. replace (va - va / 4096 * 4096) with (va mod 4096) by lia. fold (phys F va).
  set (c := Z.to_nat (Z.min (PGSIZE - va mod 4096) (Z.of_nat (length buf)))).
  assert (bytes_copied F va (take c buf) (x_mem x) (array_at (phys F va) (take c buf) (x_mem x))) as Hc1.
  { apply copied_page. rewrite length_take. unfold c, PGSIZE. lia. }
  set (m1 := array_at _ _ _) in *.
  assert (∀ b, owned pgdir T l b → m1 b = x_mem x b) as Hown.
  { intros b Hb. apply (proj2 Hc1). intros j Hj ->. rewrite length_take in Hj.
    eapply (ur_own _ _ _ _ _ _ Hu ((va + Z.of_nat j) / 4096)); [apply page_of; lia| |exact Hb].
    unfold in_page, phys, PGSIZE. pose proof (Z.mod_pos_bound (va + Z.of_nat j) 4096 ltac:(lia)). lia. }
  destruct (aspace_mem x T l m1 Ha Hown) as [Ha1 _]. pose proof (user_range_mem x T l F lo hi m1 Ha Hu Hown) as Hu1.
  assert (0 < Z.of_nat c <= Z.of_nat (length buf)) as Hc by (unfold c, PGSIZE; lia).
  assert (drop c buf ≠ [] → Z.of_nat c = 4096 - va mod 4096) as Hfull.
  { intros Hd. unfold c, PGSIZE. destruct (decide (4096 - va mod 4096 <= Z.of_nat (length buf))); [lia|].
    destruct Hd. apply drop_ge. unfold c, PGSIZE. lia. }
  assert (does (copyout_loop n pgdir (u32 (va / 4096 * 4096 + PGSIZE)) (drop c buf)) (set_x_mem m1 x)
    (λ r y, r = 0 ∧ ∃ m', y = set_x_mem m' (set_x_mem m1 x) ∧ bytes_copied F (va + Z.of_nat c) (drop c buf) m1 m') C) as Hrest.
  { destruct (decide (drop c buf = [])) as [Hd|Hd].
    - rewrite Hd. destruct n; cbn [copyout_loop]; rewrite decide_True by done; apply does_ret; (split; [done|]);
        exists m1; (split; [by destruct x|]); (split; [intros j Hj; simpl in Hj; lia|done]).
    - specialize (Hfull Hd). assert (0 < Z.of_nat (length (drop c buf))) by (destruct (drop c buf); [done|simpl; lia]).
      rewrite length_drop in *. replace (va / 4096 * 4096 + PGSIZE) with (va + Z.of_nat c) by (unfold PGSIZE; lia).
      rewrite u32_id by lia. apply IH; try done; rewrite ?length_drop; lia. }
  eapply does_mono; [exact Hrest| |done]. intros r y (-> & m' & -> & Hc2). split; [done|]. exists m'. split; [by destruct x|].
  rewrite <-(take_drop c buf) at 1. eapply copied_app; [exact Hu|done|by rewrite take_drop|exact Hc1|].
  rewrite length_take, Nat.min_l by lia. exact Hc2.
Qed.

(** ** The claims *)


(** C17. [copyout] writes to the memory of the address space it is given, not the
    current one: when the pages of the range are mapped for the user to frames of
    their own, it returns 0, every byte of the buffer is read back at its address
    through that page directory, every other byte of these pages reads as before,
    and no memory outside their frames has changed. *)
Theorem copyout_spec k T l F lo hi va buf :
  fsok k → aspace (k_ext k) pgdir T l → user_range (k_ext k) T l F lo hi →
  lo * 4096 <= va → va + Z.of_nat (length buf) <= (hi + 1) * 4096 →
  ∃ k', copyout pgdir va buf k = Ret 0 k' ∧
    (∀ a, lo * 4096 <= a < (hi + 1) * 4096 →
      x_mem (k_ext k') <$> translate (x_mem (k_ext k')) pgdir a false =
      if decide (va <= a < va + Z.of_nat (length buf)) then Some (buf !!! Z.to_nat (a - va))
      else x_mem (k_ext k) <$> translate (x_mem (k_ext k)) pgdir a false) ∧
    (∀ b, (∀ v, lo <= v <= hi → ¬ in_page (F v) b) → x_mem (k_ext k') b = x_mem (k_ext k) b).
Proof.
  intros Hk Ha Hu Hlo Hhi. set (x := k_ext k) in *.
  destruct (does_returns (copyout pgdir va buf) k
    (λ r y, r = 0 ∧ ∃ m', y = set_x_mem m' x ∧ bytes_copied F va buf (x_mem x) m')) as (r & k' & Hrun & _ & -> & m' & Hy & Hc1 & Hc2).
  { done. } { apply (copyout_loop_does _ x T l F lo hi); try done. lia. }
  pose proof (ur_range _ _ _ _ _ _ Hu) as Hr.
  assert (∀ b, (∀ v, lo <= v <= hi → ¬ in_page (F v) b) → m' b = x_mem x b) as Hout.
  { intros b Hb. apply Hc2. intros j Hj ->. apply (Hb ((va + Z.of_nat j) / 4096)); [apply page_of; lia|].
    unfold in_page, phys, PGSIZE. pose proof (Z.mod_pos_bound (va + Z.of_nat j) 4096 ltac:(lia)). lia. }
  destruct (aspace_mem x T l m' Ha) as [Ha' Hmap].
  { intros b Hb. apply Hout. intros v Hv Hin. by apply (ur_own _ _ _ _ _ _ Hu v b). }
  exists k'. split; [done|]. rewrite Hy. split; [|done]. intros a Hra.
  pose proof (page_of a lo hi Hra) as Hpg. destruct (ur_map _ _ _ _ _ _ Hu _ Hpg) as (fl & Hfl & Hm & _).
  pose proof (Hmap (a / 4096) ltac:(lia)) as Hm'. rewrite Hm in Hm'.
  rewrite (translate_mapping (set_x_mem m' x) T l), (translate_mapping x T l), Hm, Hm' by (done || lia).
  cbn [fmap option_fmap option_map x_mem set_x_mem]. rewrite page_entry by (done || by apply Hu).
  fold (phys F a). case_decide as Hd; f_equal.
  - rewrite <-(Hc1 (Z.to_nat (a - va))) by lia. do 2 f_equal. lia.
  - apply Hc2. intros j Hj He. apply (phys_inj x T l F lo hi) in He; [lia|done|done|lia].
Qed.

(** Without free pages there are no new tables. *)
Lemma no_new_tables x T y T' l' i : extends x T [] y T' l' → T' !! i = T !! i.
Proof.
  intros [Ha _ Hsub _ Hown _]. destruct (T !! i) as [t|] eqn:Ht; [by eapply lookup_weaken|].
  destruct (T' !! i) as [t|] eqn:Ht'; [|done]. exfalso. destruct (as_tab _ _ _ _ Ha _ _ Ht') as (_ & Hv & Hne & _).
  destruct (Hown t) as [Hb|[(j & u & Hu & Hb)|(q & Hq & _)]].
  - right; left. exists i, t. split; [done|]. unfold in_page, PGSIZE. lia.
  - apply (in_page_apart t pgdir t); [done|apply Ha|done|unfold in_page, PGSIZE; lia|done].
  - pose proof (lookup_weaken _ _ _ _ Hu Hsub) as Hu'. destruct (as_tab _ _ _ _ Ha _ _ Hu') as (_ & Hvu & _).
    destruct (decide (t = u)) as [->|Htu]; [|by apply (in_page_apart t u t); unfold in_page, PGSIZE in *; try done; lia].
    pose proof (as_inj _ _ _ _ Ha _ _ _ Ht' Hu') as ->. congruence.
  - by apply not_elem_of_nil in Hq.
Qed.

(** A free page taken for data and cleared. *)
Lemma take_page x T p l :
  aspace x pgdir T (p :: l) →
  let y := set_x_mem (memset p 0 PGSIZE (x_mem x)) (popped x) in
  aspace y pgdir T l ∧ ∀ v, 0 <= v < 2 ^ 20 → mapping y T v = mapping x T v.
Proof.
  intros Ha y. pose proof (as_free _ _ _ _ Ha) as Hf. destruct (popped_list _ _ _ Hf) as (_ & Hl & Hm).
  pose proof (fl_valid _ _ _ Hf) as Hval. apply Forall_cons in Hval as [Hp Hval].
  pose proof (fl_nodup _ _ _ Hf) as Hnd. apply NoDup_cons in Hnd as [Hpl _].
  assert (aspace (popped x) pgdir T l) as Hay.
  { destruct Ha as [A1 A2 A3 A4 A5 A6]. split; try done.
    - intros i t Ht. destruct (A3 i t Ht) as (? & ? & ? & Hn). split; [done|]. split_and!; try done. intros ?. apply Hn. by right.
    - intros ?. apply A5. by right.
    - by rewrite Hm. }
  destruct (aspace_mem (popped x) T l (memset p 0 PGSIZE (x_mem x)) Hay) as [H1 H2].
  { intros b Hb. rewrite Hm, memset_filled by (unfold PGSIZE; lia). apply decide_False. intros Hin.
    destruct Hb as [Hb|[(i & t & Ht & Hb)|(q & Hq & Hb)]].
    - apply (in_page_apart p pgdir b); try done; [apply Ha|]. intros ->. apply (as_used _ _ _ _ Ha). left.
    - destruct (as_tab _ _ _ _ Ha _ _ Ht) as (_ & Hvt & _ & Hnt). apply (in_page_apart p t b); try done.
      intros ->. apply Hnt. left.
    - apply (in_page_apart p q b); try done; [|by intros ->]. rewrite Forall_forall in Hval. by apply Hval. }
  split; [done|]. intros v Hv. unfold y. rewrite H2 by done. unfold mapping. by rewrite Hm.
Qed.

Context {PT : Ports}.

(** [allocuvm] does not look at the result of [mappages].  When one page is
    free and the first page of the process needs a table, the free page is taken
    for the data and none is left for the table; the call reports success all the
    same, and the memory the process was given is not mapped. *)
Theorem allocuvm_unmapped k T p :
  fsok k → aspace (k_ext k) pgdir T [p] → T !! 0 = None →
  ∃ k', allocuvm end_ pgdir 0 4096 k = Ret 4096 k' ∧
    ∀ va, 0 <= va < 4096 → translate (x_mem (k_ext k')) pgdir va false = None.
Proof.
  intros Hk Ha HT. set (x := k_ext k) in *. pose proof (as_free _ _ _ _ Ha) as Hf.
  pose proof (fl_valid _ _ _ Hf) as Hval. apply Forall_cons in Hval as [Hp _]. pose proof (vp_range _ _ Hp).
  destruct (does_returns (allocuvm end_ pgdir 0 4096) k
    (λ r y, r = 4096 ∧ ∃ T' l', aspace y pgdir T' l' ∧ T' !! 0 = None)) as (r & k' & Hrun & _ & -> & T' & l' & Ha' & HT').
  - done.
  - unfold allocuvm. rewrite !decide_False by (unfold KERNBASE; lia). change (PGROUNDUP 0) with 0.
    change (Z.to_nat (4096 / PGSIZE + 1)) with 2%nat. cbn [allocuvm_loop]. rewrite decide_True by lia.
    eapply does_bind; [eapply kalloc_does, Hf|]. intros ? y (-> & Hl & Hm & -> & _). cbn [head default from_option id tail] in *.
    rewrite decide_False by lia. apply does_upd_bind. rewrite Hm.
    destruct (take_page x T p [] Ha) as [Haz _].
    set (z := set_x_mem _ (popped x)) in *. destruct (page_kernel p Hp) as (P1 & P2 & P3 & P4). unfold KERNBASE, PHYSTOP, PGSIZE in *.
    eapply does_bind; [apply (mappages_does z T [] 0 1); try done; rewrite ?P3; try lia|].
    + intros v Hv. replace v with 0 by lia. unfold mapping, entry. change (0 / 1024) with 0. by rewrite HT.
    + intros r w (T' & l' & He & _). rewrite decide_False by (vm_compute; done). apply does_ret. split; [done|].
      exists T', l'. split; [apply He|]. by rewrite (no_new_tables z T w T' l' 0 He).
  - exists k'. split; [done|]. intros va Hva. rewrite (translate_mapping _ T' l') by (done || lia).
    unfold mapping, entry. rewrite (Z.div_small va) by lia. change (0 / 1024) with 0. by rewrite HT'.
Qed.
End walk.
End pages.

(** ** Witnesses

    An empty page directory with one free page; the same with the page as its
    first table, and a frame mapped at address 0. *)
Definition demo_dir : Z := 0x80400000.
Definition demo_tab : Z := 0x80401000.
Definition demo_frame : Z := 0x80402000.
Definition demo_vm : ext := freed demo_tab (ext0 (λ _, 0)).
Definition demo_vm1 : ext := with_entry (with_table demo_dir demo_vm 0 demo_tab) demo_tab 0 (mk_pte (v2p demo_frame) 6).

Lemma demo_pages p : p = demo_dir ∨ p = demo_tab ∨ p = demo_frame → valid_page KERNBASE p.
Proof. intros [->|[->| ->]]; split; vm_compute; done || lia. Qed.

Lemma demo_aspace : aspace KERNBASE demo_vm demo_dir ∅ [demo_tab].
Proof.
  split.
  - apply freed_list; [apply demo_pages; auto|apply not_elem_of_nil|]. split; [done|apply NoDup_nil_2|done].
  - apply demo_pages. auto.
  - done.
  - done.
  - unfold demo_dir, demo_tab. set_solver.
  - intros i Hi. rewrite lookup_empty. rewrite (get32_ext (λ _, 0)); [done|]. intros b Hb.
    apply freed_mem. unfold demo_dir, demo_tab, PGSIZE in *. lia.
Qed.

Lemma demo_aspace1 : aspace KERNBASE demo_vm1 demo_dir (<[0 := demo_tab]> ∅) [].
Proof.
  eapply ex_as, with_entry_extends; [|apply lookup_insert_eq|lia].
  eapply ex_as, with_table_extends; [apply demo_aspace|lia|done].
Qed.

Lemma demo_range : user_range KERNBASE demo_dir demo_vm1 (<[0 := demo_tab]> ∅) [] (λ _, demo_frame) 0 0.
Proof.
  split; [lia| | | |lia].
  - intros v Hv. exists 7. split; [lia|]. replace v with 0 by lia. split; [|reflexivity].
    unfold demo_vm1. rewrite (with_entry_mapping KERNBASE demo_dir _ _ [] 0); [reflexivity| |apply lookup_insert_eq|lia|lia|vm_compute; done || lia].
    eapply ex_as, with_table_extends; [apply demo_aspace|lia|done].
  - intros v _. apply demo_pages. auto.
  - intros v b _ Hb [Hb'|[(i & t & Ht & Hb')|(p & Hp & _)]].
    + unfold in_page, demo_dir, demo_frame, PGSIZE in *. lia.
    + apply lookup_insert_Some in Ht as [[_ <-]|[_ Ht]]; [|done]. unfold in_page, demo_tab, demo_frame, PGSIZE in *. lia.
    + by apply not_elem_of_nil in Hp.
Qed.


Lemma copyout_spec_witness :
  ∃ k', copyout demo_dir 4 [104; 105; 0] (fs_boot demo_vm1) = Ret 0 k' ∧
    x_mem (k_ext k') <$> translate (x_mem (k_ext k')) demo_dir 5 false = Some 105.
Proof.
  destruct (copyout_spec KERNBASE demo_dir (fs_boot demo_vm1) (<[0 := demo_tab]> ∅) [] (λ _, demo_frame) 0 0 4 [104; 105; 0])
    as (k' & Hrun & Hread & _).
  - apply fsok_boot.
  - apply demo_aspace1.
  - apply demo_range.
  - lia.
  - simpl. lia.
  - exists k'. split; [exact Hrun|]. clear Hrun. rewrite Hread by lia. rewrite decide_True by (simpl; lia). vm_compute. reflexivity.
Defined.

Lemma allocuvm_unmapped_witness :
  ∃ k', allocuvm (PT := quiet_ports) KERNBASE demo_dir 0 4096 (fs_boot demo_vm) = Ret 4096 k' ∧
    translate (x_mem (k_ext k')) demo_dir 0 false = None.
Proof.
  destruct (allocuvm_unmapped KERNBASE demo_dir (PT := quiet_ports) (fs_boot demo_vm) ∅ demo_tab) as (k' & Hrun & Ht).
  - apply fsok_boot.
  - apply demo_aspace.
  - reflexivity.
  - exists k'. split; [exact Hrun|]. apply Ht. split; [discriminate|reflexivity].
Defined.
