(* ===== verification/Fs.v ===== *)
(** * The file system (fs.c)

    Blocks, inodes, directories and paths, over the buffer cache and the log.
    Inodes on the disk are bytes of blocks; the inode cache holds the ones in
    use.  [readi] and [writei] are polymorphic in where the bytes go to and come
    from: memory of the caller, memory of the kernel, or a structure. *)

From stdpp Require Import base list gmap strings.
From Stdlib Require Import ZArith Lia.
From S2P Require Import Prelude KState Spinlock CString Proc ProcForms Syscall KExt KRun Ide Bio Log.

(** ** Constants of fs.h, stat.h and file.h *)

Definition ROOTINO : Z := 1.
Definition MAXFILE : Z := Z.of_nat NDIRECT + Z.of_nat NINDIRECT.
Definition SIZEOF_DINODE : Z := 64.
Definition IPB : Z := BSIZE / SIZEOF_DINODE.
Definition IBLOCK (i : Z) : Z := u32 (i / IPB + 2).
Definition BPB : Z := BSIZE * 8.
Definition BBLOCK (b ninodes : Z) : Z := u32 (b / BPB + ninodes / IPB + 3).
Definition DIRSIZ : nat := 14.
Definition SIZEOF_DIRENT : Z := 16.
Definition T_DIR : Z := 1.
Definition T_FILE : Z := 2.
Definition T_DEV : Z := 3.
Definition I_BUSY : Z := 1.
Definition I_VALID : Z := 2.
Definition ch_slash : Z := 47.

(** ** Bytes of structures *)

Definition half_bytes (v : Z) : list Z := [u8 v; u8 (Z.shiftr v 8)].
Definition word_bytes (v : Z) : list Z := [word_byte 0 v; word_byte 1 v; word_byte 2 v; word_byte 3 v].
Definition half_at (d : list Z) (off : nat) : Z := d !!! off + 256 * d !!! S off.
Definition word_at (d : list Z) (off : nat) : Z :=
  word_of (d !!! off) (d !!! (off + 1)%nat) (d !!! (off + 2)%nat) (d !!! (off + 3)%nat).

(** [memmove(d + off, l, length l)] in an array. *)
Definition put_bytes (off : nat) (l d : list Z) : list Z := list_inserts off l d.

(** [struct dinode] *)
Record dinode := Dinode {
  di_type : Z;
  di_major : Z;
  di_minor : Z;
  di_nlink : Z;
  di_size : Z;
  di_addrs : list Z
}.

Definition dinode_bytes (i : dinode) : list Z :=
  half_bytes (di_type i) ++ half_bytes (di_major i) ++ half_bytes (di_minor i) ++ half_bytes (di_nlink i) ++
  word_bytes (di_size i) ++ mjoin (word_bytes <$> di_addrs i).

Definition dinode_at (d : list Z) (off : nat) : dinode :=
  Dinode (s16 (half_at d off)) (s16 (half_at d (off + 2))) (s16 (half_at d (off + 4))) (s16 (half_at d (off + 6)))
    (word_at d (off + 8)) ((λ i, word_at d (off + 12 + 4 * i)) <$> seq 0 (S NDIRECT)).

(** The place of inode [inum] in its block. *)
Definition dinode_off (inum : Z) : nat := Z.to_nat (inum mod IPB * SIZEOF_DINODE).

(** [struct dirent] *)
Record dirent := Dirent {
  de_inum : Z;
  de_name : list Z
}.

Definition dirent_bytes (e : dirent) : list Z := half_bytes (de_inum e) ++ de_name e.
Definition dirent_of (l : list Z) : dirent := Dirent (half_at l 0) (take DIRSIZ (drop 2 l)).

(** ** Names *)

(** [strncmp(s, t, DIRSIZ)] on two strings that are separate objects and that end
    where their list ends. *)
Definition namecmp (s t : list Z) : Z :=
  strncmp DIRSIZ 0 64 (array_at 0 (take DIRSIZ s) (array_at 64 (take DIRSIZ t) (λ _, 0))).

(** [strncpy(de.name, name, DIRSIZ)] *)
Definition strncpy_name (name : list Z) : list Z :=
  read_array 0 DIRSIZ (strncpy DIRSIZ 0 64 (array_at 64 (take DIRSIZ name) (λ _, 0))).

Fixpoint skip_slashes (path : list Z) : list Z :=
  match path with
  | c :: path' => if decide (c = ch_slash) then skip_slashes path' else path
  | [] => []
  end.

(** The characters up to the next slash, and the rest. *)
Fixpoint span_elem (path : list Z) : list Z * list Z :=
  match path with
  | c :: path' => if decide (c = ch_slash) then ([], path) else
                  let '(s, rest) := span_elem path' in (c :: s, rest)
  | [] => ([], [])
  end.

(** The rest of the path and the name copied, of which at most [DIRSIZ]
    characters are kept. *)
Definition skipelem (path : list Z) : option (list Z * list Z) :=
  match skip_slashes path with
  | [] => None
  | path => let '(s, rest) := span_elem path in Some (skip_slashes rest, take DIRSIZ s)
  end.

(** ** Where [readi] copies to and [writei] copies from

    A destination is advanced by the bytes put there, a source by the number of
    bytes taken. *)

Definition sink (D : Type) : Type := D → list Z → M KX D.
Definition source (S : Type) : Type := S → nat → M KX (list Z * S).

Definition to_struct : sink (list Z) := λ d l, mret (d ++ l).
Definition to_kernel : sink Z := λ a l,
  upd_ext (λ x, set_x_mem (array_at a l (x_mem x)) x) ;; mret (a + Z.of_nat (length l)).
Definition from_struct : source (list Z) := λ s n, mret (take n s, drop n s).

(** The functions of a device. *)
Class Drivers := {
  drv_read : devid → ∀ D, sink D → nat → D → Z → M KX (Z * D);
  drv_write : devid → ∀ S, source S → nat → S → Z → M KX Z
}.

Section fs.
Context (flag : schedflag) (swtch : M KX unit) (iderw : nat → M KX unit) (fuel : nat).
Context {DR : Drivers}.

Abbreviation bread := (bread swtch iderw fuel).
Abbreviation brelse := (brelse flag).
Abbreviation readsb := (readsb flag swtch iderw fuel).

(** ** Blocks *)

Definition bzero (dev bno : Z) : M KX unit :=
  bp ← bread (u32 dev) (u32 bno);
  upd_buf bp (set_b_data (replicate 512 0)) ;;
  log_write bp ;;
  brelse bp.

(** The first of the [n] bits from [bi] on that is clear. *)
Fixpoint free_bit (n : nat) (bi : Z) (d : list Z) : option Z :=
  match n with
  | O => None
  | S n' => if decide (Z.land (d !!! Z.to_nat (bi / 8)) (Z.shiftl 1 (bi mod 8)) = 0) then Some bi
            else free_bit n' (bi + 1) d
  end.

Definition mark_bit (bi : Z) (d : list Z) : list Z :=
  alter (λ b, Z.lor b (Z.shiftl 1 (bi mod 8))) (Z.to_nat (bi / 8)) d.
Definition clear_bit (bi : Z) (d : list Z) : list Z :=
  alter (λ b, Z.ldiff b (Z.shiftl 1 (bi mod 8))) (Z.to_nat (bi / 8)) d.

(** The loop over the bitmap blocks from the one of block [b] on; [n] bounds
    their number. *)
Fixpoint balloc_loop (n : nat) (dev b : Z) (sb : superblock) : M KX Z :=
  if decide (b < sb_size sb) then
    bp ← bread (u32 dev) (BBLOCK b (sb_ninodes sb));
    d ← bfield bp b_data;
    match free_bit (Z.to_nat (Z.min BPB (sb_size sb - b))) 0 d with
    | Some bi =>
        upd_buf bp (λ q, set_b_data (mark_bit bi (b_data q)) q) ;;
        log_write bp ;;
        brelse bp ;;
        bzero dev (b + bi) ;;
        mret (b + bi)
    | None =>
        brelse bp ;;
        match n with O => block | S n' => balloc_loop n' dev (b + BPB) sb end
    end
  else panic "balloc: out of blocks".

Definition balloc (dev : Z) : M KX Z :=
  sb ← readsb dev;
  balloc_loop (Z.to_nat (sb_size sb / BPB + 1)) dev 0 sb.

Definition bfree (dev b : Z) : M KX unit :=
  sb ← readsb dev;
  bp ← bread (u32 dev) (BBLOCK b (sb_ninodes sb));
  let bi := b mod BPB in
  d ← bfield bp b_data;
  if decide (Z.land (d !!! Z.to_nat (bi / 8)) (Z.shiftl 1 (bi mod 8)) = 0) then panic "freeing free block" else
  upd_buf bp (λ q, set_b_data (clear_bit bi (b_data q)) q) ;;
  log_write bp ;;
  brelse bp.

(** ** Inodes *)

Definition inode_at (x : ext) (ip : nat) : inode := x_icache x !!! ip.
Definition ifield {A : Type} (ip : nat) (f : inode → A) : M KX A := ext_get (λ x, f (inode_at x ip)).
Definition upd_inode (ip : nat) (f : inode → inode) : M KX unit :=
  upd_ext (λ x, set_x_icache (alter f ip (x_icache x)) x).

Definition iinit : M KX unit := initlock icache_lock.

(** The scan of [iget]: the entry of the inode, or the first free entry. *)
Fixpoint iget_scan (l : list inode) (i : nat) (empty : option nat) (dev inum : Z) : nat + option nat :=
  match l with
  | [] => inr empty
  | ip :: l' =>
      if decide (i_ref ip > 0 ∧ i_dev ip = dev ∧ i_inum ip = inum) then inl i else
      iget_scan l' (S i) (if decide (empty = None ∧ i_ref ip = 0) then Some i else empty) dev inum
  end.

Definition iget (dev inum : Z) : M KX nat :=
  acquire icache_lock ;;
  l ← ext_get x_icache;
  match iget_scan l 0 None dev inum with
  | inl ip =>
      upd_inode ip (λ q, set_i_ref (s32 (i_ref q + 1)) q) ;;
      release icache_lock ;;
      mret ip
  | inr None => panic "iget: no inodes"
  | inr (Some ip) =>
      upd_inode ip (set_i_dev dev) ;;
      upd_inode ip (set_i_inum inum) ;;
      upd_inode ip (set_i_ref 1) ;;
      upd_inode ip (set_i_flags 0) ;;
      release icache_lock ;;
      mret ip
  end.

(** The loop of [ialloc] from [inum] on; [n] inodes are left. *)
Fixpoint ialloc_loop (n : nat) (dev inum type : Z) : M KX nat :=
  match n with
  | O => panic "ialloc: no inodes"
  | S n' =>
      bp ← bread dev (IBLOCK inum);
      d ← bfield bp b_data;
      if decide (di_type (dinode_at d (dinode_off inum)) = 0) then
        upd_buf bp (λ q, set_b_data (put_bytes (dinode_off inum)
          (dinode_bytes (Dinode type 0 0 0 0 (replicate (S NDIRECT) 0))) (b_data q)) q) ;;
        log_write bp ;;
        brelse bp ;;
        iget dev inum
      else
        brelse bp ;;
        ialloc_loop n' dev (inum + 1) type
  end.

Definition ialloc (dev type : Z) : M KX nat :=
  sb ← readsb dev;
  ialloc_loop (Z.to_nat (sb_ninodes sb - 1)) dev 1 type.

Definition iupdate (ip : nat) : M KX unit :=
  q ← ext_get (λ x, inode_at x ip);
  bp ← bread (i_dev q) (IBLOCK (i_inum q));
  q ← ext_get (λ x, inode_at x ip);
  upd_buf bp (λ b, set_b_data (put_bytes (dinode_off (i_inum q))
    (dinode_bytes (Dinode (i_type q) (i_major q) (i_minor q) (i_nlink q) (i_size q) (i_addrs q))) (b_data b)) b) ;;
  log_write bp ;;
  brelse bp.

Definition idup (ip : nat) : M KX nat :=
  acquire icache_lock ;;
  upd_inode ip (λ q, set_i_ref (s32 (i_ref q + 1)) q) ;;
  release icache_lock ;;
  mret ip.

(** [while(ip->flags & I_BUSY) sleep(ip, &icache.lock);]; [n] bounds the number of
    sleeps. *)
Fixpoint ilock_wait (n : nat) (ip : nat) : M KX unit :=
  fl ← ifield ip i_flags;
  if has_flag fl I_BUSY then
    sleep swtch (ChInode ip) (Some icache_lock) ;;
    match n with O => block | S n' => ilock_wait n' ip end
  else mret tt.

(** [ip->type = dip->type; ...] *)
Definition load_dinode (i : dinode) (q : inode) : inode :=
  set_i_addrs (di_addrs i) (set_i_size (di_size i) (set_i_nlink (di_nlink i)
    (set_i_minor (di_minor i) (set_i_major (di_major i) (set_i_type (di_type i) q))))).

Definition ilock (ip : option nat) : M KX unit :=
  match ip with
  | None => panic "ilock"
  | Some ip =>
      ref ← ifield ip i_ref;
      if decide (ref < 1) then panic "ilock" else
      acquire icache_lock ;;
      ilock_wait fuel ip ;;
      upd_inode ip (λ q, set_i_flags (Z.lor (i_flags q) I_BUSY) q) ;;
      release icache_lock ;;
      q ← ext_get (λ x, inode_at x ip);
      if has_flag (i_flags q) I_VALID then mret tt else
      bp ← bread (i_dev q) (IBLOCK (i_inum q));
      d ← bfield bp b_data;
      upd_inode ip (load_dinode (dinode_at d (dinode_off (i_inum q)))) ;;
      brelse bp ;;
      upd_inode ip (λ q, set_i_flags (Z.lor (i_flags q) I_VALID) q) ;;
      type ← ifield ip i_type;
      if decide (type = 0) then panic "ilock: no type" else mret tt
  end.

Definition iunlock (ip : option nat) : M KX unit :=
  match ip with
  | None => panic "iunlock"
  | Some ip =>
      q ← ext_get (λ x, inode_at x ip);
      if decide (has_flag (i_flags q) I_BUSY = false ∨ i_ref q < 1) then panic "iunlock" else
      acquire icache_lock ;;
      upd_inode ip (λ q, set_i_flags (Z.ldiff (i_flags q) I_BUSY) q) ;;
      wakeup flag (ChInode ip) ;;
      release icache_lock
  end.

(** ** Inode content *)

Definition set_addr (i : nat) (a : Z) (q : inode) : inode := set_i_addrs (<[i := a]> (i_addrs q)) q.

(** The entry [i] of the inode's addresses, allocated if it is 0. *)
Definition bmap_addr (ip i : nat) : M KX Z :=
  addr ← ifield ip (λ q, i_addrs q !!! i);
  if decide (addr = 0) then
    dev ← ifield ip i_dev;
    addr ← balloc dev;
    upd_inode ip (set_addr i addr) ;;
    mret addr
  else mret addr.

Definition bmap (ip : nat) (bn : Z) : M KX Z :=
  if decide (bn < Z.of_nat NDIRECT) then bmap_addr ip (Z.to_nat bn) else
  let bn := bn - Z.of_nat NDIRECT in
  if decide (bn < Z.of_nat NINDIRECT) then
    addr ← bmap_addr ip NDIRECT;
    dev ← ifield ip i_dev;
    bp ← bread dev addr;
    addr ← bfield bp (λ b, block_word (b_data b) (Z.to_nat bn));
    addr ← (if decide (addr = 0) then
              dev ← ifield ip i_dev;
              addr ← balloc dev;
              upd_buf bp (λ b, set_b_data (put_block_word (Z.to_nat bn) addr (b_data b)) b) ;;
              log_write bp ;;
              mret addr
            else mret addr);
    brelse bp ;;
    mret addr
  else panic "bmap: out of range".

(** The body of the first loop of [itrunc], and of the second. *)
Definition trunc_direct (ip i : nat) : M KX unit :=
  q ← ext_get (λ x, inode_at x ip);
  let a := i_addrs q !!! i in
  if decide (a = 0) then mret tt else
  bfree (i_dev q) a ;;
  upd_inode ip (set_addr i 0).

Definition trunc_entry (ip bp j : nat) : M KX unit :=
  a ← bfield bp (λ b, block_word (b_data b) j);
  if decide (a = 0) then mret tt else
  dev ← ifield ip i_dev;
  bfree dev a.

Definition itrunc (ip : nat) : M KX unit :=
  for_each (trunc_direct ip) (seq 0 NDIRECT) ;;
  q ← ext_get (λ x, inode_at x ip);
  let a := i_addrs q !!! NDIRECT in
  (if decide (a = 0) then mret tt else
   bp ← bread (i_dev q) a;
   for_each (trunc_entry ip bp) (seq 0 NINDIRECT) ;;
   brelse bp ;;
   bfree (i_dev q) a ;;
   upd_inode ip (set_addr NDIRECT 0)) ;;
  upd_inode ip (set_i_size 0) ;;
  iupdate ip.

Definition iput (ip : nat) : M KX unit :=
  acquire icache_lock ;;
  q ← ext_get (λ x, inode_at x ip);
  (if decide (i_ref q = 1 ∧ has_flag (i_flags q) I_VALID = true ∧ i_nlink q = 0) then
     if has_flag (i_flags q) I_BUSY then panic "iput busy" else
     upd_inode ip (λ q, set_i_flags (Z.lor (i_flags q) I_BUSY) q) ;;
     release icache_lock ;;
     itrunc ip ;;
     upd_inode ip (set_i_type 0) ;;
     iupdate ip ;;
     acquire icache_lock ;;
     upd_inode ip (set_i_flags 0) ;;
     wakeup flag (ChInode ip)
   else mret tt) ;;
  upd_inode ip (λ q, set_i_ref (s32 (i_ref q - 1)) q) ;;
  release icache_lock.

Definition iunlockput (ip : nat) : M KX unit :=
  iunlock (Some ip) ;;
  iput ip.

(** ** Reading and writing *)

(** The loop of [readi]; [n] bytes are left to read from [off].  [fl] bounds the
    number of blocks. *)
Fixpoint readi_loop {D : Type} (put : sink D) (fl : nat) (ip : nat) (dst : D) (off n : Z) : M KX D :=
  if decide (0 < n) then
    dev ← ifield ip i_dev;
    a ← bmap ip (off / BSIZE);
    bp ← bread dev a;
    let m := Z.min n (BSIZE - off mod BSIZE) in
    d ← bfield bp b_data;
    dst ← put dst (take (Z.to_nat m) (drop (Z.to_nat (off mod BSIZE)) d));
    brelse bp ;;
    match fl with O => block | S fl' => readi_loop put fl' ip dst (u32 (off + m)) (n - m) end
  else mret dst.

(** The number of blocks [n] bytes can touch. *)
Definition blocks_of (n : Z) : nat := Z.to_nat (n / BSIZE + 2).

Definition readi {D : Type} (put : sink D) (ip : nat) (dst : D) (off n : Z) : M KX (Z * D) :=
  q ← ext_get (λ x, inode_at x ip);
  if decide (i_type q = T_DEV) then
    if decide (i_major q < 0 ∨ i_major q >= NDEV) then mret (-1, dst) else
    sw ← ext_get (λ x, x_devsw x !!! Z.to_nat (i_major q));
    match dv_read sw with
    | None => mret (-1, dst)
    | Some dev => drv_read dev D put ip dst n
    end
  else if decide (off > i_size q ∨ u32 (off + n) < off) then mret (-1, dst) else
  let n := if decide (u32 (off + n) > i_size q) then i_size q - off else n in
  dst ← readi_loop put (blocks_of n) ip dst off n;
  mret (s32 n, dst).

(** The loop of [writei]; the result is the offset reached. *)
Fixpoint writei_loop {S : Type} (get : source S) (fl : nat) (ip : nat) (src : S) (off n : Z) : M KX Z :=
  if decide (0 < n) then
    dev ← ifield ip i_dev;
    a ← bmap ip (off / BSIZE);
    bp ← bread dev a;
    let m := Z.min n (BSIZE - off mod BSIZE) in
    '(l, src) ← get src (Z.to_nat m);
    upd_buf bp (λ b, set_b_data (put_bytes (Z.to_nat (off mod BSIZE)) l (b_data b)) b) ;;
    log_write bp ;;
    brelse bp ;;
    match fl with O => block | Datatypes.S fl' => writei_loop get fl' ip src (u32 (off + m)) (n - m) end
  else mret off.

Definition writei {S : Type} (get : source S) (ip : nat) (src : S) (off n : Z) : M KX Z :=
  q ← ext_get (λ x, inode_at x ip);
  if decide (i_type q = T_DEV) then
    if decide (i_major q < 0 ∨ i_major q >= NDEV) then mret (-1) else
    sw ← ext_get (λ x, x_devsw x !!! Z.to_nat (i_major q));
    match dv_write sw with
    | None => mret (-1)
    | Some dev => drv_write dev S get ip src n
    end
  else if decide (off > i_size q ∨ u32 (off + n) < off) then mret (-1) else
  if decide (u32 (off + n) > MAXFILE * BSIZE) then mret (-1) else
  off ← writei_loop get (blocks_of n) ip src off n;
  size ← ifield ip i_size;
  (if decide (n > 0 ∧ off > size) then upd_inode ip (set_i_size off) ;; iupdate ip else mret tt) ;;
  mret (s32 n).

(** ** Directories *)

Definition read_dirent (dp : nat) (off : Z) (msg : string) : M KX dirent :=
  '(r, l) ← readi to_struct dp [] off SIZEOF_DIRENT;
  if decide (r ≠ SIZEOF_DIRENT) then panic msg else mret (dirent_of l).

(** The loop of [dirlookup] from [off]; [n] bounds the number of entries. *)
Fixpoint dirlookup_loop (n : nat) (dp : nat) (name : list Z) (off : Z) : M KX (option (nat * Z)) :=
  size ← ifield dp i_size;
  if decide (off < size) then
    de ← read_dirent dp off "dirlink read";
    if decide (de_inum de ≠ 0 ∧ namecmp name (de_name de) = 0) then
      dev ← ifield dp i_dev;
      ip ← iget dev (de_inum de);
      mret (Some (ip, off))
    else match n with O => block | S n' => dirlookup_loop n' dp name (u32 (off + SIZEOF_DIRENT)) end
  else mret None.

(** The inode and the offset of the entry. *)
Definition dirlookup (dp : nat) (name : list Z) : M KX (option (nat * Z)) :=
  type ← ifield dp i_type;
  if decide (type ≠ T_DIR) then panic "dirlookup not DIR" else
  size ← ifield dp i_size;
  dirlookup_loop (Z.to_nat (size / SIZEOF_DIRENT + 1)) dp name 0.

Fixpoint empty_dirent (n : nat) (dp : nat) (off : Z) : M KX Z :=
  size ← ifield dp i_size;
  if decide (off < size) then
    de ← read_dirent dp off "dirlink read";
    if decide (de_inum de = 0) then mret off else
    match n with O => block | S n' => empty_dirent n' dp (off + SIZEOF_DIRENT) end
  else mret off.

Definition dirlink (dp : nat) (name : list Z) (inum : Z) : M KX Z :=
  r ← dirlookup dp name;
  match r with
  | Some (ip, _) => iput ip ;; mret (-1)
  | None =>
      size ← ifield dp i_size;
      off ← empty_dirent (Z.to_nat (size / SIZEOF_DIRENT + 1)) dp 0;
      r ← writei from_struct dp (dirent_bytes (Dirent (u16 inum) (strncpy_name name))) off SIZEOF_DIRENT;
      if decide (r ≠ SIZEOF_DIRENT) then panic "dirlink" else mret 0
  end.

(** ** Paths *)

(** The loop of [namex] at the directory [ip]; [n] bounds the number of elements.
    The result is the inode and the last name copied. *)
Fixpoint namex_loop (n : nat) (ip : nat) (path : list Z) (parent : bool) (name : list Z) :
    M KX (option (nat * list Z)) :=
  match skipelem path with
  | None => if parent then iput ip ;; mret None else mret (Some (ip, name))
  | Some (path, name) =>
      ilock (Some ip) ;;
      type ← ifield ip i_type;
      if decide (type ≠ T_DIR) then iunlockput ip ;; mret None else
      if decide (parent = true ∧ path = []) then iunlock (Some ip) ;; mret (Some (ip, name)) else
      next ← dirlookup ip name;
      match next with
      | None => iunlockput ip ;; mret None
      | Some (next, _) =>
          iunlockput ip ;;
          match n with O => block | S n' => namex_loop n' next path parent name end
      end
  end.

Definition namex (path : list Z) (parent : bool) : M KX (option (nat * list Z)) :=
  ip ← (if decide (head path = Some ch_slash) then iget ROOTDEV ROOTINO
        else cur ← myproc; cwd ← field cur p_cwd; ip ← deref cwd; idup ip);
  namex_loop (length path) ip path parent [].

Definition namei (path : list Z) : M KX (option nat) :=
  r ← namex path false; mret (fst <$> r).
Definition nameiparent (path : list Z) : M KX (option (nat * list Z)) := namex path true.

(** ** Metadata

    [struct stat] in the memory of the caller. *)
Definition ustore16 {UM : UserMem ext} (a v : Z) : M KX unit :=
  ustore8 a (word_byte 0 v) ;; ustore8 (a + 1) (word_byte 1 v).

Definition stati {UM : UserMem ext} (ip : nat) (st : Z) : M KX unit :=
  q ← ext_get (λ x, inode_at x ip);
  ustore32 (st + 4) (i_dev q) ;;
  ustore32 (st + 8) (i_inum q) ;;
  ustore16 st (i_type q) ;;
  ustore16 (st + 12) (i_nlink q) ;;
  ustore32 (st + 16) (i_size q).
End fs.
