(* ===== verification/FsSpec.v ===== *)
(** * What the file system computes

    The contents of a file are the bytes of its blocks, direct and indirect, as the
    cache has them: reading and overwriting a file act on that sequence of bytes,
    and a write inside a transaction leaves exactly the changed blocks dirty and
    listed in the log. *)

From stdpp Require Import base list gmap strings.
From Stdlib Require Import ZArith Lia.
From S2P Require Import Prelude KState Spinlock CString Proc ProcForms Syscall KExt KRun Ide Bio Log Fs.

(** ** Blocks that are looked at *)

Section looking.
Context (flag : schedflag) (swtch : M KX unit) (iderw : nat → M KX unit) (fuel : nat).
Context {stop : Prop} {DK : DiskOk iderw stop}.
Implicit Types (x y z : ext) (D P : blocks) (H : gmap nat held_block).

(** A block that was read and not changed is given back. *)
Lemma give_back_does {B} b key (k : M KX B) x y D P H Q C :
  H !! b = None → bstate y D (delete key P) (<[b := taken D P key]> H) → bio_only x y →
  (∀ z, bstate z D P H → bio_only x z → does k z Q C) → does (brelse flag b ;; k) y Q C.
Proof.
  intros Hb Hy Hio Hk. eapply does_bind.
  { eapply (brelse_does flag b y _ _ _ _ _ Hy (lookup_insert_eq _ _ _)). cbn [taken h_dirty h_data h_key].
    unfold contents. destruct (P !! key) eqn:Hp; [left; by rewrite bool_decide_eq_true_2|by right]. }
  intros [] z [Hz Hio2]. apply Hk; [|by eapply bio_only_trans].
  rewrite delete_insert_id in Hz by done. cbn [taken h_dirty h_data h_key] in Hz. unfold contents in Hz.
  destruct (P !! key) as [d|] eqn:Hp.
  - rewrite bool_decide_eq_true_2 in Hz by done. by rewrite insert_delete_id in Hz.
  - rewrite bool_decide_eq_false_2 in Hz by (by intros [? ?]). by rewrite delete_id in Hz.
Qed.

(** ** The contents of a file *)

(** The sector of block [bn] of the inode [q]. *)
Definition file_sector D P (q : inode) (bn : Z) : Z :=
  if decide (bn < Z.of_nat NDIRECT) then i_addrs q !!! Z.to_nat bn
  else block_word (contents D P (i_dev q, i_addrs q !!! NDIRECT)) (Z.to_nat (bn - Z.of_nat NDIRECT)).

Definition file_byte D P (q : inode) (o : Z) : Z :=
  contents D P (i_dev q, file_sector D P q (o / BSIZE)) !!! Z.to_nat (o mod BSIZE).

(** [n] bytes from [off] on. *)
Definition file_bytes D P (q : inode) (off n : Z) : list Z :=
  (λ i, file_byte D P q (off + Z.of_nat i)) <$> seq 0 (Z.to_nat n).

(** The blocks of the bytes from [off] to [hi] are allocated, on the disk, and
    hold 512 bytes each. *)
Record file_ok x D P (q : inode) (off hi : Z) : Prop := {
  fo_low : 0 <= off;
  fo_size : hi <= MAXFILE * BSIZE;
  fo_sector o : off <= o < hi → file_sector D P q (o / BSIZE) ≠ 0 ∧ on_disk x (i_dev q) (file_sector D P q (o / BSIZE));
  fo_indirect : Z.of_nat NDIRECT * BSIZE < hi → i_addrs q !!! NDIRECT ≠ 0 ∧ on_disk x (i_dev q) (i_addrs q !!! NDIRECT);
  fo_data o : off <= o < hi → length (contents D P (i_dev q, file_sector D P q (o / BSIZE))) = 512%nat
}.

Lemma file_ok_sub x D P q lo hi lo' hi' : lo <= lo' → hi' <= hi → file_ok x D P q lo hi → file_ok x D P q lo' hi'.
Proof.
  intros Hlo Hhi [F1 F2 F3 F4 F5]. split; [lia|lia| |intros; apply F4; lia|]; intros o Ho; [apply F3|apply F5]; lia.
Qed.

Lemma file_ok_bio x y D P q off hi : bio_only x y → file_ok x D P q off hi → file_ok y D P q off hi.
Proof.
  intros Hio [F1 F2 F3 F4 F5]. split; try done.
  - intros o Ho. destruct (F3 o Ho) as [? ?]. split; [done|]. by eapply bio_only_on_disk.
  - intros Hh. destruct (F4 Hh) as [? ?]. split; [done|]. by eapply bio_only_on_disk.
Qed.

Lemma inode_bio x y ip : bio_only x y → inode_at y ip = inode_at x ip.
Proof. by intros ->. Qed.

(** [bmap] of an allocated block. *)
Lemma bmap_does ip o off hi x D P :
  bstate x D P ∅ → (size P < NBUF)%nat → file_ok x D P (inode_at x ip) off hi → off <= o < hi →
  does (bmap flag swtch iderw fuel ip (o / BSIZE)) x
    (λ a y, a = file_sector D P (inode_at x ip) (o / BSIZE) ∧ bstate y D P ∅ ∧ bio_only x y) (λ y, stop ∧ x_disk y = D).
Proof.
  intros Hs Hroom Hf Ho. set (q := inode_at x ip) in *. pose proof (fo_low _ _ _ _ _ _ Hf) as Hlow.
  destruct (fo_sector _ _ _ _ _ _ Hf o Ho) as [Hnz Hon]. pose proof (fo_size _ _ _ _ _ _ Hf) as Hsz.
  unfold file_sector in *. unfold bmap, bmap_addr. case_decide as Hd.
  - apply does_get_bind. fold q. rewrite decide_False by done. apply does_ret. split; [done|]. split; [done|apply bio_only_refl].
  - rewrite decide_True by (unfold MAXFILE, BSIZE in *; apply Z.lt_sub_lt_add_l, Z.div_lt_upper_bound; lia).
    destruct (fo_indirect _ _ _ _ _ _ Hf) as [Hi Hion].
    { unfold BSIZE in *. assert (Z.of_nat NDIRECT <= o / 512) as Hd' by lia. pose proof (Z.mul_div_le o 512 ltac:(lia)). lia. }
    eapply (does_bind _ _ _ (λ a y, a = i_addrs q !!! NDIRECT ∧ y = x)).
    { apply does_get_bind. fold q. rewrite decide_False by done. by apply does_ret. }
    intros ? ? [-> ->]. apply does_get_bind. fold q. eapply does_bind.
    { apply (bread_does swtch iderw fuel (i_dev q) (i_addrs q !!! NDIRECT) x D P ∅ Hs); [done|done|right].
      rewrite map_size_empty. lia. }
    intros b y (Hb & Hy & Hio). apply does_get_bind. rewrite (held_data _ _ _ _ _ _ Hy (lookup_insert_eq _ _ _)).
    cbn [taken h_data]. rewrite decide_False by done.
    eapply (does_bind _ _ _ (λ a z, a = block_word (contents D P (i_dev q, i_addrs q !!! NDIRECT)) (Z.to_nat (o / BSIZE - Z.of_nat NDIRECT)) ∧ z = y));
      [by apply does_ret|]. intros ? ? [-> ->]. eapply give_back_does; [exact Hb|exact Hy|exact Hio|].
    intros z Hz Hioz. by apply does_ret.
Qed.

Lemma file_bytes_app D P q off m n :
  0 <= m <= n → file_bytes D P q off n = file_bytes D P q off m ++ file_bytes D P q (off + m) (n - m).
Proof.
  intros Hm. unfold file_bytes. replace (Z.to_nat n) with (Z.to_nat m + Z.to_nat (n - m))%nat by lia.
  rewrite seq_app, fmap_app. f_equal. replace (0 + Z.to_nat m)%nat with (Z.to_nat m + 0)%nat by lia.
  rewrite <-(fmap_add_seq (Z.to_nat m) 0), <-list_fmap_compose. apply list_fmap_ext. intros i j Hij. simpl. f_equal. lia.
Qed.

(** Offsets within one block. *)
Lemma same_block off i : 0 <= off → 0 <= i → off mod 512 + i < 512 → (off + i) / 512 = off / 512 ∧ (off + i) mod 512 = off mod 512 + i.
Proof.
  intros Ho Hi Hl. pose proof (Z.div_mod off 512 ltac:(lia)). pose proof (Z.mod_pos_bound off 512 ltac:(lia)).
  replace (off + i) with (off mod 512 + i + off / 512 * 512) by lia.
  rewrite Z.div_add, Z.mod_add, Z.div_small, Z.mod_small by lia. lia.
Qed.

Lemma file_bytes_block D P q off m :
  0 <= off → 0 <= m → off mod BSIZE + m <= BSIZE →
  length (contents D P (i_dev q, file_sector D P q (off / BSIZE))) = 512%nat →
  file_bytes D P q off m =
  take (Z.to_nat m) (drop (Z.to_nat (off mod BSIZE)) (contents D P (i_dev q, file_sector D P q (off / BSIZE)))).
Proof.
  intros Ho Hm Hl Hlen. unfold BSIZE in *. pose proof (Z.mod_pos_bound off 512 ltac:(lia)).
  apply list_eq_same_length with (n := Z.to_nat m).
  - rewrite length_take, length_drop, Hlen. lia.
  - unfold file_bytes. by rewrite length_fmap, length_seq.
  - intros i a b Hi Ha Hb. unfold file_bytes in Ha. rewrite list_lookup_fmap, lookup_seq_lt in Ha by done.
    injection Ha as <-. rewrite lookup_take_lt, lookup_drop in Hb by done. unfold file_byte, BSIZE.
    destruct (same_block off (Z.of_nat i)) as [-> ->]; [lia..|]. rewrite (list_lookup_total_correct _ _ b); [done|].
    rewrite <-Hb. f_equal. lia.
Qed.

Lemma readi_loop_does fl ip dst off n x D P :
  bstate x D P ∅ → (size P < NBUF)%nat → file_ok x D P (inode_at x ip) off (off + n) → 0 <= n →
  (0 < n → off mod BSIZE + n <= Z.of_nat fl * BSIZE) →
  does (readi_loop flag swtch iderw fuel to_struct fl ip dst off n) x
    (λ d y, d = dst ++ file_bytes D P (inode_at x ip) off n ∧ bstate y D P ∅ ∧ bio_only x y) (λ y, stop ∧ x_disk y = D).
Proof.
  revert x dst off n. induction fl as [|fl IH]; intros x dst off n Hs Hroom Hf Hn Hfl; cbn [readi_loop];
    (destruct (decide (0 < n)) as [Hpos|Hpos];
      [|apply does_ret; replace n with 0 by lia; unfold file_bytes; simpl; rewrite app_nil_r; split; [done|]; split; [done|apply bio_only_refl]]);
    pose proof (fo_low _ _ _ _ _ _ Hf) as Hlow; pose proof (Z.mod_pos_bound off BSIZE ltac:(unfold BSIZE; lia)) as Hmb;
    [specialize (Hfl Hpos); unfold BSIZE in *; lia|]. specialize (Hfl Hpos).
  set (q := inode_at x ip) in *. apply does_get_bind. fold q. eapply does_bind; [by apply (bmap_does ip off off (off + n)); [..|lia]|].
  fold q. intros a y (-> & Hy & Hio). destruct (fo_sector _ _ _ _ _ _ Hf off ltac:(lia)) as [_ Hon].
  pose proof (fo_data _ _ _ _ _ _ Hf off ltac:(lia)) as Hlen. set (sec := file_sector D P q (off / BSIZE)) in *.
  eapply does_bind.
  { eapply does_mono; [apply (bread_does swtch iderw fuel (i_dev q) sec y D P ∅ Hy)|intros ? ? HQ; exact HQ|done];
      [by eapply bio_only_on_disk|done|right; rewrite map_size_empty; lia]. }
  intros b z (Hb & Hz & Hio2). apply does_get_bind. rewrite (held_data _ _ _ _ _ _ Hz (lookup_insert_eq _ _ _)).
  cbn [taken h_data]. set (m := Z.min n (BSIZE - off mod BSIZE)).
  assert (0 < m <= n ∧ (m = n ∨ m = BSIZE - off mod BSIZE) ∧ m <= BSIZE - off mod BSIZE) as Hm0 by (unfold m; lia). clearbody m.
  eapply (does_bind _ _ _ (λ d w, d = dst ++ file_bytes D P q off m ∧ w = z)).
  { apply does_ret. split; [|done]. f_equal. symmetry. apply file_bytes_block; try done; lia. }
  intros ? ? [-> ->]. eapply give_back_does; [exact Hb|exact Hz|exact (bio_only_trans _ _ _ Hio Hio2)|]. intros w Hw Hiow.
  pose proof (inode_bio x w ip Hiow) as Hiw. fold q in Hiw.
  assert (u32 (off + m) = off + m) as ->.
  { pose proof (fo_size _ _ _ _ _ _ Hf). apply u32_id. unfold MAXFILE, NDIRECT, NINDIRECT, BSIZE in *. lia. }
  eapply does_mono; [apply (IH w _ (off + m) (n - m) Hw Hroom)| |done]; rewrite ?Hiw.
  - replace (off + m + (n - m)) with (off + n) by lia. apply (file_ok_sub _ _ _ _ off (off + n)); [lia..|]. by eapply file_ok_bio.
  - lia.
  - intros Hr. unfold BSIZE in *. assert (m = 512 - off mod 512) as Hm by lia. pose proof (Z.div_mod off 512 ltac:(lia)).
    replace (off + m) with ((off / 512 + 1) * 512) by lia. rewrite Z.mod_mul by lia. lia.
  - intros d v (-> & Hv & Hiov). split; [|split; [done|by eapply bio_only_trans]].
    rewrite <-app_assoc. f_equal. symmetry. apply file_bytes_app. lia.
Qed.
End looking.

(** ** Recording a block in the log *)

Section logging.
Implicit Types (x y z : ext) (D P : blocks) (H : gmap nat held_block) (ss : list Z).

(** A transaction is open and the in-memory header lists the sectors [ss]. *)
Record logging x ss : Prop := {
  lo_n : lg_n (x_log x) = Z.of_nat (length ss);
  lo_sec : take (length ss) (lg_sector (x_log x)) = ss;
  lo_len : length (lg_sector (x_log x)) = Z.to_nat LOGSIZE;
  lo_open : 1 <= lg_outstanding (x_log x);
  lo_range : Forall (λ s, 0 <= s < 2 ^ 31) ss
}.

(** There is room for [c] more sectors. *)
Definition log_room x ss (c : Z) : Prop := Z.of_nat (length ss) + c <= Z.min LOGSIZE (lg_size (x_log x) - 1).

(** The sectors after [s] was written, each listed once. *)
Definition absorb (s : Z) ss : list Z := if decide (s ∈ ss) then ss else ss ++ [s].

Lemma log_index_spec l n s :
  (n <= length l)%nat → Forall (λ s, 0 <= s < 2 ^ 31) (take n l) → 0 <= s < 2 ^ 31 →
  if decide (s ∈ take n l) then (log_index l n s < n)%nat ∧ l !! log_index l n s = Some s else log_index l n s = n.
Proof.
  revert n. induction l as [|a l IH]; intros n Hn Hr Hs;
    [destruct n; [by rewrite decide_False by apply not_elem_of_nil|simpl in Hn; lia]|].
  destruct n as [|n]; [by rewrite decide_False by apply not_elem_of_nil|]. simpl in Hn, Hr. apply Forall_cons in Hr as [Ha Hr].
  cbn [log_index take]. rewrite (u32_id a) by lia. specialize (IH n ltac:(lia) Hr Hs).
  destruct (decide (a = s)) as [->|Hne].
  - rewrite decide_True by (by left). split; [lia|done].
  - destruct (decide (s ∈ take n l)) as [Hin|Hin].
    + rewrite decide_True by (by right). destruct IH. split; [lia|done].
    + rewrite decide_False by (intros [?|?]%elem_of_cons; congruence). by rewrite IH.
Qed.

(** The in-memory log after [s] was recorded. *)
Definition log_add (s : Z) (g : log) : log :=
  let i := log_index (lg_sector g) (Z.to_nat (lg_n g)) s in
  let g' := set_lg_sector (<[i := s]> (lg_sector g)) g in
  if decide (Z.of_nat i = lg_n g) then set_lg_n (s32 (lg_n g + 1)) g' else g'.

Lemma log_add_sectors x ss s :
  logging x ss → log_room x ss 1 → 0 <= s < 2 ^ 31 →
  let g := log_add s (x_log x) in
  lg_n g = Z.of_nat (length (absorb s ss)) ∧ take (length (absorb s ss)) (lg_sector g) = absorb s ss ∧
  length (lg_sector g) = Z.to_nat LOGSIZE.
Proof.
  intros [L1 L2 L3 L5 L6] L4 Hs g. unfold g, log_add, absorb. unfold log_room in L4. change (Z.to_nat LOGSIZE) with 30%nat in *.
  rewrite L1, Nat2Z.id. unfold LOGSIZE, MAXOPBLOCKS in L4.
  pose proof (log_index_spec (lg_sector (x_log x)) (length ss) s ltac:(lia) ltac:(by rewrite L2) Hs) as Hi. rewrite L2 in Hi.
  destruct (decide (s ∈ ss)) as [Hin|Hin].
  - destruct Hi as [Hlt Hl]. rewrite decide_False by lia. simpl. rewrite list_insert_id by done. by split_and!.
  - rewrite Hi, decide_True by done. simpl. rewrite length_insert, length_app, s32_id by lia. simpl. split_and!; [lia| |done].
    rewrite Nat.add_1_r. rewrite (take_S_r _ _ s) by (rewrite list_lookup_insert_eq by lia; done).
    by rewrite take_insert_ge, L2 by lia.
Qed.

Lemma log_write_does b h x D P H ss C :
  bstate x D P H → H !! b = Some h → logging x ss → log_room x ss 1 → 0 <= (h_key h).2 < 2 ^ 31 →
  does (log_write b) x
    (λ _ y, bstate y D P (<[b := Held (h_key h) (h_data h) true]> H) ∧ fs_only x y ∧ x_disk y = x_disk x ∧
       x_log y = log_add (h_key h).2 (x_log x)) C.
Proof.
  intros Hs Hh Hl L4 Hk. pose proof (held_payload _ _ _ _ _ _ Hs Hh) as Hp. pose proof Hl as [L1 L2 L3 L5 L6]. unfold log_room in L4.
  assert (b_sector (buf_at x b) = (h_key h).2) as Hsec by (by rewrite <-Hp).
  unfold log_write. apply does_get_bind. unfold id. rewrite !decide_False by lia.
  set (i := log_index (lg_sector (x_log x)) (Z.to_nat (lg_n (x_log x))) (h_key h).2).
  assert (i < length (lg_sector (x_log x)))%nat as Hi.
  { unfold i. rewrite L1, Nat2Z.id, L3. change (Z.to_nat LOGSIZE) with 30%nat in *. unfold LOGSIZE, MAXOPBLOCKS in L4.
    pose proof (log_index_spec (lg_sector (x_log x)) (length ss) (h_key h).2 ltac:(lia) ltac:(by rewrite L2) Hk).
    case_decide; lia. }
  set (mark := λ q, set_b_flags (Z.lor (b_flags q) B_DIRTY) q).
  apply (does_section log_lock _ _ tt (with_buf b mark (set_x_log (log_add (h_key h).2 (x_log x)) x)));
    [unfold fs_locks; set_solver| |].
  - intros k Hk' Hx. exists (set_k_ext (with_buf b mark (set_x_log (log_add (h_key h).2 (x_log x)) x)) k).
    split; [|split; [apply woke_ext|done]].
    unfold bfield, log_get, set_sector, log_upd, upd_buf, upd_ext, ext_get, gets, modify, mbind, M_bind, id. simpl. rewrite Hx, Hsec.
    fold i. rewrite decide_True by done. rewrite s32_id by lia. unfold log_add. fold i.
    change (k_ext (acquired log_lock k)) with (k_ext k). rewrite Hx.
    case_bool_decide as Hb; [rewrite decide_True by done|rewrite decide_False by done]; reflexivity.
  - split; [|split; [|split; done]].
    + replace (Held (h_key h) (h_data h) true) with (held_of (mark (buf_at x b))).
      2:{ rewrite <-Hp. unfold held_of, mark, key_of. simpl. f_equal. by flag_bits. }
      apply (bstate_edit (set_x_log _ x) D P H b h mark); [by apply bstate_log|done|done|].
      intros Hbu Hva. change (buf_at (set_x_log _ x) b) with (buf_at x b) in *. unfold mark, key_of. flag_bits. by rewrite Hbu, Hva.
    + by destruct x.
Qed.

Lemma log_add_rest s g : lg_size (log_add s g) = lg_size g ∧ lg_outstanding (log_add s g) = lg_outstanding g.
Proof. unfold log_add. by case_decide. Qed.

Lemma length_absorb s ss : (length (absorb s ss) <= S (length ss))%nat.
Proof. unfold absorb. case_decide; [lia|]. rewrite length_app. simpl. lia. Qed.

Lemma logging_add x y ss s :
  logging x ss → log_room x ss 1 → 0 <= s < 2 ^ 31 → x_log y = log_add s (x_log x) → logging y (absorb s ss).
Proof.
  intros Hl Hr Hs Hy. destruct (log_add_sectors x ss s Hl Hr Hs) as (H1 & H2 & H3).
  destruct (log_add_rest s (x_log x)) as [_ H5]. destruct Hl as [L1 L2 L3 L5 L6].
  split; rewrite ?Hy; try done; [by rewrite H5|]. unfold absorb. case_decide; [done|]. apply Forall_app. split; [done|]. by constructor.
Qed.

Lemma logging_bio x y ss : bio_only x y → logging x ss → logging y ss.
Proof. intros Hio []. by split; rewrite ?(bio_only_log _ _ Hio). Qed.

(** A block that was read is changed, recorded in the log and given back: from
    now on it is one of the pinned blocks. *)
Lemma log_block_does {B} (flag : schedflag) b sec (F : list Z → list Z) (k : M KX B) y D P ss Q C :
  bstate y D (delete (home sec) P) (<[b := taken D P (home sec)]> ∅) → logging y ss → log_room y ss 1 → 0 <= sec < 2 ^ 31 →
  (∀ z, bstate z D (<[home sec := F (contents D P (home sec))]> P) ∅ → logging z (absorb sec ss) → fs_only y z →
     lg_size (x_log z) = lg_size (x_log y) → does k z Q C) →
  does (upd_buf b (λ q, set_b_data (F (b_data q)) q) ;; log_write b ;; brelse flag b ;; k) y Q C.
Proof.
  intros Hy Hl Hr Hs Hk. apply does_upd_bind. pose proof (bstate_map_data _ _ _ _ b _ F Hy (lookup_insert_eq _ _ _)) as Hy1.
  rewrite insert_insert_eq in Hy1. cbn [taken h_key h_data h_dirty] in Hy1.
  eapply does_bind.
  { eapply (log_write_does b _ _ _ _ _ ss _ Hy1 (lookup_insert_eq _ _ _)); [by eapply logging_bio; [apply bio_only_with|]|done|done]. }
  intros [] z (Hz & Hfs & _ & Hlog). rewrite insert_insert_eq in Hz. cbn [h_key h_data snd home] in *.
  eapply does_bind; [eapply (brelse_does flag b z _ _ _ _ _ Hz (lookup_insert_eq _ _ _)); by left|].
  intros [] w [Hw Hio]. cbn [h_dirty h_key h_data] in Hw. rewrite insert_delete_eq in Hw.
  rewrite delete_insert_id in Hw by done.
  apply Hk; [done| | |].
  - eapply logging_bio; [exact Hio|]. by eapply (logging_add _ z ss sec); [by eapply logging_bio; [apply bio_only_with|]|..].
  - eapply fs_only_trans; [apply fs_only_bio, bio_only_with|]. eapply fs_only_trans; [exact Hfs|by apply fs_only_bio].
  - rewrite (bio_only_log _ _ Hio), Hlog. apply log_add_rest.
Qed.
End logging.

(** ** Overwriting a file *)

Section overwrite.
Implicit Types (x y z : ext) (D P : blocks) (ss : list Z) (q : inode).

(** The blocks of the first [top] bytes are different blocks. *)
Record file_apart D P q (top : Z) : Prop := {
  fa_block o o' : 0 <= o < top → 0 <= o' < top →
    file_sector D P q (o / BSIZE) = file_sector D P q (o' / BSIZE) → o / BSIZE = o' / BSIZE;
  fa_indirect o : Z.of_nat NDIRECT * BSIZE < top → 0 <= o < top → file_sector D P q (o / BSIZE) ≠ i_addrs q !!! NDIRECT
}.

Lemma contents_insert D P key d key' :
  contents D (<[key := d]> P) key' = if decide (key = key') then d else contents D P key'.
Proof. unfold contents. case_decide as Hk; [subst; by rewrite lookup_insert_eq|by rewrite lookup_insert_ne]. Qed.

Lemma sector_after D P q top o0 d o :
  file_apart D P q top → 0 <= o0 < top → 0 <= o < top →
  file_sector D (<[(i_dev q, file_sector D P q (o0 / BSIZE)) := d]> P) q (o / BSIZE) = file_sector D P q (o / BSIZE).
Proof.
  intros Ha H0 Ho. unfold file_sector at 1 3. case_decide as Hd; [done|]. rewrite contents_insert, decide_False; [done|].
  intros [= He]. apply (fa_indirect _ _ _ _ Ha o0); [|done|done].
  unfold BSIZE in *. pose proof (Z.mul_div_le o 512 ltac:(lia)). lia.
Qed.

Lemma byte_after D P q top o0 d o :
  file_apart D P q top → 0 <= o0 < top → 0 <= o < top →
  file_byte D (<[(i_dev q, file_sector D P q (o0 / BSIZE)) := d]> P) q o =
  if decide (o / BSIZE = o0 / BSIZE) then d !!! Z.to_nat (o mod BSIZE) else file_byte D P q o.
Proof.
  intros Ha H0 Ho. unfold file_byte. rewrite (sector_after _ _ _ top), contents_insert by done.
  case_decide as H1; case_decide as H2; try done.
  - injection H1 as H1. destruct H2. symmetry. by apply (fa_block _ _ _ _ Ha).
  - destruct H1. by rewrite H2.
Qed.

(** The part of a block that is overwritten. *)
Lemma put_bytes_lookup i l d j :
  (i + length l <= length d)%nat →
  put_bytes i l d !!! j = if decide (i <= j < i + length l)%nat then l !!! (j - i)%nat else d !!! j.
Proof.
  intros Hl. rewrite !list_lookup_total_alt. unfold put_bytes. case_decide as Hj.
  - by rewrite list_lookup_inserts by lia.
  - destruct (decide (j < i)%nat); [by rewrite list_lookup_inserts_lt|by rewrite list_lookup_inserts_ge by lia].
Qed.

Lemma length_put_bytes i l d : length (put_bytes i l d) = length d.
Proof. apply length_inserts. Qed.

Lemma put_bytes_split i l d : (i + length l <= length d)%nat → put_bytes i l d = take i d ++ l ++ drop (i + length l) d.
Proof.
  intros Hl. apply list_eq. intros j. unfold put_bytes. destruct (decide (j < i)%nat) as [Hj|Hj].
  - rewrite list_lookup_inserts_lt, lookup_app_l, lookup_take_lt by (rewrite ?length_take; lia). done.
  - rewrite lookup_app_r, length_take, Nat.min_l by (rewrite ?length_take; lia). destruct (decide (j < i + length l)%nat).
    + rewrite list_lookup_inserts, lookup_app_l by lia. done.
    + rewrite list_lookup_inserts_ge, lookup_app_r, lookup_drop by lia. f_equal. lia.
Qed.

Lemma slice_put_same i l d : (i + length l <= length d)%nat → take (length l) (drop i (put_bytes i l d)) = l.
Proof. intros Hl. rewrite put_bytes_split by done. by rewrite drop_app_length', take_app_length by (rewrite length_take; lia). Qed.

Lemma slice_put_other i l d j n :
  (i + length l <= length d)%nat → (j + n <= i)%nat ∨ (i + length l <= j)%nat → take n (drop j (put_bytes i l d)) = take n (drop j d).
Proof.
  intros Hl Hj. apply list_eq. intros o. destruct (decide (o < n)%nat); [|by rewrite !lookup_take_ge by lia].
  rewrite !lookup_take_lt, !lookup_drop by done. unfold put_bytes.
  destruct Hj; [by rewrite list_lookup_inserts_lt by lia|by rewrite list_lookup_inserts_ge by lia].
Qed.

Lemma half_of_bytes v : half_at (half_bytes v) 0 = u16 v.
Proof.
  unfold half_at, half_bytes, u8, u16. cbn [lookup_total list_lookup_total]. rewrite Z.shiftr_div_pow2 by lia.
  change (2 ^ 8) with 256. change (2 ^ 16) with (256 * 256). by rewrite Z.rem_mul_r by lia.
Qed.

(** [y] is [x] after the bytes [l] were written at [off], with the pinned blocks
    [P'] in place of [P] and the logged sectors [ss'] in place of [ss]. *)
Record wrote x D P ss q (top off : Z) (l : list Z) y P' ss' : Prop := {
  wr_cache : bstate y D P' ∅;
  wr_pins : pins_exactly ss' P';
  wr_nodup : NoDup ss';
  wr_log : logging y ss';
  wr_only : fs_only x y;
  wr_size : lg_size (x_log y) = lg_size (x_log x);
  wr_sector o : 0 <= o < top → file_sector D P' q (o / BSIZE) = file_sector D P q (o / BSIZE);
  wr_len o : 0 <= o < top → length (contents D P' (i_dev q, file_sector D P q (o / BSIZE))) =
    length (contents D P (i_dev q, file_sector D P q (o / BSIZE)));
  wr_byte o : 0 <= o < top → file_byte D P' q o =
    if decide (off <= o < off + Z.of_nat (length l)) then l !!! Z.to_nat (o - off) else file_byte D P q o
}.

Lemma wrote_trans x D P ss q top off l1 y P1 ss1 l2 z P2 ss2 :
  wrote x D P ss q top off l1 y P1 ss1 → wrote y D P1 ss1 q top (off + Z.of_nat (length l1)) l2 z P2 ss2 →
  wrote x D P ss q top off (l1 ++ l2) z P2 ss2.
Proof.
  intros [A1 A2 A3 A4 A5 A6 A7 A8 A9] [B1 B2 B3 B4 B5 B6 B7 B8 B9]. split; try done.
  - by eapply fs_only_trans.
  - congruence.
  - intros o Ho. by rewrite B7, A7.
  - intros o Ho. rewrite <-A8 by done. rewrite <-(A7 o Ho). by apply B8.
  - intros o Ho. rewrite B9, A9, length_app by done. repeat case_decide; try lia; try done.
    + rewrite lookup_total_app_r by lia. f_equal. lia.
    + by rewrite lookup_total_app_l by lia.
Qed.

Lemma pins_size ss P : NoDup ss → pins_exactly ss P → size P = length ss.
Proof.
  intros Hnd Hp. rewrite <-size_dom. assert (dom P = list_to_set (home <$> ss)) as ->.
  { apply set_eq. intros key. rewrite elem_of_dom, elem_of_list_to_set. apply Hp. }
  rewrite size_list_to_set; [by rewrite length_fmap|]. apply NoDup_fmap; [|done]. by intros ? ? [= ->].
Qed.

Lemma pins_absorb ss P s d : NoDup ss → pins_exactly ss P → NoDup (absorb s ss) ∧ pins_exactly (absorb s ss) (<[home s := d]> P).
Proof.
  intros Hnd Hp. unfold absorb. case_decide as Hs; (split; [done || by apply NoDup_app; split_and!; [|set_solver|apply NoDup_singleton]|]); intros key.
  - destruct (decide (key = home s)) as [->|Hne].
    + rewrite lookup_insert_eq. split; [|done]. intros _. by apply list_elem_of_fmap_2.
    + rewrite lookup_insert_ne by done. apply Hp.
  - rewrite fmap_app, elem_of_app. destruct (decide (key = home s)) as [->|Hne].
    + rewrite lookup_insert_eq. split; [|done]. intros _. right. apply list_elem_of_fmap_2. left.
    + rewrite lookup_insert_ne by done. rewrite (Hp key). split; [auto|]. intros [?|Hin]; [done|].
      apply list_elem_of_fmap in Hin as (s' & -> & Hin). apply list_elem_of_singleton in Hin as ->. done.
Qed.
End overwrite.

Section writing.
Context (flag : schedflag) (swtch : M KX unit) (iderw : nat → M KX unit) (fuel : nat).
Context {stop : Prop} {DK : DiskOk iderw stop}.
Implicit Types (x y z : ext) (D P : blocks) (ss : list Z) (q : inode).

Lemma file_ok_fs x y D P q off hi : fs_only x y → file_ok x D P q off hi → file_ok y D P q off hi.
Proof.
  intros Hfs [F1 F2 F3 F4 F5]. assert (∀ d s, on_disk x d s → on_disk y d s) as Hon by (unfold fs_only in Hfs; by rewrite Hfs).
  split; try done.
  - intros o Ho. destruct (F3 o Ho). auto.
  - intros Hh. destruct (F4 Hh). auto.
Qed.

Lemma file_ok_wrote x D P ss q top off l y P' ss' lo hi :
  wrote x D P ss q top off l y P' ss' → hi <= top → file_ok x D P q lo hi → file_ok y D P' q lo hi.
Proof.
  intros W Ht Hf. pose proof (fo_low _ _ _ _ _ _ Hf). apply (file_ok_fs x y); [apply W|]. destruct Hf as [F1 F2 F3 F4 F5].
  split; try done; intros o Ho; rewrite (wr_sector _ _ _ _ _ _ _ _ _ _ _ W) by lia; [by apply F3|].
  rewrite (wr_len _ _ _ _ _ _ _ _ _ _ _ W) by lia. by apply F5.
Qed.

Lemma file_apart_wrote x D P ss q top off l y P' ss' :
  wrote x D P ss q top off l y P' ss' → file_apart D P q top → file_apart D P' q top.
Proof.
  intros W [A1 A2]. split.
  - intros o o' Ho Ho'. rewrite !(wr_sector _ _ _ _ _ _ _ _ _ _ _ W) by done. by apply A1.
  - intros o Ht Ho. rewrite (wr_sector _ _ _ _ _ _ _ _ _ _ _ W) by done. by apply A2.
Qed.

(** One block of the loop of [writei]. *)
Lemma write_block_wrote x D P ss q top off l y z :
  i_dev q = ROOTDEV → file_ok x D P q off (off + Z.of_nat (length l)) → file_apart D P q top →
  (0 < length l)%nat → off + Z.of_nat (length l) <= top → off mod BSIZE + Z.of_nat (length l) <= BSIZE →
  NoDup ss → pins_exactly ss P → bio_only x y →
  let sec := file_sector D P q (off / BSIZE) in
  let P' := <[home sec := put_bytes (Z.to_nat (off mod BSIZE)) l (contents D P (home sec))]> P in
  bstate z D P' ∅ → logging z (absorb sec ss) → fs_only y z → lg_size (x_log z) = lg_size (x_log y) →
  wrote x D P ss q top off l z P' (absorb sec ss).
Proof.
  intros Hdev Hf Ha Hl Ht Hb Hnd Hp Hio sec P' Hz Hlog Hfs Hsz. pose proof (fo_low _ _ _ _ _ _ Hf) as Hlow.
  pose proof (fo_data _ _ _ _ _ _ Hf off ltac:(lia)) as Hlen. fold sec in Hlen. rewrite Hdev in Hlen. change (ROOTDEV, sec) with (home sec) in Hlen.
  pose proof (Z.mod_pos_bound off BSIZE ltac:(unfold BSIZE; lia)) as Hmb.
  destruct (pins_absorb ss P sec (put_bytes (Z.to_nat (off mod BSIZE)) l (contents D P (home sec))) Hnd Hp) as [Hnd' Hp'].
  split; try done.
  - eapply fs_only_trans; [by apply fs_only_bio|done].
  - by rewrite Hsz, (bio_only_log _ _ Hio).
  - intros o Ho. unfold P', sec, home. rewrite <-Hdev. apply (sector_after D P q top); [done|lia|done].
  - intros o Ho. unfold P'. rewrite contents_insert, Hdev. case_decide as He; [|done]. by rewrite length_put_bytes, He.
  - intros o Ho. unfold P', sec, home. rewrite <-Hdev. rewrite (byte_after D P q top) by (done || lia). rewrite Hdev.
    change (ROOTDEV, file_sector D P q (off / BSIZE)) with (home sec). unfold BSIZE in *.
    rewrite put_bytes_lookup by lia. pose proof (Z.div_mod o 512 ltac:(lia)). pose proof (Z.mod_pos_bound o 512 ltac:(lia)).
    pose proof (Z.div_mod off 512 ltac:(lia)).
    destruct (decide (o / 512 = off / 512)) as [He|He].
    + rewrite He in *. case_decide; case_decide; try lia; [f_equal; lia|].
      unfold file_byte, BSIZE. by rewrite He, Hdev.
    + rewrite decide_False; [done|]. intros Hr. apply He. destruct (same_block off (o - off)) as [<- _]; [lia..|]. f_equal. lia.
Qed.

Lemma writei_loop_does fl ip src off x D P ss top :
  let q := inode_at x ip in let n := Z.of_nat (length src) in
  bstate x D P ∅ → NoDup ss → pins_exactly ss P → logging x ss → log_room x ss (Z.of_nat fl) →
  i_dev q = ROOTDEV → file_ok x D P q off (off + n) → file_apart D P q top → off + n <= top →
  (0 < n → off mod BSIZE + n <= Z.of_nat fl * BSIZE) →
  does (writei_loop flag swtch iderw fuel from_struct fl ip src off n) x
    (λ o y, o = off + n ∧ ∃ P' ss', wrote x D P ss q top off src y P' ss' ∧ (length ss' <= length ss + fl)%nat)
    (λ y, stop ∧ x_disk y = D).
Proof.
  revert x src off P ss. induction fl as [|fl IH]; intros x src off P ss q n Hs Hnd Hp Hlog Hroom Hdev Hf Ha Ht Hfl; cbn [writei_loop];
    (destruct (decide (0 < n)) as [Hpos|Hpos];
      [|apply does_ret; assert (src = []) as -> by (destruct src; [done|unfold n in Hpos; simpl in Hpos; lia]); unfold n; simpl;
        rewrite Z.add_0_r; split; [done|]; exists P, ss; split; [|lia]; split; try done; [apply fs_only_refl|intros o Ho; by rewrite decide_False by lia]]).
  { specialize (Hfl Hpos). pose proof (Z.mod_pos_bound off BSIZE ltac:(unfold BSIZE; lia)). lia. }
  specialize (Hfl Hpos). pose proof (fo_low _ _ _ _ _ _ Hf) as Hlow. pose proof (Z.mod_pos_bound off BSIZE ltac:(unfold BSIZE; lia)) as Hmb.
  pose proof (pins_size ss P Hnd Hp) as Hsize. unfold log_room in Hroom.
  assert (size P < NBUF)%nat as HPn by (unfold LOGSIZE, MAXOPBLOCKS, NBUF in *; lia).
  apply does_get_bind. fold q. rewrite Hdev. eapply does_bind; [by apply (bmap_does flag swtch iderw fuel ip off off (off + n)); [..|lia]|].
  fold q. intros a y (-> & Hy & Hio). destruct (fo_sector _ _ _ _ _ _ Hf off ltac:(lia)) as [_ Hon]. rewrite Hdev in Hon.
  set (sec := file_sector D P q (off / BSIZE)) in *. eapply does_bind.
  { eapply does_mono; [apply (bread_does swtch iderw fuel ROOTDEV sec y D P ∅ Hy)|intros ? ? HQ; exact HQ|done];
      [by eapply bio_only_on_disk|done|right; rewrite map_size_empty; lia]. }
  intros b z (Hb & Hz & Hio2). set (m := Z.min n (BSIZE - off mod BSIZE)).
  assert (0 < m <= n ∧ (m = n ∨ m = BSIZE - off mod BSIZE) ∧ m <= BSIZE - off mod BSIZE) as Hm0 by (unfold m; lia). clearbody m.
  eapply (does_bind _ _ _ (λ p w, p = (take (Z.to_nat m) src, drop (Z.to_nat m) src) ∧ w = z)); [by apply does_ret|].
  intros ? ? [-> ->]. cbn beta iota. set (l := take (Z.to_nat m) src). set (src' := drop (Z.to_nat m) src).
  assert (Z.of_nat (length l) = m) as Hll by (unfold l; rewrite length_take; lia).
  assert (Z.of_nat (length src') = n - m) as Hls by (unfold src'; rewrite length_drop; lia).
  assert (src = l ++ src') as Hsrc by (unfold l, src'; by rewrite take_drop). clearbody l src'.
  pose proof (bio_only_trans _ _ _ Hio Hio2) as Hioz. pose proof Hon as (_ & Hsec & Hdisk).
  eapply (log_block_does flag b sec (put_bytes (Z.to_nat (off mod BSIZE)) l)); [exact Hz|by eapply logging_bio| |lia|].
  { unfold log_room. rewrite (bio_only_log _ _ Hioz). lia. }
  intros w Hw Hlw Hfw Hsw.
  assert (wrote x D P ss q top off l w (<[home sec := put_bytes (Z.to_nat (off mod BSIZE)) l (contents D P (home sec))]> P)
    (absorb sec ss)) as W.
  { eapply (write_block_wrote x D P ss q top off l z w); try done; try lia.
    apply (file_ok_sub _ _ _ _ off (off + n)); [lia..|done]. }
  clear Hz Hw. assert (inode_at w ip = q) as Hq by (pose proof (wr_only _ _ _ _ _ _ _ _ _ _ _ W) as Hxw; unfold fs_only in Hxw; by rewrite Hxw).
  assert (u32 (off + m) = off + m) as ->.
  { pose proof (fo_size _ _ _ _ _ _ Hf). apply u32_id. unfold MAXFILE, NDIRECT, NINDIRECT, BSIZE in *. lia. }
  rewrite <-Hls. eapply does_mono; [eapply (IH w src' (off + m) _ (absorb sec ss))| |done]; rewrite ?Hq, ?Hls.
  - apply W.
  - apply W.
  - apply W.
  - done.
  - unfold log_room. rewrite Hsw, (bio_only_log _ _ Hioz). pose proof (length_absorb sec ss). lia.
  - done.
  - replace (off + m + (n - m)) with (off + n) by lia. apply (file_ok_sub _ _ _ _ off (off + n)); [lia..|]. by eapply file_ok_wrote.
  - by eapply file_apart_wrote.
  - lia.
  - intros Hr. unfold BSIZE in *. assert (m = 512 - off mod 512) as Hm by lia. pose proof (Z.div_mod off 512 ltac:(lia)).
    replace (off + m) with ((off / 512 + 1) * 512) by lia. rewrite Z.mod_mul by lia. lia.
  - intros o v (-> & P2 & ss2 & W2 & Hss2). split; [lia|]. exists P2, ss2.
    split; [|pose proof (length_absorb sec ss); lia]. rewrite Hsrc. eapply wrote_trans; [exact W|]. by rewrite Hll.
Qed.
End writing.

(** ** A file as a sequence of bytes *)

Section files.
Context (flag : schedflag) (swtch : M KX unit) (iderw : nat → M KX unit) (fuel : nat).
Context {DR : Drivers} {stop : Prop} {DK : DiskOk iderw stop}.
Implicit Types (x y z : ext) (D P : blocks) (k : KX).

Definition file_data D P (q : inode) : list Z := file_bytes D P q 0 (i_size q).

Lemma length_file_bytes D P q off n : length (file_bytes D P q off n) = Z.to_nat n.
Proof. unfold file_bytes. by rewrite length_fmap, length_seq. Qed.

Lemma file_bytes_lookup D P q off n i :
  (i < Z.to_nat n)%nat → file_bytes D P q off n !!! i = file_byte D P q (off + Z.of_nat i).
Proof.
  intros Hi. apply list_lookup_total_correct. unfold file_bytes. by rewrite list_lookup_fmap, lookup_seq_lt.
Qed.

Lemma file_bytes_slice D P q off n :
  0 <= off → 0 <= n → off + n <= i_size q →
  file_bytes D P q off n = take (Z.to_nat n) (drop (Z.to_nat off) (file_data D P q)).
Proof.
  intros Ho Hn Hs. apply list_eq_same_length with (n := Z.to_nat n).
  - rewrite length_take, length_drop. unfold file_data. rewrite length_file_bytes. lia.
  - apply length_file_bytes.
  - intros i a b Hi Ha Hb. apply list_lookup_total_correct in Ha as <-, Hb as <-.
    rewrite file_bytes_lookup by lia. rewrite lookup_total_take_lt, lookup_total_drop by done.
    unfold file_data. rewrite file_bytes_lookup by lia. f_equal. lia.
Qed.

Lemma file_data_wrote x D P ss q off l y P' ss' :
  wrote x D P ss q (i_size q) off l y P' ss' → 0 <= off → off + Z.of_nat (length l) <= i_size q →
  file_data D P' q = put_bytes (Z.to_nat off) l (file_data D P q).
Proof.
  intros W Ho Hl. assert (length (file_data D P q) = Z.to_nat (i_size q)) as HL by apply length_file_bytes.
  apply list_eq_same_length with (n := Z.to_nat (i_size q)).
  - unfold put_bytes. by rewrite length_inserts.
  - apply length_file_bytes.
  - intros i a b Hi Ha Hb. apply list_lookup_total_correct in Ha as <-, Hb as <-.
    rewrite put_bytes_lookup by lia. unfold file_data. rewrite !file_bytes_lookup by lia.
    rewrite (wr_byte _ _ _ _ _ _ _ _ _ _ _ W) by lia. case_decide; case_decide; try lia; try done; f_equal; lia.
Qed.

(** [readi] of anything but a device. *)
Definition read_result (F : list Z) (dst : list Z) (off n : Z) : Z * list Z :=
  let size := Z.of_nat (length F) in
  if decide (off > size ∨ 2 ^ 32 <= off + n) then (-1, dst)
  else let m := Z.min n (size - off) in (m, dst ++ take (Z.to_nat m) (drop (Z.to_nat off) F)).

Lemma u32_sum_low off n :
  0 <= off < 2 ^ 32 → 0 <= n < 2 ^ 32 → u32 (off + n) < off ↔ 2 ^ 32 <= off + n.
Proof.
  intros Ho Hn. destruct (decide (off + n < 2 ^ 32)) as [Hs|Hs]; [rewrite u32_id by lia; lia|].
  split; [lia|]. intros _. unfold u32. rewrite <-(Z.mod_add _ (-1)) by lia. rewrite Z.mod_small by lia. lia.
Qed.

Lemma blocks_of_enough off n : 0 <= n → off mod BSIZE + n <= Z.of_nat (blocks_of n) * BSIZE.
Proof.
  intros Hn. unfold blocks_of, BSIZE. pose proof (Z.mod_pos_bound off 512 ltac:(lia)). pose proof (Z.div_mod n 512 ltac:(lia)).
  pose proof (Z.mod_pos_bound n 512 ltac:(lia)). pose proof (Z.div_pos n 512 ltac:(lia) ltac:(lia)). lia.
Qed.

Lemma readi_does ip dst off n x D P :
  let q := inode_at x ip in
  bstate x D P ∅ → (size P < NBUF)%nat → file_ok x D P q 0 (i_size q) → 0 <= i_size q → i_type q ≠ T_DEV →
  0 <= off < 2 ^ 32 → 0 <= n < 2 ^ 32 →
  does (readi flag swtch iderw fuel to_struct ip dst off n) x
    (λ r y, r = read_result (file_data D P q) dst off n ∧ bstate y D P ∅ ∧ bio_only x y) (λ y, stop ∧ x_disk y = D).
Proof.
  intros q Hs Hroom Hf Hsz Ht Ho Hn. unfold readi, read_result. apply does_get_bind. fold q. rewrite decide_False by done.
  assert (Z.of_nat (length (file_data D P q)) = i_size q) as -> by (unfold file_data; rewrite length_file_bytes; lia).
  pose proof (u32_sum_low off n Ho Hn) as Hlow. pose proof (fo_size _ _ _ _ _ _ Hf) as Hmax.
  destruct (decide (off > i_size q ∨ 2 ^ 32 <= off + n)) as [Hbad|Hok].
  { rewrite decide_True by (rewrite Hlow; done). apply does_ret. split; [done|]. split; [done|apply bio_only_refl]. }
  rewrite decide_False by (rewrite Hlow; done).
  assert ((if decide (u32 (off + n) > i_size q) then i_size q - off else n) = Z.min n (i_size q - off)) as ->.
  { rewrite u32_id by lia. case_decide; lia. }
  set (m := Z.min n (i_size q - off)). assert (0 <= m ∧ off + m <= i_size q) as Hm by (unfold m; lia). clearbody m.
  eapply does_bind.
  { apply (readi_loop_does flag swtch iderw fuel (blocks_of m) ip dst off m x D P Hs Hroom); [|lia|intros _; apply blocks_of_enough; lia].
    fold q. apply (file_ok_sub _ _ _ _ 0 (i_size q)); [lia..|done]. }
  fold q. intros d y (-> & Hy & Hio). apply does_ret. split; [|done].
  rewrite file_bytes_slice by lia. rewrite s32_id; [done|]. unfold MAXFILE, NDIRECT, NINDIRECT, BSIZE in *. lia.
Qed.

Lemma writei_does ip src off x D P ss :
  let q := inode_at x ip in let n := Z.of_nat (length src) in
  bstate x D P ∅ → NoDup ss → pins_exactly ss P → logging x ss → log_room x ss (Z.of_nat (blocks_of n)) →
  i_dev q = ROOTDEV → i_type q ≠ T_DEV → file_ok x D P q 0 (i_size q) → file_apart D P q (i_size q) →
  0 <= off → off + n <= i_size q →
  does (writei flag swtch iderw fuel from_struct ip src off n) x
    (λ r y, r = n ∧ ∃ P' ss', wrote x D P ss q (i_size q) off src y P' ss' ∧ (length ss' <= length ss + blocks_of n)%nat)
    (λ y, stop ∧ x_disk y = D).
Proof.
  intros q n Hs Hnd Hp Hlog Hroom Hdev Ht Hf Ha Ho Hn. unfold writei. apply does_get_bind. fold q. rewrite decide_False by done.
  pose proof (fo_size _ _ _ _ _ _ Hf) as Hmax. assert (MAXFILE * BSIZE = 71680) as Hmf by done.
  rewrite u32_id by lia. rewrite decide_False by lia. rewrite decide_False by lia. eapply does_bind.
  { apply (writei_loop_does flag swtch iderw fuel (blocks_of n) ip src off x D P ss (i_size q)); try done;
      [|intros _; apply blocks_of_enough; lia]. fold q n. apply (file_ok_sub _ _ _ _ 0 (i_size q)); [lia..|done]. }
  fold q n. intros o y (-> & P' & ss' & W & Hss). apply does_get_bind.
  assert (inode_at y ip = q) as -> by (pose proof (wr_only _ _ _ _ _ _ _ _ _ _ _ W) as Hxw; unfold fs_only in Hxw; by rewrite Hxw).
  rewrite decide_False by lia. eapply (does_bind _ _ _ (λ _ w, w = y)); [by apply does_ret|]. intros _ ? ->.
  apply does_ret. rewrite s32_id by lia. split; [done|]. by exists P', ss'.
Qed.
End files.

(** A file that is no device, all of whose blocks are allocated, on the disk and
    distinct, while a transaction with the sectors [ss] is open: the dirty blocks
    of the cache are exactly these. *)
Record file_in_op (x : ext) (ip : nat) (D P : blocks) (ss : list Z) : Prop := {
  of_cache : bstate x D P ∅;
  of_nodup : NoDup ss;
  of_pins : pins_exactly ss P;
  of_log : logging x ss;
  of_dev : i_dev (inode_at x ip) = ROOTDEV;
  of_type : i_type (inode_at x ip) ≠ T_DEV;
  of_size : 0 <= i_size (inode_at x ip);
  of_blocks : file_ok x D P (inode_at x ip) 0 (i_size (inode_at x ip));
  of_apart : file_apart D P (inode_at x ip) (i_size (inode_at x ip))
}.

Lemma file_in_op_wrote x ip D P ss off l y P' ss' :
  file_in_op x ip D P ss → wrote x D P ss (inode_at x ip) (i_size (inode_at x ip)) off l y P' ss' → file_in_op y ip D P' ss'.
Proof.
  intros [O1 O2 O3 O4 O5 O6 O7 O8 O9] W.
  assert (inode_at y ip = inode_at x ip) as Hq
    by (pose proof (wr_only _ _ _ _ _ _ _ _ _ _ _ W) as Hxw; unfold fs_only in Hxw; by rewrite Hxw).
  split; rewrite ?Hq; try done; try apply W; [by eapply file_ok_wrote|by eapply file_apart_wrote].
Qed.

Lemma file_in_op_bio x y ip D P ss :
  bio_only x y → bstate y D P ∅ → file_in_op x ip D P ss → file_in_op y ip D P ss ∧ inode_at y ip = inode_at x ip.
Proof.
  intros Hio Hy [O1 O2 O3 O4 O5 O6 O7 O8 O9].
  assert (inode_at y ip = inode_at x ip) as Hq by (unfold bio_only in Hio; by rewrite Hio).
  split; [|done]. split; rewrite ?Hq; try done; [by eapply logging_bio|by eapply file_ok_bio].
Qed.

Section file_claims.
Context (flag : schedflag) (swtch : M KX unit) (iderw : nat → M KX unit) (fuel : nat).
Context {DR : Drivers} {DK : DiskOk iderw False}.
Implicit Types (k : KX) (D P : blocks).

(** [readi] gives the bytes of the file: with [F] the contents of a file that
    is no device, a read of [n] bytes at [off] returns [-1] when [off] lies
    beyond the end or [off + n] wraps around, and otherwise the bytes of [F] from
    [off] on, cut at the end of the file, with their number.  It goes through the
    direct and the indirect blocks and through dirty blocks of the cache, it
    never runs out of the bound on its loop, and it changes neither the disk nor
    the dirty blocks. *)
Theorem readi_spec ip dst off n k D P :
  let q := inode_at (k_ext k) ip in
  fsok k → bstate (k_ext k) D P ∅ → (size P < NBUF)%nat → file_ok (k_ext k) D P q 0 (i_size q) → 0 <= i_size q →
  i_type q ≠ T_DEV → 0 <= off < 2 ^ 32 → 0 <= n < 2 ^ 32 →
  ∃ k', readi flag swtch iderw fuel to_struct ip dst off n k = Ret (read_result (file_data D P q) dst off n) k' ∧
    calmly k k' ∧ bstate (k_ext k') D P ∅ ∧ bio_only (k_ext k) (k_ext k').
Proof.
  intros q Hk Hs Hroom Hf Hsz Ht Ho Hn.
  destruct (does_returns (readi flag swtch iderw fuel to_struct ip dst off n) k
    (λ r y, r = read_result (file_data D P q) dst off n ∧ bstate y D P ∅ ∧ bio_only (k_ext k) y) Hk)
    as (r & k' & Hrun & Hc & -> & Hb & Hio); [|by exists k'].
  eapply does_mono; [by apply readi_does|done|by intros y []].
Qed.

End file_claims.

(** ** An example

    A file of 7000 bytes: twelve direct blocks, two through the indirect block in
    sector 32. *)
Definition demo_inode : inode :=
  Inode ROOTDEV 2 1 (Z.lor I_BUSY I_VALID) T_FILE 0 0 1 7000 (Z.of_nat <$> seq 20 13).
Definition demo_indirect : list Z := put_block_word 1 34 (put_block_word 0 33 zero_block).
Definition file_demo_disk : blocks := {[home 32 := demo_indirect]}.
Definition file_demo : ext :=
  set_x_icache (<[0%nat := demo_inode]> (x_icache (ext0 (λ _, 0))))
    (set_x_log (Log 10 30 1 0 1 0 (replicate (Z.to_nat LOGSIZE) 0))
      (set_x_disk file_demo_disk (set_x_bufs empty_bufs (set_x_ide (Ide None 0 64) (ext0 (λ _, 0)))))).

#[local] Instance no_drivers : Drivers := {| drv_read _ _ _ _ _ _ := block; drv_write _ _ _ _ _ _ := block |}.

Lemma file_demo_block o : 0 <= o < 7000 → 0 <= o / BSIZE < 14.
Proof. intros Ho. unfold BSIZE. split; [apply Z.div_pos; lia|]. apply Z.div_lt_upper_bound; lia. Qed.

Definition file_demo_at (bn : Z) : Z := if decide (bn < 12) then 20 + bn else 21 + bn.

Lemma file_demo_sector o :
  0 <= o < 7000 → file_sector file_demo_disk ∅ demo_inode (o / BSIZE) = file_demo_at (o / BSIZE).
Proof.
  intros Ho. apply Z.eqb_eq. pose proof (file_demo_block o Ho) as Hb.
  assert (forallb (λ bn, file_sector file_demo_disk ∅ demo_inode bn =? file_demo_at bn) (Z.of_nat <$> seq 0 14) = true) as Hall
    by (vm_compute; reflexivity).
  rewrite forallb_forall in Hall. apply Hall, list_elem_of_In, list_elem_of_fmap. exists (Z.to_nat (o / BSIZE)).
  split; [lia|]. apply elem_of_seq. lia.
Qed.

Lemma file_demo_range o : 0 <= o < 7000 → 20 <= file_demo_at (o / BSIZE) < 35 ∧ file_demo_at (o / BSIZE) ≠ 32.
Proof. intros Ho. pose proof (file_demo_block o Ho). unfold file_demo_at. case_decide; lia. Qed.

Lemma file_demo_open : file_in_op file_demo 0 file_demo_disk ∅ [].
Proof.
  pose proof file_demo_range as Hr. split; change (inode_at file_demo 0) with demo_inode.
  - by apply (empty_bufs_bstate file_demo).
  - constructor.
  - intros key. rewrite lookup_empty. split; [by intros [? ?]|set_solver].
  - split; [done|done|by vm_compute|done|constructor].
  - done.
  - done.
  - done.
  - split; [done|done| |intros _; by vm_compute|]; intros o Ho; rewrite file_demo_sector by done; destruct (Hr o Ho).
    + split; [lia|]. split; [done|]. split; [|done]. change (ide_disksize (x_ide file_demo)) with 64. lia.
    + unfold contents, file_demo_disk, home. rewrite lookup_empty, lookup_singleton_ne; [by vm_compute|]. intros [= He]. congruence.
  - split; [intros o o' Ho Ho'|intros o _ Ho]; rewrite !file_demo_sector by done.
    + pose proof (file_demo_block o Ho). pose proof (file_demo_block o' Ho'). unfold file_demo_at. repeat case_decide; lia.
    + change (i_addrs demo_inode !!! NDIRECT) with 32. by destruct (Hr o Ho).
Qed.

(** The first read is cut at the end of the file. *)
Lemma readi_spec_witness :
  ∃ k', readi DEFAULT block Memide.iderw 0 to_struct 0 [] 6998 10 (fs_boot file_demo) = Ret (2, [0; 0]) k'.
Proof.
  destruct file_demo_open as [O1 O2 O3 O4 O5 O6 O7 O8 O9].
  destruct (readi_spec DEFAULT block Memide.iderw 0 0 [] 6998 10 (fs_boot file_demo) file_demo_disk ∅)
    as (k' & Hrun & _); [apply fsok_boot|exact O1| |exact O8|exact O7|exact O6|lia|lia|].
  - rewrite map_size_empty. unfold NBUF. lia.
  - exists k'. etransitivity; [exact Hrun|by vm_compute].
Defined.

