(* ===== verification/DirSpec.v ===== *)
(** * Directories (fs.c: iget, dirlookup, dirlink)

    A directory is a file of entries of 16 bytes, an inode number and a name of at
    most 14 characters; number 0 marks a free entry.  [dirlookup] is shown to find
    the first entry with the name, [dirlink] to fill the first free one, and the
    inode cache to keep one slot per inode. *)

From stdpp Require Import base functions list gmap strings.
From Stdlib Require Import ZArith Lia.
From S2P Require Import Prelude KState Spinlock CString Proc ProcForms KExt KRun Ide Bio Log Cprintf Fs FsSpec.

(** ** Names *)

(** The characters that count: up to the first zero and at most 14. *)
Fixpoint to_nul (l : list Z) : list Z :=
  match l with
  | [] => []
  | c :: l' => if decide (c = 0) then [] else c :: to_nul l'
  end.
Definition name_key (s : list Z) : list Z := to_nul (take DIRSIZ s).

Lemma to_nul_prefix l : ∃ l', l = to_nul l ++ l' ∧ (l' = [] ∨ head l' = Some 0).
Proof.
  induction l as [|c l IH]; [by exists []; auto|]. cbn [to_nul]. case_decide as Hc.
  - exists (c :: l). split; [done|right]. by rewrite Hc.
  - destruct IH as (l' & He & Hl). exists l'. split; [by rewrite He at 1|done].
Qed.

Lemma to_nul_nonzero l : 0 ∉ to_nul l.
Proof. induction l as [|c l IH]; cbn [to_nul]; [apply not_elem_of_nil|]. case_decide; [apply not_elem_of_nil|]. apply not_elem_of_cons. auto. Qed.

Lemma to_nul_app l n : 0 ∉ l → to_nul (l ++ replicate n 0) = l.
Proof.
  induction l as [|c l IH]; intros H0; [by destruct n|]. apply not_elem_of_cons in H0 as [Hc H0]. cbn [to_nul app].
  rewrite decide_False by done. by rewrite IH.
Qed.

Lemma name_key_length s : (length (name_key s) <= DIRSIZ)%nat.
Proof.
  unfold name_key. destruct (to_nul_prefix (take DIRSIZ s)) as (l' & He & _). apply (f_equal length) in He.
  rewrite length_app, length_take in He. lia.
Qed.

(** An array with zeros behind it, as a string. *)
Lemma array_cstr a l (m : mem) :
  (∀ b, a <= b <= a + Z.of_nat (length l) → m b = array_at a l (λ _, 0) b) → cstr m a (to_nul l).
Proof.
  intros Hm. destruct (to_nul_prefix l) as (l' & He & Hl). assert (length l = length (to_nul l) + length l')%nat as Hlen by (by rewrite <-length_app, <-He).
  apply cstr_intro; [|apply to_nul_nonzero|].
  - intros i Hi. rewrite Hm by lia. unfold array_at. rewrite decide_True by lia.
    replace (Z.to_nat (a + Z.of_nat i - a)) with i by lia. rewrite He at 1. by rewrite lookup_total_app_l.
  - rewrite Hm by lia. unfold array_at. case_decide as Hd; [|done].
    replace (Z.to_nat _) with (length (to_nul l)) by lia. destruct Hl as [->|Hl]; [simpl in *; lia|]. destruct l' as [|c l']; [done|].
    injection Hl as ->. apply list_lookup_total_correct. rewrite He at 2. by apply list_lookup_middle.
Qed.

(** Two names are the same if the characters that count are. *)
Lemma namecmp_key s t : namecmp s t = 0 ↔ name_key s = name_key t.
Proof.
  unfold namecmp. set (m := array_at 0 _ _).
  assert (length (take DIRSIZ s) <= 14 ∧ length (take DIRSIZ t) <= 14)%nat as [Ls Lt] by (rewrite !length_take; unfold DIRSIZ; lia).
  rewrite (strncmp_diff _ _ _ (name_key s) (name_key t)).
  - by rewrite !take_ge by apply name_key_length.
  - apply array_cstr. intros b Hb. unfold m, array_at. repeat case_decide; try lia; done.
  - apply array_cstr. intros b Hb. unfold m, array_at. repeat case_decide; try lia; done.
Qed.

(** [strncpy] copies the string and fills up with zeros. *)
Lemma strncpy_fills n s t l (m : mem) a :
  cstr m t l → t + Z.of_nat (length l) < s ∨ s + Z.of_nat n <= t →
  strncpy n s t m a = if decide (s <= a < s + Z.of_nat n) then default 0 (l !! Z.to_nat (a - s)) else m a.
Proof.
  revert s t l m. induction n as [|n IH]; intros s t l m Ht Hd; [cbn; by rewrite decide_False by lia|].
  destruct l as [|c l]; cbn [cstr length strncpy] in *.
  - rewrite decide_True by done. rewrite stosb_filled, insert_mem, Ht, lookup_nil. change (u8 0) with 0. repeat case_decide; try lia; done.
  - destruct Ht as (Hc & Hne & Ht). rewrite decide_False by congruence. rewrite (IH _ _ l), insert_mem; [|by eapply cstr_ext; [|done]; intros b Hb; mem_solve|lia].
    destruct (decide (s = a)) as [->|Hs].
    + rewrite decide_False, decide_True by lia. by rewrite Z.sub_diag.
    + destruct (decide (s + 1 <= a < s + 1 + Z.of_nat n)) as [Ha|Ha]; [|by rewrite decide_False by lia]. rewrite decide_True by lia.
      by replace (Z.to_nat (a - s)) with (S (Z.to_nat (a - (s + 1)))) by lia.
Qed.

Lemma strncpy_name_pad name : strncpy_name name = name_key name ++ replicate (DIRSIZ - length (name_key name)) 0.
Proof.
  pose proof (name_key_length name) as Hl. set (l := name_key name) in *. unfold strncpy_name, read_array.
  apply list_eq_same_length with (n := DIRSIZ); [rewrite length_app, length_replicate; lia|by rewrite length_fmap, length_seq|].
  intros i a b Hi Ha Hb. rewrite list_lookup_fmap, lookup_seq_lt in Ha by done. apply (inj Some) in Ha as <-.
  rewrite (strncpy_fills _ _ _ l).
  - rewrite decide_True by lia. replace (Z.to_nat _) with i by lia. destruct (decide (i < length l)%nat).
    + rewrite lookup_app_l in Hb by done. by rewrite Hb.
    + rewrite lookup_app_r in Hb by lia. rewrite lookup_ge_None_2 by lia. by apply lookup_replicate in Hb as [-> _].
  - apply array_cstr. intros c Hc. done.
  - right. unfold DIRSIZ. lia.
Qed.

Lemma length_strncpy_name name : length (strncpy_name name) = DIRSIZ.
Proof. by rewrite strncpy_name_pad, length_app, length_replicate, Nat.add_comm, Nat.sub_add by apply name_key_length. Qed.

Lemma name_key_copy name : name_key (strncpy_name name) = name_key name.
Proof.
  unfold name_key at 1. rewrite take_ge by (by rewrite length_strncpy_name). rewrite strncpy_name_pad.
  apply to_nul_app, to_nul_nonzero.
Qed.

(** ** Entries *)

Definition dir_slot (F : list Z) (i : nat) : dirent := dirent_of (take 16 (drop (16 * i) F)).
Definition dir_slots (F : list Z) : list dirent := dir_slot F <$> seq 0 (length F / 16).

(** The first entry that is in use and has the name, and the first free one. *)
Definition dir_find (name : list Z) (es : list dirent) : option (nat * dirent) :=
  list_find (λ e, de_inum e ≠ 0 ∧ name_key name = name_key (de_name e)) es.
Definition dir_free (es : list dirent) : option (nat * dirent) := list_find (λ e, de_inum e = 0) es.

Lemma dir_slots_lookup F i : (i < length F / 16)%nat → dir_slots F !! i = Some (dir_slot F i).
Proof. intros Hi. unfold dir_slots. by rewrite list_lookup_fmap, lookup_seq_lt. Qed.

Lemma dirent_of_bytes e : 0 <= de_inum e < 2 ^ 16 → length (de_name e) = DIRSIZ → dirent_of (dirent_bytes e) = e.
Proof.
  intros Hi Hl. unfold dirent_of, dirent_bytes. destruct e as [inum name]. cbn [de_inum de_name] in *. f_equal.
  - transitivity (half_at (half_bytes inum) 0); [done|]. rewrite half_of_bytes. unfold u16. by rewrite Z.mod_small by lia.
  - change (take DIRSIZ name = name). by rewrite take_ge by lia.
Qed.

(** Writing an entry in place of another. *)
Lemma dir_slots_put F i e :
  (i < length F / 16)%nat → 0 <= de_inum e < 2 ^ 16 → length (de_name e) = DIRSIZ →
  dir_slots (put_bytes (16 * i) (dirent_bytes e) F) = <[i := e]> (dir_slots F).
Proof.
  intros Hi He Hn. assert (length (dirent_bytes e) = 16%nat) as Hb by (unfold dirent_bytes; rewrite length_app, Hn; done).
  pose proof (Nat.div_mod (length F) 16 ltac:(lia)) as Hdiv.
  apply list_eq. intros j. destruct (decide (j < length F / 16)%nat) as [Hj|Hj].
  2:{ rewrite !lookup_ge_None_2; [done|..]; unfold dir_slots; rewrite ?length_insert, length_fmap, length_seq, ?length_put_bytes; lia. }
  rewrite dir_slots_lookup by (by rewrite length_put_bytes). unfold dir_slot. destruct (decide (i = j)) as [<-|Hij].
  - rewrite list_lookup_insert_eq by (unfold dir_slots; by rewrite length_fmap, length_seq). rewrite <-Hb at 1.
    by rewrite slice_put_same, dirent_of_bytes by (done || lia).
  - rewrite list_lookup_insert_ne, dir_slots_lookup by done. by rewrite slice_put_other by lia.
Qed.

(** What is found after an entry was filled. *)
Lemma dir_find_added es i e0 e name name' :
  dir_find name es = None → dir_free es = Some (i, e0) → de_inum e ≠ 0 → name_key (de_name e) = name_key name →
  dir_find name' (<[i := e]> es) = if decide (name_key name' = name_key name) then Some (i, e) else dir_find name' es.
Proof.
  unfold dir_find, dir_free. intros Hnone (Hi & H0 & _)%list_find_Some He Hk. pose proof (lookup_lt_Some _ _ _ Hi) as Hlt.
  rewrite list_find_None, Forall_lookup in Hnone. case_decide as Hsame.
  - apply list_find_Some. split; [by apply list_lookup_insert_eq|]. split; [split; [done|congruence]|].
    intros j y Hj Hji [Hy1 Hy2]. rewrite list_lookup_insert_ne in Hj by lia. apply (Hnone j y Hj). split; [done|congruence].
  - destruct (list_find _ es) as [[j y]|] eqn:Ef.
    + apply list_find_Some in Ef as (Hj & Hy & Hmin). apply list_find_Some.
      assert (i ≠ j) as Hij by (intros <-; rewrite Hi in Hj; injection Hj as <-; by destruct Hy).
      split; [by rewrite list_lookup_insert_ne|]. split; [done|]. intros j' y' Hj' Hlt'. destruct (decide (i = j')) as [<-|Hne].
      * rewrite list_lookup_insert_eq in Hj' by done. injection Hj' as <-. intros [_ ?]. congruence.
      * rewrite list_lookup_insert_ne in Hj' by done. by apply (Hmin j').
    + rewrite list_find_None, Forall_lookup in Ef. apply list_find_None, Forall_lookup. intros j y Hj.
      destruct (decide (i = j)) as [<-|Hne].
      * rewrite list_lookup_insert_eq in Hj by done. injection Hj as <-. intros [_ ?]. congruence.
      * rewrite list_lookup_insert_ne in Hj by done. by apply (Ef j).
Qed.

(** ** The inode cache

    [iget] gives a reference to the slot of an inode, or to a free one that becomes
    its slot; no inode has two slots. *)

Definition held_as (dev inum : Z) (q : inode) : Prop := i_ref q > 0 ∧ i_dev q = dev ∧ i_inum q = inum.
#[global] Instance held_as_dec dev inum q : Decision (held_as dev inum q).
Proof. unfold held_as. apply _. Defined.

Definition one_slot (l : list inode) : Prop :=
  ∀ i j p q, l !! i = Some p → l !! j = Some q → i_ref p > 0 → held_as (i_dev p) (i_inum p) q → i = j.

Definition iget_at (dev inum : Z) (q : inode) : inode :=
  if decide (held_as dev inum q) then set_i_ref (i_ref q + 1) q
  else set_i_flags 0 (set_i_ref 1 (set_i_inum inum (set_i_dev dev q))).

(** Slot [j] is the one that [iget] takes, and [l'] the cache afterwards. *)
Definition got (l : list inode) (dev inum : Z) (j : nat) (l' : list inode) : Prop :=
  ∃ q, l !! j = Some q ∧ (held_as dev inum q ∨ i_ref q = 0 ∧ Forall (λ p, ¬ held_as dev inum p) l) ∧
    l' = <[j := iget_at dev inum q]> l.

Lemma got_held l dev inum j l' : Forall (λ q, 0 <= i_ref q) l → got l dev inum j l' → ∃ q, l' !! j = Some q ∧ held_as dev inum q.
Proof.
  intros Hr (q & Hq & _ & ->). exists (iget_at dev inum q). split; [apply list_lookup_insert_eq; by eapply lookup_lt_Some|].
  pose proof (Forall_lookup_1 _ _ _ _ Hr Hq). unfold iget_at. case_decide as Hd; [|done].
  destruct Hd as (? & ? & ?). split; [cbn; lia|done].
Qed.

Lemma got_one_slot l dev inum j l' : one_slot l → got l dev inum j l' → one_slot l'.
Proof.
  intros Hone (q & Hq & Hor & ->). pose proof (lookup_lt_Some _ _ _ Hq) as Hlt.
  assert (∀ i p, i ≠ j → l !! i = Some p → ¬ held_as dev inum p) as Hnot.
  { intros i p Hij Hp Hheld. destruct Hor as [Hh|[_ Hall]]; [|by apply (Forall_lookup_1 _ _ _ _ Hall Hp)].
    destruct Hheld as (? & <- & <-). destruct Hh as (? & ? & ?). apply Hij. by apply (Hone i j p q). }
  assert (i_dev (iget_at dev inum q) = dev ∧ i_inum (iget_at dev inum q) = inum) as [Hd Hi].
  { unfold iget_at. case_decide as H; [|done]. by destruct H as (_ & ? & ?). }
  intros i i' p p' Hp Hp' Hr Hh. destruct (decide (i = j)) as [->|Hij], (decide (i' = j)) as [->|Hij']; [done|..].
  - rewrite list_lookup_insert_eq in Hp by done. rewrite list_lookup_insert_ne in Hp' by done. injection Hp as <-. rewrite Hd, Hi in Hh. by destruct (Hnot i' p').
  - rewrite list_lookup_insert_ne in Hp by done. rewrite list_lookup_insert_eq in Hp' by done. injection Hp' as <-. destruct Hh as (? & Hh1 & Hh2). destruct (Hnot i p Hij Hp). split; [done|]. by rewrite <-Hh1, <-Hh2, Hd, Hi.
  - rewrite list_lookup_insert_ne in Hp, Hp' by done. by apply (Hone i i' p p').
Qed.

Lemma iget_scan_spec l i0 e dev inum :
  match iget_scan l i0 e dev inum with
  | inl i => (i0 <= i)%nat ∧ ∃ q, l !! (i - i0)%nat = Some q ∧ held_as dev inum q
  | inr r => Forall (λ p, ¬ held_as dev inum p) l ∧
      match r with
      | Some i => e = Some i ∨ (i0 <= i)%nat ∧ ∃ q, l !! (i - i0)%nat = Some q ∧ i_ref q = 0
      | None => e = None ∧ Forall (λ q, i_ref q ≠ 0) l
      end
  end.
Proof.
  revert i0 e. induction l as [|q l IH]; intros i0 e; cbn [iget_scan]; [split; [done|]; destruct e; auto|].
  case_decide as Hq; [split; [done|]; exists q; by rewrite Nat.sub_diag|].
  specialize (IH (S i0) (if decide (e = None ∧ i_ref q = 0) then Some i0 else e)).
  assert (∀ i, (S i0 <= i)%nat → (q :: l) !! (i - i0)%nat = l !! (i - S i0)%nat) as Hs.
  { intros i Hi. by replace (i - i0)%nat with (S (i - S i0)) by lia. }
  destruct (iget_scan l _ _ dev inum) as [i|[i|]].
  - destruct IH as (Hi & p & Hp & Hh). split; [lia|]. exists p. by rewrite Hs.
  - destruct IH as [Hf [He|(Hi & p & Hp & Hh)]]; (split; [by constructor|]).
    + case_decide as Hc; [|by left]. injection He as <-. right. split; [done|]. exists q. rewrite Nat.sub_diag. by destruct Hc.
    + right. split; [lia|]. exists p. by rewrite Hs.
  - destruct IH as (Hf & He & Hr). split; [by constructor|]. case_decide as Hc; [done|]. split; [done|]. constructor; [|done].
    intros H0. by apply Hc.
Qed.

Lemma alter_at {A} (f : A → A) (l : list A) i a : l !! i = Some a → alter f i l = <[i := f a]> l.
Proof.
  intros Hi. apply list_eq. intros j. destruct (decide (i = j)) as [<-|Hij].
  - rewrite list_lookup_alter_eq, Hi, list_lookup_insert_eq by (by eapply lookup_lt_Some). done.
  - by rewrite list_lookup_alter_ne, list_lookup_insert_ne.
Qed.

Lemma alter_alter {A} (f g : A → A) (l : list A) i : alter f i (alter g i l) = alter (f ∘ g) i l.
Proof.
  apply list_eq. intros j. destruct (decide (i = j)) as [<-|Hij]; [|by rewrite !list_lookup_alter_ne].
  rewrite !list_lookup_alter_eq. by destruct (l !! i).
Qed.

Lemma iget_does dev inum x C :
  Forall (λ q, 0 <= i_ref q < 2 ^ 31 - 1) (x_icache x) → (∃ q, q ∈ x_icache x ∧ i_ref q = 0) →
  does (iget dev inum) x (λ j y, ∃ l', got (x_icache x) dev inum j l' ∧ y = set_x_icache l' x) C.
Proof.
  intros Hr (q0 & Hq0 & H0). unfold iget. apply does_acquire; [apply icache_lock_fs|].
  apply leaves_get. pose proof (iget_scan_spec (x_icache x) 0 None dev inum) as Hs.
  destruct (iget_scan (x_icache x) 0 None dev inum) as [j|[j|]].
  - destruct Hs as (_ & q & Hq & Hh). rewrite Nat.sub_0_r in Hq. apply leaves_upd, leaves_release; [apply icache_lock_fs|].
    apply does_ret. exists (<[j := iget_at dev inum q]> (x_icache x)). split; [by exists q; auto|].
    rewrite (alter_at _ _ _ q Hq). unfold iget_at. rewrite decide_True by done.
    pose proof (Forall_lookup_1 _ _ _ _ Hr Hq) as Hb. cbn beta in Hb. by rewrite s32_id by lia.
  - destruct Hs as [Hf [He|(_ & q & Hq & Hh)]]; [done|]. rewrite Nat.sub_0_r in Hq. do 4 apply leaves_upd. apply leaves_release; [apply icache_lock_fs|].
    apply does_ret. exists (<[j := iget_at dev inum q]> (x_icache x)). split; [by exists q; auto|].
    transitivity (set_x_icache (alter (set_i_flags 0) j (alter (set_i_ref 1) j (alter (set_i_inum inum) j (alter (set_i_dev dev) j (x_icache x))))) x);
      [done|]. rewrite !alter_alter, (alter_at _ _ _ q Hq).
    unfold iget_at. rewrite decide_False by (intros [? _]; lia). done.
  - destruct Hs as (_ & _ & Hall). rewrite Forall_forall in Hall. by destruct (Hall q0 Hq0).
Qed.

(** ** Looking up and adding *)

(** A directory whose blocks are all on the disk and whose entries are whole, with
    dirty blocks [P] in the cache. *)
Record dir_at (x : ext) (ip : nat) (D P : blocks) : Prop := {
  dr_cache : bstate x D P ∅;
  dr_room : (size P < NBUF)%nat;
  dr_type : i_type (inode_at x ip) = T_DIR;
  dr_size : 0 <= i_size (inode_at x ip) ∧ i_size (inode_at x ip) mod 16 = 0;
  dr_blocks : file_ok x D P (inode_at x ip) 0 (i_size (inode_at x ip))
}.

(** The inode cache can give out another reference. *)
Definition icache_ready (x : ext) : Prop :=
  Forall (λ q, 0 <= i_ref q < 2 ^ 31 - 1) (x_icache x) ∧ (∃ q, q ∈ x_icache x ∧ i_ref q = 0).

Section directories.
Context (flag : schedflag) (swtch : M KX unit) (iderw : nat → M KX unit) (fuel : nat).
Context {DR : Drivers} {stop : Prop} {DK : DiskOk iderw stop}.
Implicit Types (x y z : ext) (D P : blocks).

Lemma dir_at_bio x y ip D P :
  bio_only x y → bstate y D P ∅ → dir_at x ip D P → dir_at y ip D P ∧ inode_at y ip = inode_at x ip ∧ x_icache y = x_icache x.
Proof.
  intros Hio Hy [O1 O2 O3 O4 O5]. assert (x_icache y = x_icache x) as Hc by (unfold bio_only in Hio; by rewrite Hio).
  assert (inode_at y ip = inode_at x ip) as Hq by (unfold inode_at; by rewrite Hc).
  split; [|done]. split; rewrite ?Hq; try done. by eapply file_ok_bio.
Qed.

Lemma dir_slots_length x ip D P :
  dir_at x ip D P → i_size (inode_at x ip) = 16 * Z.of_nat (length (dir_slots (file_data D P (inode_at x ip)))).
Proof.
  intros Hd. destruct (dr_size _ _ _ _ Hd) as [H1 H2]. unfold dir_slots, file_data. rewrite length_fmap, length_seq, length_file_bytes.
  apply Z.div_exact in H2; [|lia]. rewrite Nat2Z.inj_div, Z2Nat.id by lia. exact H2.
Qed.

Lemma read_dirent_does ip i x D P msg :
  dir_at x ip D P → let F := file_data D P (inode_at x ip) in (i < length (dir_slots F))%nat →
  does (read_dirent flag swtch iderw fuel ip (16 * Z.of_nat i) msg) x
    (λ e y, dir_slots F !! i = Some e ∧ bstate y D P ∅ ∧ bio_only x y) (λ y, stop ∧ x_disk y = D).
Proof.
  intros Hd F Hi. pose proof (dir_slots_length _ _ _ _ Hd) as Hlen. fold F in Hlen. destruct Hd as [O1 O2 O3 O4 O5]. unfold read_dirent. eapply does_bind.
  { apply (readi_does flag swtch iderw fuel ip [] (16 * Z.of_nat i) SIZEOF_DIRENT x D P); try done; try lia.
    - by rewrite O3.
    - pose proof (fo_size _ _ _ _ _ _ O5). unfold MAXFILE, NDIRECT, NINDIRECT, BSIZE in *. lia. }
  intros [r l] y (Heq & Hy & Hio). fold F in Heq. unfold read_result in Heq.
  assert (Z.of_nat (length F) = i_size (inode_at x ip)) as HF by (unfold F, file_data; rewrite length_file_bytes; lia).
  pose proof (fo_size _ _ _ _ _ _ O5). unfold SIZEOF_DIRENT, MAXFILE, NDIRECT, NINDIRECT, BSIZE in *.
  rewrite HF, decide_False, Z.min_l in Heq by lia. injection Heq as -> ->. cbn [app].
  rewrite decide_False by lia. apply does_ret. split; [|done].
  unfold dir_slots in Hi. rewrite length_fmap, length_seq in Hi. rewrite dir_slots_lookup by done. unfold dir_slot. do 4 f_equal. lia.
Qed.

(** What [dirlookup] answers from entry [i] on. *)
Definition looked_up x ip D P (name : list Z) (i : nat) (r : option (nat * Z)) y : Prop :=
  ∃ z, bstate z D P ∅ ∧ bio_only x z ∧
  match dir_find name (drop i (dir_slots (file_data D P (inode_at x ip)))) with
  | None => r = None ∧ y = z
  | Some (j, e) => ∃ s l', r = Some (s, 16 * Z.of_nat (i + j)) ∧
      got (x_icache x) (i_dev (inode_at x ip)) (de_inum e) s l' ∧ y = set_x_icache l' z
  end.

Lemma dirlookup_loop_does n ip name i x D P :
  dir_at x ip D P → icache_ready x → let len := length (dir_slots (file_data D P (inode_at x ip))) in
  (i <= len)%nat → (len <= i + n)%nat →
  does (dirlookup_loop flag swtch iderw fuel n ip name (16 * Z.of_nat i)) x (looked_up x ip D P name i) (λ y, stop ∧ x_disk y = D).
Proof.
  intros Hd. cbv zeta. set (F := file_data D P (inode_at x ip)). pose proof (dir_slots_length _ _ _ _ Hd) as Hlen. fold F in Hlen.
  assert (∀ y, bio_only x y → bstate y D P ∅ → icache_ready x → (i <= length (dir_slots F))%nat → (length (dir_slots F) <= i + n)%nat →
    does (dirlookup_loop flag swtch iderw fuel n ip name (16 * Z.of_nat i)) y (looked_up x ip D P name i) (λ y, stop ∧ x_disk y = D)) as Hgen.
  2:{ intros Hr Hi Hn. apply Hgen; try done; [apply bio_only_refl|apply Hd]. }
  revert i. induction n as [|n IH]; intros i y Hio Hy Hr Hi Hn; destruct (dir_at_bio x y ip D P Hio Hy Hd) as (Hdy & Hq & Hc);
    cbn [dirlookup_loop]; apply does_get_bind; rewrite Hq, Hlen.
  - rewrite decide_False by lia. apply does_ret. exists y. split; [done|]. split; [done|]. fold F. rewrite drop_ge by lia. done.
  - destruct (decide (i < length (dir_slots F))%nat) as [Hlt|Hge].
    2:{ rewrite decide_False by lia. apply does_ret. exists y. split; [done|]. split; [done|]. fold F. by rewrite drop_ge by lia. }
    rewrite decide_True by lia. eapply does_bind; [apply (read_dirent_does ip i y D P _ Hdy); by rewrite Hq|].
    rewrite Hq. fold F. intros e z (He & Hz & Hyz). pose proof (bio_only_trans _ _ _ Hio Hyz) as Hxz.
    destruct (dir_at_bio x z ip D P Hxz Hz Hd) as (Hdz & Hqz & Hcz). pose proof (drop_S _ _ _ He) as Hdrop.
    case_decide as Hhit.
    + destruct Hhit as [H0 Hk%namecmp_key]. apply does_get_bind. rewrite Hqz. eapply does_bind.
      { apply iget_does; rewrite Hcz; apply Hr. }
      intros s w (l' & Hgot & ->). apply does_ret. exists z. split; [done|]. split; [done|]. fold F. rewrite Hdrop.
      unfold dir_find. cbn [list_find]. rewrite decide_True by done. exists s, l'. rewrite Nat.add_0_r, <-Hcz. done.
    + pose proof (fo_size _ _ _ _ _ _ (dr_blocks _ _ _ _ Hd)) as Hmax. unfold SIZEOF_DIRENT, MAXFILE, NDIRECT, NINDIRECT, BSIZE in *.
      rewrite u32_id by (unfold is_u32; lia). replace (16 * Z.of_nat i + 16) with (16 * Z.of_nat (S i)) by lia.
      eapply does_mono; [apply (IH (S i) z Hxz Hz Hr); lia| |done]. intros r w (u & Hu & Hxu & Hm). exists u. split; [done|]. split; [done|].
      fold F in Hm |- *. rewrite Hdrop. unfold dir_find in *.
      cbn [list_find]. rewrite decide_False by (rewrite <-namecmp_key; done).
      destruct (list_find _ (drop (S i) (dir_slots F))) as [[j e']|]; [|done]. cbn. destruct Hm as (s & l' & -> & Hg & ->).
      exists s, l'. split; [do 3 f_equal; lia|done].
Qed.

Lemma dirlookup_does ip name x D P :
  dir_at x ip D P → icache_ready x →
  does (dirlookup flag swtch iderw fuel ip name) x (looked_up x ip D P name 0) (λ y, stop ∧ x_disk y = D).
Proof.
  intros Hd Hr. pose proof (dir_slots_length _ _ _ _ Hd) as Hlen. unfold dirlookup. apply does_get_bind.
  rewrite decide_False by (rewrite (dr_type _ _ _ _ Hd); auto). apply does_get_bind.
  apply (dirlookup_loop_does _ ip name 0 x D P Hd Hr); [lia|]. unfold SIZEOF_DIRENT. rewrite Hlen, (Z.mul_comm 16), Z.div_mul by lia. lia.
Qed.

Lemma empty_dirent_does n ip i x D P :
  dir_at x ip D P → let es := dir_slots (file_data D P (inode_at x ip)) in
  (i <= length es)%nat → (length es <= i + n)%nat →
  does (empty_dirent flag swtch iderw fuel n ip (16 * Z.of_nat i)) x
    (λ o y, o = 16 * Z.of_nat (i + match dir_free (drop i es) with Some (j, _) => j | None => length es - i end) ∧ bstate y D P ∅ ∧ bio_only x y)
    (λ y, stop ∧ x_disk y = D).
Proof.
  intros Hd. cbv zeta. set (es := dir_slots _). pose proof (dir_slots_length _ _ _ _ Hd) as Hlen. fold es in Hlen.
  assert (∀ y, bio_only x y → bstate y D P ∅ → (i <= length es)%nat → (length es <= i + n)%nat →
    does (empty_dirent flag swtch iderw fuel n ip (16 * Z.of_nat i)) y
      (λ o y, o = 16 * Z.of_nat (i + match dir_free (drop i es) with Some (j, _) => j | None => length es - i end) ∧ bstate y D P ∅ ∧ bio_only x y)
      (λ y, stop ∧ x_disk y = D)) as Hgen.
  2:{ intros Hi Hn. apply Hgen; try done; [apply bio_only_refl|apply Hd]. }
  revert i. induction n as [|n IH]; intros i y Hio Hy Hi Hn; destruct (dir_at_bio x y ip D P Hio Hy Hd) as (Hdy & Hq & Hc);
    cbn [empty_dirent]; apply does_get_bind; rewrite Hq, Hlen.
  - rewrite decide_False by lia. apply does_ret. rewrite drop_ge by lia. unfold dir_free. cbn [list_find]. split; [f_equal; lia|done].
  - destruct (decide (i < length es)%nat) as [Hlt|Hge].
    2:{ rewrite decide_False by lia. apply does_ret. rewrite drop_ge by lia. unfold dir_free. cbn [list_find]. split; [f_equal; lia|done]. }
    rewrite decide_True by lia. eapply does_bind; [apply (read_dirent_does ip i y D P _ Hdy); by rewrite Hq|].
    rewrite Hq. fold es. intros e z (He & Hz & Hyz). pose proof (bio_only_trans _ _ _ Hio Hyz) as Hxz. pose proof (drop_S _ _ _ He) as Hdrop.
    unfold dir_free in *. rewrite Hdrop. cbn [list_find]. destruct (decide (de_inum e = 0)).
    + apply does_ret. split; [f_equal; lia|done].
    + unfold SIZEOF_DIRENT. replace (16 * Z.of_nat i + 16) with (16 * Z.of_nat (S i)) by lia.
      eapply does_mono; [apply (IH (S i) z Hxz Hz); lia| |done]. cbn beta. intros o w (-> & Hw). split; [|done].
      destruct (list_find _ (drop (S i) es)) as [[j e']|]; cbn [fmap option_fmap option_map prod_map]; f_equal; cbn [fst snd id]; lia.
Qed.

(** Adding a name to a directory with a free entry. *)
Lemma dirlink_does ip name inum i e0 x D P ss :
  file_in_op x ip D P ss → dir_at x ip D P → icache_ready x → log_room x ss 2 → 0 <= inum < 2 ^ 16 →
  let es := dir_slots (file_data D P (inode_at x ip)) in
  dir_find name es = None → dir_free es = Some (i, e0) →
  does (dirlink flag swtch iderw fuel ip name inum) x
    (λ r y, r = 0 ∧ ∃ P' ss', file_in_op y ip D P' ss' ∧ inode_at y ip = inode_at x ip ∧ x_icache y = x_icache x ∧
      (length ss' <= length ss + 2)%nat ∧ lg_size (x_log y) = lg_size (x_log x) ∧
      dir_slots (file_data D P' (inode_at x ip)) = <[i := Dirent inum (strncpy_name name)]> es)
    (λ y, stop ∧ x_disk y = D).
Proof.
  intros Hop Hd Hr Hroom Hin es Hnone Hfree. pose proof (dir_slots_length _ _ _ _ Hd) as Hlen. fold es in Hlen.
  unfold dirlink. eapply does_bind; [by apply (dirlookup_does ip name x D P)|].
  intros r y (z & Hz & Hxz & Hm). fold es in Hm. change (drop 0 es) with es in Hm. rewrite Hnone in Hm. destruct Hm as [-> ->].
  destruct (dir_at_bio x z ip D P Hxz Hz Hd) as (Hdz & Hqz & Hcz). destruct (file_in_op_bio x z ip D P ss Hxz Hz Hop) as [Hopz _].
  apply does_get_bind. eapply does_bind.
  { apply (empty_dirent_does _ ip 0 z D P Hdz); rewrite Hqz; fold es; [lia|]. unfold SIZEOF_DIRENT. rewrite Hlen, (Z.mul_comm 16), Z.div_mul by lia. lia. }
  rewrite Hqz. fold es. change (drop 0 es) with es. rewrite Hfree. intros o w (-> & Hw & Hzw). rewrite Nat.add_0_l.
  destruct (dir_at_bio z w ip D P Hzw Hw Hdz) as (Hdw & Hqw & Hcw). destruct (file_in_op_bio z w ip D P ss Hzw Hw Hopz) as [Hopw _].
  pose proof (bio_only_trans _ _ _ Hxz Hzw) as Hxw. unfold dir_free in Hfree. apply list_find_Some in Hfree as (Hi & _ & _). apply lookup_lt_Some in Hi.
  set (b := dirent_bytes _). assert (length b = 16%nat) as Hb by (unfold b, dirent_bytes; cbn [de_inum de_name]; by rewrite length_app, length_strncpy_name).
  destruct Hopw as [O1 O2 O3 O4 O5 O6 O7 O8 O9]. assert (Z.of_nat (length b) = SIZEOF_DIRENT) as Hb' by (by rewrite Hb). rewrite <-Hb'. eapply does_bind.
  { apply (writei_does flag swtch iderw fuel ip b (16 * Z.of_nat i) w D P ss); try done; rewrite ?Hqw, ?Hqz; try lia.
    rewrite Hb. change (Z.of_nat (blocks_of (Z.of_nat 16))) with 2. unfold log_room in *. unfold bio_only in Hxw. by rewrite Hxw. }
  rewrite Hqw, Hqz. intros r v (-> & P' & ss' & W & Hss). rewrite decide_False by lia. apply does_ret. split; [done|].
  exists P', ss'. pose proof (file_in_op_wrote w ip D P ss (16 * Z.of_nat i) b v P' ss') as Hv. rewrite Hqw, Hqz in Hv.
  pose proof (wr_only _ _ _ _ _ _ _ _ _ _ _ W) as Hfs.
  assert (x_icache v = x_icache x) as Hcv by (unfold fs_only in Hfs; rewrite Hfs; cbn; congruence). split_and!.
  - apply Hv; [|exact W]. split; rewrite ?Hqw, ?Hqz; try done; rewrite <-Hqz, <-Hqw; done.
  - unfold inode_at. by rewrite Hcv.
  - done.
  - rewrite Hb in Hss. exact Hss.
  - rewrite (wr_size _ _ _ _ _ _ _ _ _ _ _ W). unfold bio_only in Hxw. by rewrite Hxw.
  - rewrite (file_data_wrote _ _ _ _ _ _ _ _ _ _ W) by lia. replace (Z.to_nat (16 * Z.of_nat i)) with (16 * i)%nat by lia.
    unfold b. replace (u16 inum) with inum by (unfold u16; by rewrite Z.mod_small).
    apply dir_slots_put; [|done|apply length_strncpy_name]. unfold es, dir_slots in Hi. by rewrite length_fmap, length_seq in Hi.
Qed.
End directories.

(** The buffer cache does not look at the inode cache. *)
Lemma bstate_icache l x D P H : bstate x D P H → bstate (set_x_icache l x) D P H.
Proof. intros ((bs & [H1 H2 H3]) & Hd & Hv). split; [exists bs; by split|done]. Qed.

Section dir_claims.
Context (flag : schedflag) (swtch : M KX unit) (iderw : nat → M KX unit) (fuel : nat).
Context {DR : Drivers} {DK : DiskOk iderw False}.
Implicit Types (k : KX) (D P : blocks).

(** C12. A name that is put into a directory is found there.  In an open transaction,
    adding a name that is not yet there to a directory with a free entry returns 0
    and changes exactly the first free entry.  Then looking up a name with the same
    14 characters gives this entry's inode and offset; looking up any other name
    gives what it gave before, the first entry with that name or nothing.  The
    inode found is referenced once more in the inode cache, in the slot it has or
    in a free one, and no inode gets two slots.  Entries are found in the file
    through the block map, the log and the buffer cache. *)
Theorem dirlink_dirlookup ip name inum name' i e0 k D P ss :
  let q := inode_at (k_ext k) ip in let es := dir_slots (file_data D P q) in let e := Dirent inum (strncpy_name name) in
  fsok k → file_in_op (k_ext k) ip D P ss → log_room (k_ext k) ss 3 → i_type q = T_DIR → i_size q mod 16 = 0 →
  icache_ready (k_ext k) → one_slot (x_icache (k_ext k)) → 0 < inum < 2 ^ 16 →
  dir_find name es = None → dir_free es = Some (i, e0) →
  ∃ r k' P',
    (z ← dirlink flag swtch iderw fuel ip name inum;
     r ← dirlookup flag swtch iderw fuel ip name';
     mret (z, r)) k = Ret (0, r) k' ∧ calmly k k' ∧
    dir_slots (file_data D P' q) = <[i := e]> es ∧ bstate (k_ext k') D P' ∅ ∧ one_slot (x_icache (k_ext k')) ∧
    match (if decide (name_key name' = name_key name) then Some (i, e) else dir_find name' es) with
    | None => r = None ∧ x_icache (k_ext k') = x_icache (k_ext k)
    | Some (j, e) => ∃ s, r = Some (s, 16 * Z.of_nat j) ∧ got (x_icache (k_ext k)) (i_dev q) (de_inum e) s (x_icache (k_ext k'))
    end.
Proof.
  intros q es e Hk Hop Hroom Ht Hsz Hr Hone Hin Hnone Hfree.
  assert (dir_at (k_ext k) ip D P) as Hd.
  { split; try apply Hop; try done; [|split; [apply Hop|done]]. rewrite (pins_size ss P) by apply Hop. unfold log_room, LOGSIZE, NBUF, MAXOPBLOCKS in *. lia. }
  assert (dir_find name' (<[i := e]> es) = if decide (name_key name' = name_key name) then Some (i, e) else dir_find name' es) as Hfind.
  { eapply dir_find_added; try done; [unfold e; cbn; lia|unfold e; cbn [de_name]; apply name_key_copy]. }
  destruct (does_returns (z ← dirlink flag swtch iderw fuel ip name inum; r ← dirlookup flag swtch iderw fuel ip name'; mret (z, r)) k
    (λ p w, p.1 = 0 ∧ ∃ P', dir_slots (file_data D P' q) = <[i := e]> es ∧ bstate w D P' ∅ ∧
      match dir_find name' (<[i := e]> es) with
      | None => p.2 = None ∧ x_icache w = x_icache (k_ext k)
      | Some (j, e) => ∃ s, p.2 = Some (s, 16 * Z.of_nat j) ∧ got (x_icache (k_ext k)) (i_dev q) (de_inum e) s (x_icache w)
      end) Hk) as ([z r] & k' & Hrun & Hc & Hz & P' & Hes & Hb & Hm).
  2:{ cbn [fst snd] in *. subst z. rewrite Hfind in Hm. exists r, k', P'. split_and!; try done.
      destruct (if decide _ then _ else _) as [[j e']|]; [|by destruct Hm as [_ ->]]. destruct Hm as (s & _ & Hg). by eapply got_one_slot. }
  eapply does_bind.
  { eapply does_mono; [apply (dirlink_does flag swtch iderw fuel ip name inum i e0 (k_ext k) D P ss); try done; unfold log_room in *; lia|
      intros ? ? HQ; exact HQ|by intros w []]. }
  intros z y (-> & P' & ss' & Hop' & Hq' & Hc' & Hss & Hlg & Hes). fold q es e in Hes. fold q in Hq'.
  assert (dir_at y ip D P') as Hdy.
  { split; rewrite ?Hq'; try done; try apply Hop'; [|split; [rewrite <-Hq'; apply Hop'|done]|rewrite <-Hq'; apply Hop'].
    rewrite (pins_size ss' P') by apply Hop'. unfold log_room, LOGSIZE, NBUF, MAXOPBLOCKS in *. lia. }
  eapply does_bind.
  { eapply does_mono; [apply (dirlookup_does flag swtch iderw fuel ip name' y D P' Hdy)|intros ? ? HQ; exact HQ|by intros w []].
    unfold icache_ready. by rewrite Hc'. }
  intros r w (v & Hv & Hyv & Hm). rewrite Hq', Hes in Hm. change (drop 0 (<[i := e]> es)) with (<[i := e]> es) in Hm.
  apply does_ret. cbn [fst snd]. split; [done|]. exists P'. split; [done|].
  assert (x_icache v = x_icache (k_ext k)) as Hcv by (unfold bio_only in Hyv; rewrite Hyv; cbn; done).
  destruct (dir_find name' (<[i := e]> es)) as [[j e']|].
  - destruct Hm as (s & l' & -> & Hg & ->). split; [by apply bstate_icache|]. exists s. rewrite Hc' in Hg. done.
  - destruct Hm as [-> ->]. done.
Qed.
End dir_claims.

(** ** An example

    A directory with three entries, the second of them free. *)

Definition dir_demo_inode : inode := Inode ROOTDEV 1 1 (Z.lor I_BUSY I_VALID) T_DIR 0 0 1 48 (20 :: replicate 12 0).
Definition dir_demo_entries : list dirent :=
  [Dirent 1 (strncpy_name (chars ".")); Dirent 0 (replicate 14 0); Dirent 5 (strncpy_name (chars "cat"))].
Definition dir_demo_disk : blocks := {[home 20 := put_bytes 0 (dir_demo_entries ≫= dirent_bytes) zero_block]}.
Definition dir_demo : ext :=
  set_x_icache (<[0%nat := dir_demo_inode]> (x_icache (ext0 (λ _, 0))))
    (set_x_log (Log 10 30 1 0 1 0 (replicate (Z.to_nat LOGSIZE) 0))
      (set_x_disk dir_demo_disk (set_x_bufs empty_bufs (set_x_ide (Ide None 0 64) (ext0 (λ _, 0)))))).

#[local] Instance dir_drivers : Drivers := {| drv_read _ _ _ _ _ _ := block; drv_write _ _ _ _ _ _ := block |}.

Lemma dir_demo_open : file_in_op dir_demo 0 dir_demo_disk ∅ [].
Proof.
  assert (∀ o, 0 <= o < 48 → o / BSIZE = 0) as Hb by (intros o Ho; apply Z.div_small; unfold BSIZE; lia).
  split; change (inode_at dir_demo 0) with dir_demo_inode.
  - by apply (empty_bufs_bstate dir_demo).
  - constructor.
  - intros key. rewrite lookup_empty. split; [by intros [? ?]|set_solver].
  - split; [done|done|by vm_compute|done|constructor].
  - done.
  - done.
  - done.
  - split; [done|done| |intros Hn; by vm_compute in Hn|]; intros o Ho; rewrite Hb by done; [by vm_compute|by vm_compute].
  - split; [intros o o' Ho Ho' _; by rewrite !Hb by done|intros o Hn; by vm_compute in Hn].
Qed.

Lemma dir_demo_slots : dir_slots (file_data dir_demo_disk ∅ dir_demo_inode) = dir_demo_entries.
Proof. vm_compute. reflexivity. Qed.

Lemma dirlink_dirlookup_witness :
  ∃ s k', (z ← dirlink DEFAULT block Memide.iderw 0 0 (chars "new") 7;
     r ← dirlookup DEFAULT block Memide.iderw 0 0 (chars "new");
     mret (z, r)) (fs_boot dir_demo) = Ret (0, Some (s, 16)) k'.
Proof.
  destruct (dirlink_dirlookup DEFAULT block Memide.iderw 0 0 (chars "new") 7 (chars "new") 1 (Dirent 0 (replicate 14 0)) (fs_boot dir_demo)
    dir_demo_disk ∅ []) as (r & k' & P' & Hrun & _ & _ & _ & _ & Hm); change (inode_at (k_ext (fs_boot dir_demo)) 0) with dir_demo_inode in *;
    rewrite ?dir_demo_slots.
  - apply fsok_boot.
  - apply dir_demo_open.
  - by vm_compute.
  - done.
  - done.
  - split; [apply (bool_decide_unpack _); vm_compute; exact I|]. exists inode0. split; [|done]. by apply (list_elem_of_lookup_2 _ 1).
  - intros i j p q Hp Hq Hr (Hr' & _).
    assert (∀ i p, x_icache (k_ext (fs_boot dir_demo)) !! i = Some p → i_ref p > 0 → i = 0%nat) as H0.
    { clear. intros [|i] p Hp Hr; [done|]. apply lookup_replicate in Hp as [-> _]. by vm_compute in Hr. }
    by rewrite (H0 i p Hp Hr), (H0 j q Hq Hr').
  - lia.
  - by vm_compute.
  - by vm_compute.
  - rewrite decide_True in Hm by done. destruct Hm as (s & -> & _). exists s, k'. exact Hrun.
Defined.
