(* ===== verification/File.v ===== *)
(** * The file table (file.c, and pipealloc of pipe.c)

    Open files are counted references to a pipe or an inode.  The operations on
    the table, and reading and writing through it. *)

From stdpp Require Import base list gmap strings.
From Stdlib Require Import ZArith Lia.
From S2P Require Import Prelude KState Spinlock CString Proc ProcForms Syscall KExt Kalloc Pipe KRun Ide Bio Log Fs.

Section file.
Context {UM : UserMem ext} {DR : Drivers}.
Context (flag : schedflag) (swtch : M KX unit) (iderw : nat → M KX unit) (fuel : nat) (end_ : Z).

(** The memory of the caller as a destination and as a source. *)
Fixpoint store_bytes (a : Z) (l : list Z) : M KX unit :=
  match l with
  | [] => mret tt
  | b :: l' => ustore8 a b ;; store_bytes (a + 1) l'
  end.
Fixpoint load_bytes (n : nat) (a : Z) : M KX (list Z) :=
  match n with
  | O => mret []
  | S n' => b ← uload8 a; l ← load_bytes n' (a + 1); mret (b :: l)
  end.
Definition to_user : sink Z := λ a l, store_bytes a l ;; mret (a + Z.of_nat (length l)).
Definition from_user : source Z := λ a n, l ← load_bytes n a; mret (l, a + Z.of_nat n).

(** ** The table *)

Definition file_at (x : ext) (f : nat) : file := x_ftable x !!! f.
Definition ffield {A : Type} (f : nat) (g : file → A) : M KX A := ext_get (λ x, g (file_at x f)).
Definition upd_file (f : nat) (g : file → file) : M KX unit :=
  upd_ext (λ x, set_x_ftable (alter g f (x_ftable x)) x).

Definition fileinit : M KX unit := initlock ftable_lock.

(** The first entry without references. *)
Fixpoint free_file (l : list file) (i : nat) : option nat :=
  match l with
  | [] => None
  | f :: l' => if decide (f_ref f = 0) then Some i else free_file l' (S i)
  end.

Definition filealloc : M KX (option nat) :=
  acquire ftable_lock ;;
  l ← ext_get x_ftable;
  match free_file l 0 with
  | Some f => upd_file f (set_f_ref 1) ;; release ftable_lock ;; mret (Some f)
  | None => release ftable_lock ;; mret None
  end.

Definition filedup (f : nat) : M KX nat :=
  acquire ftable_lock ;;
  ref ← ffield f f_ref;
  if decide (ref < 1) then panic "filedup" else
  upd_file f (λ q, set_f_ref (s32 (f_ref q + 1)) q) ;;
  release ftable_lock ;;
  mret f.

(** Closing what a file that is no longer referenced stood for. *)
Definition close_target (ff : file) : M KX unit :=
  match f_type ff with
  | FD_PIPE => pipeclose flag end_ (f_pipe ff) (f_writable ff)
  | FD_INODE =>
      begin_op swtch fuel ;;
      ip ← deref (f_ip ff);
      iput flag swtch iderw fuel ip ;;
      end_op flag swtch iderw fuel
  | FD_NONE => mret tt
  end.

Definition fileclose (f : nat) : M KX unit :=
  acquire ftable_lock ;;
  ref ← ffield f f_ref;
  if decide (ref < 1) then panic "fileclose" else
  upd_file f (λ q, set_f_ref (f_ref q - 1) q) ;;
  ref ← ffield f f_ref;
  if decide (ref > 0) then release ftable_lock else
  ff ← ffield f id;
  upd_file f (set_f_ref 0) ;;
  upd_file f (set_f_type FD_NONE) ;;
  release ftable_lock ;;
  close_target ff.

(** ** Files *)

Definition filestat (f : nat) (st : Z) : M KX Z :=
  q ← ffield f id;
  match f_type q with
  | FD_INODE =>
      ilock flag swtch iderw fuel (f_ip q) ;;
      ip ← deref (f_ip q);
      stati ip st ;;
      iunlock flag (f_ip q) ;;
      mret 0
  | _ => mret (-1)
  end.

Definition fileread (f : nat) (addr n : Z) : M KX Z :=
  q ← ffield f id;
  if decide (f_readable q = 0) then mret (-1) else
  match f_type q with
  | FD_PIPE => piperead flag swtch fuel (f_pipe q) addr n
  | FD_INODE =>
      ilock flag swtch iderw fuel (f_ip q) ;;
      ip ← deref (f_ip q);
      off ← ffield f f_off;
      '(r, _) ← readi flag swtch iderw fuel to_user ip addr off (u32 n);
      when (bool_decide (r > 0)) (upd_file f (λ q, set_f_off (u32 (f_off q + r)) q)) ;;
      iunlock flag (f_ip q) ;;
      mret r
  | FD_NONE => panic "fileread"
  end.

Definition FILEWRITE_MAX : Z := (LOGSIZE - 1 - 1 - 2) / 2 * 512.

(** The loop of [filewrite]; [i] bytes are written.  [fl] bounds the number of
    transactions. *)
Fixpoint filewrite_loop (fl : nat) (f : nat) (addr n i : Z) : M KX Z :=
  if decide (i < n) then
    let n1 := if decide (n - i > FILEWRITE_MAX) then FILEWRITE_MAX else n - i in
    begin_op swtch fuel ;;
    ipo ← ffield f f_ip;
    ilock flag swtch iderw fuel ipo ;;
    ip ← deref ipo;
    off ← ffield f f_off;
    r ← writei flag swtch iderw fuel from_user ip (addr + i) off n1;
    when (bool_decide (r > 0)) (upd_file f (λ q, set_f_off (u32 (f_off q + r)) q)) ;;
    iunlock flag ipo ;;
    end_op flag swtch iderw fuel ;;
    if decide (r < 0) then mret i else
    if decide (r ≠ n1) then panic "short filewrite" else
    match fl with O => block | S fl' => filewrite_loop fl' f addr n (i + r) end
  else mret i.

Definition filewrite (f : nat) (addr n : Z) : M KX Z :=
  q ← ffield f id;
  if decide (f_writable q = 0) then mret (-1) else
  match f_type q with
  | FD_PIPE => pipewrite flag swtch fuel (f_pipe q) addr n
  | FD_INODE =>
      i ← filewrite_loop (Z.to_nat (n / FILEWRITE_MAX + 1)) f addr n 0;
      mret (if decide (i = n) then n else -1)
  | FD_NONE => panic "filewrite"
  end.

(** ** Pipes *)

(** The two ends of a new pipe. *)
Definition pipe_end (p readable writable : Z) (q : file) : file :=
  set_f_pipe p (set_f_writable writable (set_f_readable readable (set_f_type FD_PIPE q))).

(** The page of the pipe is filled with the ones [kfree] left. *)
Definition pipealloc : M KX (option (nat * nat)) :=
  f0 ← filealloc;
  match f0 with
  | None => mret None
  | Some f0 =>
      f1 ← filealloc;
      match f1 with
      | None => fileclose f0 ;; mret None
      | Some f1 =>
          p ← kalloc;
          if decide (p = 0) then fileclose f0 ;; fileclose f1 ;; mret None else
          upd_ext (λ x, set_x_pipes (<[p := Pipe (replicate (Z.to_nat PIPESIZE) 1) 0 0 1 1]> (x_pipes x)) x) ;;
          initlock (pipe_lock p) ;;
          upd_file f0 (pipe_end p 1 0) ;;
          upd_file f1 (pipe_end p 0 1) ;;
          mret (Some (f0, f1))
      end
  end.
End file.
