(* ===== verification/Exec.v ===== *)
(** * Running a program (exec.c, and loaduvm of vm.c)

    The new address space is built from the program's file, the arguments are
    pushed on its stack, and only then the process is switched to it; on any
    error before that the old one is left as it was. *)

From stdpp Require Import base list gmap strings.
From Stdlib Require Import ZArith Lia.
From S2P Require Import Prelude KState Spinlock CString Proc ProcForms Syscall KExt Pic Kalloc KRun Ide Bio Log Cprintf Vm Fs.

Definition MAXARG : Z := 32.
Definition ELF_MAGIC : Z := 0x464C457F.
Definition ELF_PROG_LOAD : Z := 1.
Definition SIZEOF_ELFHDR : Z := 52.
Definition SIZEOF_PROGHDR : Z := 32.

Record elfhdr := ElfHdr {
  elf_magic : Z;
  elf_elf : list Z;
  elf_type : Z;
  elf_machine : Z;
  elf_version : Z;
  elf_entry : Z;
  elf_phoff : Z;
  elf_shoff : Z;
  elf_flags : Z;
  elf_ehsize : Z;
  elf_phentsize : Z;
  elf_phnum : Z;
  elf_shentsize : Z;
  elf_shnum : Z;
  elf_shstrndx : Z
}.

Record proghdr := ProgHdr {
  ph_type : Z;
  ph_off : Z;
  ph_vaddr : Z;
  ph_paddr : Z;
  ph_filesz : Z;
  ph_memsz : Z;
  ph_flags : Z;
  ph_align : Z
}.

(** The structures as they lie in a file. *)
Definition elfhdr_of (l : list Z) : elfhdr :=
  ElfHdr (word_at l 0) (take 12 (drop 4 l)) (half_at l 16) (half_at l 18) (word_at l 20) (word_at l 24) (word_at l 28)
    (word_at l 32) (word_at l 36) (half_at l 40) (half_at l 42) (half_at l 44) (half_at l 46) (half_at l 48) (half_at l 50).
Definition proghdr_of (l : list Z) : proghdr :=
  ProgHdr (word_at l 0) (word_at l 4) (word_at l 8) (word_at l 12) (word_at l 16) (word_at l 20) (word_at l 24)
    (word_at l 28).

Section exec.
Context {PT : Ports} {UM : UserMem ext} {DR : Drivers}.
Context (flag : schedflag) (swtch : M KX unit) (iderw : nat → M KX unit) (fuel : nat).
Context (end_ data_ : Z) (ts_addr : nat → Z).

(** The string at an address of the caller, up to the end of the process. *)
Fixpoint ustring_loop (n : nat) (a : Z) : M KX (list Z) :=
  match n with
  | O => fault "unterminated string"
  | S n' => c ← uload8 a; if decide (c = 0) then mret [] else s ← ustring_loop n' (a + 1); mret (c :: s)
  end.
Definition ustring (a : Z) : M KX (list Z) :=
  p ← myproc; sz ← field p p_sz; ustring_loop (Z.to_nat (sz - a)) a.

(** The loop of [loaduvm] from [i]; [n] bounds the number of pages. *)
Fixpoint loaduvm_loop (n : nat) (pgdir addr : Z) (ip : nat) (offset sz i : Z) : M KX Z :=
  if decide (i < sz) then
    pte ← walkpgdir pgdir (u32 (addr + i)) false;
    if decide (pte = 0) then panic "loaduvm: address should exist" else
    e ← rd32 pte;
    let m := if decide (sz - i < PGSIZE) then sz - i else PGSIZE in
    '(r, _) ← readi flag swtch iderw fuel to_kernel ip (p2v (PTE_ADDR e)) (u32 (offset + i)) m;
    if decide (u32 r ≠ m) then mret (-1) else
    match n with O => block | S n' => loaduvm_loop n' pgdir addr ip offset sz (u32 (i + PGSIZE)) end
  else mret 0.

Definition loaduvm (pgdir addr : Z) (ip : nat) (offset sz : Z) : M KX Z :=
  if decide (addr mod PGSIZE ≠ 0) then panic "loaduvm: addr must be page aligned" else
  loaduvm_loop (Z.to_nat (sz / PGSIZE + 1)) pgdir addr ip offset sz 0.

(** The loop over the program headers; [n] are left.  [None]: [goto bad]. *)
Fixpoint load_segments (n : nat) (pgdir : Z) (ip : nat) (off sz : Z) : M KX (option Z) :=
  match n with
  | O => mret (Some sz)
  | S n' =>
      '(r, l) ← readi flag swtch iderw fuel to_struct ip [] (u32 off) SIZEOF_PROGHDR;
      if decide (r ≠ SIZEOF_PROGHDR) then mret None else
      let ph := proghdr_of l in
      if decide (ph_type ph ≠ ELF_PROG_LOAD) then load_segments n' pgdir ip (s32 (off + SIZEOF_PROGHDR)) sz else
      if decide (ph_memsz ph < ph_filesz ph) then mret None else
      sz ← allocuvm end_ pgdir sz (u32 (ph_vaddr ph + ph_memsz ph));
      if decide (sz = 0) then mret None else
      r ← loaduvm pgdir (ph_vaddr ph) ip (ph_off ph) (ph_filesz ph);
      if decide (r < 0) then mret None else
      load_segments n' pgdir ip (s32 (off + SIZEOF_PROGHDR)) sz
  end.

(** From the ELF header to the loaded program, with the inode locked.  On an
    error the page directory to be freed, 0 if there is none yet.  [sizeof] is
    unsigned, so that an error of [readi] is not caught by the first test: the
    header is then whatever was on the stack, here zeros. *)
Definition exec_load (ip : nat) : M KX (Z + Z * Z * Z) :=
  '(r, l) ← readi flag swtch iderw fuel to_struct ip [] 0 SIZEOF_ELFHDR;
  if decide (u32 r < SIZEOF_ELFHDR) then mret (inl 0) else
  let elf := elfhdr_of l in
  if decide (elf_magic elf ≠ ELF_MAGIC) then mret (inl 0) else
  pgdir ← setupkvm data_;
  if decide (pgdir = 0) then mret (inl 0) else
  sz ← load_segments (Z.to_nat (elf_phnum elf)) pgdir ip (s32 (elf_phoff elf)) 0;
  mret (match sz with None => inl pgdir | Some sz => inr (pgdir, sz, elf_entry elf) end).

(** The loop over the arguments: their strings are copied to the stack.  The
    result is the stack pointer and the addresses of the strings. *)
Fixpoint push_args (pgdir : Z) (argv : list Z) (argc sp : Z) : M KX (option (Z * list Z)) :=
  match argv with
  | [] => mret (Some (sp, []))
  | a :: argv' =>
      if decide (argc >= MAXARG) then mret None else
      s ← ustring a;
      let sp := Z.ldiff (u32 (sp - (Z.of_nat (length s) + 1))) 3 in
      r ← copyout pgdir sp (s ++ [0]);
      if decide (r < 0) then mret None else
      rest ← push_args pgdir argv' (argc + 1) sp;
      mret ((λ '(sp', l), (sp', sp :: l)) <$> rest)
  end.

(** The stack: two pages, of which the first is made inaccessible, the strings,
    and the frame of [main].  The result is the size and the stack pointer. *)
Definition exec_stack (pgdir sz : Z) (argv : list Z) : M KX (option (Z * Z)) :=
  let sz := PGROUNDUP sz in
  sz ← allocuvm end_ pgdir sz (u32 (sz + 2 * PGSIZE));
  if decide (sz = 0) then mret None else
  clearpteu pgdir (u32 (sz - 2 * PGSIZE)) ;;
  args ← push_args pgdir argv 0 sz;
  match args with
  | None => mret None
  | Some (sp, uargs) =>
      let argc := Z.of_nat (length argv) in
      let ustack := [0xffffffff; argc; u32 (sp - (argc + 1) * 4)] ++ uargs ++ [0] in
      let sp := u32 (sp - (3 + argc + 1) * 4) in
      r ← copyout pgdir sp (mjoin (word_bytes <$> ustack));
      if decide (r < 0) then mret None else mret (Some (sz, sp))
  end.

(** [for(last=s=path; *s; s++) if( *s == '/') last = s+1;] *)
Fixpoint last_elem (last path : list Z) : list Z :=
  match path with
  | [] => last
  | c :: path' => last_elem (if decide (c = ch_slash) then path' else last) path'
  end.

(** The process becomes the program. *)
Definition exec_commit (path pgdir sz entry sp : Z) : M KX unit :=
  s ← ustring path;
  p ← myproc;
  assign p (λ q, set_p_name (strcpy_array 16 (p_name q) (last_elem s s ++ [0])) q) ;;
  oldpgdir ← field p p_pgdir;
  assign p (set_p_pgdir pgdir) ;;
  assign p (set_p_sz sz) ;;
  tf ← field p p_tf;
  t ← frame_at tf;
  modify (λ k, set_k_tfmem (<[tf := set_tf_esp sp (set_tf_eip entry t)]> (k_tfmem k)) k) ;;
  switchuvm ts_addr p ;;
  freevm end_ oldpgdir.

Definition exec (path : Z) (argv : list Z) : M KX Z :=
  begin_op swtch fuel ;;
  s ← ustring path;
  ip ← namei flag swtch iderw fuel s;
  match ip with
  | None => end_op flag swtch iderw fuel ;; mret (-1)
  | Some ip =>
      ilock flag swtch iderw fuel (Some ip) ;;
      r ← exec_load ip;
      match r with
      | inl pgdir =>
          when (bool_decide (pgdir ≠ 0)) (freevm end_ pgdir) ;;
          iunlockput flag swtch iderw fuel ip ;;
          end_op flag swtch iderw fuel ;;
          mret (-1)
      | inr (pgdir, sz, entry) =>
          iunlockput flag swtch iderw fuel ip ;;
          end_op flag swtch iderw fuel ;;
          r ← exec_stack pgdir sz argv;
          match r with
          | None => freevm end_ pgdir ;; mret (-1)
          | Some (sz, sp) => exec_commit path pgdir sz entry sp ;; mret 0
          end
      end
  end.
End exec.
