(* ===== verification/Sysfile.v ===== *)
(** * The system calls on files (sysfile.c)

    Argument checking and the calls into file.c, fs.c, pipe.c and exec.c, and the
    dispatch that hands the file calls to [syscall]. *)

From stdpp Require Import base list gmap strings.
From Stdlib Require Import ZArith Lia.
From S2P Require Import Prelude KState Spinlock CString Proc ProcForms Syscall KExt Pic Kalloc Pipe KRun Ide Bio Log Cprintf Vm Fs File Exec.

Definition O_RDONLY : Z := 0x000.
Definition O_WRONLY : Z := 0x001.
Definition O_RDWR : Z := 0x002.
Definition O_CREATE : Z := 0x200.
Definition SIZEOF_STAT : Z := 20.

Section sysfile.
Context {PT : Ports} {UM : UserMem ext} {DR : Drivers}.
Context (flag : schedflag) (swtch : M KX unit) (iderw : nat → M KX unit) (fuel : nat).
Context (end_ data_ : Z) (ts_addr : nat → Z).

Abbreviation begin_op := (begin_op swtch fuel).
Abbreviation end_op := (end_op flag swtch iderw fuel).
Abbreviation namei := (namei flag swtch iderw fuel).
Abbreviation nameiparent := (nameiparent flag swtch iderw fuel).
Abbreviation ilock := (λ ip, ilock flag swtch iderw fuel (Some ip)).
Abbreviation iunlock := (λ ip, iunlock flag (Some ip)).
Abbreviation iput := (iput flag swtch iderw fuel).
Abbreviation iunlockput := (iunlockput flag swtch iderw fuel).
Abbreviation iupdate := (iupdate flag swtch iderw fuel).
Abbreviation dirlookup := (dirlookup flag swtch iderw fuel).
Abbreviation dirlink := (dirlink flag swtch iderw fuel).
Abbreviation fileclose := (fileclose flag swtch iderw fuel end_).

(** ** Descriptors *)

(** The descriptor and the file; [None] is the return value -1. *)
Definition argfd (n : Z) : M KX (option (Z * nat)) :=
  fd ← argint n;
  match fd with
  | None => mret None
  | Some fd =>
      if decide (fd < 0 ∨ fd >= Z.of_nat NOFILE) then mret None else
      p ← myproc;
      f ← field p (λ q, p_ofile q !!! Z.to_nat fd);
      mret ((λ f, (fd, f)) <$> f)
  end.

Fixpoint free_fd (l : list (option nat)) (fd : nat) : option nat :=
  match l with
  | [] => None
  | None :: _ => Some fd
  | Some _ :: l' => free_fd l' (S fd)
  end.

Definition set_ofile (fd : nat) (f : option nat) (q : proc) : proc := set_p_ofile (<[fd := f]> (p_ofile q)) q.

Definition fdalloc (f : nat) : M KX Z :=
  p ← myproc;
  l ← field p p_ofile;
  match free_fd l 0 with
  | Some fd => assign p (set_ofile fd (Some f)) ;; mret (Z.of_nat fd)
  | None => mret (-1)
  end.

Definition sys_dup : M KX Z :=
  r ← argfd 0;
  match r with
  | None => mret (-1)
  | Some (_, f) =>
      fd ← fdalloc f;
      if decide (fd < 0) then mret (-1) else
      filedup f ;;
      mret fd
  end.

(** The arguments of [read] and [write]: the file, the buffer and the count. *)
Definition rw_args : M KX (option (nat * Z * Z)) :=
  r ← argfd 0;
  match r with
  | None => mret None
  | Some (_, f) =>
      n ← argint 2;
      match n with
      | None => mret None
      | Some n => p ← argptr 1 n; mret ((λ p, (f, p, n)) <$> p)
      end
  end.

Definition sys_read : M KX Z :=
  r ← rw_args;
  match r with None => mret (-1) | Some (f, p, n) => fileread flag swtch iderw fuel f p n end.

Definition sys_write : M KX Z :=
  r ← rw_args;
  match r with None => mret (-1) | Some (f, p, n) => filewrite flag swtch iderw fuel f p n end.

Definition sys_close : M KX Z :=
  r ← argfd 0;
  match r with
  | None => mret (-1)
  | Some (fd, f) =>
      p ← myproc;
      assign p (set_ofile (Z.to_nat fd) None) ;;
      fileclose f ;;
      mret 0
  end.

Definition sys_fstat : M KX Z :=
  r ← argfd 0;
  match r with
  | None => mret (-1)
  | Some (_, f) =>
      st ← argptr 1 SIZEOF_STAT;
      match st with None => mret (-1) | Some st => filestat flag swtch iderw fuel f st end
  end.

(** ** Links *)

Definition add_nlink (d : Z) (q : inode) : inode := set_i_nlink (s16 (i_nlink q + d)) q.

(** The second half of [sys_link]: the entry is made.  False: [goto bad]. *)
Definition link_entry (ip : nat) (new : Z) : M KX bool :=
  s ← ustring new;
  dp ← nameiparent s;
  match dp with
  | None => mret false
  | Some (dp, name) =>
      ilock dp ;;
      ddev ← ifield dp i_dev;
      idev ← ifield ip i_dev;
      inum ← ifield ip i_inum;
      if decide (ddev ≠ idev) then iunlockput dp ;; mret false else
      r ← dirlink dp name inum;
      iunlockput dp ;;
      mret (bool_decide (r >= 0))
  end.

Definition link_undo (ip : nat) : M KX unit :=
  ilock ip ;;
  upd_inode ip (add_nlink (-1)) ;;
  iupdate ip ;;
  iunlockput ip ;;
  end_op.

Definition sys_link : M KX Z :=
  old ← argstr 0;
  match old with
  | None => mret (-1)
  | Some (old, _) =>
      new ← argstr 1;
      match new with
      | None => mret (-1)
      | Some (new, _) =>
          begin_op ;;
          s ← ustring old;
          ip ← namei s;
          match ip with
          | None => end_op ;; mret (-1)
          | Some ip =>
              ilock ip ;;
              type ← ifield ip i_type;
              if decide (type = T_DIR) then iunlockput ip ;; end_op ;; mret (-1) else
              upd_inode ip (add_nlink 1) ;;
              iupdate ip ;;
              iunlock ip ;;
              ok ← link_entry ip new;
              if (ok : bool) then iput ip ;; end_op ;; mret 0
              else link_undo ip ;; mret (-1)
          end
      end
  end.

(** The loop of [isdirempty] from [off]; [n] bounds the number of entries. *)
Fixpoint isdirempty_loop (n : nat) (dp : nat) (off : Z) : M KX bool :=
  size ← ifield dp i_size;
  if decide (off < size) then
    de ← read_dirent flag swtch iderw fuel dp off "isdirempty: readi";
    if decide (de_inum de ≠ 0) then mret false else
    match n with O => block | S n' => isdirempty_loop n' dp (off + SIZEOF_DIRENT) end
  else mret true.

Definition isdirempty (dp : nat) : M KX bool :=
  size ← ifield dp i_size;
  isdirempty_loop (Z.to_nat (size / SIZEOF_DIRENT + 1)) dp (2 * SIZEOF_DIRENT).

Definition dot : list Z := chars ".".
Definition dotdot : list Z := chars "..".

(** The part of [sys_unlink] with the directory locked.  False: [goto bad], with
    the directory still locked. *)
Definition unlink_entry (dp : nat) (name : list Z) : M KX bool :=
  if decide (namecmp name dot = 0 ∨ namecmp name dotdot = 0) then mret false else
  r ← dirlookup dp name;
  match r with
  | None => mret false
  | Some (ip, off) =>
      ilock ip ;;
      nlink ← ifield ip i_nlink;
      if decide (nlink < 1) then panic "unlink: nlink < 1" else
      type ← ifield ip i_type;
      empty ← (if decide (type = T_DIR) then isdirempty ip else mret true);
      if negb empty then iunlockput ip ;; mret false else
      r ← writei flag swtch iderw fuel from_struct dp (replicate (Z.to_nat SIZEOF_DIRENT) 0) off SIZEOF_DIRENT;
      if decide (r ≠ SIZEOF_DIRENT) then panic "unlink: writei" else
      (if decide (type = T_DIR) then upd_inode dp (add_nlink (-1)) ;; iupdate dp else mret tt) ;;
      iunlockput dp ;;
      upd_inode ip (add_nlink (-1)) ;;
      iupdate ip ;;
      iunlockput ip ;;
      mret true
  end.

Definition sys_unlink : M KX Z :=
  path ← argstr 0;
  match path with
  | None => mret (-1)
  | Some (path, _) =>
      begin_op ;;
      s ← ustring path;
      dp ← nameiparent s;
      match dp with
      | None => end_op ;; mret (-1)
      | Some (dp, name) =>
          ilock dp ;;
          ok ← unlink_entry dp name;
          if (ok : bool) then end_op ;; mret 0
          else iunlockput dp ;; end_op ;; mret (-1)
      end
  end.

(** ** Creation *)

(** The new inode and its entry, with the directory locked. *)
Definition create_new (dp : nat) (name : list Z) (type major minor : Z) : M KX nat :=
  dev ← ifield dp i_dev;
  ip ← ialloc flag swtch iderw fuel dev type;
  ilock ip ;;
  upd_inode ip (set_i_major major) ;;
  upd_inode ip (set_i_minor minor) ;;
  upd_inode ip (set_i_nlink 1) ;;
  iupdate ip ;;
  (if decide (type = T_DIR) then
     upd_inode dp (add_nlink 1) ;;
     iupdate dp ;;
     inum ← ifield ip i_inum;
     r ← dirlink ip dot inum;
     if decide (r < 0) then panic "create dots" else
     dinum ← ifield dp i_inum;
     r ← dirlink ip dotdot dinum;
     if decide (r < 0) then panic "create dots" else mret tt
   else mret tt) ;;
  inum ← ifield ip i_inum;
  r ← dirlink dp name inum;
  if decide (r < 0) then panic "create: dirlink" else
  iunlockput dp ;;
  mret ip.

Definition create (path : Z) (type major minor : Z) : M KX (option nat) :=
  s ← ustring path;
  dp ← nameiparent s;
  match dp with
  | None => mret None
  | Some (dp, name) =>
      ilock dp ;;
      r ← dirlookup dp name;
      match r with
      | Some (ip, _) =>
          iunlockput dp ;;
          ilock ip ;;
          t ← ifield ip i_type;
          if decide (type = T_FILE ∧ t = T_FILE) then mret (Some ip) else
          iunlockput ip ;;
          mret None
      | None => ip ← create_new dp name type major minor; mret (Some ip)
      end
  end.

(** The inode to open, locked. *)
Definition open_inode (path omode : Z) : M KX (option nat) :=
  if decide (Z.land omode O_CREATE ≠ 0) then create path T_FILE 0 0 else
  s ← ustring path;
  ip ← namei s;
  match ip with
  | None => mret None
  | Some ip =>
      ilock ip ;;
      type ← ifield ip i_type;
      if decide (type = T_DIR ∧ omode ≠ O_RDONLY) then iunlockput ip ;; mret None else mret (Some ip)
  end.

Definition open_file (ip : nat) (omode : Z) (q : file) : file :=
  let b (c : bool) := if c then 1 else 0 in
  set_f_writable (b (has_flag omode O_WRONLY || has_flag omode O_RDWR))
    (set_f_readable (b (negb (has_flag omode O_WRONLY)))
      (set_f_off 0 (set_f_ip (Some ip) (set_f_type FD_INODE q)))).

Definition sys_open : M KX Z :=
  path ← argstr 0;
  match path with
  | None => mret (-1)
  | Some (path, _) =>
      omode ← argint 1;
      match omode with
      | None => mret (-1)
      | Some omode =>
          begin_op ;;
          ip ← open_inode path omode;
          match ip with
          | None => end_op ;; mret (-1)
          | Some ip =>
              f ← filealloc;
              match f with
              | None => iunlockput ip ;; end_op ;; mret (-1)
              | Some f =>
                  fd ← fdalloc f;
                  if decide (fd < 0) then fileclose f ;; iunlockput ip ;; end_op ;; mret (-1) else
                  iunlock ip ;;
                  end_op ;;
                  upd_file f (open_file ip omode) ;;
                  mret fd
              end
          end
      end
  end.

Definition finish_create (ip : option nat) : M KX Z :=
  match ip with
  | None => end_op ;; mret (-1)
  | Some ip => iunlockput ip ;; end_op ;; mret 0
  end.

Definition sys_mkdir : M KX Z :=
  begin_op ;;
  path ← argstr 0;
  ip ← match path with None => mret None | Some (path, _) => create path T_DIR 0 0 end;
  finish_create ip.

Definition sys_mknod : M KX Z :=
  begin_op ;;
  path ← argstr 0;
  ip ← match path with
       | None => mret None
       | Some (path, _) =>
           major ← argint 1;
           match major with
           | None => mret None
           | Some major =>
               minor ← argint 2;
               match minor with
               | None => mret None
               | Some minor => create path T_DEV (s16 major) (s16 minor)
               end
           end
       end;
  finish_create ip.

Definition sys_chdir : M KX Z :=
  begin_op ;;
  path ← argstr 0;
  ip ← match path with None => mret None | Some (path, _) => s ← ustring path; namei s end;
  match ip with
  | None => end_op ;; mret (-1)
  | Some ip =>
      ilock ip ;;
      type ← ifield ip i_type;
      if decide (type ≠ T_DIR) then iunlockput ip ;; end_op ;; mret (-1) else
      iunlock ip ;;
      p ← myproc;
      cwd ← field p p_cwd;
      cwd ← deref cwd;
      iput cwd ;;
      end_op ;;
      assign p (set_p_cwd (Some ip)) ;;
      mret 0
  end.

(** ** Programs and pipes *)

(** The loop of [sys_exec]: the arguments from [i] on; [n] places are left. *)
Fixpoint fetch_args (n : nat) (uargv i : Z) : M KX (option (list Z)) :=
  match n with
  | O => mret None
  | S n' =>
      uarg ← fetchint (u32 (uargv + 4 * i));
      match uarg with
      | None => mret None
      | Some uarg =>
          if decide (uarg = 0) then mret (Some []) else
          s ← fetchstr (u32 uarg);
          match s with
          | None => mret None
          | Some (a, _) => rest ← fetch_args n' uargv (i + 1); mret ((a ::.) <$> rest)
          end
      end
  end.

Definition sys_exec : M KX Z :=
  path ← argstr 0;
  match path with
  | None => mret (-1)
  | Some (path, _) =>
      uargv ← argint 1;
      match uargv with
      | None => mret (-1)
      | Some uargv =>
          argv ← fetch_args (Z.to_nat MAXARG) (u32 uargv) 0;
          match argv with
          | None => mret (-1)
          | Some argv => exec flag swtch iderw fuel end_ data_ ts_addr path argv
          end
      end
  end.

(** The two descriptors; when the second is missing the first is given back. *)
Definition sys_pipe : M KX Z :=
  fd ← argptr 0 8;
  match fd with
  | None => mret (-1)
  | Some fd =>
      r ← pipealloc flag swtch iderw fuel end_;
      match r with
      | None => mret (-1)
      | Some (rf, wf) =>
          fd0 ← fdalloc rf;
          fd1 ← (if decide (fd0 < 0) then mret (-1) else fdalloc wf);
          if decide (fd0 < 0 ∨ fd1 < 0) then
            (if decide (fd0 >= 0) then p ← myproc; assign p (set_ofile (Z.to_nat fd0) None) else mret tt) ;;
            fileclose rf ;;
            fileclose wf ;;
            mret (-1)
          else
            ustore32 fd fd0 ;;
            ustore32 (fd + 4) fd1 ;;
            mret 0
      end
  end.

(** The entries of [syscalls] that are not in sysproc.c. *)
Definition filecall (num : Z) : M KX Z :=
  match num with
  | 4 => sys_pipe
  | 5 => sys_read
  | 7 => sys_exec
  | 8 => sys_fstat
  | 9 => sys_chdir
  | 10 => sys_dup
  | 15 => sys_open
  | 16 => sys_write
  | 17 => sys_mknod
  | 18 => sys_unlink
  | 19 => sys_link
  | 20 => sys_mkdir
  | 21 => sys_close
  | _ => fault "syscalls"
  end.
End sysfile.
