(* ===== verification/Console.v ===== *)
(** * Console input and devices (console.c, kbd.c, uart.c)

    The line discipline of the console, the keyboard and serial drivers that feed
    it, and the console's entry in the device table.  The input buffer is a ring
    with three counters: what is read, what is committed, what is being edited. *)

From stdpp Require Import base list gmap strings.
From Stdlib Require Import ZArith Lia.
From S2P Require Import Prelude KState Spinlock CString Proc ProcForms Syscall KExt Pic KRun Ide Bio Log Cprintf Fs.

Definition CONSOLE : nat := 1.

(** [C(x)], Control-x, of a capital letter's code. *)
Definition ctrl (c : Z) : Z := c - 64.

Section console.
Context {PT : Ports}.
Context (flag : schedflag) (swtch : M KX unit) (iderw : nat → M KX unit) (fuel : nat).
(** What [procdump] prints; it changes nothing (proc.c). *)
Context (procdump : M KX unit).

Definition cget {A : Type} (f : console → A) : M KX A := ext_get (λ x, f (x_cons x)).
Definition cupd (f : console → console) : M KX unit := upd_ext (λ x, set_x_cons (f (x_cons x)) x).

(** [input.buf[i % INPUT_BUF]] *)
Definition in_at (c : console) (i : Z) : Z := in_buf c !!! Z.to_nat (u32 i mod INPUT_BUF).

(** [input.e--; consputc(BACKSPACE);] *)
Definition erase : M KX unit :=
  cupd (λ c, set_in_e (u32 (in_e c - 1)) c) ;;
  consputc BACKSPACE.

(** The loop that kills the line; [n] bounds the number of characters. *)
Fixpoint kill_line (n : nat) : M KX unit :=
  c ← cget id;
  if decide (in_e c ≠ in_w c ∧ in_at c (in_e c - 1) ≠ ch_newline) then
    erase ;;
    match n with O => block | S n' => kill_line n' end
  else mret tt.

(** A character that is not an editing command. *)
Definition input_char (ch : Z) : M KX unit :=
  c ← cget id;
  if decide (ch ≠ 0 ∧ u32 (in_e c - in_r c) < INPUT_BUF) then
    let ch := if decide (ch = 13) then ch_newline else ch in
    cupd (λ c, set_in_e (u32 (in_e c + 1))
      (set_in_buf (<[Z.to_nat (in_e c mod INPUT_BUF) := s8 ch]> (in_buf c)) c)) ;;
    consputc ch ;;
    c ← cget id;
    if decide (ch = ch_newline ∨ ch = ctrl 68 ∨ in_e c = u32 (in_r c + INPUT_BUF)) then
      cupd (λ c, set_in_w (in_e c) c) ;;
      wakeup flag ChInput
    else mret tt
  else mret tt.

Definition console_char (ch : Z) : M KX unit :=
  if decide (ch = ctrl 80) then procdump
  else if decide (ch = ctrl 85) then kill_line (Z.to_nat INPUT_BUF)
  else if decide (ch = ctrl 72 ∨ ch = 127) then
    c ← cget id;
    if decide (in_e c ≠ in_w c) then erase else mret tt
  else input_char ch.

(** [n] bounds the number of characters the device has. *)
Fixpoint consoleintr_loop (n : nat) (getc : M KX Z) : M KX unit :=
  ch ← getc;
  if decide (ch >= 0) then
    console_char ch ;;
    match n with O => block | S n' => consoleintr_loop n' getc end
  else mret tt.

Definition consoleintr (getc : M KX Z) : M KX unit :=
  acquire input_lock ;;
  consoleintr_loop fuel getc ;;
  release input_lock.

(** ** Reading and writing *)

(** [while(input.r == input.w)]; false when the process was killed.  [n] bounds the
    number of sleeps. *)
Fixpoint input_wait (n : nat) : M KX bool :=
  c ← cget id;
  if decide (in_r c = in_w c) then
    p ← myproc;
    killed ← field p p_killed;
    if decide (killed ≠ 0) then mret false else
    sleep swtch ChInput (Some input_lock) ;;
    match n with O => block | S n' => input_wait n' end
  else mret true.

(** The loop of [consoleread]; [want] characters are wanted, [target] were.
    [None] when the process was killed, otherwise what is still wanted. *)
Fixpoint consoleread_loop {D : Type} (put : sink D) (want : nat) (target : Z) (dst : D) : M KX (option nat * D) :=
  match want with
  | O => mret (Some O, dst)
  | S want' =>
      ok ← input_wait fuel;
      if negb ok then mret (None, dst) else
      c ← cget id;
      let ch := in_at c (in_r c) in
      cupd (λ c, set_in_r (u32 (in_r c + 1)) c) ;;
      if decide (ch = ctrl 68) then
        when (bool_decide (Z.of_nat want < target)) (cupd (λ c, set_in_r (u32 (in_r c - 1)) c)) ;;
        mret (Some want, dst)
      else
        dst ← put dst [u8 ch];
        if decide (ch = ch_newline) then mret (Some want', dst) else
        consoleread_loop put want' target dst
  end.

Definition consoleread {D : Type} (put : sink D) (ip : nat) (dst : D) (n : Z) : M KX (Z * D) :=
  iunlock flag (Some ip) ;;
  acquire input_lock ;;
  '(r, dst) ← consoleread_loop put (Z.to_nat (s32 n)) n dst;
  release input_lock ;;
  ilock flag swtch iderw fuel (Some ip) ;;
  match r with
  | None => mret (-1, dst)
  | Some want => mret (if decide (s32 n > 0) then s32 n - Z.of_nat want else 0, dst)
  end.

Fixpoint consolewrite_loop {S : Type} (get : source S) (n : nat) (src : S) : M KX unit :=
  match n with
  | O => mret tt
  | Datatypes.S n' =>
      '(l, src) ← get src 1%nat;
      for_each consputc l ;;
      consolewrite_loop get n' src
  end.

Definition consolewrite {S : Type} (get : source S) (ip : nat) (src : S) (n : Z) : M KX Z :=
  iunlock flag (Some ip) ;;
  acquire cons_lock ;;
  consolewrite_loop get (Z.to_nat (s32 n)) src ;;
  release cons_lock ;;
  ilock flag swtch iderw fuel (Some ip) ;;
  mret (s32 n).

Definition consoleinit : M KX unit :=
  initlock cons_lock ;;
  initlock input_lock ;;
  upd_ext (λ x, set_x_devsw (alter (set_dv_write (Some DevConsole)) CONSOLE (x_devsw x)) x) ;;
  upd_ext (λ x, set_x_devsw (alter (set_dv_read (Some DevConsole)) CONSOLE (x_devsw x)) x) ;;
  cupd (set_cn_locking 1) ;;
  picenable IRQ_KBD ;;
  ioapicenable IRQ_KBD 0.

(** The device table's functions. *)
Definition console_driver : Drivers := {|
  drv_read := λ _ D put ip dst n, consoleread put ip dst n;
  drv_write := λ _ S get ip src n, consolewrite get ip src n
|}.

(** ** The serial line *)

Definition uartinit : M KX unit :=
  outb (COM1 + 2) 0 ;;
  outb (COM1 + 3) 0x80 ;;
  outb (COM1 + 0) (115200 / 9600) ;;
  outb (COM1 + 1) 0 ;;
  outb (COM1 + 3) 0x03 ;;
  outb (COM1 + 4) 0 ;;
  outb (COM1 + 1) 0x01 ;;
  st ← inb (COM1 + 5);
  if decide (st = 0xFF) then mret tt else
  cupd (set_cn_uart 1) ;;
  inb (COM1 + 2) ;;
  inb (COM1 + 0) ;;
  picenable IRQ_COM1 ;;
  ioapicenable IRQ_COM1 0 ;;
  for_each uartputc (chars "xv6..." ++ [ch_newline]).

Definition uartgetc : M KX Z :=
  uart ← cget cn_uart;
  if decide (uart = 0) then mret (-1) else
  st ← inb (COM1 + 5);
  if negb (has_flag st 0x01) then mret (-1) else
  inb (COM1 + 0).

Definition uartintr : M KX unit := consoleintr uartgetc.
End console.

(** ** The keyboard *)

Definition KBSTATP : Z := 0x64.
Definition KBS_DIB : Z := 0x01.
Definition KBDATAP : Z := 0x60.
Definition NO : Z := 0.
Definition SHIFT : Z := 1.
Definition CTL : Z := 2.
Definition ALT : Z := 4.
Definition CAPSLOCK : Z := 8.
Definition NUMLOCK : Z := 16.
Definition SCROLLLOCK : Z := 32.
Definition E0ESC : Z := 64.

(** A table of 256 bytes with the given entries, the others 0. *)
Definition table (l : list (nat * Z)) : list Z := foldl (λ t e, <[e.1 := e.2]> t) (replicate 256 0) l.

Definition shiftcode : list Z :=
  table [(0x1D%nat, CTL); (0x2A%nat, SHIFT); (0x36%nat, SHIFT); (0x38%nat, ALT); (0x9D%nat, CTL); (0xB8%nat, ALT)].
Definition togglecode : list Z :=
  table [(0x3A%nat, CAPSLOCK); (0x45%nat, NUMLOCK); (0x46%nat, SCROLLLOCK)].

(** The keys of the extended set; [enter] and [div] are those of the keypad. *)
Definition extended (enter div : Z) : list (nat * Z) :=
  [(0x9C%nat, enter); (0xB5%nat, div); (0xC8%nat, 0xE2); (0xD0%nat, 0xE3); (0xC9%nat, 0xE6); (0xD1%nat, 0xE7);
   (0xCB%nat, 0xE4); (0xCD%nat, 0xE5); (0x97%nat, 0xE0); (0xCF%nat, 0xE1); (0xD2%nat, 0xE8); (0xD3%nat, 0xE9)].

Definition normal_keys : list Z :=
  [NO; 27] ++ chars "1234567890-=" ++ [8; 9] ++ chars "qwertyuiop[]" ++ [10; NO] ++ chars "asdfghjkl;'`" ++
  [NO] ++ chars "\zxcvbnm,./" ++ [NO; 42; NO; 32] ++ replicate 13 NO ++ chars "789-456+1230." ++ replicate 4 NO.
Definition shift_keys : list Z :=
  [NO; 27] ++ chars "!@#$%^&*()_+" ++ [8; 9] ++ chars "QWERTYUIOP{}" ++ [10; NO] ++ chars "ASDFGHJKL:" ++ [34; 126] ++
  [NO] ++ chars "|ZXCVBNM<>?" ++ [NO; 42; NO; 32] ++ replicate 13 NO ++ chars "789-456+1230." ++ replicate 4 NO.
Definition ctl_keys : list Z :=
  replicate 16 NO ++ (ctrl <$> chars "QWERTYUIOP") ++ [NO; NO; 13; NO] ++ (ctrl <$> chars "ASDFGHJKL") ++
  replicate 4 NO ++ (ctrl <$> chars "\ZXCVBNM") ++ [NO; NO; u8 (ctrl 47); NO; NO].

Definition normalmap : list Z := table (zip (seq 0 256) normal_keys ++ extended 10 47).
Definition shiftmap : list Z := table (zip (seq 0 256) shift_keys ++ extended 10 47).
Definition ctlmap : list Z := table (zip (seq 0 256) ctl_keys ++ extended 13 (u8 (ctrl 47))).

Definition charcode (i : Z) : list Z :=
  if decide (i = 0) then normalmap else if decide (i = 1) then shiftmap else ctlmap.

(** One scan code: the character (0 for none) and the new shift state. *)
Definition kbd_decode (shift data : Z) : Z * Z :=
  if decide (data = 0xE0) then (0, Z.lor shift E0ESC)
  else if has_flag data 0x80 then
    let data := if has_flag shift E0ESC then data else Z.land data 0x7F in
    (0, Z.ldiff shift (Z.lor (shiftcode !!! Z.to_nat data) E0ESC))
  else
    let data' := if has_flag shift E0ESC then Z.lor data 0x80 else data in
    let shift := if has_flag shift E0ESC then Z.ldiff shift E0ESC else shift in
    let shift := Z.lxor (Z.lor shift (shiftcode !!! Z.to_nat data')) (togglecode !!! Z.to_nat data') in
    let c := charcode (Z.land shift (Z.lor CTL SHIFT)) !!! Z.to_nat data' in
    let c := if has_flag shift CAPSLOCK then
               if decide (97 <= c <= 122) then c - 32 else if decide (65 <= c <= 90) then c + 32 else c
             else c in
    (c, shift).

Section kbd.
Context {PT : Ports}.

Definition kbdgetc : M KX Z :=
  st ← inb KBSTATP;
  if negb (has_flag st KBS_DIB) then mret (-1) else
  data ← inb KBDATAP;
  shift ← ext_get (λ x, kb_shift (x_cons x));
  let '(c, shift') := kbd_decode shift data in
  upd_ext (λ x, set_x_cons (set_kb_shift shift' (x_cons x)) x) ;;
  mret c.

Context (flag : schedflag) (fuel : nat) (procdump : M KX unit).
Definition kbdintr : M KX unit := consoleintr flag fuel procdump kbdgetc.
End kbd.
