(* ===== verification/ConsoleSpec.v ===== *)
(** * The console as a queue of lines

    The interrupt routine of the console turns the characters of a device into
    lines that can be edited until they are finished; readers take finished lines.
    The ring buffer and its three counters are shown to implement this on two
    lists, against an interface of a device that delivers characters; the serial
    line and the keyboard are shown to be such devices. *)

From stdpp Require Import base list gmap strings.
From Stdlib Require Import ZArith Lia.
From S2P Require Import Prelude KState Spinlock CString Proc ProcForms ProcInv Syscall KExt Pic KRun Ide Bio Log Cprintf Fs Console.

(** ** The line discipline *)

(** The finished characters, oldest first, and the line that is being edited. *)
Definition lines : Type := list Z * list Z.

(** The effect of one character. *)
Definition disc (s : lines) (ch : Z) : lines :=
  let '(q, l) := s in
  if decide (ch = ctrl 80) then (q, l)
  else if decide (ch = ctrl 85) then (q, [])
  else if decide (ch = ctrl 72 ∨ ch = 127) then (q, take (length l - 1) l)
  else if decide (ch ≠ 0 ∧ (length q + length l < 128)%nat) then
    let ch := if decide (ch = 13) then 10 else ch in
    let l := l ++ [s8 ch] in
    if decide (ch = 10 ∨ ch = ctrl 68 ∨ (length q + length l = 128)%nat) then (q ++ l, []) else (q, l)
  else (q, l).

(** What a reader that wants [want] characters gets, and what is left; [fresh] as
    long as it has got nothing.  A Control-D ends the read; it is used up only by a
    read that gets nothing. *)
Fixpoint disc_read (want : nat) (fresh : bool) (q : list Z) : list Z * list Z :=
  match want, q with
  | S want', ch :: q' =>
      if decide (ch = ctrl 68) then ([], if fresh then q' else q)
      else if decide (ch = 10) then ([u8 ch], q')
      else let '(l, r) := disc_read want' false q' in (u8 ch :: l, r)
  | _, _ => ([], q)
  end.

(** A reader that wants [want] characters does not have to wait. *)
Definition available (want : nat) (q : list Z) : Prop := (want <= length q)%nat ∨ 10 ∈ q ∨ ctrl 68 ∈ q.

(** The line has no newline, and it is empty when the buffer is full. *)
Definition disc_ok (s : lines) : Prop :=
  (length s.1 + length s.2 <= 128)%nat ∧ ((length s.1 + length s.2 = 128)%nat → s.2 = []) ∧ 10 ∉ s.2.

Lemma s8_newline ch : 0 <= ch < 256 → s8 ch = 10 → ch = 10.
Proof. unfold s8. intros Hch. change (2 ^ 7) with 128. change (2 ^ 8) with 256. pose proof (Z.div_mod (ch + 128) 256 ltac:(lia)). lia. Qed.

Lemma disc_keeps s ch : 0 <= ch < 256 → disc_ok s → disc_ok (disc s ch).
Proof.
  destruct s as [q l]. unfold disc. intros Hch Hok. pose proof Hok as (Hcap & Hfull & Hnl). cbn [fst snd] in *.
  destruct (decide (ch = ctrl 80)); [done|].
  destruct (decide (ch = ctrl 85)); [repeat split; cbn [fst snd length]; [lia|set_solver]|].
  destruct (decide (ch = ctrl 72 ∨ ch = 127)).
  { split; cbn [fst snd]; rewrite length_take; [lia|]. split; [destruct l; [done|simpl in *; lia]|].
    intros Hin. apply Hnl. apply elem_of_take in Hin as (i & Hi & _). by eapply list_elem_of_lookup_2. }
  destruct (decide (ch ≠ 0 ∧ (length q + length l < 128)%nat)) as [[Hz Hlen]|]; [|done].
  set (ch' := if decide (ch = 13) then 10 else ch). assert (0 <= ch' < 256) as Hch' by (unfold ch'; case_decide; lia).
  destruct (decide (ch' = 10 ∨ ch' = ctrl 68 ∨ (length q + length (l ++ [s8 ch']) = 128)%nat)) as [Hc|Hc].
  - split; cbn [fst snd]; rewrite !length_app; cbn [length]; [lia|]. split; [done|set_solver].
  - rewrite length_app in Hc. cbn [length] in Hc. split; cbn [fst snd]; rewrite !length_app; cbn [length]; [lia|].
    split; [lia|]. rewrite not_elem_of_app, list_elem_of_singleton. split; [done|]. intros He. apply Hc. left.
    by apply s8_newline.
Qed.

(** ** The ring *)

(** [c] holds the characters [q ++ l] from the read counter on. *)
Record input_ring (c : console) (q l : list Z) : Prop := {
  rg_len : length (in_buf c) = 128%nat;
  rg_r : 0 <= in_r c < 2 ^ 32;
  rg_w : in_w c = u32 (in_r c + Z.of_nat (length q));
  rg_e : in_e c = u32 (in_r c + Z.of_nat (length q + length l));
  rg_cap : (length q + length l <= 128)%nat;
  rg_at i a : (q ++ l) !! i = Some a → in_at c (in_r c + Z.of_nat i) = a
}.

Lemma mod_near m r a b : 0 < m → 0 <= a < m → 0 <= b < m → (r + a) mod m = (r + b) mod m → a = b.
Proof.
  intros Hm Ha Hb He. pose proof (Z.div_mod (r + a) m ltac:(lia)). pose proof (Z.div_mod (r + b) m ltac:(lia)).
  assert (a - b = m * ((r + a) / m - (r + b) / m)) as Hd by lia.
  revert Hd. generalize ((r + a) / m - (r + b) / m). intros k Hd. assert (k = 0) by nia. lia.
Qed.

Lemma ring_slot i : u32 i mod INPUT_BUF = i mod INPUT_BUF.
Proof. unfold u32, INPUT_BUF. apply Z.mod_mod_divide. exists (2 ^ 25). reflexivity. Qed.

Lemma ring_slot_add i j : (u32 i + j) mod INPUT_BUF = (i + j) mod INPUT_BUF.
Proof. by rewrite <-Zplus_mod_idemp_l, ring_slot, Zplus_mod_idemp_l. Qed.

(** Characters are at their index modulo the length of the buffer. *)
Lemma in_at_eq c i j : i mod INPUT_BUF = j mod INPUT_BUF → in_at c i = in_at c j.
Proof. intros He. unfold in_at. by rewrite !ring_slot, He. Qed.

Lemma ring_used c q l : input_ring c q l → u32 (in_e c - in_r c) = Z.of_nat (length q + length l).
Proof.
  intros R. rewrite (rg_e _ _ _ R). unfold u32. rewrite Zminus_mod_idemp_l.
  replace (in_r c + _ - in_r c) with (Z.of_nat (length q + length l)) by lia. apply Z.mod_small.
  pose proof (rg_cap _ _ _ R). lia.
Qed.

Lemma ring_editing c q l : input_ring c q l → in_e c ≠ in_w c ↔ l ≠ [].
Proof.
  intros R. rewrite (rg_e _ _ _ R), (rg_w _ _ _ R). pose proof (rg_cap _ _ _ R) as Hc. split.
  - intros Hne ->. apply Hne. by rewrite Nat.add_0_r.
  - intros Hl He. apply mod_near in He; [|lia..]. destruct l; [done|simpl in He; lia].
Qed.

Lemma ring_empty c q l : input_ring c q l → in_r c = in_w c ↔ q = [].
Proof.
  intros R. rewrite (rg_w _ _ _ R). pose proof (rg_cap _ _ _ R) as Hc. pose proof (rg_r _ _ _ R). split.
  - intros He. destruct q as [|a q]; [done|]. rewrite <-(u32_id (in_r c)) in He at 1 by done. rewrite <-(Z.add_0_r (in_r c)) in He at 1.
    apply mod_near in He; simpl in *; lia.
  - intros ->. cbn [length]. by rewrite Z.add_0_r, u32_id.
Qed.

Lemma ring_filled c q l : input_ring c q l → in_e c = u32 (in_r c + INPUT_BUF) ↔ (length q + length l = 128)%nat.
Proof.
  intros R. rewrite (rg_e _ _ _ R). pose proof (rg_cap _ _ _ R) as Hc. unfold INPUT_BUF. split; [|by intros ->].
  intros He. apply mod_near in He; lia.
Qed.

(** The character before the edit counter. *)
Lemma ring_last c q l a : input_ring c q (l ++ [a]) → in_at c (in_e c - 1) = a.
Proof.
  intros R. rewrite <-(rg_at _ _ _ R (length q + length l)%nat a); [|by rewrite app_assoc, lookup_app_r, length_app, Nat.sub_diag by (rewrite length_app; lia)].
  apply in_at_eq. rewrite (rg_e _ _ _ R), length_app. change (u32 ?x - 1) with (u32 x + -1). rewrite ring_slot_add. f_equal.
  cbn [length]. lia.
Qed.

Lemma ring_erase c q l a : input_ring c q (l ++ [a]) → input_ring (set_in_e (u32 (in_e c - 1)) c) q l.
Proof.
  intros [R1 R2 R3 R4 R5 R6]. rewrite length_app in *. cbn [length] in *. split; cbn; try done; try lia.
  - rewrite R4. unfold u32. rewrite Zminus_mod_idemp_l. f_equal. lia.
  - intros i b Hi. apply R6. rewrite app_assoc. by apply lookup_app_l_Some.
Qed.

Lemma ring_commit c q l : input_ring c q l → input_ring (set_in_w (in_e c) c) (q ++ l) [].
Proof.
  intros [R1 R2 R3 R4 R5 R6]. split; cbn; rewrite ?length_app, ?Nat.add_0_r; try done. intros i a. rewrite app_nil_r. apply R6.
Qed.

Lemma ring_take c a q l : input_ring c (a :: q) l → in_at c (in_r c) = a ∧ input_ring (set_in_r (u32 (in_r c + 1)) c) q l.
Proof.
  intros [R1 R2 R3 R4 R5 R6]. cbn [length] in *. split; [rewrite <-(Z.add_0_r (in_r c)); by apply (R6 0%nat)|].
  split; cbn; try done; try lia.
  - apply Z.mod_pos_bound. lia.
  - rewrite R3. unfold u32. rewrite Zplus_mod_idemp_l. f_equal. lia.
  - rewrite R4. unfold u32. rewrite Zplus_mod_idemp_l. f_equal. lia.
  - intros i b Hi. rewrite <-(R6 (S i) b Hi). change (in_at (set_in_r _ c)) with (in_at c). apply in_at_eq.
    rewrite ring_slot_add. f_equal. lia.
Qed.

Lemma ring_untake c q l :
  input_ring c q l → let c' := set_in_r (u32 (in_r c + 1)) c in set_in_r (u32 (in_r c' - 1)) c' = c.
Proof.
  intros R. cbn [in_r set_in_r]. replace (u32 (u32 (in_r c + 1) - 1)) with (in_r c); [by destruct c|].
  unfold u32 at 1. unfold u32. rewrite Zminus_mod_idemp_l, Z.add_simpl_r. symmetry. apply u32_id, R.
Qed.

Lemma ring_push c q l a :
  (length q + length l < 128)%nat → input_ring c q l →
  input_ring (set_in_e (u32 (in_e c + 1)) (set_in_buf (<[Z.to_nat (in_e c mod INPUT_BUF) := a]> (in_buf c)) c)) q (l ++ [a]).
Proof.
  intros Hn [R1 R2 R3 R4 R5 R6]. rewrite (R4 : in_e c = _) in *. rewrite ring_slot.
  assert (∀ j, 0 <= Z.of_nat j < 128 → (Z.to_nat ((in_r c + Z.of_nat j) mod INPUT_BUF) < 128)%nat) as Hlt.
  { intros j Hj. pose proof (Z.mod_pos_bound (in_r c + Z.of_nat j) INPUT_BUF ltac:(done)). unfold INPUT_BUF in *. lia. }
  split; cbn; rewrite ?length_insert, ?length_app; cbn [length]; try done; try lia.
  - unfold u32. rewrite Zplus_mod_idemp_l. f_equal. lia.
  - intros i b Hi. unfold in_at. cbn. rewrite ring_slot. rewrite app_assoc in Hi.
    apply lookup_app_Some in Hi as [Hi|[Hge Hi]].
    + pose proof (lookup_lt_Some _ _ _ Hi) as Hil. rewrite length_app in Hil. rewrite list_lookup_total_insert_ne.
      * rewrite <-ring_slot. by apply R6.
      * intros He. apply Z2Nat.inj in He; [|apply Z.mod_pos_bound; done..]. apply mod_near in He; unfold INPUT_BUF; lia.
    + rewrite length_app in *. apply list_lookup_singleton_Some in Hi as [Hi <-]. replace i with (length q + length l)%nat by lia.
      rewrite list_lookup_total_insert_eq; [done|]. rewrite R1. apply Hlt. lia.
Qed.

(** ** Devices *)

(** What a device's answers may depend on: what lies behind the ports, and what
    the drivers remember. *)
Definition dev : Type := blocks * Z * Z.
Definition dev_of (x : ext) : dev := (x_disk x, cn_uart (x_cons x), kb_shift (x_cons x)).

(** The port instructions return, do not touch the kernel's memory, and leave what
    the device has for us unless they read one of the data ports. *)
Class PortsKeep {PT : Ports} (pending : dev → list Z) := {
  keep_inb p (k : KX) : p ≠ COM1 → p ≠ KBDATAP →
    ∃ v d, inb p k = Ret v (set_k_ext (set_x_disk d (k_ext k)) k) ∧
      pending (dev_of (set_x_disk d (k_ext k))) = pending (dev_of (k_ext k));
  keep_outb p v (k : KX) :
    ∃ d, outb p v k = Ret tt (set_k_ext (set_x_disk d (k_ext k)) k) ∧
      pending (dev_of (set_x_disk d (k_ext k))) = pending (dev_of (k_ext k))
}.

(** A routine that gives the next character a device has, or -1; only the
    device's state and the state of the shift keys may change. *)
Class CharSource (getc : M KX Z) (pending : dev → list Z) := {
  source_getc (k : KX) :
    let x := k_ext k in
    ∃ d s, let y := set_x_cons (set_kb_shift s (x_cons x)) (set_x_disk d x) in
      getc k = Ret (hd (-1) (pending (dev_of x))) (set_k_ext y k) ∧ pending (dev_of y) = tail (pending (dev_of x));
  source_byte d : Forall (λ c, 0 <= c < 256) (pending d)
}.

(** What the console's routines may change: the screen, the devices, and the
    input buffer. *)
Definition cons_only (x y : ext) : Prop := y = set_x_cons (x_cons y) (set_x_mem (x_mem y) (set_x_disk (x_disk y) x)).

Record cons_frame (pending : dev → list Z) (x y : ext) : Prop := {
  cf_only : cons_only x y;
  cf_rest : cn_locking (x_cons y) = cn_locking (x_cons x) ∧ cn_panicked (x_cons y) = cn_panicked (x_cons x);
  cf_pending : pending (dev_of y) = pending (dev_of x)
}.

Create HintDb shows.

Section typing.
Context {PT : Ports} {pending : dev → list Z} {PK : PortsKeep pending} (lk : lockid).
Implicit Types (x y z : ext).

Lemma cons_only_trans x y z : cons_only x y → cons_only y z → cons_only x z.
Proof. unfold cons_only. intros H1 H2. by rewrite H2, H1. Qed.

Lemma cons_frame_refl x : cons_frame pending x x.
Proof. split; [by destruct x|done..]. Qed.

Lemma cons_frame_trans x y z : cons_frame pending x y → cons_frame pending y z → cons_frame pending x z.
Proof. intros [H1 [H2 H3] H4] [G1 [G2 G3] G4]. split; [by eapply cons_only_trans|split; congruence|congruence]. Qed.

(** Output: the input buffer stays. *)
Definition shown x y : Prop := cons_frame pending x y ∧ x_cons y = x_cons x.

Lemma shown_refl x : shown x x.
Proof. split; [apply cons_frame_refl|done]. Qed.
Lemma shown_trans x y z : shown x y → shown y z → shown x z.
Proof. intros [H1 H2] [G1 G2]. split; [by eapply cons_frame_trans|congruence]. Qed.

(** Routines that only put something out. *)
Definition shows {A} (m : M KX A) : Prop := ∀ x, in_section lk m x (λ _ y, shown x y).

Lemma shows_ret {A} (a : A) : shows (mret a).
Proof. intros x. apply section_ret, shown_refl. Qed.

Lemma shows_bind {A B} (m : M KX A) (f : A → M KX B) : shows m → (∀ a, shows (f a)) → shows (m ≫= f).
Proof.
  intros Hm Hf x. eapply section_bind; [apply Hm|]. intros a y Hy. eapply section_mono; [apply Hf|].
  intros b z. by apply shown_trans.
Qed.

Lemma shows_get {A B} (f : ext → A) (g : A → M KX B) : (∀ a, shows (g a)) → shows (ext_get f ≫= g).
Proof. intros Hg x. apply section_get, Hg. Qed.

Lemma shows_inb p : p ≠ COM1 → p ≠ KBDATAP → shows (inb p).
Proof.
  intros H1 H2 x k Hk <-. destruct (keep_inb p (acquired lk k) H1 H2) as (v & d & Hr & Hp).
  exists v, (set_k_ext (set_x_disk d (k_ext k)) k). split; [exact Hr|]. split; [apply woke_ext|]. split; [|done].
  split; [by destruct k as [? ? ? ? ? ? ? ? ? ? ? ? ? ? ? ? []]|done|exact Hp].
Qed.

Lemma shows_outb p v : shows (outb p v).
Proof.
  intros x k Hk <-. destruct (keep_outb p v (acquired lk k)) as (d & Hr & Hp).
  exists tt, (set_k_ext (set_x_disk d (k_ext k)) k). split; [exact Hr|]. split; [apply woke_ext|]. split; [|done].
  split; [by destruct k as [? ? ? ? ? ? ? ? ? ? ? ? ? ? ? ? []]|done|exact Hp].
Qed.

Lemma shows_mem (f : ext → mem) : shows (upd_ext (λ x, set_x_mem (f x) x)).
Proof. intros x. apply section_upd. split; [|done]. split; [by destruct x|done..]. Qed.

Hint Resolve shows_ret shows_bind shows_get shows_inb shows_outb shows_mem : shows.

Lemma shows_uart_wait n : shows (uart_wait n).
Proof.
  induction n as [|n IH]; cbn [uart_wait]; [auto with shows|]. apply shows_bind; [by apply shows_inb|].
  intros r. destruct (has_flag r 0x20); auto with shows.
Qed.
Hint Resolve shows_uart_wait : shows.

Lemma shows_uartputc c : shows (uartputc c).
Proof. unfold uartputc. apply shows_get. intros u. case_decide; auto with shows. Qed.
Hint Resolve shows_uartputc : shows.

Lemma shows_cgaputc c : shows (cgaputc c).
Proof.
  assert (∀ v, shows (cga_advance c v)) by (intros v; unfold cga_advance, crt_store; repeat case_decide; auto with shows).
  assert (∀ v, shows (cga_scroll v)) by (intros v; unfold cga_scroll; repeat case_decide; auto with shows).
  assert (shows (inb (CRTPORT + 1))) by (by apply shows_inb).
  unfold cgaputc, crt_store. auto 20 with shows.
Qed.
Hint Resolve shows_cgaputc : shows.

Lemma consputc_inside c x : cn_panicked (x_cons x) = 0 → in_section lk (consputc c) x (λ _ y, shown x y).
Proof.
  intros Hp. unfold consputc. apply section_get. rewrite decide_False by (rewrite Hp; by intros []).
  apply shows_bind; [case_decide|]; auto with shows.
Qed.
End typing.

(** ** The interrupt routine *)

Lemma input_lock_fs : input_lock ∈ fs_locks.
Proof. unfold fs_locks. set_solver. Qed.

Section interrupt.
Context {PT : Ports} {pending : dev → list Z} {PK : PortsKeep pending}.
Context (flag : schedflag) (fuel : nat) (procdump : M KX unit).
(** The process listing is output. *)
Context (Hdump : shows (pending := pending) input_lock procdump).
Implicit Types (x y z : ext).

(** The components in the state [s] of the line discipline. *)
Definition typing x (s : lines) : Prop := input_ring (x_cons x) s.1 s.2 ∧ disc_ok s ∧ cn_panicked (x_cons x) = 0.

Lemma typing_shown x y s : shown (pending := pending) x y → typing x s → typing y s.
Proof. intros [_ Hc]. unfold typing. by rewrite Hc. Qed.

(** A change of the input buffer. *)
Lemma cupd_frame x (f : console → console) :
  cn_locking (f (x_cons x)) = cn_locking (x_cons x) → cn_panicked (f (x_cons x)) = cn_panicked (x_cons x) →
  cn_uart (f (x_cons x)) = cn_uart (x_cons x) → kb_shift (f (x_cons x)) = kb_shift (x_cons x) →
  cons_frame pending x (set_x_cons (f (x_cons x)) x).
Proof.
  intros H1 H2 H3 H4. split; [by destruct x|by cbn|]. unfold dev_of. cbn. by rewrite H3, H4.
Qed.

Lemma erase_inside x q l a :
  input_ring (x_cons x) q (l ++ [a]) → cn_panicked (x_cons x) = 0 →
  in_section input_lock erase x (λ _ y, input_ring (x_cons y) q l ∧ cons_frame pending x y).
Proof.
  intros R Hp. unfold erase. eapply section_bind.
  { apply (section_upd _ _ x (λ _ y, y = set_x_cons (set_in_e (u32 (in_e (x_cons x) - 1)) (x_cons x)) x)). done. }
  intros _ y ->. eapply section_mono; [by apply consputc_inside|]. intros _ z [Hf Hc]. split.
  - rewrite Hc. by apply (ring_erase _ _ _ a).
  - eapply cons_frame_trans; [|exact Hf]. by apply (cupd_frame x (λ c, set_in_e (u32 (in_e c - 1)) c)).
Qed.

Lemma kill_line_inside n x q l :
  (length l <= n)%nat → input_ring (x_cons x) q l → cn_panicked (x_cons x) = 0 → 10 ∉ l →
  in_section input_lock (kill_line n) x (λ _ y, input_ring (x_cons y) q [] ∧ cons_frame pending x y).
Proof.
  revert x l. induction n as [|n IH]; intros x l Hn R Hp Hnl; cbn [kill_line]; apply section_get; unfold id;
    (destruct l as [|a l] using rev_ind;
      [rewrite decide_False by (rewrite (ring_editing _ _ _ R); naive_solver); apply section_ret; split; [done|apply cons_frame_refl]|]);
    rewrite length_app in Hn; cbn [length] in Hn; [lia|].
  rewrite decide_True.
  2:{ split; [apply (ring_editing _ _ _ R); by destruct l|]. rewrite (ring_last _ _ _ _ R). set_solver. }
  eapply section_bind; [by apply (erase_inside x q l a)|]. intros _ y [Ry Hy].
  eapply section_mono; [apply (IH y l); [lia|done| |set_solver]|].
  - destruct (cf_rest _ _ _ Hy) as [_ ->]. done.
  - intros _ z [Rz Hz]. split; [done|]. by eapply cons_frame_trans.
Qed.

Lemma input_char_inside x q l ch :
  input_ring (x_cons x) q l → cn_panicked (x_cons x) = 0 →
  in_section input_lock (input_char flag ch) x (λ _ y,
    (let '(q', l') := if decide (ch ≠ 0 ∧ (length q + length l < 128)%nat) then
       let ch := if decide (ch = 13) then 10 else ch in
       let l := l ++ [s8 ch] in
       if decide (ch = 10 ∨ ch = ctrl 68 ∨ (length q + length l = 128)%nat) then (q ++ l, []) else (q, l)
     else (q, l) in input_ring (x_cons y) q' l') ∧ cons_frame pending x y).
Proof.
  intros R Hp. unfold input_char. apply section_get. unfold id. rewrite (ring_used _ _ _ R). unfold INPUT_BUF.
  destruct (decide (ch ≠ 0 ∧ (length q + length l < 128)%nat)) as [[Hz Hlen]|Hn].
  2:{ rewrite decide_False by (intros [? ?]; apply Hn; lia). apply section_ret. split; [done|apply cons_frame_refl]. }
  rewrite decide_True by lia. unfold ch_newline. cbv zeta. set (ch' := if decide (ch = 13) then 10 else ch).
  set (f := λ c, set_in_e (u32 (in_e c + 1)) (set_in_buf (<[Z.to_nat (in_e c mod 128) := s8 ch']> (in_buf c)) c)).
  pose proof (ring_push _ _ _ (s8 ch') Hlen R : input_ring (f (x_cons x)) _ _) as R1.
  eapply section_bind; [by apply (section_upd _ _ x (λ _ y, y = set_x_cons (f (x_cons x)) x))|].
  intros _ y ->. eapply section_bind; [by apply consputc_inside|]. intros _ y [Hy Hc]. cbn in Hc.
  pose proof (cons_frame_trans _ _ _ (cupd_frame x f eq_refl eq_refl eq_refl eq_refl) Hy) as Hxy. rewrite <-Hc in R1.
  apply section_get. unfold id. pose proof (ring_filled _ _ _ R1) as Hfull. unfold INPUT_BUF in Hfull.
  destruct (decide (ch' = 10 ∨ ch' = ctrl 68 ∨ (length q + length (l ++ [s8 ch']) = 128)%nat)) as [Hd|Hd].
  - rewrite decide_True by (rewrite Hfull; done).
    eapply section_bind; [by apply (section_upd _ _ y (λ _ z, z = set_x_cons (set_in_w (in_e (x_cons y)) (x_cons y)) y))|].
    intros _ z ->. apply section_wakeup; [apply input_lock_fs|]. split; [by apply ring_commit|].
    eapply cons_frame_trans; [exact Hxy|]. by apply (cupd_frame y (λ c, set_in_w (in_e c) c)).
  - rewrite decide_False by (rewrite Hfull; done). by apply section_ret.
Qed.

Lemma console_char_inside x s ch :
  0 <= ch < 256 → typing x s →
  in_section input_lock (console_char flag procdump ch) x (λ _ y, typing y (disc s ch) ∧ cons_frame pending x y).
Proof.
  intros Hch (R & Hok & Hp). pose proof (disc_keeps s ch Hch Hok) as Hok'. destruct s as [q l]. pose proof Hok as (_ & _ & Hnl).
  cbn [fst snd] in R, Hnl. cut (in_section input_lock (console_char flag procdump ch) x
    (λ _ y, (let '(q', l') := disc (q, l) ch in input_ring (x_cons y) q' l') ∧ cons_frame pending x y)).
  { intros Hi. eapply section_mono; [exact Hi|]. intros _ y [Ry Hy]. split; [|done]. split; [by destruct (disc (q, l) ch)|].
    split; [done|]. destruct (cf_rest _ _ _ Hy) as [_ ->]. done. }
  clear Hok'. unfold console_char, disc. destruct (decide (ch = ctrl 80)).
  { eapply section_mono; [apply Hdump|]. intros _ y [Hy Hc]. by rewrite Hc. }
  destruct (decide (ch = ctrl 85)).
  { apply kill_line_inside with (l := l); [|done..]. pose proof (rg_cap _ _ _ R). change (Z.to_nat INPUT_BUF) with 128%nat. lia. }
  destruct (decide (ch = ctrl 72 ∨ ch = 127)); [|by apply input_char_inside].
  apply section_get. unfold id. destruct l as [|a l _] using rev_ind.
  - rewrite decide_False by (rewrite (ring_editing _ _ _ R); naive_solver). apply section_ret. split; [done|apply cons_frame_refl].
  - rewrite decide_True by (apply (ring_editing _ _ _ R); by destruct l). rewrite length_app, Nat.add_sub, take_app_length.
    by apply (erase_inside x q l a).
Qed.

Context (getc : M KX Z) {CS : CharSource getc pending}.

Lemma getc_inside x s :
  typing x s → in_section input_lock getc x (λ ch y, ch = hd (-1) (pending (dev_of x)) ∧ typing y s ∧ cons_only x y ∧
    pending (dev_of y) = tail (pending (dev_of x))).
Proof.
  intros (R & Hok & Hp) k Hk <-. destruct (source_getc (acquired input_lock k)) as (d & sh & Hr & Ht).
  cbn [k_ext acquired] in Hr, Ht. eexists _, (set_k_ext _ k). split; [exact Hr|]. split; [apply woke_ext|]. split; [done|].
  split; [|split; [by destruct k as [? ? ? ? ? ? ? ? ? ? ? ? ? ? ? ? []]|exact Ht]]. by destruct R.
Qed.

Lemma consoleintr_loop_inside n x s :
  (length (pending (dev_of x)) <= n)%nat → typing x s →
  in_section input_lock (consoleintr_loop flag procdump n getc) x (λ _ y,
    typing y (foldl disc s (pending (dev_of x))) ∧ cons_only x y ∧ pending (dev_of y) = []).
Proof.
  revert x s. induction n as [|n IH]; intros x s Hn Ht; cbn [consoleintr_loop];
    (eapply section_bind; [by apply getc_inside|]); intros ch y (-> & Hty & Hy & Hpy);
    pose proof (source_byte (getc := getc) (dev_of x)) as Hb;
    (destruct (pending (dev_of x)) as [|ch cs] eqn:Hpx; cbn [hd tail length foldl] in *;
      [rewrite decide_False by lia; by apply section_ret|]); [lia|].
  apply Forall_cons in Hb as [Hch _]. rewrite decide_True by lia.
  eapply section_bind; [by apply console_char_inside|]. intros _ z [Htz Hz].
  eapply section_mono; [apply (IH z (disc s ch)); [|done]|].
  - rewrite (cf_pending _ _ _ Hz), Hpy. lia.
  - rewrite (cf_pending _ _ _ Hz), Hpy. intros _ w (Hw & How & Hpw). split; [done|]. split; [|done].
    eapply cons_only_trans; [exact Hy|]. eapply cons_only_trans; [apply Hz|done].
Qed.

Lemma consoleintr_does x s C :
  (length (pending (dev_of x)) <= fuel)%nat → typing x s →
  does (consoleintr flag fuel procdump getc) x (λ _ y,
    typing y (foldl disc s (pending (dev_of x))) ∧ cons_only x y ∧ pending (dev_of y) = []) C.
Proof.
  intros Hn Ht. unfold consoleintr. apply does_acquire; [apply input_lock_fs|].
  eapply leaves_bind; [by apply consoleintr_loop_inside|]. intros [] y Hy. apply leaves_end; [apply input_lock_fs|done].
Qed.
End interrupt.

(** ** The reader *)

Lemma disc_read_left want fresh q : (length (disc_read want fresh q).2 <= length q)%nat.
Proof.
  revert fresh q. induction want as [|want IH]; intros fresh q; [by destruct q|]. destruct q as [|a q]; [done|]. cbn [disc_read].
  case_decide; [destruct fresh; simpl; lia|]. case_decide; [simpl; lia|].
  specialize (IH false q). destruct (disc_read want false q). simpl in *. lia.
Qed.

Lemma disc_read_ok want fresh q l : disc_ok (q, l) → disc_ok ((disc_read want fresh q).2, l).
Proof.
  intros (H1 & H2 & H3). pose proof (disc_read_left want fresh q). cbn [fst snd] in *. split; cbn [fst snd]; [lia|].
  split; [|done]. intros He. apply H2. lia.
Qed.

Section reader.
Context (flag : schedflag) (swtch : M KX unit) (iderw : nat → M KX unit) (fuel : nat).
Implicit Types (x y z : ext).

(** What a reader may change of the components. *)
Definition read_only x y : Prop := y = set_x_cons (set_in_r (in_r (x_cons y)) (x_cons x)) x.

Lemma read_only_trans x y z : read_only x y → read_only y z → read_only x z.
Proof. unfold read_only. intros H1 H2. by rewrite H2, H1. Qed.

Lemma read_only_refl x : read_only x x.
Proof. by destruct x as [? ? ? ? ? ? ? ? ? ? ? ? ? []]. Qed.

Lemma read_only_set x r : read_only x (set_x_cons (set_in_r r (x_cons x)) x).
Proof. done. Qed.

Lemma consoleread_loop_inside want target dst x q l :
  available want q → Z.of_nat want <= target → input_ring (x_cons x) q l →
  in_section input_lock (consoleread_loop swtch fuel to_struct want target dst) x (λ r y,
    let '(b, q') := disc_read want (bool_decide (Z.of_nat want = target)) q in
    r = (Some (want - length b)%nat, dst ++ b) ∧ input_ring (x_cons y) q' l ∧ read_only x y).
Proof.
  revert dst x q. induction want as [|want IH]; intros dst x q Ha Ht R; cbn [consoleread_loop].
  { apply section_ret. cbn [disc_read length]. rewrite app_nil_r. split; [done|]. split; [by destruct q|apply read_only_refl]. }
  destruct q as [|ch q].
  { destruct Ha as [Ha|[Ha|Ha]]; [simpl in Ha; lia|set_solver..]. }
  eapply (section_bind _ _ _ _ (λ ok y, ok = true ∧ y = x)).
  { destruct fuel; cbn [input_wait]; apply section_get; unfold id; rewrite decide_False by (rewrite (ring_empty _ _ _ R); done);
      by apply section_ret. }
  intros ok y [-> ->]. cbn [negb]. apply section_get. unfold id. destruct (ring_take _ _ _ _ R) as [-> R1].
  eapply section_bind; [by apply (section_upd _ _ x (λ _ y, y = set_x_cons (set_in_r (u32 (in_r (x_cons x) + 1)) (x_cons x)) x))|].
  intros _ y ->. cbn [disc_read]. set (y := set_x_cons (set_in_r (u32 (in_r (x_cons x) + 1)) (x_cons x)) x).
  destruct (decide (ch = ctrl 68)) as [Hd|Hd].
  { eapply (section_bind _ _ _ _ (λ _ z, z = if bool_decide (Z.of_nat (S want) < target) then x else y)).
    - destruct (bool_decide (Z.of_nat (S want) < target)); cbn [when]; [|by apply section_ret]. apply section_upd. unfold y. cbn [x_cons set_x_cons].
      rewrite (ring_untake _ _ _ R). by destruct x.
    - intros [] z ->. apply section_ret. cbn [length]. rewrite app_nil_r, Nat.sub_0_r. split; [done|].
      destruct (decide (Z.of_nat (S want) < target)); [rewrite bool_decide_true, bool_decide_false by lia|
        rewrite bool_decide_false, bool_decide_true by lia]; (split; [done|]); [apply read_only_refl|done]. }
  eapply (section_bind _ _ _ _ (λ d z, d = dst ++ [u8 ch] ∧ z = y)); [by apply section_ret|]. intros d z [-> ->]. unfold ch_newline.
  destruct (decide (ch = 10)) as [Hnl|Hnl].
  { apply section_ret. cbn [length]. by rewrite Nat.sub_succ, Nat.sub_0_r. }
  eapply section_mono; [apply (IH (dst ++ [u8 ch]) y q)|]; [|lia|done|].
  - destruct Ha as [Ha|[Ha|Ha]]; [left; simpl in Ha; lia|right; left; set_solver|right; right; set_solver].
  - rewrite bool_decide_false by lia. intros r z. destruct (disc_read want false q) as [b q']. intros (-> & Rz & Hz).
    cbn [length]. rewrite Nat.sub_succ, <-app_assoc. split; [done|]. split; [done|].
    eapply (read_only_trans x y); [apply read_only_set|done].
Qed.

(** ** The lock of an inode *)

Lemma has_ibusy f : has_flag f I_BUSY = Z.testbit f 0.
Proof. apply (has_flag_bit f 0). lia. Qed.
Lemma has_ivalid f : has_flag f I_VALID = Z.testbit f 1.
Proof. apply (has_flag_bit f 1). lia. Qed.

(** An inode that is locked and loaded. *)
Record locked_inode x (ip : nat) : Prop := {
  li_in : (ip < length (x_icache x))%nat;
  li_ref : 1 <= i_ref (inode_at x ip);
  li_busy : has_flag (i_flags (inode_at x ip)) I_BUSY = true;
  li_valid : has_flag (i_flags (inode_at x ip)) I_VALID = true
}.

Definition unlock_inode (q : inode) : inode := set_i_flags (Z.ldiff (i_flags q) I_BUSY) q.
Definition unlocked x (ip : nat) : ext := set_x_icache (alter unlock_inode ip (x_icache x)) x.

Lemma relock_flags q : Z.testbit (i_flags q) 0 = true →
  set_i_flags (Z.lor (i_flags (unlock_inode q)) I_BUSY) (unlock_inode q) = q.
Proof.
  intros Hb. unfold unlock_inode. cbn. replace (Z.lor (Z.ldiff (i_flags q) I_BUSY) I_BUSY) with (i_flags q); [by destruct q|].
  apply Z.bits_inj'. intros n Hn. rewrite Z.lor_spec, Z.ldiff_spec. change I_BUSY with (2 ^ 0).
  destruct (decide (n = 0)) as [->|]; [by rewrite Hb|]. by rewrite Z.pow2_bits_false, andb_true_r, orb_false_r by done.
Qed.

Lemma iunlock_does ip x C : locked_inode x ip → does (iunlock flag (Some ip)) x (λ _ y, y = unlocked x ip) C.
Proof.
  intros [H1 H2 H3 H4]. unfold iunlock. apply does_get_bind. rewrite decide_False by (rewrite H3; intros [?|?]; [done|lia]).
  apply does_acquire; [apply icache_lock_fs|]. eapply leaves_bind; [by apply (section_upd _ _ x (λ _ y, y = unlocked x ip))|].
  intros [] y ->. apply (leaves_bind _ _ _ _ (λ _ y, y = unlocked x ip)); [apply section_wakeup; [apply icache_lock_fs|done]|].
  intros [] y ->. apply leaves_end; [apply icache_lock_fs|done].
Qed.

Lemma unlocked_at x y ip : locked_inode x ip → x_icache y = x_icache (unlocked x ip) → inode_at y ip = unlock_inode (inode_at x ip).
Proof. intros [H1 _ _ _] Hy. unfold inode_at. rewrite Hy. by apply list_lookup_total_alter_eq. Qed.

(** Taking the lock again gives the inode back. *)
Lemma ilock_does ip x y C :
  locked_inode x ip → x_icache y = x_icache (unlocked x ip) →
  does (ilock flag swtch iderw fuel (Some ip)) y (λ _ z, z = set_x_icache (x_icache x) y) C.
Proof.
  intros Hl Hy. pose proof Hl as [H1 H2 H3 H4]. pose proof (unlocked_at x y ip Hl Hy) as Hq.
  assert (alter (λ q, set_i_flags (Z.lor (i_flags q) I_BUSY) q) ip (x_icache y) = x_icache x) as Hback.
  { rewrite Hy. apply list_eq. intros i. cbn [unlocked x_icache set_x_icache]. destruct (decide (i = ip)) as [->|Hne];
      [|by rewrite !list_lookup_alter_ne by done]. rewrite !list_lookup_alter_eq. destruct (x_icache x !! ip) as [q|] eqn:Hi; [|done].
    assert (inode_at x ip = q) as Hqx by (by apply list_lookup_total_correct). rewrite Hqx, has_ibusy in H3. cbn. f_equal.
    by apply relock_flags. }
  unfold ilock. apply does_get_bind. rewrite Hq. cbn [i_ref unlock_inode set_i_flags]. rewrite decide_False by lia.
  apply does_acquire; [apply icache_lock_fs|]. eapply (leaves_bind _ _ _ _ (λ _ z, z = y)).
  { assert (has_flag (i_flags (inode_at y ip)) I_BUSY = false) as Hb.
    { rewrite Hq, has_ibusy. cbn [i_flags unlock_inode set_i_flags]. by rewrite Z.ldiff_spec, andb_false_r. }
    destruct fuel; cbn [ilock_wait]; apply section_get; rewrite Hb; by apply section_ret. }
  intros _ ? ->. eapply leaves_bind; [by apply (section_upd _ _ y (λ _ z, z = set_x_icache (x_icache x) y)); rewrite Hback|].
  intros _ ? ->. apply leaves_release; [apply icache_lock_fs|]. apply does_get_bind.
  change (inode_at (set_x_icache (x_icache x) y) ip) with (inode_at x ip). rewrite H4. by apply does_ret.
Qed.

Lemma disc_read_length want fresh q : (length (disc_read want fresh q).1 <= want)%nat.
Proof.
  revert fresh q. induction want as [|want IH]; intros fresh q; [by destruct q|]. destruct q as [|a q]; [simpl; lia|]. cbn [disc_read].
  case_decide; [simpl; lia|]. case_decide; [simpl; lia|]. specialize (IH false q). destruct (disc_read want false q). simpl in *. lia.
Qed.

Lemma consoleread_does ip dst n x q l C :
  typing x (q, l) → locked_inode x ip → 0 <= n < 2 ^ 31 → available (Z.to_nat n) q →
  let '(b, q') := disc_read (Z.to_nat n) true q in
  does (consoleread flag swtch iderw fuel to_struct ip dst n) x (λ r y,
    r = (Z.of_nat (length b), dst ++ b) ∧ typing y (q', l) ∧ read_only x y) C.
Proof.
  intros (R & Hok & Hp) Hl Hn Ha. destruct (disc_read (Z.to_nat n) true q) as [b q'] eqn:Hd.
  pose proof (disc_read_length (Z.to_nat n) true q) as Hb. pose proof (disc_read_ok (Z.to_nat n) true q l Hok) as Hok'.
  rewrite Hd in Hb, Hok'. cbn [fst snd] in *. unfold consoleread. rewrite s32_id by lia.
  eapply does_bind; [by apply iunlock_does|]. intros [] y ->. apply does_acquire; [apply input_lock_fs|].
  eapply leaves_bind; [apply (consoleread_loop_inside (Z.to_nat n) n dst (unlocked x ip) q l); [done|lia|done]|].
  intros r y. rewrite bool_decide_true by lia. rewrite Hd. intros (-> & Ry & Hy). apply leaves_release; [apply input_lock_fs|].
  eapply does_bind; [by apply (ilock_does ip x); [|rewrite Hy]|]. intros [] z ->. apply does_ret. unfold read_only in Hy.
  split; [f_equal; case_decide; lia|]. split.
  - split; [done|]. split; [done|]. by rewrite Hy.
  - unfold read_only. by rewrite Hy; destruct x.
Qed.
End reader.

(** ** The serial line and the keyboard *)

(** A serial line: [line] are the characters that have arrived.  The status
    register says whether there are any, the data register gives the next. *)
Class SerialLine {PT : Ports} (line : blocks → list Z) := {
  serial_status (k : KX) :
    ∃ v d, inb (COM1 + 5) k = Ret v (set_k_ext (set_x_disk d (k_ext k)) k) ∧
      has_flag v 0x01 = bool_decide (line (x_disk (k_ext k)) ≠ []) ∧ line d = line (x_disk (k_ext k));
  serial_data (k : KX) c cs : line (x_disk (k_ext k)) = c :: cs →
    ∃ d, inb COM1 k = Ret c (set_k_ext (set_x_disk d (k_ext k)) k) ∧ line d = cs;
  serial_byte d : Forall (λ c, 0 <= c < 256) (line d)
}.

(** What [uartgetc] has: nothing without a serial port. *)
Definition uart_pending (line : blocks → list Z) (d : dev) : list Z := if decide (d.1.2 = 0) then [] else line d.1.1.

#[export] Instance uart_source {PT : Ports} line : SerialLine line → CharSource uartgetc (uart_pending line).
Proof.
  intros SL. split; [|intros d; unfold uart_pending; case_decide; [constructor|apply serial_byte]].
  intros k x. unfold uart_pending, uartgetc, cget. cbn [dev_of fst snd].
  rewrite (bind_Ret (ext_get (λ x, cn_uart (x_cons x))) _ (cn_uart (x_cons x)) k k eq_refl). case_decide as Hu.
  { exists (x_disk x), (kb_shift (x_cons x)). cbn [x_cons set_x_cons cn_uart set_kb_shift]. rewrite decide_True by done. split; [|done].
    unfold x. by destruct k as [? ? ? ? ? ? ? ? ? ? ? ? ? ? ? ? [? ? ? ? ? ? ? ? ? ? ? ? ? []]]. }
  destruct (serial_status k) as (v & d & Hs & Hv & Hd). fold x in Hs, Hv, Hd. rewrite (bind_Ret _ _ _ _ _ Hs), Hv.
  set (k1 := set_k_ext (set_x_disk d x) k) in *. destruct (line (x_disk x)) as [|c cs] eqn:Hl.
  - exists d, (kb_shift (x_cons x)). cbn. rewrite decide_False by done. split; [|done]. f_equal. unfold k1, x.
    by destruct k as [? ? ? ? ? ? ? ? ? ? ? ? ? ? ? ? [? ? ? ? ? ? ? ? ? ? ? ? ? []]].
  - destruct (serial_data k1 c cs) as (d' & Hr & Hd'); [by rewrite <-Hd|]. exists d', (kb_shift (x_cons x)).
    cbn. rewrite decide_False by done. split; [|done]. etransitivity; [exact Hr|]. f_equal. unfold k1, x.
    by destruct k as [? ? ? ? ? ? ? ? ? ? ? ? ? ? ? ? [? ? ? ? ? ? ? ? ? ? ? ? ? []]].
Qed.

(** A keyboard: [codes] are the scan codes that have arrived. *)
Class Keyboard {PT : Ports} (codes : blocks → list Z) := {
  kbd_status (k : KX) :
    ∃ v d, inb KBSTATP k = Ret v (set_k_ext (set_x_disk d (k_ext k)) k) ∧
      has_flag v KBS_DIB = bool_decide (codes (x_disk (k_ext k)) ≠ []) ∧ codes d = codes (x_disk (k_ext k));
  kbd_data (k : KX) c cs : codes (x_disk (k_ext k)) = c :: cs →
    ∃ d, inb KBDATAP k = Ret c (set_k_ext (set_x_disk d (k_ext k)) k) ∧ codes d = cs
}.

(** The characters of a sequence of scan codes, 0 for a code that gives none. *)
Fixpoint decode_all (shift : Z) (l : list Z) : list Z :=
  match l with
  | [] => []
  | data :: l' => (kbd_decode shift data).1 :: decode_all (kbd_decode shift data).2 l'
  end.

Definition kbd_pending (codes : blocks → list Z) (d : dev) : list Z := decode_all d.2 (codes d.1.1).

Lemma charcode_byte i n : 0 <= charcode i !!! n < 256.
Proof.
  assert (Forall (λ c, 0 <= c < 256) (charcode i)) as Hf.
  { assert (∀ l, forallb (λ c, (0 <=? c) && (c <? 256)) l = true → Forall (λ c, 0 <= c < 256) l) as Hb.
    { intros l. rewrite forallb_forall, Forall_forall. intros Hl c Hc. specialize (Hl c (proj1 (list_elem_of_In _ _) Hc)). lia. }
    unfold charcode. repeat case_decide; apply Hb; by vm_compute. }
  rewrite list_lookup_total_alt. destruct (charcode i !! n) as [c|] eqn:Hc; cbn; [by eapply Forall_lookup_1 in Hf|lia].
Qed.

Lemma kbd_decode_byte shift data : 0 <= (kbd_decode shift data).1 < 256.
Proof.
  unfold kbd_decode. destruct (decide (data = 0xE0)); [cbn; lia|]. destruct (has_flag data 0x80); [cbn; lia|]. cbv zeta. cbn [fst].
  match goal with |- context [charcode ?i !!! ?n] => pose proof (charcode_byte i n) as Hc; generalize dependent (charcode i !!! n) end.
  intros c Hc. destruct (has_flag _ CAPSLOCK); [|done]. repeat case_decide; lia.
Qed.

#[export] Instance kbd_source {PT : Ports} codes : Keyboard codes → CharSource kbdgetc (kbd_pending codes).
Proof.
  intros KB. split.
  - intros k x. unfold kbd_pending, kbdgetc. cbn [dev_of fst snd].
    destruct (kbd_status k) as (v & d & Hs & Hv & Hd). fold x in Hs, Hv, Hd. rewrite (bind_Ret _ _ _ _ _ Hs), Hv.
    set (k1 := set_k_ext (set_x_disk d x) k) in *. destruct (codes (x_disk x)) as [|c cs] eqn:Hl.
    + exists d, (kb_shift (x_cons x)). cbn. rewrite Hd. split; [|done]. f_equal. unfold k1, x.
      by destruct k as [? ? ? ? ? ? ? ? ? ? ? ? ? ? ? ? [? ? ? ? ? ? ? ? ? ? ? ? ? []]].
    + destruct (kbd_data k1 c cs) as (d' & Hr & Hd'); [by rewrite <-Hd|]. exists d', (kbd_decode (kb_shift (x_cons x)) c).2.
      cbn [negb bool_decide]. rewrite bool_decide_true by done. cbn [negb]. rewrite (bind_Ret _ _ _ _ _ Hr).
      erewrite bind_Ret; [|reflexivity]. cbn. destruct (kbd_decode (kb_shift (x_cons x)) c) as [ch sh]. split; [|by rewrite Hd'].
      erewrite bind_Ret; [|reflexivity]. done.
  - intros [[d u] s]. unfold kbd_pending. cbn [fst snd]. generalize (codes d) as l. intros l. revert s.
    induction l as [|c l IH]; intros s; cbn [decode_all]; constructor; [apply kbd_decode_byte|apply IH].
Qed.

(** ** The console *)

Section console_claims.
Context {PT : Ports} (flag : schedflag) (swtch : M KX unit) (iderw : nat → M KX unit) (fuel : nat).

(** C22. The interrupt routine is the line discipline.  Whatever device delivers the
    characters, as long as output does not disturb it: from a ring buffer that
    holds some finished characters and a line under edit, the interrupt returns
    with the device drained and the buffer holding what [disc] makes of them,
    character by character.  So a backspace takes back the last character of the
    line and never a finished one, Control-U takes back the line, a newline,
    Control-D or a full buffer finish it, and characters that do not fit are
    dropped, however the three counters have wrapped around. *)
Theorem consoleintr_spec (procdump : M KX unit) (getc : M KX Z) (pending : dev → list Z)
    {PK : PortsKeep pending} {CS : CharSource getc pending} k s :
  shows (pending := pending) input_lock procdump →
  fsok k → typing (k_ext k) s → (length (pending (dev_of (k_ext k))) <= fuel)%nat →
  ∃ k', consoleintr flag fuel procdump getc k = Ret tt k' ∧ calmly k k' ∧ cons_only (k_ext k) (k_ext k') ∧
    typing (k_ext k') (foldl disc s (pending (dev_of (k_ext k)))) ∧ pending (dev_of (k_ext k')) = [].
Proof.
  intros Hd Hk Ht Hn. destruct (does_returns _ k _ Hk (consoleintr_does flag fuel procdump Hd getc (k_ext k) s (λ _, False) Hn Ht))
    as ([] & k' & Hrun & Hc & Hty & Ho & Hp). by exists k'.
Qed.

(** A reader gets the finished characters in order, at most [n], up to the end of
    a line; a Control-D ends the read, and is left for the next read unless this
    one got nothing, so that exactly one read sees the end of file.  Here the
    finished characters suffice, so the reader does not wait; the line under edit
    is untouched, the inode is unlocked meanwhile and locked again at the end, and
    nothing but the read counter has changed. *)
Theorem consoleread_spec ip dst n k q l :
  fsok k → typing (k_ext k) (q, l) → locked_inode (k_ext k) ip → 0 <= n < 2 ^ 31 → available (Z.to_nat n) q →
  let '(b, q') := disc_read (Z.to_nat n) true q in
  ∃ k', consoleread flag swtch iderw fuel to_struct ip dst n k = Ret (Z.of_nat (length b), dst ++ b) k' ∧ calmly k k' ∧
    typing (k_ext k') (q', l) ∧ read_only (k_ext k) (k_ext k').
Proof.
  intros Hk Ht Hl Hn Ha. pose proof (consoleread_does flag swtch iderw fuel ip dst n (k_ext k) q l (λ _, False) Ht Hl Hn Ha) as Hd.
  destruct (disc_read (Z.to_nat n) true q) as [b q'].
  destruct (does_returns _ k _ Hk Hd) as (r & k' & Hrun & Hc & -> & Hty & Ho). by exists k'.
Qed.
End console_claims.

(** ** An example

    A machine with nothing but a serial line; the line's buffer is kept under a
    key no disk has. *)
Definition demo_line (d : blocks) : list Z := u8 <$> default [] (d !! (-1, 0)).
Definition line_ports : Ports := {|
  inb p := l ← ext_get (λ x, demo_line (x_disk x));
    if decide (p = COM1) then
      upd_ext (λ x, set_x_disk (<[(-1, 0) := tail l]> (x_disk x)) x) ;; mret (hd 0 l)
    else mret (if decide (p = COM1 + 5 ∧ l ≠ []) then 0x21 else 0x20);
  outb p v := mret tt;
  insl p := mret [];
  outsl p l := mret tt;
  mmio_read := λ _, mret 0;
  mmio_write := λ _ _, mret tt
|}.
#[local] Existing Instance line_ports.

Lemma line_kept (k : KX) : k = set_k_ext (set_x_disk (x_disk (k_ext k)) (k_ext k)) k.
Proof. by destruct k as [? ? ? ? ? ? ? ? ? ? ? ? ? ? ? ? []]. Qed.

#[local] Instance line_keep : PortsKeep (uart_pending demo_line).
Proof.
  split.
  - intros p k H1 H2. eexists _, (x_disk (k_ext k)). rewrite <-line_kept. split; [|by destruct k as [? ? ? ? ? ? ? ? ? ? ? ? ? ? ? ? []]].
    cbn [inb line_ports]. erewrite bind_Ret; [|reflexivity]. by rewrite decide_False.
  - intros p v k. exists (x_disk (k_ext k)). rewrite <-line_kept. split; [done|]. by destruct k as [? ? ? ? ? ? ? ? ? ? ? ? ? ? ? ? []].
Qed.

#[local] Instance line_serial : SerialLine demo_line.
Proof.
  split.
  - intros k. eexists _, (x_disk (k_ext k)). rewrite <-line_kept. split.
    + cbn [inb line_ports]. erewrite bind_Ret; [|reflexivity]. by rewrite decide_False.
    + split; [|done]. destruct (demo_line (x_disk (k_ext k))); [by vm_compute|]. rewrite decide_True by done. by vm_compute.
  - intros k c cs Hl. eexists. split.
    + cbn [inb line_ports]. erewrite bind_Ret; [|reflexivity]. rewrite decide_True by done. rewrite Hl.
      erewrite bind_Ret; [|reflexivity]. done.
    + cbn [x_disk]. unfold demo_line in *. rewrite lookup_insert_eq. cbn [default tail from_option].
      destruct (default [] (x_disk (k_ext k) !! (-1, 0))) as [|a l]; [done|]. injection Hl as _ <-. change (u8 <$> (u8 <$> l) = u8 <$> l).
      rewrite <-list_fmap_compose.
      apply list_fmap_ext. intros i b _. apply Z.mod_mod. lia.
  - intros d. unfold demo_line. apply Forall_fmap, Forall_true. intros c. apply Z.mod_pos_bound. lia.
Qed.

(** The reader types "ls", takes it back, and types "pwd" and return. *)
Definition typed : list Z := chars "ls" ++ [8; 8] ++ chars "pwd" ++ [13].
Definition typing_demo : ext :=
  set_x_cons (set_cn_uart 1 console0) (set_x_disk {[(-1, 0) := typed]} (ext0 (λ _, 0))).

Lemma consoleintr_spec_witness :
  ∃ k', consoleintr DEFAULT 10 (mret tt) uartgetc (fs_boot typing_demo) = Ret tt k' ∧
    typing (k_ext k') (chars "pwd" ++ [10], []).
Proof.
  destruct (consoleintr_spec DEFAULT 10 (mret tt) uartgetc (uart_pending demo_line) (fs_boot typing_demo) ([], []))
    as (k' & Hrun & _ & _ & Ht & _).
  - apply shows_ret.
  - apply fsok_boot.
  - split; [|split; [|done]]; [split; try done; cbn; lia|split; [cbn; lia|split; [done|set_solver]]].
  - by vm_compute; lia.
  - exists k'. split; [exact Hrun|exact Ht].
Defined.

(** A line and the beginning of the next, with an end of file behind it. *)
Definition reading_demo : ext :=
  set_x_icache [Inode 1 2 1 (Z.lor I_BUSY I_VALID) T_DEV 1 1 1 0 []]
    (set_x_cons (Console 1 0 (chars "ab" ++ [10; 4] ++ replicate 124 0) 0 4 4 1 0) (ext0 (λ _, 0))).

Lemma consoleread_spec_witness :
  ∃ k', consoleread DEFAULT block Memide.iderw 0 to_struct 0 [] 100 (fs_boot reading_demo) = Ret (3, chars "ab" ++ [10]) k' ∧
    typing (k_ext k') ([4], []).
Proof.
  destruct (consoleread_spec DEFAULT block Memide.iderw 0 0 [] 100 (fs_boot reading_demo) (chars "ab" ++ [10; 4]) [])
    as (k' & Hrun & _ & Ht & _).
  - apply fsok_boot.
  - split; [|split; [|done]]; [|split; [cbn; lia|split; [cbn; lia|set_solver]]].
    split; [done|cbn; lia|done|done|cbn; lia|]. intros i a Hi. cbn in Hi. do 4 (destruct i as [|i]; [by injection Hi as <-|]). done.
  - by split; vm_compute.
  - lia.
  - right. left. set_solver.
  - exists k'. split; [exact Hrun|exact Ht].
Defined.
