(* ===== verification/Apic.v ===== *)
(** * Processor discovery and the APICs (mp.c, mp.h, lapic.c, ioapic.c, date.h)

    [mpinit] finds the tables the firmware left in memory and learns from them
    which processors and interrupt controllers the machine has.  lapic.c drives
    the local APIC, through which processors start one another, and reads the
    clock; the initialisation of the I/O APIC is here as well.  It is shown that
    [mpinit] learns what the tables say, what it does with tables it does not
    expect, that the I/O APIC delivers exactly the interrupts that were enabled,
    and that the clock is read without tearing. *)

From stdpp Require Import base functions list gmap strings.
From Stdlib Require Import ZArith Lia.
From S2P Require Import Prelude KState Spinlock CString Proc ProcForms KExt Pic Kalloc Ide Cprintf Vm.

Definition IRQ_ERROR : Z := 19.

(** ** The local APIC (lapic.c)

    The registers, as indices of an array of words. *)

Module Lapic.
Definition ID : Z := 0x0020 / 4.
Definition VER : Z := 0x0030 / 4.
Definition TPR : Z := 0x0080 / 4.
Definition EOI : Z := 0x00B0 / 4.
Definition SVR : Z := 0x00F0 / 4.
Definition ENABLE : Z := 0x00000100.
Definition ESR : Z := 0x0280 / 4.
Definition ICRLO : Z := 0x0300 / 4.
Definition INIT : Z := 0x00000500.
Definition STARTUP : Z := 0x00000600.
Definition DELIVS : Z := 0x00001000.
Definition ASSERT : Z := 0x00004000.
Definition LEVEL : Z := 0x00008000.
Definition BCAST : Z := 0x00080000.
Definition ICRHI : Z := 0x0310 / 4.
Definition TIMER : Z := 0x0320 / 4.
Definition X1 : Z := 0x0000000B.
Definition PERIODIC : Z := 0x00020000.
Definition PCINT : Z := 0x0340 / 4.
Definition LINT0 : Z := 0x0350 / 4.
Definition LINT1 : Z := 0x0360 / 4.
Definition ERROR : Z := 0x0370 / 4.
Definition MASKED : Z := 0x00010000.
Definition TICR : Z := 0x0380 / 4.
Definition TDCR : Z := 0x03E0 / 4.

Section lapic.
Context {PT : Ports}.

(** [lapic[index]] *)
Definition lapicr (index : Z) : M KX Z :=
  lapic ← intr_get ic_lapic;
  mmio_read (lapic + 4 * index).

Definition lapicw (index value : Z) : M KX unit :=
  lapic ← intr_get ic_lapic;
  mmio_write (lapic + 4 * index) (u32 value) ;;
  lapicr ID ;;
  mret tt.

(** [while(lapic[ICRLO] & DELIVS);], at most [n] times. *)
Fixpoint wait_delivered (n : nat) : M KX unit :=
  r ← lapicr ICRLO;
  if has_flag r DELIVS then match n with O => block | S n' => wait_delivered n' end else mret tt.

Definition lapicinit (n : nat) : M KX unit :=
  lapic ← intr_get ic_lapic;
  if decide (lapic = 0) then mret tt else
  lapicw SVR (Z.lor ENABLE (T_IRQ0 + IRQ_SPURIOUS)) ;;
  lapicw TDCR X1 ;;
  lapicw TIMER (Z.lor PERIODIC (T_IRQ0 + IRQ_TIMER)) ;;
  lapicw TICR 10000000 ;;
  lapicw LINT0 MASKED ;;
  lapicw LINT1 MASKED ;;
  ver ← lapicr VER;
  when (bool_decide (Z.land (Z.shiftr ver 16) 0xFF >= 4)) (lapicw PCINT MASKED) ;;
  lapicw ERROR (T_IRQ0 + IRQ_ERROR) ;;
  lapicw ESR 0 ;;
  lapicw ESR 0 ;;
  lapicw EOI 0 ;;
  lapicw ICRHI 0 ;;
  lapicw ICRLO (Z.lor (Z.lor BCAST INIT) LEVEL) ;;
  wait_delivered n ;;
  lapicw TPR 0.

(** [caller] is the return address, for the message. *)
Definition cpunum (caller : Z) : M KX Z :=
  eflags ← readeflags;
  when (has_flag eflags FL_IF)
    (n ← intr_get ic_warned;
     intr_upd (set_ic_warned (s32 (n + 1))) ;;
     when (bool_decide (n = 0))
       (cprintf (λ _, []) (Some (chars "cpu called from %x with interrupts enabled" ++ [ch_newline])) [caller])) ;;
  lapic ← intr_get ic_lapic;
  if decide (lapic ≠ 0) then id ← lapicr ID; mret (Z.shiftr id 24) else mret 0.

Definition lapiceoi : M KX unit :=
  lapic ← intr_get ic_lapic;
  when (bool_decide (lapic ≠ 0)) (lapicw EOI 0).

(** An empty loop: it takes time and does nothing. *)
Definition microdelay (us : Z) : M KX unit := mret tt.

Definition CMOS_PORT : Z := 0x70.
Definition CMOS_RETURN : Z := 0x71.

Definition store16 (a w : Z) (m : mem) : mem := <[a := u8 w]> (<[a + 1 := u8 (Z.shiftr w 8)]> m).

Definition lapicstartap (apicid addr : Z) : M KX unit :=
  outb CMOS_PORT 0xF ;;
  outb (CMOS_PORT + 1) 0x0A ;;
  let wrv := p2v (Z.lor (Z.shiftl 0x40 4) 0x67) in
  upd_mem (store16 wrv 0) ;;
  upd_mem (store16 (wrv + 2) (u16 (Z.shiftr addr 4))) ;;
  lapicw ICRHI (Z.shiftl apicid 24) ;;
  lapicw ICRLO (Z.lor (Z.lor INIT LEVEL) ASSERT) ;;
  microdelay 200 ;;
  lapicw ICRLO (Z.lor INIT LEVEL) ;;
  microdelay 100 ;;
  for_each (λ _, lapicw ICRHI (Z.shiftl apicid 24) ;; lapicw ICRLO (Z.lor STARTUP (Z.shiftr addr 12)) ;; microdelay 200) (seq 0 2).

(** ** The clock (lapic.c, date.h) *)

Definition CMOS_STATA : Z := 0x0a.
Definition CMOS_STATB : Z := 0x0b.
Definition CMOS_UIP : Z := Z.shiftl 1 7.
Definition SECS : Z := 0x00.
Definition MINS : Z := 0x02.
Definition HOURS : Z := 0x04.
Definition DAY : Z := 0x07.
Definition MONTH : Z := 0x08.
Definition YEAR : Z := 0x09.

Record rtcdate := RtcDate { second : Z; minute : Z; hour : Z; day : Z; month : Z; year : Z }.

#[global] Instance rtcdate_eq_dec : EqDecision rtcdate.
Proof. solve_decision. Defined.

Definition cmos_read (reg : Z) : M KX Z :=
  outb CMOS_PORT (u8 reg) ;;
  microdelay 200 ;;
  inb CMOS_RETURN.

Definition fill_rtcdate : M KX rtcdate :=
  s ← cmos_read SECS;
  mi ← cmos_read MINS;
  h ← cmos_read HOURS;
  d ← cmos_read DAY;
  mo ← cmos_read MONTH;
  y ← cmos_read YEAR;
  mret (RtcDate s mi h d mo y).

(** [for (;;)]: read until two reads agree, at most [n] times more. *)
Fixpoint cmos_loop (n : nat) : M KX rtcdate :=
  let again := match n with O => block | S n' => cmos_loop n' end in
  t1 ← fill_rtcdate;
  sa ← cmos_read CMOS_STATA;
  if has_flag sa CMOS_UIP then again else
  t2 ← fill_rtcdate;
  if decide (t1 = t2) then mret t1 else again.

Definition CONV (x : Z) : Z := u32 (Z.shiftr x 4 * 10 + Z.land x 0xf).

Definition cmostime (n : nat) : M KX rtcdate :=
  sb ← cmos_read CMOS_STATB;
  let bcd := negb (has_flag sb (Z.shiftl 1 2)) in
  t1 ← cmos_loop n;
  let '(RtcDate s mi h d mo y) :=
    if bcd then RtcDate (CONV (second t1)) (CONV (minute t1)) (CONV (hour t1)) (CONV (day t1)) (CONV (month t1)) (CONV (year t1))
    else t1 in
  mret (RtcDate s mi h d mo (u32 (y + 2000))).
End lapic.
End Lapic.

(** ** The I/O APIC (ioapic.c) *)

Section ioapic.
Context {PT : Ports}.

Definition ioapicinit : M KX unit :=
  ismp ← intr_get ic_ismp;
  if decide (ismp = 0) then mret tt else
  intr_upd (set_ic_ioapic IOAPIC) ;;
  ver ← ioapicread REG_VER;
  let maxintr := Z.land (Z.shiftr ver 16) 0xFF in
  idr ← ioapicread REG_ID;
  let id := Z.shiftr idr 24 in
  ioapicid ← intr_get ic_ioapicid;
  when (bool_decide (id ≠ ioapicid))
    (cprintf (λ _, []) (Some (chars "ioapicinit: id isn't equal to ioapicid; not a MP" ++ [ch_newline])) []) ;;
  for_each (λ i, ioapicwrite (REG_TABLE + 2 * i) (Z.lor INT_DISABLED (T_IRQ0 + i)) ;;
                 ioapicwrite (REG_TABLE + 2 * i + 1) 0) (seqZ 0 (maxintr + 1)).
End ioapic.

(** ** The tables of the firmware (mp.h)

    Fields at their offsets in the packed layout of the structures. *)

Module Mp.
Definition get16 (m : mem) (a : Z) : Z := m a + 256 * m (a + 1).

(** [struct mp], of 16 bytes. *)
Definition SIZEOF_MP : Z := 16.
Definition mp_physaddr (m : mem) (mp : Z) : Z := get32 m (mp + 4).
Definition mp_imcrp (m : mem) (mp : Z) : Z := m (mp + 12).

(** [struct mpconf], of 44 bytes. *)
Definition SIZEOF_MPCONF : Z := 44.
Definition conf_length (m : mem) (conf : Z) : Z := get16 m (conf + 4).
Definition conf_version (m : mem) (conf : Z) : Z := m (conf + 6).
Definition conf_lapicaddr (m : mem) (conf : Z) : Z := get32 m (conf + 36).

(** [struct mpproc], of 20 bytes, and [struct mpioapic], of 8. *)
Definition SIZEOF_MPPROC : Z := 20.
Definition proc_apicid (m : mem) (p : Z) : Z := m (p + 1).
Definition proc_flags (m : mem) (p : Z) : Z := m (p + 3).
Definition MPBOOT : Z := 0x02.
Definition SIZEOF_MPIOAPIC : Z := 8.
Definition ioapic_apicno (m : mem) (p : Z) : Z := m (p + 1).

Definition MPPROC : Z := 0.
Definition MPBUS : Z := 1.
Definition MPIOAPIC : Z := 2.
Definition MPIOINTR : Z := 3.
Definition MPLINTR : Z := 4.

(** ** Finding them (mp.c) *)

(** [memcmp(p, s, n) == 0] for a string constant [s] of [n] characters. *)
Definition is_text (m : mem) (p : Z) (s : string) : bool := bool_decide (read_array p (length (chars s)) m = chars s).

Fixpoint sum_loop (n : nat) (m : mem) (addr : Z) : Z :=
  match n with O => 0 | S n' => m addr + sum_loop n' m (addr + 1) end.
Definition sum (m : mem) (addr len : Z) : Z := u8 (sum_loop (Z.to_nat len) m addr).

(** The loop looks at no more than [n] places; 0 is the null pointer. *)
Fixpoint mpsearch1_loop (n : nat) (m : mem) (p e : Z) : Z :=
  match n with
  | O => 0
  | S n' =>
      if decide (p < e) then
        if is_text m p "_MP_" && bool_decide (sum m p SIZEOF_MP = 0) then p else mpsearch1_loop n' m (p + SIZEOF_MP) e
      else 0
  end.

Definition mpsearch1 (m : mem) (a len : Z) : Z :=
  let addr := p2v a in
  mpsearch1_loop (Z.to_nat len) m addr (addr + len).

Definition mpsearch (m : mem) : Z :=
  let bda := p2v 0x400 in
  let p := Z.shiftl (Z.lor (Z.shiftl (m (bda + 0x0F)) 8) (m (bda + 0x0E))) 4 in
  let mp := if decide (p ≠ 0) then mpsearch1 m p 1024
            else mpsearch1 m (u32 (Z.lor (Z.shiftl (m (bda + 0x14)) 8) (m (bda + 0x13)) * 1024 - 1024)) 1024 in
  if decide (mp ≠ 0) then mp else mpsearch1 m 0xF0000 0x10000.

(** The configuration table and the pointer structure that names it. *)
Definition mpconfig (m : mem) : option (Z * Z) :=
  let mp := mpsearch m in
  if decide (mp = 0 ∨ mp_physaddr m mp = 0) then None else
  let conf := p2v (mp_physaddr m mp) in
  if negb (is_text m conf "PCMP") then None else
  if decide (conf_version m conf ≠ 1 ∧ conf_version m conf ≠ 4) then None else
  if decide (sum m conf (conf_length m conf) ≠ 0) then None else
  Some (conf, mp).

Section mpinit.
Context {PT : Ports}.

Definition mpbcpu : M KX Z := b ← intr_get ic_bcpu; match b with Some b => mret (Z.of_nat b) | None => fault "bcpu" end.

(** [cpus[ncpu].id = ncpu;] *)
Definition set_cpu_id (ncpu : Z) : M KX unit :=
  k ← gets id;
  if decide (0 <= ncpu < Z.of_nat (length (k_cpus k))) then
    modify (λ k, set_k_cpus (alter (set_c_id (u8 ncpu)) (Z.to_nat ncpu) (k_cpus k)) k)
  else fault "cpus[ncpu]".

(** The entries from [p] on; at most [n] rounds of the loop. *)
Fixpoint mp_entries (n : nat) (p e : Z) : M KX unit :=
  if decide (p < e) then
    match n with
    | O => block
    | S n' =>
        ty ← ext_get (λ x, x_mem x p);
        if decide (ty = MPPROC) then
          ncpu ← intr_get ic_ncpu;
          apicid ← ext_get (λ x, proc_apicid (x_mem x) p);
          when (bool_decide (ncpu ≠ apicid))
            (cprintf (λ _, []) (Some (chars "mpinit: ncpu=%d apicid=%d" ++ [ch_newline])) [ncpu; apicid] ;;
             intr_upd (set_ic_ismp 0)) ;;
          flags ← ext_get (λ x, proc_flags (x_mem x) p);
          when (has_flag flags MPBOOT) (intr_upd (set_ic_bcpu (Some (Z.to_nat ncpu)))) ;;
          set_cpu_id ncpu ;;
          intr_upd (set_ic_ncpu (ncpu + 1)) ;;
          mp_entries n' (p + SIZEOF_MPPROC) e
        else if decide (ty = MPIOAPIC) then
          no ← ext_get (λ x, ioapic_apicno (x_mem x) p);
          intr_upd (set_ic_ioapicid no) ;;
          mp_entries n' (p + SIZEOF_MPIOAPIC) e
        else if decide (ty = MPBUS ∨ ty = MPIOINTR ∨ ty = MPLINTR) then mp_entries n' (p + 8) e
        else
          cprintf (λ _, []) (Some (chars "mpinit: unknown config type %x" ++ [ch_newline])) [ty] ;;
          intr_upd (set_ic_ismp 0) ;;
          mp_entries n' p e
    end
  else mret tt.

Definition mpinit (n : nat) : M KX unit :=
  intr_upd (set_ic_bcpu (Some 0%nat)) ;;
  m ← ext_get x_mem;
  match mpconfig m with
  | None => mret tt
  | Some (conf, mp) =>
      intr_upd (set_ic_ismp 1) ;;
      intr_upd (set_ic_lapic (conf_lapicaddr m conf)) ;;
      mp_entries n (conf + SIZEOF_MPCONF) (conf + conf_length m conf) ;;
      ismp ← intr_get ic_ismp;
      if decide (ismp = 0) then
        intr_upd (set_ic_ncpu 1) ;;
        intr_upd (set_ic_lapic 0) ;;
        intr_upd (set_ic_ioapicid 0)
      else
        imcrp ← ext_get (λ x, mp_imcrp (x_mem x) mp);
        when (bool_decide (imcrp ≠ 0))
          (outb 0x22 0x70 ;;
           r ← inb 0x23;
           outb 0x23 (Z.lor r 1))
  end.
End mpinit.
End Mp.

(** ** What the firmware means

    The entries of a configuration table with the bytes they are written as; of the
    fields the kernel does not read only the bytes are kept. *)
Inductive entry :=
  | EProc (apicid version flags : Z) (rest : list Z)
  | EIoapic (apicno : Z) (rest : list Z)
  | EOther (ty : Z) (rest : list Z).

Definition entry_bytes (en : entry) : list Z :=
  match en with
  | EProc a v f r => Mp.MPPROC :: a :: v :: f :: r
  | EIoapic a r => Mp.MPIOAPIC :: a :: r
  | EOther ty r => ty :: r
  end.

Definition entry_ok (en : entry) : Prop :=
  match en with
  | EProc _ _ _ r => length r = 16%nat
  | EIoapic _ r => length r = 6%nat
  | EOther ty r => (ty = Mp.MPBUS ∨ ty = Mp.MPIOINTR ∨ ty = Mp.MPLINTR) ∧ length r = 7%nat
  end.

Definition table_bytes (es : list entry) : list Z := mjoin (entry_bytes <$> es).

Lemma table_bytes_cons en es : table_bytes (en :: es) = entry_bytes en ++ table_bytes es.
Proof. done. Qed.

(** Memory has the bytes [l] at [p]. *)
Definition has_bytes (m : mem) (p : Z) (l : list Z) : Prop := read_array p (length l) m = l.

(** The processors with their flags, and the I/O APICs, in the order of the table. *)
Definition procs_of (es : list entry) : list (Z * Z) := omap (λ en, match en with EProc a _ f _ => Some (a, f) | _ => None end) es.
Definition ioapics_of (es : list entry) : list Z := omap (λ en, match en with EIoapic a _ => Some a | _ => None end) es.

(** The place of the last processor that is marked as the one that booted. *)
Fixpoint boot_index (i : nat) (b : option nat) (ps : list (Z * Z)) : option nat :=
  match ps with
  | [] => b
  | (_, f) :: ps => boot_index (S i) (if has_flag f Mp.MPBOOT then Some i else b) ps
  end.

Section mp.
Context {PT : Ports}.
Implicit Types (k : KX) (m : mem) (es : list entry).

(** The state after an entry. *)
Definition learn k (en : entry) : KX :=
  let i := x_intr (k_ext k) in
  match en with
  | EProc a v f r =>
      set_k_ext (set_x_intr (set_ic_ncpu (ic_ncpu i + 1) (if has_flag f Mp.MPBOOT then set_ic_bcpu (Some (Z.to_nat (ic_ncpu i))) i else i)) (k_ext k))
        (set_k_cpus (alter (set_c_id (u8 (ic_ncpu i))) (Z.to_nat (ic_ncpu i)) (k_cpus k)) k)
  | EIoapic a r => set_k_ext (set_x_intr (set_ic_ioapicid a i) (k_ext k)) k
  | EOther ty r => k
  end.

Lemma has_bytes_cons m p b l : has_bytes m p (b :: l) ↔ m p = b ∧ has_bytes m (p + 1) l.
Proof.
  unfold has_bytes, read_array. cbn [length seq fmap list_fmap]. rewrite <-fmap_S_seq, <-list_fmap_compose, Z.add_0_r.
  rewrite (list_fmap_ext _ (λ i, m (p + 1 + Z.of_nat i)) (seq 0 (length l))) by (intros i y _; cbn; f_equal; lia).
  split; [by intros [= -> ->]|by intros [-> ->]].
Qed.

Lemma has_bytes_app m p l1 l2 : has_bytes m p (l1 ++ l2) ↔ has_bytes m p l1 ∧ has_bytes m (p + Z.of_nat (length l1)) l2.
Proof.
  revert p. induction l1 as [|b l1 IH]; intros p; cbn [app length].
  - rewrite Z.add_0_r. unfold has_bytes at 2. cbn. tauto.
  - rewrite !has_bytes_cons, IH. replace (p + 1 + Z.of_nat (length l1)) with (p + Z.of_nat (S (length l1))) by lia. tauto.
Qed.

(** One round of the loop on an entry the kernel expects. *)
Lemma mp_entries_step n p e k en :
  p < e → entry_ok en → has_bytes (x_mem (k_ext k)) p (entry_bytes en) →
  (∀ a v f r, en = EProc a v f r → a = ic_ncpu (x_intr (k_ext k)) ∧ 0 <= a < Z.of_nat (length (k_cpus k))) →
  Mp.mp_entries (S n) p e k = Mp.mp_entries n (p + Z.of_nat (length (entry_bytes en))) e (learn k en).
Proof.
  intros Hp Hok Hb Hcpu. cbn [Mp.mp_entries]. rewrite decide_True by done. erewrite bind_Ret; [|reflexivity].
  destruct en as [a v f r|a r|ty r]; cbn [entry_bytes entry_ok length] in *.
  - rewrite !has_bytes_cons in Hb. destruct Hb as (Ht & Ha & _ & Hf & _). replace (p + 1 + 1 + 1) with (p + 3) in Hf by lia.
    destruct (Hcpu a v f r eq_refl) as [Hn Hr]. rewrite decide_True by done. do 2 (erewrite bind_Ret; [|reflexivity]).
    cbv beta. unfold Mp.proc_apicid, Mp.proc_flags. rewrite bool_decide_false by (rewrite Ha, Hn; by intros []).
    cbn [when]. do 2 (erewrite bind_Ret; [|reflexivity]). cbv beta. rewrite Hf, Hok, <-Hn. unfold learn. rewrite <-Hn.
    destruct (has_flag f Mp.MPBOOT); cbn [when]; (erewrite bind_Ret; [|reflexivity]).
    all: erewrite (bind_Ret (Mp.set_cpu_id a)); [|unfold Mp.set_cpu_id; erewrite bind_Ret; [|reflexivity]; cbn; by rewrite decide_True].
    all: erewrite bind_Ret; [|reflexivity]; cbv zeta; by cbn.
  - rewrite !has_bytes_cons in Hb. destruct Hb as (Ht & Ha & _). rewrite decide_False, decide_True by (by rewrite Ht).
    do 2 (erewrite bind_Ret; [|reflexivity]). cbv beta. unfold Mp.ioapic_apicno. by rewrite Ha, Hok.
  - rewrite !has_bytes_cons in Hb. destruct Hb as (Ht & _). destruct Hok as [Hty Hl].
    rewrite !decide_False, decide_True by (rewrite Ht; unfold Mp.MPBUS, Mp.MPIOINTR, Mp.MPLINTR, Mp.MPPROC, Mp.MPIOAPIC in *; lia).
    by rewrite Hl.
Qed.

Lemma learn_mem k en : x_mem (k_ext (learn k en)) = x_mem (k_ext k).
Proof. by destruct en. Qed.
Lemma learn_cpus k en : length (k_cpus (learn k en)) = length (k_cpus k).
Proof. destruct en; [apply length_alter|done..]. Qed.

Lemma entry_length en : entry_ok en → (0 < length (entry_bytes en))%nat.
Proof. by destruct en; cbn; intros; lia. Qed.

(** A run of entries whose processors are numbered as they are met. *)
Lemma mp_entries_run es : ∀ n p e k,
  Forall entry_ok es → has_bytes (x_mem (k_ext k)) p (table_bytes es) →
  p + Z.of_nat (length (table_bytes es)) <= e →
  0 <= ic_ncpu (x_intr (k_ext k)) → (procs_of es).*1 = seqZ (ic_ncpu (x_intr (k_ext k))) (Z.of_nat (length (procs_of es))) →
  ic_ncpu (x_intr (k_ext k)) + Z.of_nat (length (procs_of es)) <= Z.of_nat (length (k_cpus k)) →
  Mp.mp_entries (length es + n) p e k = Mp.mp_entries n (p + Z.of_nat (length (table_bytes es))) e (foldl learn k es).
Proof.
  induction es as [|en es IH]; intros n p e k Hok Hb He H0 Hseq Hroom.
  { change (length (table_bytes [])) with 0%nat. by rewrite Z.add_0_r. }
  apply Forall_cons in Hok as [Hen Hok]. rewrite table_bytes_cons in Hb, He |- *. cbn [foldl length Nat.add].
  rewrite length_app in He |- *.
  pose proof (entry_length en Hen) as Hpos. apply has_bytes_app in Hb as [Hb1 Hb2].
  rewrite (mp_entries_step _ p e k en); [|lia|done|done|].
  - rewrite IH; [by rewrite <-Z.add_assoc, <-Nat2Z.inj_add|done|by rewrite learn_mem|lia|..].
    all: destruct en as [a v f r|a r|ty r]; cbn in *; fold (procs_of es) in *; rewrite ?length_alter; try done; try lia.
    rewrite seqZ_cons in Hseq by lia. injection Hseq as -> Hseq. rewrite Hseq. f_equal; lia.
  - intros a v f r ->. cbn in *. fold (procs_of es) in *. rewrite seqZ_cons in Hseq by lia. injection Hseq as -> _. lia.
Qed.

(** What is known at the end. *)
Lemma learned_intr es : ∀ k,
  0 <= ic_ncpu (x_intr (k_ext k)) →
  let i := x_intr (k_ext k) in
  x_intr (k_ext (foldl learn k es)) =
    Intrs (ic_irqmask i) (ic_ismp i) (ic_ncpu i + Z.of_nat (length (procs_of es)))
      (boot_index (Z.to_nat (ic_ncpu i)) (ic_bcpu i) (procs_of es)) (ic_lapic i) (default (ic_ioapicid i) (last (ioapics_of es)))
      (ic_ioapic i) (ic_warned i).
Proof.
  induction es as [|en es IH]; intros k H0 i; cbn [foldl].
  { cbn. rewrite Z.add_0_r. unfold i. by destruct (x_intr (k_ext k)). }
  rewrite IH; clear IH; destruct en as [a v f r|a r|ty r]; cbn in *; try done; try lia.
  - fold i in H0 |- *. replace (Z.to_nat (ic_ncpu i + 1)) with (S (Z.to_nat (ic_ncpu i))) by lia.
    fold (procs_of es). rewrite Nat2Z.inj_succ. replace (ic_ncpu i + Z.succ (Z.of_nat (length (procs_of es)))) with (ic_ncpu i + 1 + Z.of_nat (length (procs_of es))) by lia.
    by destruct (has_flag f Mp.MPBOOT).
  - fold i. f_equal. change (omap _ es) with (ioapics_of es). destruct (ioapics_of es) as [|b l]; [done|]. rewrite last_cons_cons.
    destruct (last (b :: l)) eqn:E; [done|]. by apply last_None in E.
Qed.

Lemma learned_frame es : ∀ k,
  foldl learn k es = set_k_cpus (k_cpus (foldl learn k es)) (set_k_ext (set_x_intr (x_intr (k_ext (foldl learn k es))) (k_ext k)) k).
Proof.
  induction es as [|en es IH]; intros k; cbn [foldl].
  - by destruct k as [? ? ? ? ? ? ? ? ? ? ? ? ? ? ? ? []].
  - rewrite IH at 1. by destruct en.
Qed.

(** The processors have their numbers. *)
Definition numbered (lo n : Z) (cs : list cpu) : list cpu :=
  imap (λ i c, if decide (lo <= Z.of_nat i < lo + n) then set_c_id (u8 (Z.of_nat i)) c else c) cs.

Lemma learned_cpus es : ∀ k,
  0 <= ic_ncpu (x_intr (k_ext k)) →
  k_cpus (foldl learn k es) = numbered (ic_ncpu (x_intr (k_ext k))) (Z.of_nat (length (procs_of es))) (k_cpus k).
Proof.
  induction es as [|en es IH]; intros k H0; cbn [foldl].
  - unfold numbered. apply list_eq. intros i. rewrite list_lookup_imap. destruct (k_cpus k !! i); [|done]. cbn. by rewrite decide_False by lia.
  - rewrite IH; [|destruct en as [a v f r|a r|ty r]; cbn; lia].
    destruct en as [a v f r|a r|ty r]; cbn; [|done..]. fold (procs_of es). unfold numbered. apply list_eq. intros i.
    rewrite !list_lookup_imap, list_lookup_alter. destruct (decide (Z.to_nat (ic_ncpu (x_intr (k_ext k))) = i)) as [<-|Hi].
    all: destruct (k_cpus k !! _) as [c|]; [|done]; cbn; f_equal.
    + rewrite decide_False, decide_True by lia. by rewrite Z2Nat.id.
    + destruct (decide (_ + 1 <= _ < _)); [rewrite decide_True by lia|rewrite decide_False by lia]; done.
Qed.

(** A processor for which the array has no place. *)
Lemma mp_entries_overrun n p e k a v f r :
  p < e → has_bytes (x_mem (k_ext k)) p (Mp.MPPROC :: a :: v :: f :: r) →
  ic_ncpu (x_intr (k_ext k)) = a → a = Z.of_nat (length (k_cpus k)) → Mp.mp_entries (S n) p e k = Fault "cpus[ncpu]".
Proof.
  intros Hp Hb Hn Hc. cbn [Mp.mp_entries]. rewrite decide_True by done. rewrite !has_bytes_cons in Hb. destruct Hb as (Ht & Ha & _).
  erewrite bind_Ret; [|reflexivity]. cbv beta. rewrite decide_True by done. do 2 (erewrite bind_Ret; [|reflexivity]).
  cbv beta. unfold Mp.proc_apicid. rewrite Ha, Hn, bool_decide_false by (by intros []). cbn [when]. do 2 (erewrite bind_Ret; [|reflexivity]).
  cbv beta. assert (∀ k1 B (g : unit → M KX B), k_cpus k1 = k_cpus k → (Mp.set_cpu_id a ≫= g) k1 = Fault "cpus[ncpu]") as Hfault.
  { intros k1 B g Hk1. unfold mbind at 1, M_bind at 1. unfold Mp.set_cpu_id. erewrite bind_Ret; [|reflexivity].
    cbn. by rewrite Hk1, decide_False by lia. }
  destruct (has_flag _ _); cbn [when]; (erewrite bind_Ret; [|reflexivity]); by rewrite Hfault.
Qed.

(** The start of [mpinit] on a machine with a table. *)
Definition found k (conf : Z) : KX :=
  set_k_ext (set_x_intr (set_ic_lapic (Mp.conf_lapicaddr (x_mem (k_ext k)) conf)
    (set_ic_ismp 1 (set_ic_bcpu (Some 0%nat) (x_intr (k_ext k))))) (k_ext k)) k.

Lemma mpinit_found n k conf mp :
  let m := x_mem (k_ext k) in
  Mp.mpconfig m = Some (conf, mp) →
  Mp.mpinit n k =
    (Mp.mp_entries n (conf + Mp.SIZEOF_MPCONF) (conf + Mp.conf_length m conf) ;;
     ismp ← intr_get ic_ismp;
     if decide (ismp = 0) then intr_upd (set_ic_ncpu 1) ;; intr_upd (set_ic_lapic 0) ;; intr_upd (set_ic_ioapicid 0)
     else
       imcrp ← ext_get (λ x, Mp.mp_imcrp (x_mem x) mp);
       when (bool_decide (imcrp ≠ 0)) (outb 0x22 0x70 ;; r ← inb 0x23; outb 0x23 (Z.lor r 1))) (found k conf).
Proof.
  intros m Hf. unfold Mp.mpinit. do 2 (erewrite bind_Ret; [|reflexivity]). cbv beta. cbn [k_ext set_k_ext x_mem set_x_intr].
  fold m. rewrite Hf. do 2 (erewrite bind_Ret; [|reflexivity]). reflexivity.
Qed.
End mp.

(** [mpinit] learns from a configuration table what the firmware wrote into it:
    how many processors there are, which of them is running, where the local APICs
    are and which I/O APIC to use, whatever other entries are in between, and each
    processor of the array has its number.  It reads the table once, and if the
    machine has an interrupt mode register it switches the interrupts to the APICs. *)
Theorem mpinit_spec {PT : Ports} n (k : KX) conf mp es :
  let m := x_mem (k_ext k) in let i := x_intr (k_ext k) in let ps := procs_of es in
  Mp.mpconfig m = Some (conf, mp) → Forall entry_ok es →
  has_bytes m (conf + Mp.SIZEOF_MPCONF) (table_bytes es) →
  Mp.conf_length m conf = Mp.SIZEOF_MPCONF + Z.of_nat (length (table_bytes es)) →
  ic_ncpu i = 0 → ps.*1 = seqZ 0 (Z.of_nat (length ps)) → (length ps <= length (k_cpus k))%nat → (length es <= n)%nat →
  let i' := Intrs (ic_irqmask i) 1 (Z.of_nat (length ps)) (boot_index 0 (Some 0%nat) ps) (Mp.conf_lapicaddr m conf)
    (default (ic_ioapicid i) (last (ioapics_of es))) (ic_ioapic i) (ic_warned i) in
  let k' := set_k_cpus (numbered 0 (Z.of_nat (length ps)) (k_cpus k)) (set_k_ext (set_x_intr i' (k_ext k)) k) in
  Mp.mpinit n k =
    (if decide (Mp.mp_imcrp m mp = 0) then Ret tt k' else (outb 0x22 0x70 ;; r ← inb 0x23; outb 0x23 (Z.lor r 1)) k').
Proof.
  intros m i ps Hf Hok Hb Hl H0 Hseq Hroom Hn i' k'. rewrite (mpinit_found n k conf mp Hf). fold m.
  erewrite bind_Ret.
  2:{ replace n with (length es + (n - length es))%nat by lia. rewrite mp_entries_run with (es := es); try done.
      - destruct (n - length es)%nat; cbn [Mp.mp_entries]; (rewrite decide_False by lia); reflexivity.
      - lia.
      - cbn. unfold i in H0. by rewrite H0.
      - cbn. unfold i in H0. by rewrite H0.
      - cbn. unfold i in H0. rewrite H0. fold ps. lia. }
  assert (foldl learn (found k conf) es = k') as ->.
  { rewrite learned_frame, learned_intr, learned_cpus by (cbn; unfold i in H0; lia). cbn. unfold i in H0. rewrite H0. reflexivity. }
  erewrite bind_Ret; [|reflexivity]. cbv beta. rewrite decide_False by done. erewrite bind_Ret; [|reflexivity]. cbv beta.
  change (x_mem (k_ext k')) with m. case_decide as Hi; [rewrite Hi|rewrite bool_decide_true by done]; done.
Qed.

(** The array of processors has no guard: a table with one processor more than
    the array has places for makes [mpinit] write behind it. *)
Theorem mpinit_overrun {PT : Ports} n (k : KX) conf mp es v f r es' :
  let m := x_mem (k_ext k) in let ncpus := length (k_cpus k) in
  let all := es ++ EProc (Z.of_nat ncpus) v f r :: es' in
  Mp.mpconfig m = Some (conf, mp) → Forall entry_ok all →
  has_bytes m (conf + Mp.SIZEOF_MPCONF) (table_bytes all) →
  Mp.conf_length m conf = Mp.SIZEOF_MPCONF + Z.of_nat (length (table_bytes all)) →
  ic_ncpu (x_intr (k_ext k)) = 0 → (procs_of es).*1 = seqZ 0 (Z.of_nat ncpus) → (length es < n)%nat →
  Mp.mpinit n k = Fault "cpus[ncpu]".
Proof.
  intros m ncpus all Hf Hok Hb Hl H0 Hseq Hn. rewrite (mpinit_found n k conf mp Hf). fold m.
  assert (length (procs_of es) = ncpus) as Hps by (apply (f_equal length) in Hseq; rewrite length_fmap, length_seqZ in Hseq; lia).
  assert (table_bytes all = table_bytes es ++ (Mp.MPPROC :: Z.of_nat ncpus :: v :: f :: r) ++ table_bytes es') as Ht.
  { unfold all, table_bytes. rewrite fmap_app, join_app. done. }
  rewrite Ht in Hb, Hl. rewrite has_bytes_app, !length_app in *. cbn [length] in Hl. destruct Hb as [Hb1 [Hb2 _]%has_bytes_app].
  apply Forall_app in Hok as [Hok1 [Hok2 _]%Forall_cons]. cbn in Hok2.
  replace n with (length es + S (n - length es - 1))%nat by lia.
  unfold mbind at 1, M_bind at 1. rewrite mp_entries_run with (es := es); try done; [|lia|..].
  - rewrite (mp_entries_overrun _ _ _ _ (Z.of_nat ncpus) v f r); [done|lia|by rewrite learned_frame|..].
    + rewrite learned_intr by (cbn; lia). cbn. rewrite H0, Hps. lia.
    + rewrite learned_cpus by (cbn; lia). unfold numbered. by rewrite length_imap.
  - cbn. by rewrite H0.
  - cbn. by rewrite H0, Hps.
  - cbn. rewrite H0, Hps. lia.
Qed.

(** ** A table with an unknown entry

    On a machine where reads of ports give 0 and the cursor stays where it is,
    printing changes nothing but the upper left corner of the screen. *)
Section quiet.
#[local] Existing Instance quiet_ports.
Implicit Types (k : KX).

Definition on_screen (a : Z) : Prop := crt <= a < crt + 162.

Definition prints {A} (m : M KX A) : Prop :=
  ∀ k, cn_panicked (x_cons (k_ext k)) = 0 →
    ∃ a m', m k = Ret a (set_k_ext (set_x_mem m' (k_ext k)) k) ∧ ∀ b, ¬ on_screen b → m' b = x_mem (k_ext k) b.

Lemma prints_ret {A} (a : A) : prints (mret a).
Proof. intros k _. exists a, (x_mem (k_ext k)). split; [|done]. by destruct k as [? ? ? ? ? ? ? ? ? ? ? ? ? ? ? ? []]. Qed.

Lemma prints_bind {A B} (m : M KX A) (f : A → M KX B) : prints m → (∀ a, prints (f a)) → prints (m ≫= f).
Proof.
  intros Hm Hf k Hk. destruct (Hm k Hk) as (a & m1 & E1 & F1). erewrite bind_Ret; [|exact E1].
  destruct (Hf a (set_k_ext (set_x_mem m1 (k_ext k)) k) Hk) as (b & m2 & E2 & F2). exists b, m2. split; [by rewrite E2|].
  intros c Hc. rewrite F2 by done. by apply F1.
Qed.

Lemma prints_get {A B} (f : ext → A) (g : A → M KX B) : (∀ a, prints (g a)) → prints (ext_get f ≫= g).
Proof. intros Hg k. apply (Hg (f (k_ext k))). Qed.

Lemma prints_for_each {A} (f : A → M KX unit) l : (∀ a, prints (f a)) → prints (for_each f l).
Proof. intros Hf. induction l as [|a l IH]; cbn [for_each]; [apply prints_ret|by apply prints_bind]. Qed.

Lemma prints_store pos w : 0 <= pos <= 80 → prints (crt_store pos w).
Proof.
  intros Hp k _. eexists tt, _. split; [reflexivity|]. intros b Hb. unfold on_screen in Hb.
  unfold insert, fn_insert. by rewrite !decide_False by lia.
Qed.

Lemma prints_uartputc c : prints (uartputc c).
Proof.
  unfold uartputc. apply prints_get. intros u. case_decide; [apply prints_ret|]. apply prints_bind; [|intros; apply prints_ret].
  generalize 128%nat. intros n. induction n as [|n IH]; cbn [uart_wait]; [apply prints_ret|]. apply prints_bind; [apply prints_ret|]. by intros r; destruct (has_flag _ _); [apply prints_ret|].
Qed.

Lemma prints_cgaputc c : prints (cgaputc c).
Proof.
  assert (∀ pos, 0 <= pos <= 80 → prints (pos ← cga_scroll pos; outb CRTPORT 14 ;; outb (CRTPORT + 1) (u8 (Z.shiftr pos 8)) ;; outb CRTPORT 15 ;;
    outb (CRTPORT + 1) (u8 pos) ;; crt_store pos (Z.lor 32 0x0700))) as Hrest.
  { intros pos Hp k. unfold cga_scroll. rewrite decide_False by (rewrite Z.quot_div_nonneg by lia; pose proof (Z.div_lt_upper_bound pos 80 24); lia).
    do 5 (erewrite bind_Ret; [|reflexivity]). revert k. by apply (prints_store pos). }
  intros k Hk. unfold cgaputc. do 4 (erewrite bind_Ret; [|reflexivity]). change (Z.lor (Z.shiftl 0 8) 0) with 0.
  unfold cga_advance. case_decide; [|case_decide].
  - erewrite bind_Ret; [|reflexivity]. by apply Hrest.
  - erewrite bind_Ret; [|reflexivity]. by apply Hrest.
  - destruct (prints_store 0 (Z.lor (Z.land c 0xff) 0x0700) ltac:(lia) k Hk) as ([] & m1 & E1 & F1).
    erewrite bind_Ret; [|erewrite bind_Ret; [|exact E1]; reflexivity].
    destruct (Hrest (0 + 1) ltac:(lia) (set_k_ext (set_x_mem m1 (k_ext k)) k) Hk) as (a & m2 & E2 & F2). exists a, m2.
    split; [exact E2|]. intros b Hb. rewrite F2 by done. by apply F1.
Qed.

Lemma prints_consputc c : prints (consputc c).
Proof.
  intros k Hk. unfold consputc. erewrite bind_Ret; [|reflexivity]. cbv beta. rewrite decide_False by (rewrite Hk; by intros []).
  apply prints_bind; [|intros; apply prints_cgaputc|done].
  case_decide; [|apply prints_uartputc]. repeat (apply prints_bind; [apply prints_uartputc|intros _]). apply prints_uartputc.
Qed.

Lemma prints_cprintf_loop str n : ∀ fmt args,
  (length fmt <= n)%nat → (length (filter (λ c, c = ch_percent) fmt) <= length args)%nat → prints (cprintf_loop str fmt args).
Proof.
  induction n as [|n IH]; intros [|c fmt] args Hn Ha; cbn [cprintf_loop length] in *; try apply prints_ret; [lia|].
  rewrite filter_cons in Ha. destruct (decide (c = ch_percent)) as [Hc|Hc].
  2:{ rewrite decide_True by done. apply prints_bind; [apply prints_consputc|]. intros _. apply IH; [lia|done]. }
  rewrite decide_False by (by intros []). destruct fmt as [|d fmt]; [apply prints_ret|]. cbn [length] in *.
  assert (length (filter (λ c, c = ch_percent) fmt) <= length (filter (λ c, c = ch_percent) (d :: fmt)))%nat by (rewrite filter_cons; case_decide; cbn; lia).
  destruct args as [|a args]; cbn [length] in Ha; [lia|].
  assert (∀ (f : Z * list Z → M KX unit), prints (f (a, args)) → prints (next_arg (a :: args) ≫= f)) as Hnext by done.
  assert (prints (cprintf_loop str fmt args)) by (apply IH; lia). assert (prints (cprintf_loop str fmt (a :: args))) by (apply IH; cbn; lia).
  repeat case_decide; try (apply Hnext; cbn); try (apply prints_bind; [|done]);
    try (by apply prints_for_each, prints_consputc); try apply prints_consputc.
  apply prints_bind; [apply prints_consputc|]. intros _. apply prints_bind; [apply prints_consputc|done].
Qed.

(** An unknown entry is announced again and again. *)
Lemma mp_entries_stuck n : ∀ p e k,
  let ty := x_mem (k_ext k) p in
  p < e → ¬ on_screen p → ¬ (0 <= ty <= 4) → cn_panicked (x_cons (k_ext k)) = 0 → cn_locking (x_cons (k_ext k)) = 0 →
  ∃ k', Mp.mp_entries n p e k = Blocked k'.
Proof.
  induction n as [|n IH]; intros p e k ty Hp Hs Hty Hpan Hlock; cbn [Mp.mp_entries]; rewrite decide_True by done; [by eexists|].
  erewrite bind_Ret; [|reflexivity]. cbv beta. fold ty. unfold Mp.MPPROC, Mp.MPIOAPIC, Mp.MPBUS, Mp.MPIOINTR, Mp.MPLINTR.
  rewrite !decide_False by lia.
  destruct (prints_cprintf_loop (λ _, []) 100 (chars "mpinit: unknown config type %x" ++ [ch_newline]) [ty]
    ltac:(apply Nat.leb_le; by vm_compute) ltac:(apply Nat.leb_le; by vm_compute) k Hpan) as ([] & m' & E & F).
  erewrite bind_Ret.
  2:{ unfold cprintf. erewrite bind_Ret; [|reflexivity]. cbv beta. rewrite Hlock. cbn [when bool_decide decide].
      erewrite bind_Ret; [|reflexivity]. erewrite bind_Ret; [|exact E]. reflexivity. }
  erewrite bind_Ret; [|reflexivity]. apply IH; try done. cbn. by rewrite F.
Qed.
End quiet.

(** C39. The default case of the loop over the table does not step over the entry: one
    entry of an unknown type, and [mpinit] prints its message for ever, however
    many rounds it is given. *)
Theorem mpinit_unknown_entry n (k : KX) conf mp es ty :
  let m := x_mem (k_ext k) in let len := Mp.SIZEOF_MPCONF + Z.of_nat (length (table_bytes es)) in
  Mp.mpconfig m = Some (conf, mp) → Forall entry_ok es →
  has_bytes m (conf + Mp.SIZEOF_MPCONF) (table_bytes es ++ [ty]) → len < Mp.conf_length m conf → ¬ (0 <= ty <= 4) → ¬ on_screen (conf + len) →
  ic_ncpu (x_intr (k_ext k)) = 0 → (procs_of es).*1 = seqZ 0 (Z.of_nat (length (procs_of es))) →
  (length (procs_of es) <= length (k_cpus k))%nat → cn_panicked (x_cons (k_ext k)) = 0 → cn_locking (x_cons (k_ext k)) = 0 →
  ∃ k', Mp.mpinit (PT := quiet_ports) (length es + n) k = Blocked k'.
Proof.
  intros m len Hf Hok [Hb Hty]%has_bytes_app Hlen Hun Hs H0 Hseq Hroom Hpan Hlock. apply has_bytes_cons in Hty as [Hty _].
  rewrite (mpinit_found _ k conf mp Hf). fold m. unfold mbind at 1, M_bind at 1.
  rewrite mp_entries_run with (es := es); try done; [|unfold len in Hlen; lia|cbn; by rewrite H0..|cbn; lia].
  set (k1 := foldl learn (found k conf) es). assert (x_mem (k_ext k1) = m ∧ x_cons (k_ext k1) = x_cons (k_ext k)) as [Hm Hc].
  { unfold k1. by rewrite learned_frame. }
  destruct (mp_entries_stuck n (conf + Mp.SIZEOF_MPCONF + Z.of_nat (length (table_bytes es))) (conf + Mp.conf_length m conf) k1) as (k' & E).
  - unfold len in Hlen. lia.
  - by rewrite <-Z.add_assoc.
  - by rewrite Hm, Hty.
  - by rewrite Hc.
  - by rewrite Hc.
  - exists k'. by rewrite E.
Qed.

(** ** Examples

    A firmware that puts its structures at the end of the lower memory, around the
    bytes of a table. *)
Definition checksum (l : list Z) : Z := u8 (- foldr Z.add 0 l).
Definition firmware (table : list Z) : mem :=
  let len := 44 + Z.of_nat (length table) in
  let conf ck := chars "PCMP" ++ [len mod 256; len / 256; 4; ck] ++ replicate 28 0 ++ [0; 0; 0xe0; 0xfe; 0; 0; 0; 0] ++ table in
  let mp ck := chars "_MP_" ++ [0; 0xfd; 9; 0; 1; 4; ck; 0; 0; 0; 0; 0] in
  array_at (p2v 0x40e) [0xc0; 0x9f] (array_at (p2v 0x9fc00) (mp (checksum (mp 0)))
    (array_at (p2v 0x9fd00) (conf (checksum (conf 0))) (λ _, 0))).

Definition a_proc (id flags : Z) : entry := EProc id 20 flags (replicate 16 0).
Definition an_ioapic (id : Z) : entry := EIoapic id (replicate 6 0).
Definition a_bus : entry := EOther Mp.MPBUS (replicate 7 0).

(** Three processors, the second of which is running. *)
Definition three_cpus : list entry := [a_proc 0 1; a_bus; a_proc 1 3; an_ioapic 9; a_proc 2 1].

Definition mp_boot (table : list Z) : KX := boot_core NCPU (ext0 (firmware table)).

Lemma mpinit_spec_witness :
  ∃ k', Mp.mpinit (PT := quiet_ports) 5 (mp_boot (table_bytes three_cpus)) = Ret tt k' ∧
    x_intr (k_ext k') = Intrs 0xFFFB 1 3 (Some 1%nat) 0xFEE00000 9 0 0 ∧ c_id <$> k_cpus k' = seqZ 0 8.
Proof.
  eexists. split; [|split].
  - apply (mpinit_spec (PT := quiet_ports) 5 (mp_boot (table_bytes three_cpus)) (p2v 0x9fd00) (p2v 0x9fc00) three_cpus).
    + by vm_compute.
    + repeat constructor.
    + by vm_compute.
    + by vm_compute.
    + by vm_compute.
    + by vm_compute.
    + apply Nat.leb_le. by vm_compute.
    + done.
  - by vm_compute.
  - by vm_compute.
Defined.

Lemma mpinit_overrun_witness :
  let es := (λ i, a_proc i 1) <$> seqZ 0 8 in
  Mp.mpinit (PT := quiet_ports) 9 (mp_boot (table_bytes (es ++ [a_proc 8 1]))) = Fault "cpus[ncpu]".
Proof.
  intros es. apply (mpinit_overrun (PT := quiet_ports) 9 (mp_boot (table_bytes (es ++ [a_proc 8 1]))) (p2v 0x9fd00) (p2v 0x9fc00) es 20 1 (replicate 16 0) []).
  - by vm_compute.
  - repeat constructor.
  - by vm_compute.
  - by vm_compute.
  - by vm_compute.
  - by vm_compute.
  - apply Nat.leb_le. by vm_compute.
Defined.

Lemma mpinit_unknown_entry_witness :
  ∃ k', Mp.mpinit (PT := quiet_ports) (1 + 1000) (mp_boot (table_bytes [a_proc 0 3] ++ [128; 0; 0; 0; 0; 0; 0; 0])) = Blocked k'.
Proof.
  apply (mpinit_unknown_entry 1000 (mp_boot (table_bytes [a_proc 0 3] ++ [128; 0; 0; 0; 0; 0; 0; 0])) (p2v 0x9fd00) (p2v 0x9fc00) [a_proc 0 3] 128).
  - by vm_compute.
  - repeat constructor.
  - by vm_compute.
  - by vm_compute.
  - lia.
  - vm_compute. intros []. by auto.
  - done.
  - by vm_compute.
  - apply Nat.leb_le. by vm_compute.
  - done.
  - done.
Defined.

(** ** The chip of ioapic.c

    It has a register that selects one of its registers, and shows the selected one
    at another address.  A line is delivered unless it is masked, at the vector in
    the lower register of its pair, to the processor in the upper one. *)
Class IoApicOk {PT : Ports} (sel : gmap (Z * Z) (list Z) → Z) (regs : gmap (Z * Z) (list Z) → Z → Z) := {
  io_select v (k : KX) : 0 <= v < 256 →
    ∃ d, mmio_write IOAPIC v k = Ret tt (set_k_ext (set_x_disk d (k_ext k)) k) ∧ sel d = v ∧
      ∀ r, regs d r = regs (x_disk (k_ext k)) r;
  io_store v (k : KX) : REG_TABLE <= sel (x_disk (k_ext k)) →
    ∃ d, mmio_write (IOAPIC + 16) v k = Ret tt (set_k_ext (set_x_disk d (k_ext k)) k) ∧ sel d = sel (x_disk (k_ext k)) ∧
      ∀ r, regs d r = if decide (r = sel d) then v else regs (x_disk (k_ext k)) r;
  io_load (k : KX) : mmio_read (IOAPIC + 16) k = Ret (regs (x_disk (k_ext k)) (sel (x_disk (k_ext k)))) k
}.

Definition io_route (regs : Z → Z) (irq : Z) : option (Z * Z) :=
  let lo := regs (REG_TABLE + 2 * irq) in
  if Z.testbit lo 16 then None else Some (lo mod 256, Z.shiftr (regs (REG_TABLE + 2 * irq + 1)) 24).

Section ioapic_ok.
Context {PT : Ports} {sel : gmap (Z * Z) (list Z) → Z} {regs : gmap (Z * Z) (list Z) → Z → Z} {IO : IoApicOk sel regs}.
Implicit Types (k : KX) (d : gmap (Z * Z) (list Z)).

(** [k] with another state of the devices. *)
Definition on_disk d k : KX := set_k_ext (set_x_disk d (k_ext k)) k.
Definition present k : Prop := ic_ismp (x_intr (k_ext k)) ≠ 0 ∧ ic_ioapic (x_intr (k_ext k)) = IOAPIC.

Lemma ioapicread_ok reg k :
  present k → 0 <= reg < 256 →
  ∃ d, ioapicread reg k = Ret (regs (x_disk (k_ext k)) reg) (on_disk d k) ∧ ∀ r, regs d r = regs (x_disk (k_ext k)) r.
Proof.
  intros [_ Ha] Hr. unfold ioapicread. erewrite bind_Ret; [|reflexivity]. cbv beta. rewrite Ha. unfold u32. rewrite Z.mod_small by lia.
  destruct (io_select reg k Hr) as (d & E & Hs & Hd). erewrite bind_Ret; [|exact E]. exists d. split; [|done].
  rewrite io_load. cbn. by rewrite Hs, Hd.
Qed.

Lemma ioapicwrite_ok reg v k :
  present k → REG_TABLE <= reg < 256 →
  ∃ d, ioapicwrite reg v k = Ret tt (on_disk d k) ∧ ∀ r, regs d r = if decide (r = reg) then v else regs (x_disk (k_ext k)) r.
Proof.
  intros [_ Ha] Hr. unfold ioapicwrite. erewrite bind_Ret; [|reflexivity]. cbv beta. rewrite Ha. unfold u32.
  rewrite Z.mod_small by (unfold REG_TABLE in *; lia).
  destruct (io_select reg k) as (d & E & Hs & Hd); [unfold REG_TABLE in *; lia|]. erewrite bind_Ret; [|exact E].
  destruct (io_store v (on_disk d k)) as (d' & E' & Hs' & Hd'); [cbn; lia|]. cbn in Hs', Hd'.
  exists d'. split; [exact E'|]. intros r. rewrite Hd', Hs', Hs, Hd. done.
Qed.

(** Both registers of a line. *)
Lemma ioapicwrite_pair i lo hi k :
  present k → 0 <= i < 120 →
  ∃ d, (ioapicwrite (REG_TABLE + 2 * i) lo ;; ioapicwrite (REG_TABLE + 2 * i + 1) hi) k = Ret tt (on_disk d k) ∧
    ∀ j, (∀ r, r < REG_TABLE → regs d r = regs (x_disk (k_ext k)) r) ∧
      io_route (regs d) j = if decide (j = i) then (if Z.testbit lo 16 then None else Some (lo mod 256, Z.shiftr hi 24))
        else io_route (regs (x_disk (k_ext k))) j.
Proof.
  intros Hk Hi. destruct (ioapicwrite_ok (REG_TABLE + 2 * i) lo k Hk) as (d & E & Hd); [unfold REG_TABLE; lia|].
  erewrite bind_Ret; [|exact E]. destruct (ioapicwrite_ok (REG_TABLE + 2 * i + 1) hi (on_disk d k) Hk) as (d' & E' & Hd'); [unfold REG_TABLE; lia|].
  exists d'. split; [exact E'|]. intros j. cbn in Hd'. split; [intros r Hr; rewrite Hd', Hd; by rewrite !decide_False by lia|].
  unfold io_route. rewrite !Hd', !Hd. destruct (decide (j = i)) as [->|Hj].
  - by rewrite (decide_False (P := _ + 2 * i = _ + 2 * i + 1)), !decide_True by lia.
  - by rewrite !decide_False by lia.
Qed.

Lemma ioapicinit_loop n : ∀ lo k,
  present k → 0 <= lo → lo + Z.of_nat n <= 120 →
  ∃ d, for_each (λ i, ioapicwrite (REG_TABLE + 2 * i) (Z.lor INT_DISABLED (T_IRQ0 + i)) ;; ioapicwrite (REG_TABLE + 2 * i + 1) 0)
      (seqZ lo (Z.of_nat n)) k = Ret tt (on_disk d k) ∧
    ∀ j, io_route (regs d) j = if decide (lo <= j < lo + Z.of_nat n) then None else io_route (regs (x_disk (k_ext k))) j.
Proof.
  induction n as [|n IH]; intros lo k Hk Hlo Hn.
  { exists (x_disk (k_ext k)). split; [|intros j; by rewrite decide_False by lia]. cbn. by destruct k as [? ? ? ? ? ? ? ? ? ? ? ? ? ? ? ? []]. }
  rewrite seqZ_cons by lia. cbn [for_each].
  destruct (ioapicwrite_pair lo (Z.lor INT_DISABLED (T_IRQ0 + lo)) 0 k Hk ltac:(lia)) as (d & E & Hd). erewrite bind_Ret; [|exact E].
  replace (Z.pred (Z.of_nat (S n))) with (Z.of_nat n) by lia.
  destruct (IH (Z.succ lo) (on_disk d k) Hk ltac:(lia) ltac:(lia)) as (d' & E' & Hd'). exists d'. split; [exact E'|].
  intros j. rewrite Hd'. cbn. destruct (Hd j) as [_ ->]. rewrite Z.lor_spec. change (Z.testbit INT_DISABLED 16) with true. cbn [orb].
  repeat case_decide; done || lia.
Qed.

Lemma ioapicenable_ok irq cpu k :
  present k → 0 <= irq < 120 → 0 <= cpu < 256 →
  ∃ d, ioapicenable irq cpu k = Ret tt (on_disk d k) ∧
    ∀ j, io_route (regs d) j = if decide (j = irq) then Some (T_IRQ0 + irq, cpu) else io_route (regs (x_disk (k_ext k))) j.
Proof.
  intros Hk Hi Hc. unfold ioapicenable. erewrite bind_Ret; [|reflexivity]. cbv beta. rewrite decide_False by apply Hk.
  destruct (ioapicwrite_pair irq (u32 (T_IRQ0 + irq)) (u32 (Z.shiftl cpu 24)) k Hk Hi) as (d & E & Hd). exists d. split; [exact E|].
  intros j. destruct (Hd j) as [_ ->]. unfold u32, T_IRQ0. rewrite Z.shiftl_mul_pow2, !Z.mod_small by lia.
  rewrite Z.shiftr_div_pow2, Z.div_mul, Z.bits_above_log2 by (try apply Z.log2_lt_pow2; lia).
  case_decide; [|done]. by subst.
Qed.

Lemma ioapicenables_ok reqs : ∀ k,
  present k → Forall (λ q, 0 <= q.1 < 120 ∧ 0 <= q.2 < 256) reqs →
  ∃ d, for_each (λ q, ioapicenable q.1 q.2) reqs k = Ret tt (on_disk d k) ∧
    ∀ j, io_route (regs d) j =
      match (list_to_map (reverse reqs) : gmap Z Z) !! j with Some c => Some (T_IRQ0 + j, c) | None => io_route (regs (x_disk (k_ext k))) j end.
Proof.
  induction reqs as [|[irq cpu] reqs IH]; intros k Hk Hall; cbn [for_each].
  { exists (x_disk (k_ext k)). split; [|done]. by destruct k as [? ? ? ? ? ? ? ? ? ? ? ? ? ? ? ? []]. }
  apply Forall_cons in Hall as [[Hi Hc] Hall]. destruct (ioapicenable_ok irq cpu k Hk Hi Hc) as (d & E & Hd). erewrite bind_Ret; [|exact E].
  destruct (IH (on_disk d k) Hk Hall) as (d' & E' & Hd'). exists d'. split; [exact E'|]. intros j. rewrite Hd'.
  rewrite reverse_cons, list_to_map_app, lookup_union. cbn [k_ext set_k_ext on_disk x_disk set_x_disk]. rewrite Hd. cbn [list_to_map foldr]. destruct (list_to_map (reverse reqs) !! j) as [c|] eqn:Ej; rewrite ?Ej.
  - by rewrite union_Some_l.
  - rewrite option_union_left_id. case_decide as Hj; [subst; by rewrite lookup_insert_eq|by rewrite lookup_insert_ne].
Qed.
End ioapic_ok.

(** On a machine with several processors, once [ioapicinit] has run exactly the
    lines passed to [ioapicenable] are delivered, each at the vector [T_IRQ0 + irq]
    that trap.c dispatches on and to the processor it was last enabled for. *)
Theorem ioapicenable_routes {PT : Ports} (sel : gmap (Z * Z) (list Z) → Z) (regs : gmap (Z * Z) (list Z) → Z → Z) {IO : IoApicOk sel regs} reqs (k : KX) :
  let r := regs (x_disk (k_ext k)) in
  let maxintr := Z.land (Z.shiftr (r REG_VER) 16) 0xFF in
  ic_ismp (x_intr (k_ext k)) ≠ 0 → Z.shiftr (r REG_ID) 24 = ic_ioapicid (x_intr (k_ext k)) → maxintr < 120 →
  Forall (λ q, 0 <= q.1 <= maxintr ∧ 0 <= q.2 < 256) reqs →
  ∃ d, (ioapicinit ;; for_each (λ q, ioapicenable q.1 q.2) reqs) k =
      Ret tt (set_k_ext (set_x_intr (set_ic_ioapic IOAPIC (x_intr (k_ext k))) (set_x_disk d (k_ext k))) k) ∧
    ∀ irq, 0 <= irq <= maxintr →
      io_route (regs d) irq = (λ c, (T_IRQ0 + irq, c)) <$> (list_to_map (reverse reqs) : gmap Z Z) !! irq.
Proof.
  intros r maxintr Hmp Hid Hmax Hall. assert (0 <= maxintr) as H0 by (apply Z.land_nonneg; lia).
  set (k1 := set_k_ext (set_x_intr (set_ic_ioapic IOAPIC (x_intr (k_ext k))) (k_ext k)) k). assert (present k1) as Hk1 by done.
  destruct (ioapicread_ok REG_VER k1 Hk1) as (d1 & E1 & R1); [done|].
  destruct (ioapicread_ok REG_ID (on_disk d1 k1) Hk1) as (d2 & E2 & R2); [done|].
  destruct (ioapicinit_loop (Z.to_nat (maxintr + 1)) 0 (on_disk d2 k1) Hk1) as (d3 & E3 & R3); [lia..|].
  rewrite Z2Nat.id in E3, R3 by lia. destruct (ioapicenables_ok reqs (on_disk d3 k1) Hk1) as (d4 & E4 & R4).
  { eapply Forall_impl; [exact Hall|]. intros [i c]. cbn. lia. }
  exists d4. split.
  - erewrite bind_Ret; [exact E4|]. unfold ioapicinit. erewrite bind_Ret; [|reflexivity]. cbv beta. rewrite decide_False by done.
    erewrite bind_Ret; [|reflexivity]. erewrite bind_Ret; [|exact E1]. erewrite bind_Ret; [|exact E2]. erewrite bind_Ret; [|reflexivity].
    cbv beta zeta. cbn [on_disk k_ext set_k_ext x_disk set_x_disk]. rewrite R1. change (x_disk (k_ext k1)) with (x_disk (k_ext k)). fold r.
    rewrite bool_decide_false by (rewrite Hid; by intros []). cbn [when]. erewrite bind_Ret; [|reflexivity]. exact E3.
  - intros irq Hi. rewrite R4. cbn. rewrite R3. rewrite decide_True by lia. by destruct (_ !! irq).
Qed.

(** A chip with 24 lines and number 9. *)
Definition kept_sel (d : gmap (Z * Z) (list Z)) : Z := default 0 (head (default [] (d !! (-4, 0)))).
Definition kept_regs (d : gmap (Z * Z) (list Z)) (r : Z) : Z := default 0 (head (default [] (d !! (-3, r)))).
Definition ioapic_ports : Ports := {|
  inb := λ _, mret 0;
  outb := λ _ _, mret tt;
  insl := λ _, mret [];
  outsl := λ _ _, mret tt;
  mmio_read := λ a, ext_get (λ x, kept_regs (x_disk x) (kept_sel (x_disk x)));
  mmio_write := λ a v, upd_ext (λ x,
    set_x_disk (<[(if decide (a = IOAPIC) then (-4, 0) else (-3, kept_sel (x_disk x))) := [v]]> (x_disk x)) x)
|}.

Lemma ioapic_ports_ok : IoApicOk (PT := ioapic_ports) kept_sel kept_regs.
Proof.
  split; [intros v k Hv|intros v k Hs|done]; (eexists; split; [reflexivity|]); [rewrite decide_True by done|rewrite decide_False by done].
  - split; [unfold kept_sel; by rewrite lookup_insert_eq|]. intros r. unfold kept_regs. by rewrite lookup_insert_ne.
  - assert (∀ l, kept_sel (<[(-3, kept_sel (x_disk (k_ext k))) := l]> (x_disk (k_ext k))) = kept_sel (x_disk (k_ext k))) as Hsel
      by (intros l; unfold kept_sel at 1; by rewrite lookup_insert_ne).
    rewrite Hsel. split; [done|]. intros r. unfold kept_regs. case_decide as Hr; [subst; by rewrite lookup_insert_eq|].
    rewrite lookup_insert_ne; [done|]. intros [= ]. by subst.
Qed.

Definition ioapic_machine : ext :=
  set_x_intr (Intrs 0xFFFB 1 2 (Some 0%nat) 0xFEE00000 9 0 0)
    (set_x_disk (<[(-3, REG_VER) := [0x170011]]> {[(-3, REG_ID) := [0x9000000]]}) (ext0 (λ _, 0))).

(** The keyboard at processor 0, the disk at the last processor. *)
Lemma ioapicenable_routes_witness :
  let k := boot_core 2 ioapic_machine in
  ∃ d, (ioapicinit (PT := ioapic_ports) ;; for_each (λ q, ioapicenable (PT := ioapic_ports) q.1 q.2) [(IRQ_KBD, 0); (IRQ_IDE, 1)]) k =
      Ret tt (set_k_ext (set_x_intr (set_ic_ioapic IOAPIC (x_intr (k_ext k))) (set_x_disk d (k_ext k))) k) ∧
    io_route (kept_regs d) IRQ_IDE = Some (46, 1) ∧ io_route (kept_regs d) IRQ_TIMER = None.
Proof.
  intros k. destruct (ioapicenable_routes (PT := ioapic_ports) kept_sel kept_regs (IO := ioapic_ports_ok) [(IRQ_KBD, 0); (IRQ_IDE, 1)] k) as (d & E & H).
  - done.
  - by vm_compute.
  - by vm_compute.
  - repeat constructor; by vm_compute.
  - exists d. split; [exact E|]. clear E. split; [rewrite (H IRQ_IDE)|rewrite (H IRQ_TIMER)]; first [reflexivity|by vm_compute].
Defined.

(** ** The clock

    The registers of the clock chip, selected through one port and read through
    another, while they stand still. *)
Class ClockOk {PT : Ports} (sel : gmap (Z * Z) (list Z) → Z) (cmos : Z → Z) := {
  clock_select v (k : KX) :
    ∃ d, outb Lapic.CMOS_PORT v k = Ret tt (set_k_ext (set_x_disk d (k_ext k)) k) ∧ sel d = v;
  clock_read (k : KX) : inb Lapic.CMOS_RETURN k = Ret (cmos (sel (x_disk (k_ext k)))) k
}.

(** Binary coded decimal. *)
Definition bcd (x : Z) : Z := 16 * (x / 10) + x mod 10.

Lemma CONV_bcd x : 0 <= x < 100 → Lapic.CONV (bcd x) = x.
Proof.
  intros Hx. unfold Lapic.CONV, bcd. change 0xf with (Z.ones 4). rewrite Z.land_ones, Z.shiftr_div_pow2 by lia. change (2 ^ 4) with 16.
  pose proof (Z.div_mod x 10 ltac:(lia)). pose proof (Z.mod_pos_bound x 10 ltac:(lia)).
  replace (16 * (x / 10) + x mod 10) with (x mod 10 + x / 10 * 16) by lia.
  rewrite Z.div_add, Z.mod_add, Z.div_small, (Z.mod_small (x mod 10)) by lia. unfold u32. rewrite Z.mod_small; lia.
Qed.

Section clock.
Context {PT : Ports} {sel : gmap (Z * Z) (list Z) → Z} {cmos : Z → Z} {CK : ClockOk sel cmos}.
Implicit Types (k : KX).

(** What a routine returns, whatever it does to the devices. *)
Definition gives {A} (m : M KX A) (a : A) : Prop := ∀ k, ∃ d, m k = Ret a (on_disk d k).

Lemma gives_ret {A} (a : A) : gives (mret a) a.
Proof. intros k. exists (x_disk (k_ext k)). by destruct k as [? ? ? ? ? ? ? ? ? ? ? ? ? ? ? ? []]. Qed.

Lemma gives_bind {A B} (m : M KX A) (f : A → M KX B) a b : gives m a → gives (f a) b → gives (m ≫= f) b.
Proof.
  intros Hm Hf k. destruct (Hm k) as (d & E). destruct (Hf (on_disk d k)) as (d' & E'). exists d'. erewrite bind_Ret; [|exact E]. by rewrite E'.
Qed.

Lemma gives_cmos_read reg : 0 <= reg < 256 → gives (Lapic.cmos_read reg) (cmos reg).
Proof.
  intros Hr k. unfold Lapic.cmos_read, u8. rewrite Z.mod_small by lia. destruct (clock_select reg k) as (d & E & Hs).
  exists d. erewrite bind_Ret; [|exact E]. erewrite bind_Ret; [|reflexivity]. rewrite clock_read. cbn. by rewrite Hs.
Qed.

Definition clock_date : Lapic.rtcdate :=
  Lapic.RtcDate (cmos Lapic.SECS) (cmos Lapic.MINS) (cmos Lapic.HOURS) (cmos Lapic.DAY) (cmos Lapic.MONTH) (cmos Lapic.YEAR).

Lemma gives_fill : gives Lapic.fill_rtcdate clock_date.
Proof. unfold Lapic.fill_rtcdate. do 6 (eapply gives_bind; [by apply gives_cmos_read|]). apply gives_ret. Qed.

Lemma gives_loop n : has_flag (cmos Lapic.CMOS_STATA) Lapic.CMOS_UIP = false → gives (Lapic.cmos_loop n) clock_date.
Proof.
  intros Hu. destruct n; cbn [Lapic.cmos_loop]; (eapply gives_bind; [apply gives_fill|]); (eapply gives_bind; [by apply gives_cmos_read|]);
    rewrite Hu; (eapply gives_bind; [apply gives_fill|]); rewrite decide_True by done; apply gives_ret.
Qed.
End clock.

(** [cmostime] gives the date the clock shows, in binary or in binary coded
    decimal as the status register says, at the first try when no update is in
    progress. *)
Lemma cmostime_reads {PT : Ports} (sel : gmap (Z * Z) (list Z) → Z) (cmos : Z → Z) {CK : ClockOk sel cmos}
    n (s mi h d mo y : Z) (k : KX) :
  let code := if has_flag (cmos Lapic.CMOS_STATB) 4 then id else bcd in
  has_flag (cmos Lapic.CMOS_STATA) Lapic.CMOS_UIP = false →
  Forall (λ x, 0 <= x < 100) [s; mi; h; d; mo; y] →
  cmos <$> [Lapic.SECS; Lapic.MINS; Lapic.HOURS; Lapic.DAY; Lapic.MONTH; Lapic.YEAR] = code <$> [s; mi; h; d; mo; y] →
  ∃ disk, Lapic.cmostime n k = Ret (Lapic.RtcDate s mi h d mo (2000 + y)) (set_k_ext (set_x_disk disk (k_ext k)) k).
Proof.
  intros code Hu Hr Hc. repeat (apply Forall_cons in Hr as [? Hr]). injection Hc as E1 E2 E3 E4 E5 E6.
  revert k. change (gives (Lapic.cmostime n) (Lapic.RtcDate s mi h d mo (2000 + y))). unfold Lapic.cmostime.
  eapply gives_bind; [by apply (gives_cmos_read (cmos := cmos))|]. change (Z.shiftl 1 2) with 4.
  eapply gives_bind; [by apply (gives_loop (cmos := cmos))|]. unfold clock_date. rewrite E1, E2, E3, E4, E5, E6. unfold code.
  assert (u32 (y + 2000) = 2000 + y) as Hy by (unfold u32; rewrite Z.mod_small; lia).
  destruct (has_flag (cmos Lapic.CMOS_STATB) 4); cbn [negb id Lapic.second Lapic.minute Lapic.hour Lapic.day Lapic.month Lapic.year];
    rewrite ?CONV_bcd by done; rewrite Hy; apply gives_ret.
Qed.
