(* ===== verification/Kernel.v ===== *)
(** * The kernel put together (main.c)

    The process subsystem, the system calls and the trap handler are written
    against interfaces: [Services], [UserMem], [Devices] and the file calls.  Here
    the routines of the other files are their implementation, and [main] starts
    the whole.  The services are shown to meet what the scheduling invariant
    assumes of them, so that it holds of this kernel. *)

From stdpp Require Import base list gmap strings.
From Stdlib Require Import ZArith Lia.
From S2P Require Import Prelude KState Spinlock CString Proc ProcForms ProcInv KMachine Syscall Trap KExt Pic Kalloc KRun Ide Bio Log Cprintf Vm Fs File Sysfile Console Apic.

Section kernel.
Context {PT : Ports}.
Context (flag : schedflag) (swtch : M KX unit) (iderw : nat → M KX unit) (fuel : nat).
(** Addresses the linker and the assembly files define: the end of the kernel and
    of its text, the code of the first process, the return paths of traps. *)
Context (end_ data_ init_start init_size trapret forkret : Z).
Context (cpu_addr ts_addr : nat → Z).
(** The handler of the disk driver, the messages of trap.c and syscall.c, and the
    word of memory [procdump] reads. *)
Context (ideintr report : M KX unit) (word : Z → Z).

Definition kernel_drivers : Drivers := console_driver flag swtch iderw fuel.
#[local] Existing Instance kernel_drivers.

(** A null pointer to an inode is not caught before it is used. *)
Definition kernel_services : Services ext := {|
  svc_kalloc := kalloc;
  svc_kfree := kfree end_;
  svc_setupkvm := setupkvm data_;
  svc_inituvm := λ pgdir, inituvm pgdir init_start init_size;
  svc_copyuvm := copyuvm end_ data_;
  svc_freevm := freevm end_;
  svc_allocuvm := allocuvm end_;
  svc_deallocuvm := deallocuvm end_;
  svc_switchuvm := switchuvm ts_addr;
  svc_switchkvm := switchkvm;
  svc_filedup := filedup;
  svc_fileclose := fileclose flag swtch iderw fuel end_;
  svc_idup := λ ip, match ip with Some ip => i ← idup ip; mret (Some i) | None => fault "idup" end;
  svc_iput := λ ip, match ip with Some ip => iput flag swtch iderw fuel ip | None => fault "iput" end;
  svc_begin_op := begin_op swtch fuel;
  svc_end_op := end_op flag swtch iderw fuel;
  svc_namei_root := namei flag swtch iderw fuel (chars "/");
  svc_initlog := initlog flag swtch iderw fuel;
  svc_trapret := trapret;
  svc_forkret := forkret
|}.

(** The lines of [procdump]. *)
Definition dump_print (l : Z * string * list Z * list Z) : M KX unit :=
  let '(pid, state, name, pcs) := l in
  cprintf (λ a, if decide (a = 1) then chars state else name) (Some (chars "%d %s %s")) [pid; 1; 2] ;;
  for_each (λ pc, cprintf (λ _, []) (Some (chars " %p")) [pc]) pcs ;;
  cprintf (λ _, []) (Some [ch_newline]) [].
Definition print_procs : M KX unit :=
  ls ← gets (procdump word);
  for_each dump_print ls.

Definition kernel_devices : Devices ext := {|
  dev_cprintf := report;
  dev_lapiceoi := Lapic.lapiceoi;
  dev_ideintr := ideintr;
  dev_kbdintr := kbdintr flag fuel print_procs;
  dev_uartintr := uartintr flag fuel print_procs
|}.

Definition kernel_filecall : Z → M KX Z := filecall (UM := mmu) flag swtch iderw fuel end_ data_ ts_addr.

Definition kernel_trap : Z → M KX unit :=
  trap (SV := kernel_services) (UM := mmu) (DV := kernel_devices) flag swtch kernel_filecall fuel.

(** ** Starting

    [ideinit] is that of the disk driver the kernel is linked with, and [vectors] are
    the entry points of traps. *)
Context (ideinit : M KX unit) (vectors : Z → Z).
(** The start code of the other processors, where they enter, the page directory
    they start with, and where [startothers] calls [cpunum]. *)
Context (entryother_start entryother_size mpenter_addr entrypgdir caller : Z).

(** Loading the register of the interrupt descriptor table is not part of the state;
    [n] turns of the scheduler's loop are run. *)
Definition mpmain (n : nat) : M KX unit :=
  id ← gets (λ k, c_id (this_cpu k));
  cprintf (λ _, []) (Some (chars "cpu%d: starting" ++ [ch_newline])) [id] ;;
  modify (upd_cpu (set_c_started 1)) ;;
  scheduler (SV := kernel_services) flag swtch n.

Definition mpenter (n : nat) : M KX unit :=
  switchkvm ;;
  seginit cpu_addr ;;
  Lapic.lapicinit fuel ;;
  mpmain n.

(** [while(c->started == 0);], at most [n] times. *)
Fixpoint wait_started (n : nat) (c : nat) : M KX unit :=
  s ← gets (λ k, c_started (k_cpus k !!! c));
  if decide (s = 0) then match n with O => block | S n' => wait_started n' c end else mret tt.

Definition start_cpu (code : Z) (c : nat) : M KX unit :=
  me ← Lapic.cpunum caller;
  if decide (Z.of_nat c = me) then mret tt else
  stack ← kalloc;
  upd_mem (store32 (code - 4) (u32 (stack + KSTACKSIZE))) ;;
  upd_mem (store32 (code - 8) mpenter_addr) ;;
  upd_mem (store32 (code - 12) (v2p entrypgdir)) ;;
  id ← gets (λ k, c_id (k_cpus k !!! c));
  Lapic.lapicstartap id (v2p code) ;;
  wait_started fuel c.

Definition startothers : M KX unit :=
  let code := p2v 0x7000 in
  upd_mem (memmove code entryother_start entryother_size) ;;
  ncpu ← intr_get ic_ncpu;
  for_each (start_cpu code) (seq 0 (Z.to_nat ncpu)).

Definition main (n : nat) : M KX unit :=
  kinit1 end_ end_ (p2v (4 * 1024 * 1024)) ;;
  kvmalloc data_ ;;
  Mp.mpinit fuel ;;
  Lapic.lapicinit fuel ;;
  seginit cpu_addr ;;
  id ← gets (λ k, c_id (this_cpu k));
  cprintf (λ _, []) (Some ([ch_newline] ++ chars "cpu%d: starting xv6" ++ [ch_newline; ch_newline])) [id] ;;
  picinit ;;
  ioapicinit ;;
  consoleinit ;;
  uartinit ;;
  pinit ;;
  tvinit vectors ;;
  binit ;;
  fileinit ;;
  iinit ;;
  ideinit ;;
  ismp ← intr_get ic_ismp;
  when (bool_decide (ismp = 0)) timerinit ;;
  startothers ;;
  kinit2 end_ (p2v (4 * 1024 * 1024)) (p2v PHYSTOP) ;;
  userinit (SV := kernel_services) flag ;;
  mpmain n.
End kernel.

(** ** The services are harmless

    A routine that returns and has changed nothing but the component state and,
    at most, the saved interrupt flag of its processor. *)

Create HintDb harmless.

Section harmless.
Implicit Types (k : KX).

Lemma ext_change_trans k1 k2 k3 : ext_change k1 k2 → ext_change k2 k3 → ext_change k1 k3.
Proof.
  intros [A1 A2 A3 A4 A5 A6] [B1 B2 B3 B4 B5 B6]. split; [by etransitivity|congruence..].
Qed.

Lemma ext_change_nest n k k' : ext_change k k' → nest_ok n k → nest_ok n k'.
Proof.
  intros He [(Hm & Hn & Hi) Hd]. pose proof (ext_length _ _ He) as Hl.
  assert (k_mycpu k' < length (k_cpus k'))%nat as Hm' by (by rewrite Hl, (ec_my _ _ He)).
  destruct (ext_cpus k k' (k_mycpu k') (this_cpu k') He (this_cpu_lookup k' Hm')) as (x & Hx & H1 & H2).
  rewrite (ec_my _ _ He), (this_cpu_lookup k Hm) in Hx. injection Hx as <-. unfold nest_ok, cpu_wf. by rewrite H1, H2.
Qed.

Lemma harmless_ret {A} (a : A) : harmless (mret a : M KX A).
Proof. intros k b k' _ [= _ <-]. apply ext_change_refl. Qed.

Lemma harmless_bind {A B} (m : M KX A) (f : A → M KX B) : harmless m → (∀ a, harmless (f a)) → harmless (m ≫= f).
Proof.
  intros Hm Hf k b k' Hn Hk. apply bind_Ret_inv in Hk as (a & k1 & H1 & H2). apply Hm in H1; [|done].
  eapply ext_change_trans; [exact H1|]. eapply Hf; [|exact H2]. by eapply ext_change_nest.
Qed.

Lemma harmless_get {A B} (f : ext → A) (g : A → M KX B) : (∀ a, harmless (g a)) → harmless (ext_get f ≫= g).
Proof. intros Hg k b k' Hn Hk. by eapply (Hg (f (k_ext k))). Qed.

Lemma harmless_upd (f : ext → ext) : harmless (upd_ext f).
Proof. intros k [] k' _ [= <-]. by split. Qed.

Lemma harmless_panic {A} msg : harmless (panic msg : M KX A).
Proof. by intros k a k' _ Hk. Qed.
Lemma harmless_block {A} : harmless (block : M KX A).
Proof. by intros k a k' _ Hk. Qed.

Lemma harmless_when b (m : M KX unit) : harmless m → harmless (when b m).
Proof. intros Hm. destruct b; [done|apply harmless_ret]. Qed.

Lemma harmless_for_each {A} (f : A → M KX unit) l : (∀ a, harmless (f a)) → harmless (for_each f l).
Proof. intros Hf. induction l as [|a l IH]; cbn [for_each]; [apply harmless_ret|]. by apply harmless_bind. Qed.

Lemma acquire_Ret lk k a k' : cpu_wf k → acquire lk k = Ret a k' → k' = acquired lk k.
Proof.
  intros Hwf Hk. destruct (decide (lk_locked (lock_of lk k) = 0)) as [Hf|Hf].
  { rewrite acquire_free in Hk by done. by injection Hk. }
  exfalso. unfold acquire in Hk. apply bind_Ret_inv in Hk as ([] & k1 & H1 & H2). unfold acquire_enter in H1.
  rewrite (bind_Ret _ _ _ _ _ (pushcli_ret k Hwf)), (bind_Ret (gets (holding lk)) _ _ _ _ eq_refl) in H1.
  destruct (holding lk (upd_cpu cpu_pushed k)); [done|]. injection H1 as <-.
  rewrite (bind_Ret (xchg_locked lk 1) _ (lk_locked (lock_of lk k)) (upd_cpu cpu_pushed k) _ eq_refl) in H2. by rewrite decide_True in H2.
Qed.

(** A critical section of a lock of the components. *)
Definition low_lock (lk : lockid) : Prop := lk ≠ PtableLock ∧ lk ≠ RRLock ∧ lk ≠ TicksLock.

Lemma settle_change k k' : same_view k k' → k_mycpu k' = k_mycpu k → k_cpus k' = k_cpus k →
  (∀ lk, lk = PtableLock ∨ lk = RRLock ∨ lk = TicksLock → k_locks k' !! lk = k_locks k !! lk) → ext_change k (settle k').
Proof.
  intros Hv Hm Hc Hl. split; try (apply Hl; tauto); [|exact Hm|].
  - etransitivity; [exact Hv|apply view_settle].
  - unfold settle, upd_cpu. cbn [k_cpus set_k_cpus]. rewrite Hc. apply list_eq. intros j.
    rewrite !list_lookup_fmap, list_lookup_alter. case_decide as Hj; [subst|done]. destruct (k_cpus k !! _) as [c|]; [|done].
    cbn. f_equal. by case_decide.
Qed.

Lemma section_change lk k x a k' :
  low_lock lk → nest_ok 1 k → release lk (set_k_ext x (acquired lk k)) = Ret a k' → ext_change k k'.
Proof.
  intros (H1 & H2 & H3) Hn Hk. pose proof (proj1 Hn) as Hwf.
  set (k0 := set_k_locks (<[lk := Lock 0 None]> (k_locks k)) (set_k_ext x k)).
  assert (set_k_ext x (acquired lk k) = acquired lk k0) as Ha by (unfold acquired, k0; cbn; by rewrite insert_insert_eq).
  assert (lock_idle lk k0) as Hi by (unfold lock_idle, k0; cbn; by rewrite lookup_insert_eq).
  rewrite Ha, release_acquired in Hk by done. injection Hk as _ <-. apply settle_change; [by split|done..|].
  intros lk' Hl. unfold k0. cbn. rewrite lookup_insert_ne; [done|]. naive_solver.
Qed.

(** The lock of the page allocator is taken only once it is in use. *)
Lemma kmem_section {A B} (m : M KX A) (f : A → B) :
  (∀ k a k', m k = Ret a k' → ∃ x, k' = set_k_ext x k ∧ km_use_lock (x_kmem x) = km_use_lock (x_kmem (k_ext k))) →
  harmless (kmem_acquire ;; a ← m; kmem_release ;; mret (f a)).
Proof.
  intros Hm k b k3 Hn Hk. apply bind_Ret_inv in Hk as ([] & k1 & H1 & Hk). apply bind_Ret_inv in Hk as (a & k2 & H2 & Hk).
  apply bind_Ret_inv in Hk as ([] & k3' & H3 & [= _ ->]). apply Hm in H2 as (x & -> & Hx).
  unfold kmem_acquire in H1. rewrite (bind_Ret (ext_get _) _ _ k k eq_refl) in H1.
  unfold kmem_release in H3. rewrite (bind_Ret (ext_get _) _ _ _ _ eq_refl) in H3. cbn [k_ext set_k_ext] in H3. rewrite Hx in H3.
  destruct (decide (km_use_lock (x_kmem (k_ext k)) = 0)) as [Hu|Hu];
    [rewrite bool_decide_true in H1 by done|rewrite bool_decide_false in H1 by done]; cbn [negb when] in H1.
  - injection H1 as <-. rewrite bool_decide_true in H3 by done. injection H3 as <-. by split.
  - apply acquire_Ret in H1 as ->; [|apply Hn]. rewrite bool_decide_false in H3 by done. cbn [negb when] in H3.
    eapply (section_change kmem_lock); [done| |exact H3]. by apply (nest_ok_le 5).
Qed.

Lemma harmless_eq {A} (m m' : M KX A) : (∀ k, m k = m' k) → harmless m' → harmless m.
Proof. intros He Hm k a k' Hn Hk. rewrite He in Hk. by eapply Hm. Qed.

Lemma bind_pointwise {A B} (m : M KX A) (f g : A → M KX B) k : (∀ a k', f a k' = g a k') → (m ≫= f) k = (m ≫= g) k.
Proof. intros He. unfold mbind, M_bind. by destruct (m k). Qed.

Lemma harmless_kalloc : harmless kalloc.
Proof.
  apply (harmless_eq _ (kmem_acquire ;;
    r ← (λ k, let r := km_freelist (x_kmem (k_ext k)) in
      Ret r (if decide (r = 0) then k else
        set_k_ext (set_x_kmem (set_km_freelist (get32 (x_mem (k_ext k)) r) (x_kmem (k_ext k))) (k_ext k)) k));
    kmem_release ;; mret (id r))).
  - intros k. apply bind_pointwise. intros [] k1. erewrite bind_Ret; [|reflexivity]. unfold mbind at 4, M_bind at 4. cbv zeta.
    case_decide as Hr; [rewrite Hr|rewrite bool_decide_false by done]; reflexivity.
  - apply kmem_section. intros k a k' [= _ <-]. case_decide; [exists (k_ext k); by destruct k|by eexists].
Qed.

Lemma harmless_kfree end_ v : harmless (kfree end_ v).
Proof.
  unfold kfree. case_decide; [apply harmless_panic|]. apply harmless_bind; [apply harmless_upd|]. intros _.
  apply (harmless_eq _ (kmem_acquire ;;
    r ← (λ k, Ret tt (set_k_ext (set_x_kmem (set_km_freelist v (x_kmem (k_ext k)))
      (set_x_mem (store32 v (km_freelist (x_kmem (k_ext k))) (x_mem (k_ext k))) (k_ext k))) k));
    kmem_release ;; mret (id r))).
  - intros k. apply bind_pointwise. intros [] k1. unfold mbind, M_bind. cbv beta.
    cbn [upd_ext ext_get gets modify]. by destruct (kmem_release _) as [[]| | |].
  - apply kmem_section. intros k a k' [= _ <-]. by eexists.
Qed.

Hint Resolve harmless_ret harmless_bind harmless_get harmless_upd harmless_panic harmless_block harmless_when harmless_for_each
  harmless_kalloc harmless_kfree : harmless.

Lemma harmless_ext_get {A} (f : ext → A) : harmless (ext_get f).
Proof. intros k a k' _ [= _ <-]. apply ext_change_refl. Qed.
Hint Resolve harmless_ext_get : harmless.

Lemma harmless_walkpgdir pgdir va alloc : harmless (walkpgdir pgdir va alloc).
Proof.
  unfold walkpgdir, rd32, wr32, upd_mem. apply harmless_bind; [auto with harmless|]. intros e. destruct (has_flag e PTE_P); [auto with harmless|].
  destruct alloc; cbn [negb]; [|auto with harmless]. apply harmless_bind; [auto with harmless|]. intros pgtab.
  case_decide; auto with harmless.
Qed.
Hint Resolve harmless_walkpgdir : harmless.

Lemma harmless_deallocuvm end_ pgdir oldsz newsz : harmless (deallocuvm end_ pgdir oldsz newsz).
Proof.
  assert (∀ n a, harmless (deallocuvm_loop end_ n pgdir a oldsz)) as Hl.
  { induction n as [|n IH]; intros a; cbn [deallocuvm_loop]; (case_decide; [|auto with harmless]);
      (apply harmless_bind; [auto with harmless|]); intros pte;
      (apply harmless_bind; [|auto with harmless]);
      (case_decide; [auto with harmless|]); unfold rd32, wr32, upd_mem; (apply harmless_bind; [auto with harmless|]); intros e;
      (destruct (has_flag e PTE_P); [|auto with harmless]); cbv zeta; case_decide; auto with harmless. }
  unfold deallocuvm. case_decide; auto with harmless.
Qed.
Hint Resolve harmless_deallocuvm : harmless.

Lemma harmless_freevm end_ pgdir : harmless (freevm end_ pgdir).
Proof.
  assert (∀ i, harmless (free_table end_ pgdir i)) by (intros i; unfold free_table, rd32; auto with harmless).
  unfold freevm. case_decide; auto with harmless.
Qed.

Lemma harmless_switchkvm : harmless switchkvm.
Proof. unfold switchkvm. auto with harmless. Qed.

Lemma popped_pushed k : cpu_wf k → k_cpus (upd_cpu cpu_popped (upd_cpu cpu_pushed k)) = k_cpus (settle k).
Proof.
  intros Hwf. set (k0 := set_k_locks (<[kmem_lock := Lock 0 None]> (k_locks k)) k).
  assert (lock_idle kmem_lock k0) as Hi by (unfold lock_idle, k0; cbn; by rewrite lookup_insert_eq).
  exact (f_equal k_cpus (released_acquired kmem_lock k0 Hwf Hi)).
Qed.

(** [pushcli] and [popcli] around changes of the components. *)
Lemma pushed_change k x a k' : nest_ok 1 k → popcli (set_k_ext x (upd_cpu cpu_pushed k)) = Ret a k' → ext_change k k'.
Proof.
  intros Hn Hk. pose proof (nest_ok_acquired 0 kmem_lock k ltac:(lia) Hn) as [Hwf' _].
  pose proof (ncli_acquired kmem_lock k (proj1 Hn)) as Hpos.
  rewrite popcli_ret in Hk by done. injection Hk as _ <-.
  pose proof (popped_pushed k (proj1 Hn)) as Hc. pose proof (settle_change k k ltac:(by split) eq_refl eq_refl ltac:(done)) as [S1 S2 S3 _ _ _].
  split; [|done| |done..]; [|by rewrite <-S3, <-Hc]. destruct S1 as [? ? ? ? S1]. split; [done..|]. by rewrite <-S1, <-Hc.
Qed.

Lemma harmless_switchuvm ts_addr p : harmless (switchuvm ts_addr p).
Proof.
  intros k a k' Hn Hk. unfold switchuvm, upd_segs in Hk. rewrite (bind_Ret _ _ _ _ _ (pushcli_ret k (proj1 Hn))) in Hk.
  do 4 (apply bind_Ret_inv in Hk as (? & ? & [= <- <-] & Hk)).
  apply bind_Ret_inv in Hk as (cur & k1 & H1 & Hk). unfold myproc in H1. apply bind_Ret_inv in H1 as (? & ? & [= <- <-] & H1).
  unfold deref in H1. destruct (curproc _); [|done]. case_decide; [|done]. injection H1 as <- <-.
  do 3 (apply bind_Ret_inv in Hk as (? & ? & [= <- <-] & Hk)). case_decide; [done|].
  apply bind_Ret_inv in Hk as (? & ? & [= <- <-] & Hk). eapply pushed_change; [by apply (nest_ok_le 5)|exact Hk].
Qed.

(** [switchuvm] does not wait. *)
Lemma prompt_bind {A B} (m : M KX A) (f : A → M KX B) : prompt m → (∀ a, prompt (f a)) → prompt (m ≫= f).
Proof. intros Hm Hf k k' Hk. unfold mbind, M_bind in Hk. specialize (Hm k). destruct (m k); try done; [by eapply Hf|by eapply Hm]. Qed.

Lemma prompt_switchuvm ts_addr p : prompt (switchuvm ts_addr p).
Proof.
  assert (∀ A (f : KX → A), prompt (gets f)) as Hg by done. assert (∀ f : KX → KX, prompt (modify f)) as Hm by done.
  assert (∀ f, prompt (upd_ext f)) as Hu by done. assert (∀ b (m : M KX unit), prompt m → prompt (when b m)) as Hw by (by intros []).
  assert (prompt (V := ext) pushcli) as Hpush by (unfold pushcli, readeflags, cli; eauto 10 using prompt_bind).
  assert (prompt (V := ext) popcli) as Hpop.
  { unfold popcli, readeflags, sti. apply prompt_bind; [done|]. intros e. case_decide; [done|]. apply prompt_bind; [done|]. intros n.
    apply prompt_bind; [done|]. intros _. case_decide; [done|]. eauto using prompt_bind. }
  assert (prompt (V := ext) myproc) as Hp.
  { apply prompt_bind; [done|]. intros q k k'. unfold deref. destruct q; [|done]. by case_decide. }
  unfold switchuvm, upd_segs, field. repeat (apply prompt_bind; [done|intros ?]). case_decide; [done|]. by apply prompt_bind.
Qed.
End harmless.

Section kernel_ok.
Context {PT : Ports} (flag : schedflag) (swtch : M KX unit) (iderw : nat → M KX unit) (fuel : nat).
Context (end_ data_ init_start init_size trapret forkret : Z) (ts_addr : nat → Z).
Abbreviation services := (kernel_services flag swtch iderw fuel end_ data_ init_start init_size trapret forkret ts_addr).

(** C19. The kernel's own page allocator, address spaces and context switch meet the
    interface the process subsystem is verified against: whenever [kalloc],
    [kfree], [freevm], [switchuvm] or [switchkvm] returns, it has changed the
    component state alone - no process, no run queue, no process identifier, no
    other processor, neither the locks of the process table, the run queue and the
    clock nor, for its own processor, the interrupt flag and the nesting depth -
    and [switchuvm] never waits.  So the scheduling invariant holds of the kernel
    as it is linked: in every state it reaches from boot, whatever its memory and
    its files do, the process table, the run queue and the processors agree. *)
Theorem kernel_services_ok :
  ServicesOk ext (SV := services) ∧
  ∀ ncpu (x : ext) k, rtc (kstep (SV := services) flag) (boot_core ncpu x) k → good flag ∅ k.
Proof.
  assert (ServicesOk ext (SV := services)) as Hok.
  { split; [exact harmless_kalloc|apply harmless_kfree|apply harmless_freevm| |exact harmless_switchkvm].
    intros p. split; [apply harmless_switchuvm|apply prompt_switchuvm]. }
  split; [exact Hok|]. intros ncpu x k Hs. eapply ksteps_good; [exact Hok|exact Hs|apply (boot_good (SV := services)); exact Hok|done].
Qed.
End kernel_ok.
