(* ===== verification/Bootmain.v ===== *)
(** * The boot loader (bootmain.c)

    The machine before there is a kernel: its memory and its disk.  The port
    instructions act on the disk; what the disk does with them is the class
    [AtaDisk], with the documented behaviour of a drive that reads one sector per
    command.  The main theorem: if the disk holds an ELF file from its second sector
    on, [bootmain] puts the file's segments where its headers say and gives the
    address of its entry point. *)

From stdpp Require Import base list gmap strings.
From Stdlib Require Import ZArith Lia.
From S2P Require Import Prelude CString Syscall Fs Exec.

(** x86.h's [inb], [outb] and [insl] for one device with states [D]; [insl] gives the
    bytes of [cnt] words. *)
Class Drive (D : Type) := {
  port_in : Z → D → Z * D;
  port_out : Z → Z → D → D;
  port_words : Z → nat → D → list Z * D
}.

Record machine (D : Type) := Machine { pc_mem : mem; pc_dev : D }.
Arguments Machine {D} pc_mem pc_dev.
Arguments pc_mem {D} _.
Arguments pc_dev {D} _.

Module Boot.
Section boot.
Context {D : Type} {DR : Drive D}.
(** The number of times the disk is asked whether it is ready before the model
    gives up. *)
Context (polls : nat).

Definition SECTSIZE : Z := 512.

Definition inb (port : Z) : M (machine D) Z := λ s,
  let '(v, d) := port_in port (pc_dev s) in Ret v (Machine (pc_mem s) d).
Definition outb (port data : Z) : M (machine D) unit := λ s,
  Ret tt (Machine (pc_mem s) (port_out port (u8 data) (pc_dev s))).
Definition insl (port addr : Z) (cnt : nat) : M (machine D) unit := λ s,
  let '(l, d) := port_words port cnt (pc_dev s) in Ret tt (Machine (array_at addr l (pc_mem s)) d).

Fixpoint wait_ready (n : nat) : M (machine D) unit :=
  r ← inb 0x1F7;
  if decide (Z.land r 0xC0 ≠ 0x40) then match n with O => block | S n' => wait_ready n' end
  else mret tt.

Definition waitdisk : M (machine D) unit := wait_ready polls.

Definition readsect (dst offset : Z) : M (machine D) unit :=
  waitdisk ;;
  outb 0x1F2 1 ;;
  outb 0x1F3 offset ;;
  outb 0x1F4 (Z.shiftr offset 8) ;;
  outb 0x1F5 (Z.shiftr offset 16) ;;
  outb 0x1F6 (Z.lor (Z.shiftr offset 24) 0xE0) ;;
  outb 0x1F7 0x20 ;;
  waitdisk ;;
  insl 0x1F0 dst (Z.to_nat (SECTSIZE / 4)).

(** [for(; pa < epa; pa += SECTSIZE, offset++) readsect(pa, offset);] *)
Fixpoint readseg_loop (n : nat) (pa epa offset : Z) : M (machine D) unit :=
  if decide (pa < epa) then
    readsect pa offset ;;
    match n with O => block | S n' => readseg_loop n' (u32 (pa + SECTSIZE)) epa (u32 (offset + 1)) end
  else mret tt.

(** The range has at most [count / SECTSIZE + 2] sectors. *)
Definition readseg (pa count offset : Z) : M (machine D) unit :=
  let epa := u32 (pa + count) in
  let pa := u32 (pa - offset mod SECTSIZE) in
  let offset := u32 (offset / SECTSIZE + 1) in
  readseg_loop (Z.to_nat (count / SECTSIZE + 2)) pa epa offset.

(** [for(; ph < eph; ph++)]; there are [n] headers. *)
Fixpoint load_headers (n : nat) (ph eph : Z) : M (machine D) unit :=
  if decide (ph < eph) then
    p ← gets (λ s, proghdr_of (read_array ph (Z.to_nat SIZEOF_PROGHDR) (pc_mem s)));
    let pa := ph_paddr p in
    readseg pa (ph_filesz p) (ph_off p) ;;
    (if decide (ph_memsz p > ph_filesz p) then
       modify (λ s, Machine (stosb (Z.to_nat (ph_memsz p - ph_filesz p)) (u32 (pa + ph_filesz p)) 0 (pc_mem s)) (pc_dev s))
     else mret tt) ;;
    match n with O => block | S n' => load_headers n' (u32 (ph + SIZEOF_PROGHDR)) eph end
  else mret tt.

Definition ELF : Z := 0x10000.

(** The address that is called, or [None] if the loader returns. *)
Definition bootmain : M (machine D) (option Z) :=
  readseg ELF 4096 0 ;;
  elf ← gets (λ s, elfhdr_of (read_array ELF (Z.to_nat SIZEOF_ELFHDR) (pc_mem s)));
  if decide (elf_magic elf ≠ ELF_MAGIC) then mret None else
  let ph := u32 (ELF + elf_phoff elf) in
  let eph := u32 (ph + SIZEOF_PROGHDR * elf_phnum elf) in
  load_headers (Z.to_nat (elf_phnum elf)) ph eph ;;
  elf ← gets (λ s, elfhdr_of (read_array ELF (Z.to_nat SIZEOF_ELFHDR) (pc_mem s)));
  mret (Some (elf_entry elf)).
End boot.
End Boot.

(** ** The disk

    A drive takes its command in the registers [0x1F2] to [0x1F6], answers [0x40] in
    the two highest bits of its status once it is ready, [lag] times something else
    before, and then hands out the sector in 128 words. *)
Definition lba (t : Z → Z) : Z := t 0x1F3 + 2 ^ 8 * t 0x1F4 + 2 ^ 16 * t 0x1F5 + 2 ^ 24 * (t 0x1F6 mod 16).

Class AtaDisk {D : Type} (DR : Drive D) (polls : nat) (image : Z → list Z) := {
  task : D → Z → Z;
  lag : D → nat;
  sector : D → list Z;
  ata_status d : ∃ s d', port_in 0x1F7 d = (s, d') ∧ (Z.land s 0xC0 = 0x40 ↔ lag d = 0%nat) ∧
    lag d' = pred (lag d) ∧ task d' = task d ∧ sector d' = sector d;
  ata_register d r v : lag d = 0%nat → 0x1F2 <= r <= 0x1F6 →
    lag (port_out r v d) = 0%nat ∧ ∀ q, task (port_out r v d) q = if decide (q = r) then v else task d q;
  ata_read d : lag d = 0%nat → task d 0x1F2 = 1 → task d 0x1F6 / 16 = 14 →
    let d' := port_out 0x1F7 0x20 d in (lag d' <= polls)%nat ∧ sector d' = image (lba (task d));
  ata_data d : lag d = 0%nat → ∃ d', port_words 0x1F0 128 d = (sector d, d') ∧ (lag d' <= polls)%nat;
  ata_sector n : length (image n) = 512%nat;
  ata_bytes n : Forall is_u8 (image n)
}.

(** Byte [i] of the file that starts at the second sector, and [n] of them. *)
Definition kernel_byte (image : Z → list Z) (i : Z) : Z := image (i / 512 + 1) !!! Z.to_nat (i mod 512).
Definition kernel_bytes (image : Z → list Z) (off : Z) (n : nat) : list Z :=
  (λ i, kernel_byte image (off + Z.of_nat i)) <$> seq 0 n.

(** The file's headers. *)
Definition header (image : Z → list Z) : elfhdr := elfhdr_of (kernel_bytes image 0 52).
Definition segments (image : Z → list Z) : list proghdr :=
  (λ j, proghdr_of (kernel_bytes image (elf_phoff (header image) + 32 * Z.of_nat j) 32)) <$>
    seq 0 (Z.to_nat (elf_phnum (header image))).

(** The sectors that [readseg] reads, and the memory that loading a segment changes:
    it begins before the segment if this does not begin at a sector. *)
Definition sectors_of (count offset : Z) : Z := (count + offset mod 512 + 511) / 512.
Definition seg_lo (p : proghdr) : Z := ph_paddr p - ph_off p mod 512.
Definition seg_hi (p : proghdr) : Z :=
  Z.max (seg_lo p + 512 * sectors_of (ph_filesz p) (ph_off p)) (ph_paddr p + ph_memsz p).

(** The segment is in memory: its bytes of the file, and zeros up to its size. *)
Definition in_place (image : Z → list Z) (m : mem) (p : proghdr) : Prop :=
  (∀ i, 0 <= i < ph_filesz p → m (ph_paddr p + i) = kernel_byte image (ph_off p + i)) ∧
  (∀ i, ph_filesz p <= i < ph_memsz p → m (ph_paddr p + i) = 0).

(** A file the loader can load: the headers are in the first page, no segment reaches
    into the scratch space that holds them, and none into one loaded before. *)
Record loadable (image : Z → list Z) : Prop := {
  ld_magic : elf_magic (header image) = ELF_MAGIC;
  ld_headers : elf_phoff (header image) + 32 * elf_phnum (header image) <= 4096;
  ld_segment p : p ∈ segments image →
    0 <= seg_lo p ∧ seg_hi p < 2 ^ 32 ∧ (seg_hi p <= Boot.ELF ∨ Boot.ELF + 4096 <= seg_lo p);
  ld_order i j p q : (i < j)%nat → segments image !! i = Some p → segments image !! j = Some q →
    seg_hi q <= ph_paddr p ∨ ph_paddr p + Z.max (ph_filesz p) (ph_memsz p) <= seg_lo q
}.

Lemma lba_bytes n :
  0 <= n < 2 ^ 28 →
  u8 n + 2 ^ 8 * u8 (Z.shiftr n 8) + 2 ^ 16 * u8 (Z.shiftr n 16) + 2 ^ 24 * (u8 (Z.lor (Z.shiftr n 24) 0xE0) mod 16) = n ∧
  u8 (Z.lor (Z.shiftr n 24) 0xE0) / 16 = 14.
Proof.
  intros Hn. assert (∀ h, h ∈ seqZ 0 16 → u8 (Z.lor h 0xE0) mod 16 = h ∧ u8 (Z.lor h 0xE0) / 16 = 14) as Hh.
  { apply Forall_forall. vm_compute. repeat constructor. }
  destruct (Hh (Z.shiftr n 24)) as [-> ->].
  { rewrite Z.shiftr_div_pow2 by lia. apply elem_of_seqZ. split; [apply Z.div_pos; lia|apply Z.div_lt_upper_bound; lia]. }
  split; [|done]. unfold u8.
  replace 24 with (8 + (8 + 8)) by done. replace 16 with (8 + 8) by done. rewrite <-!Z.shiftr_shiftr, !Z.shiftr_div_pow2 by lia.
  pose proof (Z.div_mod n (2 ^ 8) ltac:(lia)). pose proof (Z.div_mod (n / 2 ^ 8) (2 ^ 8) ltac:(lia)).
  pose proof (Z.div_mod (n / 2 ^ 8 / 2 ^ 8) (2 ^ 8) ltac:(lia)). lia.
Qed.

Section loader.
Context {D : Type} {DR : Drive D} (polls : nat) (image : Z → list Z) {AD : AtaDisk DR polls image}.
Implicit Types (m : mem) (d : D).

Lemma wait_ready_ok n m d :
  (lag d <= n)%nat → ∃ d', Boot.wait_ready n (Machine m d) = Ret tt (Machine m d') ∧ lag d' = 0%nat ∧ sector d' = sector d.
Proof.
  revert d. induction n as [|n IH]; intros d Hn; destruct (ata_status d) as (s & d' & E & Hs & Hl & _ & Hsec);
    cbn [Boot.wait_ready]; (erewrite bind_Ret; [|unfold Boot.inb; cbn; rewrite E; reflexivity]).
  - rewrite decide_False by (intros H; apply H, Hs; lia). exists d'. split_and!; [done|lia|done].
  - case_decide as Hc.
    + destruct (IH d' ltac:(lia)) as (d'' & E' & H1 & H2). exists d''. split_and!; [done..|congruence].
    + exists d'. split_and!; [done| |done]. destruct (decide (lag d = 0%nat)); [lia|]. tauto.
Qed.

Lemma outb_ok r v m d :
  lag d = 0%nat → 0x1F2 <= r <= 0x1F6 →
  ∃ d', Boot.outb r v (Machine m d) = Ret tt (Machine m d') ∧ lag d' = 0%nat ∧ ∀ q, task d' q = if decide (q = r) then u8 v else task d q.
Proof. intros Hl Hr. destruct (ata_register d r (u8 v) Hl Hr) as [H1 H2]. by eexists. Qed.

Lemma readsect_ok dst n m d :
  (lag d <= polls)%nat → 0 <= n < 2 ^ 28 →
  ∃ d', Boot.readsect polls dst n (Machine m d) = Ret tt (Machine (array_at dst (image n) m) d') ∧ (lag d' <= polls)%nat.
Proof.
  intros Hl Hn. destruct (lba_bytes n Hn) as [Hlba Hmode].
  destruct (wait_ready_ok polls m d Hl) as (d0 & E0 & L0 & _).
  destruct (outb_ok 0x1F2 1 m d0 L0 ltac:(lia)) as (d1 & E1 & L1 & T1).
  destruct (outb_ok 0x1F3 n m d1 L1 ltac:(lia)) as (d2 & E2 & L2 & T2).
  destruct (outb_ok 0x1F4 (Z.shiftr n 8) m d2 L2 ltac:(lia)) as (d3 & E3 & L3 & T3).
  destruct (outb_ok 0x1F5 (Z.shiftr n 16) m d3 L3 ltac:(lia)) as (d4 & E4 & L4 & T4).
  destruct (outb_ok 0x1F6 (Z.lor (Z.shiftr n 24) 0xE0) m d4 L4 ltac:(lia)) as (d5 & E5 & L5 & T5).
  destruct (ata_read d5 L5) as [L6 S6]; [by rewrite T5, T4, T3, T2, T1|by rewrite T5|].
  assert (lba (task d5) = n) as Hat by (unfold lba; by rewrite !T5, !T4, !T3, !T2; cbn [decide]).
  destruct (wait_ready_ok polls m _ L6) as (d7 & E7 & L7 & S7). destruct (ata_data d7 L7) as (d8 & E8 & L8).
  exists d8. split; [|exact L8]. unfold Boot.readsect, Boot.waitdisk.
  do 6 (erewrite bind_Ret; [|eassumption]). erewrite bind_Ret; [|reflexivity]. erewrite bind_Ret; [|exact E7].
  unfold Boot.insl. cbn [pc_dev pc_mem]. change (Z.to_nat (Boot.SECTSIZE / 4)) with 128%nat. by rewrite E8, S7, S6, Hat.
Qed.

(** [k] sectors from sector [s] on at [pa]. *)
Lemma readseg_loop_ok k n pa epa s m d :
  (lag d <= polls)%nat → (k <= n)%nat → 0 <= pa → pa + 512 * Z.of_nat k < 2 ^ 32 → 0 <= s → s + Z.of_nat k < 2 ^ 28 →
  epa <= pa + 512 * Z.of_nat k → (k = 0%nat ∨ pa + 512 * Z.of_nat (pred k) < epa) →
  ∃ m' d', Boot.readseg_loop polls n pa epa s (Machine m d) = Ret tt (Machine m' d') ∧ (lag d' <= polls)%nat ∧
    ∀ a, m' a = if decide (pa <= a < pa + 512 * Z.of_nat k) then image (s + (a - pa) / 512) !!! Z.to_nat ((a - pa) mod 512) else m a.
Proof.
  revert n pa s m d. induction k as [|k IH]; intros n pa s m d Hl Hk Hpa Hhi Hs Hs' He Hlast.
  - exists m, d. split; [|split; [done|]]; [destruct n; cbn [Boot.readseg_loop]; by rewrite decide_False by lia|].
    intros a. by rewrite decide_False by lia.
  - destruct n as [|n]; [lia|]. cbn [Boot.readseg_loop]. rewrite decide_True by (destruct Hlast; [done|]; cbn in *; lia).
    destruct (readsect_ok pa s m d Hl ltac:(lia)) as (d1 & E1 & L1). erewrite bind_Ret; [|exact E1].
    change Boot.SECTSIZE with 512. rewrite !u32_id by (unfold is_u32; lia).
    destruct (IH n (pa + 512) (s + 1) (array_at pa (image s) m) d1) as (m' & d' & E & L & Hm); [try lia..|].
    exists m', d'. split; [exact E|]. split; [exact L|]. intros a. rewrite Hm. unfold array_at. rewrite ata_sector.
    destruct (decide (pa <= a < pa + 512)) as [Ha|Ha].
    + rewrite decide_False, decide_True, decide_True by lia. rewrite Z.div_small, Z.mod_small by lia. by rewrite Z.add_0_r.
    + destruct (decide (pa + 512 <= a < pa + 512 + 512 * Z.of_nat k)).
      * rewrite decide_True by lia. replace (a - pa) with (a - (pa + 512) + 1 * 512) by lia.
        rewrite Z.div_add, Z.mod_add by lia. f_equal. f_equal. lia.
      * by rewrite !decide_False by lia.
Qed.

Lemma readseg_ok pa count offset m d :
  (lag d <= polls)%nat → is_u32 count → is_u32 offset → offset mod 512 <= pa → pa - offset mod 512 + 512 * sectors_of count offset < 2 ^ 32 →
  ∃ m' d', Boot.readseg polls pa count offset (Machine m d) = Ret tt (Machine m' d') ∧ (lag d' <= polls)%nat ∧
    ∀ a, m' a = if decide (pa - offset mod 512 <= a < pa - offset mod 512 + 512 * sectors_of count offset)
                then kernel_byte image (offset + (a - pa)) else m a.
Proof.
  unfold is_u32, sectors_of. intros Hl Hc Ho Hpa Hhi. pose proof (Z.mod_pos_bound offset 512 ltac:(lia)) as Hr.
  set (r := offset mod 512) in *. pose proof (Z.div_mod offset 512 ltac:(lia)) as Hdiv. fold r in Hdiv.
  set (k := (count + r + 511) / 512) in *.
  pose proof (Z.div_mod (count + r + 511) 512 ltac:(lia)) as Hk. fold k in Hk. pose proof (Z.mod_pos_bound (count + r + 511) 512 ltac:(lia)).
  pose proof (Z.div_mod count 512 ltac:(lia)). pose proof (Z.mod_pos_bound count 512 ltac:(lia)).
  destruct (readseg_loop_ok (Z.to_nat k) (Z.to_nat (count / 512 + 2)) (pa - r) (pa + count) (offset / 512 + 1) m d) as (m' & d' & E & L & Hm); [try lia..|].
  exists m', d'. split; [|split; [exact L|]].
  - unfold Boot.readseg. change Boot.SECTSIZE with 512. fold r. rewrite !u32_id by (unfold is_u32; lia). exact E.
  - intros a. rewrite Hm, Z2Nat.id by lia. destruct (decide (pa - r <= a < _)) as [Ha|]; [|done]. unfold kernel_byte.
    replace (offset + (a - pa)) with (a - (pa - r) + offset / 512 * 512) by lia. rewrite Z.div_add, Z.mod_add by lia.
    f_equal. f_equal. lia.
Qed.

(** The fields of the headers fit their types. *)
Lemma kernel_byte_range i : is_u8 (kernel_byte image i).
Proof.
  unfold kernel_byte. apply Forall_lookup_total_1; [apply ata_bytes|]. rewrite ata_sector.
  pose proof (Z.mod_pos_bound i 512 ltac:(lia)). lia.
Qed.

Lemma kernel_bytes_lookup off n i : (i < n)%nat → kernel_bytes image off n !!! i = kernel_byte image (off + Z.of_nat i).
Proof. intros Hi. unfold kernel_bytes. apply list_lookup_total_correct. by rewrite list_lookup_fmap, lookup_seq_lt. Qed.

Lemma word_range off n i : (i + 4 <= n)%nat → is_u32 (word_at (kernel_bytes image off n) i).
Proof.
  intros Hi. unfold word_at, word_of. rewrite !kernel_bytes_lookup by lia. unfold is_u32.
  pose proof (kernel_byte_range (off + Z.of_nat i)). pose proof (kernel_byte_range (off + Z.of_nat (i + 1))).
  pose proof (kernel_byte_range (off + Z.of_nat (i + 2))). pose proof (kernel_byte_range (off + Z.of_nat (i + 3))).
  unfold is_u8 in *. lia.
Qed.

Lemma half_range off n i : (i + 2 <= n)%nat → 0 <= half_at (kernel_bytes image off n) i < 2 ^ 16.
Proof.
  intros Hi. unfold half_at. rewrite !kernel_bytes_lookup by lia.
  pose proof (kernel_byte_range (off + Z.of_nat i)). pose proof (kernel_byte_range (off + Z.of_nat (S i))). unfold is_u8 in *. lia.
Qed.

Lemma segment_range p : p ∈ segments image → is_u32 (ph_off p) ∧ is_u32 (ph_filesz p) ∧ is_u32 (ph_memsz p).
Proof. intros (j & -> & _)%list_elem_of_fmap. cbn [ph_off ph_filesz ph_memsz proghdr_of]. split_and!; apply word_range; lia. Qed.

(** The scratch space holds the first page of the file. *)
Definition scratch m : Prop := ∀ a, Boot.ELF <= a < Boot.ELF + 4096 → m a = kernel_byte image (a - Boot.ELF).

Lemma scratch_bytes m off n :
  scratch m → 0 <= off → off + Z.of_nat n <= 4096 → read_array (Boot.ELF + off) n m = kernel_bytes image off n.
Proof.
  intros Hm Ho Hn. unfold read_array, kernel_bytes. apply list_fmap_ext. intros i j Hj. apply lookup_seq in Hj as [-> ?].
  rewrite Hm by lia. f_equal. lia.
Qed.

Lemma place_ok p m d :
  (lag d <= polls)%nat → is_u32 (ph_off p) → is_u32 (ph_filesz p) → is_u32 (ph_memsz p) → 0 <= seg_lo p → seg_hi p < 2 ^ 32 →
  ∃ m1 d1 m2, Boot.readseg polls (ph_paddr p) (ph_filesz p) (ph_off p) (Machine m d) = Ret tt (Machine m1 d1) ∧ (lag d1 <= polls)%nat ∧
    (if decide (ph_memsz p > ph_filesz p) then
       modify (λ s, Machine (stosb (Z.to_nat (ph_memsz p - ph_filesz p)) (u32 (ph_paddr p + ph_filesz p)) 0 (pc_mem s)) (pc_dev s))
     else mret tt) (Machine m1 d1) = Ret tt (Machine m2 d1) ∧
    in_place image m2 p ∧ ∀ a, ¬ (seg_lo p <= a < seg_hi p) → m2 a = m a.
Proof.
  intros Hl Ho Hf Hs Hlo Hhi. unfold seg_hi, seg_lo in *.
  destruct (readseg_ok (ph_paddr p) (ph_filesz p) (ph_off p) m d Hl Hf Ho) as (m1 & d1 & E & L & Hm); [lia..|].
  pose proof (Z.mod_pos_bound (ph_off p) 512 ltac:(lia)) as Hr. set (r := ph_off p mod 512) in *.
  assert (ph_filesz p + r <= 512 * sectors_of (ph_filesz p) (ph_off p)) as Hk.
  { unfold sectors_of. fold r. pose proof (Z.div_mod (ph_filesz p + r + 511) 512 ltac:(lia)).
    pose proof (Z.mod_pos_bound (ph_filesz p + r + 511) 512 ltac:(lia)). lia. }
  set (k := sectors_of (ph_filesz p) (ph_off p)) in *. unfold is_u32 in *.
  destruct (decide (ph_memsz p > ph_filesz p)) as [Hz|Hz].
  - exists m1, d1, (stosb (Z.to_nat (ph_memsz p - ph_filesz p)) (u32 (ph_paddr p + ph_filesz p)) 0 m1).
    rewrite u32_id by (unfold is_u32; lia). split_and!; [exact E|exact L|done|split|]; intros a Ha; rewrite stosb_filled, Z2Nat.id by lia.
    + rewrite decide_False, Hm, decide_True by lia. f_equal. lia.
    + by rewrite decide_True by lia.
    + by rewrite decide_False, Hm, decide_False by lia.
  - exists m1, d1, m1. split_and!; [exact E|exact L|done|split|]; intros a Ha; [|lia|].
    + rewrite Hm, decide_True by lia. f_equal. lia.
    + by rewrite Hm, decide_False by lia.
Qed.

Lemma header_range : is_u32 (elf_phoff (header image)) ∧ 0 <= elf_phnum (header image) < 2 ^ 16.
Proof. split; [apply word_range|apply half_range]; lia. Qed.

(** One after the other, without changing those already there. *)
Lemma load_headers_ok rest don m d :
  loadable image → segments image = don ++ rest → (lag d <= polls)%nat → scratch m → Forall (in_place image m) don →
  let ph := Boot.ELF + elf_phoff (header image) in
  ∃ m' d', Boot.load_headers polls (length rest) (ph + 32 * Z.of_nat (length don)) (ph + 32 * elf_phnum (header image)) (Machine m d) =
      Ret tt (Machine m' d') ∧ scratch m' ∧ Forall (in_place image m') (segments image).
Proof.
  intros [Hmg Hh Hseg Hord] Hs Hl Hsc Hdone ph. destruct header_range as [Hoff Hnum]. unfold is_u32 in *.
  assert (length (segments image) = Z.to_nat (elf_phnum (header image))) as Hlen by (unfold segments; by rewrite length_fmap, length_seq).
  revert don m d Hs Hl Hsc Hdone. induction rest as [|p rest IH]; intros don m d Hs Hl Hsc Hdone;
    pose proof Hlen as Hlen'; rewrite Hs, length_app in Hlen'; cbn [length] in Hlen'.
  - exists m, d. rewrite Hs, app_nil_r. split; [|done]. cbn [length Boot.load_headers]. by rewrite decide_False by lia.
  - assert (segments image !! length don = Some p) as Hp by (rewrite Hs; apply list_lookup_middle; done).
    pose proof (list_elem_of_lookup_2 _ _ _ Hp) as Hin. destruct (segment_range p Hin) as (R1 & R2 & R3). destruct (Hseg p Hin) as (S1 & S2 & S3).
    destruct (place_ok p m d Hl R1 R2 R3 S1 S2) as (m1 & d1 & m2 & E1 & L1 & E2 & P2 & F2).
    destruct (IH (don ++ [p]) m2 d1) as (m' & d' & E & H1 & H2); [by rewrite Hs, <-app_assoc|done| | |].
    + intros a Ha. rewrite F2 by lia. by apply Hsc.
    + apply Forall_app. split; [|by constructor]. apply Forall_lookup. intros i q Hq.
      pose proof (lookup_lt_Some _ _ _ Hq). destruct (Forall_lookup_1 _ _ _ _ Hdone Hq) as [Q1 Q2].
      assert (segments image !! i = Some q) as Hq' by (rewrite Hs; by apply lookup_app_l_Some).
      pose proof (Hord i (length don) q p ltac:(lia) Hq' Hp). pose proof (segment_range q (list_elem_of_lookup_2 _ _ _ Hq')) as (_ & ? & ?). unfold is_u32 in *.
      split; intros a Ha; (rewrite F2 by lia); auto.
    + exists m', d'. split; [|done]. cbn [length Boot.load_headers]. rewrite decide_True by lia.
      assert (proghdr_of (read_array (ph + 32 * Z.of_nat (length don)) (Z.to_nat SIZEOF_PROGHDR) m) = p) as Hread.
      { unfold ph. rewrite <-Z.add_assoc, scratch_bytes; [|done|lia|change (Z.of_nat (Z.to_nat SIZEOF_PROGHDR)) with 32; lia].
        unfold segments in Hp. rewrite list_lookup_fmap, lookup_seq_lt in Hp by lia. by injection Hp. }
      erewrite bind_Ret; [|reflexivity]. cbn [pc_mem]. rewrite Hread. erewrite bind_Ret; [|exact E1]. erewrite bind_Ret; [|exact E2].
      rewrite length_app in E. cbn [length] in E. rewrite u32_id; [|unfold is_u32, Boot.ELF, SIZEOF_PROGHDR in *; lia].
      replace (ph + 32 * Z.of_nat (length don) + SIZEOF_PROGHDR) with (ph + 32 * Z.of_nat (length don + 1)) by (unfold SIZEOF_PROGHDR; lia).
      exact E.
Qed.

(** C33. The boot loader loads the kernel.  From any memory and any state of a disk that
    holds a loadable ELF file from its second sector on, [bootmain] reads the headers
    and then, sector by sector, every segment to its physical address, so that in the
    end all segments are in memory at once, zeros included, and it calls the file's
    entry point. *)
Theorem bootmain_loads m d :
  loadable image → (lag d <= polls)%nat →
  ∃ m' d', Boot.bootmain polls (Machine m d) = Ret (Some (elf_entry (header image))) (Machine m' d') ∧
    Forall (in_place image m') (segments image).
Proof.
  intros Hld Hl. pose proof header_range as [Hoff Hnum]. pose proof (ld_headers _ Hld) as Hh. unfold is_u32 in *.
  destruct (readseg_ok Boot.ELF 4096 0 m d Hl) as (m1 & d1 & E1 & L1 & H1); [done..|].
  assert (scratch m1) as Hs.
  { intros a Ha. rewrite H1, decide_True; [f_equal; lia|]. change (sectors_of 4096 0) with 8. change (0 mod 512) with 0. lia. }
  destruct (load_headers_ok (segments image) [] m1 d1 Hld eq_refl L1 Hs (Forall_nil_2 _)) as (m2 & d2 & E2 & S2 & P2).
  exists m2, d2. split; [|exact P2]. unfold Boot.bootmain. erewrite bind_Ret; [|exact E1]. erewrite bind_Ret; [|reflexivity]. cbn [pc_mem].
  assert (∀ m, scratch m → elfhdr_of (read_array Boot.ELF (Z.to_nat SIZEOF_ELFHDR) m) = header image) as Hhdr.
  { intros m0 H0. unfold header. f_equal. rewrite <-(scratch_bytes m0 0 52) by (done || lia). done. }
  rewrite Hhdr, decide_False by (done || (intros Hn; apply Hn, Hld)). rewrite !u32_id by (unfold is_u32, Boot.ELF, SIZEOF_PROGHDR in *; lia).
  erewrite bind_Ret; [|].
  2:{ replace (Z.to_nat (elf_phnum (header image))) with (length (segments image)) by (unfold segments; by rewrite length_fmap, length_seq).
      rewrite Z.mul_0_r, Z.add_0_r in E2. exact E2. }
  erewrite bind_Ret; [|reflexivity]. cbn [pc_mem]. by rewrite Hhdr.
Qed.
End loader.

(** ** A drive that meets the laws

    It is busy for two answers after each command. *)
Record ata := Ata { ata_task : Z → Z; ata_lag : nat; ata_sect : list Z }.

Definition ata_drive (image : Z → list Z) : Drive ata := {|
  port_in r d := ((if decide (ata_lag d = 0%nat) then 0x50 else 0x80), Ata (ata_task d) (pred (ata_lag d)) (ata_sect d));
  port_out r v d :=
    if decide (r = 0x1F7) then Ata (ata_task d) 2 (image (lba (ata_task d)))
    else Ata (λ q, if decide (q = r) then v else ata_task d q) (ata_lag d) (ata_sect d);
  port_words r n d := (ata_sect d, d)
|}.

Definition ata_drive_ok (image : Z → list Z) (Hlen : ∀ n, length (image n) = 512%nat) (Hb : ∀ n, Forall is_u8 (image n)) :
  AtaDisk (ata_drive image) 2 image.
Proof.
  refine {| task := ata_task; lag := ata_lag; sector := ata_sect |}; cbn; try done.
  - intros d. eexists _, _. split_and!; [done| |done..]. by case_decide.
  - intros d r v Hd Hr. by rewrite decide_False by lia.
  - intros d Hd. exists d. split; [done|]. rewrite Hd. lia.
Defined.

(** A disk with a file of two segments behind its boot sector; the second segment
    does not begin at a sector and is longer in memory than in the file. *)
Definition pad (n : nat) (l : list Z) : list Z := take n (l ++ replicate n 0).
Definition le_words (l : list Z) : list Z := l ≫= λ w, [u8 w; u8 (Z.shiftr w 8); u8 (Z.shiftr w 16); u8 (Z.shiftr w 24)].
Definition tiny_elf : list Z :=
  pad 512 (le_words [ELF_MAGIC; 0; 0; 0; 0; 1; 0x100008; 52; 0; 0; 0x200034; 2; 0] ++
           le_words [1; 512; 0; 0x100000; 600; 600; 0; 0] ++ le_words [1; 1200; 0; 0x1004B0; 4; 10; 0; 0]) ++
  replicate 600 7 ++ pad 88 [] ++ [1; 2; 3; 4].
Definition tiny_image (n : Z) : list Z := if decide (n < 1) then replicate 512 0 else pad 512 (drop (Z.to_nat ((n - 1) * 512)) tiny_elf).

Lemma tiny_image_length n : length (tiny_image n) = 512%nat.
Proof. unfold tiny_image, pad. case_decide; [apply length_replicate|]. rewrite length_take, length_app, length_replicate. lia. Qed.

Lemma tiny_image_bytes n : Forall is_u8 (tiny_image n).
Proof.
  unfold tiny_image, pad. assert (Forall is_u8 (replicate 512 0)) as H0 by (apply Forall_replicate; unfold is_u8; lia).
  case_decide; [exact H0|]. apply Forall_take, Forall_app. split; [|exact H0]. apply Forall_drop.
  assert (forallb (λ b, (0 <=? b) && (b <? 256)) tiny_elf = true) as Hb by (vm_compute; reflexivity).
  apply Forall_forall. intros b Hin. rewrite forallb_forall in Hb. specialize (Hb b ltac:(by apply list_elem_of_In)).
  unfold is_u8. lia.
Qed.

Definition tiny_segments : list proghdr := [ProgHdr 1 512 0 0x100000 600 600 0 0; ProgHdr 1 1200 0 0x1004B0 4 10 0 0].

Lemma tiny_headers : elf_magic (header tiny_image) = ELF_MAGIC ∧ elf_entry (header tiny_image) = 0x100008 ∧
  elf_phoff (header tiny_image) = 52 ∧ elf_phnum (header tiny_image) = 2 ∧ segments tiny_image = tiny_segments.
Proof. vm_compute. repeat split. Qed.

Lemma tiny_loadable : loadable tiny_image.
Proof.
  destruct tiny_headers as (H1 & _ & H2 & H3 & H4). split; [exact H1|rewrite H2, H3; discriminate|rewrite H4; clear|rewrite H4; clear].
  - intros p. unfold tiny_segments. rewrite !elem_of_cons, elem_of_nil. intros [->|[->|[]]]; apply (bool_decide_unpack _); vm_compute; exact I.
  - intros [|[|i]] [|[|j]] p q Hij; try lia; intros Hp Hq; try done; injection Hp as <-; injection Hq as <-; right; vm_compute; discriminate.
Qed.

Lemma bootmain_loads_witness :
  ∃ m' d', @Boot.bootmain ata (ata_drive tiny_image) 2 (Machine (λ _, 255) (Ata (λ _, 0) 1 [])) = Ret (Some 0x100008) (Machine m' d') ∧
    Forall (in_place tiny_image m') tiny_segments.
Proof.
  destruct tiny_headers as (_ & He & _ & _ & Hs). rewrite <-He, <-Hs.
  exact (@bootmain_loads ata (ata_drive tiny_image) 2 tiny_image (ata_drive_ok tiny_image tiny_image_length tiny_image_bytes)
    (λ _, 255) (Ata (λ _, 0) 1 []) tiny_loadable (le_S 1 1 (le_n 1))).
Defined.
