(* ===== verification/Asm.v ===== *)
(** * The assembly of the kernel and of the user library
      (swtch.S, trapasm.S, vectors.pl, usys.S, initcode.S)

    The instructions these files use are operations on the registers and on memory,
    and each routine is the sequence of its instructions.  Memory is seen as words at
    addresses that are multiples of 4; every other access faults.  What the processor
    does when an interrupt or an [int] instruction arrives, with the table that
    [tvinit] sets up, is [hardware].  A C function is a parameter, of which the
    theorems only assume that it returns.

    The theorems: a process that was switched away from goes on where it called
    [swtch]; the frame at which [trap] looks holds the registers of what was
    interrupted, and what the kernel leaves in the frame is what the interrupted
    program goes on with; a new process starts with its trap frame; a system call of
    the library passes its number and its arguments to where [syscall] and [argint]
    look for them. *)

From stdpp Require Import base list gmap strings.
From Stdlib Require Import ZArith Lia.
From S2P Require Import Prelude KState Spinlock CString Proc Syscall Trap Vm.

(** ** The processor *)

Inductive reg := EAX | ECX | EDX | EBX | ESP | EBP | ESI | EDI.
Inductive sreg := ES | CS | SS | DS | FS | GS.
Definition reg_eqb (a b : reg) : bool :=
  match a, b with
  | EAX, EAX | ECX, ECX | EDX, EDX | EBX, EBX | ESP, ESP | EBP, EBP | ESI, ESI | EDI, EDI => true
  | _, _ => false
  end.
Definition sreg_eqb (a b : sreg) : bool :=
  match a, b with ES, ES | CS, CS | SS, SS | DS, DS | FS, FS | GS, GS => true | _, _ => false end.

Record pc := Pc { gp : reg → Z; sg : sreg → Z; flags : Z; ip : Z; wm : Z → Z }.
Definition set_gp (r : reg) (v : Z) (s : pc) : pc := Pc (λ q, if reg_eqb q r then v else gp s q) (sg s) (flags s) (ip s) (wm s).
Definition set_sg (r : sreg) (v : Z) (s : pc) : pc := Pc (gp s) (λ q, if sreg_eqb q r then v else sg s q) (flags s) (ip s) (wm s).
Definition set_flags (v : Z) (s : pc) : pc := Pc (gp s) (sg s) v (ip s) (wm s).
Definition set_ip (v : Z) (s : pc) : pc := Pc (gp s) (sg s) (flags s) v (wm s).
Definition set_wm (a v : Z) (s : pc) : pc := Pc (gp s) (sg s) (flags s) (ip s) (λ b, if decide (b = a) then v else wm s b).

Inductive operand := Imm (v : Z) | Reg (r : reg) | Mem (disp : Z) (r : reg).

Definition load (a : Z) : M pc Z := λ s, if decide (a mod 4 = 0) then Ret (wm s a) s else Fault "unaligned".
Definition store (a v : Z) : M pc unit := λ s, if decide (a mod 4 = 0) then Ret tt (set_wm a v s) else Fault "unaligned".

Definition value (o : operand) : M pc Z :=
  match o with
  | Imm v => mret (u32 v)
  | Reg r => gets (λ s, gp s r)
  | Mem d r => a ← gets (λ s, gp s r); load (u32 (a + d))
  end.

(** The operands are in the order of the assembler: source, destination. *)
Definition movl (src dst : operand) : M pc unit :=
  v ← value src;
  match dst with
  | Imm _ => fault "movl"
  | Reg r => modify (set_gp r v)
  | Mem d r => a ← gets (λ s, gp s r); store (u32 (a + d)) v
  end.
Definition addl (n : Z) (r : reg) : M pc unit := modify (λ s, set_gp r (u32 (gp s r + n)) s).

Definition push (v : Z) : M pc unit :=
  a ← gets (λ s, u32 (gp s ESP - 4));
  store a v ;;
  modify (set_gp ESP a).
Definition pop : M pc Z :=
  a ← gets (λ s, gp s ESP);
  v ← load a;
  modify (set_gp ESP (u32 (a + 4))) ;;
  mret v.

Definition pushl (o : operand) : M pc unit := v ← value o; push v.
Definition popl (r : reg) : M pc unit := v ← pop; modify (set_gp r v).
Definition pushl_seg (r : sreg) : M pc unit := v ← gets (λ s, sg s r); push v.
Definition popl_seg (r : sreg) : M pc unit := v ← pop; modify (set_sg r (u16 v)).

(** [movw %ax, %r]: a selector from the low half of [eax]. *)
Definition movw_seg (r : sreg) : M pc unit := modify (λ s, set_sg r (u16 (gp s EAX)) s).
(** [movw $v, %ax] *)
Definition movw_ax (v : Z) : M pc unit := modify (λ s, set_gp EAX (gp s EAX - u16 (gp s EAX) + u16 v) s).

Definition pushal : M pc unit :=
  sp ← gets (λ s, gp s ESP);
  pushl (Reg EAX) ;; pushl (Reg ECX) ;; pushl (Reg EDX) ;; pushl (Reg EBX) ;;
  push sp ;;
  pushl (Reg EBP) ;; pushl (Reg ESI) ;; pushl (Reg EDI).
Definition popal : M pc unit :=
  popl EDI ;; popl ESI ;; popl EBP ;;
  pop ;;
  popl EBX ;; popl EDX ;; popl ECX ;; popl EAX.

Definition ret : M pc unit := a ← pop; modify (set_ip a).

(** [call f], where [here] is the address behind the instruction and [f] is what the
    function does up to its return. *)
Definition call_c (here : Z) (f : M pc unit) : M pc unit := push here ;; f.

(** ** Interrupts *)

Definition CPL (s : pc) : Z := Z.land (sg s CS) 3.
Definition gate_target (g : gatedesc) : Z := Z.lor (Z.shiftl (gd_off_31_16 g) 16) (gd_off_15_0 g).

Section hardware.
(** The table of gates, and the stack the task state segment names for the kernel. *)
Context (idt : list gatedesc) (ss0 esp0 : Z).

(** The processor goes to gate [n]; [err] is the error code, for those exceptions that
    have one.  From user mode the stack is changed first; an interrupt gate disables
    interrupts. *)
Definition hardware (n : Z) (err : option Z) : M pc unit :=
  match idt !! Z.to_nat n with
  | None => fault "no gate"
  | Some g =>
      s ← gets id;
      (if decide (CPL s = 3) then
         modify (set_gp ESP esp0) ;; modify (set_sg SS ss0) ;;
         push (sg s SS) ;; push (gp s ESP)
       else mret tt) ;;
      push (flags s) ;; push (sg s CS) ;; push (ip s) ;;
      match err with Some e => push e | None => mret tt end ;;
      modify (set_sg CS (gd_cs g)) ;;
      modify (set_ip (gate_target g)) ;;
      if decide (gd_type g = STS_IG32) then modify (λ s, set_flags (Z.ldiff (flags s) FL_IF) s) else mret tt
  end.

(** [int $n] from the address before [next].  A gate that is not for the user is a
    general protection fault. *)
Definition int (n next : Z) : M pc unit :=
  match idt !! Z.to_nat n with
  | None => fault "no gate"
  | Some g =>
      s ← gets id;
      if decide (CPL s <= gd_dpl g) then modify (set_ip next) ;; hardware n None
      else hardware 13 (Some (8 * n + 2))
  end.
End hardware.

(** Back to where the frame says; the stack is popped when that is user mode. *)
Definition iret : M pc unit :=
  from ← gets CPL;
  a ← pop; cs ← pop; fl ← pop;
  modify (set_ip a) ;; modify (set_sg CS (u16 cs)) ;; modify (set_flags fl) ;;
  if decide (from < Z.land (u16 cs) 3) then
    sp ← pop; ss ← pop;
    modify (set_gp ESP sp) ;; modify (set_sg SS (u16 ss))
  else mret tt.

(** ** swtch.S *)

Definition swtch : M pc unit :=
  movl (Mem 4 ESP) (Reg EAX) ;;
  movl (Mem 8 ESP) (Reg EDX) ;;
  pushl (Reg EBP) ;;
  pushl (Reg EBX) ;;
  pushl (Reg ESI) ;;
  pushl (Reg EDI) ;;
  movl (Reg ESP) (Mem 0 EAX) ;;
  movl (Reg EDX) (Reg ESP) ;;
  popl EDI ;;
  popl ESI ;;
  popl EBX ;;
  popl EBP ;;
  ret.

(** ** vectors.S, as vectors.pl prints it, and trapasm.S *)

(** The exceptions for which the processor pushes an error code. *)
Definition has_error (i : Z) : bool :=
  bool_decide (i = 8 ∨ 10 <= i <= 14 ∨ i = 17).

(** [vector]i up to its jump to [alltraps]. *)
Definition vector (i : Z) : M pc unit :=
  (if negb (has_error i) then pushl (Imm 0) else mret tt) ;;
  pushl (Imm i).

Definition trapret : M pc unit :=
  popal ;;
  popl_seg GS ;;
  popl_seg FS ;;
  popl_seg ES ;;
  popl_seg DS ;;
  addl 8 ESP ;;
  iret.

(** [alltraps] up to the call of [trap], and the whole of it; [trap_here] and
    [signals_here] are the addresses behind the calls. *)
Definition alltraps_enter : M pc unit :=
  pushl_seg DS ;;
  pushl_seg ES ;;
  pushl_seg FS ;;
  pushl_seg GS ;;
  pushal ;;
  movw_ax (Z.shiftl SEG_KDATA 3) ;;
  movw_seg DS ;;
  movw_seg ES ;;
  movw_ax (Z.shiftl SEG_KCPU 3) ;;
  movw_seg FS ;;
  movw_seg GS ;;
  pushl (Reg ESP).

Definition alltraps (trap_here signals_here : Z) (trap handleSignals : M pc unit) : M pc unit :=
  alltraps_enter ;;
  call_c trap_here trap ;;
  call_c signals_here handleSignals ;;
  addl 4 ESP ;;
  trapret.

(** ** usys.S and initcode.S *)

(** The stub of a system call.  [next] is the address behind its [int]; [handled] is
    what the kernel runs from the entry of the vector to its [iret]. *)
Definition SYSCALL (idt : list gatedesc) (ss0 esp0 num next : Z) (handled : M pc unit) : M pc unit :=
  movl (Imm num) (Reg EAX) ;;
  int idt ss0 esp0 T_SYSCALL next ;;
  handled ;;
  ret.

(** The stubs with the numbers of syscall.h. *)
Definition usys : list (string * Z) := [
  ("fork", 1); ("exit", 2); ("wait", 3); ("pipe", 4); ("read", 5); ("write", 16); ("close", 21); ("kill", 6); ("exec", 7);
  ("open", 15); ("mknod", 17); ("unlink", 18); ("fstat", 8); ("link", 19); ("mkdir", 20); ("chdir", 9); ("dup", 10);
  ("getpid", 11); ("sbrk", 12); ("sleep", 13); ("uptime", 14); ("signal", 22); ("sigsend", 25); ("sigreturn", 26);
  ("advanceprocstats", 23); ("wait_stat", 24); ("priority", 27)]%string.

Definition SYS_exec : Z := 7.
Definition SYS_exit : Z := 2.

(** The first program, up to its first [int]; [init] and [argv] are the addresses of
    its data.  If exec returns, it calls exit for ever. *)
Definition initcode_start (argv init : Z) : M pc unit :=
  pushl (Imm argv) ;;
  pushl (Imm init) ;;
  pushl (Imm 0) ;;
  movl (Imm SYS_exec) (Reg EAX).

Fixpoint initcode_exit (idt : list gatedesc) (ss0 esp0 next : Z) (handled : M pc unit) (rounds : nat) : M pc unit :=
  movl (Imm SYS_exit) (Reg EAX) ;;
  int idt ss0 esp0 T_SYSCALL next ;;
  handled ;;
  match rounds with O => block | S n => initcode_exit idt ss0 esp0 next handled n end.

Definition initcode (idt : list gatedesc) (ss0 esp0 argv init next next' : Z) (handled : M pc unit) (rounds : nat) : M pc unit :=
  initcode_start argv init ;;
  int idt ss0 esp0 T_SYSCALL next ;;
  handled ;;
  initcode_exit idt ss0 esp0 next' handled rounds.

(** ** Instructions on a stack that is in place *)

Definition aligned (a : Z) : Prop := a mod 4 = 0.

Lemma push_run s v : aligned (gp s ESP) → 4 <= gp s ESP < 2 ^ 32 →
  push v s = Ret tt (set_gp ESP (gp s ESP - 4) (set_wm (gp s ESP - 4) v s)).
Proof.
  unfold aligned. intros Ha He. unfold push, store. mstep. rewrite u32_id by lia.
  rewrite decide_True; [done|]. rewrite Zminus_mod, Ha. done.
Qed.

Lemma pop_run s : aligned (gp s ESP) → 0 <= gp s ESP < 2 ^ 32 - 4 →
  pop s = Ret (wm s (gp s ESP)) (set_gp ESP (gp s ESP + 4) s).
Proof.
  unfold aligned. intros Ha He. unfold pop, load. mstep. rewrite decide_True by done. by rewrite u32_id by lia.
Qed.

Lemma load_run s a : aligned a → load a s = Ret (wm s a) s.
Proof. intros Ha. unfold load. by rewrite decide_True. Qed.
Lemma store_run s a v : aligned a → store a v s = Ret tt (set_wm a v s).
Proof. intros Ha. unfold store. by rewrite decide_True. Qed.

Lemma aligned_add a k : aligned a → aligned (a + 4 * k).
Proof. unfold aligned. intros Ha. rewrite Z.mul_comm, Z_mod_plus_full. done. Qed.

Ltac alig := unfold aligned in *; Z.div_mod_to_equations; lia.

Lemma movl_load s d q r : aligned (gp s q + d) → 0 <= gp s q + d < 2 ^ 32 →
  movl (Mem d q) (Reg r) s = Ret tt (set_gp r (wm s (gp s q + d)) s).
Proof. intros Ha Hr. unfold movl, value. mstep. rewrite u32_id by done. by rewrite load_run. Qed.
Lemma movl_store s d q r : aligned (gp s q + d) → 0 <= gp s q + d < 2 ^ 32 →
  movl (Reg r) (Mem d q) s = Ret tt (set_wm (gp s q + d) (gp s r) s).
Proof. intros Ha Hr. unfold movl, value. mstep. rewrite u32_id by done. by rewrite store_run. Qed.
Lemma movl_reg s q r : movl (Reg q) (Reg r) s = Ret tt (set_gp r (gp s q) s).
Proof. done. Qed.
Lemma pushl_run s r : aligned (gp s ESP) → 4 <= gp s ESP < 2 ^ 32 →
  pushl (Reg r) s = Ret tt (set_gp ESP (gp s ESP - 4) (set_wm (gp s ESP - 4) (gp s r) s)).
Proof. intros. unfold pushl, value. mstep. by apply push_run. Qed.
Lemma pushl_seg_run s r : aligned (gp s ESP) → 4 <= gp s ESP < 2 ^ 32 →
  pushl_seg r s = Ret tt (set_gp ESP (gp s ESP - 4) (set_wm (gp s ESP - 4) (sg s r) s)).
Proof. intros. unfold pushl_seg. mstep. by apply push_run. Qed.
Lemma popl_run s r : aligned (gp s ESP) → 0 <= gp s ESP < 2 ^ 32 - 4 →
  popl r s = Ret tt (set_gp r (wm s (gp s ESP)) (set_gp ESP (gp s ESP + 4) s)).
Proof. intros. unfold popl. mstep. by rewrite pop_run. Qed.
Lemma popl_seg_run s r : aligned (gp s ESP) → 0 <= gp s ESP < 2 ^ 32 - 4 →
  popl_seg r s = Ret tt (set_sg r (u16 (wm s (gp s ESP))) (set_gp ESP (gp s ESP + 4) s)).
Proof. intros. unfold popl_seg. mstep. by rewrite pop_run. Qed.
Lemma ret_run s : aligned (gp s ESP) → 0 <= gp s ESP < 2 ^ 32 - 4 →
  ret s = Ret tt (set_ip (wm s (gp s ESP)) (set_gp ESP (gp s ESP + 4) s)).
Proof. intros. unfold ret. mstep. by rewrite pop_run. Qed.

Lemma addl_run s n r : 0 <= gp s r + n < 2 ^ 32 → addl n r s = Ret tt (set_gp r (gp s r + n) s).
Proof. intros. unfold addl. mstep. by rewrite u32_id. Qed.
Lemma modify_run (f : pc → pc) s : modify f s = Ret tt (f s).
Proof. done. Qed.
Lemma gets_run A (f : pc → A) s : gets f s = Ret (f s) s.
Proof. done. Qed.
Lemma mret_run (s : pc) : (mret tt : M pc unit) s = Ret tt s.
Proof. done. Qed.
Lemma pushl_imm s v : 0 <= v < 2 ^ 32 → aligned (gp s ESP) → 4 <= gp s ESP < 2 ^ 32 →
  pushl (Imm v) s = Ret tt (set_gp ESP (gp s ESP - 4) (set_wm (gp s ESP - 4) v s)).
Proof. intros. unfold pushl, value. mstep. rewrite u32_id by done. by apply push_run. Qed.

Lemma mask_run (P : Prop) `{Decision P} s :
  (if decide P then modify (λ s, set_flags (Z.ldiff (flags s) FL_IF) s) else mret tt) s =
  Ret tt (set_flags (if decide P then Z.ldiff (flags s) FL_IF else flags s) s).
Proof. destruct s. by case_decide. Qed.

(** Run the first instruction of the goal. *)
Ltac look := cbn [gp sg flags ip wm set_gp set_sg set_flags set_ip set_wm reg_eqb sreg_eqb].
Ltac side := look; first [lia | alig | done].
Ltac run H := erewrite bind_Ret; [|solve [apply H; side]]; look.
Ltac runs H := repeat (run H).

(** The word at an address after some were stored elsewhere. *)
Ltac word := repeat first [rewrite decide_True by lia | rewrite decide_False by lia].

(** ** The context switch *)

Definition context_at (m : Z → Z) (a : Z) : context := Context (m a) (m (a + 4)) (m (a + 8)) (m (a + 12)) (m (a + 16)).

(** Two ranges of addresses that have nothing in common. *)
Definition apart (a n b k : Z) : Prop := a + n <= b ∨ b + k <= a.

(** A call [swtch(&old, new)] with the return address on top of the stack: the slot
    [old] and the context [new] are in memory, apart from each other and from the
    stack below the call. *)
Record switch_call (s : pc) (e old new : Z) : Prop := {
  sc_esp : gp s ESP = e; sc_old : wm s (e + 4) = old; sc_new : wm s (e + 8) = new;
  sc_aligned : aligned e; sc_old_aligned : aligned old; sc_new_aligned : aligned new;
  sc_stack : 16 <= e < 2 ^ 32 - 8; sc_old_range : 0 <= old < 2 ^ 32; sc_new_range : 0 <= new < 2 ^ 32 - 20;
  sc_old_apart : apart old 4 (e - 16) 20; sc_new_apart : apart new 20 (e - 16) 16; sc_slot_apart : apart old 4 new 20
}.

Lemma swtch_run s e old new : switch_call s e old new → ∃ s',
  swtch s = Ret tt s' ∧
  wm s' old = e - 16 ∧ context_at (wm s') (e - 16) = Context (gp s EDI) (gp s ESI) (gp s EBX) (gp s EBP) (wm s e) ∧
  context_at (wm s) new = Context (gp s' EDI) (gp s' ESI) (gp s' EBX) (gp s' EBP) (ip s') ∧
  gp s' ESP = new + 20 ∧ sg s' = sg s ∧ flags s' = flags s ∧
  (∀ b, b ≠ old → ¬ (e - 16 <= b < e) → wm s' b = wm s b).
Proof.
  intros [He Ho Hn Ha Hoa Hna Hs Hor Hnr A1 A2 A3]. unfold apart in *.
  subst e. eexists. split; [unfold swtch; runs movl_load; rewrite Ho, Hn; runs pushl_run; run movl_store; run movl_reg; runs popl_run; apply ret_run; side|].
  look. split_and!; try done; [word; lia|unfold context_at; f_equal; word..|lia|by intros b Hb Hr; word].
  all: first [done | f_equal; lia].
Qed.

(** C5. A process goes on where it called [swtch].  When [swtch] is called in [s], it
    saves the callee-saved registers and the return address as a context on the stack
    and its address in the slot, and goes on at the other context.  If later, in
    whatever state [t], someone calls [swtch] for the saved context, and its words are
    as they were left, then that call comes back as if the first one had returned: at
    the return address, with the stack pointer, [ebx], [esi], [edi] and [ebp] of [s],
    and no memory changed but the other call's slot and the words below its stack. *)
Theorem swtch_resumes s e old new t e' old' :
  switch_call s e old new →
  ∃ s1, swtch s = Ret tt s1 ∧ ip s1 = cx_eip (context_at (wm s) new) ∧ wm s1 old = e - 16 ∧
    let c := Context (gp s EDI) (gp s ESI) (gp s EBX) (gp s EBP) (wm s e) in
    context_at (wm s1) (e - 16) = c ∧
    (switch_call t e' old' (wm s1 old) → context_at (wm t) (wm s1 old) = c →
     ∃ t1, swtch t = Ret tt t1 ∧ ip t1 = wm s e ∧ gp t1 ESP = e + 4 ∧
       (∀ r, r ∈ [EBX; ESI; EDI; EBP] → gp t1 r = gp s r) ∧
       sg t1 = sg t ∧ (∀ b, b ≠ old' → ¬ (e' - 16 <= b < e') → wm t1 b = wm t b)).
Proof.
  intros Hs. destruct (swtch_run _ _ _ _ Hs) as (s1 & Hrun & Hslot & Hctx & Hnew & _ & _ & _ & _).
  exists s1. split; [done|]. split; [by rewrite Hnew|]. split; [done|]. split; [done|]. intros Ht Hkept. rewrite Hslot in *.
  destruct (swtch_run _ _ _ _ Ht) as (t1 & Hrun' & _ & _ & Hback & Hesp & Hsg & _ & Hmem).
  rewrite Hkept in Hback. injection Hback as H1 H2 H3 H4 H5.
  exists t1. split_and!; try done; [lia|]. intros r Hr. set_unfold. naive_solver.
Qed.

(** ** Traps *)

(** [struct trapframe] in memory: nineteen words, six of them with 16 bits of padding. *)
Definition tf_at (m : Z → Z) (a : Z) : trapframe :=
  let w i := m (a + 4 * i) in
  TrapFrame (w 0) (w 1) (w 2) (w 3) (w 4) (w 5) (w 6) (w 7)
    (u16 (w 8)) (w 8 / 2 ^ 16) (u16 (w 9)) (w 9 / 2 ^ 16) (u16 (w 10)) (w 10 / 2 ^ 16) (u16 (w 11)) (w 11 / 2 ^ 16)
    (w 12) (w 13) (w 14) (u16 (w 15)) (w 15 / 2 ^ 16) (w 16) (w 17) (u16 (w 18)) (w 18 / 2 ^ 16).

Lemma tf_at_words m a w0 w1 w2 w3 w4 w5 w6 w7 w8 w9 w10 w11 w12 w13 w14 w15 w16 w17 w18 :
  (∀ i v, [w0; w1; w2; w3; w4; w5; w6; w7; w8; w9; w10; w11; w12; w13; w14; w15; w16; w17; w18] !! i = Some v → m (a + 4 * Z.of_nat i) = v) →
  tf_at m a = TrapFrame w0 w1 w2 w3 w4 w5 w6 w7 (u16 w8) (w8 / 2 ^ 16) (u16 w9) (w9 / 2 ^ 16) (u16 w10) (w10 / 2 ^ 16)
    (u16 w11) (w11 / 2 ^ 16) w12 w13 w14 (u16 w15) (w15 / 2 ^ 16) w16 w17 (u16 w18) (w18 / 2 ^ 16).
Proof.
  intros H. unfold tf_at.
  rewrite (H 0%nat _ eq_refl : m (a + 4 * 0) = _), (H 1%nat _ eq_refl : m (a + 4 * 1) = _), (H 2%nat _ eq_refl : m (a + 4 * 2) = _), (H 3%nat _ eq_refl : m (a + 4 * 3) = _), (H 4%nat _ eq_refl : m (a + 4 * 4) = _).
  rewrite (H 5%nat _ eq_refl : m (a + 4 * 5) = _), (H 6%nat _ eq_refl : m (a + 4 * 6) = _), (H 7%nat _ eq_refl : m (a + 4 * 7) = _), (H 8%nat _ eq_refl : m (a + 4 * 8) = _), (H 9%nat _ eq_refl : m (a + 4 * 9) = _).
  rewrite (H 10%nat _ eq_refl : m (a + 4 * 10) = _), (H 11%nat _ eq_refl : m (a + 4 * 11) = _), (H 12%nat _ eq_refl : m (a + 4 * 12) = _), (H 13%nat _ eq_refl : m (a + 4 * 13) = _), (H 14%nat _ eq_refl : m (a + 4 * 14) = _).
  rewrite (H 15%nat _ eq_refl : m (a + 4 * 15) = _), (H 16%nat _ eq_refl : m (a + 4 * 16) = _), (H 17%nat _ eq_refl : m (a + 4 * 17) = _), (H 18%nat _ eq_refl : m (a + 4 * 18) = _).
  done.
Qed.

Lemma tf_at_ext m m' a : (∀ i, 0 <= i < 19 → m (a + 4 * i) = m' (a + 4 * i)) → tf_at m a = tf_at m' a.
Proof. intros H. unfold tf_at. by rewrite !H by lia. Qed.

(** The frame of what ran in [s] when trap [n] came, built below [top], above which are
    the words that [esp] and [ss] are when it ran in user mode. *)
Definition saved (s : pc) (n err top esp ss : Z) : trapframe :=
  TrapFrame (gp s EDI) (gp s ESI) (gp s EBP) (top - 36) (gp s EBX) (gp s EDX) (gp s ECX) (gp s EAX)
    (sg s GS) 0 (sg s FS) 0 (sg s ES) 0 (sg s DS) 0
    n err (ip s) (sg s CS) 0 (flags s) esp (u16 ss) (ss / 2 ^ 16).

Lemma gate_target_SETGATE i sel off d : 0 <= off < 2 ^ 32 → gate_target (SETGATE i sel off d) = off.
Proof.
  intros H. unfold gate_target, SETGATE. cbn [gd_off_31_16 gd_off_15_0]. rewrite u32_id by done.
  apply Z.bits_inj'. intros n Hn. rewrite Z.lor_spec, Z.land_spec.
  change 0xffff with (Z.ones 16). rewrite Z.testbit_ones_nonneg by lia.
  destruct (decide (n < 16)) as [Hl|Hl].
  - rewrite Z.shiftl_spec_low by lia. rewrite (proj2 (Z.ltb_lt n 16)) by lia. by rewrite andb_true_r.
  - rewrite Z.shiftl_spec, Z.shiftr_spec by lia. rewrite (proj2 (Z.ltb_ge n 16)) by lia.
    rewrite andb_false_r, orb_false_r. f_equal. lia.
Qed.

(** A selector that was moved into the low half of a register. *)
Lemma u16_low x v : u16 (x - u16 x + u16 v) = u16 v.
Proof.
  unfold u16. replace (x - x mod 2 ^ 16) with (x / 2 ^ 16 * 2 ^ 16).
  - by rewrite Z.add_comm, Z_mod_plus_full, Zmod_mod.
  - pose proof (Z_div_mod_eq_full x (2 ^ 16)). lia.
Qed.

(** The gate of vector [n] after [tvinit]. *)
Definition gate (vectors : Z → Z) (n : Z) : gatedesc :=
  if decide (n = T_SYSCALL) then SETGATE 1 (Z.shiftl SEG_KCODE 3) (vectors n) DPL_USER
  else SETGATE 0 (Z.shiftl SEG_KCODE 3) (vectors n) 0.

Lemma gate_facts n vectors : (∀ i, 0 <= vectors i < 2 ^ 32) →
  gd_cs (gate vectors n) = Z.shiftl SEG_KCODE 3 ∧ gate_target (gate vectors n) = vectors n ∧
  (gd_type (gate vectors n) = STS_IG32 ↔ n ≠ T_SYSCALL) ∧ (gd_dpl (gate vectors n) = if decide (n = T_SYSCALL) then 3 else 0).
Proof.
  intros Hv. unfold gate. destruct (decide (n = T_SYSCALL)) as [Hn|Hn]; rewrite gate_target_SETGATE by apply Hv;
    split_and!; try done; by split.
Qed.

Lemma gate_at vectors n : 0 <= n < 256 → idt_entries vectors !! Z.to_nat n = Some (gate vectors n).
Proof.
  intros Hn. unfold idt_entries, gate. case_decide as Hs.
  - subst n. by rewrite list_lookup_insert_eq by (rewrite length_fmap, length_seq; vm_compute; lia).
  - rewrite list_lookup_insert_ne by (unfold T_SYSCALL in *; lia). rewrite list_lookup_fmap, lookup_seq_lt by lia.
    cbn [fmap option_fmap option_map]. by rewrite Nat.add_0_l, Z2Nat.id by lia.
Qed.

(** A C function, called with its return address on top of the stack, returns there. *)
Definition pushed (v : Z) (s : pc) : pc := set_gp ESP (gp s ESP - 4) (set_wm (gp s ESP - 4) v s).
Definition c_returns (f : M pc unit) (s s' : pc) : Prop :=
  f s = Ret tt s' ∧ gp s' ESP = gp s ESP + 4 ∧ sg s' = sg s ∧ ip s' = wm s (gp s ESP).

Section traps.
(** The entry points of vectors.S and the kernel's stack in the task state segment. *)
Context (vectors : Z → Z) (ss0 esp0 : Z).
Hypothesis vectors_ok : ∀ i, 0 <= vectors i < 2 ^ 32.
Abbreviation hw := (hardware (idt_entries vectors) ss0 esp0).

(** Where the frame goes: for a trap from user mode below the two words that keep the
    user's stack, on the kernel's stack; else below the stack pointer. *)
Definition frame_top (s : pc) : Z := if decide (CPL s = 3) then esp0 - 8 else gp s ESP.

Record trappable (s : pc) (n : Z) (err : option Z) : Prop := {
  tr_number : 0 <= n < 256; tr_err : is_Some err ↔ has_error n = true;
  tr_aligned : aligned (frame_top s); tr_room : 80 <= frame_top s < 2 ^ 32 - 12;
  tr_selectors : ∀ r, 0 <= sg s r < 2 ^ 16; tr_ss0 : 0 <= ss0 < 2 ^ 16
}.

Lemma hardware_run s n err : trappable s n err → ∃ s',
  (hw n err ;; vector n) s = Ret tt s' ∧
  gp s' ESP = frame_top s - 20 ∧ (∀ r, r ≠ ESP → gp s' r = gp s r) ∧
  sg s' CS = Z.shiftl SEG_KCODE 3 ∧ sg s' SS = (if decide (CPL s = 3) then ss0 else sg s SS) ∧
  (∀ r, r ≠ CS → r ≠ SS → sg s' r = sg s r) ∧ ip s' = vectors n ∧
  flags s' = (if decide (n = T_SYSCALL) then flags s else Z.ldiff (flags s) FL_IF) ∧
  let top := frame_top s in
  wm s' (top - 20) = n ∧ wm s' (top - 16) = default 0 err ∧ wm s' (top - 12) = ip s ∧ wm s' (top - 8) = sg s CS ∧
  wm s' (top - 4) = flags s ∧ (CPL s = 3 → wm s' top = gp s ESP ∧ wm s' (top + 4) = sg s SS) ∧
  (∀ b, ¬ (top - 20 <= b < top + (if decide (CPL s = 3) then 8 else 0)) → wm s' b = wm s b).
Proof.
  intros [Hn He Ha Hr Hsel Hss]. unfold hardware, vector. rewrite gate_at by done. unfold frame_top in *.
  rewrite bind_assoc. erewrite bind_Ret; [|done].
  assert (negb (has_error n) = match err with Some _ => false | None => true end) as ->.
  { destruct err as [e|]; [by rewrite (proj1 He) by eauto|]. destruct (has_error n); [|done]. by destruct He as [_ [? [=]]]. }
  destruct (gate_facts n vectors) as (-> & -> & Ht & _); [done|]. rewrite (decide_ext _ (n ≠ T_SYSCALL) _ _ Ht). clear Ht.
  cbn [id]. destruct (decide (CPL s = 3)) as [Hu|Hu], err as [e|]; eexists; (split;
    [repeat (first [rewrite bind_assoc | run push_run | run modify_run | run mret_run | run mask_run]); apply pushl_imm; side|]).
  all: look; split_and!; try done; try lia; try (by intros [] ?); try (by intros [] ??).
  all: try (intros _; split). all: try (intros b Hb). all: word; try done.
  all: by destruct (decide (n ≠ T_SYSCALL)), (decide (n = T_SYSCALL)).
Qed.

Lemma alltraps_enter_run s a : aligned a → gp s ESP = a → 56 <= a < 2 ^ 32 → ∃ s',
  alltraps_enter s = Ret tt s' ∧ gp s' ESP = a - 52 ∧
  sg s' DS = Z.shiftl SEG_KDATA 3 ∧ sg s' ES = Z.shiftl SEG_KDATA 3 ∧
  sg s' FS = Z.shiftl SEG_KCPU 3 ∧ sg s' GS = Z.shiftl SEG_KCPU 3 ∧
  sg s' CS = sg s CS ∧ sg s' SS = sg s SS ∧ ip s' = ip s ∧ flags s' = flags s ∧
  (∀ i v, [a - 48; gp s EDI; gp s ESI; gp s EBP; a - 16; gp s EBX; gp s EDX; gp s ECX; gp s EAX;
     sg s GS; sg s FS; sg s ES; sg s DS] !! i = Some v → wm s' (a - 52 + 4 * Z.of_nat i) = v) ∧
  (∀ b, ¬ (a - 52 <= b < a) → wm s' b = wm s b).
Proof.
  intros Ha He Hr. subst a. eexists. split.
  { unfold alltraps_enter, pushal. runs pushl_seg_run. rewrite bind_assoc. run gets_run.
    repeat (first [rewrite bind_assoc | run pushl_run | run push_run | run modify_run | run mret_run]). apply pushl_run; side. }
  look. split_and!; try done; try lia; try (by rewrite u16_low).
  - intros i v Hi. repeat (destruct i as [|i]; [injection Hi as <-; word; lia|cbn [lookup] in Hi]). by destruct i.
  - intros b Hb. by word.
Qed.
Lemma selector_low v : 0 <= v < 2 ^ 16 → u16 v = v ∧ v / 2 ^ 16 = 0.
Proof. intros. unfold u16. by rewrite Z.mod_small, Z.div_small. Qed.

(** What [trap] is called with: the address of a frame that holds the registers of
    what was interrupted. *)
Record entered (s : pc) (n : Z) (err : option Z) (t : pc) : Prop := {
  en_esp : gp t ESP = frame_top s - 72; en_arg : wm t (frame_top s - 72) = frame_top s - 68;
  en_frame : tf_at (wm t) (frame_top s - 68) =
    (if decide (CPL s = 3) then saved s n (default 0 err) (frame_top s) (gp s ESP) (sg s SS)
     else saved s n (default 0 err) (frame_top s) (wm s (gp s ESP)) (wm s (gp s ESP + 4)));
  en_cs : sg t CS = Z.shiftl SEG_KCODE 3; en_ss : sg t SS = (if decide (CPL s = 3) then ss0 else sg s SS);
  en_ds : sg t DS = Z.shiftl SEG_KDATA 3; en_es : sg t ES = Z.shiftl SEG_KDATA 3;
  en_fs : sg t FS = Z.shiftl SEG_KCPU 3; en_gs : sg t GS = Z.shiftl SEG_KCPU 3;
  en_flags : flags t = (if decide (n = T_SYSCALL) then flags s else Z.ldiff (flags s) FL_IF);
  en_mem : ∀ b, ¬ (frame_top s - 72 <= b < frame_top s + (if decide (CPL s = 3) then 8 else 0)) → wm t b = wm s b
}.

Lemma entry_run s n err : trappable s n err → ∃ s0 t,
  (hw n err ;; vector n) s = Ret tt s0 ∧ ip s0 = vectors n ∧ alltraps_enter s0 = Ret tt t ∧ entered s n err t.
Proof.
  intros Ht. pose proof Ht as [Hn He Ha Hr Hsel Hss]. destruct (hardware_run _ _ _ Ht) as
    (s0 & Hrun & Hesp & Hgp & Hcs & Hss' & Hsg & Hip & Hfl & Hw1 & Hw2 & Hw3 & Hw4 & Hw5 & Hu & Hm).
  destruct (alltraps_enter_run s0 (frame_top s - 20)) as (t & Hrun' & Hesp' & ? & ? & ? & ? & Hc & Hs & Hi & Hf & Hw & Hm');
    [alig|done|lia|].
  exists s0, t. split_and!; try done. split; try congruence; try lia.
  - replace (frame_top s - 72) with (frame_top s - 20 - 52 + 4 * Z.of_nat 0) by lia. rewrite (Hw 0%nat _ eq_refl). lia.
  - rewrite !Hgp, !Hsg in Hw by done.
    assert (wm s0 (frame_top s) = (if decide (CPL s = 3) then gp s ESP else wm s (gp s ESP)) ∧
      wm s0 (frame_top s + 4) = (if decide (CPL s = 3) then sg s SS else wm s (gp s ESP + 4))) as Hu'.
    { unfold frame_top in *. destruct (decide (CPL s = 3)) as [H3|H3]; [by apply Hu|]. split; apply Hm; lia. }
    rewrite (tf_at_words (wm t) (frame_top s - 68) (gp s EDI) (gp s ESI) (gp s EBP) (frame_top s - 36) (gp s EBX) (gp s EDX)
      (gp s ECX) (gp s EAX) (sg s GS) (sg s FS) (sg s ES) (sg s DS) n (default 0 err) (ip s) (sg s CS) (flags s)
      (if decide (CPL s = 3) then gp s ESP else wm s (gp s ESP)) (if decide (CPL s = 3) then sg s SS else wm s (gp s ESP + 4))).
    + unfold saved. destruct (selector_low (sg s GS) (Hsel GS)) as [-> ->], (selector_low (sg s FS) (Hsel FS)) as [-> ->],
        (selector_low (sg s ES) (Hsel ES)) as [-> ->], (selector_low (sg s DS) (Hsel DS)) as [-> ->],
        (selector_low (sg s CS) (Hsel CS)) as [-> ->]. by case_decide.
    + intros i v E.
      do 12 (destruct i as [|i]; [injection E as <-;
        match goal with |- wm t (_ + 4 * Z.of_nat ?k) = _ => transitivity (wm t (frame_top s - 20 - 52 + 4 * Z.of_nat (S k))) end;
        [f_equal; lia|erewrite Hw by reflexivity; lia]|cbn [lookup] in E]).
      rewrite Hm' by lia.
      do 5 (destruct i as [|i]; [injection E as <-;
        first [solve [etransitivity; [|exact Hw1]; f_equal; lia] | solve [etransitivity; [|exact Hw2]; f_equal; lia]
          | solve [etransitivity; [|exact Hw3]; f_equal; lia] | solve [etransitivity; [|exact Hw4]; f_equal; lia] | etransitivity; [|exact Hw5]; f_equal; lia]|cbn [lookup] in E]).
      do 2 (destruct i as [|i]; [injection E as <-;
        first [solve [etransitivity; [|exact (proj1 Hu')]; f_equal; lia] | etransitivity; [|exact (proj2 Hu')]; f_equal; lia]|cbn [lookup] in E]).
      by destruct i.
  - intros b Hb. destruct (decide (CPL s = 3)); by rewrite Hm', Hm by lia.
Qed.
(** What runs after [trapret] at the frame [f]. *)
Record resumed (f : trapframe) (sp ss : Z) (s : pc) : Prop := {
  rs_edi : gp s EDI = tf_edi f; rs_esi : gp s ESI = tf_esi f; rs_ebp : gp s EBP = tf_ebp f; rs_ebx : gp s EBX = tf_ebx f;
  rs_edx : gp s EDX = tf_edx f; rs_ecx : gp s ECX = tf_ecx f; rs_eax : gp s EAX = tf_eax f; rs_esp : gp s ESP = sp;
  rs_gs : sg s GS = tf_gs f; rs_fs : sg s FS = tf_fs f; rs_es : sg s ES = tf_es f; rs_ds : sg s DS = tf_ds f;
  rs_cs : sg s CS = tf_cs f; rs_ss : sg s SS = ss; rs_ip : ip s = tf_eip f; rs_flags : flags s = tf_eflags f
}.

Lemma trapret_run t tf : gp t ESP = tf → aligned tf → 0 <= tf < 2 ^ 32 - 80 → CPL t = 0 → ∃ s',
  trapret t = Ret tt s' ∧ wm s' = wm t ∧
  let f := tf_at (wm t) tf in
  if decide (0 < Z.land (tf_cs f) 3) then resumed f (tf_esp f) (tf_ss f) s' else resumed f (tf + 68) (sg t SS) s'.
Proof.
  intros <- Ha Hr H0. unfold trapret, popal.
  repeat (first [rewrite bind_assoc | run popl_run | run popl_seg_run | run pop_run]). run addl_run. unfold iret.
  run gets_run. repeat (run pop_run). repeat (run modify_run). unfold CPL in *. look. rewrite H0.
  cbv zeta. set (f := tf_at (wm t) (gp t ESP)).
  match goal with |- context [decide (0 < Z.land (u16 (wm t ?a)) 3)] =>
    replace (u16 (wm t a)) with (tf_cs f) by (unfold f, tf_at; cbn [tf_cs]; do 2 f_equal; lia) end.
  destruct (decide (0 < Z.land (tf_cs f) 3)) as [Hu|Hu]; eexists; (split; [repeat (run pop_run); repeat (run modify_run); done|]).
  all: split; [done|]; split; look; try done; unfold f, tf_at;
    cbn [tf_edi tf_esi tf_ebp tf_ebx tf_edx tf_ecx tf_eax tf_gs tf_fs tf_es tf_ds tf_cs tf_ss tf_eip tf_eflags tf_esp];
    first [lia | f_equal; lia | do 2 f_equal; lia].
Qed.
Lemma entered_alltraps h1 h2 trap handleSignals s n err s0 t1 t2 t3 : trappable s n err →
  alltraps_enter s0 = Ret tt t1 → entered s n err t1 →
  c_returns trap (pushed h1 t1) t2 → c_returns handleSignals (pushed h2 t2) t3 →
  alltraps h1 h2 trap handleSignals s0 = trapret (set_gp ESP (frame_top s - 68) t3) ∧ sg t3 = sg t1.
Proof.
  intros Ht Hrun Hen (H1 & E1 & G1 & _) (H2 & E2 & G2 & _). pose proof Ht as [_ _ Ha Hr _ _].
  pose proof (en_esp _ _ _ _ Hen) as He. cbn in E1, E2, G1, G2.
  split; [|congruence]. unfold alltraps, call_c. rewrite (bind_Ret _ _ _ _ _ Hrun), bind_assoc.
  erewrite bind_Ret; [|apply push_run; rewrite He; [alig|lia]]. rewrite (bind_Ret _ _ _ _ _ H1), bind_assoc.
  erewrite bind_Ret; [|apply push_run; rewrite E1, He; [alig|lia]]. rewrite (bind_Ret _ _ _ _ _ H2).
  erewrite bind_Ret; [|apply addl_run; lia]. do 2 f_equal. lia.
Qed.

Lemma alltraps_run h1 h2 trap handleSignals s n err s0 t1 t2 t3 : trappable s n err →
  alltraps_enter s0 = Ret tt t1 → entered s n err t1 →
  c_returns trap (pushed h1 t1) t2 → c_returns handleSignals (pushed h2 t2) t3 →
  let f := tf_at (wm t3) (frame_top s - 68) in tf_cs f = sg s CS → CPL s = 0 ∨ CPL s = 3 →
  ∃ s', alltraps h1 h2 trap handleSignals s0 = Ret tt s' ∧ wm s' = wm t3 ∧
    if decide (CPL s = 3) then resumed f (tf_esp f) (tf_ss f) s' else resumed f (gp s ESP) (sg s SS) s'.
Proof.
  intros Ht Hall Hen H1 H2 f Hcs Hmode. pose proof Ht as [_ _ Ha Hr Hsel Hss].
  destruct (entered_alltraps _ _ _ _ _ _ _ _ _ _ _ Ht Hall Hen H1 H2) as [-> Hsg].
  destruct (trapret_run (set_gp ESP (frame_top s - 68) t3) (frame_top s - 68)) as (s' & -> & Hm & Hres); [done|alig|lia| |].
  { unfold CPL. look. by rewrite Hsg, (en_cs _ _ _ _ Hen). }
  cbn [wm set_gp sg] in Hm, Hres. fold f in Hres. rewrite Hcs, Hsg, (en_ss _ _ _ _ Hen) in Hres. fold (CPL s) in Hres.
  exists s'. split; [done|]. split; [done|]. unfold frame_top in Hres. destruct (decide (CPL s = 3)) as [Hu|Hu].
  - by rewrite decide_True in Hres by lia.
  - rewrite decide_False in Hres by lia. by replace (gp s ESP - 68 + 68) with (gp s ESP) in Hres by lia.
Qed.

(** Nothing of what runs in user or kernel mode is lost. *)
Definition same_program (s s' : pc) : Prop :=
  (∀ r, gp s' r = gp s r) ∧ (∀ r, sg s' r = sg s r) ∧ ip s' = ip s ∧ flags s' = flags s.

Lemma resumed_saved s n err top esp ss sp' s' : (∀ r, 0 <= sg s r < 2 ^ 16) →
  resumed (saved s n err top esp ss) sp' (sg s SS) s' → sp' = gp s ESP → same_program s s'.
Proof.
  intros Hsel [] ->. split_and!; try done; intros []; done.
Qed.

(** C6. What a trap does to the program it interrupts, in user or in kernel mode, for
    each of the 256 vectors.  The processor goes to the vector's entry point, and
    [trap] is called with the address of a frame that holds the program's registers,
    the number and the error code.  When [trap] and [handleSignals] return, the
    program goes on with the registers the frame then holds; if they have left the
    frame as it was, with its own, as if nothing had happened. *)
Theorem trap_returns h1 h2 trap handleSignals s n err : trappable s n err → ∃ s0 t1,
  (hw n err ;; vector n) s = Ret tt s0 ∧ ip s0 = vectors n ∧ entered s n err t1 ∧
  ∀ t2 t3, c_returns trap (pushed h1 t1) t2 → c_returns handleSignals (pushed h2 t2) t3 →
  let f := tf_at (wm t3) (frame_top s - 68) in tf_cs f = sg s CS → CPL s = 0 ∨ CPL s = 3 →
  ∃ s', alltraps h1 h2 trap handleSignals s0 = Ret tt s' ∧ wm s' = wm t3 ∧
    (if decide (CPL s = 3) then resumed f (tf_esp f) (tf_ss f) s' else resumed f (gp s ESP) (sg s SS) s') ∧
    (f = tf_at (wm t1) (frame_top s - 68) → same_program s s').
Proof.
  intros Ht. pose proof (tr_selectors _ _ _ Ht) as Hsel. destruct (entry_run s n err Ht) as (s0 & t1 & Hrun & Hip & Hall & Hen).
  exists s0, t1. split_and!; try done. intros t2 t3 H1 H2 f Hcs Hmode.
  destruct (alltraps_run _ _ _ _ _ _ _ _ _ _ _ Ht Hall Hen H1 H2 Hcs Hmode) as (s' & Hs & Hm & Hres). fold f in Hres.
  exists s'. split_and!; try done. intros Hf. rewrite Hf, (en_frame _ _ _ _ Hen) in Hres.
  destruct (decide (CPL s = 3)); [|by eapply resumed_saved].
  eapply resumed_saved; [done| |done]. cbn [tf_ss saved tf_esp] in Hres. by rewrite (proj1 (selector_low _ (Hsel SS))) in Hres.
Qed.
(** ** System calls *)

Lemma int_syscall next s : CPL s = 3 → int (idt_entries vectors) ss0 esp0 T_SYSCALL next s = hw T_SYSCALL None (set_ip next s).
Proof.
  intros Hu. unfold int. rewrite gate_at by done. erewrite bind_Ret; [|done]. cbn [id].
  destruct (gate_facts T_SYSCALL vectors vectors_ok) as (_ & _ & _ & ->). rewrite decide_True; [done|]. rewrite Hu. done.
Qed.

(** What the kernel sees of a system call [num] made in [s]: number and stack pointer
    in the frame, and the arguments above the user's stack pointer, where [argint]
    reads them. *)
Record called (s : pc) (num : Z) (t : pc) (f : trapframe) : Prop := {
  ca_frame : tf_at (wm t) (esp0 - 76) = f; ca_top : gp t ESP = esp0 - 80; ca_arg : wm t (esp0 - 80) = esp0 - 76;
  ca_trapno : tf_trapno f = T_SYSCALL; ca_eax : tf_eax f = num; ca_esp : tf_esp f = gp s ESP;
  ca_memory : ∀ b, apart b 4 (esp0 - 80) 80 → wm t b = wm s b
}.

Lemma syscall_entry s num next : CPL s = 3 → trappable s T_SYSCALL None → 0 <= num < 2 ^ 32 → ∃ s0 t f,
  (movl (Imm num) (Reg EAX) ;; int (idt_entries vectors) ss0 esp0 T_SYSCALL next ;; vector T_SYSCALL) s = Ret tt s0 ∧
  alltraps_enter s0 = Ret tt t ∧ entered (set_ip next (set_gp EAX num s)) T_SYSCALL None t ∧
  trappable (set_ip next (set_gp EAX num s)) T_SYSCALL None ∧ called s num t f.
Proof.
  intros Hu [Hn He Ha Hr Hsel Hss] Hnum.
  assert (trappable (set_ip next (set_gp EAX num s)) T_SYSCALL None) as Ht by done.
  destruct (entry_run _ _ _ Ht) as (s0 & t & Hrun & _ & Hall & Hen). exists s0, t, (tf_at (wm t) (esp0 - 76)).
  unfold frame_top, CPL in *. cbn [sg set_ip set_gp] in *.
  split_and!; try done.
  - unfold movl, value. rewrite bind_assoc. erewrite bind_Ret; [|done]. erewrite bind_Ret; [|done]. rewrite u32_id by done.
    unfold mbind at 1, M_bind at 1. rewrite int_syscall by done. exact Hrun.
  - destruct Hen as [E1 E2 E3 _ _ _ _ _ _ _ E4]. unfold frame_top, CPL in *. cbn [sg set_ip set_gp gp reg_eqb wm] in *.
    rewrite !decide_True in * by done.
    replace (esp0 - 8 - 68) with (esp0 - 76) in * by lia. replace (esp0 - 8 - 72) with (esp0 - 80) in * by lia.
    split; rewrite ?E3; try done; intros b Hb. unfold apart in *. apply E4. lia.
Qed.

(** C32. A call of the user library, whatever the system call: the kernel finds the
    number in the frame's [eax] and the caller's arguments above the frame's [esp],
    as [syscall] and [argint] expect, and the number is one [syscall] knows.  If the
    kernel changes nothing in the frame but [eax] and leaves the return address on the
    user's stack, the call returns to its caller with that value in [eax], all other
    registers as they were, and the return address popped. *)
Theorem usys_call h1 h2 trap handleSignals name num next s :
  (name, num) ∈ usys → CPL s = 3 → trappable s T_SYSCALL None → aligned (gp s ESP) → 0 <= gp s ESP < 2 ^ 32 - 4 →
  0 < num < NELEM_syscalls ∧ ∃ t1 f, called s num t1 f ∧
  ∀ t2 t3 v, c_returns trap (pushed h1 t1) t2 → c_returns handleSignals (pushed h2 t2) t3 →
    tf_at (wm t3) (esp0 - 76) = set_tf_eax v f → wm t3 (gp s ESP) = wm s (gp s ESP) →
  ∃ s', SYSCALL (idt_entries vectors) ss0 esp0 num next (vector T_SYSCALL ;; alltraps h1 h2 trap handleSignals) s = Ret tt s' ∧
    ip s' = wm s (gp s ESP) ∧ gp s' ESP = gp s ESP + 4 ∧ gp s' EAX = v ∧
    (∀ r, r ≠ EAX → r ≠ ESP → gp s' r = gp s r) ∧ (∀ r, sg s' r = sg s r) ∧ flags s' = flags s.
Proof.
  intros Hin Hu Ht Ha Hr.
  assert (0 < num < NELEM_syscalls) as Hnum.
  { assert (Forall (λ p, 0 < p.2 < NELEM_syscalls) usys) as Hall by (apply (bool_decide_unpack _); vm_compute; exact I).
    by apply (Forall_forall _ _) with (name, num) in Hall. }
  split; [done|]. unfold NELEM_syscalls in Hnum.
  destruct (syscall_entry s num next Hu Ht) as (s0 & t1 & f & Hrun & Hall & Hen & Ht' & Hc); [lia|].
  exists t1, f. split; [done|]. intros t2 t3 v H1 H2 Hf Hra.
  pose proof (en_frame _ _ _ _ Hen) as Hfr. pose proof (tr_selectors _ _ _ Ht) as Hsel.
  set (sc := set_ip next (set_gp EAX num s)) in *. change (CPL sc) with (CPL s) in *. rewrite !decide_True in Hfr by done.
  assert (frame_top sc - 68 = esp0 - 76) as Htop by (unfold frame_top; rewrite decide_True by done; lia).
  rewrite Htop, (ca_frame _ _ _ _ Hc) in Hfr.
  destruct (alltraps_run h1 h2 trap handleSignals _ _ _ _ _ _ _ Ht' Hall Hen H1 H2) as (s1 & Hs1 & Hm1 & Hres);
    [by rewrite Htop, Hf, Hfr|by right|]. rewrite Htop, Hf, decide_True, Hfr in Hres by done.
  destruct Hres as [R1 R2 R3 R4 R5 R6 R7 R8 S1 S2 S3 S4 S5 S6 R9 R10]. cbn in R1, R2, R3, R4, R5, R6, R7, R8, S1, S2, S3, S4, S5, S6, R9, R10.
  rewrite (proj1 (selector_low _ (Hsel SS))) in S6.
  eexists. split; [|].
  { unfold SYSCALL. apply bind_Ret_inv in Hrun as (? & x1 & Hmov & Hrun). rewrite (bind_Ret _ _ _ _ _ Hmov).
    apply bind_Ret_inv in Hrun as (? & x2 & Hint & Hvec). rewrite (bind_Ret _ _ _ _ _ Hint), bind_assoc, (bind_Ret _ _ _ _ _ Hvec), (bind_Ret _ _ _ _ _ Hs1).
    apply ret_run; rewrite R8; [done|lia]. }
  look. rewrite R8, Hm1. split_and!; try done; intros []; cbn [reg_eqb]; congruence.
Qed.

(** The first program: its first system call is exec of [init] with [argv]. *)
Lemma initcode_execs argv init next s :
  CPL s = 3 → trappable s T_SYSCALL None → gp s ESP = PGSIZE → PGSIZE <= esp0 - 80 → 0 <= init < 2 ^ 32 → 0 <= argv < 2 ^ 32 →
  ∃ s0 t f, (initcode_start argv init ;; int (idt_entries vectors) ss0 esp0 T_SYSCALL next ;; vector T_SYSCALL) s = Ret tt s0 ∧
    alltraps_enter s0 = Ret tt t ∧ tf_at (wm t) (esp0 - 76) = f ∧ tf_trapno f = T_SYSCALL ∧ tf_eax f = SYS_exec ∧
    wm t (tf_esp f + 4) = init ∧ wm t (tf_esp f + 8) = argv.
Proof.
  intros Hu Ht Hsp Hk Hi Hv. unfold PGSIZE in *.
  set (sp := pushed 0 (pushed init (pushed argv s))).
  destruct (syscall_entry sp SYS_exec next) as (s0 & t & f & Hrun & Hall & _ & _ & [C1 _ _ C2 C3 C4 C5]); [done|..|done|].
  { destruct Ht as [T1 T2 T3 T4 T5 T6]. unfold frame_top in *. rewrite decide_True in * by done. by split; try done; unfold frame_top; rewrite decide_True. }
  exists s0, t, f. split; [|split; [done|]; split; [done|]; split; [done|]; split; [done|]; rewrite C4;
    split; (rewrite C5 by (unfold apart; subst sp; unfold pushed; look; lia)); subst sp; unfold pushed; look; word; done].
  unfold initcode_start. repeat rewrite bind_assoc.
  run pushl_imm. rewrite bind_assoc. run pushl_imm. rewrite bind_assoc. run pushl_imm. exact Hrun.
Qed.
End traps.

(** ** A new process *)

(** The machine's memory holds what the process code has put on the kernel stacks. *)
Record mirrors {V} (k : core V) (m : Z → Z) : Prop := {
  mi_contexts : ∀ a c, k_ctxmem k !! a = Some c → context_at m a = c;
  mi_words : ∀ a w, k_wordmem k !! a = Some w → m a = w;
  mi_frames : ∀ a f, k_tfmem k !! a = Some f → tf_at m a = f
}.

Lemma alloc_stack_layout {V} {SV : Services V} (k : core V) p kstack : (p < length (k_ptable k))%nat → ∃ k',
  alloc_stack p kstack k = Ret tt k' ∧
  p_tf (proc_at k' p) = kstack + 4020 ∧ p_context (proc_at k' p) = kstack + 3996 ∧
  k_ctxmem k' !! (kstack + 3996) = Some (Context 0 0 0 0 svc_forkret) ∧ k_wordmem k' !! (kstack + 4016) = Some svc_trapret.
Proof.
  intros Hp. eexists. split; [unfold alloc_stack, assign; cbv zeta; do 4 (erewrite bind_Ret; [|reflexivity]); reflexivity|]. unfold proc_at, upd_proc.
  cbn [k_ptable set_k_ctxmem set_k_wordmem set_k_ptable k_ctxmem k_wordmem].
  rewrite !list_lookup_total_alter, !length_alter, !(decide_True (P := p = p ∧ _)) by done. unfold KSTACKSIZE, SIZEOF_TRAPFRAME, SIZEOF_CONTEXT.
  replace (kstack + 4096 - 76 - 4 - 20) with (kstack + 3996) by lia. replace (kstack + 4096 - 76 - 4) with (kstack + 4016) by lia.
  split_and!; [cbn; lia|done|by rewrite lookup_alter_eq, lookup_insert_eq|by rewrite lookup_insert_eq].
Qed.

(** C7. A new process starts as its trap frame says.  [allocproc] lays out its kernel
    stack as if it had been switched away from: when someone first switches to its
    context, [swtch] leads to [forkret], and [forkret] returns to [trapret], which
    finds the frame that fork or userinit has filled and puts the process into user
    mode with the frame's registers. *)
Theorem new_process_starts {V} {SV : Services V} (k : core V) p kstack :
  (p < length (k_ptable k))%nat → aligned kstack → 0 <= kstack <= 2 ^ 32 - 8192 →
  ∃ k', alloc_stack p kstack k = Ret tt k' ∧
  let ctx := p_context (proc_at k' p) in let tf := p_tf (proc_at k' p) in
  ∀ (k2 : core V) s e old f forkret,
    k_ctxmem k2 !! ctx = k_ctxmem k' !! ctx → k_wordmem k2 !! (ctx + 20) = k_wordmem k' !! (ctx + 20) →
    k_tfmem k2 !! tf = Some f → Z.land (tf_cs f) 3 = 3 → mirrors k2 (wm s) →
    switch_call s e old ctx → apart ctx 100 (e - 16) 16 → apart old 4 ctx 100 → CPL s = 0 →
    ∃ s1, swtch s = Ret tt s1 ∧ ip s1 = svc_forkret ∧
    ∀ t, c_returns forkret s1 t → (∀ b, tf <= b < tf + 76 → wm t b = wm s1 b) →
      ip t = svc_trapret ∧ ∃ s', trapret t = Ret tt s' ∧ resumed f (tf_esp f) (tf_ss f) s'.
Proof.
  intros Hp Ha Hr. destruct (alloc_stack_layout k p kstack Hp) as (k' & Hrun & Htf & Hctx & Hc & Hw).
  exists k'. split; [done|]. rewrite Htf, Hctx. cbv zeta. replace (kstack + 3996 + 20) with (kstack + 4016) by lia. rewrite Hc, Hw.
  intros k2 s e old f forkret Ec Ew Ef Hu [Mc Mw Mf] Hcall A1 A2 H0.
  destruct (swtch_run _ _ _ _ Hcall) as (s1 & Hs & _ & _ & Hnew & Hesp & Hsg & _ & Hmem).
  rewrite (Mc _ _ Ec) in Hnew. injection Hnew as _ _ _ _ Hip. exists s1. split; [done|]. split; [done|].
  assert (∀ b, kstack + 4016 <= b < kstack + 4096 → wm s1 b = wm s b) as Hsame.
  { intros b Hb. unfold apart in *. apply Hmem; lia. }
  intros t (_ & He & Hg & Hi) Hkept. rewrite Hi, Hesp. split; [replace (kstack + 3996 + 20) with (kstack + 4016) by lia; rewrite Hsame by lia; by apply Mw|].
  destruct (trapret_run t (kstack + 4020)) as (s' & Hret & _ & Hres); [lia|alig|lia|unfold CPL in *; by rewrite Hg, Hsg|].
  assert (tf_at (wm t) (kstack + 4020) = f) as Hf.
  { rewrite <-(Mf _ _ Ef). apply tf_at_ext. intros. by rewrite Hkept, Hsame by lia. }
  rewrite Hf in Hres. cbv zeta in Hres. rewrite decide_True in Hres by lia. by exists s'.
Qed.

(** ** Examples *)

(** A processor whose registers are 0 but for the stack pointer and the selectors. *)
Definition pc_at (esp sel : Z) (m : Z → Z) : pc := Pc (λ r, if reg_eqb r ESP then esp else 0) (λ _, sel) 0 0 m.
Definition words (l : list (Z * Z)) : Z → Z := λ a, default 0 ((list_to_map l : gmap Z Z) !! a).

Definition switch_from : pc := pc_at 1000 8 (words [(1000, 77); (1004, 2000); (1008, 3000); (3016, 99)]).
Definition switch_back : pc := pc_at 5000 8 (words [(1000, 77); (5000, 55); (5004, 2004); (5008, 984)]).

Lemma swtch_resumes_witness : ∃ s1 t1, swtch switch_from = Ret tt s1 ∧ ip s1 = 99 ∧ swtch switch_back = Ret tt t1 ∧ ip t1 = 77.
Proof.
  destruct (swtch_resumes switch_from 1000 2000 3000 switch_back 5000 2004) as (s1 & H1 & H2 & Hslot & _ & H3).
  { split; first [reflexivity | unfold apart; lia]. }
  destruct H3 as (t1 & H4 & H5 & _); [rewrite Hslot; split; first [reflexivity | unfold apart; lia]|by rewrite Hslot|].
  exists s1, t1. split; [exact H1|]. split; [rewrite H2; vm_compute; reflexivity|]. split; [exact H4|]. rewrite H5. vm_compute. reflexivity.
Defined.

(** A C function that does nothing, and one that stores the result of a system call. *)
Definition return_ (s : pc) : pc := set_ip (wm s (gp s ESP)) (set_gp ESP (gp s ESP + 4) s).
Definition no_function : M pc unit := λ s, Ret tt (return_ s).
Definition result_function (a v : Z) : M pc unit := λ s, Ret tt (return_ (set_wm a v s)).

Definition user_program : pc := pc_at 4000 27 (words [(4000, 123); (4004, 5)]).
Lemma user_program_trappable n err : 0 <= n < 256 → (is_Some err ↔ has_error n = true) → trappable 16 8192 user_program n err.
Proof. intros Hn He. split; try done; by vm_compute. Qed.

Lemma no_function_returns s : c_returns no_function s (return_ s).
Proof. done. Qed.

Lemma trap_returns_witness : ∃ s0 s', (hardware (idt_entries u32) 16 8192 14 (Some 2) ;; vector 14) user_program = Ret tt s0 ∧
  alltraps 1 2 no_function no_function s0 = Ret tt s' ∧ same_program user_program s'.
Proof.
  destruct (trap_returns u32 16 8192 u32_range 1 2 no_function no_function user_program 14 (Some 2)) as (s0 & t1 & H1 & _ & Hen & H).
  { by apply user_program_trappable. }
  destruct (H _ _ (no_function_returns _) (no_function_returns _)) as (s' & H2 & _ & _ & H3).
  - rewrite (tf_at_ext _ (wm t1)); [by rewrite (en_frame _ _ _ _ _ _ Hen)|]. intros i Hi.
    unfold return_, pushed. look. rewrite (en_esp _ _ _ _ _ _ Hen). change (frame_top 8192 user_program) with 8184. by word.
  - by right.
  - exists s0, s'. split_and!; try done. apply H3. apply tf_at_ext. intros i Hi.
    unfold return_, pushed. look. rewrite (en_esp _ _ _ _ _ _ Hen). change (frame_top 8192 user_program) with 8184. by word.
Defined.

Lemma usys_call_witness : ∃ s', SYSCALL (idt_entries u32) 16 8192 11 64 (vector T_SYSCALL ;; alltraps 1 2 (result_function 8144 42) no_function)
  user_program = Ret tt s' ∧ ip s' = 123 ∧ gp s' EAX = 42.
Proof.
  destruct (usys_call u32 16 8192 u32_range 1 2 (result_function 8144 42) no_function "getpid" 11 64 user_program) as (_ & t1 & f & Hc & H).
  - by apply (list_elem_of_lookup_2 _ 17).
  - done.
  - by apply user_program_trappable.
  - done.
  - by vm_compute.
  - pose proof (ca_top _ _ _ _ _ Hc) as Ht. pose proof (ca_memory _ _ _ _ _ Hc) as Hm. unfold apart in Hm.
    set (t2 := return_ (set_wm 8144 42 (pushed 1 t1))).
    assert (∀ b, 8116 <= b → wm (return_ (pushed 2 t2)) b = if decide (b = 8144) then 42 else wm t1 b) as Hw.
    { intros b Hb. unfold t2, return_, pushed. look. rewrite Ht. rewrite decide_False by lia. destruct (decide (b = 8144)); [reflexivity|]. word. reflexivity. }
    destruct (H t2 (return_ (pushed 2 t2)) 42) as (s' & H1 & H2 & _ & H3 & _).
    + unfold c_returns, t2, return_, pushed. look. rewrite Ht. split_and!; [reflexivity|lia|reflexivity|by word].
    + apply no_function_returns.
    + rewrite <-(ca_frame _ _ _ _ _ Hc). unfold tf_at, set_tf_eax.
      cbn [tf_edi tf_esi tf_ebp tf_oesp tf_ebx tf_edx tf_ecx tf_gs tf_padding1 tf_fs tf_padding2 tf_es tf_padding3 tf_ds tf_padding4
        tf_trapno tf_err tf_eip tf_cs tf_padding5 tf_eflags tf_esp tf_ss tf_padding6].
      rewrite !Hw by lia. reflexivity.
    + change (gp user_program ESP) with 4000. unfold t2, return_, pushed. look. rewrite Ht. word. apply Hm. lia.
    + exists s'. split; [exact H1|]. split; [rewrite H2; vm_compute; reflexivity|exact H3].
Defined.

(** A new process whose stack is the page at 4096; its frame is for user mode. *)
Definition new_process_memory : Z → Z :=
  words [(100000, 55); (100004, 90000); (100008, 8092); (8108, 0x80104000); (8112, 0x80105000); (8176, 27)].
Definition scheduler_state : pc := pc_at 100000 8 new_process_memory.

Lemma new_process_starts_witness : ∃ s1 s', swtch scheduler_state = Ret tt s1 ∧ ip s1 = 0x80104000 ∧
  trapret (return_ s1) = Ret tt s' ∧ sg s' CS = 27.
Proof.
  destruct (@new_process_starts Z KMachine.page_services (boot_core 1 0) 0 4096) as (k' & Hrun & H); [by vm_compute; lia|done|lia|].
  destruct (@alloc_stack_layout Z KMachine.page_services (boot_core 1 0) 0 4096) as (k2 & Hrun2 & Htf & Hctx & Hc & Hw); [by vm_compute; lia|].
  rewrite Hrun in Hrun2. injection Hrun2 as <-. rewrite Htf, Hctx in H. cbv zeta in H.
  change (4096 + 4020) with 8116 in *. change (4096 + 3996) with 8092 in *. change (4096 + 4016) with 8112 in *. change (8092 + 20) with 8112 in H.
  set (k2 := set_k_tfmem {[8116 := tf_at new_process_memory 8116]} (set_k_ctxmem {[8092 := Context 0 0 0 0 0x80104000]}
    (set_k_wordmem {[8112 := 0x80105000]} k'))).
  destruct (H k2 scheduler_state 100000 90000 (tf_at new_process_memory 8116) no_function) as (s1 & H1 & H2 & H3).
  - rewrite Hc. reflexivity.
  - rewrite Hw. reflexivity.
  - reflexivity.
  - reflexivity.
  - split; intros a x; unfold k2; cbn [k_ctxmem k_wordmem k_tfmem set_k_tfmem set_k_ctxmem set_k_wordmem]; intros [<- <-]%lookup_singleton_Some; reflexivity.
  - split; first [reflexivity | unfold apart; lia].
  - unfold apart. lia.
  - unfold apart. lia.
  - reflexivity.
  - destruct (H3 _ (no_function_returns s1)) as (_ & s' & H4 & H5); [reflexivity|].
    exists s1, s'. split; [exact H1|]. split; [exact H2|]. split; [exact H4|]. rewrite (rs_cs _ _ _ _ H5). vm_compute. reflexivity.
Defined.
