(* ===== verification/Start.v ===== *)
(** * From the boot sector to the kernel's main (bootasm.S, entry.S, entryother.S,
      asm.h, sign.pl, and entrypgdir of main.c)

    The code that runs before C can: the switch of the first processor to protected
    mode, with the keyboard controller's part in it; the kernel's entry, which turns
    paging on; the start of the other processors.  The theorems say in which state
    bootmain, main and mpenter are called: segments without translation, and a page
    table under which the first 4 megabytes are at their own addresses and at
    KERNBASE. *)

From stdpp Require Import base list gmap strings.
From Stdlib Require Import ZArith Lia.
From S2P Require Import Prelude KState Spinlock CString KExt Syscall Trap Kalloc Ide Vm Bootmain Asm.

(** ** Segment descriptors (asm.h) *)

Definition SEG_NULLASM : list Z := [0; 0; 0; 0; 0; 0; 0; 0].
Definition SEG_ASM (type base lim : Z) : list Z :=
  [Z.land (Z.land (Z.shiftr lim 12) 0xffff) 0xff; Z.shiftr (Z.land (Z.shiftr lim 12) 0xffff) 8;
   Z.land (Z.land base 0xffff) 0xff; Z.shiftr (Z.land base 0xffff) 8;
   Z.land (Z.shiftr base 16) 0xff; Z.lor 0x90 type;
   Z.lor 0xC0 (Z.land (Z.shiftr lim 28) 0xf); Z.land (Z.shiftr base 24) 0xff].

(** The bytes of a [struct segdesc] (mmu.h). *)
Definition desc_bytes (d : segdesc) : list Z :=
  [Z.land (sd_lim_15_0 d) 0xff; Z.shiftr (sd_lim_15_0 d) 8; Z.land (sd_base_15_0 d) 0xff; Z.shiftr (sd_base_15_0 d) 8;
   sd_base_23_16 d; sd_type d + 16 * sd_s d + 32 * sd_dpl d + 128 * sd_p d;
   sd_lim_19_16 d + 16 * sd_avl d + 32 * sd_rsv1 d + 64 * sd_db d + 128 * sd_g d; sd_base_31_24 d].

(** The tables at the end of bootasm.S and entryother.S. *)
Definition boot_gdt : list (list Z) :=
  [SEG_NULLASM; SEG_ASM (Z.lor STA_X STA_R) 0 0xffffffff; SEG_ASM STA_W 0 0xffffffff].

(** ** The processor before paging *)

Record boot_pc (D : Type) := BootPc { bp_pc : pc; cr0 : Z; cr3 : Z; cr4 : Z; bp_gdt : list (list Z); bp_dev : D }.
Arguments BootPc {D} _ _ _ _ _ _.
Arguments bp_pc {D} _.
Arguments cr0 {D} _.
Arguments cr3 {D} _.
Arguments cr4 {D} _.
Arguments bp_gdt {D} _.
Arguments bp_dev {D} _.

Definition CR0_PE : Z := 0x00000001.
Definition CR0_WP : Z := 0x00010000.
Definition CR0_PG : Z := 0x80000000.
Definition CR4_PSE : Z := 0x00000010.
Definition PTE_PS : Z := 0x080.

(** ** Paging with large pages *)

(** The physical address the processor uses for [va]; page tables of 4096-byte pages do
    not occur yet. *)
Definition translate_boot {D} (s : boot_pc D) (va : Z) (write : bool) : option Z :=
  if decide (Z.land (cr0 s) CR0_PG = 0) then Some va else
  let pde := wm (bp_pc s) (cr3 s + 4 * PDX va) in
  if has_flag pde PTE_P && (negb write || has_flag pde PTE_W) && has_flag pde PTE_PS && has_flag (cr4 s) CR4_PSE
  then Some (Z.land pde 0xFFC00000 + va mod 2 ^ 22) else None.

Section start.
Context {D : Type} {DR : Drive D}.
Abbreviation B := (boot_pc D).
Implicit Types (s : B).

Definition set_pc (p : pc) s : B := BootPc p (cr0 s) (cr3 s) (cr4 s) (bp_gdt s) (bp_dev s).
Definition set_cr0 (v : Z) s : B := BootPc (bp_pc s) v (cr3 s) (cr4 s) (bp_gdt s) (bp_dev s).
Definition set_cr3 (v : Z) s : B := BootPc (bp_pc s) (cr0 s) v (cr4 s) (bp_gdt s) (bp_dev s).
Definition set_cr4 (v : Z) s : B := BootPc (bp_pc s) (cr0 s) (cr3 s) v (bp_gdt s) (bp_dev s).
Definition set_bp_gdt (v : list (list Z)) s : B := BootPc (bp_pc s) (cr0 s) (cr3 s) (cr4 s) v (bp_dev s).
Definition set_bp_dev (v : D) s : B := BootPc (bp_pc s) (cr0 s) (cr3 s) (cr4 s) (bp_gdt s) v.

(** An instruction of [Asm]. *)
Definition on_pc {A : Type} (m : M pc A) : M B A := λ s,
  match m (bp_pc s) with
  | Ret a p => Ret a (set_pc p s)
  | Panic e => Panic e
  | Fault e => Fault e
  | Blocked p => Blocked (set_pc p s)
  end.

Definition eax s : Z := gp (bp_pc s) EAX.
Definition set_eax (v : Z) s : B := set_pc (set_gp EAX v (bp_pc s)) s.

Definition cli : M B unit := modify (λ s, set_pc (set_flags (Z.ldiff (flags (bp_pc s)) FL_IF) (bp_pc s)) s).
(** [movl %cr0, %eax; orl $v, %eax; movl %eax, %cr0] and the like, one each. *)
Definition movl_cr0_eax : M B unit := modify (λ s, set_eax (cr0 s) s).
Definition movl_eax_cr0 : M B unit := modify (λ s, set_cr0 (eax s) s).
Definition movl_cr4_eax : M B unit := modify (λ s, set_eax (cr4 s) s).
Definition movl_eax_cr4 : M B unit := modify (λ s, set_cr4 (eax s) s).
Definition movl_eax_cr3 : M B unit := modify (λ s, set_cr3 (eax s) s).
Definition orl_eax (v : Z) : M B unit := modify (λ s, set_eax (Z.lor (eax s) v) s).
Definition lgdt (g : list (list Z)) : M B unit := modify (set_bp_gdt g).
Definition ljmp (sel a : Z) : M B unit := modify (λ s, set_pc (set_sg CS sel (set_ip a (bp_pc s))) s).

(** A load and a push at virtual addresses. *)
Definition load_paged (a : Z) : M B Z := λ s,
  match translate_boot s a false with Some pa => on_pc (load pa) s | None => Fault "page fault" end.
Definition push_paged (v : Z) : M B unit := λ s,
  let a := u32 (gp (bp_pc s) ESP - 4) in
  match translate_boot s a true with
  | Some pa => (on_pc (store pa v) ;; on_pc (modify (set_gp ESP a))) s
  | None => Fault "page fault"
  end.

(** The low byte of [eax]. *)
Definition al s : Z := u8 (eax s).
Definition movb_al (v : Z) : M B unit := modify (λ s, set_eax (eax s - al s + u8 v) s).
Definition inb_al (port : Z) : M B unit := λ s,
  let '(v, d) := port_in port (bp_dev s) in movb_al v (set_bp_dev d s).
Definition outb_al (port : Z) : M B unit := modify (λ s, set_bp_dev (port_out port (al s) (bp_dev s)) s).
(** [outw %ax, %dx]: the port numbers of the emulator that is told of a failure. *)
Definition outw_ax_dx : M B unit :=
  modify (λ s, set_bp_dev (port_out (u16 (gp (bp_pc s) EDX)) (u16 (eax s)) (bp_dev s)) s).
Definition movw_ax_dx : M B unit :=
  modify (λ s, set_pc (set_gp EDX (gp (bp_pc s) EDX - u16 (gp (bp_pc s) EDX) + u16 (eax s)) (bp_pc s)) s).

(** [seta20.1: inb $0x64,%al; testb $0x2,%al; jnz seta20.1], and [seta20.2]. *)
Fixpoint seta20 (polls : nat) : M B unit :=
  inb_al 0x64 ;;
  a ← gets al;
  if decide (Z.land a 2 ≠ 0) then match polls with O => block | S n => seta20 n end else mret tt.

(** ** bootasm.S *)

(** Up to the call of bootmain; [start] is the address of the code, [here] that behind
    the call. *)
Definition bootasm_start (polls : nat) (start start32 here : Z) : M B unit :=
  cli ;;
  on_pc (movw_ax 0) ;;
  on_pc (movw_seg DS) ;;
  on_pc (movw_seg ES) ;;
  on_pc (movw_seg SS) ;;
  seta20 polls ;;
  movb_al 0xd1 ;;
  outb_al 0x64 ;;
  seta20 polls ;;
  movb_al 0xdf ;;
  outb_al 0x60 ;;
  lgdt boot_gdt ;;
  movl_cr0_eax ;;
  orl_eax CR0_PE ;;
  movl_eax_cr0 ;;
  ljmp (Z.shiftl SEG_KCODE 3) start32 ;;
  on_pc (movw_ax (Z.shiftl SEG_KDATA 3)) ;;
  on_pc (movw_seg DS) ;;
  on_pc (movw_seg ES) ;;
  on_pc (movw_seg SS) ;;
  on_pc (movw_ax 0) ;;
  on_pc (movw_seg FS) ;;
  on_pc (movw_seg GS) ;;
  on_pc (movl (Imm start) (Reg ESP)) ;;
  on_pc (push here).

(** What follows if a C routine returns that should not. *)
Definition failed : M B unit :=
  on_pc (movw_ax 0x8a00) ;;
  movw_ax_dx ;;
  outw_ax_dx ;;
  on_pc (movw_ax 0x8ae0) ;;
  outw_ax_dx ;;
  block.

Definition bootasm (polls : nat) (start start32 here : Z) (bootmain : M B unit) : M B unit :=
  bootasm_start polls start start32 here ;;
  bootmain ;;
  failed.

(** ** entry.S *)

Definition V2P_WO (a : Z) : Z := a - KERNBASE.

(** [entrypgdir], [stack] and [main] are addresses of the linked kernel. *)
Definition entry (entrypgdir stack main : Z) : M B unit :=
  movl_cr4_eax ;;
  orl_eax CR4_PSE ;;
  movl_eax_cr4 ;;
  on_pc (movl (Imm (V2P_WO entrypgdir)) (Reg EAX)) ;;
  movl_eax_cr3 ;;
  movl_cr0_eax ;;
  orl_eax (Z.lor CR0_PG CR0_WP) ;;
  movl_eax_cr0 ;;
  on_pc (movl (Imm (stack + KSTACKSIZE)) (Reg ESP)) ;;
  on_pc (movl (Imm main) (Reg EAX)) ;;
  modify (λ s, set_pc (set_ip (eax s) (bp_pc s)) s).

(** ** entryother.S *)

(** Up to the call through the word at [start - 8]. *)
Definition entryother_start (start start32 here : Z) : M B unit :=
  cli ;;
  on_pc (movw_ax 0) ;;
  on_pc (movw_seg DS) ;;
  on_pc (movw_seg ES) ;;
  on_pc (movw_seg SS) ;;
  lgdt boot_gdt ;;
  movl_cr0_eax ;;
  orl_eax CR0_PE ;;
  movl_eax_cr0 ;;
  ljmp (Z.shiftl SEG_KCODE 3) start32 ;;
  on_pc (movw_ax (Z.shiftl SEG_KDATA 3)) ;;
  on_pc (movw_seg DS) ;;
  on_pc (movw_seg ES) ;;
  on_pc (movw_seg SS) ;;
  on_pc (movw_ax 0) ;;
  on_pc (movw_seg FS) ;;
  on_pc (movw_seg GS) ;;
  movl_cr4_eax ;;
  orl_eax CR4_PSE ;;
  movl_eax_cr4 ;;
  pgdir ← load_paged (start - 12);
  modify (set_eax pgdir) ;;
  movl_eax_cr3 ;;
  movl_cr0_eax ;;
  orl_eax (Z.lor CR0_PE (Z.lor CR0_PG CR0_WP)) ;;
  movl_eax_cr0 ;;
  sp ← load_paged (start - 4);
  modify (λ s, set_pc (set_gp ESP sp (bp_pc s)) s) ;;
  target ← load_paged (start - 8);
  push_paged here ;;
  modify (λ s, set_pc (set_ip target (bp_pc s)) s).

Definition entryother (start start32 here : Z) (mpenter : M B unit) : M B unit :=
  entryother_start start start32 here ;;
  mpenter ;;
  failed.
End start.

(** ** entrypgdir (main.c) *)

Definition entrypgdir : list Z :=
  let big := Z.lor 0 (Z.lor PTE_P (Z.lor PTE_W PTE_PS)) in
  <[Z.to_nat (Z.shiftr KERNBASE 22) := big]> (<[0%nat := big]> (replicate (Z.to_nat NPDENTRIES) 0)).

(** ** sign.pl *)

(** The boot block from the bytes of the program, or [None] if there are too many. *)
Definition sign (buf : list Z) : option (list Z) :=
  let buf := take 1000 buf in
  if decide (510 < length buf)%nat then None else Some (buf ++ replicate (510 - length buf) 0 ++ [0x55; 0xAA]).

(** ** Segments without translation *)

Lemma nibble_cases x : 0 <= x < 16 → ∀ P : Z → Prop, Forall P (seqZ 0 16) → P x.
Proof. intros Hx P HP. apply (Forall_forall P (seqZ 0 16)); [done|]. apply elem_of_seqZ. lia. Qed.

Lemma lor_nibble x : 0 <= x < 16 → Z.lor 0x90 x = 0x90 + x ∧ Z.lor 0xC0 x = 0xC0 + x.
Proof. intros Hx. apply (nibble_cases x Hx). apply (bool_decide_unpack _). vm_compute. exact I. Qed.

Lemma land_mask x k : 0 <= k → 0 <= x < 2 ^ k → Z.land x (Z.ones k) = x.
Proof. intros Hk Hx. rewrite Z.land_ones by done. by apply Z.mod_small. Qed.

(** The assembler's macro and the kernel's make the same descriptor. *)
Lemma SEG_ASM_SEG type base lim : 0 <= type < 16 → 0 <= base < 2 ^ 32 → 0 <= lim < 2 ^ 32 →
  SEG_ASM type base lim = desc_bytes (SEG type base lim 0).
Proof.
  intros Ht Hb Hl. unfold SEG_ASM, desc_bytes, SEG. cbn [sd_lim_15_0 sd_base_15_0 sd_base_23_16 sd_type sd_s sd_dpl sd_p sd_lim_19_16 sd_avl sd_rsv1 sd_db sd_g sd_base_31_24].
  assert (0 <= Z.shiftr lim 28 < 16) as Hlim by (rewrite Z.shiftr_div_pow2 by lia; split; [apply Z.div_pos; lia|apply Z.div_lt_upper_bound; lia]).
  assert (0 <= Z.shiftr base 24 < 256) as Hbase by (rewrite Z.shiftr_div_pow2 by lia; split; [apply Z.div_pos; lia|apply Z.div_lt_upper_bound; lia]).
  change (Z.land (Z.shiftr lim 28) 0xf) with (Z.land (Z.shiftr lim 28) (Z.ones 4)).
  change (Z.land (Z.shiftr base 24) 0xff) with (Z.land (Z.shiftr base 24) (Z.ones 8)).
  rewrite (land_mask (Z.shiftr lim 28) 4), (land_mask (Z.shiftr base 24) 8) by (done || lia).
  rewrite (proj1 (lor_nibble type Ht)), (proj2 (lor_nibble _ Hlim)).
  replace (0x90 + type) with (type + 16 * 1 + 32 * 0 + 128 * 1) by lia. do 6 (f_equal; []). f_equal. lia.
Qed.

(** ** Bits *)

Lemma lor_has x y m : Z.land y m = m → Z.land (Z.lor x y) m = m.
Proof.
  intros H. apply Z.bits_inj'. intros n Hn. rewrite Z.land_spec, Z.lor_spec.
  assert (Z.testbit y n && Z.testbit m n = Z.testbit m n) as H' by (rewrite <-Z.land_spec; by rewrite H).
  destruct (Z.testbit x n), (Z.testbit y n), (Z.testbit m n); done.
Qed.

(** ** The first page table *)

(** The table is in physical memory, where cr3 points. *)
Definition entry_mapped {D} (a : Z) (s : boot_pc D) : Prop :=
  ∀ i : nat, (i < 1024)%nat → wm (bp_pc s) (a + 4 * Z.of_nat i) = entrypgdir !!! i.

Lemma PDX_low a : 0 <= a < 2 ^ 22 → PDX a = 0 ∧ PDX (KERNBASE + a) = 512.
Proof.
  intros Ha. unfold PDX. rewrite !Z.shiftr_div_pow2 by lia. rewrite Z.div_small by lia. split; [done|].
  replace ((KERNBASE + a) / 2 ^ 22) with 512; [done|]. unfold KERNBASE. apply Z.div_unique with a; lia.
Qed.

Lemma entry_translates {D} (s : boot_pc D) a w : entry_mapped (cr3 s) s →
  Z.land (cr0 s) CR0_PG = CR0_PG → has_flag (cr4 s) CR4_PSE = true → 0 <= a < 2 ^ 22 →
  translate_boot s a w = Some a ∧ translate_boot s (KERNBASE + a) w = Some a.
Proof.
  intros Hm Hpg Hpse Ha. unfold translate_boot. rewrite Hpg, Hpse. destruct (PDX_low a Ha) as [-> ->].
  rewrite !decide_False by done. pose proof (Hm 0%nat ltac:(lia)) as H0. pose proof (Hm 512%nat ltac:(lia)) as H1.
  change (4 * Z.of_nat 0) with (4 * 0) in H0. change (4 * Z.of_nat 512) with (4 * 512) in H1.
  assert (entrypgdir !!! 0%nat = 131 ∧ entrypgdir !!! 512%nat = 131) as [E0 E1] by (split; vm_compute; reflexivity).
  rewrite H0, H1, E0, E1. cbv zeta.
  assert (has_flag 131 PTE_P && (negb w || has_flag 131 PTE_W) && has_flag 131 PTE_PS && true = true) as -> by (by destruct w).
  change (Z.land 131 0xFFC00000) with 0. rewrite Z.mod_small by done.
  replace ((KERNBASE + a) mod 2 ^ 22) with a; [done|]. unfold KERNBASE. apply Z.mod_unique with 512; lia.
Qed.

(** Run the first instruction of the goal from a state that is written out. *)
Ltac bnorm := cbn [modify on_pc mbind M_bind mret M_ret gets movl value bp_pc cr0 cr3 cr4 bp_gdt bp_dev set_pc set_cr0 set_cr3 set_cr4 set_bp_gdt
  set_bp_dev set_eax eax gp sg flags ip wm set_gp set_sg set_flags set_ip set_wm reg_eqb sreg_eqb].
Ltac bstep := erewrite bind_Ret; [|reflexivity]; bnorm.

Lemma on_pc_run {D A} (m : M pc A) (s : boot_pc D) a p : m (bp_pc s) = Ret a p → on_pc m s = Ret a (set_pc p s).
Proof. intros H. unfold on_pc. by rewrite H. Qed.

(** The kernel's entry, with paging off: main is called with paging on, and the first
    4 megabytes, which hold the kernel, are at their own addresses, where the code
    runs, and at KERNBASE, where main and its stack are. *)
Theorem entry_starts {D} (s : boot_pc D) pgdir stack main :
  0 <= V2P_WO pgdir < 2 ^ 32 → 0 <= stack + KSTACKSIZE < 2 ^ 32 → 0 <= main < 2 ^ 32 → entry_mapped (V2P_WO pgdir) s →
  ∃ s', entry pgdir stack main s = Ret tt s' ∧ ip (bp_pc s') = main ∧ gp (bp_pc s') ESP = stack + KSTACKSIZE ∧
    wm (bp_pc s') = wm (bp_pc s) ∧
    ∀ a w, 0 <= a < 2 ^ 22 → translate_boot s' a w = Some a ∧ translate_boot s' (KERNBASE + a) w = Some a.
Proof.
  intros Hp Hs Hm Hmap. destruct s as [[g sel fl i m] c0 c3 c4 t d].
  unfold entry. repeat bstep. eexists. split; [reflexivity|]. bnorm. rewrite !u32_id by done.
  split; [done|]. split; [done|]. split; [done|]. intros a w Ha. apply entry_translates; [exact Hmap| | |exact Ha]; bnorm.
  - by apply lor_has.
  - unfold has_flag. rewrite lor_has by done. done.
Qed.

(** ** The keyboard controller

    It is busy while bit 1 of its status is set, takes a command at port 0x64, and
    after command 0xd1 the next byte at port 0x60 is its output port, one line of
    which is the processor's address line 20. *)
Class A20Gate {D : Type} (DR : Drive D) (polls : nat) := {
  kb_lag : D → nat;
  kb_expects : D → bool;
  a20 : D → bool;
  kb_status d : ∃ v d', port_in 0x64 d = (v, d') ∧ 0 <= v < 256 ∧ (Z.land v 2 = 0 ↔ kb_lag d = 0%nat) ∧
    kb_lag d' = pred (kb_lag d) ∧ kb_expects d' = kb_expects d;
  kb_command d : kb_lag d = 0%nat → (kb_lag (port_out 0x64 0xd1 d) <= polls)%nat ∧ kb_expects (port_out 0x64 0xd1 d) = true;
  kb_output d : kb_lag d = 0%nat → kb_expects d = true → a20 (port_out 0x60 0xdf d) = true
}.

Section bootasm.
Context {D : Type} {DR : Drive D} (polls : nat) {KB : A20Gate DR polls}.
Implicit Types (s : boot_pc D).

Lemma al_movb s v : 0 <= v < 256 → al (set_eax (eax s - al s + u8 v) s) = v.
Proof.
  intros Hv. unfold al, eax, set_eax, set_pc. cbn [bp_pc]. look. unfold u8 at 1.
  replace (gp (bp_pc s) EAX - u8 (gp (bp_pc s) EAX)) with (gp (bp_pc s) EAX / 2 ^ 8 * 2 ^ 8).
  - rewrite Z.add_comm, Z_mod_plus_full, u8_id by (change (2 ^ 8) with 256; lia). by apply Z.mod_small.
  - unfold u8. pose proof (Z_div_mod_eq_full (gp (bp_pc s) EAX) (2 ^ 8)). lia.
Qed.

(** Two states that differ in [eax] and the device only. *)
Definition polled s s' : Prop :=
  sg (bp_pc s') = sg (bp_pc s) ∧ flags (bp_pc s') = flags (bp_pc s) ∧ wm (bp_pc s') = wm (bp_pc s) ∧ cr0 s' = cr0 s.

Lemma seta20_run n s : (kb_lag (bp_dev s) <= n)%nat → ∃ s', seta20 n s = Ret tt s' ∧
  kb_lag (bp_dev s') = 0%nat ∧ kb_expects (bp_dev s') = kb_expects (bp_dev s) ∧ polled s s'.
Proof.
  revert s. induction n as [|n IH]; intros s Hn; destruct (kb_status (bp_dev s)) as (v & d' & Hin & Hv & Hbusy & Hlag & Hexp).
  all: set (s1 := set_bp_dev d' s); set (s2 := set_eax (eax s1 - al s1 + u8 v) s1).
  all: assert (inb_al 0x64 s = Ret tt s2) as Hs by (unfold inb_al; by rewrite Hin).
  all: assert (al s2 = v) as Hal by (by apply al_movb).
  all: cbn [seta20]; rewrite (bind_Ret _ _ _ _ _ Hs); erewrite bind_Ret by reflexivity; rewrite Hal.
  - rewrite decide_False by (intros []; apply Hbusy; lia). exists s2. split; [done|]. split; [cbn; lia|]. split; [done|]. by split_and!.
  - case_decide as Hb; [|exists s2; split; [done|]; split; [|split; [done|by split_and!]]].
    + destruct (IH s2) as (s' & Hrun & Hl & He & Hp); [cbn; lia|]. exists s'. split; [done|]. split; [done|]. split; [by rewrite He|].
      destruct Hp as (H1 & H2 & H3 & H4). by split_and!.
    + cbn. apply Hbusy in Hb. lia.
Qed.
Lemma send_run s v port : 0 <= v < 256 → ∃ s',
  (movb_al v ;; outb_al port) s = Ret tt s' ∧ bp_dev s' = port_out port v (bp_dev s) ∧ polled s s'.
Proof.
  intros Hv. eexists. split; [erewrite bind_Ret by reflexivity; reflexivity|]. split; [|by split_and!].
  cbn [bp_dev set_bp_dev]. rewrite al_movb by done. done.
Qed.

(** What C code needs of the processor: protected mode without interrupts, code and
    data segments that are all of memory. *)
Record flat s : Prop := {
  fl_pe : Z.land (cr0 s) CR0_PE = CR0_PE; fl_gdt : bp_gdt s = boot_gdt; fl_if : Z.land (flags (bp_pc s)) FL_IF = 0;
  fl_cs : sg (bp_pc s) CS = Z.shiftl SEG_KCODE 3; fl_ds : sg (bp_pc s) DS = Z.shiftl SEG_KDATA 3;
  fl_es : sg (bp_pc s) ES = Z.shiftl SEG_KDATA 3; fl_ss : sg (bp_pc s) SS = Z.shiftl SEG_KDATA 3;
  fl_code : boot_gdt !! 1%nat = Some (desc_bytes (SEG (Z.lor STA_X STA_R) 0 0xffffffff 0));
  fl_data : boot_gdt !! 2%nat = Some (desc_bytes (SEG STA_W 0 0xffffffff 0))
}.

Lemma ldiff_land x m : Z.land (Z.ldiff x m) m = 0.
Proof.
  apply Z.bits_inj'. intros n Hn. rewrite Z.land_spec, Z.ldiff_spec, Z.bits_0. by destruct (Z.testbit x n), (Z.testbit m n).
Qed.

(** The boot sector: when the keyboard controller answers in time, bootmain is called
    in protected mode with the segments that seginit will set up again, with address
    line 20 on, and with a stack below the code. *)
Theorem bootasm_enters s start start32 here : (kb_lag (bp_dev s) <= polls)%nat → aligned start → 4 <= start < 2 ^ 32 → ∃ s',
  bootasm_start polls start start32 here s = Ret tt s' ∧ flat s' ∧ a20 (bp_dev s') = true ∧
  gp (bp_pc s') ESP = start - 4 ∧ wm (bp_pc s') (start - 4) = here ∧
  ∀ b, b ≠ start - 4 → wm (bp_pc s') b = wm (bp_pc s) b.
Proof.
  intros Hlag Ha Hr. unfold bootasm_start. repeat bstep.
  match goal with |- context [(seta20 polls ≫= _) ?st] => destruct (seta20_run polls st) as (s1 & H1 & L1 & _ & P1); [done|]; rewrite (bind_Ret _ _ _ _ _ H1) end.
  destruct (send_run s1 0xd1 0x64) as (s2 & H2 & D2 & P2); [done|].
  rewrite <-(bind_assoc (movb_al 0xd1) (λ _, outb_al 0x64)), (bind_Ret _ _ _ _ _ H2).
  destruct (kb_command (bp_dev s1) L1) as [L2 E2]. rewrite <-D2 in L2, E2.
  destruct (seta20_run polls s2 L2) as (s3 & H3 & L3 & E3 & P3). rewrite (bind_Ret _ _ _ _ _ H3).
  destruct (send_run s3 0xdf 0x60) as (s4 & H4 & D4 & P4); [done|].
  rewrite <-(bind_assoc (movb_al 0xdf) (λ _, outb_al 0x60)), (bind_Ret _ _ _ _ _ H4).
  assert (a20 (bp_dev s4) = true) as HA by (rewrite D4; apply kb_output; [done|by rewrite E3]).
  clear H1 H2 H3 H4 L1 L2 L3 E2 E3 D2 D4 Hlag. destruct P1 as (_ & F1 & M1 & _), P2 as (_ & F2 & M2 & _), P3 as (_ & F3 & M3 & _), P4 as (_ & F4 & M4 & _).
  assert (flags (bp_pc s4) = Z.ldiff (flags (bp_pc s)) FL_IF ∧ wm (bp_pc s4) = wm (bp_pc s)) as [HF HM] by (split; [by rewrite F4, F3, F2, F1|by rewrite M4, M3, M2, M1]).
  clear s1 s2 s3 F1 M1 F2 M2 F3 M3 F4 M4. repeat bstep.
  eexists. split; [apply on_pc_run, push_run; bnorm; rewrite u32_id by lia; [alig|lia]|].
  split; [split; bnorm; try done; try (by rewrite u16_low); [by apply lor_has|by rewrite HF, ldiff_land]|].
  bnorm. rewrite u32_id by lia. split; [done|]. split; [lia|]. split; [by rewrite decide_True|].
  intros b Hb. by rewrite decide_False, HM.
Qed.
End bootasm.

Lemma translate_off {D} (s : boot_pc D) a w : Z.land (cr0 s) CR0_PG = 0 → translate_boot s a w = Some a.
Proof. intros H. unfold translate_boot. by rewrite H. Qed.

Lemma load_paged_run {D} (s : boot_pc D) a pa : translate_boot s a false = Some pa → aligned pa → load_paged a s = Ret (wm (bp_pc s) pa) s.
Proof.
  intros Ht Ha. unfold load_paged, on_pc. rewrite Ht, load_run by done. by destruct s.
Qed.

Lemma push_paged_run {D} (s : boot_pc D) v pa : translate_boot s (u32 (gp (bp_pc s) ESP - 4)) true = Some pa → aligned pa →
  push_paged v s = Ret tt (set_pc (set_gp ESP (u32 (gp (bp_pc s) ESP - 4)) (set_wm pa v (bp_pc s))) s).
Proof.
  intros Ht Ha. unfold push_paged. rewrite Ht. erewrite bind_Ret; [|apply on_pc_run, store_run; done]. reflexivity.
Qed.

(** What an address means does not depend on the registers of the program. *)
Lemma translate_regs {D} (s : boot_pc D) p a w : wm p = wm (bp_pc s) → translate_boot (set_pc p s) a w = translate_boot s a w.
Proof. intros H. unfold translate_boot. cbn [cr0 cr3 cr4 bp_pc set_pc]. by rewrite H. Qed.

(** The end of entryother, with paging on. *)
Lemma entryother_paged {D} (s : boot_pc D) start here x target :
  flat s → entry_mapped (cr3 s) s → Z.land (cr0 s) CR0_PG = CR0_PG → has_flag (cr4 s) CR4_PSE = true →
  aligned start → 16 <= start < 2 ^ 22 → wm (bp_pc s) (start - 4) = KERNBASE + x → wm (bp_pc s) (start - 8) = target →
  aligned x → 4 <= x < 2 ^ 22 → apart (x - 4) 4 (cr3 s) 4096 →
  ∃ s', (sp ← load_paged (start - 4);
         modify (λ s, set_pc (set_gp ESP sp (bp_pc s)) s) ;;
         target ← load_paged (start - 8);
         push_paged here ;;
         modify (λ s, set_pc (set_ip target (bp_pc s)) s)) s = Ret tt s' ∧ flat s' ∧ ip (bp_pc s') = target ∧
    gp (bp_pc s') ESP = KERNBASE + x - 4 ∧ wm (bp_pc s') (x - 4) = here ∧ (∀ b, b ≠ x - 4 → wm (bp_pc s') b = wm (bp_pc s) b) ∧
    ∀ a w, 0 <= a < 2 ^ 22 → translate_boot s' a w = Some a ∧ translate_boot s' (KERNBASE + a) w = Some a.
Proof.
  intros Hf Hmap Hpg Hpse Ha Hs Hx Ht Hax Hr Hapart.
  assert (∀ a w, 0 <= a < 2 ^ 22 → translate_boot s a w = Some a ∧ translate_boot s (KERNBASE + a) w = Some a) as Htr
    by (intros a w Ha'; by apply entry_translates).
  erewrite bind_Ret; [|apply (load_paged_run _ _ (start - 4)); [apply Htr; lia|alig]]. rewrite Hx. bstep.
  erewrite bind_Ret; [|apply (load_paged_run _ _ (start - 8)); [rewrite translate_regs by reflexivity; apply (Htr (start - 8)); lia|alig]].
  bnorm. rewrite Ht.
  assert (u32 (KERNBASE + x - 4) = KERNBASE + (x - 4)) as Esp by (rewrite u32_id; unfold KERNBASE; lia).
  erewrite bind_Ret; [|apply (push_paged_run _ _ (x - 4)); [bnorm; rewrite Esp, translate_regs by reflexivity; apply (Htr (x - 4)); lia|alig]].
  eexists. split; [reflexivity|]. bnorm. rewrite Esp.
  split; [by destruct Hf; split|]. split; [reflexivity|]. split; [lia|]. split; [by rewrite decide_True|].
  split; [intros b Hb; by rewrite decide_False|].
  intros a w Ha'. apply entry_translates; bnorm; [|exact Hpg|exact Hpse|exact Ha'].
  intros i Hi. bnorm. unfold apart in Hapart. rewrite decide_False by lia. by apply Hmap.
Qed.

(** Another processor: it runs with the page directory, on the stack and at the address
    that startothers has put below the code, in the state the first one had. *)
Theorem entryother_enters {D} (s : boot_pc D) start start32 here pgdir x target :
  Z.land (cr0 s) CR0_PG = 0 → aligned start → 16 <= start < 2 ^ 22 →
  wm (bp_pc s) (start - 12) = pgdir → wm (bp_pc s) (start - 4) = KERNBASE + x → wm (bp_pc s) (start - 8) = target →
  aligned x → 4 <= x < 2 ^ 22 → entry_mapped pgdir s → apart (x - 4) 4 pgdir 4096 →
  ∃ s', entryother_start start start32 here s = Ret tt s' ∧ flat s' ∧ ip (bp_pc s') = target ∧
    gp (bp_pc s') ESP = KERNBASE + x - 4 ∧ wm (bp_pc s') (x - 4) = here ∧ (∀ b, b ≠ x - 4 → wm (bp_pc s') b = wm (bp_pc s) b) ∧
    ∀ a w, 0 <= a < 2 ^ 22 → translate_boot s' a w = Some a ∧ translate_boot s' (KERNBASE + a) w = Some a.
Proof.
  intros H0 Ha Hs Hp Hx Ht Hax Hr Hmap Hapart. unfold entryother_start.
  repeat bstep.
  match goal with |- context [(load_paged _ ≫= _) ?st] => set (s1 := st) end.
  assert (cr0 s1 = Z.lor (cr0 s) CR0_PE ∧ has_flag (cr4 s1) CR4_PSE = true ∧ bp_gdt s1 = boot_gdt ∧
    flags (bp_pc s1) = Z.ldiff (flags (bp_pc s)) FL_IF ∧ sg (bp_pc s1) CS = Z.shiftl SEG_KCODE 3 ∧
    (∀ r, r ∈ [DS; ES; SS] → sg (bp_pc s1) r = Z.shiftl SEG_KDATA 3) ∧ wm (bp_pc s1) = wm (bp_pc s)) as (E0 & E4 & Eg & Ef & Ec & Ed & Em).
  { unfold s1. bnorm. split_and!; try done; [unfold has_flag; by rewrite lor_has|].
    intros r Hr'. repeat (apply elem_of_cons in Hr' as [->|Hr']; [bnorm; by rewrite u16_low|]). by apply not_elem_of_nil in Hr'. }
  erewrite bind_Ret; [|apply load_paged_run; [apply translate_off; rewrite E0, Z.land_lor_distr_l, H0; done|alig]].
  rewrite Em, Hp. repeat bstep.
  match goal with |- context [(load_paged _ ≫= _) ?st] => set (s2 := st) end.
  assert (wm (bp_pc s2) = wm (bp_pc s)) as Em2 by exact Em.
  rewrite <-Em2 in Hx, Ht |- *. apply entryother_paged; try assumption; unfold s2; bnorm; [|by apply lor_has].
  split; bnorm; [by apply lor_has|exact Eg|by rewrite Ef, ldiff_land|exact Ec|apply Ed; set_solver..|reflexivity|reflexivity].
Qed.
