(* ===== verification/User.v ===== *)
(** * User programs and their library (user.h, ulib.c, printf.c)

    A user program is a tree of system calls: a [Call] carries the call with its
    arguments and how the program goes on with each answer.  What a call answers
    is decided by whoever interprets the tree, so that a program's theorems say
    what it does for all answers, or for the answers of a given system.  A pointer
    argument is represented by what it points to: the bytes to write, the string
    that names a file; what a call stores through a pointer is part of its answer.
    [run] interprets a program that does not fork.

    The file also has the routines of the user library that make system calls. *)

From stdpp Require Import base list gmap strings.
From Stdlib Require Import ZArith Lia.
From S2P Require Import Prelude CString Cprintf.

(** ** System calls (user.h) *)

Record stat_t := Stat { st_type : Z; st_dev : Z; st_ino : Z; st_nlink : Z; st_size : Z }.

(** [struct perf]: when a process was created and ended, and how long it slept, was
    ready and ran. *)
Record perf_t := PerfT { pf_ctime : Z; pf_ttime : Z; pf_stime : Z; pf_retime : Z; pf_rutime : Z }.

Module Sys.

(** A call that fills a structure answers [None] for -1. *)
Inductive call : Type → Type :=
  | Fork : call Z
  | Wait : call Z
  | PipeCall : call (option (Z * Z))
  | Write (fd : Z) (l : list Z) : call Z
  | Read (fd n : Z) : call (option (list Z))
  | Close (fd : Z) : call Z
  | Kill (pid : Z) : call Z
  | ExecCall (path : list Z) (argv : list (list Z)) : call Z
  | Open (path : list Z) (mode : Z) : call Z
  | Mknod (path : list Z) (major minor : Z) : call Z
  | Unlink (path : list Z) : call Z
  | Fstat (fd : Z) : call (option stat_t)
  | Link (old new : list Z) : call Z
  | Mkdir (path : list Z) : call Z
  | Chdir (path : list Z) : call Z
  | Dup (fd : Z) : call Z
  | Getpid : call Z
  | Sbrk (n : Z) : call Z
  | Sleep (n : Z) : call Z
  | Uptime : call Z
  | Signal (signum handler : Z) : call Z
  | Sigsend (pid signum : Z) : call Z
  | Sigreturn : call Z
  | Advanceprocstats : call unit
  | WaitStat : call (option (Z * perf_t))
  | Priority (n : Z) : call unit.

End Sys.
Import Sys.

(** ** Programs *)

(** [Exit] is the call of [exit]; [Hang] marks a loop that used up its bound. *)
Inductive prog (A : Type) : Type :=
  | Done (a : A)
  | Exit
  | Hang
  | Call {B : Type} (c : call B) (k : B → prog A).
Arguments Done {A} a.
Arguments Exit {A}.
Arguments Hang {A}.
Arguments Call {A B} c k.

Fixpoint prog_bind {A B : Type} (p : prog A) (f : A → prog B) : prog B :=
  match p with
  | Done a => f a
  | Exit => Exit
  | Hang => Hang
  | Call c k => Call c (λ b, prog_bind (k b) f)
  end.

(** A program that works on data of type [S], such as its memory. *)
Definition U (S A : Type) : Type := S → prog (A * S).

#[global] Instance U_ret (S : Type) : MRet (U S) := λ A a s, Done (a, s).
#[global] Instance U_bind (S : Type) : MBind (U S) := λ A B k m s,
  prog_bind (m s) (λ p, k p.1 p.2).

Definition sys {S B : Type} (c : call B) : U S B := λ s, Call c (λ b, Done (b, s)).
Definition exit {S A : Type} : U S A := λ _, Exit.
Definition hang {S A : Type} : U S A := λ _, Hang.
Definition look {S A : Type} (f : S → A) : U S A := λ s, Done (f s, s).
Definition change {S : Type} (f : S → S) : U S unit := λ s, Done (tt, f s).

Fixpoint each {S A : Type} (f : A → U S unit) (l : list A) : U S unit :=
  match l with
  | [] => mret tt
  | x :: l' => f x ;; each f l'
  end.

(** ** The user library *)

(** The string at an address.  The bound is the size of a page: the arguments of a
    program share one, and every buffer is smaller. *)
Fixpoint str_from (n : nat) (m : mem) (a : Z) : list Z :=
  match n with
  | O => []
  | S n' => if decide (m a = 0) then [] else m a :: str_from n' m (a + 1)
  end.

Definition str_at (m : mem) (a : Z) : list Z := str_from (Z.to_nat 4096) m a.

(** A string constant that ends with a newline. *)
Definition line (s : string) : list Z := chars s ++ [ch_newline].

Definition putc {S : Type} (fd c : Z) : U S unit := sys (Write fd [c]) ;; mret tt.

(** [printf]: the text of [Printf.printf], a character at a time. *)
Definition printf {S : Type} (str : Z → list Z) (fd : Z) (fmt args : list Z) : U S unit :=
  match Printf.printf str fmt args with
  | Some l => each (putc fd) l
  | None => hang
  end.

(** [printf] for programs whose data is their memory. *)
Definition mprintf (fd : Z) (fmt args : list Z) : U mem unit :=
  m ← look id; printf (str_at m) fd fmt args.

(** [read(fd, a, n)] and [write(fd, a, n)] on the program's memory. *)
Definition read (fd a n : Z) : U mem Z :=
  r ← sys (Read fd n);
  match r with
  | None => mret (-1)
  | Some l => change (array_at a l) ;; mret (Z.of_nat (length l))
  end.

Definition write (fd a n : Z) : U mem Z :=
  l ← look (read_array a (Z.to_nat n)); sys (Write fd l).

(** [for(i=0; i+1 < max; )]: [n] rounds are left. *)
Fixpoint gets_loop (n : nat) (buf i : Z) : U mem unit :=
  match n with
  | O => change (<[buf + i := 0]>)
  | S n' =>
      r ← sys (Read 0 1);
      match r with
      | Some (c :: _) =>
          change (<[buf + i := c]>) ;;
          if decide (c = 10 ∨ c = 13) then change (<[buf + (i + 1) := 0]>)
          else gets_loop n' buf (i + 1)
      | _ => change (<[buf + i := 0]>)
      end
  end.

Definition gets (buf max : Z) : U mem Z := gets_loop (Z.to_nat (max - 1)) buf 0 ;; mret buf.

Definition O_RDONLY : Z := 0x000.
Definition O_WRONLY : Z := 0x001.
Definition O_RDWR : Z := 0x002.
Definition O_CREATE : Z := 0x200.

(** [stat]: the answer has the structure it fills. *)
Definition stat (path : list Z) : U mem (option stat_t) :=
  fd ← sys (Open path O_RDONLY);
  if decide (fd < 0) then mret None else
  r ← sys (Fstat fd);
  sys (Close fd) ;;
  mret r.

(** ** Interpretation *)

Inductive result (W A : Type) : Type :=
  | Returned (a : A) (w : W)
  | Exited (w : W)
  | Stuck (w : W).
Arguments Returned {W A} a w.
Arguments Exited {W A} w.
Arguments Stuck {W A} w.

(** A system as one process sees it: the answer to a call and what the system is
    afterwards. *)
Class System (W : Type) : Type := handle : ∀ {B : Type}, call B → W → B * W.

Fixpoint run {W A : Type} {SY : System W} (p : prog A) (w : W) : result W A :=
  match p with
  | Done a => Returned a w
  | Exit => Exited w
  | Hang => Stuck w
  | Call c k => let '(b, w') := handle c w in run (k b) w'
  end.

Section run.
Context {W : Type} {SY : System W}.

Lemma run_bind {A B : Type} (p : prog A) (f : A → prog B) w :
  run (prog_bind p f) w =
  match run p w with
  | Returned a w' => run (f a) w'
  | Exited w' => Exited w'
  | Stuck w' => Stuck w'
  end.
Proof.
  revert w. induction p as [a| | |B' c k IH]; intros w; try done. cbn [prog_bind run].
  destruct (handle c w) as [b w']. apply IH.
Qed.

Context {S : Type}.

(** What a routine on data [s] gives in the system [w]. *)
Definition runs {A : Type} (m : U S A) (s : S) (w : W) : result W (A * S) := run (m s) w.

Lemma runs_bind {A B : Type} (m : U S A) (k : A → U S B) s w :
  runs (m ≫= k) s w =
  match runs m s w with
  | Returned (a, s') w' => runs (k a) s' w'
  | Exited w' => Exited w'
  | Stuck w' => Stuck w'
  end.
Proof.
  unfold runs, mbind, U_bind. rewrite run_bind. by destruct (run (m s) w) as [[a s'] w'|w'|w'].
Qed.

Lemma runs_sys {B : Type} (c : call B) (s : S) w :
  runs (sys c) s w = Returned ((handle c w).1, s) (handle c w).2.
Proof. unfold runs, sys. cbn [run]. by destruct (handle c w). Qed.

Lemma runs_look {A : Type} (f : S → A) s w : runs (look f) s w = Returned (f s, s) w.
Proof. done. Qed.

Lemma runs_change (f : S → S) s w : runs (change f) s w = Returned (tt, f s) w.
Proof. done. Qed.

Lemma runs_ret {A : Type} (a : A) s w : runs (mret a) s w = Returned (a, s) w.
Proof. done. Qed.
End run.

(** Evaluation of the next call of a program. *)
Ltac urun :=
  repeat (rewrite ?runs_bind, ?runs_sys, ?runs_look, ?runs_change, ?runs_ret; cbn [fst snd]).

(** ** A system with three files

    What a program without children sees of its standard files: the answers of the
    reads and opens to come, and the bytes written so far, each with its descriptor. *)

Record stdio := Stdio {
  io_reads : list (option (list Z));
  io_opens : list Z;
  io_written : list (Z * Z);
  io_calls : list (list Z)   (* names passed to the other calls, in order *)
}.

Definition next_read (w : stdio) : option (list Z) * stdio :=
  match io_reads w with
  | [] => (Some [], w)
  | r :: rs => (r, Stdio rs (io_opens w) (io_written w) (io_calls w))
  end.

Definition next_open (w : stdio) : Z * stdio :=
  match io_opens w with
  | [] => (-1, w)
  | r :: rs => (r, Stdio (io_reads w) rs (io_written w) (io_calls w))
  end.

Definition written (fd : Z) (l : list Z) (w : stdio) : stdio :=
  Stdio (io_reads w) (io_opens w) (io_written w ++ ((fd,.) <$> l)) (io_calls w).

Definition named (l : list Z) (w : stdio) : stdio :=
  Stdio (io_reads w) (io_opens w) (io_written w) (io_calls w ++ [l]).

#[global] Instance stdio_system : System stdio := λ B c w,
  match c in call B return B * stdio with
  | Write fd l => (Z.of_nat (length l), written fd l w)
  | Read fd n => next_read w
  | Open path mode => next_open (named path w)
  | Unlink path => (0, named path w)
  | Mkdir path => (0, named path w)
  | Chdir path => (0, named path w)
  | Link old new => (0, named new (named old w))
  | PipeCall => (None, w)
  | Fstat _ => (None, w)
  | Mknod path _ _ => (0, named path w)
  | ExecCall path _ => (-1, named path w)
  | Fork => (-1, w)
  | Wait => (-1, w)
  | Close _ | Kill _ | Dup _ | Getpid | Sbrk _ | Sleep _ | Uptime | Signal _ _ | Sigsend _ _ | Sigreturn => (0, w)
  | WaitStat => (None, w)
  | Advanceprocstats | Priority _ => (tt, w)
  end.

Lemma written_nil fd w : written fd [] w = w.
Proof. destruct w. unfold written. cbn. by rewrite app_nil_r. Qed.

Lemma stdio_written_app fd l1 l2 w : written fd l2 (written fd l1 w) = written fd (l1 ++ l2) w.
Proof. unfold written. cbn. by rewrite fmap_app, app_assoc. Qed.

(** Printing a text writes its characters. *)
Lemma runs_putc {S : Type} fd l (s : S) w :
  runs (each (putc fd) l) s w = Returned (tt, s) (written fd l w).
Proof.
  revert w. induction l as [|c l IH]; intros w; cbn [each].
  - by rewrite written_nil.
  - unfold putc. urun. rewrite IH. cbn. by rewrite stdio_written_app.
Qed.

(** What a run has written to its standard output. *)
Definition stdout {A : Type} (o : result stdio A) : list Z :=
  match o with
  | Returned _ w | Exited w | Stuck w => (filter (λ p, p.1 = 1) (io_written w)).*2
  end.

Lemma stdout_written {A : Type} (a : A) l rs os cs :
  stdout (Returned a (written 1 l (Stdio rs os [] cs))) = l.
Proof.
  cbn. induction l as [|c l IH]; [done|]. rewrite fmap_cons, filter_cons_True, fmap_cons by done. by f_equal.
Qed.

Lemma read_array_at a l m : read_array a (length l) (array_at a l m) = l.
Proof.
  unfold read_array. apply list_eq_same_length with (length l); [done|by rewrite length_fmap, length_seq|].
  intros i x y Hi Hx Hy. rewrite list_lookup_fmap, lookup_seq_lt in Hx by lia. injection Hx as <-.
  unfold array_at. rewrite decide_True by lia. replace (Z.to_nat _) with i by lia. by apply list_lookup_total_correct.
Qed.

(** A read that delivers [l], and one at the end of the file. *)
Lemma runs_read fd a n l rs os wr cs (m : mem) :
  runs (read fd a n) m (Stdio (Some l :: rs) os wr cs) =
  Returned (Z.of_nat (length l), array_at a l m) (Stdio rs os wr cs).
Proof. unfold read. urun. cbn. by urun. Qed.

Lemma runs_read_end fd a n os wr cs (m : mem) :
  runs (read fd a n) m (Stdio [] os wr cs) = Returned (0, array_at a [] m) (Stdio [] os wr cs).
Proof. unfold read. urun. cbn. by urun. Qed.

Lemma runs_write fd a n (m : mem) w :
  runs (write fd a n) m w =
  Returned (Z.of_nat (length (read_array a (Z.to_nat n) m)), m) (written fd (read_array a (Z.to_nat n) m) w).
Proof. unfold write. by urun. Qed.

Lemma runs_mprintf fd fmt args l (m : mem) w :
  Printf.printf (str_at m) fmt args = Some l → runs (mprintf fd fmt args) m w = Returned (tt, m) (written fd l w).
Proof. intros Hl. unfold mprintf. urun. unfold printf, id. rewrite Hl. apply runs_putc. Qed.
