(* ===== verification/Grep.v ===== *)
(** * grep (grep.c)

    The regular expression matcher of Kernighan and Pike and the loop that applies
    it to the lines of a file.  The matcher is shown to decide the language that
    the pattern denotes; the loop is shown to print the matching lines of a file
    that one read delivers, and what it prints for a file that takes two. *)

From stdpp Require Import base list gmap strings.
From Stdlib Require Import ZArith Lia.
From S2P Require Import Prelude CString Cprintf User.

Definition ch_caret : Z := 94.
Definition ch_dot : Z := 46.
Definition ch_star : Z := 42.
Definition ch_dollar : Z := 36.

(** ** The matcher

    [n] bounds the length of the pattern, [tn] that of the text. *)

Section matcher.
Context (m : mem).

(** The loop of [matchstar]; [here] is [matchhere] on the rest of the pattern. *)
Fixpoint matchstar_loop (here : Z → option bool) (tn : nat) (c text : Z) : option bool :=
  match here text with
  | None => None
  | Some true => Some true
  | Some false =>
      if decide (m text ≠ 0 ∧ (m text = c ∨ c = ch_dot)) then
        match tn with O => None | S tn' => matchstar_loop here tn' c (text + 1) end
      else Some false
  end.

Fixpoint matchhere (n tn : nat) (re text : Z) : option bool :=
  if decide (m re = 0) then Some true
  else match n with
  | O => None
  | S n' =>
      if decide (m (re + 1) = ch_star) then matchstar_loop (matchhere n' tn (re + 2)) tn (m re) text
      else if decide (m re = ch_dollar ∧ m (re + 1) = 0) then Some (bool_decide (m text = 0))
      else if decide (m text ≠ 0 ∧ (m re = ch_dot ∨ m re = m text)) then matchhere n' tn (re + 1) (text + 1)
      else Some false
  end.

Definition matchstar (n tn : nat) (c re text : Z) : option bool :=
  matchstar_loop (matchhere n tn re) tn c text.

(** [do{ if(matchhere(re, text)) return 1; }while( *text++ != 0);] *)
Fixpoint match_loop (n tn k : nat) (re text : Z) : option bool :=
  match matchhere n tn re text with
  | None => None
  | Some true => Some true
  | Some false =>
      if decide (m text ≠ 0) then
        match k with O => None | S k' => match_loop n tn k' re (text + 1) end
      else Some false
  end.

Definition match_re (n tn : nat) (re text : Z) : option bool :=
  if decide (m re = ch_caret) then matchhere n tn (re + 1) text
  else match_loop n tn tn re text.
End matcher.

(** ** The program *)

Module Grep.
Section grep.
Context (buf : Z) (fuel : nat).

Definition BUF : Z := 1024.

(** [while((q = strchr(p, '\n')) != 0)]; the result is the last [p]. *)
Fixpoint grep_lines (n : nat) (pattern p : Z) : U mem Z :=
  m ← look id;
  match Ulib.strchr fuel p ch_newline m with
  | None => hang
  | Some q =>
      if decide (q = 0) then mret p else
      change (<[q := 0]>) ;;
      m ← look id;
      match match_re m fuel fuel pattern p with
      | None => hang
      | Some b =>
          (if b then change (<[q := ch_newline]>) ;; write 1 p (q + 1 - p) ;; mret tt
           else mret tt) ;;
          match n with O => hang | S n' => grep_lines n' pattern (q + 1) end
      end
  end.

(** [while((n = read(fd, buf+m, sizeof(buf)-m)) > 0)]; [rounds] reads. *)
Fixpoint grep_loop (rounds : nat) (pattern fd m : Z) : U mem unit :=
  n ← read fd (buf + m) (BUF - m);
  if decide (n <= 0) then mret tt else
  let m := m + n in
  p ← grep_lines fuel pattern buf;
  let m := if decide (p = buf) then 0 else m in
  m ← (if decide (m > 0) then
         let m := m - (p - buf) in
         change (Ulib.memmove buf p m) ;; mret m
       else mret m);
  match rounds with O => hang | S rounds' => grep_loop rounds' pattern fd m end.

Definition grep (rounds : nat) (pattern fd : Z) : U mem unit := grep_loop rounds pattern fd 0.

Fixpoint grep_files (rounds : nat) (pattern : Z) (files : list Z) : U mem unit :=
  match files with
  | [] => exit
  | f :: files' =>
      m ← look id;
      fd ← sys (Sys.Open (str_at m f) 0);
      if decide (fd < 0) then mprintf 1 (line "grep: cannot open %s") [f] ;; exit
      else grep rounds pattern fd ;; sys (Sys.Close fd) ;; grep_files rounds pattern files'
  end.

Definition main (rounds : nat) (argv : list Z) : U mem unit :=
  match argv with
  | _ :: pattern :: files =>
      if decide (files = []) then grep rounds pattern 0 ;; exit
      else grep_files rounds pattern files
  | _ => mprintf 2 (line "usage: grep pattern [file ...]") [] ;; exit
  end.
End grep.
End Grep.

(** ** The language of a pattern *)

Inductive atom := AnyByte | OneByte (c : Z).
Inductive item := Single (a : atom) | Repeat (a : atom).

Definition atom_of (c : Z) : atom := if decide (c = ch_dot) then AnyByte else OneByte c.

Definition atom_ok (a : atom) (c : Z) : Prop :=
  match a with AnyByte => True | OneByte d => c = d end.

(** The items of a pattern and whether it ends with the anchor for the end of the
    text.  A star belongs to the character before it, whatever that is. *)
Fixpoint items (r : list Z) : list item * bool :=
  match r with
  | [] => ([], false)
  | c :: r1 =>
      match r1 with
      | [] => if decide (c = ch_dollar) then ([], true) else ([Single (atom_of c)], false)
      | d :: r2 =>
          if decide (d = ch_star) then (Repeat (atom_of c) :: (items r2).1, (items r2).2)
          else (Single (atom_of c) :: (items r1).1, (items r1).2)
      end
  end.

Definition item_lang (i : item) (l : list Z) : Prop :=
  match i with
  | Single a => ∃ c, l = [c] ∧ atom_ok a c
  | Repeat a => Forall (atom_ok a) l
  end.

Fixpoint lang (its : list item) (l : list Z) : Prop :=
  match its with
  | [] => l = []
  | i :: its' => ∃ l1 l2, l = l1 ++ l2 ∧ item_lang i l1 ∧ lang its' l2
  end.

(** Some text starts with, and some text has, a part in the pattern's language. *)
Definition matched_here (r t : list Z) : Prop :=
  ∃ mid post, t = mid ++ post ∧ lang (items r).1 mid ∧ ((items r).2 = true → post = []).

Definition matched (r t : list Z) : Prop :=
  if decide (head r = Some ch_caret) then matched_here (tail r) t
  else ∃ pre rest, t = pre ++ rest ∧ matched_here r rest.

(** ** The matcher decides it *)

Section matches.
Implicit Types (r t l : list Z).

Lemma atom_of_ok c d : atom_ok (atom_of c) d ↔ c = ch_dot ∨ c = d.
Proof. unfold atom_of. case_decide; simpl; naive_solver. Qed.

(** What a star in front of a pattern adds to its language. *)
Lemma matched_star c r t :
  matched_here (c :: ch_star :: r) t ↔
  matched_here r t ∨ ∃ d t', t = d :: t' ∧ atom_ok (atom_of c) d ∧ matched_here (c :: ch_star :: r) t'.
Proof.
  unfold matched_here. cbn [items]. rewrite decide_True by done. cbn [fst snd lang item_lang]. split.
  - intros (mid & post & -> & (l1 & l2 & -> & H1 & H2) & He). destruct l1 as [|d l1].
    + left. exists l2, post. done.
    + right. inversion_clear H1. exists d, ((l1 ++ l2) ++ post). split; [done|]. split; [done|].
      exists (l1 ++ l2), post. split; [done|]. split; [|done]. by exists l1, l2.
  - intros [(mid & post & -> & H & He)|(d & t' & -> & Hd & mid & post & -> & (l1 & l2 & -> & H1 & H2) & He)].
    + exists mid, post. split; [done|]. split; [|done]. exists [], mid. by split_and!; [|constructor|].
    + exists (d :: l1 ++ l2), post. split; [done|]. split; [|done]. exists (d :: l1), l2. split_and!; [done|by constructor|done].
Qed.

Lemma matched_single c r t :
  head r ≠ Some ch_star → (c = ch_dollar → r ≠ []) →
  matched_here (c :: r) t ↔ ∃ d t', t = d :: t' ∧ (c = ch_dot ∨ c = d) ∧ matched_here r t'.
Proof.
  intros Hs Hd. unfold matched_here.
  assert (items (c :: r) = (Single (atom_of c) :: (items r).1, (items r).2)) as ->.
  { destruct r as [|d r]; cbn [items]; [by rewrite decide_False by naive_solver|].
    by rewrite decide_False by (intros ->; done). }
  cbn [fst snd lang item_lang]. split.
  - intros (mid & post & -> & (l1 & l2 & -> & (d & -> & H1) & H2) & He). apply atom_of_ok in H1.
    exists d, (l2 ++ post). split; [done|]. split; [done|]. by exists l2, post.
  - intros (d & t' & -> & H1%atom_of_ok & mid & post & -> & H2 & He).
    exists (d :: mid), post. split; [done|]. split; [|done]. exists [d], mid. split_and!; [done|by exists d|done].
Qed.

Lemma matched_end t : matched_here [ch_dollar] t ↔ t = [].
Proof.
  unfold matched_here. cbn. split; [|intros ->; by exists [], []].
  intros (mid & post & -> & -> & He). by rewrite He.
Qed.

Lemma matched_empty t : matched_here [] t.
Proof. by exists [], t. Qed.
End matches.

Section decides.
Context (m : mem).
Implicit Types (r t : list Z).

(** [o] answers the question [P]. *)
Definition answers (o : option bool) (P : Prop) : Prop := ∃ b, o = Some b ∧ (b = true ↔ P).

Lemma answers_iff o P Q : answers o P → (P ↔ Q) → answers o Q.
Proof. intros (b & Hb & Hp) H. exists b. split; [done|]. by rewrite Hp. Qed.

Lemma matchstar_loop_spec here c r tn k text t :
  (∀ text t, cstr m text t → (length t <= tn)%nat → answers (here text) (matched_here r t)) →
  cstr m text t → (length t <= k)%nat → (length t <= tn)%nat →
  answers (matchstar_loop m here k c text) (matched_here (c :: ch_star :: r) t).
Proof.
  intros Hhere. revert text t. induction k as [|k IH]; intros text t Ht Hk Hn;
    destruct (Hhere text t Ht Hn) as (b & Hb & Hm); cbn [matchstar_loop]; rewrite Hb;
    (destruct b; [exists true; split; [done|]; rewrite matched_star; naive_solver|]).
  - destruct t; [|simpl in Hk; lia]. simpl in Ht. rewrite decide_False by naive_solver.
    exists false. split; [done|]. rewrite matched_star. naive_solver.
  - destruct t as [|d t]; cbn [cstr] in Ht.
    { rewrite decide_False by naive_solver. exists false. split; [done|]. rewrite matched_star. naive_solver. }
    destruct Ht as (Hd & H0 & Ht). rewrite Hd. case_decide as Hc.
    + eapply answers_iff; [by apply (IH (text + 1) t); [|simpl in *; lia..]|].
      rewrite (matched_star c r (d :: t)). rewrite <-Hm. split; [|naive_solver].
      intros. right. exists d, t. rewrite atom_of_ok. naive_solver.
    + exists false. split; [done|]. rewrite matched_star. split; [done|]. intros [H%Hm|(d' & t' & [= <- <-] & H%atom_of_ok & _)]; [done|].
      destruct Hc. naive_solver.
Qed.

Lemma matchhere_spec tn n re r text t :
  cstr m re r → cstr m text t → (length r <= n)%nat → (length t <= tn)%nat →
  answers (matchhere m n tn re text) (matched_here r t).
Proof.
  revert re r text t. induction n as [|n IH]; intros re r text t Hr Ht Hn Htn; destruct r as [|c r]; cbn [cstr] in Hr;
    try (simpl in Hn; lia); try (cbn [matchhere]; rewrite decide_True by done; exists true; split; [done|];
    split; [intros _; apply matched_empty|done]).
  destruct Hr as (Hc & H0 & Hr). cbn [matchhere]. rewrite Hc, decide_False by done.
  pose proof (cstr_head _ _ _ Hr) as Hh. simpl in Hn. case_decide as Hs.
  { destruct r as [|e r]; cbn [cstr] in Hr; [unfold ch_star in *; naive_solver lia|].
    assert (e = ch_star) as -> by naive_solver. destruct Hr as (_ & _ & Hr).
    replace (re + 1 + 1) with (re + 2) in Hr by lia. simpl in Hn.
    apply (matchstar_loop_spec _ _ _ tn); [|done..]. intros text' t' Ht' Hl. by apply IH; [| |lia|]. }
  pose proof (cstr_head _ _ _ Ht) as Hth. case_decide as Hd.
  { destruct Hd as [-> Hd]. assert (r = []) as -> by (destruct r; cbn [cstr] in Hr; naive_solver).
    eexists. split; [done|]. rewrite bool_decide_eq_true, matched_end, Hth.
    destruct t; cbn [cstr] in Ht; simpl; naive_solver. }
  assert (head r ≠ Some ch_star) as Hs' by (destruct r; simpl in *; naive_solver).
  assert (c = ch_dollar → r ≠ []) as Hd' by (intros -> ->; simpl in *; naive_solver).
  destruct t as [|d t]; cbn [cstr] in Ht.
  { rewrite decide_False by naive_solver. exists false. split; [done|]. rewrite matched_single by done. naive_solver. }
  destruct Ht as (Htd & Ht0 & Ht). rewrite Htd. case_decide as Hm.
  - eapply answers_iff; [apply (IH (re + 1) r (text + 1) t); [done..|lia|simpl in *; lia]|]. rewrite matched_single by done. naive_solver.
  - exists false. split; [done|]. rewrite matched_single by done. naive_solver.
Qed.

Lemma match_loop_spec tn n k re r text t :
  cstr m re r → cstr m text t → (length r <= n)%nat → (length t <= k)%nat → (length t <= tn)%nat →
  answers (match_loop m n tn k re text) (∃ pre rest, t = pre ++ rest ∧ matched_here r rest).
Proof.
  revert text t. induction k as [|k IH]; intros text t Hr Ht Hn Hk Htn;
    destruct (matchhere_spec tn n re r text t) as (b & Hb & Hm); try done; cbn [match_loop]; rewrite Hb;
    (destruct b; [exists true; split; [done|]; split; [|done]; intros _; exists [], t; naive_solver|]);
    (destruct t as [|d t]; cbn [cstr] in Ht; [rewrite decide_False by naive_solver; exists false; split; [done|];
      split; [done|]; intros ([] & rest & ? & ?); naive_solver|]); simpl in Hk, Htn; [lia|].
  destruct Ht as (Hd & H0 & Ht). rewrite decide_True by congruence.
  eapply answers_iff; [apply (IH (text + 1) t); try done; lia|]. split.
  - intros (pre & rest & -> & ?). by exists (d :: pre), rest.
  - intros ([|? pre] & rest & H & ?); simplify_eq/=; [naive_solver|]. by exists pre, rest.
Qed.
End decides.

Lemma match_answers m n tn re r text t :
  cstr m re r → cstr m text t → (length r <= n)%nat → (length t <= tn)%nat →
  answers (match_re m n tn re text) (matched r t).
Proof.
  intros Hr Ht Hn Htn. unfold match_re, matched. rewrite (cstr_head _ _ _ Hr).
  destruct r as [|c r]; simpl.
  - by apply match_loop_spec.
  - destruct (decide (c = ch_caret)) as [->|Hc].
    + rewrite decide_True by done. apply matchhere_spec; try done; [apply Hr|simpl in Hn; lia].
    + rewrite decide_False by naive_solver. by apply match_loop_spec.
Qed.

(** C31. [match] decides the language of its pattern: with bounds for the two
    lengths it always answers, and the answer is yes exactly if the text has a part
    that is in the language of the pattern, at the start of the text if the pattern
    begins with a caret and at its end if the pattern ends with a dollar sign. *)
Theorem match_re_spec m n tn re r text t :
  cstr m re r → cstr m text t → (length r <= n)%nat → (length t <= tn)%nat →
  ∃ b, match_re m n tn re text = Some b ∧ (b = true ↔ matched r t).
Proof. apply match_answers. Qed.

(** A memory with two strings in it. *)
Definition two_strings (r t : string) : mem :=
  array_at 100 (chars r ++ [0]) (array_at 200 (chars t ++ [0]) (λ _, 0)).

Lemma match_re_spec_witness :
  let m := two_strings "^a.*b$" "axxbyb" in
  match_re m 6 6 100 200 = Some true ∧ matched (chars "^a.*b$") (chars "axxbyb").
Proof.
  intros m. destruct (match_re_spec m 6 6 100 (chars "^a.*b$") 200 (chars "axxbyb")) as (b & Hb & Hm);
    [by vm_compute..|vm_compute; lia|vm_compute; lia|].
  split; [by vm_compute|]. apply Hm. vm_compute in Hb. congruence.
Defined.

(** ** The lines grep prints *)

Definition unlines (ls : list (list Z)) : list Z := mjoin ((λ l, l ++ [ch_newline]) <$> ls).

Lemma unlines_cons l ls : unlines (l :: ls) = l ++ ch_newline :: unlines ls.
Proof. unfold unlines. rewrite fmap_cons. cbn. by rewrite <-app_assoc. Qed.

(** [out] are the lines of [ls] that have the property, in order. *)
Inductive selected (P : list Z → Prop) : list (list Z) → list (list Z) → Prop :=
  | selected_nil : selected P [] []
  | selected_take l ls out : P l → selected P ls out → selected P (l :: ls) (l :: out)
  | selected_skip l ls out : ¬ P l → selected P ls out → selected P (l :: ls) out.

Section printed.
Context (buf : Z) (fuel : nat) (pattern : Z) (r : list Z).
Implicit Types (m : mem) (w : stdio) (ls : list (list Z)).

(** The pattern is at [pattern], outside of the bytes from [p] to [e]. *)
Definition pattern_off m p e : Prop :=
  cstr m pattern r ∧ (pattern + Z.of_nat (length r) < p ∨ e < pattern).

Lemma pattern_off_step m m' p p' e :
  pattern_off m p e → p <= p' → (∀ a, m' a = m a ∨ p <= a <= e) → pattern_off m' p' e.
Proof.
  intros [Hc Hd] Hp Hm. split; [|lia]. eapply cstr_ext; [|done]. intros a Ha. destruct (Hm a); [done|lia].
Qed.

(** A line [l] at [p], cut off at [q]. *)
Lemma cut_line m p l rest :
  cstr m p (l ++ ch_newline :: rest) →
  let q := p + Z.of_nat (length l) in
  let m' := <[q := 0]> m in
  cstr m' p l ∧ cstr m' (q + 1) rest ∧ cstr (<[q := ch_newline]> m') (q + 1) rest ∧
  read_array p (S (length l)) (<[q := ch_newline]> m') = l ++ [ch_newline].
Proof.
  intros Hc q m'. pose proof (cstr_app_inv _ _ _ _ Hc) as Hq. cbn [cstr] in Hq. destruct Hq as (_ & _ & Hrest).
  assert (∀ i, (i < length l)%nat → m (p + Z.of_nat i) = l !!! i ∧ l !!! i ≠ 0) as Hl.
  { intros i Hi. destruct (cstr_lookup _ _ _ i Hc) as [H1 H2]; [rewrite length_app; lia|].
    rewrite lookup_total_app_l in H1, H2 by done. done. }
  split_and!.
  - apply cstr_intro.
    + intros i Hi. unfold m'. rewrite insert_mem, decide_False by (unfold q; lia). by apply Hl.
    + intros (i & Hi)%list_elem_of_lookup. pose proof (lookup_lt_Some _ _ _ Hi).
      apply list_lookup_total_correct in Hi. by apply (Hl i).
    + unfold m'. by rewrite insert_mem, decide_True.
  - eapply cstr_ext; [|exact Hrest]. intros a Ha. unfold m'. rewrite insert_mem, decide_False; [done|unfold q in *; lia].
  - eapply cstr_ext; [|exact Hrest]. intros a Ha. unfold m'. rewrite !insert_mem, !decide_False; [done|unfold q in *; lia..].
  - unfold read_array. rewrite seq_S, fmap_app. simpl. unfold m'. f_equal.
    + apply list_eq_same_length with (length l); [done|by rewrite length_fmap, length_seq|].
      intros i x y Hi Hx Hy. rewrite list_lookup_fmap, lookup_seq_lt in Hx by lia. injection Hx as <-.
      rewrite !insert_mem, !decide_False by (unfold q; lia). apply list_lookup_total_correct in Hy as <-. by apply Hl.
    + by rewrite insert_mem, decide_True.
Qed.

Lemma grep_lines_spec ls : ∀ n m w p last,
  0 < p → cstr m p (unlines ls ++ last) → Forall (λ l, ch_newline ∉ l) ls → ch_newline ∉ last →
  (length (unlines ls ++ last) <= fuel)%nat → (length r <= fuel)%nat → (length ls <= n)%nat →
  pattern_off m p (p + Z.of_nat (length (unlines ls ++ last))) →
  ∃ out m', selected (matched r) ls out ∧
    runs (Grep.grep_lines fuel n pattern p) m w =
      Returned (p + Z.of_nat (length (unlines ls)), m') (written 1 (unlines out) w) ∧
    (∀ a, m' a = m a ∨ p <= a < p + Z.of_nat (length (unlines ls))).
Proof.
  induction ls as [|l ls IH]; intros n m w p last Hp Hc Hls Hlast Hf Hr Hn Hoff.
  { exists [], m. split; [constructor|]. split; [|by left].
    assert (Ulib.strchr fuel p ch_newline m = Some 0) as Hq by (by apply (strchr_spec fuel p ch_newline last m)).
    destruct n; cbn [Grep.grep_lines]; urun; unfold id; rewrite Hq, decide_True by done; urun;
      (rewrite written_nil; do 2 f_equal; cbn; lia). }
  assert (unlines (l :: ls) ++ last = l ++ ch_newline :: unlines ls ++ last) as El.
  { by rewrite unlines_cons, <-app_assoc. }
  assert (length (unlines (l :: ls)) = S (length l + length (unlines ls))) as Elen.
  { rewrite unlines_cons, length_app. cbn. lia. }
  rewrite El in Hc, Hf, Hoff. rewrite length_app in Hf, Hoff. cbn [length] in Hf, Hoff. inversion_clear Hls as [|? ? Hl Hls'].
  destruct (strchr_spec fuel p ch_newline (l ++ ch_newline :: unlines ls ++ last) m Hc) as [Hq _];
    [rewrite length_app; cbn [length]; lia|]. specialize (Hq _ _ eq_refl Hl).
  pose proof (cut_line m p l (unlines ls ++ last) Hc) as (H1 & H2 & H3 & H4).
  set (q := p + Z.of_nat (length l)) in *. set (e := p + _) in Hoff.
  assert (pattern_off (<[q := 0]> m) p e) as Hoff1.
  { eapply pattern_off_step; [done|lia|]. intros a. rewrite insert_mem. case_decide; [right; unfold q, e in *; lia|by left]. }
  destruct (match_answers (<[q := 0]> m) fuel fuel pattern r p l) as (b & Hb & Hm); [apply Hoff1|done|done|lia|].
  set (m2 := if b then <[q := ch_newline]> (<[q := 0]> m) else <[q := 0]> m).
  assert (∀ a, m2 a = m a ∨ a = q) as Hm2.
  { intros a. unfold m2. destruct b; rewrite !insert_mem; repeat case_decide; auto. }
  destruct n as [|n]; [simpl in Hn; lia|].
  destruct (IH n m2 (if b then written 1 (l ++ [ch_newline]) w else w) (q + 1) last)
    as (out & m' & Hsel & Hrun & Hm'); try done; [unfold q; lia|unfold m2; by destruct b|lia|simpl in Hn; lia|..].
  { replace (q + 1 + _) with e by (unfold e, q; lia).
    eapply pattern_off_step; [exact Hoff|unfold q; lia|].
    intros a. destruct (Hm2 a); [by left|right]. unfold q, e in *. lia. }
  exists (if b then l :: out else out), m'. split_and!.
  - destruct b; constructor; naive_solver.
  - cbn [Grep.grep_lines]. urun. unfold id. rewrite Hq, decide_False by (unfold q; lia). urun. unfold id. rewrite Hb.
    destruct b; urun; [|change (<[q := 0]> m) with m2; rewrite Hrun, Elen; do 2 f_equal; unfold q; lia].
    unfold write. urun. replace (Z.to_nat (q + 1 - p)) with (S (length l)) by (unfold q; lia).
    rewrite H4. cbn [handle stdio_system fst snd]. change (<[q := ch_newline]> (<[q := 0]> m)) with m2.
    rewrite Hrun, stdio_written_app, Elen, unlines_cons, <-app_assoc.
    do 2 f_equal. unfold q; lia.
  - intros a. rewrite Elen. destruct (Hm' a) as [H|?]; [rewrite H; destruct (Hm2 a) as [H'|H']|]; [by left|right; unfold q in *; lia..].
Qed.
End printed.

(** A file that one read delivers: [grep] prints exactly the lines of the file
    that the pattern matches, each with its newline and in order, and returns when
    the second read finds the end of the file.  The text after the last newline is
    not looked at. *)
Theorem grep_spec buf fuel rounds pattern r fd m w ls last :
  0 < buf → (Z.to_nat Grep.BUF <= fuel)%nat → (length r <= fuel)%nat → (0 < rounds)%nat →
  cstr m pattern r → pattern + Z.of_nat (length r) < buf ∨ buf + Grep.BUF < pattern →
  (∀ a, buf <= a < buf + Grep.BUF → m a = 0) →
  io_reads w = [Some (unlines ls ++ last)] →
  (0 < length (unlines ls ++ last))%nat → Z.of_nat (length (unlines ls ++ last)) < Grep.BUF →
  0 ∉ unlines ls ++ last → Forall (λ l, ch_newline ∉ l) ls → ch_newline ∉ last →
  ∃ out m', selected (matched r) ls out ∧
    runs (Grep.grep buf fuel rounds pattern fd) m w =
      Returned (tt, m') (written 1 (unlines out) (Stdio [] (io_opens w) (io_written w) (io_calls w))).
Proof.
  intros Hbuf Hf Hr Hrn Hp Hoff Hz Hrd Hlen Hlt H0 Hls Hlast. set (bs := unlines ls ++ last) in *.
  set (m1 := array_at buf bs m). set (w1 := Stdio [] _ _ _).
  assert (cstr m1 buf bs) as Hc.
  { apply cstr_intro; [|done|]; unfold m1, array_at.
    - intros i Hi. rewrite decide_True by lia. f_equal. lia.
    - rewrite decide_False by lia. apply Hz. lia. }
  assert (pattern_off pattern r m1 buf (buf + Z.of_nat (length bs))) as Ho.
  { split; [|unfold Grep.BUF in *; lia]. eapply cstr_ext; [|exact Hp]. intros a Ha. unfold m1, array_at.
    rewrite decide_False; [done|]. unfold Grep.BUF in *. lia. }
  destruct (grep_lines_spec fuel pattern r ls fuel m1 w1 buf last) as (out & m2 & Hsel & Hrun & Hm2); try done.
  - fold bs. unfold Grep.BUF in *. lia.
  - assert (length ls <= length (unlines ls))%nat; [|unfold bs in *; rewrite length_app in *; unfold Grep.BUF in *; lia].
    clear. induction ls as [|l ls IH]; [done|]. rewrite unlines_cons, length_app. simpl. lia.
  - destruct rounds as [|rounds]; [lia|]. unfold Grep.grep. cbn [Grep.grep_loop]. unfold read. urun.
    rewrite Z.add_0_r. change (handle (Sys.Read fd (Grep.BUF - 0)) w) with (next_read w).
    unfold next_read. rewrite Hrd. cbn [fst snd]. urun. rewrite decide_False by (fold bs; lia). fold bs m1 w1.
    urun. rewrite Hrun.
    set (p := buf + _). set (w2 := written _ _ _). assert (io_reads w2 = []) as Hrd2 by done.
    exists out.
    assert (∀ m' c, runs (Grep.grep_loop buf fuel rounds pattern fd c) m' w2 = Returned (tt, array_at (buf + c) [] m') w2) as Hend.
    { intros m' c. destruct rounds; cbn [Grep.grep_loop]; unfold read; urun;
        (change (handle (Sys.Read fd (Grep.BUF - c)) w2) with (next_read w2)); unfold next_read; rewrite Hrd2;
        cbn [fst snd]; urun; rewrite decide_True by done; by urun. }
    destruct (decide (p = buf)); [rewrite decide_False by lia|rewrite decide_True by lia]; urun; rewrite Hend; eauto.
Qed.

(** A memory with a pattern at 100 and the buffer from 1000 on. *)
Definition grep_mem (r : string) : mem := array_at 100 (chars r ++ [0]) (λ _, 0).

Definition grep_run (r : string) (reads : list (list Z)) : result stdio (unit * mem) :=
  runs (Grep.grep 1000 1100 (length reads) 100 0) (grep_mem r) (Stdio (Some <$> reads) [] [] []).

Lemma grep_spec_witness :
  let ls := [chars "abc"; chars "cab"; chars "b"] in
  stdout (grep_run "b$" [unlines ls ++ chars "rest b"]) = unlines [chars "cab"; chars "b"] ∧
  ∃ out, selected (matched (chars "b$")) ls out ∧
    stdout (grep_run "b$" [unlines ls ++ chars "rest b"]) = unlines out.
Proof.
  intros ls. split; [by vm_compute|].
  destruct (grep_spec 1000 1100 1 100 (chars "b$") 0 (grep_mem "b$")
    (Stdio [Some (unlines ls ++ chars "rest b")] [] [] []) ls (chars "rest b")) as (out & m' & Hsel & Hrun);
    [lia|apply Nat.leb_le; by vm_compute|apply Nat.leb_le; by vm_compute|lia|by vm_compute|left; apply Z.ltb_lt; by vm_compute| |
     done|apply Nat.ltb_lt; by vm_compute|apply Z.ltb_lt; by vm_compute|..].
  { intros a Ha. unfold grep_mem, array_at. rewrite decide_False; [done|].
    change (length (chars "b$" ++ [0])) with 3%nat. unfold Grep.BUF in Ha. lia. }
  1-3: by apply (bool_decide_unpack _); vm_compute.
  exists out. split; [exact Hsel|]. unfold grep_run. cbn [length fmap list_fmap]. rewrite Hrun. apply stdout_written.
Defined.

(** A file that takes two reads: the buffer is not ended after the bytes of the
    second read, and what the first one left behind them is taken for text.  Of the
    lines xxxb and c, the pattern b matches only the first; grep prints a second
    line, the end of the first. *)
Theorem grep_prints_stale_line :
  ¬ matched (chars "b") (chars "c") ∧
  stdout (grep_run "b" [unlines [chars "xxxb"]; unlines [chars "c"]]) = unlines [chars "xxxb"; chars "xb"].
Proof.
  split; [|by vm_compute].
  destruct (match_answers (two_strings "b" "c") 1 1 100 (chars "b") 200 (chars "c")) as (b & Hb & Hm);
    [by vm_compute..|done|done|]. vm_compute in Hb. intros H%Hm. congruence.
Qed.
