(* ===== verification/Progs.v ===== *)
(** * The small user programs (cat.c, wc.c, echo.c, ln.c, rm.c, mkdir.c, kill.c,
      zombie.c, init.c, ls.c)

    One module per program, each with the program's routines over the tree of
    system calls of [User].  [argv] holds the addresses of the arguments in the
    program's memory.  [cat] is shown to copy its input and [wc] to count the
    lines, words and characters of it, however the input is cut into reads. *)

From stdpp Require Import base list gmap strings.
From Stdlib Require Import ZArith Lia.
From S2P Require Import Prelude CString Cprintf User.

(** [for(i = 1; i < argc; i++) if(f(argv[i]) < 0) { printf(2, msg, argv[i]); break; }] *)
Fixpoint until_failure (f : list Z → Sys.call Z) (msg : list Z) (args : list Z) : U mem unit :=
  match args with
  | [] => mret tt
  | a :: args' =>
      m ← look id;
      r ← sys (f (str_at m a));
      if decide (r < 0) then mprintf 2 msg [a] else until_failure f msg args'
  end.

(** [for(i = 1; i < argc; i++)]: open each file, work on it, close it. *)
Fixpoint each_file (work : Z → Z → U mem unit) (msg : list Z) (args : list Z) : U mem unit :=
  match args with
  | [] => mret tt
  | a :: args' =>
      m ← look id;
      fd ← sys (Sys.Open (str_at m a) 0);
      if decide (fd < 0) then mprintf 1 msg [a] ;; exit
      else work fd a ;; sys (Sys.Close fd) ;; each_file work msg args'
  end.

Module Cat.
Section cat.
Context (buf : Z).

Fixpoint cat (rounds : nat) (fd : Z) : U mem unit :=
  n ← read fd buf 512;
  if decide (0 < n) then
    write 1 buf n ;;
    match rounds with O => hang | S rounds' => cat rounds' fd end
  else if decide (n < 0) then mprintf 1 (line "cat: read error") [] ;; exit
  else mret tt.

Definition main (rounds : nat) (argv : list Z) : U mem unit :=
  if decide (length argv <= 1)%nat then cat rounds 0 ;; exit
  else each_file (λ fd _, cat rounds fd) (line "cat: cannot open %s") (tail argv) ;; exit.
End cat.
End Cat.

Module Wc.

(** [strchr(" \r\t\n\v", c)] *)
Definition spaces : list Z := [32; 13; 9; 10; 11].

(** The counters [l], [w], [c] and [inword], and the body of the inner loop. *)
Record counts := Counts { wc_l : Z; wc_w : Z; wc_c : Z; wc_in : bool }.

Definition count (b : Z) (s : counts) : counts :=
  let c := s32 (wc_c s + 1) in
  let l := if decide (b = ch_newline) then s32 (wc_l s + 1) else wc_l s in
  if decide (b ∈ spaces) then Counts l (wc_w s) c false
  else if negb (wc_in s) then Counts l (s32 (wc_w s + 1)) c true
  else Counts l (wc_w s) c (wc_in s).

Section wc.
Context (buf : Z).

Fixpoint wc_loop (rounds : nat) (fd name : Z) (s : counts) : U mem unit :=
  n ← read fd buf 512;
  if decide (0 < n) then
    bs ← look (read_array buf (Z.to_nat n));
    let s := foldl (λ s b, count b s) s bs in
    match rounds with O => hang | S rounds' => wc_loop rounds' fd name s end
  else if decide (n < 0) then mprintf 1 (line "wc: read error") [] ;; exit
  else mprintf 1 (line "%d %d %d %s") [wc_l s; wc_w s; wc_c s; name].

Definition wc (rounds : nat) (fd name : Z) : U mem unit := wc_loop rounds fd name (Counts 0 0 0 false).

(** [empty] is the address of the constant "". *)
Definition main (empty : Z) (rounds : nat) (argv : list Z) : U mem unit :=
  if decide (length argv <= 1)%nat then wc rounds 0 empty ;; exit
  else each_file (wc rounds) (line "wc: cannot open %s") (tail argv) ;; exit.
End wc.
End Wc.

Module Echo.
(** [sp] and [newline] are the addresses of the constants " " and "\n". *)
Fixpoint echo (sp newline : Z) (args : list Z) : U mem unit :=
  match args with
  | [] => exit
  | a :: args' => mprintf 1 (chars "%s%s") [a; if decide (args' = []) then newline else sp] ;; echo sp newline args'
  end.

Definition main (sp newline : Z) (argv : list Z) : U mem unit := echo sp newline (tail argv).
End Echo.

Module Ln.
Definition main (argv : list Z) : U mem unit :=
  match argv with
  | [_; old; new] =>
      m ← look id;
      r ← sys (Sys.Link (str_at m old) (str_at m new));
      (if decide (r < 0) then mprintf 2 (line "link %s %s: failed") [old; new] else mret tt) ;;
      exit
  | _ => mprintf 2 (line "Usage: ln old new") [] ;; exit
  end.
End Ln.

Module Rm.
Definition main (argv : list Z) : U mem unit :=
  if decide (length argv < 2)%nat then mprintf 2 (line "Usage: rm files...") [] ;; exit
  else until_failure Sys.Unlink (line "rm: %s failed to delete") (tail argv) ;; exit.
End Rm.

Module Mkdir.
Definition main (argv : list Z) : U mem unit :=
  if decide (length argv < 2)%nat then mprintf 2 (line "Usage: mkdir files...") [] ;; exit
  else until_failure Sys.Mkdir (line "mkdir: %s failed to create") (tail argv) ;; exit.
End Mkdir.

Module Kill.
Definition main (argv : list Z) : U mem unit :=
  if decide (length argv < 1)%nat then mprintf 2 (line "usage: kill pid...") [] ;; exit
  else
    each (λ a,
      m ← look id;
      match Ulib.atoi (Z.to_nat 4096) a m with
      | None => hang
      | Some pid => sys (Sys.Kill pid) ;; mret tt
      end) (tail argv) ;;
    exit.
End Kill.

Module Zombie.
Definition main : U mem unit :=
  pid ← sys Sys.Fork;
  (if decide (0 < pid) then sys (Sys.Sleep 5) ;; mret tt else mret tt) ;;
  exit.
End Zombie.

Module Init.
(** [while((wpid=wait()) >= 0 && wpid != pid) printf(1, "zombie!\n");] *)
Fixpoint reap (zombies : nat) (pid : Z) : U mem unit :=
  wpid ← sys Sys.Wait;
  if decide (0 <= wpid ∧ wpid ≠ pid) then
    mprintf 1 (line "zombie!") [] ;;
    match zombies with O => hang | S zombies' => reap zombies' pid end
  else mret tt.

(** [for(;;)]: [rounds] shells are started. *)
Fixpoint serve (rounds zombies : nat) : U mem unit :=
  mprintf 1 (line "init: starting sh") [] ;;
  pid ← sys Sys.Fork;
  if decide (pid < 0) then mprintf 1 (line "init: fork failed") [] ;; exit
  else if decide (pid = 0) then
    sys (Sys.ExecCall (chars "sh") [chars "sh"]) ;;
    mprintf 1 (line "init: exec sh failed") [] ;;
    exit
  else
    reap zombies pid ;;
    match rounds with O => hang | S rounds' => serve rounds' zombies end.

Definition main (rounds zombies : nat) : U mem unit :=
  r ← sys (Sys.Open (chars "console") O_RDWR);
  (if decide (r < 0) then
     sys (Sys.Mknod (chars "console") 1 1) ;;
     sys (Sys.Open (chars "console") O_RDWR) ;; mret tt
   else mret tt) ;;
  sys (Sys.Dup 0) ;;
  sys (Sys.Dup 0) ;;
  serve rounds zombies.
End Init.

Module Ls.
Section ls.
(** [fbuf] is the static buffer of [fmtname], [buf] the path buffer of [ls] and
    [de] its directory entry; [dot] is the address of the constant ".". *)
Context (fbuf buf de dot : Z).

Definition DIRSIZ : Z := 14.
Definition T_DIR : Z := 1.
Definition T_FILE : Z := 2.

Definition len (a : Z) : U mem Z :=
  m ← look id; match strlen (Z.to_nat 4096) a m with Some n => mret n | None => hang end.

(** [for(p=path+strlen(path); p >= path && *p != '/'; p--);] *)
Fixpoint last_slash (n : nat) (path p : Z) (m : mem) : Z :=
  match n with
  | O => p
  | S n' => if decide (path <= p ∧ m p ≠ 47) then last_slash n' path (p - 1) m else p
  end.

Definition fmtname (path : Z) : U mem Z :=
  n ← len path;
  m ← look id;
  let p := last_slash (S (S (Z.to_nat n))) path (path + n) m + 1 in
  k ← len p;
  if decide (DIRSIZ <= k) then mret p else
  change (Ulib.memmove fbuf p k) ;;
  change (Ulib.memset (fbuf + k) 32 (DIRSIZ - k)) ;;
  mret fbuf.

Definition print_entry (path : Z) (st : stat_t) : U mem unit :=
  name ← fmtname path;
  mprintf 1 (line "%s %d %d %d") [name; st_type st; st_ino st; st_size st].

(** [while(read(fd, &de, sizeof(de)) == sizeof(de))] *)
Fixpoint ls_entries (rounds : nat) (fd p : Z) : U mem unit :=
  n ← read fd de 16;
  if decide (n = 16) then
    m ← look id;
    (if decide (m de + 256 * m (de + 1) = 0) then mret tt else
     change (Ulib.memmove p (de + 2) DIRSIZ) ;;
     change (<[p + DIRSIZ := 0]>) ;;
     m ← look id;
     r ← stat (str_at m buf);
     match r with
     | None => mprintf 1 (line "ls: cannot stat %s") [buf]
     | Some st => print_entry buf st
     end) ;;
    match rounds with O => hang | S rounds' => ls_entries rounds' fd p end
  else mret tt.

Definition ls (rounds : nat) (path : Z) : U mem unit :=
  m ← look id;
  fd ← sys (Sys.Open (str_at m path) 0);
  if decide (fd < 0) then mprintf 2 (line "ls: cannot open %s") [path] else
  r ← sys (Sys.Fstat fd);
  match r with
  | None => mprintf 2 (line "ls: cannot stat %s") [path] ;; sys (Sys.Close fd) ;; mret tt
  | Some st =>
      (if decide (st_type st = T_FILE) then print_entry path st
       else if decide (st_type st = T_DIR) then
         n ← len path;
         if decide (512 < n + 1 + DIRSIZ + 1) then mprintf 1 (line "ls: path too long") []
         else
           m ← look id;
           match Ulib.strcpy (Z.to_nat 4096) buf path m with
           | None => hang
           | Some m' =>
               change (λ _, m') ;;
               k ← len buf;
               change (<[buf + k := 47]>) ;;
               ls_entries rounds fd (buf + k + 1)
           end
       else mret tt) ;;
      sys (Sys.Close fd) ;; mret tt
  end.

Definition main (rounds : nat) (argv : list Z) : U mem unit :=
  if decide (length argv < 2)%nat then ls rounds dot ;; exit
  else each (ls rounds) (tail argv) ;; exit.
End ls.
End Ls.

(** ** What they compute *)

(** The counters of [wc] on a text: its newlines, its words (characters that are no
    space and follow a space or the start), its length. *)
Definition word_starts (inword : bool) (l : list Z) : list bool :=
  zip_with (λ b prev, bool_decide (b ∉ Wc.spaces) && negb prev) l
    (inword :: ((λ b, bool_decide (b ∉ Wc.spaces)) <$> l)).

Definition words (inword : bool) (l : list Z) : nat := length (filter (λ b, b = true) (word_starts inword l)).
Definition newlines (l : list Z) : nat := length (filter (λ b, b = ch_newline) l).

Definition ends_in_word (inword : bool) (l : list Z) : bool :=
  match last l with Some b => bool_decide (b ∉ Wc.spaces) | None => inword end.

Lemma words_cons i b l :
  words i (b :: l) = ((if bool_decide (b ∉ Wc.spaces) && negb i then 1 else 0) + words (bool_decide (b ∉ Wc.spaces)) l)%nat.
Proof.
  unfold words, word_starts. cbn [fmap list_fmap zip_with]. rewrite filter_cons. by destruct (_ && _).
Qed.

Lemma ends_cons i b l : ends_in_word i (b :: l) = ends_in_word (bool_decide (b ∉ Wc.spaces)) l.
Proof. unfold ends_in_word. destruct l as [|c l]; [done|]. change (last (b :: c :: l)) with (last (c :: l)). by destruct (last (c :: l)) eqn:E; [|destruct l; discriminate E || by apply last_None in E]. Qed.


Definition wc_of (s : Wc.counts) (l : list Z) : Wc.counts :=
  Wc.Counts (Wc.wc_l s + Z.of_nat (newlines l)) (Wc.wc_w s + Z.of_nat (words (Wc.wc_in s) l))
    (Wc.wc_c s + Z.of_nat (length l)) (ends_in_word (Wc.wc_in s) l).

Definition wc_sane (s : Wc.counts) : Prop := 0 <= Wc.wc_l s <= Wc.wc_c s ∧ 0 <= Wc.wc_w s <= Wc.wc_c s.

Lemma wc_of_cons s b l :
  wc_sane s → Wc.wc_c s + 1 < 2 ^ 31 → wc_of s (b :: l) = wc_of (Wc.count b s) l ∧ wc_sane (Wc.count b s).
Proof.
  intros [Hl Hw] Hc. unfold wc_of, Wc.count. rewrite !s32_id by lia.
  unfold newlines. rewrite words_cons, ends_cons, filter_cons.
  destruct (decide (b ∈ Wc.spaces)) as [Hs|Hs]; [rewrite (bool_decide_eq_false_2 (b ∉ _)) by naive_solver|
    rewrite (bool_decide_eq_true_2 (b ∉ _)) by done]; destruct (Wc.wc_in s) eqn:Hin; case_decide; cbn; rewrite ?Hin;
    (split; [f_equal; lia|split; cbn; lia]).
Qed.

Lemma wc_count_spec l : ∀ s,
  wc_sane s → Wc.wc_c s + Z.of_nat (length l) < 2 ^ 31 →
  foldl (λ s b, Wc.count b s) s l = wc_of s l ∧ wc_sane (wc_of s l).
Proof.
  induction l as [|b l IH]; intros s Hs Hc.
  - cbn. unfold wc_of, words, newlines, ends_in_word. cbn. rewrite !Z.add_0_r. by destruct s.
  - cbn [length] in Hc. destruct (wc_of_cons s b l Hs) as [-> H]; [lia|]. cbn [foldl]. apply IH; [done|].
    assert (Wc.wc_c (Wc.count b s) = Wc.wc_c s + 1) as ->; [|lia].
    unfold Wc.count. rewrite !s32_id by (destruct Hs; lia). by repeat case_match.
Qed.

(** [cat] copies: however its input is cut into reads, it writes exactly the
    bytes it read, in order, and returns at the end of the file. *)
Theorem cat_copies buf rounds fd m rs os wr cs :
  Forall (λ l, l ≠ []) rs → (length rs <= rounds)%nat →
  ∃ m', runs (Cat.cat buf rounds fd) m (Stdio (Some <$> rs) os wr cs) =
    Returned (tt, m') (written 1 (mjoin rs) (Stdio [] os wr cs)).
Proof.
  intros Hrs. revert rounds m wr. induction Hrs as [|l rs Hl Hrs IH]; intros rounds m wr Hn.
  - exists (array_at buf [] m). rewrite written_nil.
    destruct rounds; cbn [Cat.cat]; urun; rewrite runs_read_end, decide_False, decide_False by lia; by urun.
  - destruct rounds as [|rounds]; [simpl in Hn; lia|]. rewrite fmap_cons. cbn [Cat.cat]. urun.
    rewrite runs_read, decide_True by (destruct l; [done|simpl; lia]). urun.
    rewrite runs_write, Nat2Z.id, read_array_at.
    destruct (IH rounds (array_at buf l m) (io_written (written 1 l (Stdio (Some <$> rs) os wr cs)))) as [m' Hm'];
      [simpl in Hn; lia|]. exists m'. unfold written in *. cbn in Hm' |- *. rewrite Hm'. by rewrite fmap_app, app_assoc.
Qed.

Lemma cat_copies_witness :
  stdout (runs (Cat.cat 1000 2 0) (λ _, 0) (Stdio (Some <$> [chars "ab"; chars "c"]) [] [] [])) = chars "abc" ∧
  ∃ m', runs (Cat.cat 1000 2 0) (λ _, 0) (Stdio (Some <$> [chars "ab"; chars "c"]) [] [] []) =
    Returned (tt, m') (written 1 (chars "abc") (Stdio [] [] [] [])).
Proof.
  split; [by vm_compute|]. apply (cat_copies 1000 2 0 (λ _, 0) [chars "ab"; chars "c"] [] [] []); [|done].
  by repeat constructor.
Defined.

(** The text of the counts. *)
Definition wc_line (s : Wc.counts) (name : list Z) : list Z :=
  int_text upper_digits (Wc.wc_l s) 10 true ++ chars " " ++ int_text upper_digits (Wc.wc_w s) 10 true ++ chars " " ++
  int_text upper_digits (Wc.wc_c s) 10 true ++ chars " " ++ name ++ [ch_newline].

(** The name is outside of the buffer of [wc]. *)
Definition name_off (buf name : Z) (l : list Z) (m : mem) : Prop :=
  cstr m name l ∧ (length l < Z.to_nat 4096)%nat ∧ name ≠ 0 ∧ (name + Z.of_nat (length l) < buf ∨ buf + 512 <= name).

Lemma str_at_cstr m a l : cstr m a l → (length l < Z.to_nat 4096)%nat → str_at m a = l.
Proof.
  unfold str_at. generalize (Z.to_nat 4096). intros n. revert a l. induction n as [|n IH]; intros a l Hc Hl; [lia|].
  cbn [str_from]. destruct l as [|c l]; cbn [cstr] in Hc; [by rewrite decide_True|]. destruct Hc as (-> & H0 & Hc).
  rewrite decide_False by done. f_equal. apply IH; [done|simpl in Hl; lia].
Qed.


Lemma wc_of_nil s : wc_of s [] = s.
Proof. destruct s. unfold wc_of, words, newlines, ends_in_word. cbn. by rewrite !Z.add_0_r. Qed.

Lemma wc_of_app s l1 l2 :
  wc_sane s → Wc.wc_c s + Z.of_nat (length (l1 ++ l2)) < 2 ^ 31 →
  wc_of s (l1 ++ l2) = wc_of (wc_of s l1) l2 ∧ wc_sane (wc_of s l1).
Proof.
  intros Hs Hc. rewrite length_app in Hc. destruct (wc_count_spec l1 s Hs) as [H1 H2]; [lia|].
  split; [|done]. destruct (wc_count_spec (l1 ++ l2) s Hs) as [<- _]; [rewrite length_app; lia|].
  rewrite foldl_app, H1. apply wc_count_spec; [done|]. cbn. lia.
Qed.

Lemma name_off_array buf name l m c :
  name_off buf name l m → (length c <= 512)%nat → name_off buf name l (array_at buf c m).
Proof.
  intros (Hn & Hl & H0 & Hd) Hc. split; [|done]. eapply cstr_ext; [|done].
  intros a Ha. unfold array_at. rewrite decide_False; [done|]. lia.
Qed.

(** The directives of [printf], one at a time. *)
Section directives.
Context (str : Z → list Z) (num : Z → Z → bool → list Z).

Lemma printf_char c fmt args :
  c ≠ ch_percent → Printf.printf_loop str num false (c :: fmt) args = (c ::.) <$> Printf.printf_loop str num false fmt args.
Proof. intros Hc. cbn [Printf.printf_loop negb]. by rewrite decide_False. Qed.

Lemma printf_d fmt a args :
  Printf.printf_loop str num false (ch_percent :: 100 :: fmt) (a :: args) =
  (num (s32 a) 10 true ++.) <$> Printf.printf_loop str num false fmt args.
Proof. done. Qed.

Lemma printf_s fmt a args :
  a ≠ 0 → Printf.printf_loop str num false (ch_percent :: 115 :: fmt) (a :: args) =
  (str a ++.) <$> Printf.printf_loop str num false fmt args.
Proof.
  intros Ha. change (Printf.printf_loop str num false (ch_percent :: 115 :: fmt) (a :: args)) with
    (((if decide (a = 0) then chars "(null)" else str a) ++.) <$> Printf.printf_loop str num false fmt args).
  by rewrite decide_False.
Qed.
End directives.

Lemma wc_prints s name l m :
  wc_sane s → Wc.wc_c s < 2 ^ 31 → cstr m name l → (length l < Z.to_nat 4096)%nat → name ≠ 0 →
  Printf.printf (str_at m) (line "%d %d %d %s") [Wc.wc_l s; Wc.wc_w s; Wc.wc_c s; name] = Some (wc_line s l).
Proof.
  intros [H1 H2] Hc Hl Hn H0. unfold Printf.printf.
  replace (line "%d %d %d %s") with
    [ch_percent; 100; 32; ch_percent; 100; 32; ch_percent; 100; 32; ch_percent; 115; ch_newline] by done.
  repeat first [rewrite printf_d | rewrite printf_char by (by vm_compute) | rewrite printf_s by done].
  cbn [Printf.printf_loop fmap option_fmap option_map]. unfold wc_line. rewrite (str_at_cstr m name l), !s32_id by (done || lia). done.
Qed.

Lemma wc_loop_spec buf fd name l rs : ∀ rounds m wr os cs s,
  Forall (λ c, c ≠ [] ∧ (length c <= 512)%nat) rs → (length rs <= rounds)%nat →
  name_off buf name l m → wc_sane s → Wc.wc_c s + Z.of_nat (length (mjoin rs)) < 2 ^ 31 →
  ∃ m', runs (Wc.wc_loop buf rounds fd name s) m (Stdio (Some <$> rs) os wr cs) =
    Returned (tt, m') (written 1 (wc_line (wc_of s (mjoin rs)) l) (Stdio [] os wr cs)).
Proof.
  induction rs as [|c rs IH]; intros rounds m wr os cs s Hrs Hn Hname Hs Hc.
  - exists (array_at buf [] m). change (mjoin []) with (@nil Z) in *. rewrite wc_of_nil. cbn [length] in Hc.
    apply (name_off_array _ _ _ _ []) in Hname as (Hn' & Hl & H0 & _); [|simpl; lia].
    destruct rounds; cbn [Wc.wc_loop]; urun; rewrite runs_read_end, decide_False, decide_False by lia;
      apply runs_mprintf, wc_prints; (done || lia).
  - change (mjoin (c :: rs)) with (c ++ mjoin rs) in *. inversion_clear Hrs as [|? ? [Hne Hlc] Hrs'].
    destruct (wc_of_app s c (mjoin rs) Hs Hc) as [-> Hs']. rewrite length_app in Hc.
    destruct rounds as [|rounds]; [simpl in Hn; lia|]. rewrite fmap_cons. cbn [Wc.wc_loop]. urun.
    rewrite runs_read, decide_True by (destruct c; [done|simpl; lia]). urun. rewrite Nat2Z.id, read_array_at.
    destruct (wc_count_spec c s Hs) as [-> _]; [lia|].
    apply IH; [done|simpl in Hn; lia|by apply name_off_array|done|cbn; lia].
Qed.

(** [wc] counts: however its input is cut into reads, it prints the number of
    newlines, of words and of characters of the whole input and the name it was
    given, as long as the counts fit into an integer. *)
Theorem wc_counts buf rounds fd name l m rs os wr cs :
  Forall (λ c, c ≠ [] ∧ (length c <= 512)%nat) rs → (length rs <= rounds)%nat →
  name_off buf name l m → Z.of_nat (length (mjoin rs)) < 2 ^ 31 →
  ∃ m', runs (Wc.wc buf rounds fd name) m (Stdio (Some <$> rs) os wr cs) =
    Returned (tt, m') (written 1 (wc_line (wc_of (Wc.Counts 0 0 0 false) (mjoin rs)) l) (Stdio [] os wr cs)).
Proof. intros. by apply wc_loop_spec. Qed.

Lemma wc_counts_witness :
  let m := array_at 100 (chars "file" ++ [0]) (λ _, 0) in
  let rs := [chars "one tw"; chars "o" ++ [ch_newline]; chars "three"] in
  stdout (runs (Wc.wc 1000 3 0 100) m (Stdio (Some <$> rs) [] [] [])) = line "1 3 13 file" ∧
  ∃ m', runs (Wc.wc 1000 3 0 100) m (Stdio (Some <$> rs) [] [] []) =
    Returned (tt, m') (written 1 (line "1 3 13 file") (Stdio [] [] [] [])).
Proof.
  intros m rs. split; [by vm_compute|].
  replace (line "1 3 13 file") with (wc_line (wc_of (Wc.Counts 0 0 0 false) (mjoin rs)) (chars "file")) by by vm_compute.
  apply (wc_counts 1000 3 0 100 (chars "file") m rs [] [] []).
  - repeat constructor; (done || by apply Nat.leb_le; vm_compute).
  - done.
  - split; [by vm_compute|]. split; [apply Nat.ltb_lt; by vm_compute|]. split; [done|left; apply Z.ltb_lt; by vm_compute].
  - apply Z.ltb_lt. by vm_compute.
Defined.
