(* ===== verification/Sh.v ===== *)
(** * The shell (sh.c)

    The commands a parse allocates are nodes of a heap, referred to by pointers (0 is
    the null pointer), because [parseexec] goes on filling a command that
    redirections already point to; [malloc] is taken to succeed, which the code does
    not test either.  The text of the command stays in the memory, and a word of it is
    the pair of addresses of its first character and of the one after its last.  The
    parser's mutual recursion is open: [parseblock] and [parseexec] take [parseline]
    as an argument.  The length of the line bounds every loop and recursion. *)

From stdpp Require Import base list gmap strings.
From Stdlib Require Import ZArith Lia.
From S2P Require Import Prelude KState CString Cprintf User.

Definition MAXARGS : nat := 10.

(** The structs execcmd, redircmd, pipecmd, listcmd and backcmd. *)
Inductive node : Type :=
  | EXEC (argv eargv : list Z)
  | REDIR (cmd : nat) (file efile mode fd : Z)
  | PIPE (left right : nat)
  | LIST (left right : nat)
  | BACK (cmd : nat).

Record shell := Shell { sh_mem : mem; sh_heap : list node }.

(** The node a pointer refers to. *)
Definition node_at (h : list node) (p : nat) : option node :=
  match p with O => None | S i => h !! i end.

Module Sh.

(** A routine of the library, on the shell's memory. *)
Definition lift {A : Type} (m : U mem A) : U shell A := λ s,
  prog_bind (m (sh_mem s)) (λ p, Done (p.1, Shell p.2 (sh_heap s))).

(** [printf] with a string as its only argument. *)
Definition printf_str (fd : Z) (fmt arg : list Z) : U shell unit := printf (λ _, arg) fd fmt [1].

Definition panic {A : Type} (s : string) : U shell A := printf_str 2 (line "%s") (chars s) ;; exit.

Definition fork1 : U shell Z :=
  pid ← sys Sys.Fork;
  if decide (pid = -1) then panic "fork" else mret pid.

(** ** Constructors *)

Definition alloc (c : node) : U shell nat := λ s,
  Done (S (length (sh_heap s)), Shell (sh_mem s) (sh_heap s ++ [c])).

Definition execcmd : U shell nat := alloc (EXEC (replicate MAXARGS 0) (replicate MAXARGS 0)).
Definition redircmd (subcmd : nat) (file efile mode fd : Z) : U shell nat := alloc (REDIR subcmd file efile mode fd).
Definition pipecmd (left right : nat) : U shell nat := alloc (PIPE left right).
Definition listcmd (left right : nat) : U shell nat := alloc (LIST left right).
Definition backcmd (subcmd : nat) : U shell nat := alloc (BACK subcmd).

(** [cmd->argv[argc] = q; cmd->eargv[argc] = eq;] *)
Definition set_arg (cmd argc : nat) (q eq : Z) : U shell unit :=
  change (λ s, Shell (sh_mem s) (alter (λ c,
    match c with
    | EXEC argv eargv => EXEC (<[argc := q]> argv) (<[argc := eq]> eargv)
    | c => c
    end) (pred cmd) (sh_heap s))).

(** ** Tokens *)

Definition whitespace : list Z := [32; 9; 13; 10; 11].
Definition symbols : list Z := chars "<|>&;()".

(** [strchr(toks, c) != 0] *)
Definition one_of (toks : list Z) (c : Z) : bool := bool_decide (c ∈ toks).

(** [while(s < es && f( *s)) s++;], with at most [n] rounds. *)
Fixpoint scan (n : nat) (f : Z → bool) (m : mem) (s es : Z) : Z :=
  match n with
  | O => s
  | S n' => if bool_decide (s < es) && f (m s) then scan n' f m (s + 1) es else s
  end.

Definition span (f : Z → bool) (m : mem) (s es : Z) : Z := scan (Z.to_nat (es - s)) f m s es.

Definition skip (m : mem) (s es : Z) : Z := span (one_of whitespace) m s es.

Record token := Token { t_ret : Z; t_q : Z; t_eq : Z; t_s : Z }.

Definition gettoken (m : mem) (s es : Z) : token :=
  let q := skip m s es in
  let c := m q in
  let '(ret, eq) :=
    if decide (c = 0) then (c, q)
    else if decide (c ∈ chars "|();&<") then (c, q + 1)
    else if decide (c = 62) then
      if decide (m (q + 1) = 62) then (43, q + 2) else (c, q + 1)
    else (97, span (λ c, negb (one_of whitespace c) && negb (one_of symbols c)) m q es) in
  Token ret q eq (skip m eq es).

(** The new position and whether one of [toks] is next. *)
Definition peek (m : mem) (s es : Z) (toks : list Z) : Z * bool :=
  let s := skip m s es in (s, negb (bool_decide (m s = 0)) && one_of toks (m s)).

(** ** Parsing

    A routine that takes [char **ps] gets the position and returns the new one. *)

Definition tok (s es : Z) : U shell token := look (λ st, gettoken (sh_mem st) s es).
Definition next_is (s es : Z) (toks : string) : U shell (Z * bool) := look (λ st, peek (sh_mem st) s es (chars toks)).

Fixpoint parseredirs (n : nat) (cmd : nat) (s es : Z) : U shell (nat * Z) :=
  p ← next_is s es "<>"; let '(s, more) := p : Z * bool in
  if more then
    t ← tok s es;
    w ← tok (t_s t) es;
    if decide (t_ret w ≠ 97) then panic "missing file for redirection" else
    cmd ← (if decide (t_ret t = 60) then redircmd cmd (t_q w) (t_eq w) O_RDONLY 0
           else if decide (t_ret t = 62) then redircmd cmd (t_q w) (t_eq w) (Z.lor O_WRONLY O_CREATE) 1
           else if decide (t_ret t = 43) then redircmd cmd (t_q w) (t_eq w) (Z.lor O_WRONLY O_CREATE) 1
           else mret cmd);
    match n with O => hang | S n' => parseredirs n' cmd (t_s w) es end
  else mret (cmd, s).

Section parse.
(** [n] bounds the loops; [line] is [parseline]. *)
Context (n : nat) (parseline : Z → Z → U shell (nat * Z)).

Definition parseblock (s es : Z) : U shell (nat * Z) :=
  p ← next_is s es "("; let '(s, open) := p : Z * bool in
  if negb open then panic "parseblock" else
  t ← tok s es;
  p ← parseline (t_s t) es; let '(cmd, s) := p : nat * Z in
  p ← next_is s es ")"; let '(s, closed) := p : Z * bool in
  if negb closed then panic "syntax - missing )" else
  t ← tok s es;
  parseredirs n cmd (t_s t) es.

(** [while(!peek(ps, es, "|)&;"))]; the result is the command, the number of
    arguments and the position. *)
Fixpoint parseargs (k : nat) (cmd ret argc : nat) (s es : Z) : U shell (nat * nat * Z) :=
  p ← next_is s es "|)&;"; let '(s, stop) := p : Z * bool in
  if stop then mret (ret, argc, s) else
  t ← tok s es;
  if decide (t_ret t = 0) then mret (ret, argc, t_s t) else
  if decide (t_ret t ≠ 97) then panic "syntax" else
  set_arg cmd argc (t_q t) (t_eq t) ;;
  let argc := S argc in
  if decide (MAXARGS <= argc)%nat then panic "too many args" else
  p ← parseredirs n ret (t_s t) es; let '(ret, s) := p : nat * Z in
  match k with O => hang | S k' => parseargs k' cmd ret argc s es end.

Definition parseexec (s es : Z) : U shell (nat * Z) :=
  p ← next_is s es "("; let '(s, block) := p : Z * bool in
  if block then parseblock s es else
  cmd ← execcmd;
  p ← parseredirs n cmd s es; let '(ret, s) := p : nat * Z in
  p ← parseargs n cmd ret 0 s es; let '(ret, argc, s) := p : nat * nat * Z in
  set_arg cmd argc 0 0 ;;
  mret (ret, s).

Fixpoint parsepipe (k : nat) (s es : Z) : U shell (nat * Z) :=
  p ← parseexec s es; let '(cmd, s) := p : nat * Z in
  p ← next_is s es "|"; let '(s, bar) := p : Z * bool in
  if bar then
    t ← tok s es;
    match k with
    | O => hang
    | S k' => p ← parsepipe k' (t_s t) es; let '(r, s) := p : nat * Z in cmd ← pipecmd cmd r; mret (cmd, s)
    end
  else mret (cmd, s).

(** [while(peek(ps, es, "&"))] *)
Fixpoint parseback (k : nat) (cmd : nat) (s es : Z) : U shell (nat * Z) :=
  p ← next_is s es "&"; let '(s, amp) := p : Z * bool in
  if amp then
    t ← tok s es;
    cmd ← backcmd cmd;
    match k with O => hang | S k' => parseback k' cmd (t_s t) es end
  else mret (cmd, s).
End parse.

Fixpoint parseline (n : nat) (k : nat) (s es : Z) : U shell (nat * Z) :=
  match k with
  | O => hang
  | S k' =>
      p ← parsepipe n (parseline n k') n s es; let '(cmd, s) := p : nat * Z in
      p ← parseback n cmd s es; let '(cmd, s) := p : nat * Z in
      p ← next_is s es ";"; let '(s, semi) := p : Z * bool in
      if semi then
        t ← tok s es;
        p ← parseline n k' (t_s t) es; let '(r, s) := p : nat * Z in
        cmd ← listcmd cmd r;
        mret (cmd, s)
      else mret (cmd, s)
  end.

(** [for(i=0; ecmd->argv[i]; i++) *ecmd->eargv[i] = 0;] *)
Fixpoint cut_words (argv eargv : list Z) (m : mem) : mem :=
  match argv, eargv with
  | a :: argv', e :: eargv' => if decide (a = 0) then m else cut_words argv' eargv' (<[e := 0]> m)
  | _, _ => m
  end.

Fixpoint nulterminate (n : nat) (cmd : nat) : U shell nat :=
  if decide (cmd = 0%nat) then mret 0%nat else
  match n with
  | O => hang
  | S n' =>
      c ← look (λ s, node_at (sh_heap s) cmd);
      match c with
      | Some (EXEC argv eargv) => lift (change (cut_words argv eargv)) ;; mret cmd
      | Some (REDIR c file efile _ _) => nulterminate n' c ;; lift (change (<[efile := 0]>)) ;; mret cmd
      | Some (PIPE l r) | Some (LIST l r) => nulterminate n' l ;; nulterminate n' r ;; mret cmd
      | Some (BACK c) => nulterminate n' c ;; mret cmd
      | None => hang
      end
  end.

(** [strlen] and [nulterminate] get the bounds of the line and of the heap. *)
Definition parsecmd (max : nat) (s : Z) : U shell nat :=
  l ← look (λ st, strlen max s (sh_mem st));
  match l with
  | None => hang
  | Some l =>
      let es := s + l in
      let n := S (Z.to_nat l) in
      p ← parseline n n s es; let '(cmd, s) := p : nat * Z in
      p ← next_is s es EmptyString; let '(s, _) := p : Z * bool in
      if decide (s ≠ es) then
        text ← look (λ st, str_at (sh_mem st) s);
        printf_str 2 (line "leftovers: %s") text ;;
        panic "syntax"
      else
        size ← look (λ st, length (sh_heap st));
        nulterminate size cmd ;;
        mret cmd
  end.

(** ** Running *)

(** The strings of an argument array, up to the null pointer. *)
Fixpoint strings (m : mem) (argv : list Z) : list (list Z) :=
  match argv with
  | [] => []
  | a :: argv' => if decide (a = 0) then [] else str_at m a :: strings m argv'
  end.

Fixpoint runcmd (n : nat) (cmd : nat) : U shell unit :=
  if decide (cmd = 0%nat) then exit else
  match n with
  | O => hang
  | S n' =>
      c ← look (λ s, node_at (sh_heap s) cmd);
      m ← look sh_mem;
      match c with
      | None => hang
      | Some (EXEC argv _) =>
          if decide (argv !!! 0%nat = 0) then exit else
          sys (Sys.ExecCall (str_at m (argv !!! 0%nat)) (strings m argv)) ;;
          printf_str 2 (line "exec %s failed") (str_at m (argv !!! 0%nat)) ;;
          exit
      | Some (REDIR c file _ mode fd) =>
          sys (Sys.Close fd) ;;
          r ← sys (Sys.Open (str_at m file) mode);
          if decide (r < 0) then printf_str 2 (line "open %s failed") (str_at m file) ;; exit else
          runcmd n' c ;;
          exit
      | Some (LIST l r) =>
          pid ← fork1;
          (if decide (pid = 0) then runcmd n' l else mret tt) ;;
          sys Sys.Wait ;;
          runcmd n' r ;;
          exit
      | Some (PIPE l r) =>
          p ← sys Sys.PipeCall;
          match p with
          | None => panic "pipe"
          | Some (p0, p1) =>
              pid ← fork1;
              (if decide (pid = 0) then
                 sys (Sys.Close 1) ;; sys (Sys.Dup p1) ;; sys (Sys.Close p0) ;; sys (Sys.Close p1) ;;
                 runcmd n' l
               else mret tt) ;;
              pid ← fork1;
              (if decide (pid = 0) then
                 sys (Sys.Close 0) ;; sys (Sys.Dup p0) ;; sys (Sys.Close p0) ;; sys (Sys.Close p1) ;;
                 runcmd n' r
               else mret tt) ;;
              sys (Sys.Close p0) ;; sys (Sys.Close p1) ;;
              sys Sys.Wait ;; sys Sys.Wait ;;
              exit
          end
      | Some (BACK c) =>
          pid ← fork1;
          (if decide (pid = 0) then runcmd n' c else mret tt) ;;
          exit
      end
  end.

Definition getcmd (buf nbuf : Z) : U shell Z :=
  printf_str 2 (chars "$ ") [] ;;
  lift (change (Ulib.memset buf 0 nbuf)) ;;
  lift (gets buf nbuf) ;;
  c ← look (λ s, sh_mem s buf);
  mret (if decide (c = 0) then -1 else 0).

(** [while((fd = open("console", O_RDWR)) >= 0)] *)
Fixpoint open_console (n : nat) : U shell unit :=
  fd ← sys (Sys.Open (chars "console") O_RDWR);
  if decide (0 <= fd) then
    if decide (3 <= fd) then sys (Sys.Close fd) ;; mret tt
    else match n with O => hang | S n' => open_console n' end
  else mret tt.

(** The banner of the scheduler the programs were compiled for. *)
Definition banner (flag : schedflag) : U shell unit :=
  match flag with
  | DEFAULT => printf_str 1 (line "RUNNING DEFAULT SCHEDULER") []
  | FRR => printf_str 1 (line "RUNNING FIFO ROUND RUBIN SCHEDULER") []
  | FCFS => printf_str 1 (line "RUNNING FIRST COME FIRST SERVED SCHEDULER") []
  | PRS => mret tt
  end.

Definition NBUF : Z := 100.

(** [runcmd(parsecmd(buf));] *)
Definition run_line (max : nat) (buf : Z) : U shell unit :=
  cmd ← parsecmd max buf;
  size ← look (λ s, length (sh_heap s));
  runcmd size cmd.

(** [while(getcmd(buf, sizeof(buf)) >= 0)]: [rounds] commands. *)
Fixpoint commands (rounds : nat) (buf : Z) : U shell unit :=
  r ← getcmd buf NBUF;
  if decide (r < 0) then exit else
  m ← look sh_mem;
  (if decide (m buf = 99 ∧ m (buf + 1) = 100 ∧ m (buf + 2) = 32) then
     match strlen (Z.to_nat NBUF) buf m with
     | None => hang
     | Some l =>
         lift (change (<[buf + l - 1 := 0]>)) ;;
         dir ← look (λ s, str_at (sh_mem s) (buf + 3));
         r ← sys (Sys.Chdir dir);
         if decide (r < 0) then printf_str 2 (line "cannot cd %s") dir else mret tt
     end
   else
     pid ← fork1;
     (if decide (pid = 0) then
        run_line (Z.to_nat NBUF) buf
      else mret tt) ;;
     sys Sys.Wait ;; mret tt) ;;
  match rounds with O => hang | S rounds' => commands rounds' buf end.

Definition main (flag : schedflag) (rounds : nat) (buf : Z) : U shell unit :=
  open_console 3 ;;
  banner flag ;;
  commands rounds buf.

End Sh.
