(* ===== verification/ShSpec.v ===== *)
(** * What the shell's parser accepts, and how its commands are wired

    The grammar of commands over tokens, a recursive descent parser on lists of tokens
    that is shown to accept exactly this grammar, and the proof that the shell's
    parser, on positions of a buffer and nodes of a heap, computes the same. *)

From stdpp Require Import base list gmap strings.
From Stdlib Require Import ZArith Lia.
From S2P Require Import Prelude KState CString Cprintf User Sh.
Import Sh.

(** ** Commands and their grammar

    [W] is what stands for a word: its text, or where it is in the buffer. *)

Inductive tk (W : Type) : Type := Word (w : W) | Sym (c : Z).
Arguments Word {W} w.
Arguments Sym {W} c.

Inductive cmd (W : Type) : Type :=
  | Exec (args : list W)
  | Redir (c : cmd W) (w : W) (mode fd : Z)
  | Pipe (l r : cmd W)
  | Then (l r : cmd W)
  | Back (c : cmd W).
Arguments Exec {W} args.
Arguments Redir {W} c w mode fd.
Arguments Pipe {W} l r.
Arguments Then {W} l r.
Arguments Back {W} c.

(** A redirection: the word, the mode and the descriptor of its symbol. *)
Definition redir (W : Type) : Type := W * Z * Z.

Definition redir_of {W : Type} (c : Z) (w : W) : redir W :=
  if decide (c = 60) then (w, O_RDONLY, 0) else (w, Z.lor O_WRONLY O_CREATE, 1).

Definition is_redir (c : Z) : bool := bool_decide (c = 60 ∨ c = 62 ∨ c = 43).

Definition wrap {W : Type} (t : cmd W) (rs : list (redir W)) : cmd W :=
  foldl (λ t r, Redir t r.1.1 r.1.2 r.2) t rs.

Fixpoint backs {W : Type} (n : nat) (t : cmd W) : cmd W :=
  match n with O => t | S n' => backs n' (Back t) end.

Section grammar.
Context {W : Type}.
Implicit Types (t : cmd W) (w : W) (rs : list (redir W)) (ts : list (tk W)).

Inductive g_redirs : list (redir W) → list (tk W) → Prop :=
  | g_redirs_nil : g_redirs [] []
  | g_redirs_cons c w rs ts :
      is_redir c = true → g_redirs rs ts → g_redirs (redir_of c w :: rs) (Sym c :: Word w :: ts).

Inductive g_args : list W → list (redir W) → list (tk W) → Prop :=
  | g_args_nil : g_args [] [] []
  | g_args_cons w rs0 ts0 args rs ts :
      g_redirs rs0 ts0 → g_args args rs ts → g_args (w :: args) (rs0 ++ rs) (Word w :: ts0 ++ ts).

Inductive g_exec : cmd W → list (tk W) → Prop :=
  | g_simple rs0 ts0 args rs ts :
      g_redirs rs0 ts0 → g_args args rs ts → (length args < MAXARGS)%nat →
      g_exec (wrap (Exec args) (rs0 ++ rs)) (ts0 ++ ts)
  | g_block t ts rs ts' :
      g_line t ts → g_redirs rs ts' → g_exec (wrap t rs) (Sym 40 :: ts ++ Sym 41 :: ts')
with g_pipe : cmd W → list (tk W) → Prop :=
  | g_one t ts : g_exec t ts → g_pipe t ts
  | g_bar t1 ts1 t2 ts2 : g_exec t1 ts1 → g_pipe t2 ts2 → g_pipe (Pipe t1 t2) (ts1 ++ Sym 124 :: ts2)
with g_line : cmd W → list (tk W) → Prop :=
  | g_last n t ts : g_pipe t ts → g_line (backs n t) (ts ++ replicate n (Sym 38))
  | g_then n t1 ts1 t2 ts2 :
      g_pipe t1 ts1 → g_line t2 ts2 → g_line (Then (backs n t1) t2) (ts1 ++ replicate n (Sym 38) ++ Sym 59 :: ts2).

(** ** A parser on lists of tokens *)

Inductive parsed (A : Type) : Type :=
  | Parsed (a : A) (rest : list (tk W))
  | Died (msg : string)
  | Fuel.
#[local] Arguments Parsed {A} a rest.
#[local] Arguments Died {A} msg.
#[local] Arguments Fuel {A}.

Definition pbind {A B : Type} (p : parsed A) (k : A → list (tk W) → parsed B) : parsed B :=
  match p with Parsed a rest => k a rest | Died msg => Died msg | Fuel => Fuel end.

(** What follows the symbol [c]. *)
Definition after (c : Z) (ts : list (tk W)) : option (list (tk W)) :=
  match ts with Sym d :: ts' => if decide (d = c) then Some ts' else None | _ => None end.

Fixpoint p_redirs (n : nat) (ts : list (tk W)) : parsed (list (redir W)) :=
  match ts with
  | Sym c :: ts' =>
      if is_redir c then
        match ts' with
        | Word w :: ts'' =>
            match n with
            | O => Fuel
            | S n' => pbind (p_redirs n' ts'') (λ rs rest, Parsed (redir_of c w :: rs) rest)
            end
        | _ => Died "missing file for redirection"
        end
      else Parsed [] ts
  | _ => Parsed [] ts
  end.

(** [argc] arguments have been read. *)
Fixpoint p_args (n k argc : nat) (ts : list (tk W)) : parsed (list W * list (redir W)) :=
  match ts with
  | [] => Parsed ([], []) ts
  | Sym c :: _ => if bool_decide (c ∈ chars "|)&;") then Parsed ([], []) ts else Died "syntax"
  | Word w :: ts' =>
      if decide (MAXARGS <= S argc)%nat then Died "too many args" else
      pbind (p_redirs n ts') (λ rs0 ts'',
        match k with
        | O => Fuel
        | S k' => pbind (p_args n k' (S argc) ts'') (λ p rest, Parsed (w :: p.1, rs0 ++ p.2) rest)
        end)
  end.

Definition p_exec (n : nat) (p_line : list (tk W) → parsed (cmd W)) (ts : list (tk W)) : parsed (cmd W) :=
  match after 40 ts with
  | Some ts' =>
      pbind (p_line ts') (λ t ts'',
        match after 41 ts'' with
        | Some ts3 => pbind (p_redirs n ts3) (λ rs rest, Parsed (wrap t rs) rest)
        | None => Died "syntax - missing )"
        end)
  | None =>
      pbind (p_redirs n ts) (λ rs0 ts',
        pbind (p_args n n 0 ts') (λ p rest, Parsed (wrap (Exec p.1) (rs0 ++ p.2)) rest))
  end.

Fixpoint p_pipe (n : nat) (p_line : list (tk W) → parsed (cmd W)) (k : nat) (ts : list (tk W)) : parsed (cmd W) :=
  pbind (p_exec n p_line ts) (λ t ts',
    match after 124 ts' with
    | Some ts'' =>
        match k with O => Fuel | S k' => pbind (p_pipe n p_line k' ts'') (λ r rest, Parsed (Pipe t r) rest) end
    | None => Parsed t ts'
    end).

Fixpoint p_back (k : nat) (t : cmd W) (ts : list (tk W)) : parsed (cmd W) :=
  match after 38 ts with
  | Some ts' => match k with O => Fuel | S k' => p_back k' (Back t) ts' end
  | None => Parsed t ts
  end.

Fixpoint p_line (n k : nat) (ts : list (tk W)) : parsed (cmd W) :=
  match k with
  | O => Fuel
  | S k' =>
      pbind (p_pipe n (p_line n k') n ts) (λ t ts1,
      pbind (p_back n t ts1) (λ t ts2,
        match after 59 ts2 with
        | Some ts3 => pbind (p_line n k' ts3) (λ r rest, Parsed (Then t r) rest)
        | None => Parsed t ts2
        end))
  end.

(** ** The parser accepts the grammar *)

Lemma after_Some c ts ts' : after c ts = Some ts' ↔ ts = Sym c :: ts'.
Proof. unfold after. destruct ts as [|[w|d] ts]; try case_decide; naive_solver. Qed.

Lemma after_cons c ts : after c (Sym c :: ts) = Some ts.
Proof. by apply after_Some. Qed.

Lemma pbind_Parsed {A B : Type} (p : parsed A) (k : A → list (tk W) → parsed B) b rest :
  pbind p k = Parsed b rest → ∃ a ts, p = Parsed a ts ∧ k a ts = Parsed b rest.
Proof. destruct p; simpl; naive_solver. Qed.

(** The next token is none of the given symbols. *)
Definition not_next (cs : list Z) ts : Prop := ∀ c ts', ts = Sym c :: ts' → c ∉ cs.

Lemma after_None c ts : after c ts = None ↔ not_next [c] ts.
Proof.
  unfold after, not_next. destruct ts as [|[w|d] ts]; [naive_solver..|]. case_decide; [|set_solver].
  split; [done|]. intros Hn. by destruct (Hn d ts); [|set_solver].
Qed.

Definition redir_syms : list Z := [60; 62; 43].

Lemma is_redir_elem c : is_redir c = true ↔ c ∈ redir_syms.
Proof. unfold is_redir, redir_syms. rewrite bool_decide_eq_true. set_solver. Qed.

Lemma p_redirs_sound n : ∀ ts rs rest,
  p_redirs n ts = Parsed rs rest → ∃ pre, ts = pre ++ rest ∧ g_redirs rs pre ∧ not_next redir_syms rest.
Proof.
  induction n as [|n IH]; intros ts rs rest; cbn [p_redirs];
    (destruct ts as [|[w|c] ts]; [intros [= <- <-]; exists []; split_and!; [done|constructor|done]..|]);
    (destruct (is_redir c) eqn:Hc; [destruct ts as [|[w|?] ts]; try done|
      intros [= <- <-]; exists []; split_and!; [done|constructor|]; intros ? ? [= -> ->] ?%is_redir_elem; congruence]).
  intros (rs' & ts' & Hp & [= <- <-])%pbind_Parsed. apply IH in Hp as (pre & -> & Hg & Hn).
  exists (Sym c :: Word w :: pre). split_and!; [done|by constructor|done].
Qed.

Lemma p_redirs_complete n rs pre rest :
  g_redirs rs pre → not_next redir_syms rest → (length pre <= n)%nat → p_redirs n (pre ++ rest) = Parsed rs rest.
Proof.
  intros Hg Hr. revert n. induction Hg as [|c w rs ts Hc Hg IH]; intros n Hn.
  - simpl. destruct rest as [|[w|c] rest]; destruct n; simpl; try done;
      (destruct (is_redir c) eqn:Hc; [|done]; apply is_redir_elem in Hc; by destruct (Hr c rest)).
  - destruct n as [|n]; [simpl in Hn; lia|]. cbn [app p_redirs]. rewrite Hc, IH by (simpl in Hn; lia). done.
Qed.

Lemma p_redirs_fuel n : ∀ ts, (length ts <= n)%nat → p_redirs n ts ≠ Fuel.
Proof.
  induction n as [|n IH]; intros ts Hn; destruct ts as [|[w|c] ts]; try done; cbn [p_redirs]; try (simpl in Hn; lia).
  destruct (is_redir c); [|done]. destruct ts as [|[w|?] ts]; try done.
  specialize (IH ts). destruct (p_redirs n ts); simpl in *; try done. intros _. apply IH; [lia|done].
Qed.

(** What can follow the arguments of a command, a pipeline and a line. *)
Definition stop_syms : list Z := chars "|)&;".

Definition next_in (cs : list Z) ts : Prop := ts = [] ∨ ∃ c ts', ts = Sym c :: ts' ∧ c ∈ cs.

Lemma next_in_mono cs cs' ts : next_in cs ts → cs ⊆ cs' → next_in cs' ts.
Proof. unfold next_in. naive_solver. Qed.

Lemma next_in_not cs cs' ts : next_in cs ts → (∀ c, c ∈ cs → c ∉ cs') → not_next cs' ts.
Proof. intros [->|(c & ts' & -> & Hc)] Hd; intros d ts'' E; simplify_eq. auto. Qed.

Lemma next_in_after cs c ts : next_in cs ts → c ∉ cs → after c ts = None.
Proof. intros H Hc. eapply after_None, next_in_not; [done|]. set_solver. Qed.

Lemma stop_not_redir ts : next_in stop_syms ts → not_next redir_syms ts.
Proof.
  intros H. eapply next_in_not; [done|]. intros c Hc Hr. revert Hc Hr. unfold stop_syms, redir_syms. cbn. set_solver by lia.
Qed.

Lemma p_args_sound n k : ∀ argc ts args rs rest,
  p_args n k argc ts = Parsed (args, rs) rest →
  ∃ pre, ts = pre ++ rest ∧ g_args args rs pre ∧ next_in stop_syms rest ∧
    ((argc < MAXARGS)%nat → (argc + length args < MAXARGS)%nat).
Proof.
  induction k as [|k IH]; intros argc ts args rs rest; cbn [p_args];
    (destruct ts as [|[w|c] ts]; [intros [= <- <- <-]; exists []; split_and!; [done|constructor|by left|simpl; lia]| |
      case_bool_decide as Hc; [|done]; intros [= <- <- <-]; exists []; split_and!; [done|constructor|right; naive_solver|simpl; lia]]);
    (case_decide as Hm; [done|]); intros (rs0 & ts' & H1 & H2)%pbind_Parsed; [done|].
  apply pbind_Parsed in H2 as ([args' rs'] & ts'' & H2 & [= <- <- <-]). apply p_redirs_sound in H1 as (pre0 & -> & Hg0 & _).
  apply IH in H2 as (pre & -> & Hg & Hs & Hl). exists (Word w :: pre0 ++ pre). split_and!; [simpl; by rewrite <-app_assoc|by constructor|done|].
  simpl in *. intros. assert (S argc < MAXARGS)%nat as Ha by lia. specialize (Hl Ha). lia.
Qed.

Lemma g_args_next args rs ts rest : g_args args rs ts → next_in stop_syms rest → not_next redir_syms (ts ++ rest).
Proof. intros [|] Hr; simpl; [by apply stop_not_redir|]. by intros c ts' E. Qed.

Lemma p_args_complete n k args rs pre rest argc :
  g_args args rs pre → next_in stop_syms rest → (argc + length args < MAXARGS)%nat →
  (length pre <= n)%nat → (length pre <= k)%nat → p_args n k argc (pre ++ rest) = Parsed (args, rs) rest.
Proof.
  intros Hg Hr. revert k argc. induction Hg as [|w rs0 ts0 args rs ts Hg0 Hg IH]; intros k argc Hm Hn Hk.
  - simpl. destruct Hr as [->|(c & r & -> & Hc)]; destruct k; simpl; try done; by rewrite bool_decide_eq_true_2.
  - cbn [length] in *. rewrite length_app in *. destruct k as [|k]; [lia|]. cbn [app p_args]. rewrite decide_False by lia.
    rewrite <-app_assoc, (p_redirs_complete n rs0 ts0) by (lia || by eauto using g_args_next). cbn [pbind].
    rewrite IH by lia. done.
Qed.

Lemma p_args_fuel n k : ∀ argc ts, (length ts <= n)%nat → (length ts <= k)%nat → p_args n k argc ts ≠ Fuel.
Proof.
  induction k as [|k IH]; intros argc ts Hn Hk; destruct ts as [|[w|c] ts]; try done; cbn [p_args];
    try (case_bool_decide; done); try (simpl in Hk; lia). cbn [length] in *. case_decide; [done|].
  pose proof (p_redirs_fuel n ts ltac:(lia)) as H1. destruct (p_redirs n ts) as [rs0 ts'| |] eqn:E; simpl; try done.
  apply p_redirs_sound in E as (pre & -> & _). rewrite length_app in *.
  specialize (IH (S argc) ts' ltac:(lia) ltac:(lia)). by destruct (p_args n k (S argc) ts').
Qed.

Lemma p_exec_sound n pl ts t rest :
  (∀ ts t rest, pl ts = Parsed t rest → ∃ pre, ts = pre ++ rest ∧ g_line t pre) →
  p_exec n pl ts = Parsed t rest → ∃ pre, ts = pre ++ rest ∧ g_exec t pre.
Proof.
  intros Hpl. unfold p_exec. destruct (after 40 ts) as [ts1|] eqn:Ha.
  - apply after_Some in Ha as ->. intros (t' & ts2 & H1 & H2)%pbind_Parsed. apply Hpl in H1 as (pre1 & -> & Hg1).
    destruct (after 41 ts2) as [ts3|] eqn:Hb; [|done]. apply after_Some in Hb as ->.
    apply pbind_Parsed in H2 as (rs & ts4 & H2 & [= <- <-]). apply p_redirs_sound in H2 as (pre2 & -> & Hg2 & _).
    exists (Sym 40 :: pre1 ++ Sym 41 :: pre2). split; [simpl; by rewrite <-app_assoc|by constructor].
  - intros (rs0 & ts1 & H1 & H2)%pbind_Parsed. apply pbind_Parsed in H2 as ([args rs] & ts2 & H2 & [= <- <-]).
    apply p_redirs_sound in H1 as (pre1 & -> & Hg1 & _). apply p_args_sound in H2 as (pre2 & -> & Hg2 & _ & Hl).
    exists (pre1 ++ pre2). split; [by rewrite <-app_assoc|]. constructor; [done..|]. apply Hl. unfold MAXARGS. lia.
Qed.

Lemma p_pipe_sound n pl k : ∀ ts t rest,
  (∀ ts t rest, pl ts = Parsed t rest → ∃ pre, ts = pre ++ rest ∧ g_line t pre) →
  p_pipe n pl k ts = Parsed t rest → ∃ pre, ts = pre ++ rest ∧ g_pipe t pre.
Proof.
  induction k as [|k IH]; intros ts t rest Hpl; cbn [p_pipe]; intros (t1 & ts1 & H1 & H2)%pbind_Parsed;
    (apply p_exec_sound in H1 as (pre1 & -> & Hg1); [|done]);
    (destruct (after 124 ts1) as [ts2|] eqn:Ha; [|injection H2 as <- <-; exists pre1; split; [done|by constructor]]); [done|].
  apply after_Some in Ha as ->. apply pbind_Parsed in H2 as (r & ts3 & H2 & [= <- <-]).
  apply IH in H2 as (pre2 & -> & Hg2); [|done]. exists (pre1 ++ Sym 124 :: pre2).
  split; [by rewrite <-app_assoc|by constructor].
Qed.

Lemma p_back_sound k : ∀ t ts t' rest,
  p_back k t ts = Parsed t' rest → ∃ n, t' = backs n t ∧ ts = replicate n (Sym 38) ++ rest ∧ after 38 rest = None.
Proof.
  induction k as [|k IH]; intros t ts t' rest; cbn [p_back]; destruct (after 38 ts) as [ts'|] eqn:Ha;
    try (intros [= <- <-]; by exists 0%nat). intros (n & -> & -> & H)%IH. apply after_Some in Ha as ->. by exists (S n).
Qed.

Lemma p_line_sound n k : ∀ ts t rest,
  p_line n k ts = Parsed t rest → ∃ pre, ts = pre ++ rest ∧ g_line t pre.
Proof.
  induction k as [|k IH]; intros ts t rest; cbn [p_line]; [done|].
  intros (t1 & ts1 & H1 & H2)%pbind_Parsed. apply pbind_Parsed in H2 as (t2 & ts2 & H2 & H3).
  apply p_pipe_sound in H1 as (pre1 & -> & Hg1); [|done]. apply p_back_sound in H2 as (j & -> & -> & _).
  destruct (after 59 ts2) as [ts3|] eqn:Ha.
  - apply after_Some in Ha as ->. apply pbind_Parsed in H3 as (r & ts4 & H3 & [= <- <-]).
    apply IH in H3 as (pre2 & -> & Hg2). exists (pre1 ++ replicate j (Sym 38) ++ Sym 59 :: pre2).
    split; [by rewrite <-!app_assoc|by constructor].
  - injection H3 as <- <-. exists (pre1 ++ replicate j (Sym 38)). split; [by rewrite <-app_assoc|by constructor].
Qed.

(** Enough fuel. *)
Lemma p_exec_fuel n pl ts :
  (∀ ts', (length ts' < length ts)%nat → pl ts' ≠ Fuel) →
  (∀ ts t rest, pl ts = Parsed t rest → ∃ pre, ts = pre ++ rest ∧ g_line t pre) →
  (length ts <= n)%nat → p_exec n pl ts ≠ Fuel.
Proof.
  intros Hf Hs Hn. unfold p_exec. destruct (after 40 ts) as [ts1|] eqn:Ha.
  - apply after_Some in Ha as ->. specialize (Hf ts1). destruct (pl ts1) as [t ts2| |] eqn:E; simpl in *; try done; [|naive_solver lia].
    apply Hs in E as (pre & -> & _). destruct (after 41 ts2) as [ts3|] eqn:Hb; [|done]. apply after_Some in Hb as ->.
    rewrite length_app in Hn. simpl in Hn. pose proof (p_redirs_fuel n ts3 ltac:(lia)). by destruct (p_redirs n ts3).
  - pose proof (p_redirs_fuel n ts Hn). destruct (p_redirs n ts) as [rs ts1| |] eqn:E; simpl; try done.
    apply p_redirs_sound in E as (pre & -> & _). rewrite length_app in Hn.
    pose proof (p_args_fuel n n 0 ts1 ltac:(lia) ltac:(lia)). by destruct (p_args n n 0 ts1).
Qed.

Lemma p_pipe_fuel n pl k : ∀ ts,
  (∀ ts', (length ts' < length ts)%nat → pl ts' ≠ Fuel) →
  (∀ ts t rest, pl ts = Parsed t rest → ∃ pre, ts = pre ++ rest ∧ g_line t pre) →
  (length ts <= n)%nat → (length ts <= k)%nat → p_pipe n pl k ts ≠ Fuel.
Proof.
  induction k as [|k IH]; intros ts Hf Hs Hn Hk; cbn [p_pipe]; pose proof (p_exec_fuel n pl ts Hf Hs Hn) as H1;
    destruct (p_exec n pl ts) as [t ts1| |] eqn:E; simpl; try done; apply p_exec_sound in E as (pre & -> & _); try done;
    (destruct (after 124 ts1) as [ts2|] eqn:Ha; [apply after_Some in Ha as ->|done]);
    rewrite length_app in *; simpl in *; [lia|].
  specialize (IH ts2). destruct (p_pipe n pl k ts2); simpl; try done. intros _.
  apply IH; [|done|lia|lia|done]. intros ts' ?. apply Hf. lia.
Qed.

Lemma p_back_fuel k : ∀ t ts, (length ts <= k)%nat → p_back k t ts ≠ Fuel.
Proof.
  induction k as [|k IH]; intros t ts Hk; cbn [p_back]; destruct (after 38 ts) as [ts'|] eqn:Ha; try done;
    apply after_Some in Ha as ->; simpl in Hk; [lia|]. apply IH. lia.
Qed.

Lemma p_line_fuel n k : ∀ ts, (length ts < k)%nat → (length ts <= n)%nat → p_line n k ts ≠ Fuel.
Proof.
  induction k as [|k IH]; intros ts Hk Hn; [lia|]. cbn [p_line].
  pose proof (p_pipe_fuel n (p_line n k) n ts) as H1. specialize (H1 ltac:(intros; apply IH; lia) (p_line_sound n k) Hn Hn).
  destruct (p_pipe n (p_line n k) n ts) as [t1 ts1| |] eqn:E1; simpl; try done.
  apply p_pipe_sound in E1 as (pre1 & -> & _); [|apply p_line_sound]. rewrite length_app in *.
  pose proof (p_back_fuel n t1 ts1 ltac:(lia)). destruct (p_back n t1 ts1) as [t2 ts2| |] eqn:E2; simpl; try done.
  apply p_back_sound in E2 as (j & _ & -> & _). rewrite length_app in *.
  destruct (after 59 ts2) as [ts3|] eqn:Ha; [apply after_Some in Ha as ->; simpl in *|done].
  specialize (IH ts3 ltac:(lia) ltac:(lia)). by destruct (p_line n k ts3).
Qed.

Scheme g_exec_mut := Minimality for g_exec Sort Prop
  with g_pipe_mut := Minimality for g_pipe Sort Prop
  with g_line_mut := Minimality for g_line Sort Prop.
Combined Scheme g_mutind from g_exec_mut, g_pipe_mut, g_line_mut.

Lemma g_redirs_next rs ts rest : g_redirs rs ts → after 40 rest = None → after 40 (ts ++ rest) = None.
Proof.
  intros [|c w rs' ts' Hc Hg] Hr; [done|]. simpl. apply is_redir_elem in Hc. rewrite decide_False; [done|].
  unfold redir_syms in Hc. set_solver by lia.
Qed.

Lemma g_args_after args rs ts rest : g_args args rs ts → next_in stop_syms rest → after 40 (ts ++ rest) = None.
Proof. intros [|] Hr; [|done]. simpl. eapply next_in_after; [done|]. unfold stop_syms. cbn. set_solver by lia. Qed.

Definition line_end : list Z := [41].
Definition pipe_end : list Z := chars ")&;".

Lemma p_back_complete k n t rest : (n <= k)%nat → after 38 rest = None →
  p_back k t (replicate n (Sym 38) ++ rest) = Parsed (backs n t) rest.
Proof.
  intros Hk Hr. revert n t Hk. induction k as [|k IH]; intros [|n] t Hk; cbn [p_back replicate app]; try lia;
    rewrite ?Hr, ?after_cons; [done..|]. by rewrite IH by lia.
Qed.

Lemma backs_next n rest : next_in (59 :: line_end) rest → next_in pipe_end (replicate n (Sym 38) ++ rest).
Proof.
  intros Hr. destruct n; [|right; eexists _, _; split; [done|]; unfold pipe_end; cbn; set_solver].
  eapply next_in_mono; [done|]. unfold line_end, pipe_end. cbn. set_solver.
Qed.

Lemma line_end_after c rest : next_in line_end rest → c ≠ 41 → after c rest = None.
Proof. intros H Hc. eapply next_in_after; [done|]. unfold line_end. set_solver. Qed.

Lemma parse_complete n :
  (∀ t pre, g_exec t pre → ∀ k rest, next_in stop_syms rest → (length pre <= k)%nat → (length pre <= n)%nat →
     p_exec n (p_line n k) (pre ++ rest) = Parsed t rest) ∧
  (∀ t pre, g_pipe t pre → ∀ k j rest, next_in pipe_end rest → (length pre <= k)%nat → (length pre <= n)%nat →
     (length pre <= j)%nat → p_pipe n (p_line n k) j (pre ++ rest) = Parsed t rest) ∧
  (∀ t pre, g_line t pre → ∀ k rest, next_in line_end rest → (length pre < k)%nat → (length pre <= n)%nat →
     p_line n k (pre ++ rest) = Parsed t rest).
Proof.
  apply g_mutind.
  - intros rs0 ts0 args rs ts H1 H2 Hm k rest Hr Hk Hn. rewrite length_app in *. unfold p_exec. rewrite <-app_assoc.
    rewrite (g_redirs_next rs0) by eauto using g_args_after.
    rewrite (p_redirs_complete n rs0 ts0) by (lia || by eauto using g_args_next). cbn [pbind].
    by rewrite (p_args_complete n n args rs ts) by (done || lia).
  - intros t ts rs ts' _ IH H2 k rest Hr Hk Hn. cbn [length] in *. rewrite length_app in *. cbn [length] in *.
    unfold p_exec. rewrite <-app_comm_cons, after_cons, <-app_assoc, <-app_comm_cons.
    rewrite IH; [|right; eexists _, _; split; [done|]; unfold line_end; set_solver|lia|lia].
    cbn [pbind]. rewrite after_cons. by rewrite (p_redirs_complete n rs ts') by (lia || by eauto using stop_not_redir).
  - intros t ts _ IH k j rest Hr Hk Hn Hj.
    assert (next_in stop_syms rest) by (eapply next_in_mono; [done|]; unfold pipe_end, stop_syms; cbn; set_solver).
    destruct j; cbn [p_pipe]; rewrite IH by done; cbn [pbind];
      (rewrite (next_in_after pipe_end 124) by (done || (unfold pipe_end; cbn; set_solver by lia)); done).
  - intros t1 ts1 t2 ts2 _ IH1 _ IH2 k j rest Hr Hk Hn Hj. rewrite length_app in *. cbn [length] in *.
    destruct j as [|j]; [lia|]. cbn [p_pipe]. rewrite <-app_assoc.
    rewrite IH1; [|right; eexists _, _; split; [done|]; unfold stop_syms; cbn; set_solver|lia|lia].
    cbn [pbind]. rewrite <-app_comm_cons, after_cons. by rewrite IH2 by (done || lia).
  - intros j t ts _ IH k rest Hr Hk Hn. rewrite length_app, length_replicate in *. destruct k as [|k]; [lia|]. cbn [p_line].
    rewrite <-app_assoc, IH; [|apply backs_next, (next_in_mono line_end); [done|set_solver]|lia..]. cbn [pbind].
    rewrite p_back_complete by (lia || by eauto using line_end_after). cbn [pbind]. by rewrite (line_end_after 59).
  - intros j t1 ts1 t2 ts2 _ IH1 _ IH2 k rest Hr Hk Hn. rewrite !length_app, length_replicate in *. cbn [length] in *.
    destruct k as [|k]; [lia|]. cbn [p_line]. rewrite <-!app_assoc, <-app_comm_cons.
    rewrite IH1; [|apply backs_next; right; eexists _, _; split; [done|]; set_solver|lia..]. cbn [pbind].
    rewrite p_back_complete by (lia || done). cbn [pbind]. rewrite after_cons. by rewrite IH2 by (done || lia).
Qed.

(** The parser on tokens accepts exactly the lines of the grammar. *)
Lemma p_line_iff n k ts t : (length ts < k)%nat → (length ts <= n)%nat → p_line n k ts = Parsed t [] ↔ g_line t ts.
Proof.
  intros Hk Hn. split.
  - intros (pre & -> & H)%p_line_sound. by rewrite app_nil_r.
  - intros H. pose proof (proj2 (proj2 (parse_complete n)) t ts H k []) as Hp. rewrite app_nil_r in Hp. apply Hp; [by left|done..].
Qed.
End grammar.

(** ** Words and their text *)

Fixpoint cmd_words {W : Type} (t : cmd W) : list W :=
  match t with
  | Exec args => args
  | Redir t' w _ _ => w :: cmd_words t'
  | Pipe l r | Then l r => cmd_words l ++ cmd_words r
  | Back t' => cmd_words t'
  end.

Fixpoint cmd_map {W V : Type} (f : W → V) (t : cmd W) : cmd V :=
  match t with
  | Exec args => Exec (f <$> args)
  | Redir t' w mode fd => Redir (cmd_map f t') (f w) mode fd
  | Pipe l r => Pipe (cmd_map f l) (cmd_map f r)
  | Then l r => Then (cmd_map f l) (cmd_map f r)
  | Back t' => Back (cmd_map f t')
  end.

Definition tk_map {W V : Type} (f : W → V) (k : tk W) : tk V :=
  match k with Word w => Word (f w) | Sym c => Sym c end.

Definition redir_map {W V : Type} (f : W → V) (r : redir W) : redir V := (f r.1.1, r.1.2, r.2).

Section map.
Context {W V : Type} (f : W → V).
Implicit Types (t : cmd W) (ts : list (tk W)) (rs : list (redir W)).

Lemma wrap_map t rs : cmd_map f (wrap t rs) = wrap (cmd_map f t) (redir_map f <$> rs).
Proof. revert t. induction rs as [|r rs IH]; intros t; [done|]. apply IH. Qed.

Lemma redir_of_map c w : redir_map f (redir_of c w) = redir_of c (f w).
Proof. unfold redir_of. by case_decide. Qed.

(** Parsing mapped tokens gives the mapped command. *)
Definition pmap {A B : Type} (g : A → B) (r : parsed (W := W) A) : parsed (W := V) B :=
  match r with
  | Parsed _ a rest => Parsed _ (g a) (tk_map f <$> rest)
  | Died _ msg => Died _ msg
  | Fuel _ => Fuel _
  end.

Lemma pbind_map {A A' B B' : Type} (r : parsed (W := W) A) (k : A → list (tk W) → parsed (W := W) B)
    (g : A → A') (g' : B → B') k' :
  (∀ a rest, k' (g a) (tk_map f <$> rest) = pmap g' (k a rest)) → pbind (pmap g r) k' = pmap g' (pbind r k).
Proof. intros H. destruct r; [apply H|done..]. Qed.

Lemma after_map c ts : after c (tk_map f <$> ts) = (λ ts', tk_map f <$> ts') <$> after c ts.
Proof. destruct ts as [|[w|d] ts]; [done..|]. cbn. by case_decide. Qed.

Lemma p_redirs_map n ts : p_redirs n (tk_map f <$> ts) = pmap (fmap (redir_map f)) (p_redirs n ts).
Proof.
  revert ts. induction n as [|n IH]; intros [|[w|c] ts]; try done; cbn [fmap list_fmap tk_map p_redirs];
    destruct (is_redir c); try done; destruct ts as [|[w|d] ts]; try done. cbn [fmap list_fmap tk_map].
  rewrite IH. apply pbind_map. intros rs rest. cbn. by rewrite redir_of_map.
Qed.

Definition args_map (p : list W * list (redir W)) : list V * list (redir V) := (f <$> p.1, redir_map f <$> p.2).

Lemma p_args_map n k argc ts : p_args n k argc (tk_map f <$> ts) = pmap args_map (p_args n k argc ts).
Proof.
  revert argc ts. induction k as [|k IH]; intros argc [|[w|c] ts]; try done; cbn [fmap list_fmap tk_map p_args];
    try (by case_bool_decide); (case_decide; [done|]); rewrite p_redirs_map; apply pbind_map; intros rs0 rest; [done|].
  rewrite IH. apply pbind_map. intros [args rs] rest'. unfold args_map. cbn. by rewrite fmap_app.
Qed.

Lemma p_exec_map n pl pl' ts :
  (∀ ts, pl' (tk_map f <$> ts) = pmap (cmd_map f) (pl ts)) →
  p_exec n pl' (tk_map f <$> ts) = pmap (cmd_map f) (p_exec n pl ts).
Proof.
  intros Hpl. unfold p_exec. rewrite after_map. destruct (after 40 ts) as [ts1|]; cbn [fmap option_fmap option_map].
  - rewrite Hpl. apply pbind_map. intros t ts2. rewrite after_map. destruct (after 41 ts2); [|done].
    cbn [fmap option_fmap option_map]. rewrite p_redirs_map. apply pbind_map. intros rs rest. cbn. by rewrite wrap_map.
  - rewrite p_redirs_map. apply pbind_map. intros rs0 ts1. rewrite p_args_map. apply pbind_map. intros [args rs] rest.
    cbn. by rewrite wrap_map, fmap_app.
Qed.

Lemma p_pipe_map n pl pl' k ts :
  (∀ ts, pl' (tk_map f <$> ts) = pmap (cmd_map f) (pl ts)) →
  p_pipe n pl' k (tk_map f <$> ts) = pmap (cmd_map f) (p_pipe n pl k ts).
Proof.
  intros Hpl. revert ts. induction k as [|k IH]; intros ts; cbn [p_pipe]; rewrite (p_exec_map n pl) by done;
    apply pbind_map; intros t ts1; rewrite after_map; destruct (after 124 ts1); try done.
  cbn [fmap option_fmap option_map]. rewrite IH. apply pbind_map. done.
Qed.

Lemma p_back_map k t ts : p_back k (cmd_map f t) (tk_map f <$> ts) = pmap (cmd_map f) (p_back k t ts).
Proof.
  revert t ts. induction k as [|k IH]; intros t ts; cbn [p_back]; rewrite after_map; destruct (after 38 ts); try done.
  cbn [fmap option_fmap option_map]. apply (IH (Back t)).
Qed.

Lemma p_line_map n k ts : p_line n k (tk_map f <$> ts) = pmap (cmd_map f) (p_line n k ts).
Proof.
  revert ts. induction k as [|k IH]; intros ts; [done|]. cbn [p_line]. rewrite (p_pipe_map n (p_line n k)) by done.
  apply pbind_map. intros t1 ts1. rewrite p_back_map. apply pbind_map. intros t2 ts2. rewrite after_map.
  destruct (after 59 ts2); [|done]. cbn [fmap option_fmap option_map]. rewrite IH. by apply pbind_map.
Qed.
End map.

(** ** What the grammar says about words *)

Fixpoint cmd_small {W : Type} (t : cmd W) : Prop :=
  match t with
  | Exec args => (length args < MAXARGS)%nat
  | Redir t' _ _ _ | Back t' => cmd_small t'
  | Pipe l r | Then l r => cmd_small l ∧ cmd_small r
  end.

Section words.
Context {W : Type}.
Implicit Types (t : cmd W) (ts : list (tk W)) (rs : list (redir W)).

Definition words_from t ts : Prop := (∀ w, w ∈ cmd_words t → Word w ∈ ts) ∧ cmd_small t.

Lemma g_redirs_words rs ts : g_redirs rs ts → ∀ r, r ∈ rs → Word r.1.1 ∈ ts.
Proof.
  induction 1 as [|c w rs ts Hc H IH]; intros r; [set_solver|]. intros [->|Hr]%elem_of_cons; [|set_solver].
  unfold redir_of. case_decide; set_solver.
Qed.

Lemma g_args_words args rs ts : g_args args rs ts → (∀ w, w ∈ args → Word w ∈ ts) ∧ (∀ r, r ∈ rs → Word r.1.1 ∈ ts).
Proof.
  induction 1 as [|w rs0 ts0 args rs ts H0 H [IH1 IH2]]; [set_solver|]. pose proof (g_redirs_words _ _ H0). set_solver.
Qed.

Lemma wrap_words t rs ts :
  words_from t ts → (∀ r, r ∈ rs → Word r.1.1 ∈ ts) → words_from (wrap t rs) ts.
Proof.
  revert t. induction rs as [|r rs IH]; intros t [Ht Hs] Hr; [done|]. apply (IH (Redir t r.1.1 r.1.2 r.2)); [|set_solver].
  split; [|done]. cbn. set_solver.
Qed.

Lemma backs_words n t ts : words_from t ts → words_from (backs n t) ts.
Proof. revert t. induction n as [|n IH]; intros t Ht; [done|]. by apply (IH (Back t)). Qed.

Lemma words_from_mono t ts ts' : words_from t ts → ts ⊆ ts' → words_from t ts'.
Proof. unfold words_from. set_solver. Qed.

Lemma words_from_pair l r lts rts ts :
  words_from l lts → words_from r rts → lts ⊆ ts → rts ⊆ ts → words_from (Pipe l r) ts ∧ words_from (Then l r) ts.
Proof. unfold words_from. cbn. set_solver. Qed.

Lemma g_words :
  (∀ t ts, g_exec t ts → words_from t ts) ∧ (∀ t ts, g_pipe t ts → words_from t ts) ∧ (∀ t ts, g_line t ts → words_from t ts).
Proof.
  apply g_mutind.
  - intros rs0 ts0 args rs ts H1 H2 Hm. pose proof (g_redirs_words _ _ H1). destruct (g_args_words _ _ _ H2).
    apply wrap_words; [split; [cbn; set_solver|done]|set_solver].
  - intros t ts rs ts' _ IH H2. pose proof (g_redirs_words _ _ H2). apply wrap_words; [|set_solver].
    eapply words_from_mono; [done|set_solver].
  - done.
  - intros. eapply words_from_pair; [done..|set_solver|set_solver].
  - intros. apply backs_words. eapply words_from_mono; [done|set_solver].
  - intros. eapply words_from_pair; [by apply backs_words|done|set_solver|set_solver].
Qed.
End words.

(** ** The tokens of a buffer *)

(** A character of a word. *)
Definition word_char (c : Z) : bool :=
  negb (bool_decide (c = 0)) && negb (one_of whitespace c) && negb (one_of symbols c).

Section lexer.
(** The text is at the addresses from [s0] up to [es], where a zero ends it. *)
Context (m : mem) (s0 es : Z).
Hypothesis text_end : m es = 0.
Hypothesis text_inside : ∀ a, s0 <= a < es → m a ≠ 0.

Lemma scan_spec f n s :
  s <= es → Z.of_nat n = es - s →
  let s' := scan n f m s es in
  s <= s' <= es ∧ (∀ a, s <= a < s' → f (m a) = true) ∧ (s' = es ∨ f (m s') = false).
Proof.
  revert s. induction n as [|n IH]; intros s Hs Hn; cbn [scan].
  - assert (s = es) as -> by lia. split_and!; [lia|lia|intros; lia|by left].
  - rewrite bool_decide_eq_true_2 by lia. simpl. destruct (f (m s)) eqn:Hf.
    + destruct (IH (s + 1)) as (H1 & H2 & H3); [lia..|]. split_and!; [lia|lia| |done].
      intros a Ha. destruct (decide (a = s)) as [->|]; [done|]. apply H2. lia.
    + split_and!; [lia|lia|intros; lia|by right].
Qed.

Lemma span_spec f s :
  s <= es → let s' := span f m s es in
  s <= s' <= es ∧ (∀ a, s <= a < s' → f (m a) = true) ∧ (s' = es ∨ f (m s') = false).
Proof. intros Hs. apply scan_spec; lia. Qed.

Lemma span_stop f s : s = es ∨ f (m s) = false → span f m s es = s.
Proof.
  intros Hf. unfold span. destruct (Z.to_nat (es - s)) eqn:E; [done|]. cbn [scan].
  destruct Hf as [->|Hf]; [lia|]. by rewrite Hf, andb_false_r.
Qed.

Lemma skip_spec s :
  s <= es → s <= skip m s es <= es ∧ one_of whitespace (m (skip m s es)) = false ∧
  (∀ a, s <= a < skip m s es → one_of whitespace (m a) = true).
Proof.
  intros Hs. destruct (span_spec (one_of whitespace) s Hs) as (H1 & H2 & H3). fold (skip m s es) in *. split_and!; [lia|lia| |done].
  destruct H3 as [->|H3]; [by rewrite text_end|done].
Qed.

Lemma skip_idem s : s <= es → skip m (skip m s es) es = skip m s es.
Proof. intros Hs. apply span_stop. right. by apply skip_spec. Qed.

Lemma gettoken_skip s : s <= es → gettoken m (skip m s es) es = gettoken m s es.
Proof. intros Hs. unfold gettoken. by rewrite skip_idem. Qed.

(** What [gettoken] finds at a position. *)
Lemma gettoken_spec s :
  s0 <= s <= es →
  let t := gettoken m s es in
  t_q t = skip m s es ∧ t_s t = skip m (t_eq t) es ∧ t_q t <= t_eq t <= es ∧
  ((t_ret t = 0 ∧ t_q t = es ∧ t_s t = es) ∨
   (t_ret t = 97 ∧ t_q t < t_eq t ∧ (∀ a, t_q t <= a < t_eq t → word_char (m a) = true) ∧
      word_char (m (t_eq t)) = false) ∨
   (t_q t < t_eq t ∧ t_ret t ≠ 0 ∧ t_ret t ≠ 97 ∧ m (t_q t) ∈ symbols ∧
      ((t_ret t = m (t_q t) ∧ t_ret t ≠ 43) ∨ (t_ret t = 43 ∧ m (t_q t) = 62)))).
Proof.
  intros Hs t. destruct (skip_spec s) as (Hq & Hw & _); [lia|]. set (q := skip m s es) in *.
  unfold t, gettoken. fold q. destruct (decide (m q = 0)) as [H0|H0].
  { cbn. assert (q = es) as E by (destruct (decide (q = es)); [done|]; destruct (text_inside q); [lia|done]).
    split_and!; [done|done|lia|lia|]. left. rewrite H0, E. split_and!; [done|done|]. apply span_stop. by left. }
  assert (q < es) by (destruct (decide (q = es)) as [E|]; [rewrite E in H0; done|lia]).
  destruct (decide (m q ∈ chars "|();&<")) as [Hc|Hc].
  { cbn [t_q t_eq t_s t_ret]. split_and!; [done..|lia|lia|]. right; right.
    assert (m q = 124 ∨ m q = 40 ∨ m q = 41 ∨ m q = 59 ∨ m q = 38 ∨ m q = 60) as Hc' by (revert Hc; cbn; set_solver).
    split_and!; [lia|done|lia| |left; split; [done|lia]].
    unfold symbols. cbn. destruct_or! Hc'; rewrite Hc'; set_solver. }
  destruct (decide (m q = 62)) as [H62|H62].
  { destruct (decide (m (q + 1) = 62)) as [H62'|H62']; cbn [t_q t_eq t_s t_ret].
    - assert (q + 1 ≠ es) by (intros E; rewrite E in H62'; lia).
      split_and!; [done..|lia|lia|]. right; right. rewrite H62. unfold symbols. cbn. split_and!; [lia..|set_solver|by right].
    - split_and!; [done..|lia|lia|]. right; right. rewrite H62. unfold symbols. cbn. split_and!; [lia..|set_solver|by left]. }
  cbn [t_q t_eq t_s t_ret]. set (f := λ c, negb (one_of whitespace c) && negb (one_of symbols c)).
  assert (f (m q) = true) as Hfq.
  { unfold f. rewrite Hw. unfold one_of. rewrite bool_decide_eq_false_2; [done|]. revert Hc H62. unfold symbols. cbn. set_solver. }
  destruct (span_spec f q ltac:(lia)) as (H1 & H2 & H3). set (e := span f m q es) in *.
  assert (q < e).
  { destruct (decide (e = q)) as [E|]; [|lia]. rewrite E in H3. destruct H3; [lia|congruence]. }
  split_and!; [done..|lia|lia|]. right; left. split_and!; [done|lia| |].
  - intros a Ha. unfold word_char. rewrite bool_decide_eq_false_2 by (apply text_inside; lia). by apply H2.
  - unfold word_char. destruct H3 as [->|H3]; [by rewrite text_end|]. rewrite <-andb_assoc. change (negb _ && negb _) with (f (m e)).
    by rewrite H3, andb_false_r.
Qed.

Definition tk_of (t : token) : tk (Z * Z) :=
  if decide (t_ret t = 97) then Word (t_q t, t_eq t) else Sym (t_ret t).

(** [stream s ts]: from [s] on, [gettoken] finds the tokens [ts] and then the end. *)
Inductive stream : Z → list (tk (Z * Z)) → Prop :=
  | stream_end s : s0 <= s <= es → t_ret (gettoken m s es) = 0 → stream s []
  | stream_cons s ts :
      s0 <= s <= es → t_ret (gettoken m s es) ≠ 0 → stream (t_s (gettoken m s es)) ts →
      stream s (tk_of (gettoken m s es) :: ts).

Lemma stream_in s ts : stream s ts → s0 <= s <= es.
Proof. by intros [|]. Qed.

Lemma stream_skip s ts : stream s ts → stream (skip m s es) ts.
Proof.
  intros Hst. pose proof (stream_in _ _ Hst) as Hs. destruct (skip_spec s) as (Hq & _); [lia|].
  destruct Hst as [s _ Hr|s ts _ Hr Hst]; rewrite <-gettoken_skip in * by lia; constructor; (lia || done).
Qed.

(** The first character of a symbol. *)
Definition sym_char (c : Z) : Z := if decide (c = 43) then 62 else c.

Definition next_sym (toks : list Z) (ts : list (tk (Z * Z))) : bool :=
  match ts with Sym c :: _ => one_of toks (sym_char c) | _ => false end.

Lemma peek_stream s ts toks :
  stream s ts → toks ⊆ symbols → peek m s es toks = (skip m s es, next_sym toks ts).
Proof.
  intros Hst Ht. unfold peek. f_equal. pose proof (stream_in _ _ Hst) as Hs.
  destruct (gettoken_spec s Hs) as (Hq & _ & _ & Hr). rewrite <-Hq.
  destruct Hst as [s _ H0|s ts _ H0 Hst]; cbn [next_sym].
  - destruct Hr as [(_ & -> & _)|[(H97 & _)|(_ & ? & _)]]; [by rewrite text_end|congruence..].
  - unfold tk_of. destruct Hr as [(? & _)|[(H97 & Hlt & Hw & _)|(_ & _ & H97 & Hsy & Hr)]]; [congruence|..].
    + rewrite decide_True by done. cbn. specialize (Hw (t_q (gettoken m s es)) ltac:(lia)).
      unfold word_char in Hw. apply andb_true_iff in Hw as [Hw1 Hw2]. apply andb_true_iff in Hw1 as [-> _]. simpl.
      unfold one_of in *. rewrite negb_true_iff, bool_decide_eq_false in Hw2. apply bool_decide_eq_false_2. set_solver.
    + rewrite decide_False by done. cbn. unfold sym_char.
      assert (m (t_q (gettoken m s es)) ≠ 0) as Hnz.
      { revert Hsy. unfold symbols. cbn. intros H E. rewrite E in H. set_solver. }
      rewrite (bool_decide_eq_false_2 (m _ = 0)) by done. simpl.
      destruct Hr as [[-> H43]|[-> ->]]; [by rewrite decide_False|done].
Qed.

(** Reading the next token after a peek. *)
Lemma tok_stream s tk ts :
  stream s (tk :: ts) →
  let t := gettoken m (skip m s es) es in
  tk_of t = tk ∧ t_ret t ≠ 0 ∧ stream (t_s t) ts.
Proof. intros H. inversion H; subst. rewrite gettoken_skip by lia. done. Qed.

Lemma tok_end s : stream s [] → t_ret (gettoken m (skip m s es) es) = 0 ∧ stream (t_s (gettoken m (skip m s es) es)) [].
Proof.
  intros H. inversion H; subst. rewrite gettoken_skip by lia. split; [done|].
  destruct (gettoken_spec s) as (_ & _ & _ & [(_ & _ & ->)|[[? _]|(_ & ? & _)]]); [done| |congruence..].
  constructor; [lia|]. destruct (gettoken_spec es) as (_ & _ & Hle & Hr); [lia|]. set (t := gettoken m es es) in *.
  destruct (skip_spec es) as (Hq & _); [lia|]. destruct (gettoken_spec es) as (Hq' & _); [lia|]. fold t in Hq'.
  destruct Hr as [[? _]|[(_ & ? & _)|(? & _)]]; [done|lia|lia].
Qed.

Lemma stream_word s q e ts : stream s (Word (q, e) :: ts) → s0 <= q < e ∧ e <= es ∧
  (∀ a, q <= a < e → word_char (m a) = true) ∧ word_char (m e) = false.
Proof.
  intros H. inversion H as [|s1 ts1 Hs Hr Hst Es E]; subst. destruct (gettoken_spec s Hs) as (Hq & _ & Hle & Ht).
  destruct (skip_spec s ltac:(lia)) as (Hsk & _). unfold tk_of in E. destruct (decide _) as [H97|]; [|done].
  injection E as <- <-. destruct Ht as [(? & _)|[(_ & ? & ? & ?)|(_ & _ & ? & _)]]; [congruence| |done]. rewrite Hq in *. split_and!; (done || lia).
Qed.

(** There are no more tokens than characters. *)
Lemma stream_length s ts : stream s ts → Z.of_nat (length ts) <= es - s.
Proof.
  induction 1 as [s Hs H0|s ts Hs H0 Hst IH]; [simpl; lia|].
  destruct (gettoken_spec s Hs) as (Hq & Hts & Hle & Ht). destruct (skip_spec s ltac:(lia)) as (Hsk & _).
  assert (t_q (gettoken m s es) < t_eq (gettoken m s es)) by naive_solver.
  destruct (skip_spec (t_eq (gettoken m s es)) ltac:(lia)) as (Hsk' & _). rewrite <-Hts in Hsk'. cbn [length]. lia.
Qed.
End lexer.

(** ** Commands in the heap *)

(** [writes fd l p Q]: [p] first writes the bytes [l] to [fd], whatever the writes
    answer, and is then a program in [Q]. *)
Fixpoint writes {A : Type} (fd : Z) (l : list Z) (p : prog A) (Q : prog A → Prop) : Prop :=
  match l with
  | [] => Q p
  | c :: l' => ∃ k, p = Call (Sys.Write fd [c]) k ∧ ∀ b, writes fd l' (k b) Q
  end.

(** The program prints the message of a [panic] and exits. *)
Definition dies {A : Type} (msg : list Z) (p : prog A) : Prop := writes 2 msg p (λ p, p = Exit).

Lemma writes_mono {A : Type} fd l (p : prog A) (Q R : prog A → Prop) :
  writes fd l p Q → (∀ p, Q p → R p) → writes fd l p R.
Proof.
  intros Hp HQ. revert p Hp. induction l as [|c l IH]; intros p Hp; cbn [writes] in *; [by apply HQ|].
  destruct Hp as (k & -> & Hk). exists k. split; [done|]. auto.
Qed.

Lemma writes_bind {A B : Type} fd l (p : prog A) (f : A → prog B) Q :
  writes fd l p (λ p, Q (prog_bind p f)) → writes fd l (prog_bind p f) Q.
Proof.
  revert p. induction l as [|c l IH]; intros p; cbn [writes]; [done|]. intros (k & -> & Hk).
  exists (λ b, prog_bind (k b) f). split; [done|]. auto.
Qed.

Lemma dies_bind {A B : Type} msg (p : prog A) (f : A → prog B) : dies msg p → dies msg (prog_bind p f).
Proof. intros H. apply writes_bind. eapply writes_mono; [done|]. by intros ? ->. Qed.

Lemma writes_each {S A : Type} fd l (k : U S A) (st : S) (Q : prog (A * S) → Prop) :
  Q (k st) → writes fd l ((each (putc fd) l ;; k) st) Q.
Proof.
  intros HQ. revert st HQ. induction l as [|c l IH]; intros st HQ; cbn [writes]; [done|].
  exists (λ _, (each (putc fd) l ;; k) st). split; [done|]. auto.
Qed.

Lemma writes_app {A : Type} fd l1 l2 (p : prog A) Q : writes fd l1 p (λ p, writes fd l2 p Q) → writes fd (l1 ++ l2) p Q.
Proof.
  revert p. induction l1 as [|c l1 IH]; intros p; cbn [writes app]; [done|]. intros (k & -> & Hk). exists k. auto.
Qed.

Lemma dies_panic {A : Type} msg st : dies (line msg) ((panic msg : U shell A) st).
Proof.
  unfold dies, panic, printf_str, printf.
  assert (Printf.printf (λ _, chars msg) (line "%s") [1] = Some (line msg)) as -> by done.
  by apply writes_each.
Qed.

Section heap.
Implicit Types (h : list node) (w : Z * Z) (rs : list (redir (Z * Z))) (p ret c : nat).

Definition exec_node (args : list (Z * Z)) : node :=
  EXEC (args.*1 ++ replicate (MAXARGS - length args) 0) (args.*2 ++ replicate (MAXARGS - length args) 0).

(** The nodes of [h] other than [c] are in [h']. *)
Definition keeps c h h' : Prop := ∀ p n, p ≠ c → node_at h p = Some n → node_at h' p = Some n.

(** [ret] is [c] with the redirections around it. *)
Fixpoint links h ret c rs : Prop :=
  match rs with
  | [] => ret = c
  | (q, e, mode, fd) :: rs' => ∃ p, node_at h p = Some (REDIR c q e mode fd) ∧ (c < p)%nat ∧ links h ret p rs'
  end.

(** [p] is the command [t]. *)
Fixpoint repr h p (t : cmd (Z * Z)) : Prop :=
  match t with
  | Exec args => node_at h p = Some (exec_node args)
  | Redir t' (q, e) mode fd => ∃ p', node_at h p = Some (REDIR p' q e mode fd) ∧ (p' < p)%nat ∧ repr h p' t'
  | Pipe l r => ∃ pl pr, node_at h p = Some (PIPE pl pr) ∧ (pl < p)%nat ∧ (pr < p)%nat ∧ repr h pl l ∧ repr h pr r
  | Then l r => ∃ pl pr, node_at h p = Some (LIST pl pr) ∧ (pl < p)%nat ∧ (pr < p)%nat ∧ repr h pl l ∧ repr h pr r
  | Back t' => ∃ p', node_at h p = Some (BACK p') ∧ (p' < p)%nat ∧ repr h p' t'
  end.

Lemma node_at_length h p n : node_at h p = Some n → (0 < p <= length h)%nat.
Proof. destruct p as [|i]; [done|]. intros ?%lookup_lt_Some. lia. Qed.

Lemma node_at_app h x p n : node_at h p = Some n → node_at (h ++ x) p = Some n.
Proof. destruct p as [|i]; [done|]. apply lookup_app_l_Some. Qed.

Lemma node_at_new h n : node_at (h ++ [n]) (S (length h)) = Some n.
Proof. simpl. by rewrite lookup_app_r, Nat.sub_diag. Qed.

Lemma keeps_app c h x : keeps c h (h ++ x).
Proof. intros p n _. apply node_at_app. Qed.

Lemma keeps_trans c h h1 h2 : keeps c h h1 → keeps c h1 h2 → keeps c h h2.
Proof. unfold keeps. naive_solver. Qed.

Lemma keeps_0 c h h' : keeps 0 h h' → keeps c h h'.
Proof. intros H p n _ Hp. apply H; [|done]. apply node_at_length in Hp. lia. Qed.

Lemma links_mono c h h' ret c' rs :
  keeps c h h' → (∀ n, node_at h c = Some n → ∃ a e, n = EXEC a e) → links h ret c' rs → links h' ret c' rs.
Proof.
  intros Hk Hc. revert c'. induction rs as [|[[[q e] mode] fd] rs IH]; intros c'; [done|].
  cbn [links]. intros (p & Hp & Hlt & Hl). exists p. split_and!; [|done|auto].
  apply Hk; [|done]. intros ->. by destruct (Hc _ Hp) as (? & ? & ?).
Qed.

Lemma links_app h ret c rs1 rs2 : links h ret c (rs1 ++ rs2) ↔ ∃ mid, links h mid c rs1 ∧ links h ret mid rs2.
Proof.
  revert c. induction rs1 as [|[[[q e] mode] fd] rs1 IH]; intros c; cbn [app links]; [naive_solver|].
  split; [intros (p & ? & ? & (mid & ? & ?)%IH); eauto 10|]. intros (mid & (p & ? & ? & ?) & ?). exists p. rewrite IH. eauto.
Qed.

Lemma repr_mono h h' p t : keeps 0 h h' → repr h p t → repr h' p t.
Proof.
  intros Hk. revert p. induction t as [args|t IH [q e] mode fd|l IHl r IHr|l IHl r IHr|t IH]; intros p; cbn [repr].
  - intros H. apply Hk; [|done]. apply node_at_length in H. lia.
  - intros (p' & H & ? & ?). exists p'. split_and!; [|done|auto]. apply Hk; [|done]. apply node_at_length in H. lia.
  - intros (pl & pr & H & ? & ? & ? & ?). exists pl, pr. split_and!; [|auto..]. apply Hk; [|done]. apply node_at_length in H. lia.
  - intros (pl & pr & H & ? & ? & ? & ?). exists pl, pr. split_and!; [|auto..]. apply Hk; [|done]. apply node_at_length in H. lia.
  - intros (p' & H & ? & ?). exists p'. split_and!; [|done|auto]. apply Hk; [|done]. apply node_at_length in H. lia.
Qed.

Lemma repr_links h ret c rs t : repr h c t → links h ret c rs → repr h ret (wrap t rs).
Proof.
  revert c t. induction rs as [|[[[q e] mode] fd] rs IH]; intros c t Hr; cbn [links]; [by intros ->|].
  intros (p & Hp & Hlt & Hl). cbn [wrap foldl]. eapply IH; [|done]. cbn. exists c. done.
Qed.

Lemma repr_valid h p t : repr h p t → (0 < p <= length h)%nat.
Proof.
  intros H. assert (∃ n, node_at h p = Some n) as [n Hn] by (destruct t as [|? []| | |]; naive_solver).
  by eapply node_at_length.
Qed.

(** Filling in an argument. *)
Definition put_arg (argc : nat) (q e : Z) (n : node) : node :=
  match n with EXEC argv eargv => EXEC (<[argc := q]> argv) (<[argc := e]> eargv) | n => n end.

Lemma node_at_put c argc q e h p :
  c ≠ 0%nat → node_at (alter (put_arg argc q e) (pred c) h) p =
  if decide (p = c) then put_arg argc q e <$> node_at h p else node_at h p.
Proof.
  intros Hc. destruct c as [|i]; [done|]. destruct p as [|j]; [done|]. simpl. case_decide as E.
  - injection E as ->. apply list_lookup_alter_eq.
  - apply list_lookup_alter_ne. congruence.
Qed.

Lemma insert_pad {A : Type} (l : list A) k x y :
  (length l < k)%nat →
  <[length l := x]> (l ++ replicate (k - length l) y) = (l ++ [x]) ++ replicate (k - length (l ++ [x])) y.
Proof.
  intros Hl. rewrite length_app. cbn [length]. replace (k - length l)%nat with (S (k - (length l + 1)))%nat by lia.
  rewrite insert_app_r_alt, Nat.sub_diag by lia. simpl. by rewrite <-app_assoc.
Qed.

Lemma put_arg_exec args q e :
  (length args < MAXARGS)%nat → put_arg (length args) q e (exec_node args) = exec_node (args ++ [(q, e)]).
Proof.
  intros Hl. unfold exec_node. cbn [put_arg]. rewrite !fmap_app, !length_app. cbn [fmap list_fmap fst snd length].
  assert (∀ (l : list Z) x, length l = length args →
    <[length args := x]> (l ++ replicate (MAXARGS - length args) 0) = (l ++ [x]) ++ replicate (MAXARGS - (length args + 1)) 0) as Hi.
  { intros l x E. rewrite <-E in Hl |- *. by rewrite insert_pad, length_app by lia. }
  by rewrite !Hi by (by rewrite length_fmap).
Qed.

Lemma put_arg_zero args :
  (length args < MAXARGS)%nat → put_arg (length args) 0 0 (exec_node args) = exec_node args.
Proof.
  intros Hl. unfold exec_node. cbn [put_arg].
  assert (∀ l : list Z, length l = length args →
    <[length args := 0]> (l ++ replicate (MAXARGS - length args) 0) = l ++ replicate (MAXARGS - length args) 0) as Hz.
  { intros l E. rewrite <-E in Hl |- *. rewrite insert_pad by lia. rewrite length_app, <-app_assoc. cbn [length app].
    by replace (MAXARGS - length l)%nat with (S (MAXARGS - (length l + 1)))%nat by lia. }
  by rewrite !Hz by (by rewrite length_fmap).
Qed.
End heap.
