(* ===== verification/ShParse.v ===== *)
(** * The shell's parser computes the grammar

    The parser of sh.c, which works on positions in a buffer and on nodes of a heap,
    is shown to do what the parser on tokens of [ShSpec] does: to return a command
    for the lines of the grammar and to print the message and exit for the others. *)

From stdpp Require Import base list gmap strings.
From Stdlib Require Import ZArith Lia.
From S2P Require Import Prelude KState CString Cprintf User Sh ShSpec.
Import Sh.

Arguments Parsed {W A} a rest.
Arguments Died {W A} msg.
Arguments Fuel {W A}.

(** ** How tokens are written

    Spaces may stand before every token and at the end; a word goes on as long as it
    can, and so does an append symbol. *)

Definition spaces (l : list Z) : Prop := Forall (λ c, c ∈ whitespace) l.

Inductive spells : list (tk (list Z)) → list Z → Prop :=
  | spells_nil sp : spaces sp → spells [] sp
  | spells_word sp w ts l :
      spaces sp → w ≠ [] → Forall (λ c, word_char c = true) w → word_char (default 0 (head l)) = false →
      spells ts l → spells (Word w :: ts) (sp ++ w ++ l)
  | spells_sym sp c ts l :
      spaces sp → c ∈ symbols → (c = 62 → head l ≠ Some 62) → spells ts l → spells (Sym c :: ts) (sp ++ c :: l)
  | spells_append sp ts l : spaces sp → spells ts l → spells (Sym 43 :: ts) (sp ++ 62 :: 62 :: l).

Definition text_of (m : mem) (w : Z * Z) : list Z := read_array w.1 (Z.to_nat (w.2 - w.1)) m.

Lemma span_list (f : Z → bool) (l : list Z) :
  ∃ l1 l2, l = l1 ++ l2 ∧ Forall (λ c, f c = true) l1 ∧ (∀ c l', l2 = c :: l' → f c = false).
Proof.
  induction l as [|c l (l1 & l2 & -> & H1 & H2)]; [exists [], []; naive_solver|].
  destruct (f c) eqn:Hc; [exists (c :: l1), l2|exists [], (c :: l1 ++ l2)]; naive_solver.
Qed.

Lemma word_char_facts c : word_char c = true ↔ ((c ≠ 0) ∧ (c ∉ whitespace) ∧ (c ∉ symbols)).
Proof. unfold word_char, one_of. rewrite !andb_true_iff, !negb_true_iff, !bool_decide_eq_false. naive_solver. Qed.

(** Every text is a sequence of tokens. *)
Lemma spells_total l : 0 ∉ l → ∃ ts, spells ts l.
Proof.
  remember (length l) as n eqn:Hn. revert l Hn. induction n as [n IH] using lt_wf_ind; intros l -> H0.
  destruct (span_list (one_of whitespace) l) as (sp & l2 & -> & Hsp & Hl2).
  assert (spaces sp) as Hsp' by (eapply Forall_impl; [exact Hsp|]; intros c; apply bool_decide_eq_true_1).
  destruct l2 as [|c l2]; [exists []; rewrite app_nil_r; by constructor|].
  specialize (Hl2 c l2 eq_refl). apply bool_decide_eq_false in Hl2.
  destruct (word_char c) eqn:Hc.
  - destruct (span_list word_char l2) as (w & l3 & -> & Hw & Hl3).
    destruct (IH (length l3)) with (l := l3) as [ts Hts]; [rewrite !length_app; simpl; rewrite length_app; lia|done|set_solver|].
    exists (Word (c :: w) :: ts). apply (spells_word sp (c :: w)); [done..|by constructor| |done].
    destruct l3 as [|d l3]; [done|]. by apply (Hl3 d l3).
  - assert (c ∈ symbols) as Hs.
    { destruct (decide (c ∈ symbols)); [done|]. assert (word_char c = true) by (apply word_char_facts; set_solver). congruence. }
    destruct (decide (c = 62 ∧ head l2 = Some 62)) as [[-> Hh]|Hn62].
    + destruct l2 as [|d l2]; [done|]. injection Hh as ->.
      destruct (IH (length l2)) with (l := l2) as [ts Hts]; [rewrite length_app; simpl; lia|done|set_solver|].
      exists (Sym 43 :: ts). by apply spells_append.
    + destruct (IH (length l2)) with (l := l2) as [ts Hts]; [rewrite length_app; simpl; lia|done|set_solver|].
      exists (Sym c :: ts). apply spells_sym; [done..|naive_solver|done].
Qed.

Section spelling.
Context (m : mem) (s0 es : Z).
Hypothesis text_end : m es = 0.
Hypothesis text_inside : ∀ a, s0 <= a < es → m a ≠ 0.

Lemma span_exact f s n :
  s + Z.of_nat n <= es → (∀ i, (i < n)%nat → f (m (s + Z.of_nat i)) = true) →
  s + Z.of_nat n = es ∨ f (m (s + Z.of_nat n)) = false → span f m s es = s + Z.of_nat n.
Proof.
  intros Hs Hi Hn. destruct (span_spec m es f s) as (H1 & H2 & H3); [lia|]. set (e := span f m s es) in *.
  destruct (decide (e < s + Z.of_nat n)) as [Hlt|Hge].
  - specialize (Hi (Z.to_nat (e - s)) ltac:(lia)). replace (s + Z.of_nat (Z.to_nat (e - s))) with e in Hi by lia.
    destruct H3; [lia|congruence].
  - destruct (decide (e = s + Z.of_nat n)); [done|]. destruct Hn as [Hn|Hn]; [lia|]. rewrite H2 in Hn by lia. done.
Qed.

Lemma cstr_prefix s l1 l2 i : cstr m s (l1 ++ l2) → (i < length l1)%nat → m (s + Z.of_nat i) = l1 !!! i.
Proof.
  intros Hc Hi. destruct (cstr_lookup _ _ _ i Hc) as [-> _]; [rewrite length_app; lia|]. by apply lookup_total_app_l.
Qed.

Lemma skip_exact s sp l :
  spaces sp → cstr m s (sp ++ l) → s + Z.of_nat (length sp) <= es → default 0 (head l) ∉ whitespace →
  skip m s es = s + Z.of_nat (length sp).
Proof.
  intros Hsp Hc He Hl. apply span_exact; [done| |].
  - intros i Hi. rewrite (cstr_prefix s sp l) by done. apply bool_decide_eq_true_2.
    unfold spaces in Hsp. rewrite Forall_forall in Hsp. by apply Hsp, list_elem_of_lookup_total_2.
  - right. apply cstr_app_inv, cstr_head in Hc. rewrite Hc. by apply bool_decide_eq_false_2.
Qed.

Lemma read_array_prefix q w l : cstr m q (w ++ l) → read_array q (length w) m = w.
Proof.
  intros Hc. apply list_eq_same_length with (length w); [done|unfold read_array; by rewrite length_fmap, length_seq|].
  intros i x y Hi Hx Hy. unfold read_array in Hx. rewrite list_lookup_fmap, lookup_seq_lt in Hx by lia.
  injection Hx as <-. rewrite (cstr_prefix q w l) by done. by apply list_lookup_total_correct.
Qed.

(** The three kinds of tokens, after the spaces [sp]. *)
Lemma gettoken_word s sp w l :
  spaces sp → w ≠ [] → Forall (λ c, word_char c = true) w → word_char (default 0 (head l)) = false →
  s0 <= s → cstr m s (sp ++ w ++ l) → es = s + Z.of_nat (length (sp ++ w ++ l)) →
  let q := s + Z.of_nat (length sp) in
  let e := q + Z.of_nat (length w) in
  gettoken m s es = Token 97 q e (skip m e es) ∧ cstr m q (w ++ l) ∧ cstr m e l.
Proof.
  intros Hsp Hne Hw Hl Hs Hst He q e. rewrite !length_app in He.
  pose proof (cstr_app_inv _ _ _ _ Hst) as Hq. fold q in Hq. pose proof (cstr_app_inv _ _ _ _ Hq) as Hce. fold e in Hce.
  split; [|done]. assert (∀ i, (i < length w)%nat → word_char (m (q + Z.of_nat i)) = true) as Hwi.
  { intros i Hi. rewrite (cstr_prefix q w l) by done. rewrite Forall_forall in Hw. by apply Hw, list_elem_of_lookup_total_2. }
  destruct w as [|c w]; [done|]. pose proof (Hwi 0%nat ltac:(simpl; lia)) as Hc. rewrite Z.add_0_r in Hc.
  apply word_char_facts in Hc as (Hc0 & Hcw & Hcs). assert (m q = c) as Hqc by (by apply cstr_head in Hq).
  unfold gettoken. rewrite (skip_exact s sp ((c :: w) ++ l)) by (done || lia || (simpl; congruence)). fold q.
  rewrite decide_False, decide_False, decide_False; [|intros E; apply Hcs; rewrite E; unfold symbols; cbn; set_solver|
    intros E; apply Hcs; revert E; unfold symbols; cbn; set_solver|done].
  rewrite (span_exact _ q (length (c :: w))); [done|unfold q; lia|..].
  - intros i Hi. specialize (Hwi i Hi). apply word_char_facts in Hwi as (_ & ? & ?). unfold one_of. by rewrite !bool_decide_eq_false_2.
  - fold e. apply cstr_head in Hce. rewrite <-Hce in Hl. destruct (decide (e = es)); [by left|right].
    assert (m e ≠ 0) as Hne' by (apply text_inside; unfold e, q in *; lia).
    unfold word_char in Hl. by rewrite (bool_decide_eq_false_2 (m e = 0)) in Hl by done.
Qed.

Lemma gettoken_sym s sp c l :
  spaces sp → c ∈ symbols → (c = 62 → head l ≠ Some 62) → cstr m s (sp ++ c :: l) → es = s + Z.of_nat (length (sp ++ c :: l)) →
  let q := s + Z.of_nat (length sp) in
  gettoken m s es = Token c q (q + 1) (skip m (q + 1) es) ∧ cstr m (q + 1) l ∧ c ≠ 97 ∧ c ≠ 0.
Proof.
  intros Hsp Hc Hgt Hst He q. rewrite length_app in He.
  pose proof (cstr_app_inv _ _ _ _ Hst) as Hq. fold q in Hq. cbn [cstr] in Hq. destruct Hq as (Hqc & Hc0 & Hce).
  assert (c = 60 ∨ c = 124 ∨ c = 62 ∨ c = 38 ∨ c = 59 ∨ c = 40 ∨ c = 41) as Hcc by (revert Hc; unfold symbols; cbn; set_solver).
  split; [|split; [done|lia]]. unfold gettoken.
  rewrite (skip_exact s sp (c :: l)) by (done || lia || (simpl; unfold whitespace; set_solver by lia)). fold q.
  rewrite Hqc, decide_False by done. destruct (decide (c = 62)) as [->|Hn62].
  - rewrite decide_False by (cbn; set_solver by lia). apply cstr_head in Hce. specialize (Hgt eq_refl).
    rewrite decide_False; [done|]. rewrite Hce. destruct l; simpl in *; [done|congruence].
  - rewrite decide_True; [done|]. cbn. set_solver.
Qed.

Lemma gettoken_append s sp l :
  spaces sp → cstr m s (sp ++ 62 :: 62 :: l) → es = s + Z.of_nat (length (sp ++ 62 :: 62 :: l)) →
  let q := s + Z.of_nat (length sp) in
  gettoken m s es = Token 43 q (q + 2) (skip m (q + 2) es) ∧ cstr m (q + 2) l.
Proof.
  intros Hsp Hst He q. rewrite length_app in He.
  pose proof (cstr_app_inv _ _ _ _ Hst) as Hq. fold q in Hq. cbn [cstr] in Hq. destruct Hq as (Hqc & _ & Hqc' & _ & Hce).
  replace (q + 1 + 1) with (q + 2) in Hce by lia. split; [|done]. unfold gettoken.
  rewrite (skip_exact s sp (62 :: 62 :: l)) by (done || lia || (simpl; unfold whitespace; set_solver by lia)). fold q.
  rewrite Hqc, decide_False by done. rewrite decide_False by (cbn; set_solver by lia). by rewrite decide_True, decide_True by done.
Qed.

Lemma stream_add s k ts : s0 <= s <= es → t_ret (gettoken m s es) ≠ 0 → tk_of (gettoken m s es) = k →
  t_s (gettoken m s es) = skip m (t_eq (gettoken m s es)) es → stream m s0 es (t_eq (gettoken m s es)) ts →
  stream m s0 es s (k :: ts).
Proof. intros Hs Hr <- Ht Hst. constructor; [done..|]. rewrite Ht. by apply stream_skip. Qed.

(** The tokens of a text are found at its address. *)
Lemma spells_stream ts l : spells ts l → ∀ s,
  s0 <= s → cstr m s l → es = s + Z.of_nat (length l) →
  ∃ ts', stream m s0 es s ts' ∧ tk_map (text_of m) <$> ts' = ts.
Proof.
  assert (0 ∉ whitespace) as Hw0 by (unfold whitespace; set_solver by lia).
  induction 1 as [sp Hsp|sp w ts l Hsp Hne Hw Hl H IH|sp c ts l Hsp Hc Hgt H IH|sp ts l Hsp H IH]; intros s Hs Hst He.
  - exists []. split; [|done]. constructor; [lia|]. rewrite <-(app_nil_r sp) in Hst. unfold gettoken.
    rewrite (skip_exact s sp []) by (done || lia). rewrite decide_True by (rewrite <-He; done). cbn. rewrite <-He. done.
  - destruct (gettoken_word s sp w l) as (Hg & Hq & Hce); try done. rewrite !length_app in He.
    set (q := s + Z.of_nat (length sp)) in *. set (e := q + Z.of_nat (length w)) in *.
    destruct (IH e) as (ts' & Hts & Hmap); [unfold e, q; lia|done|unfold e, q; lia|].
    exists (Word (q, e) :: ts'). split; [by apply stream_add; rewrite ?Hg; [lia|..]|].
    rewrite fmap_cons, Hmap. cbn [tk_map]. unfold text_of. cbn [fst snd].
    replace (Z.to_nat (e - q)) with (length w) by (unfold e; lia). by rewrite (read_array_prefix q w l).
  - destruct (gettoken_sym s sp c l) as (Hg & Hce & H97 & H0); try done. rewrite length_app in He. cbn [length] in He.
    set (q := s + Z.of_nat (length sp)) in *. destruct (IH (q + 1)) as (ts' & Hts & Hmap); [unfold q; lia|done|unfold q; lia|].
    exists (Sym c :: ts'). split; [|by rewrite fmap_cons, Hmap].
    apply stream_add; rewrite ?Hg; [lia|done| |done|done]. unfold tk_of. by rewrite decide_False.
  - destruct (gettoken_append s sp l) as (Hg & Hce); try done. rewrite length_app in He. cbn [length] in He.
    set (q := s + Z.of_nat (length sp)) in *. destruct (IH (q + 2)) as (ts' & Hts & Hmap); [unfold q; lia|done|unfold q; lia|].
    exists (Sym 43 :: ts'). split; [|by rewrite fmap_cons, Hmap]. by apply stream_add; rewrite ?Hg; [lia|..].
Qed.
End spelling.

Section simulation.
Context (m : mem) (s0 es : Z).
Hypothesis text_end : m es = 0.
Hypothesis text_inside : ∀ a, s0 <= a < es → m a ≠ 0.
Hypothesis text_not_null : 0 < s0.

Local Abbreviation word := (Z * Z)%type.
Local Abbreviation at_ := (stream m s0 es).
Implicit Types (h : list node) (ts rest : list (tk word)) (cmd ret : nat).

(** The program [p] does what the result [r] of the parser on tokens says: it
    returns the rest of the text and something related by [Q], or it dies. *)
Definition sim {A B : Type} (p : prog ((A * Z) * shell)) (r : parsed (W := word) B) (Q : B → A → list node → Prop) : Prop :=
  match r with
  | Parsed b rest => ∃ a s h, p = Done ((a, s), Shell m h) ∧ at_ s rest ∧ Q b a h
  | Died msg => dies (line msg) p
  | Fuel => True
  end.

Lemma sim_bind {A B A' B' : Type} (p : U shell (A * Z)) (k : A * Z → U shell (A' * Z)) st
    (r : parsed (W := word) B) (f : B → list (tk word) → parsed (W := word) B') Q R :
  sim (p st) r Q → (∀ b rest a s h, at_ s rest → Q b a h → sim (k (a, s) (Shell m h)) (f b rest) R) →
  sim ((p ≫= k) st) (pbind r f) R.
Proof.
  intros Hp Hk. unfold mbind, U_bind. destruct r as [b rest|msg|]; cbn [sim pbind] in *; [|by apply dies_bind|done].
  destruct Hp as (a & s & h & -> & Hs & HQ). by apply Hk.
Qed.

Lemma sim_mono {A B : Type} (p : prog ((A * Z) * shell)) (r : parsed (W := word) B) (Q R : B → A → list node → Prop) :
  sim p r Q → (∀ b a h, Q b a h → R b a h) → sim p r R.
Proof. intros Hp HQ. destruct r; cbn in *; [|done..]. destruct Hp as (a' & s & h & ? & ? & ?). eauto 10. Qed.

Lemma sim_panic {A B : Type} msg st (Q : B → A → list node → Prop) :
  sim ((panic msg : U shell (A * Z)) st) (Died msg) Q.
Proof. apply dies_panic. Qed.

Lemma sim_ret {A B : Type} (a : A) (b : B) s h rest (Q : B → A → list node → Prop) :
  at_ s rest → Q b a h → sim ((mret (a, s) : U shell (A * Z)) (Shell m h)) (Parsed b rest) Q.
Proof. intros Hs HQ. by exists a, s, h. Qed.

(** Looking at the next token, and reading it. *)
Lemma next_is_bind {A : Type} s ts toks (k : Z * bool → U shell A) h :
  at_ s ts → chars toks ⊆ symbols →
  (next_is s es toks ≫= k) (Shell m h) = k (skip m s es, next_sym (chars toks) ts) (Shell m h).
Proof.
  intros Hs Ht. change ((next_is s es toks ≫= k) (Shell m h)) with (k (peek m s es (chars toks)) (Shell m h)).
  by rewrite (peek_stream m s0 es text_end text_inside s ts).
Qed.

Lemma tok_bind {A : Type} s (k : token → U shell A) h :
  (tok s es ≫= k) (Shell m h) = k (gettoken m s es) (Shell m h).
Proof. done. Qed.

Lemma alloc_bind {A : Type} n (k : nat → U shell A) h :
  (alloc n ≫= k) (Shell m h) = k (S (length h)) (Shell m (h ++ [n])).
Proof. done. Qed.

Lemma tk_of_Sym t c : tk_of t = Sym c → t_ret t = c ∧ c ≠ 97.
Proof. unfold tk_of. case_decide; naive_solver. Qed.

Lemma tk_of_Word t w : tk_of t = Word w → t_ret t = 97 ∧ w = (t_q t, t_eq t).
Proof. unfold tk_of. case_decide; naive_solver. Qed.

(** The symbols that are read are symbols. *)
Lemma sym_in s c ts : at_ s (Sym c :: ts) → c = 43 ∨ c ∈ symbols ∧ c ≠ 43.
Proof.
  intros H. inversion H as [|s1 ts1 Hs Hr Hst Es E]; subst. apply tk_of_Sym in E as [<- H97].
  destruct (gettoken_spec m s0 es text_end text_inside s Hs) as (_ & _ & _ & [(? & _)|[(? & _)|(_ & _ & _ & Hsy & [[-> ?]|[? _]])]]); auto; done.
Qed.

Lemma next_redir s ts : at_ s ts → next_sym (chars "<>") ts = match ts with Sym c :: _ => is_redir c | _ => false end.
Proof.
  intros Hs. destruct ts as [|[w|c] ts]; [done..|]. cbn [next_sym]. apply sym_in in Hs. unfold one_of, is_redir, sym_char.
  apply bool_decide_ext. cbn. case_decide; set_solver by lia.
Qed.

(** The token at a position, whether or not spaces were skipped. *)
Lemma at_cons s tk ts :
  at_ s (tk :: ts) →
  gettoken m (skip m s es) es = gettoken m s es ∧ tk_of (gettoken m s es) = tk ∧
  t_ret (gettoken m s es) ≠ 0 ∧ at_ (t_s (gettoken m s es)) ts.
Proof. intros H. inversion H; subst. split; [by apply gettoken_skip; [|lia]|done]. Qed.

Lemma at_skip s ts : at_ s ts → at_ (skip m s es) ts.
Proof. by apply stream_skip. Qed.

Lemma at_not_word s ts : at_ s ts → (∀ w ts', ts ≠ Word w :: ts') → t_ret (gettoken m s es) ≠ 97.
Proof.
  intros H Hn. inversion H as [s1 Hs Hr|s1 ts1 Hs Hr Hst]; subst; [lia|].
  unfold tk_of in Hn. case_decide; [|done]. by destruct (Hn (t_q (gettoken m s es), t_eq (gettoken m s es)) ts1).
Qed.

Definition valid cmd h : Prop := (0 < cmd <= length h)%nat.

(** A new node around [cmd]. *)
Lemma alloc_keeps h n : keeps 0 h (h ++ [n]) ∧ valid (S (length h)) (h ++ [n]).
Proof. split; [apply keeps_app|]. unfold valid. rewrite length_app. simpl. lia. Qed.

Lemma parseredirs_sim n : ∀ cmd s ts h,
  at_ s ts → valid cmd h →
  sim (parseredirs n cmd s es (Shell m h)) (p_redirs n ts)
    (λ rs ret h', keeps 0 h h' ∧ links h' ret cmd rs ∧ valid ret h').
Proof.
  induction n as [|n IH]; intros cmd s ts h Hs Hc; cbn [parseredirs]; rewrite (next_is_bind s ts) by (done || set_solver by lia);
    rewrite (next_redir s) by done; (destruct ts as [|[w|c] ts]; cbn [p_redirs];
      [apply sim_ret; [by apply at_skip|split_and!; [by intros ?|done|done]]..|]);
    (destruct (is_redir c) eqn:Hred;
      [|apply sim_ret; [by apply at_skip|split_and!; [by intros ?|done|done]]]);
    rewrite !tok_bind; destruct (at_cons s (Sym c) ts Hs) as (-> & Htk & _ & Hs'); set (t := gettoken m s es) in *;
    apply tk_of_Sym in Htk as [Hrt _];
    (destruct ts as [|[[q e]|d] ts]; [rewrite decide_True by (by eapply at_not_word); apply sim_panic| |
       rewrite decide_True by (by eapply at_not_word); apply sim_panic]);
    destruct (at_cons _ _ _ Hs') as (_ & Htk & _ & Hs''); apply tk_of_Word in Htk as [H97 Hw];
    rewrite decide_False by naive_solver; [done|].
  injection Hw as -> ->. set (w := gettoken m (t_s t) es) in *.
  set (new := REDIR cmd (t_q w) (t_eq w) (redir_of c w).1.2 (redir_of c w).2).
  match goal with |- sim ((?mm ≫= ?kk) _) _ _ => assert (∀ st, mm st = alloc new st) as Hm end.
  { intros st. rewrite Hrt. unfold new, redir_of. apply is_redir_elem in Hred. unfold redir_syms in Hred.
    destruct (decide (c = 60)) as [->|]; [done|]. destruct (decide (c = 62)) as [->|]; [done|].
    rewrite decide_True; [done|]. set_solver. }
  unfold mbind, U_bind. rewrite Hm. cbn [alloc prog_bind fst snd sh_mem sh_heap].
  destruct (alloc_keeps h new) as [Hk Hv].
  pose proof (IH (S (length h)) (t_s w) ts (h ++ [new]) Hs'' Hv) as Hsim.
  destruct (p_redirs n ts) as [rs rest|msg|]; cbn [sim pbind] in *; [|done..].
  destruct Hsim as (ret & s' & h' & -> & Hr & Hk' & Hl & Hv'). exists ret, s', h'. split_and!; [done|done|by eapply keeps_trans| |done].
  assert (node_at h' (S (length h)) = Some new) as Hnew by (apply Hk'; [lia|apply node_at_new]).
  unfold new, redir_of in *. destruct (decide (c = 60)); (exists (S (length h)); split; [done|split; [unfold valid in *; lia|done]]).
Qed.

Lemma set_arg_bind {A : Type} cmd argc q e (k : unit → U shell A) h :
  (set_arg cmd argc q e ≫= k) (Shell m h) = k tt (Shell m (alter (put_arg argc q e) (pred cmd) h)).
Proof. done. Qed.

Lemma set_arg_exec cmd h args q e :
  node_at h cmd = Some (exec_node args) → (length args < MAXARGS)%nat →
  let h' := alter (put_arg (length args) q e) (pred cmd) h in
  node_at h' cmd = Some (exec_node (args ++ [(q, e)])) ∧ keeps cmd h h' ∧ length h' = length h.
Proof.
  intros Hn Hl h'. pose proof (node_at_length _ _ _ Hn). unfold h'. split_and!.
  - rewrite node_at_put, decide_True, Hn by (done || lia). cbn [fmap option_fmap option_map]. by rewrite put_arg_exec.
  - intros p n Hp. by rewrite node_at_put, decide_False by (done || lia).
  - apply length_alter.
Qed.

Lemma exec_node_EXEC h cmd args : node_at h cmd = Some (exec_node args) → ∀ n, node_at h cmd = Some n → ∃ a e, n = EXEC a e.
Proof. intros -> n [= <-]. unfold exec_node. eauto. Qed.

Lemma next_stop s c ts : at_ s (Sym c :: ts) → one_of (chars "|)&;") (sym_char c) = bool_decide (c ∈ chars "|)&;").
Proof.
  intros Hs. apply sym_in in Hs. unfold one_of, sym_char. apply bool_decide_ext. case_decide; [subst|done]. cbn. set_solver by lia.
Qed.

Lemma parseargs_sim n k : ∀ cmd ret s ts h args0 rs0,
  at_ s ts → node_at h cmd = Some (exec_node args0) → (length args0 < MAXARGS)%nat → links h ret cmd rs0 → valid ret h →
  sim (parseargs n k cmd ret (length args0) s es (Shell m h)) (p_args n k (length args0) ts)
    (λ p r h', keeps cmd h h' ∧ node_at h' cmd = Some (exec_node (args0 ++ p.1)) ∧ links h' r.1 cmd (rs0 ++ p.2) ∧
       valid r.1 h' ∧ r.2 = length (args0 ++ p.1) ∧ (r.2 < MAXARGS)%nat).
Proof.
  induction k as [|k IH]; intros cmd ret s ts h args0 rs0 Hs Hn Hl Hlk Hv; cbn [parseargs];
    rewrite (next_is_bind s ts) by (done || (cbn; set_solver by lia));
    (destruct ts as [|[[q e]|c] ts]; cbn [next_sym p_args];
     [rewrite tok_bind; destruct (tok_end m s0 es text_end text_inside s Hs) as [Hr0 Hend]; rewrite decide_True by done;
      apply sim_ret; [done|]; rewrite !app_nil_r; split_and!; [by intros ?|done..]
     |
     |rewrite (next_stop s c ts) by done; case_bool_decide;
      [apply sim_ret; [by apply at_skip|]; rewrite !app_nil_r; split_and!; [by intros ?|done..]
      |rewrite tok_bind; destruct (at_cons _ _ _ Hs) as (-> & [Hrt H97]%tk_of_Sym & Hr0 & _);
       rewrite decide_False, decide_True by congruence; apply sim_panic]]);
    rewrite tok_bind; destruct (at_cons _ _ _ Hs) as (-> & [H97 Hw]%tk_of_Word & Hr0 & Hs'); injection Hw as -> ->;
    set (t := gettoken m s es) in *; rewrite decide_False, decide_False by naive_solver;
    rewrite set_arg_bind; (case_decide; [apply sim_panic|]);
    destruct (set_arg_exec cmd h args0 (t_q t) (t_eq t) Hn Hl) as (Hn' & Hk' & Hlen);
    set (h1 := alter _ _ h) in *;
    (eapply sim_bind; [apply parseredirs_sim; [done|unfold valid; rewrite Hlen; exact Hv]|]);
    intros rs1 rest ret1 s1 h2 Hs1 (Hk2 & Hl2 & Hv2); [done|].
  assert (node_at h2 cmd = Some (exec_node (args0 ++ [(t_q t, t_eq t)]))) as Hn2.
  { apply Hk2; [|done]. apply node_at_length in Hn. lia. }
  assert (links h2 ret1 cmd (rs0 ++ rs1)) as Hlk2.
  { apply links_app. exists ret. split; [|done]. eapply links_mono; [by eapply keeps_0|by eapply exec_node_EXEC|].
    eapply links_mono; [done|by eapply exec_node_EXEC|done]. }
  assert (length (args0 ++ [(t_q t, t_eq t)]) = S (length args0)) as El by (rewrite length_app; simpl; lia).
  pose proof (IH cmd ret1 s1 rest h2 (args0 ++ [(t_q t, t_eq t)]) (rs0 ++ rs1) Hs1 Hn2 ltac:(lia) Hlk2 Hv2) as Hsim.
  rewrite El in Hsim. destruct (p_args n k (S (length args0)) rest) as [[args rs] rest'|msg|]; cbn [sim pbind] in *; [|done..].
  destruct Hsim as (r & s' & h' & -> & Hr & Hk3 & Hn3 & Hl3 & Hv3 & Hr3 & Hm). exists r, s', h'. cbn [fst snd] in *.
  rewrite <-app_assoc in Hn3, Hr3, Hl3. split_and!; try done.
  eapply keeps_trans; [done|]. by eapply keeps_trans; [eapply keeps_0|].
Qed.

Lemma next_one s c ts :
  at_ s ts → c ≠ 43 → c ≠ 62 → next_sym [c] ts = match after c ts with Some _ => true | None => false end.
Proof.
  intros _ H1 H2. unfold next_sym, after. destruct ts as [|[w|d] ts]; [done..|]. unfold one_of, sym_char.
  destruct (decide (d = c)) as [->|]; [rewrite bool_decide_eq_true_2; [done|]|rewrite bool_decide_eq_false_2; [done|]];
    case_decide; set_solver by lia.
Qed.

Lemma read_sym s c ts ts' : at_ s ts → after c ts = Some ts' → at_ (t_s (gettoken m (skip m s es) es)) ts'.
Proof. intros Hs ->%after_Some. by destruct (at_cons _ _ _ Hs) as (-> & _ & _ & ?). Qed.

(** What a routine that parses a command promises. *)
Definition parses (p : prog ((nat * Z) * shell)) (r : parsed (W := word) (cmd word)) h : Prop :=
  sim p r (λ t c h', keeps 0 h h' ∧ repr h' c t).

Section open.
Context (n : nat) (pl : Z → Z → U shell (nat * Z)) (ppl : list (tk word) → parsed (W := word) (cmd word)).
Hypothesis Hpl : ∀ s ts h, at_ s ts → parses (pl s es (Shell m h)) (ppl ts) h.

Lemma parseblock_sim s ts ts' h :
  at_ s ts → after 40 ts = Some ts' → parses (parseblock n pl s es (Shell m h)) (p_exec n ppl ts) h.
Proof.
  intros Hs Ha. unfold parseblock, p_exec. rewrite Ha.
  rewrite (next_is_bind s ts) by (done || (cbn; set_solver by lia)).
  change (chars "(") with [40]. rewrite (next_one s) by done. rewrite Ha. cbn [negb]. rewrite tok_bind.
  eapply sim_bind; [apply Hpl; by eapply read_sym|]. intros t ts1 c s1 h1 Hs1 (Hk1 & Hr1).
  rewrite (next_is_bind s1 ts1) by (done || (cbn; set_solver by lia)).
  change (chars ")") with [41]. rewrite (next_one s1) by done.
  destruct (after 41 ts1) as [ts2|] eqn:Hb; cbn [negb]; [|apply sim_panic]. rewrite tok_bind.
  pose proof (parseredirs_sim n c _ ts2 h1 (read_sym _ _ _ _ Hs1 Hb) (repr_valid _ _ _ Hr1)) as Hsim.
  destruct (p_redirs n ts2) as [rs rest|msg|]; cbn [sim pbind] in *; [|done..].
  destruct Hsim as (ret & s' & h' & -> & Hr & Hk' & Hl & Hv'). exists ret, s', h'. split_and!; [done|done|by eapply keeps_trans|].
  eapply repr_links; [|done]. by eapply repr_mono.
Qed.

Lemma parseexec_sim s ts h : at_ s ts → parses (parseexec n pl s es (Shell m h)) (p_exec n ppl ts) h.
Proof.
  intros Hs. unfold parseexec. rewrite (next_is_bind s ts) by (done || (cbn; set_solver by lia)).
  change (chars "(") with [40]. rewrite (next_one s) by done.
  destruct (after 40 ts) as [ts'|] eqn:Ha; [by eapply parseblock_sim; [apply at_skip|]|].
  unfold p_exec. rewrite Ha. unfold execcmd. rewrite alloc_bind. set (c := S (length h)).
  change (EXEC (replicate MAXARGS 0) (replicate MAXARGS 0)) with (exec_node []).
  destruct (alloc_keeps h (exec_node [])) as [Hk0 Hv0]. fold c in Hv0.
  eapply sim_bind; [apply parseredirs_sim; [by apply at_skip|done]|].
  intros rs0 ts1 ret1 s1 h1 Hs1 (Hk1 & Hl1 & Hv1).
  assert (node_at h1 c = Some (exec_node [])) as Hn1 by (apply Hk1; [done|apply node_at_new]).
  eapply sim_bind; [apply (parseargs_sim n n c ret1 s1 ts1 h1 [] rs0); try done; unfold MAXARGS; simpl; lia|].
  intros [args rs] rest [ret argc] s' h2 Hs' (Hk2 & Hn2 & Hl2 & Hv2 & Hargc & Hm). cbn [fst snd app] in *.
  rewrite set_arg_bind, Hargc in *. set (h3 := alter _ _ h2).
  assert (node_at h3 c = Some (exec_node args)) as Hn3.
  { unfold h3. rewrite node_at_put, decide_True, Hn2 by done. cbn [fmap option_fmap option_map]. by rewrite put_arg_zero. }
  assert (keeps c h2 h3) as Hk3.
  { intros p nd Hp. unfold h3. by rewrite node_at_put, decide_False. }
  apply sim_ret; [done|]. split.
  - intros p nd _ Hp. pose proof (node_at_length _ _ _ Hp). apply Hk3; [lia|]. apply Hk2; [lia|]. apply Hk1; [lia|]. by apply node_at_app.
  - eapply repr_links; [exact Hn3|]. eapply links_mono; [exact Hk3|by eapply exec_node_EXEC|done].
Qed.

(** Combining two commands in a new node. *)
Lemma repr_pair h h1 h2 c1 t1 c2 t2 (pair : nat → nat → node) t :
  (pair = PIPE ∧ t = Pipe t1 t2 ∨ pair = LIST ∧ t = Then t1 t2) →
  keeps 0 h h1 → repr h1 c1 t1 → keeps 0 h1 h2 → repr h2 c2 t2 →
  keeps 0 h (h2 ++ [pair c1 c2]) ∧ repr (h2 ++ [pair c1 c2]) (S (length h2)) t.
Proof.
  intros Ht Hk1 Hr1 Hk2 Hr2. pose proof (keeps_app 0 h2 [pair c1 c2]) as Hk3.
  assert (repr h2 c1 t1) as Hr1' by (by eapply repr_mono). pose proof (repr_valid _ _ _ Hr1'). pose proof (repr_valid _ _ _ Hr2).
  split; [by eapply keeps_trans; [eapply keeps_trans|]|].
  destruct Ht as [[-> ->]|[-> ->]]; (exists c1, c2; split_and!; [apply node_at_new|lia|lia|by eapply repr_mono..]).
Qed.

Lemma parsepipe_sim k : ∀ s ts h, at_ s ts → parses (parsepipe n pl k s es (Shell m h)) (p_pipe n ppl k ts) h.
Proof.
  induction k as [|k IH]; intros s ts h Hs; cbn [parsepipe p_pipe];
    (eapply sim_bind; [by apply parseexec_sim|]); intros t1 ts1 c1 s1 h1 Hs1 (Hk1 & Hr1);
    rewrite (next_is_bind s1 ts1) by (done || (cbn; set_solver by lia));
    change (chars "|") with [124]; rewrite (next_one s1) by done;
    (destruct (after 124 ts1) as [ts2|] eqn:Ha; [|by apply sim_ret; [apply at_skip|]]); rewrite tok_bind; [done|].
  eapply sim_bind; [apply IH; by eapply read_sym|]. intros t2 ts3 c2 s2 h2 Hs2 (Hk2 & Hr2).
  unfold pipecmd. rewrite alloc_bind. apply sim_ret; [done|]. eapply repr_pair; eauto.
Qed.
End open.

Lemma parseback_sim k : ∀ c t s ts h,
  at_ s ts → repr h c t → parses (parseback k c s es (Shell m h)) (p_back k t ts) h.
Proof.
  induction k as [|k IH]; intros c t s ts h Hs Hr; cbn [parseback p_back];
    rewrite (next_is_bind s ts) by (done || (cbn; set_solver by lia));
    change (chars "&") with [38]; rewrite (next_one s) by done;
    (destruct (after 38 ts) as [ts1|] eqn:Ha; [|apply sim_ret; [by apply at_skip|split; [by intros ?|done]]]); [done|].
  rewrite tok_bind. unfold backcmd. rewrite alloc_bind. pose proof (keeps_app 0 h [BACK c]) as Hk.
  eapply sim_mono; [eapply IH; [by eapply read_sym|]|].
  - exists c. split; [apply node_at_new|]. pose proof (repr_valid _ _ _ Hr). split; [lia|]. by eapply repr_mono.
  - intros t' c' h' [Hk' Hr']. split; [by eapply keeps_trans|done].
Qed.

Lemma parseline_sim n k : ∀ s ts h, at_ s ts → parses (parseline n k s es (Shell m h)) (p_line n k ts) h.
Proof.
  induction k as [|k IH]; intros s ts h Hs; cbn [parseline p_line]; [done|].
  eapply sim_bind; [by apply parsepipe_sim|]. intros t1 ts1 c1 s1 h1 Hs1 (Hk1 & Hr1).
  eapply sim_bind; [by apply parseback_sim|]. intros t2 ts2 c2 s2 h2 Hs2 (Hk2 & Hr2).
  rewrite (next_is_bind s2 ts2) by (done || (cbn; set_solver by lia)).
  change (chars ";") with [59]. rewrite (next_one s2) by done.
  assert (keeps 0 h h2) by (by eapply keeps_trans).
  destruct (after 59 ts2) as [ts3|] eqn:Ha; [|by apply sim_ret; [apply at_skip|]].
  rewrite tok_bind. eapply sim_bind; [apply IH; by eapply read_sym|]. intros t3 ts4 c3 s3 h3 Hs3 (Hk3 & Hr3).
  unfold listcmd. rewrite alloc_bind. apply sim_ret; [done|]. eapply repr_pair; eauto.
Qed.
End simulation.

(** ** Ending the words *)

(** [m'] is [m] with zeros at the given addresses. *)
Definition zeroed (as_ : list Z) (m m' : mem) : Prop := ∀ a, m' a = if decide (a ∈ as_) then 0 else m a.

Lemma zeroed_app l1 l2 m m1 m2 : zeroed l1 m m1 → zeroed l2 m1 m2 → zeroed (l1 ++ l2) m m2.
Proof. intros H1 H2 a. rewrite H2, H1. repeat case_decide; set_solver. Qed.

Lemma zeroed_perm l1 l2 m m' : zeroed l1 m m' → (∀ a, a ∈ l1 ↔ a ∈ l2) → zeroed l2 m m'.
Proof. intros H Hl a. rewrite H. repeat case_decide; set_solver. Qed.

Lemma cut_words_zeroed args k m :
  Forall (λ w : Z * Z, w.1 ≠ 0) args →
  zeroed args.*2 m (cut_words (args.*1 ++ replicate k 0) (args.*2 ++ replicate k 0) m).
Proof.
  intros Hne. revert m. induction Hne as [|[q e] args Hw Hne IH]; intros m.
  - destruct k; cbn; [by intros a|]. by intros a.
  - cbn [fmap list_fmap app fst snd cut_words]. rewrite decide_False by done.
    eapply (zeroed_app [e]); [|apply IH]. intros a. rewrite insert_mem. repeat case_decide; set_solver.
Qed.

Lemma nulterminate_spec h t : ∀ n p m,
  repr h p t → (p <= n)%nat → Forall (λ w : Z * Z, w.1 ≠ 0) (cmd_words t) →
  ∃ m', nulterminate n p (Shell m h) = Done (p, Shell m' h) ∧ zeroed (cmd_words t).*2 m m'.
Proof.
  induction t as [args|t IH [q e] mode fd|l IHl r IHr|l IHl r IHr|t IH]; intros n p m Hr Hn Hw;
    pose proof (repr_valid _ _ _ Hr); cbn [repr cmd_words] in *;
    (destruct n as [|n]; [lia|]); cbn [nulterminate]; rewrite decide_False by lia.
  - unfold mbind, U_bind. cbn [look prog_bind fst snd sh_heap]. rewrite Hr. cbn. eexists. split; [done|].
    by apply cut_words_zeroed.
  - destruct Hr as (p' & Hp & Hlt & Hr). apply Forall_cons in Hw as [_ Hw]. destruct (IH n p' m Hr ltac:(lia) Hw) as (m' & E & Hz).
    unfold mbind, U_bind. cbn [look prog_bind fst snd sh_heap]. rewrite Hp, E. cbn. eexists. split; [done|].
    eapply zeroed_perm; [eapply (zeroed_app _ [e]); [done|]|set_solver].
    intros a. rewrite insert_mem. repeat case_decide; set_solver.
  - destruct Hr as (pl & pr & Hp & ? & ? & Hl & Hr). apply Forall_app in Hw as [Hw1 Hw2].
    destruct (IHl n pl m Hl ltac:(lia) Hw1) as (m1 & E1 & Hz1). destruct (IHr n pr m1 Hr ltac:(lia) Hw2) as (m2 & E2 & Hz2).
    unfold mbind, U_bind. cbn [look prog_bind fst snd sh_heap]. rewrite Hp, E1. cbn. rewrite E2. cbn. eexists. split; [done|].
    rewrite fmap_app. by eapply zeroed_app.
  - destruct Hr as (pl & pr & Hp & ? & ? & Hl & Hr). apply Forall_app in Hw as [Hw1 Hw2].
    destruct (IHl n pl m Hl ltac:(lia) Hw1) as (m1 & E1 & Hz1). destruct (IHr n pr m1 Hr ltac:(lia) Hw2) as (m2 & E2 & Hz2).
    unfold mbind, U_bind. cbn [look prog_bind fst snd sh_heap]. rewrite Hp, E1. cbn. rewrite E2. cbn. eexists. split; [done|].
    rewrite fmap_app. by eapply zeroed_app.
  - destruct Hr as (p' & Hp & Hlt & Hr). destruct (IH n p' m Hr ltac:(lia) Hw) as (m' & E & Hz).
    unfold mbind, U_bind. cbn [look prog_bind fst snd sh_heap]. rewrite Hp, E. cbn. eauto.
Qed.

(** ** The whole parser *)

(** The pointer [p] is a well-formed command that says [t]: the nodes are of the
    right kind and lie below it, an argument array ends with a null pointer before
    its last place, and the words are strings. *)
Fixpoint holds (m : mem) (h : list node) (p : nat) (t : cmd (list Z)) : Prop :=
  match t with
  | Exec args => ∃ ws, node_at h p = Some (exec_node ws) ∧ (length ws < MAXARGS)%nat ∧
      Forall2 (λ w l, 0 < w.1 ∧ cstr m w.1 l) ws args
  | Redir t' l mode fd => ∃ p' q e, node_at h p = Some (REDIR p' q e mode fd) ∧ (p' < p)%nat ∧ 0 < q ∧ cstr m q l ∧ holds m h p' t'
  | Pipe l r => ∃ pl pr, node_at h p = Some (PIPE pl pr) ∧ (pl < p)%nat ∧ (pr < p)%nat ∧ holds m h pl l ∧ holds m h pr r
  | Then l r => ∃ pl pr, node_at h p = Some (LIST pl pr) ∧ (pl < p)%nat ∧ (pr < p)%nat ∧ holds m h pl l ∧ holds m h pr r
  | Back t' => ∃ p', node_at h p = Some (BACK p') ∧ (p' < p)%nat ∧ holds m h p' t'
  end.

Lemma repr_holds m m' h t : ∀ p,
  repr h p t → cmd_small t → (∀ w, w ∈ cmd_words t → 0 < w.1 ∧ cstr m' w.1 (text_of m w)) →
  holds m' h p (cmd_map (text_of m) t).
Proof.
  induction t as [args|t IH [q e] mode fd|l IHl r IHr|l IHl r IHr|t IH]; intros p Hr Hs Hw; cbn [repr cmd_small cmd_words] in *.
  - exists args. split_and!; [done..|]. apply Forall2_fmap_r, Forall_Forall2_diag, Forall_forall. done.
  - destruct Hr as (p' & Hp & Hlt & Hr). destruct (Hw (q, e)) as [Hq Hc]; [set_solver|].
    exists p', q, e. split_and!; [done..|]. apply IH; [done..|set_solver].
  - destruct Hr as (pl & pr & Hp & ? & ? & Hl & Hr), Hs. exists pl, pr. split_and!; [done..|apply IHl|apply IHr]; (done || set_solver).
  - destruct Hr as (pl & pr & Hp & ? & ? & Hl & Hr), Hs. exists pl, pr. split_and!; [done..|apply IHl|apply IHr]; (done || set_solver).
  - destruct Hr as (p' & Hp & Hlt & Hr). exists p'. split_and!; [done..|]. by apply IH.
Qed.

(** Words of a text stay what they are when their ends become zeros. *)
Lemma stream_words m s0 es s ts w :
  m es = 0 → (∀ a, s0 <= a < es → m a ≠ 0) → stream m s0 es s ts → Word w ∈ ts →
  s0 <= w.1 < w.2 ∧ (∀ a, w.1 <= a < w.2 → word_char (m a) = true) ∧ word_char (m w.2) = false.
Proof.
  intros He Hi. induction 1 as [|s ts Hs Hr Hst IH]; [set_solver|]. intros [E|Hin]%elem_of_cons; [|by apply IH].
  destruct w as [q e]. destruct (stream_word m s0 es He Hi s q e ts) as (? & ? & ? & ?); [rewrite E; by constructor|]. done.
Qed.

Lemma zeroed_word m m' ws w :
  zeroed ws.*2 m m' → w ∈ ws → w.1 < w.2 → (∀ a, w.1 <= a < w.2 → word_char (m a) = true) →
  (∀ v, v ∈ ws → word_char (m v.2) = false) → cstr m' w.1 (text_of m w).
Proof.
  intros Hz Hin Hlt Hw He. unfold text_of. set (n := Z.to_nat (w.2 - w.1)).
  assert (∀ a, w.1 <= a < w.2 → m' a = m a ∧ m a ≠ 0) as Hsame.
  { intros a Ha. specialize (Hw a Ha). split; [|by apply word_char_facts in Hw as [? _]]. rewrite Hz. case_decide as Hd; [|done].
    apply list_elem_of_fmap in Hd as (v & -> & Hv). specialize (He v Hv). congruence. }
  assert (length (read_array w.1 n m) = n) as El by (unfold read_array; by rewrite length_fmap, length_seq).
  assert (∀ i, (i < n)%nat → read_array w.1 n m !!! i = m (w.1 + Z.of_nat i)) as Hat.
  { intros i Hi. apply list_lookup_total_correct. unfold read_array. by rewrite list_lookup_fmap, lookup_seq_lt by lia. }
  apply cstr_intro; rewrite ?El.
  - intros i Hi. rewrite Hat by done. apply Hsame. unfold n in Hi. lia.
  - intros (i & Hi)%list_elem_of_lookup. pose proof (lookup_lt_Some _ _ _ Hi) as Hlt'. rewrite El in Hlt'.
    apply list_lookup_total_correct in Hi. rewrite Hat in Hi by done. apply (Hsame (w.1 + Z.of_nat i)); [unfold n in Hlt'; lia|done].
  - rewrite Hz, decide_True; [done|]. apply list_elem_of_fmap. exists w. split; [unfold n; lia|done].
Qed.

Lemma stream_at_end m s0 es s ts :
  m es = 0 → (∀ a, s0 <= a < es → m a ≠ 0) → stream m s0 es s ts → skip m s es = es ↔ ts = [].
Proof.
  intros He Hi Hst. pose proof (stream_in _ _ _ _ _ Hst) as Hs.
  destruct (gettoken_spec m s0 es He Hi s Hs) as (Hq & _ & Hle & Ht). rewrite <-Hq.
  destruct Hst as [s _ Hr|s ts _ Hr Hst]; split; try done.
  - intros _. destruct Ht as [(_ & ? & _)|[(? & _)|(_ & ? & _)]]; [done|congruence..].
  - intros E. destruct Ht as [(? & _)|[(_ & ? & _)|(? & _)]]; [congruence|lia..].
Qed.

(** What [parsecmd] does with a text that spells the tokens [ts]. *)
Lemma parsecmd_eval max s l ts m h :
  0 < s → cstr m s l → (length l <= max)%nat → Z.of_nat (length l) < 2 ^ 31 → spells ts l →
  let n := S (length l) in
  (length ts < n)%nat ∧
  match p_line n n ts with
  | Parsed t [] => ∃ c m' h', parsecmd max s (Shell m h) = Done (c, Shell m' h') ∧ holds m' h' c t
  | _ => ∃ msg, dies msg (parsecmd max s (Shell m h))
  end.
Proof.
  intros Hs Hc Hmax Hl Hsp n. set (es := s + Z.of_nat (length l)).
  assert (m es = 0) as He by (by apply (cstr_app_inv m s l []); rewrite app_nil_r).
  assert (∀ a, s <= a < es → m a ≠ 0) as Hi.
  { intros a Ha. destruct (cstr_lookup m s l (Z.to_nat (a - s)) Hc) as [E H0]; [unfold es in Ha; lia|].
    rewrite <-E in H0. by replace (s + Z.of_nat (Z.to_nat (a - s))) with a in H0 by lia. }
  destruct (spells_stream m s es He Hi ts l Hsp s) as (ts' & Hst & Hmap); [lia|done|done|].
  pose proof (stream_length m s es He Hi s ts' Hst) as Hlen.
  assert (length ts = length ts') as Elen by (by rewrite <-Hmap, length_fmap). split; [unfold n, es in *; lia|].
  pose proof (parseline_sim m s es He Hi Hs n n s ts' h Hst) as Hsim. rewrite <-Hmap, p_line_map.
  unfold parsecmd. unfold mbind, U_bind. cbn [look prog_bind fst snd sh_mem]. rewrite (strlen_spec max s l m Hc Hmax Hl).
  fold es. rewrite Nat2Z.id. fold n. unfold parses, sim in Hsim.
  destruct (p_line n n ts') as [t rest|msg|] eqn:Ep; cbn [pmap]; [|eexists; by apply dies_bind|].
  - destruct Hsim as (c & s' & h' & -> & Hr & _ & Hrep). cbn [prog_bind fst snd]. unfold next_is, look. cbn [prog_bind fst snd sh_mem].
    unfold peek. pose proof (stream_at_end m s es s' rest He Hi Hr) as Hend. destruct rest as [|k rest]; cbn [fmap list_fmap].
    + rewrite decide_False by (intros E; by apply E, Hend). cbn [prog_bind fst snd sh_heap].
      apply p_line_iff in Ep; [|unfold n, es in *; lia..]. apply g_words in Ep as [Hwords Hsmall].
      assert (∀ w, w ∈ cmd_words t → s <= w.1 < w.2 ∧ (∀ a, w.1 <= a < w.2 → word_char (m a) = true) ∧ word_char (m w.2) = false) as Hw
        by (intros w Hin; by apply (stream_words m s es s ts'), Hwords).
      destruct (nulterminate_spec h' t (length h') c m Hrep) as (m' & -> & Hz).
      { apply repr_valid in Hrep. lia. } { apply Forall_forall. intros w Hin. apply Hw in Hin. lia. }
      exists c, m', h'. split; [done|]. apply repr_holds; [done..|]. intros w Hin. destruct (Hw w Hin) as (? & ? & ?).
      split; [lia|]. eapply zeroed_word; [done..|lia|done|]. intros v Hv. by apply Hw.
    + rewrite decide_True by (intros E; apply Hend in E; done). cbn [prog_bind fst snd].
      set (text := str_at m (skip m s' es)). exists ((chars "leftovers: " ++ text ++ [ch_newline]) ++ line "syntax").
      unfold printf_str, printf. cbn [sh_mem]. fold text.
      assert (Printf.printf (λ _, text) (line "leftovers: %s") [1] = Some (chars "leftovers: " ++ text ++ [ch_newline])) as -> by done.
      apply writes_app. apply (writes_each 2 _ (panic "syntax")). apply dies_panic.
  - exfalso. eapply p_line_fuel; [| |exact Ep]; unfold n, es in *; lia.
Qed.

Lemma parsecmd_accepts max s l ts t m h :
  0 < s → cstr m s l → (length l <= max)%nat → Z.of_nat (length l) < 2 ^ 31 →
  spells ts l → g_line t ts →
  ∃ c m' h', parsecmd max s (Shell m h) = Done (c, Shell m' h') ∧ holds m' h' c t.
Proof.
  intros Hs Hc Hmax Hl Hsp Hg. destruct (parsecmd_eval max s l ts m h Hs Hc Hmax Hl Hsp) as [Hlen Hp].
  apply (p_line_iff (S (length l)) (S (length l))) in Hg; [|lia..]. by rewrite Hg in Hp.
Qed.

(** C9. Parsing what was written: every line of the shell's grammar, in any spelling
    of its tokens, is accepted, and the command the parser returns says what the line
    says: the nodes have the structure of the line, with redirections around the
    command they belong to, and the words in the nodes are zero-terminated strings
    equal to the words of the line. *)
Theorem parsecmd_roundtrip max s l ts t m h :
  0 < s → cstr m s l → (length l <= max)%nat → Z.of_nat (length l) < 2 ^ 31 →
  spells ts l → g_line t ts →
  ∃ c m' h', parsecmd max s (Shell m h) = Done (c, Shell m' h') ∧ holds m' h' c t.
Proof. apply parsecmd_accepts. Qed.

(** C30. The parser is total and accepts nothing else: a line of any characters is a
    sequence of tokens; if these are a line of the grammar, the parser returns a
    well-formed command that says what the line says, and otherwise it prints a
    message and exits. *)
Theorem parsecmd_decides max s l m h :
  0 < s → cstr m s l → (length l <= max)%nat → Z.of_nat (length l) < 2 ^ 31 →
  ∃ ts, spells ts l ∧
    ((∃ t c m' h', g_line t ts ∧ parsecmd max s (Shell m h) = Done (c, Shell m' h') ∧ holds m' h' c t) ∨
     ((∀ t, ¬ g_line t ts) ∧ ∃ msg, dies msg (parsecmd max s (Shell m h)))).
Proof.
  intros Hs Hc Hmax Hl. destruct (spells_total l) as [ts Hsp].
  { intros (i & Hi)%list_elem_of_lookup. pose proof (lookup_lt_Some _ _ _ Hi) as Hlt. apply list_lookup_total_correct in Hi.
    by destruct (cstr_lookup m s l i Hc Hlt). }
  exists ts. split; [done|]. destruct (parsecmd_eval max s l ts m h Hs Hc Hmax Hl Hsp) as [Hlen Hp].
  pose proof (p_line_iff (S (length l)) (S (length l)) ts) as Hiff.
  destruct (p_line _ _ ts) as [t [|k rest]|msg|].
  2-4: right; split; [intros t'; rewrite <-Hiff by lia; done|done].
  left. destruct Hp as (c & m' & h' & ? & ?). exists t, c, m', h'. split; [|done]. apply Hiff; [lia..|done].
Qed.

(** ** An example *)

Definition example_line : list Z := chars "ls <d|wc >o&;x".

Definition example_tokens : list (tk (list Z)) :=
  [Word (chars "ls"); Sym 60; Word (chars "d"); Sym 124; Word (chars "wc"); Sym 62; Word (chars "o"); Sym 38; Sym 59; Word (chars "x")].

Definition example_cmd : cmd (list Z) :=
  Then (Back (Pipe (Redir (Exec [chars "ls"]) (chars "d") O_RDONLY 0)
                   (Redir (Exec [chars "wc"]) (chars "o") (Z.lor O_WRONLY O_CREATE) 1)))
       (Exec [chars "x"]).

Lemma example_spelled : spells example_tokens example_line.
Proof.
  assert (∀ c, bool_decide (c ∈ whitespace) = true → spaces [c]) as Hsp
    by (intros c Hc; constructor; [by apply bool_decide_eq_true in Hc|constructor]).
  assert (spaces []) as Hno by constructor.
  assert (∀ w, forallb word_char w = true → Forall (λ c, word_char c = true) w) as Hw.
  { intros w. induction w as [|c w IH]; [done|]. cbn. intros [? ?]%andb_true_iff. constructor; auto. }
  apply (spells_word [] (chars "ls")); [done..|by apply Hw|done|].
  apply (spells_sym [32] 60); [by apply Hsp|by apply (bool_decide_unpack _)|done|].
  apply (spells_word [] (chars "d")); [done..|by apply Hw|done|].
  apply (spells_sym [] 124); [done|by apply (bool_decide_unpack _)|done|].
  apply (spells_word [] (chars "wc")); [done..|by apply Hw|done|].
  apply (spells_sym [32] 62); [by apply Hsp|by apply (bool_decide_unpack _)|done|].
  apply (spells_word [] (chars "o")); [done..|by apply Hw|done|].
  apply (spells_sym [] 38); [done|by apply (bool_decide_unpack _)|done|].
  apply (spells_sym [] 59); [done|by apply (bool_decide_unpack _)|done|].
  apply (spells_word [] (chars "x")); [done..|by apply Hw|done|].
  by constructor.
Qed.

Lemma example_parsed : g_line example_cmd example_tokens.
Proof. apply (p_line_iff 20 20); [apply Nat.ltb_lt; by vm_compute|apply Nat.leb_le; by vm_compute|by vm_compute]. Qed.

Lemma parsecmd_roundtrip_witness :
  let m := array_at 100 (example_line ++ [0]) (λ _, 0) in
  ∃ c m' h', parsecmd 99 100 (Shell m []) = Done (c, Shell m' h') ∧ holds m' h' c example_cmd.
Proof.
  intros m. apply (parsecmd_roundtrip 99 100 example_line example_tokens);
    [lia|by vm_compute|apply Nat.leb_le; by vm_compute|apply Z.ltb_lt; by vm_compute|apply example_spelled|apply example_parsed].
Defined.

Lemma parsecmd_decides_witness :
  let m := array_at 100 (chars "a | (b" ++ [0]) (λ _, 0) in
  ∃ ts, spells ts (chars "a | (b") ∧
    ((∃ t c m' h', g_line t ts ∧ parsecmd 99 100 (Shell m []) = Done (c, Shell m' h') ∧ holds m' h' c t) ∨
     ((∀ t, ¬ g_line t ts) ∧ ∃ msg, dies msg (parsecmd 99 100 (Shell m [])))).
Proof.
  intros m. apply (parsecmd_decides 99 100 (chars "a | (b") m []);
    [lia|by vm_compute|apply Nat.leb_le; by vm_compute|apply Z.ltb_lt; by vm_compute].
Defined.
