(* ===== verification/ShRun.v ===== *)
(** * The processes a command starts

    [launch] follows a program and its children through the system calls that matter
    for a shell: it keeps the table of open files of each process and collects the
    programs that are finally executed, with their arguments and their files.  [wire]
    says which these should be for a command.  [runcmd] is shown to start exactly
    those: in particular every process of a pipeline has its end of the pipe and no
    other, so that readers see the end of the input. *)

From stdpp Require Import base list gmap strings.
From Stdlib Require Import ZArith Lia.
From S2P Require Import Prelude KState CString Cprintf User Sh ShSpec ShParse Progs.
Import Sh.

Inductive file := Console | Opened (path : list Z) (mode : Z) | ReadEnd (id : nat) | WriteEnd (id : nat).

Abbreviation files := (gmap Z file).

Record job := Job { j_argv : list (list Z); j_files : files }.

(** The lowest free descriptor; a process has sixteen. *)
Definition free_fd (f : files) : option Z := snd <$> list_find (λ fd, f !! fd = None) (Z.of_nat <$> seq 0 16).

Section launch.
(** Which files can be opened and which programs exist. *)
Context (can_open : list Z → Z → bool) (can_exec : list Z → bool).

Definition open_at (f : files) (x : file) : Z * files :=
  match free_fd f with Some fd => (fd, <[fd := x]> f) | None => (-1, f) end.

Definition dup_at (f : files) (fd : Z) : Z * files :=
  match f !! fd with Some x => open_at f x | None => (-1, f) end.

Definition pipe_at (f : files) (id : nat) : option (Z * Z) * files * nat :=
  let '(p0, f1) := open_at f (ReadEnd id) in
  let '(p1, f2) := open_at f1 (WriteEnd id) in
  if decide (0 <= p0 ∧ 0 <= p1) then (Some (p0, p1), f2, S id) else (None, f, id).

(** [id] is the number of the next pipe. *)
Fixpoint launch {A : Type} (p : prog A) (f : files) (id : nat) : list job * nat :=
  match p with
  | Done _ | Exit | Hang => ([], id)
  | Call c k =>
      match c in Sys.call B return (B → prog A) → list job * nat with
      | Sys.Fork => λ k,
          let '(child, id1) := launch (k 0) f id in
          let '(parent, id2) := launch (k 1) f id1 in
          (child ++ parent, id2)
      | Sys.ExecCall path argv => λ k, if can_exec path then ([Job argv f], id) else launch (k (-1)) f id
      | Sys.Open path mode => λ k,
          if can_open path mode then
            let '(fd, f') := open_at f (Opened path mode) in launch (k fd) f' id
          else launch (k (-1)) f id
      | Sys.Close fd => λ k, launch (k 0) (delete fd f) id
      | Sys.Dup fd => λ k, let '(r, f') := dup_at f fd in launch (k r) f' id
      | Sys.PipeCall => λ k, let '(r, f', id') := pipe_at f id in launch (k r) f' id'
      | Sys.Wait => λ k, launch (k 1) f id
      | Sys.Write _ l => λ k, launch (k (Z.of_nat (length l))) f id
      | _ => λ _, ([], id)
      end k
  end.

(** The programs a command is meant to start. *)
Fixpoint wire (t : cmd (list Z)) (f : files) (id : nat) : list job * nat :=
  match t with
  | Exec [] => ([], id)
  | Exec (a :: args) => if can_exec a then ([Job (a :: args) f], id) else ([], id)
  | Redir t' path mode fd => if can_open path mode then wire t' (<[fd := Opened path mode]> f) id else ([], id)
  | Then l r =>
      let '(jl, id1) := wire l f id in
      let '(jr, id2) := wire r f id1 in (jl ++ jr, id2)
  | Pipe l r =>
      let '(jl, id1) := wire l (<[1 := WriteEnd id]> f) (S id) in
      let '(jr, id2) := wire r (<[0 := ReadEnd id]> f) id1 in (jl ++ jr, id2)
  | Back t' => wire t' f id
  end.

(** ** Descriptors *)

Lemma free_fd_is f fd :
  0 <= fd < 16 → f !! fd = None → (∀ i, 0 <= i < fd → is_Some (f !! i)) → free_fd f = Some fd.
Proof.
  intros Hfd Hn Hs. unfold free_fd.
  assert (list_find (λ fd, f !! fd = None) (Z.of_nat <$> seq 0 16) = Some (Z.to_nat fd, fd)) as ->; [|done].
  apply list_find_Some. split_and!; [|done|].
  - rewrite list_lookup_fmap, lookup_seq_lt by lia. cbn. f_equal. lia.
  - intros j y Hj Hlt Hy. rewrite list_lookup_fmap, lookup_seq_lt in Hj by lia. injection Hj as <-.
    destruct (Hs (Z.of_nat j)) as [x Hx]; [lia|]. simpl in Hy. congruence.
Qed.

(** Exactly the three standard files are open. *)
Definition standard (f : files) : Prop := ∀ fd, is_Some (f !! fd) ↔ 0 <= fd <= 2.

Lemma standard_insert f fd x : standard f → 0 <= fd <= 2 → standard (<[fd := x]> f).
Proof.
  intros Hf Hfd i. destruct (decide (i = fd)) as [->|Hn]; [rewrite lookup_insert_eq; naive_solver|].
  rewrite lookup_insert_ne by done. apply Hf.
Qed.

Lemma standard_None f fd : standard f → ¬ 0 <= fd <= 2 → f !! fd = None.
Proof. intros Hf Hfd. apply eq_None_not_Some. intros H%Hf. lia. Qed.

(** Closing a standard file and opening another gives the same descriptor. *)
Lemma reopen f fd x : standard f → 0 <= fd <= 2 → open_at (delete fd f) x = (fd, <[fd := x]> f).
Proof.
  intros Hf Hfd. unfold open_at. rewrite (free_fd_is _ fd); [by rewrite insert_delete_eq|lia|apply lookup_delete_eq|].
  intros i Hi. rewrite lookup_delete_ne by lia. apply Hf. lia.
Qed.

Lemma pipe_standard f id :
  standard f → pipe_at f id = (Some (3, 4), <[4 := WriteEnd id]> (<[3 := ReadEnd id]> f), S id).
Proof.
  intros Hf. unfold pipe_at, open_at. rewrite (free_fd_is f 3); [|lia|apply standard_None; [done|lia]|intros i Hi; apply Hf; lia].
  rewrite (free_fd_is (<[3 := _]> f) 4); [done|lia|rewrite lookup_insert_ne by lia; apply standard_None; [done|lia]|].
  intros i Hi. destruct (decide (i = 3)) as [->|]; [by rewrite lookup_insert_eq|].
  rewrite lookup_insert_ne by lia. apply Hf. lia.
Qed.

(** The descriptors of a child of a pipeline: one standard file is replaced by an end
    of the pipe, and both ends are closed. *)
Lemma dup_pipe f id fd e x :
  standard f → 0 <= fd <= 2 → (e = 3 ∧ x = ReadEnd id ∨ e = 4 ∧ x = WriteEnd id) →
  let g := <[4 := WriteEnd id]> (<[3 := ReadEnd id]> f) in
  ∃ g', dup_at (delete fd g) e = (fd, g') ∧ delete 4 (delete 3 g') = <[fd := x]> f.
Proof.
  intros Hf Hfd He g.
  assert (g !! e = Some x) as Hg.
  { unfold g. destruct He as [[-> ->]|[-> ->]]; [rewrite lookup_insert_ne by lia|]; apply lookup_insert_eq. }
  assert (∀ i, 0 <= i <= 4 → is_Some (g !! i)) as Hs.
  { intros i Hi. unfold g. destruct (decide (i = 4)) as [->|]; [by rewrite lookup_insert_eq|]. rewrite lookup_insert_ne by lia.
    destruct (decide (i = 3)) as [->|]; [by rewrite lookup_insert_eq|]. rewrite lookup_insert_ne by lia. apply Hf. lia. }
  exists (<[fd := x]> g). split.
  - unfold dup_at. rewrite lookup_delete_ne, Hg by lia. unfold open_at.
    rewrite (free_fd_is _ fd); [by rewrite insert_delete_eq|lia|apply lookup_delete_eq|].
    intros i Hi. rewrite lookup_delete_ne by lia. apply Hs. lia.
  - apply map_eq. intros i. destruct (decide (i = 4)) as [->|H4].
    { rewrite lookup_delete_eq, lookup_insert_ne by lia. symmetry. apply standard_None; [done|lia]. }
    rewrite lookup_delete_ne by lia. destruct (decide (i = 3)) as [->|H3].
    { rewrite lookup_delete_eq, lookup_insert_ne by lia. symmetry. apply standard_None; [done|lia]. }
    rewrite lookup_delete_ne by lia. destruct (decide (i = fd)) as [->|Hn]; [by rewrite !lookup_insert_eq|].
    unfold g. by rewrite !lookup_insert_ne by lia.
Qed.

(** ** System calls of a routine

    [K] is what the program does after the routine. *)
Lemma launch_assoc {A B C : Type} (p : prog A) (g : A → prog B) (k : B → prog C) f id :
  launch (prog_bind (prog_bind p g) k) f id = launch (prog_bind p (λ x, prog_bind (g x) k)) f id.
Proof.
  revert f id. induction p as [a| | |B' c r IH]; intros f id; try done. cbn [prog_bind].
  destruct c; cbn [launch]; try done; try apply IH.
  - rewrite IH. destruct (launch _ f id) as [jc id1]. by rewrite IH.
  - destruct (pipe_at f id) as [[x g'] id']. apply IH.
  - destruct (can_exec path); [done|apply IH].
  - destruct (can_open path mode); [|apply IH]. destruct (open_at _ _) as [fd g']. apply IH.
  - destruct (dup_at f fd) as [x g']. apply IH.
Qed.

Section runcmd.
Context {A : Type} (K : unit * shell → prog A) (m : mem) (h : list node).
Local Abbreviation st := (Shell m h).

Lemma launch_fork (k : Z → U shell unit) f id :
  launch (prog_bind ((fork1 ≫= k) st) K) f id =
  let '(child, id1) := launch (prog_bind (k 0 st) K) f id in
  let '(parent, id2) := launch (prog_bind (k 1 st) K) f id1 in (child ++ parent, id2).
Proof. done. Qed.

(** A fork whose child runs [u]. *)
Lemma launch_fork_if (u : U shell unit) (k : unit → U shell unit) f id :
  launch (prog_bind ((fork1 ≫= λ pid, (if decide (pid = 0) then u else mret tt) ≫= k) st) K) f id =
  let '(child, id1) := launch (prog_bind (u st) (λ x, prog_bind (k x.1 x.2) K)) f id in
  let '(parent, id2) := launch (prog_bind (k tt st) K) f id1 in (child ++ parent, id2).
Proof. rewrite launch_fork. change (decide (0 = 0)) with (@left (0 = 0) (0 ≠ 0) eq_refl). by rewrite <-launch_assoc. Qed.

Lemma launch_exec path argv (k : Z → U shell unit) f id :
  launch (prog_bind ((sys (Sys.ExecCall path argv) ≫= k) st) K) f id =
  if can_exec path then ([Job argv f], id) else launch (prog_bind (k (-1) st) K) f id.
Proof. done. Qed.

Lemma launch_close fd (k : Z → U shell unit) f id :
  launch (prog_bind ((sys (Sys.Close fd) ≫= k) st) K) f id = launch (prog_bind (k 0 st) K) (delete fd f) id.
Proof. done. Qed.

Lemma launch_wait (k : Z → U shell unit) f id :
  launch (prog_bind ((sys Sys.Wait ≫= k) st) K) f id = launch (prog_bind (k 1 st) K) f id.
Proof. done. Qed.

Lemma launch_dup fd (k : Z → U shell unit) f id r g :
  dup_at f fd = (r, g) →
  launch (prog_bind ((sys (Sys.Dup fd) ≫= k) st) K) f id = launch (prog_bind (k r st) K) g id.
Proof.
  intros E. change (launch _ f id) with (let '(r, f') := dup_at f fd in launch (prog_bind (k r st) K) f' id). by rewrite E.
Qed.

Lemma launch_pipe (k : option (Z * Z) → U shell unit) f id r g id' :
  pipe_at f id = (r, g, id') →
  launch (prog_bind ((sys Sys.PipeCall ≫= k) st) K) f id = launch (prog_bind (k r st) K) g id'.
Proof.
  intros E. change (launch _ f id) with (let '(r, f', id') := pipe_at f id in launch (prog_bind (k r st) K) f' id'). by rewrite E.
Qed.

Lemma launch_open path mode (k : Z → U shell unit) f id :
  launch (prog_bind ((sys (Sys.Open path mode) ≫= k) st) K) f id =
  if can_open path mode then let '(fd, f') := open_at f (Opened path mode) in launch (prog_bind (k fd st) K) f' id
  else launch (prog_bind (k (-1) st) K) f id.
Proof. done. Qed.

(** Printing starts nothing. *)
Lemma launch_puts fd l (k : unit → U shell unit) f id :
  launch (prog_bind ((each (putc fd) l ≫= k) st) K) f id = launch (prog_bind (k tt st) K) f id.
Proof.
  induction l as [|c l IH]; [done|]. transitivity (launch (prog_bind ((each (putc fd) l ≫= k) st) K) f id); [done|apply IH].
Qed.

Lemma launch_printf fd fmt arg f id :
  launch (prog_bind ((printf_str fd fmt arg ;; exit) st) K) f id = ([], id).
Proof. unfold printf_str, printf. destruct (Printf.printf _ fmt [1]); [|done]. by rewrite launch_puts. Qed.
End runcmd.

Lemma launch_Done {A : Type} (p : prog A) f id : launch (prog_bind p Done) f id = launch p f id.
Proof.
  revert f id. induction p as [a| | |B' c r IH]; intros f id; try done. cbn [prog_bind].
  destruct c; cbn [launch]; try done; try apply IH.
  - rewrite IH. destruct (launch _ f id) as [jc id1]. by rewrite IH.
  - destruct (pipe_at f id) as [[x g'] id']. apply IH.
  - destruct (can_exec path); [done|apply IH].
  - destruct (can_open path mode); [|apply IH]. destruct (open_at _ _) as [fd g']. apply IH.
  - destruct (dup_at f fd) as [x g']. apply IH.
Qed.

(** ** What [runcmd] starts *)

(** Redirections are of standard files, and words are shorter than a page. *)
Fixpoint plain (t : cmd (list Z)) : Prop :=
  match t with
  | Exec args => Forall (λ l, (length l < Z.to_nat 4096)%nat) args
  | Redir t' l mode fd => (length l < Z.to_nat 4096)%nat ∧ 0 <= fd <= 2 ∧ plain t'
  | Pipe l r | Then l r => plain l ∧ plain r
  | Back t' => plain t'
  end.

Lemma strings_spec m ws args k :
  Forall2 (λ (w : Z * Z) l, 0 < w.1 ∧ cstr m w.1 l) ws args → Forall (λ l, (length l < Z.to_nat 4096)%nat) args →
  strings m (ws.*1 ++ replicate k 0) = args.
Proof.
  intros H. induction H as [|[q e] l ws args [Hq Hl] H IH]; intros Hs.
  - by destruct k.
  - apply Forall_cons in Hs as [Hs1 Hs2]. cbn [fmap list_fmap fst app strings]. cbn [fst] in *.
    rewrite decide_False by lia. f_equal; [by apply str_at_cstr|by apply IH].
Qed.

Lemma runcmd_launch {A : Type} m h t : ∀ n p f id (K : unit * shell → prog A),
  holds m h p t → (p <= n)%nat → standard f → plain t →
  launch (prog_bind (runcmd n p (Shell m h)) K) f id = wire t f id.
Proof.
  induction t as [args|t IH l mode fd|l IHl r IHr|l IHl r IHr|t IH]; intros n p f id K Hp Hn Hf Hpl; cbn [holds plain] in *;
    assert (0 < p)%nat by (destruct p; [naive_solver|lia]); (destruct n as [|n]; [lia|]); cbn [runcmd]; rewrite decide_False by lia;
    unfold mbind at 1, U_bind at 1; cbn [look prog_bind fst snd sh_heap]; unfold mbind at 1, U_bind at 1; cbn [look prog_bind fst snd sh_mem].
  - destruct Hp as (ws & -> & Hlen & H2). pose proof (strings_spec m ws args (MAXARGS - length ws) H2 Hpl) as Hst.
    unfold exec_node. destruct H2 as [|[q e] l ws args [Hq Hl] H2]; [done|]. cbn [fst] in *.
    change (((q, e) :: ws).*1 ++ _) with (q :: (ws.*1 ++ replicate (MAXARGS - length ((q, e) :: ws)) 0)) in *.
    cbn [lookup_total list_lookup_total] in *. rewrite decide_False by lia. apply Forall_cons in Hpl as [Hs _].
    rewrite launch_exec, Hst, (str_at_cstr m q l) by done. cbn [wire]. destruct (can_exec l); [done|]. apply launch_printf.
  - destruct Hp as (p' & q & e & -> & Hlt & Hq & Hl & Hp'), Hpl as (Hs & Hfd & Hpl).
    rewrite launch_close, launch_open, (str_at_cstr m q l) by done. cbn [wire]. destruct (can_open l mode); [|apply launch_printf].
    rewrite reopen by done. rewrite decide_False by lia. unfold mbind, U_bind. rewrite launch_assoc.
    apply IH; [done|lia|by apply standard_insert|done].
  - destruct Hp as (pl & pr & -> & Hlt1 & Hlt2 & Hl & Hr), Hpl as [Hpl1 Hpl2]. cbn [wire].
    erewrite launch_pipe by (by apply pipe_standard). cbv beta iota. rewrite launch_fork_if, launch_close.
    destruct (dup_pipe f id 1 4 (WriteEnd id) Hf ltac:(lia) ltac:(by right)) as (g1 & Hd1 & Hg1).
    erewrite launch_dup by done. rewrite !launch_close, Hg1, IHl; [|done|lia|by apply standard_insert; [|lia]|done].
    destruct (wire l _ (S id)) as [jl id1]. rewrite launch_fork_if, launch_close.
    destruct (dup_pipe f id 0 3 (ReadEnd id) Hf ltac:(lia) ltac:(by left)) as (g2 & Hd2 & Hg2).
    erewrite launch_dup by done. rewrite !launch_close, Hg2, IHr; [|done|lia|by apply standard_insert; [|lia]|done].
    destruct (wire r _ id1) as [jr id2]. rewrite !launch_close, !launch_wait. cbn. by rewrite app_nil_r.
  - destruct Hp as (pl & pr & -> & Hlt1 & Hlt2 & Hl & Hr), Hpl as [Hpl1 Hpl2]. cbn [wire].
    rewrite launch_fork_if, IHl by (done || lia). destruct (wire l f id) as [jl id1].
    rewrite launch_wait. unfold mbind, U_bind. rewrite launch_assoc, IHr by (done || lia). done.
  - destruct Hp as (p' & -> & Hlt & Hp'). rewrite launch_fork_if, IH by (done || lia). cbn [wire].
    destruct (wire t f id) as [j id1]. cbn. by rewrite app_nil_r.
Qed.
End launch.

(** ** From the line to the processes *)

Fixpoint std_redirs {W : Type} (t : cmd W) : Prop :=
  match t with
  | Exec _ => True
  | Redir t' _ _ fd => 0 <= fd <= 2 ∧ std_redirs t'
  | Pipe l r | Then l r => std_redirs l ∧ std_redirs r
  | Back t' => std_redirs t'
  end.

Lemma plain_intro t : std_redirs t → (∀ w, w ∈ cmd_words t → (length w < Z.to_nat 4096)%nat) → plain t.
Proof.
  induction t as [args|t IH l mode fd|l IHl r IHr|l IHl r IHr|t IH]; cbn [std_redirs plain cmd_words]; intros Hr Hw.
  - by apply Forall_forall.
  - destruct Hr. split_and!; [set_solver|lia|lia|]. apply IH; [done|set_solver].
  - destruct Hr. split; [apply IHl|apply IHr]; (done || set_solver).
  - destruct Hr. split; [apply IHl|apply IHr]; (done || set_solver).
  - by apply IH.
Qed.

Lemma wrap_std {W : Type} (t : cmd W) rs ts : g_redirs rs ts → std_redirs t → std_redirs (wrap t rs).
Proof.
  intros H. revert t. induction H as [|c w rs ts Hc H IH]; intros t Ht; [done|].
  apply (IH (Redir t (redir_of c w).1.1 (redir_of c w).1.2 (redir_of c w).2)). split; [|done].
  unfold redir_of. case_decide; simpl; lia.
Qed.

Lemma wrap_app {W : Type} (t : cmd W) rs1 rs2 : wrap t (rs1 ++ rs2) = wrap (wrap t rs1) rs2.
Proof. apply foldl_app. Qed.

Lemma g_args_std {W : Type} (args : list W) rs ts t : g_args args rs ts → std_redirs t → std_redirs (wrap t rs).
Proof.
  intros H. revert t. induction H as [|w rs0 ts0 args rs ts H0 H IH]; intros t Ht; [done|]. rewrite wrap_app. eauto using wrap_std.
Qed.

Lemma g_std {W : Type} :
  (∀ (t : cmd W) ts, g_exec t ts → std_redirs t) ∧ (∀ (t : cmd W) ts, g_pipe t ts → std_redirs t) ∧
  (∀ (t : cmd W) ts, g_line t ts → std_redirs t).
Proof.
  assert (∀ n (t : cmd W), std_redirs t → std_redirs (backs n t)) as Hb.
  { intros n. induction n as [|n IH]; intros t Ht; [done|]. by apply (IH (Back t)). }
  apply g_mutind; intros; cbn [std_redirs]; eauto using wrap_std. rewrite wrap_app.
  eapply g_args_std; [done|]. by eapply wrap_std.
Qed.

Lemma spells_words ts l w : spells ts l → Word w ∈ ts → (length w <= length l)%nat.
Proof.
  induction 1 as [|sp w' ts l Hsp Hne Hw Hl H IH|sp c ts l Hsp Hc Hgt H IH|sp ts l Hsp H IH]; rewrite ?length_app; cbn [length].
  - set_solver.
  - intros [[= ->]|Hin]%elem_of_cons; [lia|]. specialize (IH Hin). lia.
  - intros [?|Hin]%elem_of_cons; [done|]. specialize (IH Hin). lia.
  - intros [?|Hin]%elem_of_cons; [done|]. specialize (IH Hin). lia.
Qed.

(** C11. From the line to the processes: for every line of the grammar, whatever
    files can be opened and whatever programs exist, the process that parses and runs
    it starts exactly the programs that the line means, each with its arguments and
    with its table of open files: redirected files in place of the standard ones,
    the ends of pipes in place of the standard output and input of neighbours, and no
    other end of a pipe left open. *)
Theorem run_line_wires can_open can_exec max s l ts t m h f id :
  0 < s → cstr m s l → (length l <= max)%nat → (length l < Z.to_nat 4096)%nat →
  spells ts l → g_line t ts → standard f →
  launch can_open can_exec (run_line max s (Shell m h)) f id = wire can_open can_exec t f id.
Proof.
  intros Hs Hc Hmax Hl Hsp Hg Hf.
  destruct (parsecmd_accepts max s l ts t m h) as (c & m' & h' & E & Hh); [done..|lia|done|done|].
  unfold run_line, mbind, U_bind. rewrite E. cbn [look prog_bind fst snd sh_heap].
  rewrite <-launch_Done. apply runcmd_launch; [done| |done|].
  - assert (∃ n, node_at h' c = Some n) as [n Hn] by (destruct t; cbn [holds] in Hh; naive_solver).
    apply node_at_length in Hn. lia.
  - apply plain_intro; [exact (proj2 (proj2 g_std) t ts Hg)|]. intros w Hw.
    destruct (proj2 (proj2 g_words) t ts Hg) as [Hg' _].
    pose proof (spells_words ts l w Hsp (Hg' w Hw)). lia.
Qed.

(** A shell at the console, with every file and every program there is. *)
Definition console_files : gmap Z file := {[0 := Console; 1 := Console; 2 := Console]}.

Lemma console_standard : standard console_files.
Proof.
  intros fd. unfold console_files. rewrite !lookup_insert_is_Some, lookup_singleton_is_Some. lia.
Qed.

Lemma run_line_wires_witness :
  let m := array_at 100 (example_line ++ [0]) (λ _, 0) in
  let yes := λ _ _, true in
  launch yes (λ _, true) (run_line 99 100 (Shell m [])) console_files 0 = wire yes (λ _, true) example_cmd console_files 0.
Proof.
  intros m yes.
  apply (run_line_wires yes (λ _, true) 99 100 example_line example_tokens);
    [lia|by vm_compute|apply Nat.leb_le; by vm_compute|apply Nat.ltb_lt; by vm_compute| | |apply console_standard].
  - apply example_spelled.
  - apply example_parsed.
Defined.
