(* ===== verification/Umalloc.v ===== *)
(** * The user allocator (umalloc.c)

    The allocator of Kernighan and Ritchie.  The state has the two fields of the
    header at each address, and [freep]; addresses are bytes, a header takes eight,
    and adding to a pointer to a header adds eight times as much.  [sbrk] is a system
    call of the program.  The free list is shown to stay a ring in the order of
    addresses without adjacent blocks; [malloc] and [free] are shown to move bytes
    between the program and the list. *)

From stdpp Require Import base list sets.
From Stdlib Require Import ZArith Lia.
From S2P Require Import Prelude User.

Record arena := Arena { h_ptr : Z → Z; h_size : Z → Z; freep : Z }.

Definition set_ptr (a v : Z) (s : arena) : arena := Arena (λ b, if decide (b = a) then v else h_ptr s b) (h_size s) (freep s).
Definition set_size (a v : Z) (s : arena) : arena := Arena (h_ptr s) (λ b, if decide (b = a) then v else h_size s b) (freep s).
Definition set_freep (a : Z) (s : arena) : arena := Arena (h_ptr s) (h_size s) a.

(** The size of a header, and adding [n] to a pointer to one. *)
Definition HEADER : Z := 8.
Definition plus (p n : Z) : Z := u32 (p + HEADER * n).

Module Umalloc.
Section umalloc.
(** The address of the header [base]. *)
Context (base : Z).

(** [for(p = freep; !(bp > p && bp < p->s.ptr); p = p->s.ptr)
       if(p >= p->s.ptr && (bp > p || bp < p->s.ptr)) break;] *)
Fixpoint find_place (n : nat) (bp p : Z) (s : arena) : option Z :=
  if decide (p < bp ∧ bp < h_ptr s p) then Some p
  else if decide (h_ptr s p <= p ∧ (p < bp ∨ bp < h_ptr s p)) then Some p
  else match n with O => None | S n' => find_place n' bp (h_ptr s p) s end.

Definition free (n : nat) (ap : Z) : U arena unit :=
  let bp := plus ap (-1) in
  s ← look id;
  match find_place n bp (freep s) s with
  | None => hang
  | Some p =>
      (if decide (plus bp (h_size s bp) = h_ptr s p) then
         change (λ s, set_size bp (u32 (h_size s bp + h_size s (h_ptr s p))) s) ;;
         change (λ s, set_ptr bp (h_ptr s (h_ptr s p)) s)
       else change (λ s, set_ptr bp (h_ptr s p) s)) ;;
      s ← look id;
      (if decide (plus p (h_size s p) = bp) then
         change (λ s, set_size p (u32 (h_size s p + h_size s bp)) s) ;;
         change (λ s, set_ptr p (h_ptr s bp) s)
       else change (set_ptr p bp)) ;;
      change (set_freep p)
  end.

(** 0 stands for the null pointer. *)
Definition morecore (n : nat) (nu : Z) : U arena Z :=
  let nu := if decide (nu < 4096) then 4096 else nu in
  p ← sys (Sys.Sbrk (s32 (nu * HEADER)));
  if decide (p = u32 (-1)) then mret 0 else
  change (set_size p nu) ;;
  free n (plus p 1) ;;
  look freep.

(** The body of [if(p->s.size >= nunits)]: take the block or its end. *)
Definition take_block (nunits prevp p : Z) : U arena Z :=
  s ← look id;
  p ← (if decide (h_size s p = nunits) then
         change (set_ptr prevp (h_ptr s p)) ;; mret p
       else
         change (set_size p (u32 (h_size s p - nunits))) ;;
         size ← look (λ s, h_size s p);
         let p := plus p size in
         change (set_size p nunits) ;; mret p);
  change (set_freep prevp) ;;
  mret (plus p 1).

(** [for(p = prevp->s.ptr; ; prevp = p, p = p->s.ptr)]; [n] rounds are left. *)
Fixpoint malloc_loop (n : nat) (nunits prevp p : Z) : U arena Z :=
  s ← look id;
  if decide (nunits <= h_size s p) then take_block nunits prevp p
  else
    match n with
    | O => hang
    | S n' =>
        if decide (p = freep s) then
          p ← morecore n nunits;
          if decide (p = 0) then mret 0 else
          next ← look (λ s, h_ptr s p);
          malloc_loop n' nunits p next
        else malloc_loop n' nunits p (h_ptr s p)
    end.

Definition malloc (n : nat) (nbytes : Z) : U arena Z :=
  let nunits := u32 (nbytes + HEADER - 1) / HEADER + 1 in
  s ← look id;
  (if decide (freep s = 0) then
     change (λ s, set_size base 0 (set_freep base (set_ptr base base s)))
   else mret tt) ;;
  prevp ← look freep;
  p ← look (λ s, h_ptr s prevp);
  malloc_loop n nunits prevp p.
End umalloc.
End Umalloc.

(** ** The free list *)

(** User memory ends here (KERNBASE). *)
Definition LIMIT : Z := 0x80000000.

(** The headers [l] point to each other in order, the last one to [b]. *)
Fixpoint chain (s : arena) (l : list Z) (b : Z) : Prop :=
  match l with
  | [] => True
  | x :: l' => h_ptr s x = default b (head l') ∧ chain s l' b
  end.

(** Blocks, an address and a number of units each, in order and with a gap after
    each; [gap lo l] is the first address that can come after them. *)
Fixpoint spaced (lo : Z) (l : list (Z * Z)) : Prop :=
  match l with
  | [] => True
  | (a, z) :: l' => lo <= a ∧ 0 < z ∧ a + HEADER * z <= LIMIT ∧ spaced (a + HEADER * z + 1) l'
  end.

Fixpoint gap (lo : Z) (l : list (Z * Z)) : Z :=
  match l with [] => lo | (a, z) :: l' => gap (a + HEADER * z + 1) l' end.

(** The byte [x] is in one of the blocks. *)
Definition covers (l : list (Z * Z)) (x : Z) : Prop := ∃ a z, (a, z) ∈ l ∧ a <= x < a + HEADER * z.

Section spec.
Context (base : Z).
Hypothesis base_pos : 0 < base.
Implicit Types (s : arena) (l : list Z) (L : list (Z * Z)).

(** The free blocks are [L]. *)
Record free_list s L : Prop := {
  fl_ring : chain s (base :: L.*1) base;
  fl_base : h_size s base = 0;
  fl_sizes : Forall (λ b, h_size s b.1 = b.2) L;
  fl_spaced : spaced (base + HEADER) L;
  fl_freep : freep s ∈ base :: L.*1
}.

(** A block of [z] units at [a] that belongs to the program. *)
Record owned L (a z : Z) : Prop := {
  ow_size : 0 < z;
  ow_range : base + HEADER <= a ∧ a + HEADER * z <= LIMIT;
  ow_apart : ∀ b y, (b, y) ∈ L → b + HEADER * y <= a ∨ a + HEADER * z <= b
}.

(** ** Lists *)

Lemma chain_app s l1 l2 b : chain s (l1 ++ l2) b ↔ chain s l1 (default b (head l2)) ∧ chain s l2 b.
Proof.
  induction l1 as [|x l1 IH]; cbn [app chain]; [naive_solver|]. rewrite IH.
  assert (default b (head (l1 ++ l2)) = default (default b (head l2)) (head l1)) as -> by (by destruct l1). naive_solver.
Qed.

Lemma chain_frame s s' l b : (∀ x, x ∈ l → h_ptr s' x = h_ptr s x) → chain s l b → chain s' l b.
Proof.
  induction l as [|x l IH]; cbn [chain]; [done|]. intros Hx [H1 H2]. split; [by rewrite Hx by set_solver|].
  apply IH; [set_solver|done].
Qed.

Lemma spaced_app lo L1 L2 : spaced lo (L1 ++ L2) ↔ spaced lo L1 ∧ spaced (gap lo L1) L2.
Proof. revert lo. induction L1 as [|[a z] L1 IH]; intros lo; cbn; [naive_solver|]. rewrite IH. naive_solver. Qed.

Lemma gap_app lo L1 L2 : gap lo (L1 ++ L2) = gap (gap lo L1) L2.
Proof. revert lo. induction L1 as [|[a z] L1 IH]; intros lo; cbn; [done|]. apply IH. Qed.

Lemma spaced_mono lo lo' L : spaced lo L → lo' <= lo → spaced lo' L.
Proof. destruct L as [|[a z] L]; cbn; intros; [done|]. destruct_and!. split_and!; (done || lia). Qed.

Lemma spaced_in lo L a z : spaced lo L → (a, z) ∈ L → lo <= a ∧ 0 < z ∧ a + HEADER * z <= LIMIT ∧ a + HEADER * z + 1 <= gap lo L.
Proof.
  assert (∀ lo L, spaced lo L → lo <= gap lo L) as Hgap.
  { intros lo' L'. revert lo'. induction L' as [|[b y] L' IH]; intros lo'; cbn; [lia|]. intros (? & ? & ? & ?%IH). unfold HEADER in *. lia. }
  revert lo. induction L as [|[b y] L IH]; intros lo; cbn; [set_solver|]. intros (H1 & H2 & H3 & H4) [[= <- <-]|Hin]%elem_of_cons.
  - apply Hgap in H4. lia.
  - specialize (IH _ H4 Hin). unfold HEADER in *. lia.
Qed.

(** Increasing addresses. *)
Fixpoint incr (p : Z) l : Prop := match l with [] => True | x :: l' => p < x ∧ incr x l' end.

Lemma spaced_incr p lo L : spaced lo L → p < lo → incr p L.*1.
Proof.
  revert p lo. induction L as [|[a z] L IH]; intros p lo; cbn; [done|]. intros (? & ? & ? & H) ?. split; [lia|].
  apply (IH a) in H; [done|]. unfold HEADER in *. lia.
Qed.

Lemma incr_in p l x : incr p l → x ∈ l → p < x.
Proof. revert p. induction l as [|y l IH]; intros p; cbn; [set_solver|]. intros [? H] [->|Hx]%elem_of_cons; [done|]. specialize (IH _ H Hx). lia. Qed.

Lemma incr_split p pre q suf : incr p (pre ++ q :: suf) → (∀ x, x ∈ pre → x < q) ∧ p < q ∧ incr q suf.
Proof.
  revert p. induction pre as [|y pre IH]; intros p; cbn; [set_solver|]. intros [? H]. destruct (IH _ H) as (H1 & H2 & H3).
  split_and!; [|lia|done]. intros x [->|Hx]%elem_of_cons; [done|auto].
Qed.

(** ** Finding the place of a block *)

Lemma place_before n p l bp s :
  chain s (p :: l) base → incr p l → base <= p → p < bp → bp ∉ l → (length l <= n)%nat →
  ∃ q, Umalloc.find_place n bp p s = Some q ∧ q ∈ p :: l ∧ q < bp ∧ ∀ x, x ∈ l → x < bp → x <= q.
Proof.
  revert n p. induction l as [|x l IH]; intros n p [Hp Hc] Hi Hb Hlt Hn Hlen; cbn [head default] in Hp.
  - exists p. split; [|set_solver]. cbn in Hp. destruct n; cbn [Umalloc.find_place]; rewrite Hp;
      (rewrite decide_False by lia); by rewrite decide_True by lia.
  - cbn in Hp. destruct Hi as [Hpx Hi]. apply not_elem_of_cons in Hn as [Hbx Hn]. destruct (decide (bp < x)) as [Hbx'|Hbx'].
    + exists p. split; [destruct n; cbn [Umalloc.find_place]; by rewrite decide_True by lia|]. split_and!; [set_solver|done|].
      intros y [->|Hy]%elem_of_cons; [lia|]. apply (incr_in x l y) in Hy; [lia|done].
    + destruct n as [|n]; [simpl in Hlen; lia|]. destruct (IH n x) as (q & Hq & Hin & Hqb & Hmax); [done|done|lia|lia|done|simpl in Hlen; lia|].
      exists q. split_and!; [|set_solver|done|].
      * cbn [Umalloc.find_place]. rewrite Hp, decide_False, decide_False by lia. done.
      * intros y [->|Hy]%elem_of_cons; [|auto]. intros _. apply elem_of_cons in Hin as [->|Hin]; [lia|]. by apply (incr_in x l) in Hin; [lia|].
Qed.

Lemma place_wrap n p l bp s :
  chain s (p :: l) base → incr p l → base < bp → bp < p → (length l < n)%nat →
  Umalloc.find_place n bp p s = Umalloc.find_place (n - S (length l)) bp base s.
Proof.
  revert n p. induction l as [|x l IH]; intros n p [Hp Hc] Hi Hb Hlt Hlen; cbn in Hp; (destruct n as [|n]; [simpl in Hlen; lia|]);
    cbn [Umalloc.find_place]; rewrite Hp.
  - rewrite decide_False, decide_False by lia. by replace (S n - S (length []))%nat with n by (simpl; lia).
  - destruct Hi as [Hpx Hi]. rewrite decide_False, decide_False by lia. rewrite IH by (done || lia || (simpl in Hlen; lia)). done.
Qed.

(** The header below [bp] splits the list. *)
Lemma split_below p L q bp :
  incr p L.*1 → p < bp → bp ∉ L.*1 → q ∈ p :: L.*1 → q < bp → (∀ x, x ∈ L.*1 → x < bp → x <= q) →
  ∃ L1 L2, L = L1 ++ L2 ∧ q = default p (last L1.*1) ∧ (∀ b, b ∈ L1 → b.1 < bp) ∧ (∀ b, b ∈ L2 → bp < b.1).
Proof.
  revert p. induction L as [|[a z] L IH]; intros p Hi Hp Hn Hq Hlt Hmax.
  - exists [], []. cbn in *. split_and!; set_solver.
  - cbn in Hi, Hn, Hq, Hmax. destruct Hi as [Hpa Hi]. apply not_elem_of_cons in Hn as [Ha Hn].
    destruct (decide (a < bp)) as [Hab|Hab].
    + destruct (IH a) as (L1 & L2 & -> & E & H1 & H2); [done..| |done|set_solver|].
      { apply elem_of_cons in Hq as [->|Hq]; [|done]. specialize (Hmax a ltac:(set_solver) Hab). lia. }
      exists ((a, z) :: L1), L2. split_and!; [done| |set_solver|done].
      rewrite E, fmap_cons, last_cons. by destruct (last L1.*1).
    + exists [], ((a, z) :: L). split_and!; [done| |set_solver|].
      * apply elem_of_cons in Hq as [->|Hq]; [done|]. apply elem_of_cons in Hq as [->|Hq]; [lia|]. by apply (incr_in a) in Hq; [lia|].
      * intros b [->|Hb]%elem_of_cons; [simpl; lia|]. apply (incr_in a L.*1 b.1) in Hi; [lia|]. by apply list_elem_of_fmap_2.
Qed.

Lemma find_place_spec n bp s L :
  free_list s L → base < bp → bp ∉ L.*1 → (2 * S (length L) <= n)%nat →
  ∃ L1 L2, L = L1 ++ L2 ∧ Umalloc.find_place n bp (freep s) s = Some (default base (last L1.*1)) ∧
    (∀ b, b ∈ L1 → b.1 < bp) ∧ (∀ b, b ∈ L2 → bp < b.1).
Proof.
  intros [Hr _ _ Hs Hf] Hbp Hn Hlen.
  assert (incr base L.*1) as Hi by (eapply spaced_incr; [done|unfold HEADER; lia]).
  assert (∃ q, Umalloc.find_place n bp (freep s) s = Some q ∧ q ∈ base :: L.*1 ∧ q < bp ∧ ∀ x, x ∈ L.*1 → x < bp → x <= q)
    as (q & -> & Hq & Hlt & Hmax); cycle 1.
  { destruct (split_below base L q bp) as (L1 & L2 & -> & -> & H1 & H2); try done. eauto 10. }
  apply list_elem_of_split in Hf as (pre & suf & E).
  assert (incr (base - 1) (pre ++ freep s :: suf)) as Hi' by (rewrite <-E; cbn; split; [lia|done]).
  apply incr_split in Hi' as (Hpre & Hfb & Hsuf). pose proof Hr as Hr'. rewrite E in Hr. apply chain_app in Hr as [_ Hr].
  assert (length L = length (L.*1)) as El by (by rewrite length_fmap).
  assert (length suf <= length L)%nat as Hls.
  { assert (length (base :: L.*1) = length (pre ++ freep s :: suf)) as E' by (by rewrite E). rewrite length_app in E'. simpl in E'. lia. }
  assert (∀ x, x ∈ L.*1 → x ∈ pre ++ freep s :: suf) as Hin by (rewrite <-E; set_solver).
  assert ((bp ∉ suf) ∧ freep s ≠ bp) as [Hns Hne].
  { assert (bp ∉ pre ++ freep s :: suf) by (rewrite <-E; apply not_elem_of_cons; split; [lia|done]). set_solver. }
  destruct (decide (freep s < bp)) as [Hfl|Hfl].
  - destruct (place_before n (freep s) suf bp s) as (q & Hq & Hqin & Hqb & Hmax); [done|done|lia|done|done|lia|].
    exists q. split_and!; [done| |done|].
    + rewrite E. set_solver.
    + intros x Hx Hxb. apply Hin in Hx. apply elem_of_app in Hx as [Hx|Hx].
      * apply Hpre in Hx. apply elem_of_cons in Hqin as [->|Hqin]; [lia|]. apply (incr_in _ _ q) in Hsuf; [lia|done].
      * apply elem_of_cons in Hx as [->|Hx]; [|auto]. apply elem_of_cons in Hqin as [->|Hqin]; [lia|]. by apply (incr_in _ _ q) in Hsuf; [lia|].
  - rewrite (place_wrap n (freep s) suf) by (done || lia). apply place_before; (done || lia).
Qed.

(** ** Freeing a block *)

(** The block at [bp] joined with the one it touches on its right. *)
Definition join_right (bp z : Z) L : Z * list (Z * Z) :=
  match L with
  | (a, y) :: L' => if decide (bp + HEADER * z = a) then (z + y, L') else (z, L)
  | [] => (z, [])
  end.

(** The state in which [p] and [bp] have the given fields. *)
Definition updated s (p bp pp pz bpp bpz : Z) : arena :=
  Arena (λ b, if decide (b = p) then pp else if decide (b = bp) then bpp else h_ptr s b)
        (λ b, if decide (b = p) then pz else if decide (b = bp) then bpz else h_size s b) p.

Definition same_arena s s' : Prop :=
  (∀ a, h_ptr s a = h_ptr s' a) ∧ (∀ a, h_size s a = h_size s' a) ∧ freep s = freep s'.

Lemma free_list_ext s s' L : same_arena s s' → free_list s L → free_list s' L.
Proof.
  intros (Hp & Hz & Hf) [H1 H2 H3 H4 H5]. split.
  - eapply chain_frame; [|done]. done.
  - by rewrite <-Hz.
  - eapply Forall_impl; [done|]. intros b. by rewrite <-Hz.
  - done.
  - by rewrite <-Hf.
Qed.

Lemma plus_id p n : 0 <= p → 0 <= p + HEADER * n <= LIMIT → plus p n = p + HEADER * n.
Proof. intros Hp Hn. unfold plus. apply u32_id. unfold LIMIT, HEADER in *. lia. Qed.

(** The header below a block. *)
Lemma header_below s L1 L2 bp z :
  let p := default base (last L1.*1) in
  free_list s (L1 ++ L2) → owned (L1 ++ L2) bp z → (∀ b, b ∈ L1 → b.1 < bp) →
  (∃ pre, base :: L1.*1 = pre ++ [p]) ∧ base <= p < bp ∧ h_ptr s p = default base (head L2.*1) ∧
  p + HEADER * h_size s p <= bp ∧ 0 <= h_size s p ∧
  (p = base ∧ L1 = [] ∧ h_size s p = 0 ∨ ∃ L1', L1 = L1' ++ [(p, h_size s p)]).
Proof.
  intros p [Hr Hb Hz Hs _] [Hpos Hrange Hap] Hlo.
  destruct L1 as [|[a y] L1' _] using rev_ind; unfold p; clear p.
  - cbn in *. rewrite Hb. destruct Hr as [Hr _]. unfold HEADER in *. split_and!; [by exists []|lia|lia|done|lia|lia|by left].
  - assert ((L1' ++ [(a, y)]).*1 = L1'.*1 ++ [a]) as Ef by (by rewrite fmap_app). rewrite Ef, last_snoc. cbn [default id].
    assert ((a, y) ∈ (L1' ++ [(a, y)]) ++ L2) as Hin by set_solver.
    pose proof (spaced_in _ _ _ _ Hs Hin) as (H1 & H2 & H3 & _). specialize (Hap a y Hin). specialize (Hlo (a, y) ltac:(set_solver)).
    rewrite Forall_forall in Hz. pose proof (Hz (a, y) Hin) as Hzy. cbn in Hlo, Hzy. rewrite Hzy.
    rewrite fmap_app, Ef, <-app_assoc in Hr. apply (chain_app s (base :: L1'.*1) (a :: L2.*1)) in Hr as [_ [Hr _]]. unfold HEADER in *.
    split_and!; [by exists (base :: L1'.*1)|lia|lia|done|lia|lia|right; by exists L1'].
Qed.

Lemma join_right_eval s p bp z L1 L2 z' L2' :
  chain s (base :: (L1 ++ L2).*1) base → spaced (base + HEADER) (L1 ++ L2) → Forall (λ b, h_size s b.1 = b.2) (L1 ++ L2) →
  base + HEADER <= bp → bp + HEADER * z <= LIMIT → 0 < z → p ≠ bp → (∀ b, b ∈ L2 → bp < b.1) →
  h_size s bp = z → h_ptr s p = default base (head L2.*1) → join_right bp z L2 = (z', L2') →
  ∃ s1, (if decide (bp + HEADER * z = default base (head L2.*1))
         then λ s0, Done (tt, set_ptr bp
                (h_ptr (set_size bp (u32 (h_size s0 bp + h_size s0 (h_ptr s0 p))) s0)
                   (h_ptr (set_size bp (u32 (h_size s0 bp + h_size s0 (h_ptr s0 p))) s0) p))
                (set_size bp (u32 (h_size s0 bp + h_size s0 (h_ptr s0 p))) s0))
         else λ s0, Done (tt, set_ptr bp (h_ptr s0 p) s0)) s = Done (tt, s1) ∧
    (∀ a, h_ptr s1 a = if decide (a = bp) then default base (head L2'.*1) else h_ptr s a) ∧
    (∀ a, h_size s1 a = if decide (a = bp) then z' else h_size s a).
Proof.
  intros Hr Hs Hsz Hr1 Hr2 Hpos Hne Hhi Hz Hpp Ej. destruct L2 as [|[b y] L2]; cbn in Hpp, Ej |- *.
  - injection Ej as <- <-. rewrite decide_False by (unfold HEADER in *; lia). eexists. split; [done|].
    split; intros a; cbn; case_decide; by subst.
  - destruct (spaced_in _ _ b y Hs) as (H1 & H2 & H3 & _); [set_solver|].
    assert (h_size s b = y) as Hby by (rewrite Forall_forall in Hsz; apply (Hsz (b, y)); set_solver).
    assert (h_ptr s b = default base (head L2.*1)) as Hbp.
    { rewrite fmap_app, fmap_cons in Hr. apply (chain_app s (base :: L1.*1) (b :: L2.*1)) in Hr as [_ [Hr _]]. done. }
    destruct (decide (bp + HEADER * z = b)) as [E|E]; injection Ej as <- <-; (eexists; split; [done|]); (split; intros a; cbn).
    + case_decide; [|done]. by rewrite Hpp, Hbp.
    + case_decide; [|done]. rewrite Hz, Hpp, Hby. apply u32_id. unfold HEADER, LIMIT in *. lia.
    + case_decide; [|done]. done.
    + case_decide; [|done]. by subst.
Qed.

Lemma free_eval n s bp z L1 L2 :
  let p := default base (last L1.*1) in
  free_list s (L1 ++ L2) → owned (L1 ++ L2) bp z → h_size s bp = z → (∀ b, b ∈ L1 → b.1 < bp) → (∀ b, b ∈ L2 → bp < b.1) →
  Umalloc.find_place n bp (freep s) s = Some p →
  let '(z', L2') := join_right bp z L2 in
  let next := default base (head L2'.*1) in
  ∃ s', Umalloc.free n (plus bp 1) s = Done (tt, s') ∧
    same_arena s' (if decide (p + HEADER * h_size s p = bp)
                   then updated s p bp next (h_size s p + z') next z'
                   else updated s p bp bp (h_size s p) next z').
Proof.
  intros p Hfl How Hz Hlo Hhi Hfp. destruct (header_below s L1 L2 bp z Hfl How Hlo) as (_ & Hp & Hpp & Hpz & Hpz0 & _). fold p in Hp, Hpp, Hpz, Hpz0.
  destruct How as [Hpos [Hr1 Hr2] Hap]. unfold Umalloc.free.
  assert (plus (plus bp 1) (-1) = bp) as ->.
  { unfold plus. rewrite (u32_id (bp + _)), u32_id; unfold HEADER, LIMIT in *; lia. }
  unfold mbind, U_bind, look, change. cbn [prog_bind fst snd id]. rewrite Hfp, Hz.
  rewrite (plus_id bp z), Hpp by (unfold HEADER, LIMIT in *; lia).
  destruct (join_right bp z L2) as [z' L2'] eqn:Ej. set (next := default base (head L2'.*1)).
  match goal with |- ∃ s', prog_bind (?m s) ?k = _ ∧ _ =>
    assert (∃ s1, m s = Done (tt, s1) ∧ (∀ a, h_ptr s1 a = if decide (a = bp) then next else h_ptr s a) ∧
      (∀ a, h_size s1 a = if decide (a = bp) then z' else h_size s a)) as (s1 & -> & Hptr & Hsize) end.
  { destruct Hfl. eapply join_right_eval; eauto. lia. }
  assert (p ≠ bp) as Hne by lia. assert (0 <= z' <= LIMIT) as Hz'.
  { destruct L2 as [|[a y] L2]; cbn in Ej; [injection Ej as <- <-; unfold HEADER in *; lia|].
    destruct Hfl as [_ _ _ Hs _]. destruct (spaced_in _ _ a y Hs) as (H1 & H2 & H3 & _); [set_solver|].
    destruct (decide _); injection Ej as <- <-; unfold HEADER in *; lia. }
  cbn [prog_bind fst snd]. rewrite (Hsize p), (decide_False (P := p = bp)) by done.
  rewrite (plus_id p) by (unfold HEADER, LIMIT in *; lia).
  destruct (decide (p + HEADER * h_size s p = bp)) as [Hj|Hj]; cbn [prog_bind fst snd]; (eexists; split; [done|]);
    (split; [|split; [|done]]); intros a; unfold set_freep, set_ptr, set_size, updated; cbn [h_ptr h_size];
    rewrite ?Hptr, ?Hsize, ?(decide_True (P := bp = bp)), ?(decide_False (P := p = bp)) by done;
    repeat case_decide; subst; try done.
  rewrite u32_id; [done|]. unfold LIMIT, HEADER in *. lia.
Qed.

Lemma covers_cons a z L x : covers ((a, z) :: L) x ↔ a <= x < a + HEADER * z ∨ covers L x.
Proof. unfold covers. set_solver. Qed.

Lemma covers_nil x : ¬ covers [] x.
Proof. unfold covers. set_solver. Qed.

Lemma covers_app L1 L2 x : covers (L1 ++ L2) x ↔ covers L1 x ∨ covers L2 x.
Proof. unfold covers. set_solver. Qed.

Lemma join_right_spec s bp z L1 L2 z' L2' :
  free_list s (L1 ++ L2) → owned (L1 ++ L2) bp z → (∀ b, b ∈ L2 → bp < b.1) → join_right bp z L2 = (z', L2') →
  spaced (bp + HEADER * z' + 1) L2' ∧ z <= z' ∧ bp + HEADER * z' <= LIMIT ∧ L2' ⊆ L2 ∧ (length L2' <= length L2)%nat ∧
  chain s L2'.*1 base ∧ (∀ x, covers ((bp, z') :: L2') x ↔ covers L2 x ∨ bp <= x < bp + HEADER * z).
Proof.
  intros [Hr _ _ Hs _] [Hpos [Hr1 Hr2] Hap] Hhi Ej. apply spaced_app in Hs as [_ Hs].
  rewrite fmap_app in Hr. apply (chain_app s (base :: L1.*1)) in Hr as [_ Hr].
  destruct L2 as [|[a y] L2]; cbn in Ej, Hs.
  - injection Ej as <- <-. split_and!; try done. intros x. rewrite covers_cons. naive_solver.
  - destruct Hs as (_ & Hy & Hle & Hs). specialize (Hap a y ltac:(set_solver)). specialize (Hhi (a, y) ltac:(set_solver)). cbn in Hhi.
    destruct (decide (bp + HEADER * z = a)) as [E|E]; injection Ej as <- <-.
    + replace (bp + HEADER * (z + y)) with (a + HEADER * y) by (unfold HEADER in *; lia).
      split_and!; [done|lia|done|set_solver|simpl; lia|apply Hr|].
      intros x. rewrite !covers_cons. replace (bp + HEADER * (z + y)) with (a + HEADER * y) by (unfold HEADER in *; lia).
      destruct (decide (x < a)); unfold HEADER in *; intuition lia.
    + split; [cbn; unfold HEADER in *; split_and!; (done || lia)|]. split_and!; try done. intros x. rewrite covers_cons. naive_solver.
Qed.

(** The list with a new block after [p], and with the block [p] grown. *)
Section change.
Context (s : arena) (pre : list Z) (p bp z' : Z) (L1 L2' : list (Z * Z)).
Hypothesis Hpre : chain s pre p.
Hypothesis Hprelt : ∀ x, x ∈ pre → x < p.
Hypothesis Hp : base <= p < bp.
Hypothesis Hl2lt : ∀ x, x ∈ L2'.*1 → bp < x.
Hypothesis Hc2 : chain s L2'.*1 base.
Hypothesis Hb : h_size s base = 0.
Hypothesis Hz : ∀ b, b ∈ L1 ++ L2' → h_size s b.1 = b.2.
Hypothesis Hz' : 0 < z'.
Hypothesis Hle : bp + HEADER * z' <= LIMIT.
Hypothesis Hs2 : spaced (bp + HEADER * z' + 1) L2'.

Lemma frame_pre pp pz bpp bpz : chain (updated s p bp pp pz bpp bpz) pre p.
Proof. eapply chain_frame; [|done]. intros x Hx. cbn. specialize (Hprelt x Hx). by rewrite !decide_False by lia. Qed.

Lemma frame_post pp pz bpp bpz : chain (updated s p bp pp pz bpp bpz) L2'.*1 base.
Proof. eapply chain_frame; [|done]. intros x Hx. cbn. specialize (Hl2lt x Hx). by rewrite !decide_False by lia. Qed.

Lemma insert_node :
  base :: L1.*1 = pre ++ [p] → (∀ b, b ∈ L1 → b.1 < bp) → spaced (base + HEADER) L1 → gap (base + HEADER) L1 <= bp →
  free_list (updated s p bp bp (h_size s p) (default base (head L2'.*1)) z') (L1 ++ (bp, z') :: L2').
Proof.
  intros Epre Hlo Hs1 Hgap. split.
  - rewrite fmap_app, app_comm_cons, Epre. apply chain_app. split; [apply chain_app; split; [apply frame_pre|]|].
    + cbn. by rewrite decide_True.
    + cbn. rewrite decide_False, decide_True by lia. split; [done|apply frame_post].
  - cbn. destruct (decide (base = p)) as [<-|]; [done|]. by rewrite decide_False by lia.
  - apply Forall_forall. intros [a y] Hin. cbn. destruct (decide (a = p)) as [->|Hne].
    + apply (Hz (p, y)). apply elem_of_app in Hin as [?|[[= <- <-]|Hin]%elem_of_cons]; [set_solver|lia|].
      specialize (Hl2lt p). set_solver by lia.
    + destruct (decide (a = bp)) as [->|Hnb]; [|apply (Hz (a, y)); set_solver].
      apply elem_of_app in Hin as [Hin|[[= <-]|Hin]%elem_of_cons]; [by apply Hlo in Hin; simpl in Hin; lia|done|].
      apply (list_elem_of_fmap_2 fst) in Hin. apply Hl2lt in Hin. simpl in Hin. lia.
  - apply spaced_app. split; [done|]. cbn. done.
  - cbn. rewrite fmap_app, app_comm_cons, Epre. set_solver.
Qed.

Lemma grow_node L1' y :
  L1 = L1' ++ [(p, y)] → pre = base :: L1'.*1 → h_size s p = y → 0 < y → p + HEADER * y = bp → spaced (base + HEADER) L1 →
  free_list (updated s p bp (default base (head L2'.*1)) (y + z') (default base (head L2'.*1)) z') (L1' ++ (p, y + z') :: L2').
Proof.
  intros E1 Epre Hy Hypos Hj Hs1. rewrite E1 in Hs1. apply spaced_app in Hs1 as [Hs1 Hs1']. cbn in Hs1'.
  assert (base < p) as Hbp by (apply Hprelt; rewrite Epre; set_solver). split.
  - rewrite fmap_app, app_comm_cons, <-Epre. apply chain_app. split; [apply frame_pre|].
    cbn. rewrite decide_True by done. split; [done|apply frame_post].
  - cbn. by rewrite !decide_False by lia.
  - apply Forall_forall. intros [a w] Hin. cbn.
    assert (a < p ∧ (a, w) ∈ L1' ∨ a = p ∧ w = y + z' ∨ bp < a ∧ (a, w) ∈ L2') as Ha.
    { apply elem_of_app in Hin as [Hin|[[= -> ->]|Hin]%elem_of_cons]; [left; split; [|done]|auto|right; right; split; [|done]].
      - apply Hprelt. rewrite Epre. apply elem_of_cons. right. by apply (list_elem_of_fmap_2 fst) in Hin.
      - by apply (list_elem_of_fmap_2 fst), Hl2lt in Hin. }
    destruct Ha as [[? ?]|[[-> ->]|[? ?]]]; [|by rewrite decide_True|];
      (rewrite !decide_False by lia; apply (Hz (a, w)); rewrite E1; set_solver).
  - apply spaced_app. split; [done|]. cbn. destruct Hs1' as (? & ? & ? & _). split_and!; [done|lia|unfold HEADER in *; lia|].
    by replace (p + HEADER * (y + z') + 1) with (bp + HEADER * z' + 1) by (unfold HEADER in *; lia).
  - cbn. rewrite fmap_app. set_solver.
Qed.
End change.

Lemma updated_free_list s bp z L1 L2 :
  let p := default base (last L1.*1) in
  free_list s (L1 ++ L2) → owned (L1 ++ L2) bp z → (∀ b, b ∈ L1 → b.1 < bp) → (∀ b, b ∈ L2 → bp < b.1) →
  let '(z', L2') := join_right bp z L2 in
  let next := default base (head L2'.*1) in
  ∃ L', free_list (if decide (p + HEADER * h_size s p = bp)
                   then updated s p bp next (h_size s p + z') next z'
                   else updated s p bp bp (h_size s p) next z') L' ∧
    (length L' <= S (length (L1 ++ L2)))%nat ∧
    (∀ x, covers L' x ↔ covers (L1 ++ L2) x ∨ bp <= x < bp + HEADER * z).
Proof.
  intros p Hfl How Hlo Hhi. destruct (join_right bp z L2) as [z' L2'] eqn:Ej.
  destruct (header_below s L1 L2 bp z Hfl How Hlo) as ((pre & Epre) & Hp & Hpp & Hpz & Hpz0 & Hcase). fold p in Epre, Hp, Hpp, Hpz, Hpz0, Hcase.
  clearbody p. destruct (join_right_spec s bp z L1 L2 z' L2' Hfl How Hhi Ej) as (Hs2 & Hz' & Hle & Hsub & Hlen & Hc2 & Hcov).
  destruct Hfl as [Hr Hb Hz Hs _], How as [Hpos [Hr1 Hr2] _].
  assert (∀ x, x ∈ pre → x < p) as Hprelt.
  { assert (incr (base - 1) (pre ++ p :: L2.*1)) as Hi; [|by apply incr_split in Hi as (? & _)].
    replace (pre ++ p :: L2.*1) with (base :: (L1 ++ L2).*1); [|rewrite fmap_app, app_comm_cons, Epre, <-app_assoc; done].
    split; [lia|]. eapply spaced_incr; [done|unfold HEADER; lia]. }
  rewrite fmap_app, app_comm_cons, Epre, <-app_assoc in Hr. apply chain_app in Hr as [Hpre _]. cbn in Hpre. unfold id in Hpre.
  assert (∀ x, x ∈ L2'.*1 → bp < x) as Hl2lt by (intros x (b & -> & Hb')%list_elem_of_fmap; apply Hhi, Hsub, Hb').
  assert (∀ b, b ∈ L1 ++ L2' → h_size s b.1 = b.2) as Hz1.
  { rewrite Forall_forall in Hz. intros b Hb'. apply Hz. set_solver. }
  apply spaced_app in Hs as [Hs1 _]. rewrite !length_app.
  destruct (decide (p + HEADER * h_size s p = bp)) as [Hj|Hj].
  - destruct Hcase as [(Ep & _ & E0)|(L1' & E1)]; [rewrite E0 in Hj; lia|].
    assert (pre = base :: L1'.*1) as Epre'.
    { rewrite E1, fmap_app, app_comm_cons in Epre. by apply app_inj_tail in Epre as [-> _]. }
    exists (L1' ++ (p, h_size s p + z') :: L2'). split; [eapply grow_node; eauto; try lia|].
    + rewrite E1 in Hs1. apply spaced_app in Hs1 as [_ Hs1]. by apply Hs1.
    + split; [rewrite E1, !length_app; simpl; lia|]. intros x. rewrite E1, !covers_app, !covers_cons. specialize (Hcov x).
      rewrite covers_cons in Hcov. pose proof (covers_nil x).
      assert (p <= x < p + HEADER * (h_size s p + z') ↔ p <= x < p + HEADER * h_size s p ∨ bp <= x < bp + HEADER * z')
        by (unfold HEADER in *; lia). tauto.
  - exists (L1 ++ (bp, z') :: L2'). split; [eapply insert_node; eauto; try lia|].
    + destruct Hcase as [(-> & -> & _)|(L1' & ->)]; [done|]. rewrite gap_app. cbn. unfold HEADER in *. lia.
    + split; [rewrite length_app; simpl; lia|]. intros x. rewrite !covers_app. specialize (Hcov x). naive_solver.
Qed.

(** The block at [bp], of [z] units, goes to the free list; no other header changes. *)
Definition freed s L (bp z : Z) s' L' : Prop :=
  free_list s' L' ∧ (length L' <= S (length L))%nat ∧
  (∀ x, covers L' x ↔ covers L x ∨ bp <= x < bp + HEADER * z) ∧
  (∀ a, ¬ covers L' a → a ≠ base → h_size s' a = h_size s a).

Lemma covers_in L a z : (a, z) ∈ L → 0 < z → covers L a.
Proof. intros Hin Hz. exists a, z. split; [done|]. unfold HEADER. lia. Qed.

Lemma free_frees n s L bp z :
  free_list s L → owned L bp z → h_size s bp = z → (2 * S (length L) <= n)%nat →
  ∃ s' L', Umalloc.free n (plus bp 1) s = Done (tt, s') ∧ freed s L bp z s' L'.
Proof.
  intros Hfl How Hz Hn. pose proof How as [Hpos [Hr1 Hr2] Hap].
  assert (bp ∉ L.*1) as Hni.
  { intros ([a y] & -> & Hin)%list_elem_of_fmap. cbn in *. specialize (Hap a y Hin). destruct Hfl as [_ _ _ Hs _].
    apply (spaced_in _ _ a y) in Hs; [|done]. unfold HEADER in *. lia. }
  destruct (find_place_spec n bp s L Hfl) as (L1 & L2 & -> & Hfp & Hlo & Hhi); [unfold HEADER in *; lia|done|done|].
  pose proof (free_eval n s bp z L1 L2 Hfl How Hz Hlo Hhi Hfp) as He.
  pose proof (updated_free_list s bp z L1 L2 Hfl How Hlo Hhi) as Hu.
  destruct (header_below s L1 L2 bp z Hfl How Hlo) as (_ & _ & _ & _ & _ & Hcase).
  destruct (join_right bp z L2) as [z' L2'] eqn:Ej. set (p := default base (last L1.*1)) in *. set (next := default base _) in He, Hu.
  destruct He as (s' & Hrun & Hsame), Hu as (L' & Hfl' & Hlen & Hcov).
  exists s', L'. split; [done|]. split_and!; [|done|done|].
  - eapply free_list_ext; [|exact Hfl']. destruct Hsame as (H1 & H2 & H3). split_and!; intros; by rewrite ?H1, ?H2, ?H3.
  - intros a Ha Hab. destruct Hsame as (_ & -> & _).
    assert (a ≠ bp). { intros ->. apply Ha, Hcov. right. unfold HEADER in *. lia. }
    assert (a ≠ p).
    { intros ->. destruct Hcase as [(? & _)|(L1' & E1)]; [done|]. apply Ha, Hcov. left.
      apply (covers_in _ p (h_size s p)); [rewrite E1; set_solver|]. destruct Hfl as [_ _ _ Hs _].
      apply (spaced_in _ _ p (h_size s p)) in Hs; [by apply Hs|rewrite E1; set_solver]. }
    case_decide; cbn; by rewrite !decide_False.
Qed.

(** ** Taking a block *)

(** A block of [k] units at [b] leaves the free list; headers of other blocks in use
    do not change. *)
Definition taken s L (b k : Z) s' L' : Prop :=
  free_list s' L' ∧ owned L' b k ∧ h_size s' b = k ∧ (length L' <= length L)%nat ∧
  (∀ x, covers L x ↔ covers L' x ∨ b <= x < b + HEADER * k) ∧
  (∀ a, ¬ covers L a → a ≠ base → h_size s' a = h_size s a).

Lemma chain_lookup s l b i x : chain s l b → l !! i = Some x → (tail l ++ [b]) !! i = Some (h_ptr s x).
Proof.
  revert i. induction l as [|y l IH]; intros i; [done|]. intros [Hy Hc] Hi. destruct i as [|i]; cbn in *.
  - injection Hi as ->. rewrite Hy. by destruct l.
  - specialize (IH _ Hc Hi). by destruct l.
Qed.

Lemma incr_NoDup p l : incr p l → NoDup l.
Proof.
  revert p. induction l as [|x l IH]; intros p; cbn; [constructor|]. intros [? H]. constructor; [|eauto].
  intros Hx. apply (incr_in x) in Hx; [lia|done].
Qed.

(** Only one header points to a given one. *)
Lemma ring_inj s L x y :
  free_list s L → x ∈ base :: L.*1 → y ∈ base :: L.*1 → h_ptr s x = h_ptr s y → x = y.
Proof.
  intros [Hr _ _ Hs _] (i & Hi)%list_elem_of_lookup (j & Hj)%list_elem_of_lookup E.
  pose proof (chain_lookup _ _ _ _ _ Hr Hi) as H1. pose proof (chain_lookup _ _ _ _ _ Hr Hj) as H2. rewrite <-E in H2. cbn in H1, H2.
  assert (incr base L.*1) as Hinc by (eapply spaced_incr; [done|unfold HEADER; lia]).
  assert (NoDup (L.*1 ++ [base])) as Hnd.
  { apply NoDup_app. split_and!; [by eapply incr_NoDup| |apply NoDup_singleton].
    intros a Ha ->%list_elem_of_singleton. apply (incr_in base) in Ha; [lia|done]. }
  pose proof (NoDup_lookup _ _ _ _ Hnd H1 H2) as ->. congruence.
Qed.

(** The neighbours of a block of the list. *)
Lemma block_at s L1 q z L2 :
  free_list s (L1 ++ (q, z) :: L2) →
  ∃ pre, base :: L1.*1 = pre ++ [default base (last L1.*1)] ∧ chain s pre (default base (last L1.*1)) ∧
    h_ptr s (default base (last L1.*1)) = q ∧ h_ptr s q = default base (head L2.*1) ∧ chain s L2.*1 base.
Proof.
  intros [Hr _ _ _ _]. rewrite fmap_app in Hr. apply (chain_app s (base :: L1.*1)) in Hr as [H1 [Hq H2]]. cbn in H1.
  destruct L1 as [|[a y] L1' _] using rev_ind.
  - cbn in *. exists []. split_and!; [done|done|apply H1|done|done].
  - rewrite fmap_app in *. cbn [fmap list_fmap fst] in *. rewrite last_snoc. cbn [default id].
    exists (base :: L1'.*1). apply (chain_app s (base :: L1'.*1) [a]) in H1 as [H1 [H3 _]]. split_and!; done.
Qed.

(** Where the other blocks are. *)
Lemma spaced_apart lo L1 q z L2 b y :
  spaced lo (L1 ++ (q, z) :: L2) → (b, y) ∈ L1 ++ L2 → b + HEADER * y < q ∧ (b, y) ∈ L1 ∨ q + HEADER * z < b ∧ (b, y) ∈ L2.
Proof.
  intros [H1 (H2 & H3 & H4 & H5)]%spaced_app [Hin|Hin]%elem_of_app.
  - left. apply (spaced_in _ _ b y) in H1; [|done]. split; [|done]. lia.
  - right. apply (spaced_in _ _ b y) in H5; [|done]. split; [lia|done].
Qed.

Lemma take_all s L1 q z L2 :
  free_list s (L1 ++ (q, z) :: L2) →
  taken s (L1 ++ (q, z) :: L2) q z
    (set_freep (default base (last L1.*1)) (set_ptr (default base (last L1.*1)) (h_ptr s q) s)) (L1 ++ L2).
Proof.
  intros Hfl. destruct (block_at s L1 q z L2 Hfl) as (pre & Epre & Hpre & Hp & Hq & H2). set (p := default base (last L1.*1)) in *.
  destruct Hfl as [Hr Hb Hz Hs _]. destruct (spaced_in _ _ q z Hs) as (H3 & H4 & H5 & _); [set_solver|].
  assert (incr (base - 1) (pre ++ p :: (q, z).1 :: L2.*1)) as Hi.
  { replace (pre ++ p :: (q, z).1 :: L2.*1) with (base :: (L1 ++ (q, z) :: L2).*1);
      [|rewrite fmap_app, app_comm_cons, Epre, <-app_assoc; done]. split; [lia|]. eapply spaced_incr; [done|unfold HEADER; lia]. }
  apply incr_split in Hi as (Hprelt & _ & Hi). cbn in Hi. destruct Hi as [Hpq Hi].
  pose proof (λ b y, spaced_apart _ L1 q z L2 b y Hs) as Hap. split_and!; [split|split| | | |].
  - rewrite fmap_app, app_comm_cons, Epre, <-app_assoc. apply chain_app. split; [eapply chain_frame; [|done]|split].
    + intros x Hx. cbn. apply Hprelt in Hx. by rewrite decide_False by lia.
    + cbn. rewrite decide_True by done. by rewrite Hq.
    + eapply chain_frame; [|done]. intros x Hx. cbn. apply (incr_in q) in Hx; [|done]. by rewrite decide_False by lia.
  - done.
  - rewrite Forall_forall in Hz |- *. intros x Hx. apply Hz. set_solver.
  - apply spaced_app in Hs as [Hs1 (Hs2 & _ & _ & Hs3)]. apply spaced_app. split; [done|]. eapply spaced_mono; [done|]. unfold HEADER in *. lia.
  - cbn. rewrite fmap_app, app_comm_cons, Epre. set_solver.
  - done.
  - lia.
  - intros b y Hin. destruct (Hap b y Hin); unfold HEADER in *; lia.
  - cbn. rewrite Forall_forall in Hz. apply (Hz (q, z)). set_solver.
  - rewrite !length_app. simpl. lia.
  - intros x. rewrite !covers_app, covers_cons. tauto.
  - done.
Qed.

Lemma take_end s L1 q z L2 k p :
  free_list s (L1 ++ (q, z) :: L2) → 0 < k < z → p ∈ base :: (L1 ++ (q, z) :: L2).*1 →
  let b := q + HEADER * (z - k) in
  taken s (L1 ++ (q, z) :: L2) b k (set_freep p (set_size b k (set_size q (z - k) s))) (L1 ++ (q, z - k) :: L2).
Proof.
  intros [Hr Hb Hz Hs _] Hk Hp b. destruct (spaced_in _ _ q z Hs) as (H3 & H4 & H5 & _); [set_solver|].
  pose proof (λ b y, spaced_apart _ L1 q z L2 b y Hs) as Hap. rewrite Forall_forall in Hz.
  assert ((L1 ++ (q, z - k) :: L2).*1 = (L1 ++ (q, z) :: L2).*1) as Efst by (by rewrite !fmap_app).
  split_and!; [split|split| | | |].
  - rewrite Efst. eapply chain_frame; [|done]. done.
  - cbn. rewrite !decide_False by (unfold b, HEADER in *; lia). done.
  - apply Forall_forall. intros [a y] Hin. cbn.
    assert (a = q ∧ y = z - k ∨ (a, y) ∈ L1 ++ L2) as [[-> ->]|Hin'] by set_solver.
    + rewrite decide_False, decide_True by (unfold b, HEADER in *; lia). done.
    + destruct (spaced_in _ _ a y Hs) as (_ & ? & _); [set_solver|].
      assert (a ≠ q ∧ a ≠ b) as [? ?] by (destruct (Hap a y Hin'); unfold b, HEADER in *; lia).
      rewrite !decide_False by done. apply (Hz (a, y)). set_solver.
  - apply spaced_app in Hs as [Hs1 (Hs2 & _ & _ & Hs3)]. apply spaced_app. split; [done|]. cbn.
    split_and!; [done|lia|unfold HEADER in *; lia|]. eapply spaced_mono; [done|]. unfold HEADER in *. lia.
  - cbn. by rewrite Efst.
  - lia.
  - unfold b, HEADER in *. lia.
  - intros a y Hin. assert (a = q ∧ y = z - k ∨ (a, y) ∈ L1 ++ L2) as [[-> ->]|Hin'] by set_solver; [left; unfold b; lia|].
    destruct (Hap a y Hin'); unfold b, HEADER in *; lia.
  - cbn. by rewrite decide_True.
  - rewrite !length_app. done.
  - intros x. rewrite !covers_app, !covers_cons.
    assert (q <= x < q + HEADER * z ↔ q <= x < q + HEADER * (z - k) ∨ b <= x < b + HEADER * k) by (unfold b, HEADER in *; lia). tauto.
  - intros a Ha _. cbn. rewrite !decide_False; [done| |].
    + intros ->. apply Ha, covers_app. right. apply covers_cons. left. unfold HEADER in *. lia.
    + intros ->. apply Ha, covers_app. right. apply covers_cons. left. unfold b, HEADER in *. lia.
Qed.

Lemma take_takes s L q z prev k :
  free_list s L → (q, z) ∈ L → prev ∈ base :: L.*1 → h_ptr s prev = q → 0 < k → k <= z →
  ∃ b s' L', Umalloc.take_block k prev q s = Done (b + HEADER, s') ∧ taken s L b k s' L'.
Proof.
  intros Hfl (L1 & L2 & ->)%list_elem_of_split Hprev Hq Hk Hz.
  assert (h_size s q = z) as Hsz by (destruct Hfl as [_ _ H _ _]; rewrite Forall_forall in H; apply (H (q, z)); set_solver).
  destruct (spaced_in _ _ q z (fl_spaced _ _ Hfl)) as (H3 & H4 & H5 & _); [set_solver|].
  unfold Umalloc.take_block, mbind, U_bind, look, change. cbn [prog_bind fst snd id]. rewrite Hsz.
  destruct (decide (z = k)) as [->|Hne]; cbn [prog_bind fst snd].
  - destruct (block_at s L1 q k L2 Hfl) as (pre & Epre & _ & Hp & _).
    assert (prev = default base (last L1.*1)) as ->.
    { apply (ring_inj s _ _ _ Hfl Hprev); [|congruence]. rewrite fmap_app, app_comm_cons, Epre. set_solver. }
    exists q. eexists. exists (L1 ++ L2). split; [|by apply take_all].
    unfold mret, U_ret. cbn [prog_bind fst snd]. by rewrite plus_id by (unfold LIMIT, HEADER in *; lia).
  - exists (q + HEADER * (z - k)). eexists. exists (L1 ++ (q, z - k) :: L2). split; [|by apply (take_end s L1 q z L2 k prev); [|lia|]].
    assert (h_size (set_size q (u32 (z - k)) s) q = z - k) as ->.
    { cbn. rewrite decide_True by done. apply u32_id. unfold LIMIT, HEADER in *. lia. }
    rewrite (u32_id (z - k)), (plus_id q (z - k)) by (unfold LIMIT, HEADER in *; lia). unfold mret, U_ret. cbn [prog_bind fst snd].
    by rewrite plus_id by (unfold LIMIT, HEADER in *; lia).
Qed.

(** ** Searching the list *)

(** What the loop does when it is back at [freep]. *)
Definition grow (n : nat) (k : Z) : U arena Z :=
  p ← Umalloc.morecore (S n) k;
  if decide (p = 0) then mret 0 else
  next ← look (λ s, h_ptr s p);
  Umalloc.malloc_loop n k p next.

Lemma malloc_loop_S n k prevp p s :
  Umalloc.malloc_loop (S n) k prevp p s =
  if decide (k <= h_size s p) then Umalloc.take_block k prevp p s
  else if decide (p = freep s) then grow n k s
  else Umalloc.malloc_loop n k p (h_ptr s p) s.
Proof. cbn [Umalloc.malloc_loop]. unfold mbind at 1, U_bind at 1. cbn [look prog_bind fst snd id]. by repeat case_decide. Qed.

Lemma malloc_scan n k s l : ∀ prevp,
  chain s (prevp :: l) (freep s) → freep s ∉ l → (length l < n)%nat →
  (∃ pr q, (pr = prevp ∨ pr ∈ l) ∧ h_ptr s pr = q ∧ (q ∈ l ∨ q = freep s) ∧ k <= h_size s q ∧
     Umalloc.malloc_loop n k prevp (h_ptr s prevp) s = Umalloc.take_block k pr q s) ∨
  ((∀ q, q ∈ l ∨ q = freep s → h_size s q < k) ∧
   Umalloc.malloc_loop n k prevp (h_ptr s prevp) s = grow (n - S (length l)) k s).
Proof.
  revert n. induction l as [|x l IH]; intros n prevp [Hp Hc] Hnf Hn; cbn in Hp; (destruct n as [|n]; [simpl in Hn; lia|]);
    rewrite malloc_loop_S; unfold id in *; rewrite Hp.
  - destruct (decide (k <= h_size s (freep s))) as [Hk|Hk].
    + left. exists prevp, (freep s). naive_solver.
    + right. split; [set_solver by lia|]. rewrite decide_True by done. cbn [length]. by replace (S n - 1)%nat with n by lia.
  - destruct (decide (k <= h_size s x)) as [Hk|Hk].
    + left. exists prevp, x. set_solver.
    + rewrite decide_False by set_solver. destruct (IH n x Hc) as [(pr & q & H1 & H2 & H3 & H4 & H5)|[H1 H2]]; [set_solver|simpl in Hn; lia|..].
      * left. exists pr, q. split_and!; [set_solver|done|set_solver|done|]. done.
      * right. split; [set_solver by lia|]. done.
Qed.

Lemma ring_from_freep s L :
  free_list s L → ∃ l, chain s (freep s :: l) (freep s) ∧ (freep s ∉ l) ∧ length l = length L ∧
    (∀ x, x ∈ freep s :: l ↔ x ∈ base :: L.*1).
Proof.
  intros [Hr _ _ Hs Hf]. pose proof Hf as (pre & suf & E)%list_elem_of_split.
  assert (incr (base - 1) (pre ++ freep s :: suf)) as Hi.
  { rewrite <-E. split; [lia|]. eapply spaced_incr; [done|unfold HEADER; lia]. }
  pose proof (incr_NoDup _ _ Hi) as Hnd. exists (suf ++ pre). split_and!.
  - rewrite E in Hr. apply chain_app in Hr as [H1 H2]. apply (chain_app s (freep s :: suf) pre). split; [|done].
    destruct pre as [|y pre]; [|by injection E as <- _]. injection E as E' _. by rewrite <-E' in H2 |- *.
  - apply NoDup_app in Hnd as (_ & H1 & H2). apply NoDup_cons in H2 as [H2 _]. set_solver.
  - assert (length (base :: L.*1) = length (pre ++ freep s :: suf)) as El by (by rewrite E).
    rewrite length_app in El |- *. cbn in El. rewrite length_fmap in El. lia.
  - intros x. rewrite E. set_solver.
Qed.

Lemma malloc_search n k s L :
  free_list s L → 0 < k → (length L < n)%nat →
  (∃ b s' L', Umalloc.malloc_loop n k (freep s) (h_ptr s (freep s)) s = Done (b + HEADER, s') ∧ taken s L b k s' L') ∨
  ((∀ a z, (a, z) ∈ L → z < k) ∧
   Umalloc.malloc_loop n k (freep s) (h_ptr s (freep s)) s = grow (n - S (length L)) k s).
Proof.
  intros Hfl Hk Hn. destruct (ring_from_freep s L Hfl) as (l & Hc & Hnf & Hl & Hin).
  destruct (malloc_scan n k s l (freep s) Hc Hnf ltac:(lia)) as [(pr & q & H1 & H2 & H3 & H4 & H5)|[H1 H2]].
  - left. assert (q ∈ base :: L.*1) as [->|([a z] & Eq & Hq)%list_elem_of_fmap]%elem_of_cons by (apply Hin; set_solver).
    { destruct Hfl as [_ Hb _ _ _]. lia. }
    cbn in Eq. subst a. assert (h_size s q = z) as Ez by (destruct Hfl as [_ _ H _ _]; rewrite Forall_forall in H; by apply (H (q, z))).
    destruct (take_takes s L q z pr k) as (b & s' & L' & Ht & Htk); try done; [apply Hin; set_solver|lia|].
    exists b, s', L'. by rewrite H5.
  - right. rewrite Hl in H2. split; [|done]. intros a z Haz.
    assert (h_size s a = z) as <- by (destruct Hfl as [_ _ H _ _]; rewrite Forall_forall in H; by apply (H (a, z))).
    apply H1. assert (a ∈ freep s :: l) as Ha; [|set_solver]. apply Hin, elem_of_cons. right. by apply (list_elem_of_fmap_2 fst) in Haz.
Qed.

(** ** More memory *)

(** Bytes without a gap are in one block. *)
Lemma range_in_block lo L a len :
  spaced lo L → 0 < len → (∀ x, a <= x < a + len → covers L x) → ∃ b y, (b, y) ∈ L ∧ b <= a ∧ a + len <= b + HEADER * y.
Proof.
  intros Hs Hlen Hc. destruct (Hc a) as (b & y & Hin & Hb); [lia|]. exists b, y. split_and!; [done|lia|].
  destruct (decide (a + len <= b + HEADER * y)) as [|Hgt]; [done|exfalso].
  destruct (Hc (b + HEADER * y)) as (b' & y' & Hin' & Hb'); [lia|].
  apply list_elem_of_split in Hin as (L1 & L2 & ->).
  assert (b' = b ∧ y' = y ∨ (b', y') ∈ L1 ++ L2) as [[-> ->]|Hin''] by set_solver; [lia|].
  destruct (spaced_in _ _ b y Hs) as (_ & ? & _); [set_solver|].
  destruct (spaced_apart _ _ _ _ _ _ _ Hs Hin''); unfold HEADER in *; lia.
Qed.

(** A header outside of the list may change. *)
Lemma free_list_set_size s L a z : free_list s L → a ≠ base → a ∉ L.*1 → free_list (set_size a z s) L.
Proof.
  intros [H1 H2 H3 H4 H5] Hb Ha. split; [|by cbn; rewrite decide_False|..|done|done].
  - eapply chain_frame; [|done]. done.
  - rewrite Forall_forall in H3 |- *. intros b Hin. cbn. rewrite decide_False; [by apply H3|].
    intros <-. by apply Ha, list_elem_of_fmap_2.
Qed.

(** A block of [k] units at [b], from the free list and [nu] new units at [a]. *)
Definition taken_with s L (a nu b k : Z) s' L' : Prop :=
  free_list s' L' ∧ owned L' b k ∧ h_size s' b = k ∧
  (∀ x, covers L x ∨ a <= x < a + HEADER * nu ↔ covers L' x ∨ b <= x < b + HEADER * k) ∧
  (∀ c, ¬ covers L c → ¬ a <= c < a + HEADER * nu → c ≠ base → h_size s' c = h_size s c).

Definition units_asked (k : Z) : Z := if decide (k < 4096) then 4096 else k.

Lemma owned_not_in s L a z : free_list s L → owned L a z → a ∉ L.*1.
Proof.
  intros [_ _ _ Hs _] [Hpos _ Hap] ([b y] & -> & Hin)%list_elem_of_fmap. cbn in *. specialize (Hap b y Hin).
  apply (spaced_in _ _ b y) in Hs; [|done]. unfold HEADER in *. lia.
Qed.

Lemma grow_spec n k s L :
  free_list s L → 0 < k → HEADER * units_asked k < 2 ^ 31 → (2 * S (length L) <= n)%nat →
  ∃ K, grow n k s = Call (Sys.Sbrk (HEADER * units_asked k)) K ∧ K (u32 (-1)) = Done (0, s) ∧
    ∀ a, owned L a (units_asked k) →
      ∃ b s' L', K a = Done (b + HEADER, s') ∧ taken_with s L a (units_asked k) b k s' L'.
Proof.
  intros Hfl Hk Hnu Hn. set (nu := units_asked k) in *. assert (k <= nu) as Hknu by (unfold nu, units_asked; case_decide; lia).
  eexists. split.
  { unfold grow, Umalloc.morecore, mbind, U_bind. cbn [sys prog_bind fst snd].
    change (if decide (k < 4096) then 4096 else k) with nu. rewrite (Z.mul_comm nu), s32_id by (unfold HEADER in *; lia). done. }
  split; [done|]. intros a How. pose proof How as [Hpos [Hr1 Hr2] _]. cbv beta.
  rewrite decide_False by (change (u32 (-1)) with 4294967295; unfold LIMIT, HEADER in *; lia).
  set (s1 := set_size a nu s). assert (free_list s1 L) as Hfl1.
  { apply free_list_set_size; [done|unfold HEADER in *; lia|by eapply owned_not_in]. }
  assert (h_size s1 a = nu) as Hs1 by (cbn; by rewrite decide_True).
  destruct (free_frees (S n) s1 L a nu Hfl1 How Hs1 ltac:(lia)) as (s2 & L2 & Hfree & Hfl2 & Hlen & Hcov & Hframe).
  cbn [change prog_bind fst snd]. fold s1. rewrite Hfree. cbn [prog_bind fst snd look].
  assert (freep s2 ≠ 0) as Hnz.
  { destruct Hfl2 as [_ _ _ Hs2 Hf2]. apply elem_of_cons in Hf2 as [->|Hf2]; [lia|].
    assert (incr base L2.*1) as Hi by (eapply spaced_incr; [done|unfold HEADER; lia]). apply (incr_in base) in Hf2; [lia|done]. }
  rewrite decide_False by done. cbn [prog_bind fst snd].
  destruct (malloc_search n k s2 L2 Hfl2 Hk ltac:(lia)) as [(b & s' & L' & Hrun & Htk)|[Hsmall _]]; cycle 1.
  { exfalso. destruct (range_in_block _ L2 a (HEADER * nu) (fl_spaced _ _ Hfl2)) as (b & y & Hin & ? & ?);
      [unfold HEADER; lia|intros x Hx; apply Hcov; by right|]. specialize (Hsmall b y Hin). unfold HEADER in *. lia. }
  exists b, s', L'. split; [done|]. destruct Htk as (T1 & T2 & T3 & _ & T5 & T6). split_and!; [done..| |].
  - intros x. by rewrite <-T5, Hcov.
  - intros c Hc Hr Hcb. assert (¬ covers L2 c) as Hc2 by (rewrite Hcov; tauto). rewrite T6, Hframe by done.
    cbn. rewrite decide_False; [done|]. intros ->. apply Hr. unfold HEADER. lia.
Qed.

(** ** The allocator *)

(** The state before the first call, or with a free list. *)
Definition heap_ok s L : Prop := free_list s L ∨ freep s = 0 ∧ L = [].

Lemma malloc_start n nbytes s L :
  heap_ok s L → 0 <= nbytes < 2 ^ 32 - 7 →
  ∃ s0, free_list s0 L ∧ (∀ a, a ≠ base → h_size s0 a = h_size s a) ∧
    Umalloc.malloc base n nbytes s =
      Umalloc.malloc_loop n ((nbytes + 7) / HEADER + 1) (freep s0) (h_ptr s0 (freep s0)) s0.
Proof.
  intros Hok Hnb. unfold Umalloc.malloc, mbind, U_bind. cbn [look prog_bind fst snd id].
  replace (u32 (nbytes + HEADER - 1)) with (nbytes + 7) by (unfold HEADER; rewrite u32_id; lia).
  destruct Hok as [Hfl|[H0 ->]].
  - exists s. split_and!; [done..|]. rewrite decide_False; [done|].
    destruct Hfl as [_ _ _ Hs Hf]. apply elem_of_cons in Hf as [->|Hf]; [lia|].
    assert (incr base L.*1) as Hi by (eapply spaced_incr; [done|unfold HEADER; lia]). apply (incr_in base) in Hf; [lia|done].
  - eexists. split; [|split; [|by rewrite decide_True]]; cycle 1.
    + intros a Ha. cbn. by rewrite decide_False.
    + split; cbn; rewrite ?decide_True by done; try done. set_solver.
Qed.
End spec.

(** C20. [malloc] hands out memory nobody else has.  The free list is a ring in the
    order of addresses, without adjacent blocks, and the bytes of its blocks are the
    free memory.  If a block is large enough, [malloc] returns without a system call;
    otherwise it asks the system for at least what it needs, and returns null, with
    the list unchanged, if it gets nothing.  What it returns is the memory after the
    header of a block of the right number of units; the bytes of this block were free,
    or new, and are no longer on the list, all others still are, and the headers of
    blocks in use are untouched.  The search ends within the given number of rounds. *)
Theorem malloc_spec base n nbytes s L :
  0 < base → heap_ok base s L → 0 <= nbytes < 2 ^ 31 - 16 → (3 * S (length L) <= n)%nat →
  let k := (nbytes + 7) / HEADER + 1 in
  nbytes <= HEADER * (k - 1) ∧
  ((∃ b s' L', Umalloc.malloc base n nbytes s = Done (b + HEADER, s') ∧ taken base s L b k s' L') ∨
   ((∀ a z, (a, z) ∈ L → z < k) ∧
    ∃ K, Umalloc.malloc base n nbytes s = Call (Sys.Sbrk (HEADER * units_asked k)) K ∧
      (∃ s', K (u32 (-1)) = Done (0, s') ∧ free_list base s' L) ∧
      ∀ a, owned base L a (units_asked k) →
        ∃ b s' L', K a = Done (b + HEADER, s') ∧ taken_with base s L a (units_asked k) b k s' L')).
Proof.
  intros Hb Hok Hnb Hn k. assert (0 < k ∧ nbytes <= HEADER * (k - 1) ∧ HEADER * units_asked k < 2 ^ 31) as (Hk & Hnk & Hu).
  { unfold k, units_asked, HEADER. pose proof (Z.div_mod (nbytes + 7) 8 ltac:(lia)). pose proof (Z.mod_pos_bound (nbytes + 7) 8 ltac:(lia)).
    case_decide; lia. }
  split; [done|]. destruct (malloc_start base Hb n nbytes s L Hok ltac:(lia)) as (s0 & Hfl & Hsame & ->). fold k.
  destruct (malloc_search base Hb n k s0 L Hfl Hk ltac:(lia)) as [(b & s' & L' & -> & T)|[Hsmall ->]].
  - left. exists b, s', L'. split; [done|]. destruct T as (T1 & T2 & T3 & T4 & T5 & T6). split_and!; try done.
    intros a Ha Hab. rewrite T6 by done. by apply Hsame.
  - right. split; [done|]. destruct (grow_spec base Hb (n - S (length L)) k s0 L Hfl Hk Hu ltac:(lia)) as (K & -> & HK0 & HK).
    exists K. split_and!; [done|by exists s0|]. intros a How. destruct (HK a How) as (b & s' & L' & E & T1 & T2 & T3 & T4 & T5).
    exists b, s', L'. split; [done|]. split_and!; try done. intros c Hc Hr Hcb. rewrite T5 by done. by apply Hsame.
Qed.

(** C21. [free] gives a block back: after it, the bytes of the block are on the free
    list along with all that were there, the list is again in order and without
    adjacent blocks, and the headers of other blocks in use are untouched. *)
Theorem free_spec base n s L bp z :
  0 < base → free_list base s L → owned base L bp z → h_size s bp = z → (2 * S (length L) <= n)%nat →
  ∃ s' L', Umalloc.free n (plus bp 1) s = Done (tt, s') ∧ freed base s L bp z s' L'.
Proof. intros Hb. by apply free_frees. Qed.

(** A request of two gigabytes or more does not fail: no block is large enough,
    and the size that [morecore] passes to [sbrk], an int, is negative, so that
    [malloc] asks the system to take memory away from the program. *)
Theorem malloc_shrinks base n nbytes s L :
  0 < base → heap_ok base s L → 2 ^ 31 <= nbytes <= 2 ^ 32 - 17 → (length L < n)%nat →
  ∃ c K, Umalloc.malloc base n nbytes s = Call (Sys.Sbrk c) K ∧ c < 0.
Proof.
  intros Hb Hok Hnb Hn. destruct (malloc_start base Hb n nbytes s L Hok ltac:(lia)) as (s0 & Hfl & _ & ->).
  set (k := (nbytes + 7) / HEADER + 1). assert (2 ^ 31 < HEADER * k < 2 ^ 32) as Hk.
  { unfold k, HEADER. pose proof (Z.div_mod (nbytes + 7) 8 ltac:(lia)). pose proof (Z.mod_pos_bound (nbytes + 7) 8 ltac:(lia)). lia. }
  destruct (malloc_search base Hb n k s0 L Hfl ltac:(unfold HEADER in *; lia) Hn) as [(b & s' & L' & _ & T)|[_ ->]].
  { exfalso. destruct T as (_ & [_ [? ?] _] & _). unfold LIMIT, HEADER in *. lia. }
  exists (s32 (k * HEADER)). eexists. split.
  - unfold grow, Umalloc.morecore, mbind, U_bind. cbn [sys prog_bind fst snd]. by rewrite (decide_False (P := k < 4096)) by (unfold HEADER in *; lia).
  - unfold s32. rewrite Z.mul_comm. replace (HEADER * k + 2 ^ 31) with ((HEADER * k - 2 ^ 31) + 1 * 2 ^ 32) by lia.
    rewrite Z.mod_add, Z.mod_small by lia. lia.
Qed.

(** ** Examples: a program with its base header at 96 *)

Definition no_heap : arena := Arena (λ _, 0) (λ _, 0) 0.

Lemma no_heap_ok : heap_ok 96 no_heap [].
Proof. by right. Qed.

Lemma malloc_spec_witness :
  ∃ K, Umalloc.malloc 96 3 100 no_heap = Call (Sys.Sbrk 32768) K ∧
    ∃ b s' L', K 4096 = Done (b + 8, s') ∧ taken_with 96 no_heap [] 4096 4096 b 14 s' L'.
Proof.
  destruct (malloc_spec 96 3 100 no_heap [] ltac:(lia) no_heap_ok ltac:(lia) ltac:(simpl; lia)) as [_ [(b & s' & L' & E & _)|(_ & K & E & _ & HK)]].
  - exfalso. apply (f_equal (λ p, match p with Done _ => true | _ => false end)) in E. vm_compute in E. discriminate E.
  - exists K. split; [exact E|]. apply (HK 4096). split; [by vm_compute|vm_compute; split; discriminate|]. intros b y Hin. by apply not_elem_of_nil in Hin.
Defined.

Lemma malloc_shrinks_witness :
  ∃ c K, Umalloc.malloc 96 1 3000000000 no_heap = Call (Sys.Sbrk c) K ∧ c < 0.
Proof. apply (malloc_shrinks 96 1 3000000000 no_heap []); [lia|apply no_heap_ok|lia|simpl; lia]. Defined.

(** One free block of eight units at 4096, and a block in use right after it. *)
Definition small_heap : arena :=
  Arena (λ a, if decide (a = 96) then 4096 else 96) (λ a, if decide (a = 4096) then 8 else if decide (a = 4160) then 4 else 0) 96.

Lemma small_heap_list : free_list 96 small_heap [(4096, 8)].
Proof.
  split; [done|done|by repeat constructor| |set_solver]. cbn. unfold HEADER, LIMIT. lia.
Qed.

Lemma free_spec_witness :
  ∃ s' L', Umalloc.free 4 (plus 4160 1) small_heap = Done (tt, s') ∧ freed 96 small_heap [(4096, 8)] 4160 4 s' L'.
Proof.
  apply (free_spec 96 4 small_heap [(4096, 8)] 4160 4); [lia|apply small_heap_list| |done|simpl; lia].
  split; [lia|unfold HEADER, LIMIT; lia|]. intros b y [= -> ->]%list_elem_of_singleton. unfold HEADER. lia.
Defined.
