(* ===== verification/MkfsSpec.v ===== *)
(** * What mkfs.c builds

    The image is described by the files it holds: each has a type, its bytes, the
    sectors of its blocks and of its indirect block.  Every routine of mkfs.c is
    shown to take such a description to another one, whatever the byte order of
    the machine it runs on; at the end the kernel's own definitions of inodes and
    file contents are applied to the image. *)

From stdpp Require Import base list gmap strings.
From Stdlib Require Import ZArith Lia.
From S2P Require Import Prelude KState Spinlock CString Proc ProcForms Syscall KExt KRun Ide Bio Log Cprintf Fs FsSpec Mkfs.

(** ** Integers and bytes *)

Lemma word_bytes_of_word a b c d :
  is_u8 a → is_u8 b → is_u8 c → is_u8 d → word_bytes (word_of a b c d) = [a; b; c; d].
Proof.
  unfold is_u8, word_bytes, word_byte, word_of, u8. intros Ha Hb Hc Hd. rewrite !Z.shiftr_div_pow2 by lia.
  change (2 ^ 8) with 256 in *. change (2 ^ (8 * 0)) with 1. change (2 ^ (8 * 1)) with 256.
  change (2 ^ (8 * 2)) with (256 * 256). change (2 ^ (8 * 3)) with (256 * (256 * 256)).
  assert (∀ x y, 0 <= x < 256 → (x + 256 * y) / 256 = y) as Hdiv by (intros x y ?; rewrite Z.mul_comm, Z.div_add, Z.div_small by lia; lia).
  assert (∀ x y, 0 <= x < 256 → (x + 256 * y) mod 256 = x) as Hmod by (intros x y ?; rewrite Z.mul_comm, Z.mod_add, Z.mod_small by lia; lia).
  rewrite Z.div_1_r, <-!Z.div_div, !Hdiv, !Hmod, Z.mod_small by lia. done.
Qed.

Lemma half_bytes_of_half a b : is_u8 a → is_u8 b → half_bytes (a + 256 * b) = [a; b].
Proof.
  unfold is_u8, half_bytes, u8. intros Ha Hb. rewrite !Z.shiftr_div_pow2 by lia. change (2 ^ 8) with 256 in *.
  rewrite Z.mul_comm, Z.mod_add, Z.div_add, Z.div_small, !Z.mod_small by lia. by rewrite Z.add_0_l.
Qed.

Lemma word_at_bytes v : word_at (word_bytes v) 0 = u32 v.
Proof. unfold word_at. cbn. apply word_of_bytes. Qed.

Lemma s16_u16 v : s16 (u16 v) = s16 v.
Proof. unfold s16, u16. by rewrite Zplus_mod_idemp_l. Qed.

Lemma u16_s16 v : u16 (s16 v) = u16 v.
Proof. unfold s16, u16. rewrite <-Zminus_mod_idemp_l, Zmod_mod, Zminus_mod_idemp_l. f_equal. lia. Qed.

Lemma half_bytes_u16 v : half_bytes (u16 v) = half_bytes v.
Proof.
  rewrite <-half_of_bytes. unfold half_at, half_bytes at 2 3. cbn [lookup_total list_lookup_total].
  rewrite half_bytes_of_half; [done| |]; unfold is_u8, u8; apply Z.mod_pos_bound; lia.
Qed.

Lemma half_bytes_s16 v : half_bytes (s16 v) = half_bytes v.
Proof. by rewrite <-half_bytes_u16, u16_s16, half_bytes_u16. Qed.

Lemma word_bytes_u32 v : word_bytes (u32 v) = word_bytes v.
Proof. rewrite <-word_of_bytes. apply word_bytes_of_word; apply word_byte_u8. Qed.

Section order.
Context (be : bool).

Lemma int_bytes_xint v : Mkfs.int_bytes be (Mkfs.xint be v) = word_bytes v.
Proof.
  unfold Mkfs.int_bytes, Mkfs.xint, Mkfs.int_in. cbn [drop take word_bytes]. unfold Mkfs.host_order. destruct be.
  - unfold reverse. cbn [rev_append]. unfold word_at. cbn [lookup_total list_lookup_total Nat.add].
    by rewrite word_bytes_of_word by apply word_byte_u8.
  - fold (word_bytes v). by rewrite word_at_bytes, word_bytes_u32.
Qed.

Lemma xint_xint v : Mkfs.xint be (Mkfs.xint be v) = u32 v.
Proof.
  unfold Mkfs.xint at 1, Mkfs.int_in. change (take 4 (drop 0 (word_bytes ?w))) with (word_bytes w). fold (Mkfs.int_bytes be (Mkfs.xint be v)).
  by rewrite int_bytes_xint, word_at_bytes.
Qed.

Lemma xint_u32 v : Mkfs.xint be (u32 v) = Mkfs.xint be v.
Proof. unfold Mkfs.xint. by rewrite word_bytes_u32. Qed.

Lemma xint_0 v : is_u32 v → Mkfs.xint be v = 0 ↔ v = 0.
Proof.
  intros Hv. assert (Mkfs.xint be 0 = 0) as H0 by (by destruct be). split; [|by intros ->]. intros E.
  rewrite <-(u32_id v Hv), <-xint_xint, E. exact H0.
Qed.

(** A word of a list of bytes, as the machine sees it. *)
Lemma int_in_bytes d1 v d2 : Mkfs.int_in be (d1 ++ word_bytes v ++ d2) (length d1) = Mkfs.xint be v.
Proof. unfold Mkfs.int_in, Mkfs.xint. by rewrite drop_app_length. Qed.
Lemma short_in_bytes d1 v d2 : Mkfs.short_in be (d1 ++ half_bytes v ++ d2) (length d1) = Mkfs.xshort be v.
Proof. unfold Mkfs.short_in, Mkfs.xshort. by rewrite drop_app_length. Qed.

Lemma short_bytes_xshort v : Mkfs.short_bytes be (s16 (Mkfs.xshort be v)) = half_bytes v.
Proof.
  unfold Mkfs.short_bytes, Mkfs.xshort, Mkfs.short_in. rewrite half_bytes_s16. cbn [drop take half_bytes]. unfold Mkfs.host_order. destruct be.
  - unfold reverse. cbn [rev_append]. unfold half_at. cbn [lookup_total list_lookup_total].
    rewrite half_bytes_of_half; [done| |]; unfold is_u8, u8; apply Z.mod_pos_bound; lia.
  - fold (half_bytes v). by rewrite half_of_bytes, half_bytes_u16.
Qed.

(** ** Inodes in the memory of the machine *)

Definition hosted (d : dinode) : dinode :=
  Dinode (s16 (Mkfs.xshort be (di_type d))) (s16 (Mkfs.xshort be (di_major d))) (s16 (Mkfs.xshort be (di_minor d)))
    (s16 (Mkfs.xshort be (di_nlink d))) (Mkfs.xint be (di_size d)) (Mkfs.xint be <$> di_addrs d).

Lemma din_bytes_hosted d : Mkfs.din_bytes be (hosted d) = dinode_bytes d.
Proof.
  unfold Mkfs.din_bytes, dinode_bytes, hosted. cbn [di_type di_major di_minor di_nlink di_size di_addrs].
  rewrite !short_bytes_xshort, int_bytes_xint, <-list_fmap_compose. do 6 f_equal. apply list_fmap_ext. intros i v _. apply int_bytes_xint.
Qed.

Lemma length_words l : length (mjoin (word_bytes <$> l)) = (4 * length l)%nat.
Proof.
  induction l as [|v l IH]; [done|]. change (mjoin (word_bytes <$> v :: l)) with (word_bytes v ++ mjoin (word_bytes <$> l)).
  rewrite length_app, IH. cbn. lia.
Qed.

Lemma length_dinode_bytes d : length (di_addrs d) = 13%nat → length (dinode_bytes d) = 64%nat.
Proof. intros Hd. unfold dinode_bytes. cbn. rewrite length_words, Hd. done. Qed.

Lemma words_split l i v : l !! i = Some v →
  mjoin (word_bytes <$> l) = mjoin (word_bytes <$> take i l) ++ word_bytes v ++ mjoin (word_bytes <$> drop (S i) l).
Proof.
  intros Hi. rewrite <-(take_drop_middle l i v Hi) at 1. rewrite fmap_app, join_app. done.
Qed.

Lemma din_in_dinode d1 d d2 :
  length (di_addrs d) = 13%nat → Mkfs.din_in be (d1 ++ dinode_bytes d ++ d2) (length d1) = hosted d.
Proof.
  intros Hd. unfold Mkfs.din_in, hosted, dinode_bytes. rewrite <-!app_assoc.
  assert (∀ n l1 v l2, length l1 = n → Mkfs.short_in be (d1 ++ l1 ++ half_bytes v ++ l2) (length d1 + n) = Mkfs.xshort be v) as Hs.
  { intros n l1 v l2 <-. rewrite app_assoc, <-length_app. apply short_in_bytes. }
  assert (∀ n l1 v l2, length l1 = n → Mkfs.int_in be (d1 ++ l1 ++ word_bytes v ++ l2) (length d1 + n) = Mkfs.xint be v) as Hw.
  { intros n l1 v l2 <-. rewrite app_assoc, <-length_app. apply int_in_bytes. }
  set (h := half_bytes (di_type d) ++ half_bytes (di_major d) ++ half_bytes (di_minor d) ++ half_bytes (di_nlink d)).
  f_equal.
  - by rewrite short_in_bytes.
  - f_equal. by apply (Hs 2%nat (half_bytes (di_type d))).
  - f_equal. by apply (Hs 4%nat (half_bytes (di_type d) ++ half_bytes (di_major d))).
  - f_equal. by apply (Hs 6%nat (half_bytes (di_type d) ++ half_bytes (di_major d) ++ half_bytes (di_minor d))).
  - by apply (Hw 8%nat h).
  - apply list_eq. intros i. rewrite !list_lookup_fmap. destruct (decide (i < 13)%nat) as [Hi|Hi].
    + rewrite lookup_seq_lt by done. destruct (lookup_lt_is_Some_2 (di_addrs d) i) as [v Hv]; [lia|]. rewrite Hv. cbn [fmap option_fmap option_map]. f_equal.
      rewrite (words_split _ i v Hv), <-!app_assoc, <-Nat.add_assoc.
      apply (Hw (12 + 4 * i)%nat (h ++ word_bytes (di_size d) ++ mjoin (word_bytes <$> take i (di_addrs d)))).
      rewrite !length_app, length_words, length_take. cbn. lia.
    + rewrite lookup_ge_None_2 by (rewrite length_seq; unfold NDIRECT; lia). by rewrite lookup_ge_None_2 by lia.
Qed.
End order.

(** ** What an image holds *)

Record afile := AFile { af_type : Z; af_data : list Z; af_secs : list Z; af_ind : Z }.

(** The sectors a file has, its indirect block included. *)
Definition sectors (g : afile) : list Z := af_secs g ++ (if decide (af_ind g = 0) then [] else [af_ind g]).

Definition addrs_of (secs : list Z) (ind : Z) : list Z := take 12 (secs ++ replicate 12 0) ++ [ind].
Definition dinode_of (g : afile) : dinode :=
  Dinode (af_type g) 0 0 1 (Z.of_nat (length (af_data g))) (addrs_of (af_secs g) (af_ind g)).

Implicit Types (m : Mkfs.image) (g : afile) (gs : list afile) (r : Z → dinode).

Definition blk m (s : Z) : list Z := default [] (Mkfs.im_file m !! s).

(** The indirect block lists the sectors from the thirteenth on, and the blocks
    together are the bytes of the file, followed by zeroes. *)
Record stored m g : Prop := {
  st_ind : (af_ind g = 0 ∧ (length (af_secs g) <= 12)%nat) ∨
    (af_ind g ≠ 0 ∧ (12 <= length (af_secs g) <= 140)%nat ∧
     blk m (af_ind g) = mjoin (word_bytes <$> drop 12 (af_secs g)) ++ replicate (512 - 4 * (length (af_secs g) - 12)) 0);
  st_data : mjoin (blk m <$> af_secs g) = af_data g ++ replicate (512 * length (af_secs g) - length (af_data g)) 0
}.

(** The first sector after the superblock, the inodes and the bitmap. *)
Definition FIRST : Z := 29.

Definition super_block : list Z :=
  put_bytes 0 (word_bytes Mkfs.fs_size ++ word_bytes Mkfs.nblocks ++ word_bytes Mkfs.ninodes ++ word_bytes Mkfs.nlog) Mkfs.zeroes.

Record disk_ok m r gs : Prop := {
  do_sect s : 0 <= s < 1024 → ∃ d, Mkfs.im_file m !! s = Some d ∧ length d = 512%nat;
  do_table i : 0 <= i < 208 → take 64 (drop (dinode_off i) (blk m (Mkfs.i2b i))) = dinode_bytes (r i) ∧ length (di_addrs (r i)) = 13%nat;
  do_used : Mkfs.usedblocks m = Mkfs.freeblock m;
  do_range : FIRST <= Mkfs.freeblock m <= 1024;
  do_perm : mjoin (sectors <$> gs) ≡ₚ seqZ FIRST (Mkfs.freeblock m - FIRST);
  do_fresh s : Mkfs.freeblock m <= s < 1024 → blk m s = Mkfs.zeroes;
  do_super : blk m 1 = super_block;
  do_files : Forall (stored m) gs
}.

Lemma i2b_range i : 0 <= i < 208 → Mkfs.i2b i = i / 8 + 2 ∧ 2 <= Mkfs.i2b i < FIRST - 1.
Proof.
  intros Hi. assert (Mkfs.i2b i = i / 8 + 2) as ->.
  { unfold Mkfs.i2b. change IPB with 8. apply u32_id. pose proof (Z.div_pos i 8). pose proof (Z.div_lt_upper_bound i 8 26). unfold is_u32. lia. }
  pose proof (Z.div_pos i 8). pose proof (Z.div_lt_upper_bound i 8 26). unfold FIRST. lia.
Qed.

Lemma dinode_off_range i : (dinode_off i + 64 <= 512)%nat ∧ dinode_off i = (64 * Z.to_nat (i mod 8))%nat.
Proof. unfold dinode_off. change IPB with 8. change SIZEOF_DINODE with 64. pose proof (Z.mod_pos_bound i 8). lia. Qed.

Lemma disk_ok_perm m r gs gs' : gs ≡ₚ gs' → disk_ok m r gs → disk_ok m r gs'.
Proof.
  intros Hp [H1 H2 H3 H4 H5 H6 HS H7]. split; try done.
  - by rewrite <-Hp.
  - by rewrite <-Hp.
Qed.

Lemma disk_in m r gs s : disk_ok m r gs → s ∈ mjoin (sectors <$> gs) ↔ FIRST <= s < Mkfs.freeblock m.
Proof. intros Hd. rewrite (do_perm _ _ _ Hd), elem_of_seqZ. lia. Qed.

Lemma disk_nodup m r gs : disk_ok m r gs → NoDup (mjoin (sectors <$> gs)).
Proof. intros Hd. rewrite (do_perm _ _ _ Hd). apply NoDup_seqZ. Qed.

Lemma sectors_cons g gs : mjoin (sectors <$> g :: gs) = sectors g ++ mjoin (sectors <$> gs).
Proof. done. Qed.

Lemma sectors_in g gs s : g ∈ gs → s ∈ sectors g → s ∈ mjoin (sectors <$> gs).
Proof. intros Hg Hs. apply list_elem_of_join. exists (sectors g). split; [done|]. by apply list_elem_of_fmap_2. Qed.

(** A file does not notice changes of other sectors. *)
Lemma stored_frame m m' g : (∀ s, s ∈ sectors g → Mkfs.im_file m' !! s = Mkfs.im_file m !! s) → stored m g → stored m' g.
Proof.
  intros He [Hi Hd]. assert (∀ s, s ∈ sectors g → blk m' s = blk m s) as Hb by (intros s Hs; unfold blk; by rewrite He).
  unfold sectors in Hb. split.
  - destruct Hi as [Hi|(Hi & Hl & Hw)]; [by left|right]. split_and!; try done; [lia..|]. rewrite Hb; [done|]. rewrite decide_False by done. set_solver.
  - rewrite <-Hd. f_equal. apply list_fmap_ext. intros i s Hs%list_elem_of_lookup_2. apply Hb. set_solver.
Qed.

(** A change of one file that takes [n] new sectors. *)
Lemma disk_ok_evolve n m m' r g g' gs :
  disk_ok m r (g :: gs) →
  Mkfs.freeblock m' = Mkfs.freeblock m + Z.of_nat n → Mkfs.usedblocks m' = Mkfs.freeblock m' → Mkfs.freeblock m' <= 1024 →
  sectors g' ≡ₚ seqZ (Mkfs.freeblock m) (Z.of_nat n) ++ sectors g →
  (∀ s, s ∉ sectors g' → Mkfs.im_file m' !! s = Mkfs.im_file m !! s) →
  (∀ s, s ∈ sectors g' → ∃ d, Mkfs.im_file m' !! s = Some d ∧ length d = 512%nat) →
  stored m' g' → disk_ok m' r (g' :: gs).
Proof.
  intros Hd Hf Hu H1024 Hp Hout Hin Hst. pose proof Hd as [H1 H2 H3 H4 H5 H6 HS H7]. apply Forall_cons in H7 as [_ H7].
  assert (∀ s, s ∈ sectors g' → FIRST <= s < Mkfs.freeblock m') as Hr.
  { intros s. rewrite Hp, elem_of_app, elem_of_seqZ. intros [?|Hs]; [lia|]. assert (s ∈ mjoin (sectors <$> g :: gs)) as Hs' by (rewrite sectors_cons; apply elem_of_app; by left).
    apply (disk_in _ _ _ _ Hd) in Hs'. lia. }
  assert (∀ s, s ∉ sectors g' → blk m' s = blk m s) as Hblk by (intros s Hs; unfold blk; by rewrite Hout).
  split; [| |done|lia| | | |].
  - intros s Hs. destruct (decide (s ∈ sectors g')) as [Hi|Hi]; [by apply Hin|]. rewrite Hout by done. by apply H1.
  - intros i Hi. pose proof (i2b_range i Hi) as [_ Hb]. rewrite Hblk; [by apply H2|]. intros Hs%Hr. lia.
  - rewrite sectors_cons, Hp, <-app_assoc, <-sectors_cons, H5, Permutation_app_comm.
    replace (Mkfs.freeblock m' - FIRST) with ((Mkfs.freeblock m - FIRST) + Z.of_nat n) by lia. rewrite seqZ_app by lia.
    by replace (FIRST + (Mkfs.freeblock m - FIRST)) with (Mkfs.freeblock m) by lia.
  - intros s Hs. rewrite Hblk; [apply H6; lia|]. intros Hr'%Hr. lia.
  - rewrite Hblk; [done|]. intros Hr'%Hr. unfold FIRST in *. lia.
  - constructor; [done|]. apply Forall_forall. intros h Hh. rewrite Forall_forall in H7. apply (stored_frame m); [|by apply H7].
    intros s Hs. apply Hout. rewrite Hp, elem_of_app, elem_of_seqZ. pose proof (sectors_in h gs s Hh Hs) as Hs'.
    intros [Hn|Hg].
    + assert (s ∈ mjoin (sectors <$> g :: gs)) as Hs'' by (rewrite sectors_cons; apply elem_of_app; by right). apply (disk_in _ _ _ _ Hd) in Hs''. lia.
    + pose proof (disk_nodup _ _ _ Hd) as Hnd. rewrite sectors_cons in Hnd. apply NoDup_app in Hnd as (_ & Hnd & _). by eapply Hnd.
Qed.

(** ** Sectors and inodes *)

Definition written (s : Z) (d : list Z) m : Mkfs.image :=
  Mkfs.Image (<[s := d]> (Mkfs.im_file m)) (Mkfs.freeblock m) (Mkfs.usedblocks m) (Mkfs.bitblocks m) (Mkfs.freeinode m).
Definition bumped m : Mkfs.image :=
  Mkfs.Image (Mkfs.im_file m) (Mkfs.freeblock m + 1) (Mkfs.usedblocks m + 1) (Mkfs.bitblocks m) (Mkfs.freeinode m).

Lemma rsect_ok m s d : Mkfs.im_file m !! s = Some d → Mkfs.rsect s m = Ret d m.
Proof. intros Hs. unfold Mkfs.rsect. erewrite bind_Ret; [|reflexivity]. by rewrite Hs. Qed.

Lemma new_block_ok m r gs : disk_ok m r gs → Mkfs.new_block m = Ret (Mkfs.freeblock m) (bumped m).
Proof.
  intros Hd. unfold Mkfs.new_block. erewrite bind_Ret; [|reflexivity]. erewrite bind_Ret; [|reflexivity].
  pose proof (do_range _ _ _ Hd). rewrite (do_used _ _ _ Hd). rewrite u32_id by (unfold is_u32, FIRST in *; lia).
  unfold bumped. by rewrite (do_used _ _ _ Hd).
Qed.

Lemma blk_written s d m s' : blk (written s d m) s' = if decide (s' = s) then d else blk m s'.
Proof. unfold blk, written. cbn. case_decide as Hs; [subst; by rewrite lookup_insert_eq|by rewrite lookup_insert_ne]. Qed.

Section inodes.
Context (be : bool).

Lemma rinode_ok m r gs i : disk_ok m r gs → 0 <= i < 208 → Mkfs.rinode be i m = Ret (hosted be (r i)) m.
Proof.
  intros Hd Hi. destruct (do_table _ _ _ Hd i Hi) as [Ht Ha]. pose proof (i2b_range i Hi) as [_ Hr].
  destruct (do_sect _ _ _ Hd (Mkfs.i2b i)) as (d & Hs & Hl); [unfold FIRST in *; lia|]. unfold Mkfs.rinode. erewrite bind_Ret; [|by apply rsect_ok].
  unfold mret, M_ret. f_equal. assert (blk m (Mkfs.i2b i) = d) as Hb by (unfold blk; by rewrite Hs). rewrite Hb in Ht.
  rewrite <-(take_drop (dinode_off i) d), <-(take_drop 64 (drop (dinode_off i) d)), Ht.
  pose proof (dinode_off_range i) as [Ho _]. assert (length (take (dinode_off i) d) = dinode_off i) as Hlen by (rewrite length_take; lia).
  rewrite <-Hlen at 3. by apply din_in_dinode.
Qed.

Lemma winode_ok m r gs i d :
  disk_ok m r gs → 0 <= i < 208 → length (di_addrs d) = 13%nat →
  ∃ buf, Mkfs.winode be i (hosted be d) m = Ret tt (written (Mkfs.i2b i) buf m) ∧
    disk_ok (written (Mkfs.i2b i) buf m) (λ j, if decide (j = i) then d else r j) gs.
Proof.
  intros Hd Hi Hda. pose proof (i2b_range i Hi) as [Hi2 Hr]. pose proof (dinode_off_range i) as [Ho Hoe].
  destruct (do_sect _ _ _ Hd (Mkfs.i2b i)) as (b & Hs & Hl); [unfold FIRST in *; lia|].
  exists (put_bytes (dinode_off i) (dinode_bytes d) b). split.
  { unfold Mkfs.winode. erewrite bind_Ret; [|by apply rsect_ok]. by rewrite din_bytes_hosted. }
  pose proof (length_dinode_bytes d Hda) as Hld. pose proof Hd as [H1 H2 H3 H4 H5 H6 HS H7]. split; try done.
  - intros s Hs'. cbn [written Mkfs.im_file]. destruct (decide (s = Mkfs.i2b i)) as [->|Hne].
    + rewrite lookup_insert_eq. eexists. split; [done|]. by rewrite length_put_bytes.
    + rewrite lookup_insert_ne by done. by apply H1.
  - intros j Hj. rewrite blk_written. pose proof (i2b_range j Hj) as [Hj2 _]. pose proof (dinode_off_range j) as [_ Hje].
    destruct (decide (j = i)) as [->|Hne].
    + rewrite decide_True by done. split; [|done]. rewrite <-Hld at 1. apply slice_put_same. lia.
    + destruct (H2 j Hj) as [Ht Ha]. split; [|done]. case_decide as Hb; [|done]. assert (b = blk m (Mkfs.i2b i)) as -> by (unfold blk; by rewrite Hs).
      rewrite slice_put_other; [by rewrite <-Hb|lia|].
      pose proof (Z.div_mod i 8 ltac:(lia)). pose proof (Z.div_mod j 8 ltac:(lia)). assert (i / 8 = j / 8) by lia.
      pose proof (Z.mod_pos_bound i 8 ltac:(lia)). pose proof (Z.mod_pos_bound j 8 ltac:(lia)). rewrite Hld. lia.
  - intros s Hs'. rewrite blk_written, decide_False by (unfold FIRST in *; cbn in Hs'; lia). by apply H6.
  - by rewrite blk_written, decide_False by lia.
  - rewrite Forall_forall in *. intros g Hg. apply (stored_frame m); [|by apply H7]. intros s Hs'. cbn [written Mkfs.im_file]. rewrite lookup_insert_ne; [done|].
    pose proof (proj1 (disk_in _ _ _ s Hd) (sectors_in g gs s Hg Hs')). unfold FIRST in *. lia.
Qed.
End inodes.

(** ** The addresses of an inode *)

Lemma addrs_length secs ind : length (addrs_of secs ind) = 13%nat.
Proof. unfold addrs_of. rewrite length_app, length_take, length_app, length_replicate. cbn [length]. lia. Qed.

Lemma addrs_direct secs ind i : (i < 12)%nat → addrs_of secs ind !!! i = default 0 (secs !! i).
Proof.
  intros Hi. unfold addrs_of. rewrite list_lookup_total_alt, lookup_app_l by (rewrite length_take, length_app, length_replicate; lia).
  rewrite lookup_take_lt by done. destruct (secs !! i) as [x|] eqn:Hx.
  - by rewrite (lookup_app_l_Some _ _ _ _ Hx).
  - apply lookup_ge_None in Hx. rewrite lookup_app_r by done. rewrite lookup_replicate_2 by lia. done.
Qed.

Lemma addrs_indirect secs ind : addrs_of secs ind !!! 12%nat = ind.
Proof.
  unfold addrs_of. apply list_lookup_total_correct. rewrite lookup_app_r; rewrite length_take, length_app, length_replicate; [|lia].
  by replace (12 - _)%nat with 0%nat by lia.
Qed.

Lemma addrs_set_direct secs ind v : (length secs < 12)%nat → <[length secs := v]> (addrs_of secs ind) = addrs_of (secs ++ [v]) ind.
Proof.
  intros Hl. unfold addrs_of. rewrite insert_app_l by (rewrite length_take, length_app, length_replicate; lia). f_equal.
  rewrite !take_app, !take_ge, length_app by (rewrite ?length_app; cbn; lia). rewrite <-app_assoc.
  rewrite insert_app_r_alt, Nat.sub_diag by lia. f_equal. cbn [length]. rewrite !take_replicate.
  replace (12 - length secs)%nat with (S (12 - (length secs + 1)))%nat by lia. rewrite Nat.min_l by lia. rewrite Nat.min_l by lia.
  cbn [take]. by rewrite take_nil.
Qed.

Lemma addrs_set_indirect secs ind v : <[12%nat := v]> (addrs_of secs ind) = addrs_of secs v.
Proof.
  unfold addrs_of. rewrite insert_app_r_alt by (rewrite length_take, length_app, length_replicate; lia).
  rewrite length_take, length_app, length_replicate. by replace (12 - _)%nat with 0%nat by lia.
Qed.

Lemma addrs_more secs ind v : (12 <= length secs)%nat → addrs_of (secs ++ [v]) ind = addrs_of secs ind.
Proof. intros Hl. unfold addrs_of. by rewrite <-app_assoc, !take_app_le by done. Qed.

(** ** The indirect block *)

Definition words (l : list Z) : list Z := mjoin (word_bytes <$> l).

Lemma words_app l1 l2 : words (l1 ++ l2) = words l1 ++ words l2.
Proof. unfold words. by rewrite fmap_app, join_app. Qed.

Section indirect.
Context (be : bool).

Lemma indirect_read l n i v :
  l !! i = Some v → is_u32 v → Mkfs.xint be (Mkfs.int_in be (words l ++ replicate n 0) (4 * i)) = v.
Proof.
  intros Hi Hv. unfold words. rewrite (words_split _ i v Hi), <-!app_assoc.
  replace (4 * i)%nat with (length (mjoin (word_bytes <$> take i l))) by (rewrite length_words, length_take; pose proof (lookup_lt_Some _ _ _ Hi); lia).
  rewrite int_in_bytes, xint_xint. by apply u32_id.
Qed.

Lemma indirect_end l n : (4 <= n)%nat → Mkfs.int_in be (words l ++ replicate n 0) (4 * length l) = 0.
Proof.
  intros Hn. replace n with (4 + (n - 4))%nat by lia. change (replicate (4 + (n - 4)) 0) with (word_bytes 0 ++ replicate (n - 4) 0).
  rewrite <-length_words. fold (words l). rewrite int_in_bytes. by destruct be.
Qed.

Lemma indirect_put l n v :
  (4 <= n)%nat → put_bytes (4 * length l) (Mkfs.int_bytes be (Mkfs.xint be v)) (words l ++ replicate n 0) = words (l ++ [v]) ++ replicate (n - 4) 0.
Proof.
  intros Hn. rewrite int_bytes_xint. pose proof (length_words l) as Hl. fold (words l) in Hl.
  rewrite put_bytes_split by (rewrite length_app, length_replicate; cbn; lia). rewrite <-Hl, take_app_length, words_app, <-app_assoc.
  change (words [v]) with (word_bytes v ++ []). rewrite app_nil_r. do 2 f_equal. rewrite drop_app_ge by lia. rewrite drop_replicate. f_equal. cbn. lia.
Qed.
End indirect.

(** ** Finding the block to write to *)

(** A file has no more sectors than its bytes need. *)
Definition tight g : Prop :=
  length (af_secs g) = ((length (af_data g) + 511) / 512)%nat ∧ (af_ind g = 0 ↔ (length (af_secs g) <= 12)%nat).

Definition with_secs (secs : list Z) (ind : Z) g : afile := AFile (af_type g) (af_data g) secs ind.

Section blocks.
Context (be : bool).

(** The inode of a file as the loop of [iappend] has it, with a size [sz] it has not
    updated yet. *)
Definition din_of (sz : Z) g : dinode := hosted be (Dinode (af_type g) 0 0 1 sz (addrs_of (af_secs g) (af_ind g))).

Lemma din_addr sz g j : (j < 13)%nat → di_addrs (din_of sz g) !!! j = Mkfs.xint be (addrs_of (af_secs g) (af_ind g) !!! j).
Proof. intros Hj. unfold din_of, hosted. cbn [di_addrs]. apply list_lookup_total_fmap. by rewrite addrs_length. Qed.

Lemma ensure_old sz g j m :
  (j < 13)%nat → 0 < addrs_of (af_secs g) (af_ind g) !!! j < 1024 → Mkfs.ensure_addr be (din_of sz g) j m = Ret (din_of sz g) m.
Proof.
  intros Hj Ha. unfold Mkfs.ensure_addr. rewrite din_addr, xint_xint by done. rewrite u32_id by (unfold is_u32; lia). by rewrite decide_False by lia.
Qed.

Lemma ensure_new sz g j m r gs :
  disk_ok m r gs → (j < 13)%nat → addrs_of (af_secs g) (af_ind g) !!! j = 0 →
  Mkfs.ensure_addr be (din_of sz g) j m =
    Ret (hosted be (Dinode (af_type g) 0 0 1 sz (<[j := Mkfs.freeblock m]> (addrs_of (af_secs g) (af_ind g))))) (bumped m).
Proof.
  intros Hd Hj Ha. unfold Mkfs.ensure_addr. rewrite din_addr, Ha, xint_xint by done. change (u32 0) with 0. rewrite decide_True by done.
  erewrite bind_Ret; [|by eapply new_block_ok]. unfold mret, M_ret, Mkfs.din_set_addr, din_of, hosted. cbn [di_type di_major di_minor di_nlink di_size di_addrs].
  by rewrite list_fmap_insert.
Qed.

Lemma sector_range m r g gs s : disk_ok m r (g :: gs) → s ∈ sectors g → FIRST <= s < Mkfs.freeblock m.
Proof. intros Hd Hs. apply (disk_in _ _ _ _ Hd). rewrite sectors_cons. apply elem_of_app. by left. Qed.

(** The sector after the last one in use is all zeroes and belongs to nobody. *)
Lemma fresh_zero m r g gs : disk_ok m r (g :: gs) → Mkfs.freeblock m < 1024 →
  blk m (Mkfs.freeblock m) = Mkfs.zeroes ∧ (Mkfs.freeblock m ∉ sectors g) ∧
  ∀ secs, (∀ s, s ∈ secs → s ∈ sectors g) → mjoin (blk (bumped m) <$> secs ++ [Mkfs.freeblock m]) = mjoin (blk m <$> secs) ++ Mkfs.zeroes.
Proof.
  intros Hd Hf. pose proof (do_range _ _ _ Hd). assert (blk m (Mkfs.freeblock m) = Mkfs.zeroes) as Hz by (apply (do_fresh _ _ _ Hd); lia).
  split_and!; [done|intros Hs; pose proof (sector_range _ _ _ _ _ Hd Hs); lia|].
  intros secs Hs. rewrite fmap_app, join_app. f_equal. cbn. change (blk (bumped m)) with (blk m). rewrite Hz. done.
Qed.

(** A block more at the end of a file whose metadata have it already. *)
Lemma stored_more m r g gs m' ind :
  disk_ok m r (g :: gs) → Mkfs.freeblock m < 1024 → let secs := af_secs g ++ [Mkfs.freeblock m] in
  stored m g →
  (∀ s, s ∈ secs → Mkfs.im_file m' !! s = Mkfs.im_file m !! s) →
  (ind = 0 ∧ (length secs <= 12)%nat ∨
    ind ≠ 0 ∧ (12 <= length secs <= 140)%nat ∧ blk m' ind = mjoin (word_bytes <$> drop 12 secs) ++ replicate (512 - 4 * (length secs - 12)) 0) →
  (length (af_data g) <= 512 * length (af_secs g))%nat →
  stored m' (with_secs secs ind g).
Proof.
  intros Hd Hf secs [_ Hst] Hsame Hind Hlen. split; [exact Hind|]. cbn [with_secs af_secs af_data].
  destruct (fresh_zero _ _ _ _ Hd Hf) as (_ & _ & Hz). specialize (Hz (af_secs g)). change (blk (bumped m)) with (blk m) in Hz.
  transitivity (mjoin (blk m <$> secs)).
  { f_equal. apply list_fmap_ext. intros i s Hs%list_elem_of_lookup_2. unfold blk. by rewrite Hsame. }
  unfold secs. rewrite Hz by (intros s Hs; unfold sectors; apply elem_of_app; by left). rewrite Hst, <-app_assoc. f_equal.
  unfold Mkfs.zeroes. rewrite <-replicate_add. f_equal. rewrite length_app. cbn [length]. lia.
Qed.

Lemma in_secs g s : s ∈ af_secs g → s ∈ sectors g.
Proof. intros Hs. unfold sectors. apply elem_of_app. by left. Qed.

Lemma ind_in g : af_ind g ≠ 0 → af_ind g ∈ sectors g.
Proof. intros Hi. unfold sectors. rewrite decide_False by done. apply elem_of_app. right. by apply list_elem_of_singleton. Qed.

Lemma sectors_snoc secs ind g v : sectors (with_secs (secs ++ [v]) ind g) ≡ₚ v :: sectors (with_secs secs ind g).
Proof. unfold sectors. cbn. rewrite <-app_assoc. cbn. by rewrite Permutation_middle. Qed.

Lemma sect_at m r gs s : disk_ok m r gs → 0 <= s < 1024 → Mkfs.im_file m !! s = Some (blk m s) ∧ length (blk m s) = 512%nat.
Proof. intros Hd Hs. destruct (do_sect _ _ _ Hd s Hs) as (d & E & Hl). unfold blk. by rewrite E. Qed.

Lemma entry_old sz m r g gs i x :
  disk_ok m r (g :: gs) → af_ind g ≠ 0 → af_secs g !! (12 + i)%nat = Some x →
  Mkfs.indirect_entry be (din_of sz g) i m = Ret x m.
Proof.
  intros Hd Hi Hx. pose proof (do_files _ _ _ Hd) as [[[[? ?]|(_ & Hl & Hb)] _] _]%Forall_cons; [done|].
  pose proof (do_range _ _ _ Hd) as Hfb. pose proof (sector_range _ _ _ _ _ Hd (ind_in g Hi)) as Hr.
  pose proof (sector_range _ _ _ _ _ Hd (in_secs g x (list_elem_of_lookup_2 _ _ _ Hx))) as Hxr.
  unfold Mkfs.indirect_entry, NDIRECT. rewrite din_addr, addrs_indirect, xint_xint, u32_id by (unfold is_u32, FIRST in *; lia).
  erewrite bind_Ret; [|apply rsect_ok, (sect_at _ _ _ _ Hd); unfold FIRST in *; lia]. rewrite Hb. fold (words (drop 12 (af_secs g))).
  pose proof (indirect_read be (drop 12 (af_secs g)) (512 - 4 * (length (af_secs g) - 12)) i x) as Hread.
  rewrite lookup_drop in Hread. specialize (Hread Hx ltac:(unfold is_u32, FIRST in *; lia)).
  rewrite decide_False; [erewrite bind_Ret; [|reflexivity]; by rewrite Hread|].
  intros E. rewrite E in Hread. assert (Mkfs.xint be 0 = 0) as H0 by (by destruct be). unfold FIRST in *. lia.
Qed.

Lemma entry_new sz m r g gs :
  disk_ok m r (g :: gs) → af_ind g ≠ 0 → (length (af_secs g) < 140)%nat → (length (af_data g) <= 512 * length (af_secs g))%nat →
  Mkfs.freeblock m < 1024 →
  ∃ buf, let m' := written (af_ind g) buf (bumped m) in
    Mkfs.indirect_entry be (din_of sz g) (length (af_secs g) - 12) m = Ret (Mkfs.freeblock m) m' ∧
    disk_ok m' r (with_secs (af_secs g ++ [Mkfs.freeblock m]) (af_ind g) g :: gs).
Proof.
  intros Hd Hi Hlt Hlen Hf. pose proof (do_files _ _ _ Hd) as [Hst _]%Forall_cons. pose proof (st_ind _ _ Hst) as [[? ?]|(_ & Hl & Hb)]; [done|].
  pose proof (do_range _ _ _ Hd) as Hfb. pose proof (sector_range _ _ _ _ _ Hd (ind_in g Hi)) as Hr. fold (words (drop 12 (af_secs g))) in Hb.
  set (W := drop 12 (af_secs g)) in *. assert (length W = length (af_secs g) - 12)%nat as HW by (unfold W; by rewrite length_drop).
  exists (words (W ++ [Mkfs.freeblock m]) ++ replicate (512 - 4 * (length (af_secs g) - 12) - 4) 0). cbv zeta. split.
  { unfold Mkfs.indirect_entry, NDIRECT. rewrite din_addr, addrs_indirect, xint_xint, u32_id by (unfold is_u32, FIRST in *; lia).
    erewrite bind_Ret; [|apply rsect_ok, (sect_at _ _ _ _ Hd); unfold FIRST in *; lia]. rewrite Hb, <-HW, decide_True by (apply indirect_end; lia).
    erewrite bind_Ret.
    2:{ erewrite bind_Ret; [|by eapply new_block_ok]. rewrite indirect_put by lia. erewrite bind_Ret; [|reflexivity]. reflexivity. }
    rewrite (indirect_read _ _ _ _ (Mkfs.freeblock m)); [done| |unfold is_u32, FIRST in *; lia]. by rewrite lookup_app_r, Nat.sub_diag by done. }
  destruct (fresh_zero _ _ _ _ Hd Hf) as (_ & Hnf & _).
  assert (length (words (W ++ [Mkfs.freeblock m]) ++ replicate (512 - 4 * (length (af_secs g) - 12) - 4) 0) = 512%nat) as H512.
  { unfold words. rewrite length_app, length_words, length_app, length_replicate. cbn [length]. lia. }
  assert (af_ind g ≠ Mkfs.freeblock m) as Hnei by lia.
  eapply (disk_ok_evolve 1 m _ r g); [exact Hd|cbn; lia|cbn; by rewrite (do_used _ _ _ Hd)|cbn; lia| | | |].
  - rewrite sectors_snoc. by destruct g.
  - intros s Hs. cbn. rewrite lookup_insert_ne; [done|]. intros <-. apply Hs. rewrite sectors_snoc. right. by destruct g; apply ind_in.
  - intros s Hs. cbn. destruct (decide (s = af_ind g)) as [->|Hne]; [rewrite lookup_insert_eq; by eexists|]. rewrite lookup_insert_ne by done.
    apply (do_sect _ _ _ Hd). rewrite sectors_snoc in Hs. apply elem_of_cons in Hs as [->|Hs]; [unfold FIRST in *; lia|].
    assert (s ∈ sectors g) as Hs' by (by destruct g). pose proof (sector_range _ _ _ _ _ Hd Hs'). unfold FIRST in *. lia.
  - apply (stored_more m r g gs); try done.
    + intros s Hs. cbn. rewrite lookup_insert_ne; [done|]. intros <-. apply elem_of_app in Hs as [Hs|Hs%list_elem_of_singleton]; [|done].
      pose proof (disk_nodup _ _ _ Hd) as Hnd. rewrite sectors_cons in Hnd. apply NoDup_app in Hnd as [Hnd _]. unfold sectors in Hnd.
      rewrite decide_False in Hnd by done. apply NoDup_app in Hnd as (_ & Hnd & _). apply (Hnd _ Hs). by apply list_elem_of_singleton.
    + right. rewrite length_app. cbn [length]. split_and!; [done|lia|lia|]. rewrite blk_written, decide_True by done.
      rewrite drop_app_le by lia. fold W (words (W ++ [Mkfs.freeblock m])). do 2 f_equal. lia.
Qed.

(** What [get_block] gives for the block at the end of the file. *)
Definition got m r gs g (sz : Z) (fbn : nat) (o : outcome Mkfs.image (dinode * Z)) : Prop :=
  ∃ g' x m', o = Ret (din_of sz g', x) m' ∧ disk_ok m' r (g' :: gs) ∧ af_type g' = af_type g ∧ af_data g' = af_data g ∧
    af_secs g' !! fbn = Some x ∧ length (af_secs g') = S fbn ∧ (af_ind g' = 0 ↔ (S fbn <= 12)%nat) ∧ Mkfs.freeinode m' = Mkfs.freeinode m.

Lemma get_old sz m r g gs fbn :
  disk_ok m r (g :: gs) → tight g → length (af_secs g) = S fbn → got m r gs g sz fbn (Mkfs.get_block be (din_of sz g) (Z.of_nat fbn) m).
Proof.
  intros Hd [_ Ht] Hl. destruct (lookup_lt_is_Some_2 (af_secs g) fbn) as [x Hx]; [lia|]. exists g, x, m.
  pose proof (do_range _ _ _ Hd) as Hfb. pose proof (sector_range _ _ _ _ _ Hd (in_secs g x (list_elem_of_lookup_2 _ _ _ Hx))) as Hxr.
  split; [|rewrite Ht, Hl; done]. unfold Mkfs.get_block, NDIRECT. rewrite Nat2Z.id. case_decide as Hb.
  - assert (addrs_of (af_secs g) (af_ind g) !!! fbn = x) as Ha by (rewrite addrs_direct by lia; by rewrite Hx).
    erewrite bind_Ret; [|apply ensure_old; [lia|]; rewrite Ha; unfold FIRST in *; lia]. rewrite din_addr, Ha, xint_xint by lia.
    rewrite u32_id by (unfold is_u32, FIRST in *; lia). done.
  - assert (af_ind g ≠ 0) as Hi by (rewrite Ht; lia). pose proof (sector_range _ _ _ _ _ Hd (ind_in g Hi)) as Hr.
    erewrite bind_Ret; [|apply ensure_old; [lia|]; rewrite addrs_indirect; unfold FIRST in *; lia].
    erewrite bind_Ret; [reflexivity|]. eapply entry_old; [done|done|]. rewrite <-Hx. f_equal. lia.
Qed.

Lemma get_direct sz m r g gs :
  disk_ok m r (g :: gs) → tight g → (length (af_data g) <= 512 * length (af_secs g))%nat → (length (af_secs g) < 12)%nat → Mkfs.freeblock m < 1024 →
  got m r gs g sz (length (af_secs g)) (Mkfs.get_block be (din_of sz g) (Z.of_nat (length (af_secs g))) m).
Proof.
  intros Hd [_ Ht] Hlen Hl Hf. set (v := Mkfs.freeblock m). exists (with_secs (af_secs g ++ [v]) (af_ind g) g), v, (bumped m).
  pose proof (do_range _ _ _ Hd) as Hfb. assert (af_ind g = 0) as Hi by (rewrite Ht; lia).
  assert (addrs_of (af_secs g) (af_ind g) !!! length (af_secs g) = 0) as Ha by (rewrite addrs_direct, lookup_ge_None_2 by lia; done).
  split_and!; try done.
  - unfold Mkfs.get_block, NDIRECT. rewrite decide_True, Nat2Z.id by lia. erewrite bind_Ret; [|by eapply ensure_new; [|lia|]].
    rewrite addrs_set_direct by done. unfold mret, M_ret. f_equal. f_equal.
    change (hosted be _) with (din_of sz (with_secs (af_secs g ++ [v]) (af_ind g) g)). rewrite din_addr, addrs_direct, xint_xint by lia. cbn.
    rewrite lookup_app_r, Nat.sub_diag by done. cbn. apply u32_id. unfold is_u32, FIRST, v in *. lia.
  - eapply (disk_ok_evolve 1 m _ r g); [exact Hd|done|cbn; by rewrite (do_used _ _ _ Hd)|cbn; lia| |done| |].
    + rewrite sectors_snoc. by destruct g.
    + intros s Hs. cbn. apply (do_sect _ _ _ Hd). rewrite sectors_snoc in Hs. apply elem_of_cons in Hs as [->|Hs]; [unfold FIRST, v in *; lia|].
      assert (s ∈ sectors g) as Hs' by (by destruct g). pose proof (sector_range _ _ _ _ _ Hd Hs'). unfold FIRST in *. lia.
    + pose proof (do_files _ _ _ Hd) as [Hst _]%Forall_cons. eapply (stored_more m r g gs); try done. left. rewrite length_app. cbn. split; [done|lia].
  - cbn. by rewrite lookup_app_r, Nat.sub_diag by done.
  - cbn. rewrite length_app. cbn. lia.
Qed.

(** The file gets its indirect block. *)
Lemma get_new_indirect m r g gs :
  disk_ok m r (g :: gs) → length (af_secs g) = 12%nat → af_ind g = 0 → Mkfs.freeblock m < 1024 →
  disk_ok (bumped m) r (with_secs (af_secs g) (Mkfs.freeblock m) g :: gs).
Proof.
  intros Hd Hl Hi Hf. pose proof (do_range _ _ _ Hd) as Hfb. destruct (fresh_zero _ _ _ _ Hd Hf) as (Hz & _ & _).
  assert (sectors (with_secs (af_secs g) (Mkfs.freeblock m) g) ≡ₚ Mkfs.freeblock m :: sectors g) as Hp.
  { unfold sectors. cbn. rewrite Hi, decide_False, decide_True, app_nil_r by (unfold FIRST in *; lia). by rewrite <-Permutation_cons_append. }
  eapply (disk_ok_evolve 1 m _ r g); [exact Hd|done|cbn; by rewrite (do_used _ _ _ Hd)|cbn; lia|by rewrite Hp|done| |].
  - intros s Hs. cbn. apply (do_sect _ _ _ Hd). rewrite Hp in Hs. apply elem_of_cons in Hs as [->|Hs]; [unfold FIRST in *; lia|].
    pose proof (sector_range _ _ _ _ _ Hd Hs). unfold FIRST in *. lia.
  - pose proof (do_files _ _ _ Hd) as [[_ Hst] _]%Forall_cons. split; [|exact Hst]. right. cbn. split_and!; [unfold FIRST in *; lia|lia|lia|].
    change (blk (bumped m)) with (blk m). rewrite Hz, Hl, drop_ge by lia. done.
Qed.

Lemma get_indirect sz m r g gs :
  disk_ok m r (g :: gs) → tight g → (length (af_data g) <= 512 * length (af_secs g))%nat → (12 <= length (af_secs g) < 140)%nat →
  Mkfs.freeblock m + (if decide (length (af_secs g) = 12%nat) then 2 else 1) <= 1024 →
  got m r gs g sz (length (af_secs g)) (Mkfs.get_block be (din_of sz g) (Z.of_nat (length (af_secs g))) m).
Proof.
  intros Hd [_ Ht] Hlen Hl Hf. pose proof (do_range _ _ _ Hd) as Hfb.
  assert (∃ m1 ind, Mkfs.ensure_addr be (din_of sz g) 12 m = Ret (din_of sz (with_secs (af_secs g) ind g)) m1 ∧
    disk_ok m1 r (with_secs (af_secs g) ind g :: gs) ∧ ind ≠ 0 ∧ Mkfs.freeblock m1 < 1024 ∧ Mkfs.freeinode m1 = Mkfs.freeinode m)
    as (m1 & ind & E1 & Hd1 & Hi1 & Hf1 & Hfi).
  { case_decide as H12.
    - assert (af_ind g = 0) as Hi by (rewrite Ht; lia). exists (bumped m), (Mkfs.freeblock m). split_and!; [|apply get_new_indirect; done || lia|unfold FIRST in *; lia|cbn; lia|done].
      erewrite ensure_new; [|exact Hd|lia|by rewrite addrs_indirect]. by rewrite addrs_set_indirect.
    - assert (af_ind g ≠ 0) as Hi by (rewrite Ht; lia). pose proof (sector_range _ _ _ _ _ Hd (ind_in g Hi)) as Hr. exists m, (af_ind g).
      assert (with_secs (af_secs g) (af_ind g) g = g) as -> by (by destruct g). split_and!; try done; [|lia].
      apply ensure_old; [lia|]. rewrite addrs_indirect. unfold FIRST in *. lia. }
  destruct (entry_new sz m1 r (with_secs (af_secs g) ind g) gs Hd1) as (buf & E2 & Hd2); [done|cbn; lia|done|done|]. cbn [with_secs af_secs af_ind] in E2, Hd2.
  exists (with_secs (af_secs g ++ [Mkfs.freeblock m1]) ind g), (Mkfs.freeblock m1), (written ind buf (bumped m1)). split_and!; try done.
  - unfold Mkfs.get_block, NDIRECT. rewrite decide_False by lia. erewrite bind_Ret; [|exact E1].
    replace (Z.to_nat (Z.of_nat (length (af_secs g)) - Z.of_nat 12)) with (length (af_secs g) - 12)%nat by lia. erewrite bind_Ret; [|exact E2].
    unfold mret, M_ret, din_of. cbn [with_secs af_type af_secs af_ind]. by rewrite addrs_more by lia.
  - cbn. by rewrite lookup_app_r, Nat.sub_diag by done.
  - cbn. rewrite length_app. cbn. lia.
  - cbn. lia.
Qed.

(** ** Appending to a file *)

(** The number of sectors a file of [n] bytes has. *)
Definition sectors_for (n : nat) : nat := let b := ((n + 511) / 512)%nat in (b + if decide (12 < b)%nat then 1 else 0)%nat.

Lemma tight_sectors g : tight g → length (sectors g) = sectors_for (length (af_data g)).
Proof.
  intros [Hl Hi]. unfold sectors, sectors_for. rewrite length_app, Hl. f_equal. rewrite Hl in Hi.
  case_decide; case_decide; cbn; tauto || lia.
Qed.

Lemma free_count m r gs : disk_ok m r gs → Mkfs.freeblock m = FIRST + Z.of_nat (length (mjoin (sectors <$> gs))).
Proof. intros Hd. rewrite (do_perm _ _ _ Hd), length_seqZ. pose proof (do_range _ _ _ Hd). lia. Qed.

Lemma sectors_for_mono a b : (a <= b)%nat → (sectors_for a <= sectors_for b)%nat.
Proof.
  intros Hab. unfold sectors_for. pose proof (Nat.Div0.div_le_mono (a + 511) (b + 511) 512 ltac:(lia)). repeat case_decide; lia.
Qed.

Lemma length_blocks m (l : list Z) : (∀ s, s ∈ l → length (blk m s) = 512%nat) → length (mjoin (blk m <$> l)) = (512 * length l)%nat.
Proof.
  induction l as [|s l IH]; intros Hl; [done|]. change (mjoin (blk m <$> s :: l)) with (blk m s ++ mjoin (blk m <$> l)).
  rewrite length_app, Hl, IH; [cbn; lia| |left]. intros s' Hs'. apply Hl. by right.
Qed.

Lemma get_any sz m r g gs :
  let c := length (af_data g) in
  disk_ok m r (g :: gs) → tight g → (c < 140 * 512)%nat →
  FIRST + Z.of_nat (length (mjoin (sectors <$> gs))) + Z.of_nat (sectors_for (S c)) <= 1024 →
  got m r gs g sz (c / 512) (Mkfs.get_block be (din_of sz g) (Z.of_nat (c / 512)) m).
Proof.
  intros c Hd Ht Hc Hroom. pose proof Ht as [Hl Hi]. fold c in Hl. pose proof (free_count _ _ _ Hd) as Hf. rewrite sectors_cons, length_app, (tight_sectors g Ht) in Hf.
  fold c in Hf. unfold sectors_for in *. pose proof (Nat.div_mod c 512 ltac:(lia)). pose proof (Nat.mod_upper_bound c 512 ltac:(lia)).
  assert ((S c + 511) / 512 = S (c / 512))%nat as HS by (symmetry; apply (Nat.div_unique _ _ _ (c mod 512)); lia).
  destruct (decide (c mod 512 = 0)%nat) as [Hm|Hm].
  - assert (length (af_secs g) = c / 512)%nat as Hls by (rewrite Hl; symmetry; apply (Nat.div_unique _ _ _ 511); lia). rewrite <-Hls in *.
    rewrite HS in Hroom. rewrite <-Hl in Hf.
    destruct (decide (length (af_secs g) < 12)%nat) as [Hd12|Hd12].
    + apply get_direct; try done; [lia|]. repeat case_decide; lia.
    + apply get_indirect; try done; [lia|lia|]. repeat case_decide; lia.
  - apply get_old; try done. rewrite Hl. symmetry. apply (Nat.div_unique _ _ _ (c mod 512 - 1)); lia.
Qed.

Lemma app_eq_cut (a b c d : list Z) : a ++ b = c ++ d → (length a <= length c)%nat → ∃ t, c = a ++ t ∧ b = t ++ d.
Proof.
  intros E Hl. exists (drop (length a) c). assert (take (length a) (a ++ b) = take (length a) (c ++ d)) as E1 by (by rewrite E).
  rewrite take_app_length, take_app_le in E1 by done. assert (drop (length a) (a ++ b) = drop (length a) (c ++ d)) as E2 by (by rewrite E).
  rewrite drop_app_length, drop_app_le in E2 by done. split; [|done]. rewrite E1 at 1. by rewrite take_drop.
Qed.

Lemma put_end t l n : (length l <= n)%nat → put_bytes (length t) l (t ++ replicate n 0) = t ++ l ++ replicate (n - length l) 0.
Proof.
  intros Hl. rewrite put_bytes_split by (rewrite length_app, length_replicate; lia). rewrite take_app_length. do 2 f_equal.
  rewrite drop_app_ge by lia. rewrite drop_replicate. f_equal. lia.
Qed.

(** The block at the end of the file takes the next bytes. *)
Lemma write_end m r g gs fbn x l :
  let c := length (af_data g) in
  disk_ok m r (g :: gs) → fbn = (c / 512)%nat → af_secs g !! fbn = Some x → length (af_secs g) = S fbn → (c mod 512 + length l <= 512)%nat →
  disk_ok (written x (put_bytes (c mod 512) l (blk m x)) m) r (AFile (af_type g) (af_data g ++ l) (af_secs g) (af_ind g) :: gs).
Proof.
  intros c Hd -> Hx Hlen Hl. pose proof (do_range _ _ _ Hd) as Hfb. pose proof (do_files _ _ _ Hd) as [Hst _]%Forall_cons.
  assert (x ∈ sectors g) as Hxs by (by apply in_secs, (list_elem_of_lookup_2 _ (c / 512))). pose proof (sector_range _ _ _ _ _ Hd Hxs) as Hxr.
  assert (∀ s, s ∈ sectors g → Mkfs.im_file m !! s = Some (blk m s) ∧ length (blk m s) = 512%nat) as Hb512.
  { intros s Hs. apply (sect_at _ _ _ _ Hd). pose proof (sector_range _ _ _ _ _ Hd Hs). unfold FIRST in *. lia. }
  pose proof (disk_nodup _ _ _ Hd) as Hnd. rewrite sectors_cons in Hnd. apply NoDup_app in Hnd as [Hnd _].
  unfold sectors in Hnd at 1. apply NoDup_app in Hnd as (Hnds & Hndi & _).
  pose proof (Nat.div_mod c 512 ltac:(lia)) as Hdm. pose proof (take_drop_middle _ _ _ Hx) as Hsplit. rewrite drop_ge in Hsplit by lia.
  set (A := take (c / 512) (af_secs g)) in *. assert (length A = c / 512)%nat as HA by (unfold A; rewrite length_take; lia).
  rewrite <-Hsplit in Hnds. apply NoDup_app in Hnds as (_ & Hnx & _).
  assert (∀ s, s ∈ A → blk (written x (put_bytes (c mod 512) l (blk m x)) m) s = blk m s) as HAb.
  { intros s Hs. rewrite blk_written, decide_False; [done|]. intros ->. apply (Hnx _ Hs). by left. }
  assert (length (mjoin (blk m <$> A)) = 512 * (c / 512))%nat as HlA.
  { rewrite length_blocks, HA; [done|]. intros s Hs. apply Hb512, in_secs. rewrite <-Hsplit. apply elem_of_app. by left. }
  pose proof (st_data _ _ Hst) as Hdata. rewrite <-Hsplit in Hdata at 1. rewrite fmap_app, join_app, Hlen in Hdata.
  change (mjoin (blk m <$> [x])) with (blk m x ++ []) in Hdata. rewrite app_nil_r in Hdata. fold c in Hdata.
  eapply (disk_ok_evolve 0 m _ r g); [exact Hd|cbn; lia|exact (do_used _ _ _ Hd)|cbn; lia|done| | |].
  - intros s Hs. cbn. rewrite lookup_insert_ne; [done|]. intros <-. by apply Hs.
  - intros s Hs. cbn. destruct (decide (s = x)) as [->|Hne]; [rewrite lookup_insert_eq; eexists; split; [done|]; rewrite length_put_bytes; by apply Hb512|].
    rewrite lookup_insert_ne by done. eexists. by apply Hb512.
  - split; cbn [af_ind af_secs af_data].
    + destruct (st_ind _ _ Hst) as [Hi|(Hi & Hil & Hib)]; [by left|right]. split_and!; [done|lia|lia|]. rewrite blk_written, decide_False; [done|].
      intros E. apply (Hndi _ (list_elem_of_lookup_2 _ _ _ Hx)). rewrite decide_False, E by done. by left.
    + rewrite <-Hsplit at 1. rewrite fmap_app, join_app. change (mjoin (?f <$> [x])) with (f x ++ []). rewrite app_nil_r, blk_written, decide_True by done.
      rewrite (list_fmap_ext _ (blk m) A) by (intros i s Hs%list_elem_of_lookup_2; by apply HAb).
      destruct (app_eq_cut (mjoin (blk m <$> A)) (blk m x) (af_data g) (replicate (512 * S (c / 512) - c) 0)) as (t & Ed & Ex); [done|fold c; lia|].
      assert (length t = c mod 512)%nat as Hlt by (apply (f_equal length) in Ed; rewrite length_app in Ed; fold c in Ed; lia).
      rewrite Ex, <-Hlt, put_end, Ed, <-!app_assoc by lia. do 3 f_equal. rewrite !length_app, Hlen, HlA, Hlt. f_equal. lia.
Qed.

Definition with_data (d : list Z) g : afile := AFile (af_type g) d (af_secs g) (af_ind g).

(** A round of the loop. *)
Lemma iappend_round sz m r g gs p n :
  let c := length (af_data g) in let n1 := Nat.min (length p) (512 - c mod 512) in
  disk_ok m r (g :: gs) → tight g → p ≠ [] → (c + length p <= 140 * 512)%nat →
  FIRST + Z.of_nat (length (mjoin (sectors <$> gs))) + Z.of_nat (sectors_for (c + length p)) <= 1024 →
  ∃ m' g', Mkfs.iappend_loop be (S n) (din_of sz g) (Z.of_nat c) p m =
      Mkfs.iappend_loop be n (din_of sz g') (Z.of_nat (length (af_data g'))) (drop n1 p) m' ∧
    disk_ok m' r (g' :: gs) ∧ tight g' ∧ af_type g' = af_type g ∧ af_data g' = af_data g ++ take n1 p ∧ Mkfs.freeinode m' = Mkfs.freeinode m.
Proof.
  intros c n1 Hd Ht Hp Hc Hroom. pose proof (nil_length_inv p) as Hp0. assert (0 < length p)%nat as Hpos by (destruct p; cbn; [done|lia]).
  pose proof (Nat.div_mod c 512 ltac:(lia)) as Hdm. pose proof (Nat.mod_upper_bound c 512 ltac:(lia)) as Hmb.
  pose proof (sectors_for_mono (S c) (c + length p) ltac:(lia)) as Hmono.
  destruct (get_any sz m r g gs Hd Ht) as (g' & x & m' & E & Hd' & Hty & Hda & Hx & Hlen & Hi & Hfi); [fold c; lia|fold c; lia|]. fold c in E, Hx, Hlen, Hi.
  assert (length (take n1 p) = n1) as Hn1 by (rewrite length_take; lia). assert (length (af_data g') = c) as Hc' by (by rewrite Hda).
  exists (written x (put_bytes (c mod 512) (take n1 p) (blk m' x)) m'), (with_data (af_data g' ++ take n1 p) g').
  assert (x ∈ sectors g') as Hxs by (by apply in_secs, (list_elem_of_lookup_2 _ (c / 512))). pose proof (sector_range _ _ _ _ _ Hd' Hxs) as Hxr.
  pose proof (do_range _ _ _ Hd') as Hfb. split_and!; try done.
  - cbn [Mkfs.iappend_loop]. destruct p as [|b p']; [done|]. set (p := b :: p') in *.
    assert (Z.of_nat c / 512 = Z.of_nat (c / 512)) as -> by (by rewrite Nat2Z.inj_div).
    rewrite decide_True by (unfold MAXFILE, NDIRECT, NINDIRECT; pose proof (Nat.Div0.div_lt_upper_bound c 512 140); lia).
    erewrite bind_Ret; [|exact E]. replace (Z.to_nat (Z.min _ _)) with n1 by lia.
    erewrite bind_Ret; [|apply rsect_ok, (sect_at _ _ _ _ Hd'); unfold FIRST in *; lia]. erewrite bind_Ret; [|reflexivity].
    replace (Z.to_nat (Z.of_nat c - _)) with (c mod 512)%nat by lia. cbn [with_data af_data]. rewrite length_app, Hda, Hn1. fold c.
    by replace (Z.of_nat (c + n1)) with (Z.of_nat c + Z.of_nat n1) by lia.
  - rewrite <-Hc'. eapply write_end; try done; rewrite Hc'; [done|done|]. lia.
  - unfold tight. cbn [with_data af_secs af_data af_ind]. rewrite Hlen, length_app, Hc', Hn1. split; [|done].
    apply (Nat.div_unique _ _ _ ((c + n1 + 511) - 512 * S (c / 512))); lia.
  - cbn. by rewrite Hda.
Qed.

Lemma iappend_loop_ok sz r gs n : ∀ p m g,
  disk_ok m r (g :: gs) → tight g → (length p <= n)%nat → (length (af_data g) + length p <= 140 * 512)%nat →
  FIRST + Z.of_nat (length (mjoin (sectors <$> gs))) + Z.of_nat (sectors_for (length (af_data g) + length p)) <= 1024 →
  ∃ m' g', Mkfs.iappend_loop be n (din_of sz g) (Z.of_nat (length (af_data g))) p m = Ret (din_of sz g', Z.of_nat (length (af_data g'))) m' ∧
    disk_ok m' r (g' :: gs) ∧ tight g' ∧ af_type g' = af_type g ∧ af_data g' = af_data g ++ p ∧ Mkfs.freeinode m' = Mkfs.freeinode m.
Proof.
  induction n as [|n IH]; intros p m g Hd Ht Hp Hc Hroom.
  { destruct p; [|cbn in Hp; lia]. exists m, g. by rewrite app_nil_r. }
  destruct (decide (p = [])) as [->|Hne]; [exists m, g; by rewrite app_nil_r|].
  assert (0 < length p)%nat as Hpos by (destruct p; cbn; [done|lia]). pose proof (Nat.mod_upper_bound (length (af_data g)) 512 ltac:(lia)).
  destruct (iappend_round sz m r g gs p n Hd Ht Hne Hc Hroom) as (m1 & g1 & -> & Hd1 & Ht1 & Hty1 & Hda1 & Hf1).
  set (n1 := Nat.min (length p) (512 - length (af_data g) mod 512)) in *.
  assert (length (af_data g1) + length (drop n1 p) = length (af_data g) + length p)%nat as Hsum.
  { rewrite Hda1, length_app, length_take, length_drop. lia. }
  destruct (IH (drop n1 p) m1 g1 Hd1 Ht1) as (m2 & g2 & E & Hd2 & Ht2 & Hty2 & Hda2 & Hf2); [rewrite length_drop; lia|by rewrite Hsum..|].
  exists m2, g2. split_and!; try done; [congruence| |congruence]. by rewrite Hda2, Hda1, <-app_assoc, take_drop.
Qed.
End blocks.

(** ** The image as a list of files

    The inode with number [i + 1] is the file [i] of the list. *)

Definition zero_dinode : dinode := Dinode 0 0 0 0 0 (replicate 13 0).
Definition table_of gs (i : Z) : dinode := if decide (1 <= i) then default zero_dinode (dinode_of <$> gs !! Z.to_nat (i - 1)) else zero_dinode.

Record image_ok m gs : Prop := {
  im_disk : disk_ok m (table_of gs) gs;
  im_tight : Forall tight gs;
  im_next : Mkfs.freeinode m = Z.of_nat (length gs) + 1;
  im_count : (length gs < 208)%nat
}.

(** Files as types and bytes, and the number of sectors they need. *)
Abbreviation files := (list (Z * list Z)).
Definition meaning gs : files := (λ g, (af_type g, af_data g)) <$> gs.
Definition total (fs : files) : nat := sum_list ((λ f, sectors_for (length f.2)) <$> fs).
Definition fits (fs : files) : Prop := FIRST + Z.of_nat (total fs) <= 1024 ∧ Forall (λ f, (length f.2 <= 140 * 512)%nat) fs.
Definition holds m (fs : files) : Prop := ∃ gs, image_ok m gs ∧ meaning gs = fs.

Lemma disk_ok_table m r r' gs : (∀ i, 0 <= i < 208 → r' i = r i) → disk_ok m r gs → disk_ok m r' gs.
Proof. intros He [H1 H2 H3 H4 H5 H6 HS H7]. split; try done. intros i Hi. rewrite He by done. by apply H2. Qed.

Lemma total_cons f fs : total (f :: fs) = (sectors_for (length f.2) + total fs)%nat.
Proof. done. Qed.

Lemma total_perm fs fs' : fs ≡ₚ fs' → total fs = total fs'.
Proof. intros Hp. unfold total. by rewrite Hp. Qed.

Lemma total_sectors gs : Forall tight gs → length (mjoin (sectors <$> gs)) = total (meaning gs).
Proof.
  induction 1 as [|g gs Hg _ IH]; [done|]. rewrite sectors_cons, length_app, IH, tight_sectors by done. done.
Qed.

Lemma insert_perm {A} (l : list A) j x y : l !! j = Some x → <[j := y]> l ≡ₚ y :: delete j l.
Proof.
  intros Hj. rewrite insert_take_drop by (by eapply lookup_lt_Some). rewrite delete_take_drop. by rewrite Permutation_middle.
Qed.

Section files.
Context (be : bool).

Lemma dinode_of_hosted g : hosted be (dinode_of g) = Mkfs.din_set_size (Mkfs.xint be (Z.of_nat (length (af_data g)))) (din_of be 0 g).
Proof. done. Qed.

Lemma iappend_ok m fs j ty d p :
  holds m fs → fs !! j = Some (ty, d) → fits (<[j := (ty, d ++ p)]> fs) →
  ∃ m', Mkfs.iappend be (Z.of_nat j + 1) p m = Ret tt m' ∧ holds m' (<[j := (ty, d ++ p)]> fs).
Proof.
  intros (gs & [Hd Ht Hn Hc] & <-) Hj [Hroom Hmax]. unfold meaning in Hj. rewrite list_lookup_fmap in Hj.
  destruct (gs !! j) as [g|] eqn:Hg; [|done]. injection Hj as <- <-. pose proof (lookup_lt_Some _ _ _ Hg) as Hlt.
  assert (gs ≡ₚ g :: delete j gs) as Hp by (by apply delete_Permutation). set (rest := delete j gs) in *.
  pose proof (disk_ok_perm _ _ _ _ Hp Hd) as Hd'. rewrite Hp in Ht. apply Forall_cons in Ht as [Htg Htr].
  assert (<[j := (af_type g, af_data g ++ p)]> (meaning gs) ≡ₚ (af_type g, af_data g ++ p) :: meaning rest) as Hpm.
  { rewrite (insert_perm _ j (af_type g, af_data g)) by (unfold meaning; by rewrite list_lookup_fmap, Hg). f_equiv.
    unfold meaning, rest. by rewrite list_fmap_delete. }
  rewrite (total_perm _ _ Hpm) in Hroom. rewrite Hpm in Hmax. apply Forall_cons in Hmax as [Hmax _]. cbn [snd] in Hmax. rewrite length_app in Hmax.
  rewrite total_cons, <-total_sectors in Hroom by done. cbn [snd] in Hroom. rewrite length_app in Hroom.
  destruct (iappend_loop_ok be (Z.of_nat (length (af_data g))) (table_of gs) rest (length p) p m g Hd' Htg) as (m1 & g1 & E & Hd1 & Ht1 & Hty & Hda & Hfi); [lia..|].
  assert (0 <= Z.of_nat j + 1 < 208) as Hjr by lia.
  destruct (winode_ok be m1 _ _ (Z.of_nat j + 1) (dinode_of g1) Hd1 Hjr) as (buf & E2 & Hd2); [by cbn; rewrite addrs_length|].
  exists (written (Mkfs.i2b (Z.of_nat j + 1)) buf m1). split.
  - unfold Mkfs.iappend. erewrite bind_Ret; [|by eapply rinode_ok]. unfold table_of. rewrite decide_True by lia.
    replace (Z.to_nat (Z.of_nat j + 1 - 1)) with j by lia. rewrite Hg.
    change (default zero_dinode (dinode_of <$> Some g)) with (dinode_of g).
    change (di_size (hosted be (dinode_of g))) with (Mkfs.xint be (Z.of_nat (length (af_data g)))). rewrite xint_xint, u32_id by (unfold is_u32; lia).
    erewrite bind_Ret; [|exact E]. cbv beta iota. rewrite u32_id by (unfold is_u32; rewrite Hda, length_app; lia). exact E2.
  - exists (<[j := g1]> gs). split; [split|].
    + eapply disk_ok_table; [|apply (disk_ok_perm _ _ _ _ (symmetry (insert_perm _ _ _ g1 Hg))); exact Hd2].
      intros i Hi. unfold table_of. destruct (decide (i = Z.of_nat j + 1)) as [->|Hij].
      * rewrite decide_True by lia. replace (Z.to_nat (Z.of_nat j + 1 - 1)) with j by lia. by rewrite list_lookup_insert_eq.
      * case_decide; [|done]. by rewrite list_lookup_insert_ne by lia.
    + rewrite (insert_perm _ _ _ g1 Hg). by constructor.
    + cbn. rewrite Hfi, length_insert. done.
    + by rewrite length_insert.
    + unfold meaning. rewrite list_fmap_insert. by rewrite Hty, Hda.
Qed.

Lemma ialloc_ok m fs ty :
  holds m fs → (length fs < 207)%nat →
  ∃ m', Mkfs.ialloc be ty m = Ret (Z.of_nat (length fs) + 1) m' ∧ holds m' (fs ++ [(ty, [])]).
Proof.
  intros (gs & [Hd Ht Hn Hc] & <-) Hl. unfold meaning in *. rewrite length_fmap in *. set (g := AFile ty [] [] 0).
  set (m0 := Mkfs.Image (Mkfs.im_file m) (Mkfs.freeblock m) (Mkfs.usedblocks m) (Mkfs.bitblocks m) (Mkfs.freeinode m + 1)).
  assert (disk_ok m0 (table_of gs) (gs ++ [g])) as Hd0.
  { pose proof Hd as [H1 H2 H3 H4 H5 H6 HS H7]. split; try done.
    - rewrite fmap_app, join_app. cbn. by rewrite app_nil_r.
    - apply Forall_app. split; [eapply Forall_impl; [exact H7|]; intros h; by apply stored_frame|]. repeat constructor. }
  destruct (winode_ok be m0 _ _ (Z.of_nat (length gs) + 1) (dinode_of g) Hd0 ltac:(lia) eq_refl) as (buf & E & Hd1).
  exists (written (Mkfs.i2b (Z.of_nat (length gs) + 1)) buf m0). split.
  - unfold Mkfs.ialloc. erewrite bind_Ret; [|reflexivity]. erewrite bind_Ret; [|reflexivity]. rewrite Hn, u32_id by (unfold is_u32; lia). rewrite <-Hn.
    fold m0. erewrite bind_Ret; [done|]. rewrite Hn.
    replace (Dinode _ _ _ _ _ _) with (hosted be (dinode_of g)); [exact E|]. unfold hosted, dinode_of, g. cbn. by destruct be.
  - exists (gs ++ [g]). split; [split|].
    + eapply disk_ok_table; [|exact Hd1]. intros i Hi. unfold table_of. destruct (decide (i = Z.of_nat (length gs) + 1)) as [->|Hij].
      * rewrite decide_True by lia. replace (Z.to_nat _) with (length gs) by lia. by rewrite lookup_app_r, Nat.sub_diag by lia.
      * case_decide; [|done]. destruct (decide (Z.to_nat (i - 1) < length gs)%nat); [by rewrite lookup_app_l|].
        rewrite lookup_app_r, !lookup_ge_None_2 by (cbn; lia). done.
    + apply Forall_app. split; [done|]. repeat constructor.
    + cbn. rewrite Hn, length_app. cbn. lia.
    + rewrite length_app. cbn. lia.
    + unfold meaning. by rewrite fmap_app.
Qed.
End files.

(** ** Adding the files *)

(** [fs] is an earlier state of [fs']. *)
Inductive below : files → files → Prop :=
  | below_nil fs' : below [] fs'
  | below_cons f f' fs fs' : (length f.2 <= length f'.2)%nat → below fs fs' → below (f :: fs) (f' :: fs').

Lemma below_refl fs : below fs fs.
Proof. induction fs; by constructor. Qed.

Lemma below_trans fs1 fs2 fs3 : below fs1 fs2 → below fs2 fs3 → below fs1 fs3.
Proof. intros H. revert fs3. induction H as [|f f' fs fs' Hl _ IH]; intros fs3 H3; [constructor|]. inversion_clear H3. constructor; [lia|auto]. Qed.

Lemma below_insert fs j ty d p : fs !! j = Some (ty, d) → below fs (<[j := (ty, d ++ p)]> fs).
Proof.
  revert j. induction fs as [|f fs IH]; intros [|j] Hj; try done; cbn in *.
  - injection Hj as ->. constructor; [cbn; rewrite length_app; lia|apply below_refl].
  - constructor; [done|]. by apply IH.
Qed.

Lemma below_app fs fs' : below fs (fs ++ fs').
Proof. induction fs; constructor; [done|]. done. Qed.

Lemma below_fits fs fs' : below fs fs' → fits fs' → fits fs.
Proof.
  intros Hb [Hr Hm]. split.
  - assert (total fs <= total fs')%nat; [|lia]. clear Hr Hm. induction Hb as [|f f' fs fs' Hl _ IH]; [cbn; lia|].
    pose proof (sectors_for_mono _ _ Hl). rewrite !total_cons. lia.
  - clear Hr. induction Hb as [|f f' fs fs' Hl _ IH]; [done|]. apply Forall_cons in Hm as [? Hm]. constructor; [lia|auto].
Qed.

(** A directory entry as the kernel reads it. *)
Definition entry (inum : Z) (name : list Z) : list Z := half_bytes inum ++ strncpy_name name.
(** The bytes that a file's reads give together. *)
Definition whole (reads : list (list Z)) : list Z := mjoin reads.
Definition root_data (args : list (list Z)) : list Z :=
  entry 1 (chars ".") ++ entry 1 (chars "..") ++ mjoin (imap (λ i a, entry (Z.of_nat i + 2) (Mkfs.plain_name a)) args).
Definition built (args datas : list (list Z)) : files := (T_DIR, root_data args) :: (pair T_FILE <$> datas).

Lemma dirent_in_entry be inum name : 0 <= inum < 2 ^ 16 → Mkfs.dirent_in be inum name = entry inum name.
Proof.
  intros Hi. unfold Mkfs.dirent_in, entry. f_equal. unfold u16. rewrite Z.mod_small by lia. rewrite <-(short_bytes_xshort be inum).
  unfold Mkfs.short_bytes. by rewrite half_bytes_s16.
Qed.

#[local] Opaque entry.

Lemma root_data_snoc args a : root_data (args ++ [a]) = root_data args ++ entry (Z.of_nat (length args) + 2) (Mkfs.plain_name a).
Proof. unfold root_data. rewrite imap_app, join_app. cbn. rewrite Nat.add_0_r, app_nil_r, <-!app_assoc. done. Qed.

Section build.
Context (be : bool) (host : list Z → option (list (list Z))).

Lemma iappends_ok reads : ∀ m fs j ty d,
  holds m fs → fs !! j = Some (ty, d) → fits (<[j := (ty, d ++ mjoin reads)]> fs) →
  ∃ m', for_each (Mkfs.iappend be (Z.of_nat j + 1)) reads m = Ret tt m' ∧ holds m' (<[j := (ty, d ++ mjoin reads)]> fs).
Proof.
  induction reads as [|p reads IH]; intros m fs j ty d Hh Hj Hf; cbn [for_each].
  { exists m. split; [done|]. change (mjoin []) with (@nil Z). rewrite app_nil_r. by rewrite list_insert_id. }
  change (mjoin (p :: reads)) with (p ++ mjoin reads) in *. pose proof (lookup_lt_Some _ _ _ Hj) as Hlt.
  assert (<[j := (ty, d ++ p)]> fs !! j = Some (ty, d ++ p)) as Hj' by (by rewrite list_lookup_insert_eq).
  rewrite app_assoc in Hf |- *. rewrite <-(list_insert_insert_eq fs j (ty, (d ++ p) ++ mjoin reads) (ty, d ++ p)) in Hf |- *.
  destruct (iappend_ok be m fs j ty d p Hh Hj) as (m1 & E1 & Hh1); [by eapply below_fits; [apply below_insert|]|].
  erewrite bind_Ret; [|exact E1]. by apply IH.
Qed.

Lemma add_file_ok m args datas a reads :
  holds m (built args datas) → length datas = length args → (length args < 205)%nat → ch_slash ∉ a → host a = Some reads →
  fits (built (args ++ [a]) (datas ++ [mjoin reads])) →
  ∃ m', Mkfs.add_file be host 1 a m = Ret tt m' ∧ holds m' (built (args ++ [a]) (datas ++ [mjoin reads])).
Proof.
  intros Hh Hl Hlt Ha Hhost Hf. unfold Mkfs.add_file. rewrite decide_False, Hhost by done.
  destruct (ialloc_ok be m _ T_FILE Hh) as (m1 & E1 & Hh1); [cbn; rewrite length_fmap; lia|].
  erewrite bind_Ret; [|exact E1]. cbn [length built] in *. rewrite length_fmap, Hl in *. set (n := length args) in *.
  rewrite dirent_in_entry by lia. replace (Z.of_nat (S n) + 1) with (Z.of_nat n + 2) by lia.
  set (e := entry _ _). set (fs1 := ((T_DIR, root_data args) :: (pair T_FILE <$> datas)) ++ [(T_FILE, [])]) in *.
  assert (built (args ++ [a]) (datas ++ [mjoin reads]) = <[S n := (T_FILE, [] ++ mjoin reads)]> (<[0%nat := (T_DIR, root_data args ++ e)]> fs1)) as Efin.
  { unfold built, fs1. rewrite root_data_snoc, fmap_app. cbn. f_equal.
    symmetry. etransitivity; [apply insert_app_r_alt; rewrite length_fmap; lia|]. by rewrite length_fmap, Hl, Nat.sub_diag. }
  assert (<[0%nat := (T_DIR, root_data args ++ e)]> fs1 !! S n = Some (T_FILE, [])) as HSn.
  { unfold fs1. cbn. etransitivity; [apply lookup_app_r; rewrite length_fmap; lia|]. by rewrite length_fmap, Hl, Nat.sub_diag. }
  rewrite Efin in Hf |- *.
  destruct (iappend_ok be m1 fs1 0 T_DIR (root_data args) e Hh1 eq_refl) as (m2 & E2 & Hh2); [eapply below_fits; [by apply below_insert|done]|].
  change (Z.of_nat 0 + 1) with 1 in E2. erewrite bind_Ret; [|exact E2].
  destruct (iappends_ok reads m2 _ (S n) T_FILE [] Hh2 HSn Hf) as (m3 & E3 & Hh3). replace (Z.of_nat (S n) + 1) with (Z.of_nat n + 2) in E3 by lia.
  by exists m3.
Qed.

Lemma below_built args datas args' datas' : length datas = length args →
  below (built args datas) (built (args ++ args') (datas ++ datas')).
Proof.
  intros Hl. unfold built. rewrite fmap_app. constructor; [|apply below_app]. cbn. unfold root_data. rewrite imap_app, join_app, !length_app. lia.
Qed.

Lemma add_files_ok args' : ∀ reads' m args datas,
  holds m (built args datas) → length datas = length args → (length args + length args' <= 205)%nat →
  Forall2 (λ a reads, (ch_slash ∉ a) ∧ host a = Some reads) args' reads' →
  fits (built (args ++ args') (datas ++ (whole <$> reads'))) →
  ∃ m', for_each (Mkfs.add_file be host 1) args' m = Ret tt m' ∧ holds m' (built (args ++ args') (datas ++ (whole <$> reads'))).
Proof.
  induction args' as [|a args' IH]; intros reads' m args datas Hh Hl Hn Ha Hf; cbn [for_each].
  { apply Forall2_nil_inv_l in Ha as ->. exists m. cbn. by rewrite !app_nil_r. }
  apply Forall2_cons_inv_l in Ha as (reads & reads'' & [Hs Hhost] & Ha & ->). rewrite fmap_cons in Hf |- *. cbn [length] in Hn.
  rewrite (cons_middle a), (cons_middle (whole reads)), !(app_assoc _ [_]) in Hf |- *.
  destruct (add_file_ok m args datas a reads Hh Hl) as (m1 & E1 & Hh1); [lia|done|done| |].
  { eapply below_fits; [|exact Hf]. apply below_built. rewrite !length_app. cbn. lia. }
  erewrite bind_Ret; [|exact E1]. apply IH; try done; rewrite !length_app; cbn; lia.
Qed.
End build.

(** ** The empty image *)

Lemma zero_sectors l : ∀ m, ∃ f, for_each (λ i, Mkfs.wsect i Mkfs.zeroes) l m =
    Ret tt (Mkfs.Image f (Mkfs.freeblock m) (Mkfs.usedblocks m) (Mkfs.bitblocks m) (Mkfs.freeinode m)) ∧
  ∀ s, f !! s = if decide (s ∈ l) then Some Mkfs.zeroes else Mkfs.im_file m !! s.
Proof.
  induction l as [|i l IH]; intros m; cbn [for_each].
  { exists (Mkfs.im_file m). split; [by destruct m|]. intros s. by rewrite decide_False by (apply not_elem_of_nil). }
  erewrite bind_Ret; [|reflexivity]. destruct (IH (written i Mkfs.zeroes m)) as (f & E & Hf). exists f. split; [exact E|].
  intros s. rewrite Hf. cbn [written Mkfs.im_file]. case_decide as Hs; [by rewrite decide_True by (by right)|].
  destruct (decide (s = i)) as [->|Hne]; [rewrite lookup_insert_eq, decide_True by left; done|].
  rewrite lookup_insert_ne, decide_False by (done || (intros [?|?]%elem_of_cons; done)). done.
Qed.

Lemma empty_ok f :
  (∀ s, 0 <= s < 1024 → s ≠ 1 → f !! s = Some Mkfs.zeroes) → f !! 1 = Some super_block → holds (Mkfs.Image f FIRST FIRST 1 1) [].
Proof.
  intros Hf H1. exists []. split; [|done]. split; [|done|done|cbn; lia].
  assert (∀ s, 0 <= s < 1024 → s ≠ 1 → blk (Mkfs.Image f FIRST FIRST 1 1) s = Mkfs.zeroes) as Hb by (intros s ? ?; unfold blk; cbn; by rewrite Hf).
  split; cbn [Mkfs.im_file Mkfs.freeblock Mkfs.usedblocks]; try done.
  - intros s Hs. destruct (decide (s = 1)) as [->|Hne]; [rewrite H1|rewrite Hf by done]; (eexists; split; [done|]); by vm_compute.
  - intros i Hi. pose proof (i2b_range i Hi) as [_ Hr]. pose proof (dinode_off_range i) as [Ho _]. unfold FIRST in *. rewrite Hb by lia.
    split; [|unfold table_of; case_decide; done]. unfold table_of. replace (dinode_bytes _) with (replicate 64 0) by (case_decide; done).
    unfold Mkfs.zeroes. rewrite drop_replicate, take_replicate. f_equal. lia.
  - intros s Hs. unfold FIRST in *. apply Hb; lia.
  - unfold blk. cbn. by rewrite H1.
Qed.

(** ** The bitmap *)

Lemma mark_bit buf i b :
  0 <= i → 0 <= b → (Z.to_nat (i / 8) < length buf)%nat →
  Z.testbit (Mkfs.mark buf i !!! Z.to_nat (b / 8)) (b mod 8) = Z.testbit (buf !!! Z.to_nat (b / 8)) (b mod 8) || bool_decide (b = i).
Proof.
  intros Hi Hb Hl. pose proof (Z.mod_pos_bound b 8 ltac:(lia)). pose proof (Z.mod_pos_bound i 8 ltac:(lia)). pose proof (Z.div_mod b 8 ltac:(lia)).
  pose proof (Z.div_mod i 8 ltac:(lia)). pose proof (Z.div_pos i 8). pose proof (Z.div_pos b 8). unfold Mkfs.mark. destruct (decide (b / 8 = i / 8)) as [E|E].
  - rewrite E, list_lookup_total_insert_eq by done. unfold u8. rewrite Z.mod_pow2_bits_low, Z.lor_spec, Z.shiftl_spec by lia. f_equal.
    change 1 with (2 ^ 0). rewrite Z.pow2_bits_eqb by lia. apply eq_bool_prop_intro. rewrite bool_decide_spec.
    split; [intros ?%Is_true_true%Z.eqb_eq; lia|intros ?; apply Is_true_true, Z.eqb_eq; lia].
  - rewrite list_lookup_total_insert_ne by lia. rewrite bool_decide_false, orb_false_r; [done|]. intros ->. done.
Qed.

Lemma marks_bits used b :
  0 <= used <= 4096 → 0 <= b < 4096 → Z.testbit (foldl Mkfs.mark Mkfs.zeroes (seqZ 0 used) !!! Z.to_nat (b / 8)) (b mod 8) = bool_decide (b < used).
Proof.
  intros Hu Hb. assert (∀ l buf, length buf = 512%nat → Forall (λ i, 0 <= i < 4096) l →
    Z.testbit (foldl Mkfs.mark buf l !!! Z.to_nat (b / 8)) (b mod 8) = Z.testbit (buf !!! Z.to_nat (b / 8)) (b mod 8) || bool_decide (b ∈ l)) as Hl.
  { induction l as [|i l IH]; intros buf H512 Hl; cbn [foldl]; [rewrite bool_decide_false, orb_false_r by (apply not_elem_of_nil); done|].
    apply Forall_cons in Hl as [Hi Hl]. rewrite IH by (try done; unfold Mkfs.mark; by rewrite length_insert).
    rewrite mark_bit by (try lia; pose proof (Z.div_lt_upper_bound i 8 512); lia). rewrite <-orb_assoc. f_equal.
    rewrite <-bool_decide_or. apply bool_decide_ext. by rewrite elem_of_cons. }
  rewrite Hl; [|done|apply Forall_forall; intros i Hi%elem_of_seqZ; lia].
  assert (Mkfs.zeroes !!! Z.to_nat (b / 8) = 0) as Hz.
  { apply list_lookup_total_correct, lookup_replicate_2. pose proof (Z.div_lt_upper_bound b 8 512). lia. }
  rewrite Hz, Z.bits_0. cbn [orb]. apply bool_decide_ext. rewrite elem_of_seqZ. lia.
Qed.

(** ** What the kernel sees

    The image as the disk of the kernel, and an inode as [ilock] reads it. *)
Definition disk_of m : blocks := kmap (λ s, (ROOTDEV, s)) (Mkfs.im_file m).
Definition inode_of (D : blocks) (inum : Z) : inode :=
  let d := dinode_at (contents D ∅ (ROOTDEV, IBLOCK inum)) (dinode_off inum) in
  Inode ROOTDEV inum 1 (Z.lor I_BUSY I_VALID) (di_type d) (di_major d) (di_minor d) (di_nlink d) (di_size d) (di_addrs d).

Lemma contents_disk m r gs s : disk_ok m r gs → 0 <= s < 1024 → contents (disk_of m) ∅ (ROOTDEV, s) = blk m s.
Proof.
  intros Hd Hs. unfold contents. rewrite lookup_empty. unfold disk_of. rewrite (lookup_kmap (λ s, (ROOTDEV, s)) (Mkfs.im_file m) s).
  destruct (sect_at _ _ _ _ Hd Hs) as [-> _]. done.
Qed.

Lemma word_at_app d1 v d2 : word_at (d1 ++ word_bytes v ++ d2) (length d1) = u32 v.
Proof.
  rewrite <-word_of_bytes. unfold word_at. rewrite <-(Nat.add_0_r (length d1)) at 1.
  assert (∀ k, (d1 ++ word_bytes v ++ d2) !!! (length d1 + k)%nat = (word_bytes v ++ d2) !!! k) as Hk.
  { intros k. rewrite lookup_total_app_r by lia. f_equal. lia. }
  by rewrite !Hk.
Qed.

Lemma in_slice (d : list Z) off n k : (k < n)%nat → take n (drop off d) !!! k = d !!! (off + k)%nat.
Proof. intros Hk. by rewrite lookup_total_take_lt, lookup_total_drop. Qed.

Lemma dinode_at_host d off : dinode_at d off = Mkfs.din_in false d off.
Proof.
  assert (∀ o, word_at d o = Mkfs.int_in false d o) as Hw.
  { intros o. unfold Mkfs.int_in, Mkfs.host_order, word_at. rewrite !in_slice by lia. by rewrite !Nat.add_0_r. }
  assert (∀ o, half_at d o = Mkfs.short_in false d o) as Hh.
  { intros o. unfold Mkfs.short_in, Mkfs.host_order, half_at. rewrite !in_slice by lia. rewrite Nat.add_0_r. by rewrite Nat.add_1_r. }
  unfold dinode_at, Mkfs.din_in. rewrite !Hh, Hw. f_equal. apply list_fmap_ext. intros i j _. apply Hw.
Qed.

Definition dinode_range (d : dinode) : Prop :=
  length (di_addrs d) = 13%nat ∧ Forall (λ v, s16 v = v) [di_type d; di_major d; di_minor d; di_nlink d] ∧ Forall is_u32 (di_size d :: di_addrs d).

Lemma hosted_false d : dinode_range d → hosted false d = d.
Proof.
  intros (_ & Hs & Hw). repeat (apply Forall_cons in Hs as [? Hs]). apply Forall_cons in Hw as [Hsz Hw].
  assert (∀ v, Mkfs.xshort false v = u16 v) as Hxs by apply half_of_bytes. assert (∀ v, Mkfs.xint false v = u32 v) as Hxi by apply word_at_bytes.
  destruct d as [ty ma mi nl sz ad]. unfold hosted. cbn in *. rewrite !Hxs, !s16_u16, Hxi, u32_id by done. f_equal; try done.
  rewrite <-(list_fmap_id ad) at 2. apply list_fmap_ext. intros i v Hv. rewrite Hxi. apply u32_id. by eapply Forall_lookup_1 in Hw.
Qed.

Lemma inode_found m r gs i :
  disk_ok m r gs → 0 <= i < 208 → dinode_range (r i) →
  dinode_at (contents (disk_of m) ∅ (ROOTDEV, IBLOCK i)) (dinode_off i) = r i.
Proof.
  intros Hd Hi Hr. pose proof (i2b_range i Hi) as [_ Hb]. change (IBLOCK i) with (Mkfs.i2b i). rewrite (contents_disk _ _ _ _ Hd) by (unfold FIRST in *; lia).
  rewrite dinode_at_host, <-(hosted_false (r i) Hr). pose proof (rinode_ok false m r gs i Hd Hi) as E. unfold Mkfs.rinode in E.
  erewrite bind_Ret in E; [|apply rsect_ok, (sect_at _ _ _ _ Hd); unfold FIRST in *; lia].
  unfold mret, M_ret in E. congruence.
Qed.

Lemma joined_lookup (f : Z → list Z) l j s k :
  (∀ s, s ∈ l → length (f s) = 512%nat) → l !! j = Some s → (k < 512)%nat → mjoin (f <$> l) !! (512 * j + k)%nat = f s !! k.
Proof.
  revert j. induction l as [|s' l IH]; intros [|j] Hl Hj Hk; try done; change (mjoin (f <$> s' :: l)) with (f s' ++ mjoin (f <$> l)).
  - injection Hj as ->. rewrite lookup_app_l; [done|]. rewrite Hl by left. lia.
  - assert (length (f s') = 512%nat) as H512 by (apply Hl; left). rewrite lookup_app_r by lia. rewrite H512.
    replace (512 * S j + k - 512)%nat with (512 * j + k)%nat by lia. apply IH; try done. intros s'' Hs. apply Hl. by right.
Qed.

(** The bytes of a file, through direct and indirect blocks. *)
Lemma file_byte_found m r gs g q o :
  disk_ok m r gs → g ∈ gs → i_dev q = ROOTDEV → i_addrs q = addrs_of (af_secs g) (af_ind g) → (o < 512 * length (af_secs g))%nat →
  file_byte (disk_of m) ∅ q (Z.of_nat o) = mjoin (blk m <$> af_secs g) !!! o.
Proof.
  intros Hd Hg Hdev Ha Ho. pose proof (proj1 (Forall_forall _ _) (do_files _ _ _ Hd) g Hg) as Hst. pose proof (do_range _ _ _ Hd) as Hfb.
  assert (∀ s, s ∈ sectors g → 0 <= s < 1024 ∧ FIRST <= s) as Hr.
  { intros s Hs. pose proof (proj1 (disk_in _ _ _ s Hd) (sectors_in g gs s Hg Hs)). unfold FIRST in *. lia. }
  pose proof (Nat.div_mod o 512 ltac:(lia)) as Hdm. pose proof (Nat.mod_upper_bound o 512 ltac:(lia)) as Hmb.
  destruct (lookup_lt_is_Some_2 (af_secs g) (o / 512)) as [s Hs]; [apply Nat.Div0.div_lt_upper_bound; lia|].
  pose proof (Hr s (in_secs g s (list_elem_of_lookup_2 _ _ _ Hs))) as [Hsr _].
  assert (file_sector (disk_of m) ∅ q (Z.of_nat (o / 512)) = s) as Hsec.
  { unfold file_sector, NDIRECT. rewrite Ha, Hdev. case_decide as H12.
    - rewrite Nat2Z.id, addrs_direct by lia. by rewrite Hs.
    - rewrite addrs_indirect. pose proof (lookup_lt_Some _ _ _ Hs). destruct (st_ind _ _ Hst) as [[_ ?]|(Hi & _ & Hb)]; [lia|].
      rewrite (contents_disk _ _ _ _ Hd) by (apply Hr, ind_in; done). rewrite Hb.
      set (j := Z.to_nat _). assert (drop 12 (af_secs g) !! j = Some s) as Hj by (rewrite lookup_drop, <-Hs; f_equal; unfold j; lia).
      rewrite (words_split _ j s Hj), <-!app_assoc. set (w := mjoin (word_bytes <$> take j _)).
      assert (length w = 4 * j)%nat as Hlw by (unfold w; rewrite length_words, length_take; pose proof (lookup_lt_Some _ _ _ Hj); lia).
      transitivity (word_at (w ++ word_bytes s ++ mjoin (word_bytes <$> drop (S j) (drop 12 (af_secs g))) ++ replicate (512 - 4 * (length (af_secs g) - 12)) 0) (length w)).
      + unfold block_word, word_at. by rewrite Hlw.
      + rewrite word_at_app. apply u32_id. unfold is_u32. lia. }
  unfold file_byte, BSIZE. change 512 with (Z.of_nat 512). rewrite <-(Nat2Z.inj_div o 512), <-(Nat2Z.inj_mod o 512), Hsec, Hdev, Nat2Z.id, (contents_disk _ _ _ _ Hd) by done.
  rewrite !list_lookup_total_alt. f_equal. rewrite Hdm at 2. symmetry. apply joined_lookup; [|done|done].
  intros s' Hs'. apply (sect_at _ _ _ _ Hd). apply Hr, in_secs, Hs'.
Qed.

(** ** The whole program *)

Lemma length_marks l : ∀ buf, length (foldl Mkfs.mark buf l) = length buf.
Proof. induction l as [|i l IH]; intros buf; cbn [foldl]; [done|]. rewrite IH. apply length_insert. Qed.

Lemma disk_ok_bitmap m r gs d : disk_ok m r gs → length d = 512%nat → disk_ok (written 28 d m) r gs.
Proof.
  intros Hd Hl. pose proof Hd as [H1 H2 H3 H4 H5 H6 HS H7]. split; try done.
  - intros s Hs. cbn. destruct (decide (s = 28)) as [->|Hne]; [rewrite lookup_insert_eq; by eexists|]. rewrite lookup_insert_ne by done. by apply H1.
  - intros i Hi. pose proof (i2b_range i Hi) as [_ Hr]. rewrite blk_written, decide_False by (unfold FIRST in *; lia). by apply H2.
  - intros s Hs. cbn in Hs. rewrite blk_written, decide_False by (unfold FIRST in *; lia). by apply H6.
  - by rewrite blk_written, decide_False by lia.
  - rewrite Forall_forall in *. intros g Hg. apply (stored_frame m); [|by apply H7]. intros s Hs. cbn. rewrite lookup_insert_ne; [done|].
    pose proof (proj1 (disk_in _ _ _ s Hd) (sectors_in g gs s Hg Hs)). unfold FIRST in *. lia.
Qed.

(** The size of the root directory after it is rounded up. *)
Definition fixed_size (n : nat) : Z := (Z.of_nat n / 512 + 1) * 512.
Definition final_table gs (i : Z) : dinode :=
  if decide (i = 1) then match gs with g :: _ => Mkfs.din_set_size (fixed_size (length (af_data g))) (dinode_of g) | [] => zero_dinode end
  else table_of gs i.

Lemma finish_ok be m g gs :
  image_ok m (g :: gs) → (length (af_data g) <= 140 * 512)%nat →
  ∃ m', (Mkfs.fix_size be 1 ;; used ← gets Mkfs.usedblocks; Mkfs.balloc used) m = Ret tt m' ∧
    disk_ok m' (final_table (g :: gs)) (g :: gs) ∧ blk m' 28 = foldl Mkfs.mark Mkfs.zeroes (seqZ 0 (Mkfs.freeblock m)).
Proof.
  intros [Hd _ _ _] Hl. set (d' := Mkfs.din_set_size (fixed_size (length (af_data g))) (dinode_of g)).
  destruct (winode_ok be m _ _ 1 d' Hd ltac:(lia)) as (buf & E & Hd1); [by cbn; rewrite addrs_length|].
  set (m1 := written (Mkfs.i2b 1) buf m) in *. pose proof (do_range _ _ _ Hd) as Hfb.
  exists (written 28 (foldl Mkfs.mark Mkfs.zeroes (seqZ 0 (Mkfs.freeblock m))) m1). split_and!.
  - erewrite bind_Ret.
    2:{ unfold Mkfs.fix_size. erewrite bind_Ret; [|eapply rinode_ok; [exact Hd|lia]]. cbv zeta.
        change (table_of (g :: gs) 1) with (dinode_of g).
        change (di_size (hosted be (dinode_of g))) with (Mkfs.xint be (Z.of_nat (length (af_data g)))).
        rewrite xint_u32, xint_xint, u32_id by (unfold is_u32; lia). exact E. }
    erewrite bind_Ret; [|reflexivity]. cbn [m1 written Mkfs.usedblocks]. rewrite (do_used _ _ _ Hd). unfold Mkfs.balloc. by rewrite decide_True by lia.
  - apply disk_ok_bitmap; [|by rewrite length_marks]. eapply disk_ok_table; [|exact Hd1]. intros i Hi. unfold final_table. by case_decide.
  - by rewrite blk_written, decide_True.
Qed.

Lemma build_ok be host args reads prog img :
  Forall2 (λ a rs, (ch_slash ∉ a) ∧ host a = Some rs) args reads → (length args <= 198)%nat → fits (built args (whole <$> reads)) →
  ∃ m1 m2 g gs, Mkfs.main be host true (prog :: img :: args) Mkfs.start = Ret tt m2 ∧
    image_ok m1 (g :: gs) ∧ meaning (g :: gs) = built args (whole <$> reads) ∧
    disk_ok m2 (final_table (g :: gs)) (g :: gs) ∧ blk m2 28 = foldl Mkfs.mark Mkfs.zeroes (seqZ 0 (Mkfs.freeblock m1)).
Proof.
  intros Ha Hn Hf. set (n := Mkfs.nblocks + 29 + Mkfs.nlog).
  destruct (zero_sectors (seqZ 0 n) (Mkfs.Image ∅ 29 29 1 1)) as (f & E0 & Hz).
  assert (holds (written 1 super_block (Mkfs.Image f 29 29 1 1)) []) as Hh0.
  { apply (empty_ok (<[1 := super_block]> f)); [|apply lookup_insert_eq]. intros s Hs Hne. rewrite lookup_insert_ne, Hz by done.
    rewrite decide_True; [done|]. apply elem_of_seqZ. unfold n, Mkfs.nblocks, Mkfs.nlog. lia. }
  destruct (ialloc_ok be _ _ T_DIR Hh0) as (m1 & E1 & Hh1); [cbn; lia|]. cbn [app length] in E1, Hh1.
  pose proof (below_built [] [] args (whole <$> reads) eq_refl) as Hb0. rewrite !app_nil_l in Hb0.
  pose proof (below_fits _ _ Hb0 Hf) as Hf0. assert (built [] [] = [(T_DIR, ([] ++ entry 1 (chars ".")) ++ entry 1 (chars ".."))]) as Eb.
  { unfold built, root_data. cbn [imap mjoin list_join]. by rewrite app_nil_r. }
  rewrite Eb in Hf0, Hb0. set (e1 := entry 1 (chars ".")) in *. set (e2 := entry 1 (chars "..")) in *.
  destruct (iappend_ok be m1 [(T_DIR, [])] 0 T_DIR [] e1 Hh1 eq_refl) as (m2 & E2 & Hh2).
  { eapply below_fits; [|exact Hf0]. apply (below_insert [(T_DIR, [] ++ e1)] 0 T_DIR ([] ++ e1) e2). done. }
  destruct (iappend_ok be m2 [(T_DIR, [] ++ e1)] 0 T_DIR ([] ++ e1) e2 Hh2 eq_refl Hf0) as (m3 & E3 & Hh3).
  change (<[0%nat := (T_DIR, ([] ++ e1) ++ e2)]> [(T_DIR, [] ++ e1)]) with [(T_DIR, ([] ++ e1) ++ e2)] in Hh3. rewrite <-Eb in Hh3.
  destruct (add_files_ok be host args reads m3 [] [] Hh3) as (m4 & E4 & gs & Hi & Hm); [done|cbn; lia|done|done|].
  cbn [app] in Hm. destruct gs as [|g gs]; [done|].
  destruct (finish_ok be m4 g gs Hi) as (m5 & E5 & Hd5 & Hbm).
  { destruct Hf as [_ Hf]. rewrite <-Hm in Hf. by apply Forall_cons in Hf as [? _]. }
  exists m4, m5, g, gs. split_and!; try done. unfold Mkfs.main. cbn [negb]. erewrite bind_Ret; [|reflexivity]. erewrite bind_Ret; [|reflexivity].
  rewrite decide_True by done. change (Mkfs.Image _ _ _ _ _) with (Mkfs.Image ∅ 29 29 1 1). erewrite bind_Ret; [|exact E0].
  erewrite bind_Ret; [|reflexivity]. rewrite !int_bytes_xint. erewrite bind_Ret; [|exact E1]. rewrite decide_True by done.
  rewrite !dirent_in_entry by done. erewrite bind_Ret; [|exact E2]. erewrite bind_Ret; [|exact E3]. erewrite bind_Ret; [|exact E4]. exact E5.
Qed.

Lemma dinode_range_of m r gs g sz :
  disk_ok m r gs → g ∈ gs → s16 (af_type g) = af_type g → is_u32 sz → stored m g →
  dinode_range (Dinode (af_type g) 0 0 1 sz (addrs_of (af_secs g) (af_ind g))).
Proof.
  intros Hd Hg Hty Hsz Hst. pose proof (do_range _ _ _ Hd) as Hfb. split_and!; [apply addrs_length|by repeat constructor|]. constructor; [done|].
  assert (∀ s, s ∈ sectors g → is_u32 s) as Hr.
  { intros s Hs. pose proof (proj1 (disk_in _ _ _ s Hd) (sectors_in g gs s Hg Hs)). unfold is_u32, FIRST in *. lia. }
  unfold addrs_of. apply Forall_app. split.
  - apply Forall_take, Forall_app. split; [apply Forall_forall; intros s Hs; apply Hr, in_secs, Hs|].
    apply Forall_replicate. unfold is_u32. lia.
  - apply Forall_singleton. destruct (decide (af_ind g = 0)) as [->|Hi]; [unfold is_u32; lia|]. by apply Hr, ind_in.
Qed.

Lemma data_found m r gs g q n :
  disk_ok m r gs → g ∈ gs → tight g → i_dev q = ROOTDEV → i_addrs q = addrs_of (af_secs g) (af_ind g) → (n <= length (af_data g))%nat →
  file_bytes (disk_of m) ∅ q 0 (Z.of_nat n) = take n (af_data g).
Proof.
  intros Hd Hg [Ht _] Hdev Ha Hn. pose proof (proj1 (Forall_forall _ _) (do_files _ _ _ Hd) g Hg) as Hst.
  assert (length (af_data g) <= 512 * length (af_secs g))%nat as Hl.
  { rewrite Ht. pose proof (Nat.div_mod (length (af_data g) + 511) 512 ltac:(lia)). pose proof (Nat.mod_upper_bound (length (af_data g) + 511) 512 ltac:(lia)). lia. }
  apply list_eq_same_length with (n := n); [rewrite length_take; lia|rewrite length_file_bytes; lia|].
  intros i a b Hi Ha' Hb'. apply list_lookup_total_correct in Ha' as <-, Hb' as <-. rewrite file_bytes_lookup by lia.
  rewrite Z.add_0_l, (file_byte_found m r gs g q i Hd Hg Hdev Ha), (st_data _ _ Hst) by lia.
  rewrite lookup_total_app_l, lookup_total_take_lt by lia. done.
Qed.

(** An inode of the finished image. *)
Lemma inode_final m g0 gs i g :
  disk_ok m (final_table (g0 :: gs)) (g0 :: gs) → Forall tight (g0 :: gs) → (length (g0 :: gs) < 208)%nat →
  (g0 :: gs) !! i = Some g → s16 (af_type g) = af_type g → (length (af_data g) <= 140 * 512)%nat →
  let q := inode_of (disk_of m) (Z.of_nat i + 1) in
  i_type q = af_type g ∧ i_nlink q = 1 ∧ i_size q = (if decide (i = 0%nat) then fixed_size (length (af_data g)) else Z.of_nat (length (af_data g))) ∧
  ∀ n, (n <= length (af_data g))%nat → file_bytes (disk_of m) ∅ q 0 (Z.of_nat n) = take n (af_data g).
Proof.
  intros Hd Ht Hc Hi Hty Hl q. pose proof (lookup_lt_Some _ _ _ Hi) as Hlt. pose proof (list_elem_of_lookup_2 _ _ _ Hi) as Hg.
  set (sz := if decide (i = 0%nat) then fixed_size (length (af_data g)) else Z.of_nat (length (af_data g))).
  assert (final_table (g0 :: gs) (Z.of_nat i + 1) = Dinode (af_type g) 0 0 1 sz (addrs_of (af_secs g) (af_ind g))) as Hf.
  { unfold final_table, sz. destruct i as [|i]; [by injection Hi as ->|]. rewrite !decide_False by lia. unfold table_of. rewrite decide_True by lia.
    replace (Z.to_nat (Z.of_nat (S i) + 1 - 1)) with (S i) by lia. by rewrite Hi. }
  assert (is_u32 sz) as Hsz.
  { unfold sz, fixed_size, is_u32. pose proof (Z.div_pos (Z.of_nat (length (af_data g))) 512). pose proof (Z.div_lt_upper_bound (Z.of_nat (length (af_data g))) 512 141). case_decide; lia. }
  pose proof (proj1 (Forall_forall _ _) (do_files _ _ _ Hd) g Hg) as Hst. pose proof (proj1 (Forall_forall _ _) Ht g Hg) as Htg.
  pose proof (inode_found m _ _ (Z.of_nat i + 1) Hd ltac:(lia)) as Hfound. rewrite Hf in Hfound.
  specialize (Hfound (dinode_range_of m _ _ g sz Hd Hg Hty Hsz Hst)). unfold q, inode_of. rewrite Hfound. cbn [di_type di_nlink di_size di_addrs i_type i_nlink i_size].
  split_and!; try done. intros n Hn. eapply data_found; try done.
Qed.

(** C10. What mkfs.c is given is what the kernel finds.  On a machine of either byte
    order, if the names have no slash, the files can be read and there is room,
    the program builds an image in which the superblock states the geometry, each
    file is a regular file with one link whose contents, as the kernel reads them
    through direct and indirect blocks, are the bytes of the file, the root
    directory begins with the entries of all files in order, and the bitmap marks
    exactly the blocks that are in use. *)
Theorem mkfs_builds be host prog img args reads :
  Forall2 (λ a rs, (ch_slash ∉ a) ∧ host a = Some rs) args reads → (length args <= 198)%nat → fits (built args (whole <$> reads)) →
  ∃ m, Mkfs.main be host true (prog :: img :: args) Mkfs.start = Ret tt m ∧
    let D := disk_of m in
    block_word (contents D ∅ (ROOTDEV, 1)) <$> seq 0 4 = [1024; 965; 200; 30] ∧
    (∀ i rs, reads !! i = Some rs → let q := inode_of D (Z.of_nat i + 2) in
      i_type q = T_FILE ∧ i_nlink q = 1 ∧ file_data D ∅ q = whole rs) ∧
    (let q := inode_of D ROOTINO in
      i_type q = T_DIR ∧ i_nlink q = 1 ∧ take (length (root_data args)) (file_data D ∅ q) = root_data args) ∧
    (∀ b, 0 <= b < 4096 → Z.testbit (contents D ∅ (ROOTDEV, BBLOCK b Mkfs.ninodes) !!! Z.to_nat (b / 8)) (b mod 8) =
      bool_decide (b < FIRST + Z.of_nat (total (built args (whole <$> reads))))).
Proof.
  intros Ha Hn Hf. destruct (build_ok be host args reads prog img Ha Hn Hf) as (m1 & m & g & gs & E & [Hd1 Ht _ Hc] & Hm & Hd & Hb).
  exists m. split; [exact E|]. cbv zeta. pose proof (do_range _ _ _ Hd1) as Hfb.
  destruct Hf as [Hroom Hsizes].
  assert (∀ i ty data, built args (whole <$> reads) !! i = Some (ty, data) → s16 ty = ty → let q := inode_of (disk_of m) (Z.of_nat i + 1) in
    i_type q = ty ∧ i_nlink q = 1 ∧ i_size q = (if decide (i = 0%nat) then fixed_size (length data) else Z.of_nat (length data)) ∧
    ∀ n, (n <= length data)%nat → file_bytes (disk_of m) ∅ q 0 (Z.of_nat n) = take n data) as Hino.
  { intros i ty data Hi Hty. pose proof (Forall_lookup_1 _ _ _ _ Hsizes Hi) as Hl. rewrite <-Hm in Hi. unfold meaning in Hi.
    apply list_lookup_fmap_Some in Hi as (h & [= -> ->] & Hh). by apply (inode_final m g gs i h). }
  split; [|split; [|split]].
  - rewrite (contents_disk _ _ _ _ Hd) by lia. rewrite (do_super _ _ _ Hd). by vm_compute.
  - intros i rs Hrs. destruct (Hino (S i) T_FILE (whole rs)) as (H1 & H2 & H3 & H4); [|done|].
    { change ((pair T_FILE <$> (whole <$> reads)) !! i = Some (T_FILE, whole rs)). by rewrite !list_lookup_fmap, Hrs. }
    replace (Z.of_nat (S i) + 1) with (Z.of_nat i + 2) in * by lia. split_and!; [done..|]. unfold file_data. rewrite H3, decide_False by done.
    rewrite H4 by lia. by rewrite firstn_all.
  - destruct (Hino 0%nat T_DIR (root_data args) eq_refl eq_refl) as (H1 & H2 & H3 & H4). change (Z.of_nat 0 + 1) with ROOTINO in *.
    split_and!; [done..|]. unfold file_data. set (n := length (root_data args)) in *.
    assert (Z.of_nat n <= i_size (inode_of (disk_of m) ROOTINO)).
    { rewrite H3, decide_True by done. unfold fixed_size. pose proof (Z.div_mod (Z.of_nat n) 512 ltac:(lia)). pose proof (Z.mod_pos_bound (Z.of_nat n) 512 ltac:(lia)). lia. }
    rewrite (file_bytes_app _ _ _ 0 (Z.of_nat n)), H4, (firstn_all2 (root_data args)) by lia. apply take_app_length.
  - intros b Hb'. replace (BBLOCK b Mkfs.ninodes) with 28 by (unfold BBLOCK, BPB, BSIZE, Mkfs.ninodes; rewrite (Z.div_small b) by lia; done).
    rewrite (contents_disk _ _ _ _ Hd) by lia. rewrite Hb, marks_bits by (unfold FIRST in *; lia).
    by rewrite (free_count _ _ _ Hd1), (total_sectors _ Ht), Hm.
Qed.

(** Two files, one of them long enough for an indirect block. *)
Lemma mkfs_builds_witness :
  let big := replicate 13 (replicate 512 7) ++ [[8]] in
  ∃ m, Mkfs.main true (λ a, if decide (a = chars "_sh") then Some big else Some [[1; 2]; [3]]) true
         [chars "mkfs"; chars "fs.img"; chars "README"; chars "_sh"] Mkfs.start = Ret tt m ∧
    file_data (disk_of m) ∅ (inode_of (disk_of m) 3) = whole big.
Proof.
  intros big.
  assert (fits (built [chars "README"; chars "_sh"] (whole <$> [[[1; 2]; [3]]; big]))) as Hf.
  { unfold fits. split; [vm_compute; discriminate|]. repeat (apply Forall_cons; split); [apply Nat.leb_le; vm_compute; reflexivity..|apply Forall_nil_2]. }
  edestruct (mkfs_builds true (λ a, if decide (a = chars "_sh") then Some big else Some [[1; 2]; [3]]) (chars "mkfs") (chars "fs.img")
    [chars "README"; chars "_sh"] [[[1; 2]; [3]]; big]) as (m & E & _ & Hdata & _); [| |exact Hf|].
  - repeat apply Forall2_cons_2; [split; [by apply (bool_decide_unpack _)|by vm_compute]..|apply Forall2_nil_2].
  - cbn. lia.
  - exists m. split; [exact E|]. apply (Hdata 1%nat big eq_refl).
Defined.
