(* ===== verification/Unix.v ===== *)
(** * A specification of the system calls

    What the programs may rely on, without the kernel's data structures: files are
    sequences of bytes, directories lists of entries, open files have an offset that
    the processes sharing them share, pipes are queues, and processes are programs
    that take turns.  Limits and answers to wrong arguments are those of the calls in
    sysfile.c and sysproc.c.  A process that was killed is gone at once; memory is
    only counted.  The machine runs the test programs of the repository and the shell
    with its programs. *)

From stdpp Require Import base list gmap strings.
From Stdlib Require Import ZArith Lia.
From S2P Require Import Prelude KState CString KExt Cprintf Fs User.

(** ** Files and directories *)

Inductive content := Folder (slots : list (Z * list Z)) | Bytes (data : list Z) | Device.
Record node := Node { nd_nlink : Z; nd_content : content }.

(** What an open file refers to, and the state the processes that have it open share. *)
Inductive target := ToNode (ino : Z) | PipeOut (id : nat) | PipeIn (id : nat).
Record ofile := OFile { of_target : target; of_off : Z; of_read : bool; of_write : bool; of_ref : nat }.

Record pipe_t := PipeT { pp_data : list Z; pp_reader : bool; pp_writer : bool }.

(** A process runs a program, spins, or has exited and waits for its parent. *)
Inductive activity := Runs (p : prog unit) | Spins | Zombie.
Record process := Process {
  pr_pid : Z; pr_parent : Z; pr_files : gmap Z nat; pr_cwd : Z; pr_brk : Z; pr_act : activity
}.

Record unix := Unix {
  ux_nodes : gmap Z node; ux_next_ino : Z;
  ux_files : gmap nat ofile; ux_next_file : nat;
  ux_pipes : gmap nat pipe_t;
  ux_procs : list process; ux_next_pid : Z;
  ux_input : list Z;
  ux_output : list Z   (* the last character first *)
}.

Definition set_nodes f u := Unix (f (ux_nodes u)) (ux_next_ino u) (ux_files u) (ux_next_file u) (ux_pipes u) (ux_procs u) (ux_next_pid u) (ux_input u) (ux_output u).
Definition set_next_ino v u := Unix (ux_nodes u) v (ux_files u) (ux_next_file u) (ux_pipes u) (ux_procs u) (ux_next_pid u) (ux_input u) (ux_output u).
Definition set_files f u := Unix (ux_nodes u) (ux_next_ino u) (f (ux_files u)) (ux_next_file u) (ux_pipes u) (ux_procs u) (ux_next_pid u) (ux_input u) (ux_output u).
Definition set_next_file v u := Unix (ux_nodes u) (ux_next_ino u) (ux_files u) v (ux_pipes u) (ux_procs u) (ux_next_pid u) (ux_input u) (ux_output u).
Definition set_pipes f u := Unix (ux_nodes u) (ux_next_ino u) (ux_files u) (ux_next_file u) (f (ux_pipes u)) (ux_procs u) (ux_next_pid u) (ux_input u) (ux_output u).
Definition set_procs f u := Unix (ux_nodes u) (ux_next_ino u) (ux_files u) (ux_next_file u) (ux_pipes u) (f (ux_procs u)) (ux_next_pid u) (ux_input u) (ux_output u).
Definition set_next_pid v u := Unix (ux_nodes u) (ux_next_ino u) (ux_files u) (ux_next_file u) (ux_pipes u) (ux_procs u) v (ux_input u) (ux_output u).
Definition set_input v u := Unix (ux_nodes u) (ux_next_ino u) (ux_files u) (ux_next_file u) (ux_pipes u) (ux_procs u) (ux_next_pid u) v (ux_output u).
Definition set_output f u := Unix (ux_nodes u) (ux_next_ino u) (ux_files u) (ux_next_file u) (ux_pipes u) (ux_procs u) (ux_next_pid u) (ux_input u) (f (ux_output u)).

(** ** Names *)

Definition slot_of (name : list Z) (slots : list (Z * list Z)) : option (nat * (Z * list Z)) :=
  list_find (λ s, s.1 ≠ 0 ∧ s.2 = name) slots.

(** A new entry goes to the first free slot or to the end. *)
Definition add_slot (ino : Z) (name : list Z) (slots : list (Z * list Z)) : list (Z * list Z) :=
  match list_find (λ s, s.1 = 0) slots with
  | Some (i, _) => <[i := (ino, name)]> slots
  | None => slots ++ [(ino, name)]
  end.

Definition dots : list (list Z) := [chars "."; chars ".."].
Definition is_empty (slots : list (Z * list Z)) : bool := forallb (λ s, bool_decide (s.1 = 0) || bool_decide (s.2 ∈ dots)) slots.

(** The node a path leads to, or with [parent] the directory of its last name and that
    name. *)
Fixpoint walk (n : nat) (nodes : gmap Z node) (parent : bool) (at_ : Z) (path : list Z) : option (Z * list Z) :=
  match skipelem path with
  | None => if parent then None else Some (at_, [])
  | Some (rest, name) =>
      match nd_content <$> nodes !! at_ with
      | Some (Folder slots) =>
          if parent && bool_decide (rest = []) then Some (at_, name) else
          match n, slot_of name slots with
          | S n', Some (_, (ino, _)) => walk n' nodes parent ino rest
          | _, _ => None
          end
      | _ => None
      end
  end.

Definition resolve (parent : bool) (path : list Z) (cwd : Z) (u : unix) : option (Z * list Z) :=
  walk (length path) (ux_nodes u) parent (if decide (head path = Some ch_slash) then ROOTINO else cwd) path.

Definition change_node (ino : Z) (f : node → node) : unix → unix := set_nodes (alter f ino).
Definition change_slots (d : Z) (f : list (Z * list Z) → list (Z * list Z)) : unix → unix :=
  change_node d (λ n, match nd_content n with Folder s => Node (nd_nlink n) (Folder (f s)) | _ => n end).
Definition add_links (ino : Z) (k : Z) : unix → unix := change_node ino (λ n, Node (nd_nlink n + k) (nd_content n)).

(** The node that is found or made, if its kind fits. *)
Definition create_node (path : list Z) (cwd : Z) (folder : bool) (u : unix) : option Z * unix :=
  match resolve true path cwd u with
  | None => (None, u)
  | Some (d, name) =>
      match ux_nodes u !! d with
      | Some (Node _ (Folder slots)) =>
          match slot_of name slots with
          | Some (_, (ino, _)) =>
              match nd_content <$> ux_nodes u !! ino with
              | Some (Bytes _) => (if folder then None else Some ino, u)
              | _ => (None, u)
              end
          | None =>
              let ino := ux_next_ino u in
              let c := if folder then Folder [(ino, chars "."); (d, chars "..")] else Bytes [] in
              let u := set_next_ino (ino + 1) (set_nodes (<[ino := Node 1 c]>) u) in
              let u := if folder then add_links d 1 u else u in
              (Some ino, change_slots d (add_slot ino name) u)
          end
      | _ => (None, u)
      end
  end.

Definition unlink_node (path : list Z) (cwd : Z) (u : unix) : Z * unix :=
  match resolve true path cwd u with
  | Some (d, name) =>
      match nd_content <$> ux_nodes u !! d with
      | Some (Folder slots) =>
          match slot_of name slots with
          | Some (i, (ino, _)) =>
              let gone := change_slots d (<[i := (0, [])]>) (add_links ino (-1) u) in
              if bool_decide (name ∈ dots) then (-1, u) else
              match nd_content <$> ux_nodes u !! ino with
              | Some (Folder inner) => if is_empty inner then (0, add_links d (-1) gone) else (-1, u)
              | _ => (0, gone)
              end
          | None => (-1, u)
          end
      | _ => (-1, u)
      end
  | None => (-1, u)
  end.

Definition link_node (old new : list Z) (cwd : Z) (u : unix) : Z * unix :=
  match resolve false old cwd u, resolve true new cwd u with
  | Some (ino, _), Some (d, name) =>
      match nd_content <$> ux_nodes u !! ino, nd_content <$> ux_nodes u !! d with
      | Some (Folder _), _ => (-1, u)
      | _, Some (Folder slots) =>
          match slot_of name slots with
          | Some _ => (-1, u)
          | None => (0, change_slots d (add_slot ino name) (add_links ino 1 u))
          end
      | _, _ => (-1, u)
      end
  | _, _ => (-1, u)
  end.

(** ** Open files *)

Definition NOFILES : nat := 16.
Definition lowest_fd (f : gmap Z nat) : option Z := snd <$> list_find (λ fd, f !! fd = None) (Z.of_nat <$> seq 0 NOFILES).

(** A new descriptor for the open file [i]. *)
Definition give_fd (i : nat) (p : process) : option (Z * process) :=
  fd ← lowest_fd (pr_files p);
  Some (fd, Process (pr_pid p) (pr_parent p) (<[fd := i]> (pr_files p)) (pr_cwd p) (pr_brk p) (pr_act p)).

Definition drop_fd (fd : Z) (p : process) : process :=
  Process (pr_pid p) (pr_parent p) (delete fd (pr_files p)) (pr_cwd p) (pr_brk p) (pr_act p).
Definition acts (a : activity) (p : process) : process :=
  Process (pr_pid p) (pr_parent p) (pr_files p) (pr_cwd p) (pr_brk p) a.

Definition new_file (o : ofile) (u : unix) : nat * unix :=
  (ux_next_file u, set_next_file (S (ux_next_file u)) (set_files (<[ux_next_file u := o]>) u)).

(** One reference less; the last one closes an end of a pipe. *)
Definition drop_file (i : nat) (u : unix) : unix :=
  match ux_files u !! i with
  | Some (OFile t off r w (S (S n))) => set_files (<[i := OFile t off r w (S n)]>) u
  | Some o =>
      let u := set_files (delete i) u in
      match of_target o with
      | PipeOut id => set_pipes (alter (λ q, PipeT (pp_data q) false (pp_writer q)) id) u
      | PipeIn id => set_pipes (alter (λ q, PipeT (pp_data q) (pp_reader q) false) id) u
      | ToNode _ => u
      end
  | None => u
  end.
Definition keep_file (i : nat) : unix → unix :=
  set_files (alter (λ o, OFile (of_target o) (of_off o) (of_read o) (of_write o) (S (of_ref o))) i).

Definition file_of (fd : Z) (p : process) (u : unix) : option (nat * ofile) :=
  i ← pr_files p !! fd; o ← ux_files u !! i; Some (i, o).
Definition advance (i : nat) (n : nat) : unix → unix :=
  set_files (alter (λ o, OFile (of_target o) (of_off o + Z.of_nat n) (of_read o) (of_write o) (of_ref o)) i).

(** The bytes of a directory as a file. *)
Definition slot_bytes (s : Z * list Z) : list Z := dirent_bytes (Dirent s.1 (take DIRSIZ (s.2 ++ replicate DIRSIZ 0))).
Definition node_bytes (c : content) : list Z :=
  match c with Folder s => s ≫= slot_bytes | Bytes d => d | Device => [] end.

(** Up to [n] characters of the first line of the input. *)
Fixpoint input_line (n : nat) (l : list Z) : list Z :=
  match n, l with
  | S n', c :: l' => if decide (c = ch_newline) then [c] else c :: input_line n' l'
  | _, _ => []
  end.

(** [None] when the reader has to wait. *)
Definition do_read (fd n : Z) (p : process) (u : unix) : option (option (list Z) * unix) :=
  match file_of fd p u with
  | Some (i, OFile t off true _ _) =>
      match t with
      | PipeOut id =>
          match ux_pipes u !! id with
          | Some (PipeT [] r true) => None
          | Some (PipeT d r w) =>
              Some (Some (take (Z.to_nat n) d), set_pipes (<[id := PipeT (drop (Z.to_nat n) d) r w]>) u)
          | None => Some (None, u)
          end
      | PipeIn _ => Some (None, u)
      | ToNode ino =>
          match nd_content <$> ux_nodes u !! ino with
          | Some Device => let l := input_line (Z.to_nat n) (ux_input u) in
                           Some (Some l, set_input (drop (length l) (ux_input u)) u)
          | Some c => let l := take (Z.to_nat n) (drop (Z.to_nat off) (node_bytes c)) in Some (Some l, advance i (length l) u)
          | None => Some (None, u)
          end
      end
  | _ => Some (None, u)
  end.

(** A file as the bytes [l] are written at [off], which is not behind its end. *)
Fixpoint overwrite (off : nat) (l d : list Z) : list Z :=
  match off, d with
  | S off', x :: d' => x :: overwrite off' l d'
  | _, _ => l ++ drop (length l) d
  end.

Definition do_write (fd : Z) (l : list Z) (p : process) (u : unix) : Z * unix :=
  match file_of fd p u with
  | Some (i, OFile t off _ true _) =>
      match t with
      | PipeIn id =>
          match ux_pipes u !! id with
          | Some (PipeT d true w) => (Z.of_nat (length l), set_pipes (<[id := PipeT (d ++ l) true w]>) u)
          | _ => (-1, u)
          end
      | PipeOut _ => (-1, u)
      | ToNode ino =>
          match ux_nodes u !! ino with
          | Some (Node _ Device) => (Z.of_nat (length l), set_output (λ o, rev_append l o) u)
          | Some (Node n (Bytes d)) =>
              if decide (off + Z.of_nat (length l) > MAXFILE * BSIZE) then (-1, u) else
              (Z.of_nat (length l), advance i (length l) (set_nodes (<[ino := Node n (Bytes (overwrite (Z.to_nat off) l d))]>) u))
          | _ => (-1, u)
          end
      end
  | _ => (-1, u)
  end.

Definition do_open (path : list Z) (mode : Z) (p : process) (u : unix) : Z * process * unix :=
  let create := negb (bool_decide (Z.land mode O_CREATE = 0)) in
  let '(r, u1) := if create then create_node path (pr_cwd p) false u else (fst <$> resolve false path (pr_cwd p) u, u) in
  match r with
  | None => (-1, p, u1)
  | Some ino =>
      match nd_content <$> ux_nodes u1 !! ino with
      | None => (-1, p, u1)
      | Some c =>
          if negb create && (if c is Folder _ then negb (bool_decide (mode = O_RDONLY)) else false) then (-1, p, u1) else
          let wr := negb (bool_decide (Z.land mode O_WRONLY = 0)) in
          let rw := negb (bool_decide (Z.land mode O_RDWR = 0)) in
          let '(i, u2) := new_file (OFile (ToNode ino) 0 (negb wr) (wr || rw) 1) u1 in
          match give_fd i p with Some (fd, p') => (fd, p', u2) | None => (-1, p, u1) end
      end
  end.

Definition do_pipe (p : process) (u : unix) : option (Z * Z) * process * unix :=
  let id := ux_next_file u in
  let u1 := set_pipes (<[id := PipeT [] true true]>) u in
  let '(i, u2) := new_file (OFile (PipeOut id) 0 true false 1) u1 in
  let '(j, u3) := new_file (OFile (PipeIn id) 0 false true 1) u2 in
  match give_fd i p with
  | Some (fd0, p1) =>
      match give_fd j p1 with
      | Some (fd1, p2) => (Some (fd0, fd1), p2, u3)
      | None => (None, p, u)
      end
  | None => (None, p, u)
  end.

Definition do_stat (fd : Z) (p : process) (u : unix) : option stat_t :=
  '(_, o) ← file_of fd p u;
  if of_target o is ToNode ino then
    n ← ux_nodes u !! ino;
    Some (Stat (match nd_content n with Folder _ => T_DIR | Bytes _ => T_FILE | Device => T_DEV end) ROOTDEV ino (nd_nlink n)
            (Z.of_nat (length (node_bytes (nd_content n)))))
  else None.

(** ** Processes *)

Definition MAXPROCS : nat := 64.
Definition INIT : Z := 1.

Definition set_proc (p : process) : unix → unix :=
  set_procs (fmap (λ q, if decide (pr_pid q = pr_pid p) then p else q)).

(** A process ends: its files are closed, its children get a new parent. *)
Definition finish (p : process) (u : unix) : unix :=
  let u := foldl (λ u i, drop_file i u) u ((map_to_list (pr_files p)).*2) in
  let orphan q := if decide (pr_parent q = pr_pid p) then Process (pr_pid q) INIT (pr_files q) (pr_cwd q) (pr_brk q) (pr_act q) else q in
  set_proc (Process (pr_pid p) (pr_parent p) ∅ (pr_cwd p) (pr_brk p) Zombie) (set_procs (fmap orphan) u).

Definition ended (p : process) : bool := if pr_act p is Zombie then true else false.

(** The number of a child that has ended, which is then gone.  [None] when there are
    children but none has ended. *)
Definition do_wait (p : process) (u : unix) : option (Z * unix) :=
  match filter (λ q, pr_parent q = pr_pid p) (ux_procs u) with
  | [] => Some (-1, u)
  | children =>
      '(_, z) ← list_find (λ q, ended q = true) children;
      Some (pr_pid z, set_procs (filter (λ q, pr_pid q ≠ pr_pid z)) u)
  end.

Definition do_kill (pid : Z) (u : unix) : Z * unix :=
  match list_find (λ q, pr_pid q = pid) (ux_procs u) with
  | Some (_, q) => (0, if ended q then u else finish q u)
  | None => (-1, u)
  end.

Section machine.
(** What the code in a file does with its arguments, and the memory there is. *)
Context (image : list Z → list (list Z) → option (prog unit)) (memory : Z).

Definition do_sbrk (n : Z) (p : process) : Z * process :=
  if decide (0 <= pr_brk p + n <= memory) then
    (pr_brk p, Process (pr_pid p) (pr_parent p) (pr_files p) (pr_cwd p) (pr_brk p + n) (pr_act p))
  else (u32 (-1), p).

(** The strings and the pointers to them share a page. *)
Definition args_fit (argv : list (list Z)) : bool :=
  bool_decide (length argv < 32)%nat &&
  bool_decide (sum_list_with (λ a, (Z.to_nat ((Z.of_nat (length a) + 4) / 4 * 4))) argv + 4 * (length argv + 4) <= 4096)%nat.

Definition do_exec (path : list Z) (argv : list (list Z)) (p : process) (u : unix) : option (prog unit) :=
  '(ino, _) ← resolve false path (pr_cwd p) u;
  c ← nd_content <$> ux_nodes u !! ino;
  if c is Bytes d then if args_fit argv then image d argv else None else None.

(** The answer to a call that leaves the process where it is, or [None] if it has to
    wait. *)
Definition answer {B : Type} (c : Sys.call B) (p : process) (u : unix) : option (B * process * unix) :=
  match c in Sys.call B return option (B * process * unix) with
  | Sys.Fork => Some (-1, p, u)
  | Sys.ExecCall _ _ => Some (-1, p, u)
  | Sys.Wait => '(r, u) ← do_wait p u; Some (r, p, u)
  | Sys.PipeCall => Some (do_pipe p u)
  | Sys.Write fd l => let '(r, u) := do_write fd l p u in Some (r, p, u)
  | Sys.Read fd n => '(r, u) ← do_read fd n p u; Some (r, p, u)
  | Sys.Close fd =>
      match pr_files p !! fd with
      | Some i => Some (0, drop_fd fd p, drop_file i u)
      | None => Some (-1, p, u)
      end
  | Sys.Kill pid => let '(r, u) := do_kill pid u in Some (r, p, u)
  | Sys.Open path mode => Some (do_open path mode p u)
  | Sys.Mknod path _ _ =>
      let '(r, u') := create_node path (pr_cwd p) false u in
      if decide (r = Some (ux_next_ino u)) then Some (0, p, change_node (ux_next_ino u) (λ n, Node (nd_nlink n) Device) u')
      else Some (-1, p, u)
  | Sys.Unlink path => let '(r, u) := unlink_node path (pr_cwd p) u in Some (r, p, u)
  | Sys.Fstat fd => Some (do_stat fd p u, p, u)
  | Sys.Link old new => let '(r, u) := link_node old new (pr_cwd p) u in Some (r, p, u)
  | Sys.Mkdir path =>
      let '(r, u) := create_node path (pr_cwd p) true u in Some (if r is Some _ then 0 else -1, p, u)
  | Sys.Chdir path =>
      match resolve false path (pr_cwd p) u with
      | Some (ino, _) =>
          if (if nd_content <$> ux_nodes u !! ino is Some (Folder _) then true else false)
          then Some (0, Process (pr_pid p) (pr_parent p) (pr_files p) ino (pr_brk p) (pr_act p), u)
          else Some (-1, p, u)
      | None => Some (-1, p, u)
      end
  | Sys.Dup fd =>
      match pr_files p !! fd with
      | Some i => match give_fd i p with Some (r, p') => Some (r, p', keep_file i u) | None => Some (-1, p, u) end
      | None => Some (-1, p, u)
      end
  | Sys.Getpid => Some (pr_pid p, p, u)
  | Sys.Sbrk n => let '(r, p') := do_sbrk n p in Some (r, p', u)
  | Sys.Sleep _ => Some (0, p, u)
  | Sys.Uptime => Some (0, p, u)
  | Sys.Signal _ _ => Some (0, p, u)
  | Sys.Sigsend _ _ => Some (0, p, u)
  | Sys.Sigreturn => Some (0, p, u)
  | Sys.Advanceprocstats => Some (tt, p, u)
  | Sys.WaitStat => '(r, u) ← do_wait p u; Some (if decide (r = -1) then None else Some (r, PerfT 0 0 0 0 0), p, u)
  | Sys.Priority _ => Some (tt, p, u)
  end.

(** A call and what follows it.  A process that is gone afterwards, because it killed
    itself, stays gone. *)
Definition step_call {B : Type} (c : Sys.call B) (k : B → prog unit) (p : process) (u : unix) : option unix :=
  let other k := '(b, p, u) ← answer c p u; Some (set_proc (acts (Runs (k b)) p) u) in
  match c in Sys.call B return (B → prog unit) → ((B → prog unit) → option unix) → option unix with
  | Sys.Fork => λ k _,
      if decide (MAXPROCS <= length (ux_procs u))%nat then Some (set_proc (acts (Runs (k (-1))) p) u) else
      let pid := ux_next_pid u in
      let child := Process pid (pr_pid p) (pr_files p) (pr_cwd p) (pr_brk p) (Runs (k 0)) in
      let u := foldl (λ u i, keep_file i u) u ((map_to_list (pr_files p)).*2) in
      Some (set_procs (λ l, l ++ [child]) (set_next_pid (pid + 1) (set_proc (acts (Runs (k pid)) p) u)))
  | Sys.ExecCall path argv => λ k _,
      Some (set_proc (acts (Runs (match do_exec path argv p u with Some q => q | None => k (-1) end)) p) u)
  | Sys.Kill pid => λ k _,
      let '(r, u) := do_kill pid u in
      Some (if decide (pid = pr_pid p) then u else set_proc (acts (Runs (k r)) p) u)
  | _ => λ k other, other k
  end k other.

(** What process [p] does next; [None] if it has to wait or has nothing to do. *)
Definition step (p : process) (u : unix) : option unix :=
  match pr_act p with
  | Runs (Done _) | Runs Exit => Some (finish p u)
  | Runs Hang => Some (set_proc (acts Spins p) u)
  | Runs (Call c k) => step_call c k p u
  | Spins | Zombie => None
  end.

(** The first process in [l] that can go on does. *)
Fixpoint turn (l : list process) (u : unix) : option unix :=
  match l with
  | [] => None
  | p :: l' => match step p u with Some u' => Some u' | None => turn l' u end
  end.

(** Until all wait, at most [fuel] turns; [order] is the order in which processes are
    asked. *)
Fixpoint operate (order : list process → list process) (fuel : nat) (u : unix) : option unix :=
  match turn (order (ux_procs u)) u with
  | None => Some u
  | Some u' => match fuel with O => None | S n => operate order n u' end
  end.
End machine.

(** ** A machine as it is when its first program starts

    [files] are the files of the root directory besides the console.  The first three
    descriptors are the console. *)
Definition boot (files : list (list Z * list Z)) (input : list Z) (p : prog unit) : unix :=
  let nodes := imap (λ i f, (Z.of_nat i + 3, Node 1 (Bytes f.2))) files in
  let slots := [(ROOTINO, chars "."); (ROOTINO, chars ".."); (2, chars "console")] ++ imap (λ i f, (Z.of_nat i + 3, f.1)) files in
  Unix (list_to_map ((ROOTINO, Node 1 (Folder slots)) :: (2, Node 1 Device) :: nodes)) (Z.of_nat (length files) + 3)
    {[0%nat := OFile (ToNode 2) 0 true true 3]} 1 ∅
    [Process INIT 0 {[0 := 0%nat; 1 := 0%nat; 2 := 0%nat]} ROOTINO 16384 (Runs p)] 2 input [].

(** What is on the screen in the end, if the machine comes to rest with all of its
    processes but the first gone. *)
Definition screen (u : option unix) : option (list Z) :=
  u ← u;
  match ux_procs u with
  | [Process _ _ _ _ _ Zombie] => Some (reverse (ux_output u))
  | _ => None
  end.

(** The program of a routine with its data. *)
Definition program {S A : Type} (m : U S A) (s : S) : prog unit := prog_bind (m s) (λ _, Done tt).
