(* ===== verification/Usertests.v ===== *)
(** * The test programs (usertests.c, forktest.c, stressfs.c, sanity.c, test.c)

    Each test as a program over the system calls.  The global buffers of usertests.c
    are the program's data; a local array is a value.  Two tests have data of their
    own: [mem] the allocator and its blocks, [sbrktest] the memory.  What validateint
    does with a stack pointer that need not be valid, an instruction sequence, is a
    parameter.  In [UnixSpec] the programs run on the specification of the calls. *)

From stdpp Require Import base list gmap strings.
From Stdlib Require Import ZArith Lia.
From S2P Require Import Prelude Spinlock Kalloc CString KExt Cprintf Fs DirSpec User Umalloc.
Import Sys.

(** The pattern [if(c){ printf(1, msg); exit(); }]. *)
Definition print {S : Type} (msg : list Z) : U S unit := printf (λ _, []) 1 msg [].
Definition dies_if {S : Type} (c : bool) (msg : list Z) : U S unit := if c then print msg ;; exit else mret tt.
Definition fails (r : Z) : bool := bool_decide (r < 0).
Definition nonzero (r : Z) : bool := negb (bool_decide (r = 0)).
Definition zero (r : Z) : bool := bool_decide (r = 0).
Definition succeeds (r : Z) : bool := bool_decide (0 <= r).
Definition differs (r n : Z) : bool := negb (bool_decide (r = n)).

(** [char buf[8192]; char name[3];] *)
Definition BUFSIZE : Z := 8192.
Record ut := Ut { ut_buf : list Z; ut_name : list Z }.
Definition ut0 : ut := Ut (replicate (Z.to_nat BUFSIZE) 0) [0; 0; 0].
Definition set_buf (f : list Z → list Z) (s : ut) : ut := Ut (f (ut_buf s)) (ut_name s).
Definition set_name (f : list Z → list Z) (s : ut) : ut := Ut (ut_buf s) (f (ut_name s)).

(** [memcpy(d + off, l, length l)] for an array [d] that is long enough. *)
Definition put_at (off : nat) (l d : list Z) : list Z := take off d ++ l ++ drop (off + length l) d.

(** [read(fd, buf, n)] and [write(fd, buf, n)]. *)
Definition read_buf (fd n : Z) : U ut Z :=
  r ← sys (Read fd n);
  match r with
  | None => mret (-1)
  | Some l => change (set_buf (put_at 0 l)) ;; mret (Z.of_nat (length l))
  end.
Definition write_buf (fd n : Z) : U ut Z := l ← look (λ s, take (Z.to_nat n) (ut_buf s)); sys (Write fd l).
Definition open_name (mode : Z) : U ut Z := n ← look ut_name; sys (Open (to_nul n) mode).

Module Usertests.

Definition iputtest : U ut unit :=
  print (line "iput test") ;;
  r ← sys (Mkdir (chars "iputdir")); dies_if (fails r) (line "mkdir failed") ;;
  r ← sys (Chdir (chars "iputdir")); dies_if (fails r) (line "chdir iputdir failed") ;;
  r ← sys (Unlink (chars "../iputdir")); dies_if (fails r) (line "unlink ../iputdir failed") ;;
  r ← sys (Chdir (chars "/")); dies_if (fails r) (line "chdir / failed") ;;
  print (line "iput test ok").

Definition exitiputtest : U ut unit :=
  print (line "exitiput test") ;;
  pid ← sys Fork;
  dies_if (fails pid) (line "fork failed") ;;
  (if decide (pid = 0) then
     r ← sys (Mkdir (chars "iputdir")); dies_if (fails r) (line "mkdir failed") ;;
     r ← sys (Chdir (chars "iputdir")); dies_if (fails r) (line "child chdir failed") ;;
     r ← sys (Unlink (chars "../iputdir")); dies_if (fails r) (line "unlink ../iputdir failed") ;;
     exit
   else mret tt) ;;
  sys Wait ;;
  print (line "exitiput test ok").

Definition openiputtest : U ut unit :=
  print (line "openiput test") ;;
  r ← sys (Mkdir (chars "oidir")); dies_if (fails r) (line "mkdir oidir failed") ;;
  pid ← sys Fork;
  dies_if (fails pid) (line "fork failed") ;;
  (if decide (pid = 0) then
     fd ← sys (Open (chars "oidir") O_RDWR);
     dies_if (succeeds fd) (line "open directory for write succeeded") ;;
     exit
   else mret tt) ;;
  sys (Sleep 1) ;;
  r ← sys (Unlink (chars "oidir")); dies_if (nonzero r) (line "unlink failed") ;;
  sys Wait ;;
  print (line "openiput test ok").

Definition opentest : U ut unit :=
  print (line "open test") ;;
  fd ← sys (Open (chars "echo") 0); dies_if (fails fd) (line "open echo failed!") ;;
  sys (Close fd) ;;
  fd ← sys (Open (chars "doesnotexist") 0); dies_if (succeeds fd) (line "open doesnotexist succeeded!") ;;
  print (line "open test ok").

Definition writetest : U ut unit :=
  print (line "small file test") ;;
  fd ← sys (Open (chars "small") (Z.lor O_CREATE O_RDWR));
  (if succeeds fd then print (line "creat small succeeded; ok")
   else print (line "error: creat small failed!") ;; exit) ;;
  each (λ i,
    r ← sys (Write fd (chars "aaaaaaaaaa"));
    (if differs r 10 then printf (λ _, []) 1 (line "error: write aa %d new file failed") [i] ;; exit else mret tt) ;;
    r ← sys (Write fd (chars "bbbbbbbbbb"));
    if differs r 10 then printf (λ _, []) 1 (line "error: write bb %d new file failed") [i] ;; exit else mret tt) (seqZ 0 100) ;;
  print (line "writes ok") ;;
  sys (Close fd) ;;
  fd ← sys (Open (chars "small") O_RDONLY);
  (if succeeds fd then print (line "open small succeeded ok")
   else print (line "error: open small failed!") ;; exit) ;;
  i ← read_buf fd 2000;
  (if decide (i = 2000) then print (line "read succeeded ok") else print (line "read failed") ;; exit) ;;
  sys (Close fd) ;;
  r ← sys (Unlink (chars "small")); dies_if (fails r) (line "unlink small failed") ;;
  print (line "small file test ok").

(** [((int* )buf)[0]] *)
Definition put_int (i : Z) : ut → ut := set_buf (put_at 0 (word_bytes i)).
Definition get_int (s : ut) : Z := s32 (word_at (ut_buf s) 0).

(** [for(;;)] over the blocks; the result is their number. *)
Fixpoint writetest1_read (rounds : nat) (fd n : Z) : U ut unit :=
  i ← read_buf fd 512;
  if decide (i = 0) then
    if decide (n = MAXFILE - 1) then printf (λ _, []) 1 (chars "read only %d blocks from big") [n] ;; exit else mret tt
  else if decide (i ≠ 512) then printf (λ _, []) 1 (line "read failed %d") [i] ;; exit
  else
    v ← look get_int;
    (if differs v n then printf (λ _, []) 1 (line "read content of block %d is %d") [n; v] ;; exit else mret tt) ;;
    match rounds with O => hang | S r => writetest1_read r fd (n + 1) end.

Definition writetest1 : U ut unit :=
  print (line "big files test") ;;
  fd ← sys (Open (chars "big") (Z.lor O_CREATE O_RDWR)); dies_if (fails fd) (line "error: creat big failed!") ;;
  each (λ i,
    change (put_int i) ;;
    r ← write_buf fd 512;
    dies_if (differs r 512) (line "error: write big file failed")) (seqZ 0 MAXFILE) ;;
  sys (Close fd) ;;
  fd ← sys (Open (chars "big") O_RDONLY); dies_if (fails fd) (line "error: open big failed!") ;;
  writetest1_read (Z.to_nat MAXFILE) fd 0 ;;
  sys (Close fd) ;;
  r ← sys (Unlink (chars "big")); dies_if (fails r) (line "unlink big failed") ;;
  print (line "big files ok").

Definition createtest : U ut unit :=
  print (line "many creates, followed by unlink test") ;;
  change (set_name (λ n, <[2%nat := 0]> (<[0%nat := 97]> n))) ;;
  each (λ i,
    change (set_name (<[1%nat := 48 + i]>)) ;;
    fd ← open_name (Z.lor O_CREATE O_RDWR);
    sys (Close fd) ;; mret tt) (seqZ 0 52) ;;
  change (set_name (λ n, <[2%nat := 0]> (<[0%nat := 97]> n))) ;;
  each (λ i,
    change (set_name (<[1%nat := 48 + i]>)) ;;
    n ← look ut_name;
    sys (Unlink (to_nul n)) ;; mret tt) (seqZ 0 52) ;;
  print (line "many creates, followed by unlink; ok").

Definition dirtest : U ut unit :=
  print (line "mkdir test") ;;
  r ← sys (Mkdir (chars "dir0")); dies_if (fails r) (line "mkdir failed") ;;
  r ← sys (Chdir (chars "dir0")); dies_if (fails r) (line "chdir dir0 failed") ;;
  r ← sys (Chdir (chars "..")); dies_if (fails r) (line "chdir .. failed") ;;
  r ← sys (Unlink (chars "dir0")); dies_if (fails r) (line "unlink dir0 failed") ;;
  print (line "mkdir test ok").

Definition echoargv : list (list Z) := chars <$> ["echo"; "ALL"; "TESTS"; "PASSED"]%string.

Definition exectest : U ut unit :=
  print (line "exec test") ;;
  r ← sys (ExecCall (chars "echo") echoargv);
  dies_if (fails r) (line "exec echo failed").

(** The reader of [pipe1]: every byte is one more than the one before.  The result is
    the number of bytes, or [None] after a wrong one. *)
Fixpoint counts_up (seq : Z) (l : list Z) : bool :=
  match l with [] => true | b :: l' => bool_decide (u8 b = u8 seq) && counts_up (seq + 1) l' end.

Fixpoint pipe1_read (rounds : nat) (fd cc seq total : Z) : U ut (option Z) :=
  n ← read_buf fd cc;
  if decide (0 < n) then
    l ← look (λ s, take (Z.to_nat n) (ut_buf s));
    if counts_up seq l then
      let cc := cc * 2 in
      match rounds with
      | O => hang
      | S r => pipe1_read r fd (if decide (cc > BUFSIZE) then BUFSIZE else cc) (seq + n) (total + n)
      end
    else print (line "pipe1 oops 2") ;; mret None
  else mret (Some total).

Definition pipe1 (rounds : nat) : U ut unit :=
  fds ← sys PipeCall;
  match fds with
  | None => print (line "pipe() failed") ;; exit
  | Some (fd0, fd1) =>
      pid ← sys Fork;
      if decide (pid = 0) then
        sys (Close fd0) ;;
        each (λ n,
          change (set_buf (put_at 0 ((λ i, u8 (1033 * n + i)) <$> seqZ 0 1033))) ;;
          r ← write_buf fd1 1033;
          dies_if (differs r 1033) (line "pipe1 oops 1")) (seqZ 0 5) ;;
        exit
      else if decide (pid > 0) then
        sys (Close fd1) ;;
        total ← pipe1_read rounds fd0 1 0 0;
        match total with
        | None => mret tt
        | Some total =>
            (if differs total (5 * 1033) then printf (λ _, []) 1 (line "pipe1 oops 3 total %d") [total] ;; exit else mret tt) ;;
            sys (Close fd0) ;;
            sys Wait ;;
            print (line "pipe1 ok")
        end
      else print (line "fork() failed") ;; exit
  end.

(** A child that loops for ever is a program that hangs; descriptors that [pipe] did not
    set are 0. *)
Definition preempt : U ut unit :=
  print (chars "preempt: ") ;;
  pid1 ← sys Fork;
  (if decide (pid1 = 0) then hang else mret tt) ;;
  pid2 ← sys Fork;
  (if decide (pid2 = 0) then hang else mret tt) ;;
  fds ← sys PipeCall;
  let '(fd0, fd1) := default (0, 0) fds in
  pid3 ← sys Fork;
  (if decide (pid3 = 0) then
     sys (Close fd0) ;;
     r ← sys (Write fd1 (chars "x"));
     (if differs r 1 then print (chars "preempt write error") else mret tt) ;;
     sys (Close fd1) ;;
     hang
   else mret tt) ;;
  sys (Close fd1) ;;
  n ← read_buf fd0 BUFSIZE;
  if decide (n ≠ 1) then print (chars "preempt read error") else
  sys (Close fd0) ;;
  print (chars "kill... ") ;;
  sys (Kill pid1) ;; sys (Kill pid2) ;; sys (Kill pid3) ;;
  print (chars "wait... ") ;;
  sys Wait ;; sys Wait ;; sys Wait ;;
  print (line "preempt ok").

(** [n] rounds are left. *)
Fixpoint exitwait_loop (n : nat) : U ut unit :=
  match n with
  | O => print (line "exitwait ok")
  | S n' =>
      pid ← sys Fork;
      if decide (pid < 0) then print (line "fork failed") else
      if decide (pid ≠ 0) then
        r ← sys Wait;
        if decide (r ≠ pid) then print (line "wait wrong pid") else exitwait_loop n'
      else exit
  end.

Definition exitwait : U ut unit := exitwait_loop 100.

(** The blocks [mem] allocates are chained through their first words, [links]. *)
Definition links := Z → Z.
Definition on_arena {A : Type} (m : U arena A) : U (arena * links) A := λ s,
  prog_bind (m s.1) (λ p, Done (p.1, (p.2, s.2))).

Section mem.
(** Where the allocator's list begins, and the rounds of its loops and of those here. *)
Context (base : Z) (rounds : nat).

Fixpoint mem_fill (n : nat) (m1 : Z) : U (arena * links) Z :=
  m2 ← on_arena (Umalloc.malloc base rounds 10001);
  if decide (m2 = 0) then mret m1 else
  change (λ s, (s.1, λ a, if decide (a = m2) then m1 else s.2 a)) ;;
  match n with O => hang | S n' => mem_fill n' m2 end.

Fixpoint mem_free (n : nat) (m1 : Z) : U (arena * links) unit :=
  if decide (m1 = 0) then mret tt else
  m2 ← look (λ s, s.2 m1);
  on_arena (Umalloc.free rounds m1) ;;
  match n with O => hang | S n' => mem_free n' m2 end.

Definition mem_test : U (arena * links) unit :=
  print (line "mem test") ;;
  ppid ← sys Getpid;
  pid ← sys Fork;
  if decide (pid = 0) then
    m1 ← mem_fill rounds 0;
    mem_free rounds m1 ;;
    m1 ← on_arena (Umalloc.malloc base rounds (1024 * 20));
    (if decide (m1 = 0) then print (line "couldn't allocate mem?!!") ;; sys (Kill ppid) ;; exit else mret tt) ;;
    on_arena (Umalloc.free rounds m1) ;;
    print (line "mem ok") ;;
    exit
  else sys Wait ;; mret tt.
End mem.

(** [for(i = 0; i < 1000; i++)] with its [break]. *)
Fixpoint sharedfd_write (n : nat) (fd : Z) (buf : list Z) : U ut unit :=
  match n with
  | O => mret tt
  | S n' =>
      r ← sys (Write fd buf);
      if decide (r ≠ Z.of_nat (length buf)) then print (line "fstests: write sharedfd failed") else sharedfd_write n' fd buf
  end.

(** The numbers of the two characters among all of the buffer. *)
Fixpoint sharedfd_read (rounds : nat) (fd : Z) (buf : list Z) (nc np : Z) : U ut (Z * Z) :=
  r ← sys (Read fd (Z.of_nat (length buf)));
  match r with
  | Some (c :: l) =>
      let buf := put_at 0 (c :: l) buf in
      let count ch := Z.of_nat (length (filter (λ b, b = ch) buf)) in
      match rounds with O => hang | S r => sharedfd_read r fd buf (nc + count 99) (np + count 112) end
  | _ => mret (nc, np)
  end.

Definition sharedfd (rounds : nat) : U ut unit :=
  print (line "sharedfd test") ;;
  sys (Unlink (chars "sharedfd")) ;;
  fd ← sys (Open (chars "sharedfd") (Z.lor O_CREATE O_RDWR));
  if fails fd then print (chars "fstests: cannot open sharedfd for writing") else
  pid ← sys Fork;
  let buf := replicate 10 (if decide (pid = 0) then 99 else 112) in
  sharedfd_write 1000 fd buf ;;
  (if decide (pid = 0) then exit else sys Wait ;; mret tt) ;;
  sys (Close fd) ;;
  fd ← sys (Open (chars "sharedfd") 0);
  if fails fd then print (line "fstests: cannot open sharedfd for reading") else
  counts ← sharedfd_read rounds fd buf 0 0;
  let '(nc, np) := counts : Z * Z in
  sys (Close fd) ;;
  sys (Unlink (chars "sharedfd")) ;;
  if decide (nc = 10000 ∧ np = 10000) then print (line "sharedfd ok")
  else printf (λ _, []) 1 (line "sharedfd oops %d %d") [nc; np] ;; exit.

Definition names : list (list Z) := chars <$> ["f0"; "f1"; "f2"; "f3"]%string.

Fixpoint fourfiles_read (rounds : nat) (fd : Z) (ch total : Z) : U ut Z :=
  n ← read_buf fd BUFSIZE;
  if decide (0 < n) then
    l ← look (λ s, take (Z.to_nat n) (ut_buf s));
    dies_if (negb (forallb (λ b, bool_decide (b = ch)) l)) (line "wrong char") ;;
    match rounds with O => hang | S r => fourfiles_read r fd ch (total + n) end
  else mret total.

Definition fourfiles (rounds : nat) : U ut unit :=
  print (line "fourfiles test") ;;
  each (λ pi,
    let fname := names !!! Z.to_nat pi in
    sys (Unlink fname) ;;
    pid ← sys Fork;
    dies_if (fails pid) (line "fork failed") ;;
    if decide (pid = 0) then
      fd ← sys (Open fname (Z.lor O_CREATE O_RDWR));
      dies_if (fails fd) (line "create failed") ;;
      change (set_buf (put_at 0 (replicate 512 (48 + pi)))) ;;
      each (λ _,
        n ← write_buf fd 500;
        if differs n 500 then printf (λ _, []) 1 (line "write failed %d") [n] ;; exit else mret tt) (seqZ 0 12) ;;
      exit
    else mret tt) (seqZ 0 4) ;;
  each (λ _, sys Wait ;; mret tt) (seqZ 0 4) ;;
  each (λ i,
    let fname := names !!! Z.to_nat i in
    fd ← sys (Open fname 0);
    total ← fourfiles_read rounds fd (48 + i) 0;
    sys (Close fd) ;;
    (if differs total (12 * 500) then printf (λ _, []) 1 (line "wrong length %d") [total] ;; exit else mret tt) ;;
    sys (Unlink fname) ;; mret tt) (seqZ 0 2) ;;
  print (line "fourfiles ok").

Definition N : Z := 20.

(** The name of two characters in a local array. *)
Definition createdelete : U ut unit :=
  print (line "createdelete test") ;;
  each (λ pi,
    pid ← sys Fork;
    dies_if (fails pid) (line "fork failed") ;;
    if decide (pid = 0) then
      each (λ i,
        fd ← sys (Open [112 + pi; 48 + i] (Z.lor O_CREATE O_RDWR));
        dies_if (fails fd) (line "create failed") ;;
        sys (Close fd) ;;
        if decide (i > 0 ∧ i mod 2 = 0) then
          r ← sys (Unlink [112 + pi; 48 + i / 2]);
          dies_if (fails r) (line "unlink failed")
        else mret tt) (seqZ 0 N) ;;
      exit
    else mret tt) (seqZ 0 4) ;;
  each (λ _, sys Wait ;; mret tt) (seqZ 0 4) ;;
  each (λ i, each (λ pi,
    let name := [112 + pi; 48 + i] in
    fd ← sys (Open name 0);
    (if decide ((i = 0 ∨ i >= N / 2) ∧ fd < 0) then
       printf (λ _, name) 1 (line "oops createdelete %s didn't exist") [1] ;; exit
     else if decide ((i >= 1 ∧ i < N / 2) ∧ fd >= 0) then
       printf (λ _, name) 1 (line "oops createdelete %s did exist") [1] ;; exit
     else mret tt) ;;
    if succeeds fd then sys (Close fd) ;; mret tt else mret tt) (seqZ 0 4)) (seqZ 0 N) ;;
  each (λ i, each (λ pi, sys (Unlink [112 + i; 48 + i]) ;; mret tt) (seqZ 0 4)) (seqZ 0 N) ;;
  print (line "createdelete ok").

Definition unlinkread : U ut unit :=
  print (line "unlinkread test") ;;
  fd ← sys (Open (chars "unlinkread") (Z.lor O_CREATE O_RDWR)); dies_if (fails fd) (line "create unlinkread failed") ;;
  sys (Write fd (chars "hello")) ;;
  sys (Close fd) ;;
  fd ← sys (Open (chars "unlinkread") O_RDWR); dies_if (fails fd) (line "open unlinkread failed") ;;
  r ← sys (Unlink (chars "unlinkread")); dies_if (nonzero r) (line "unlink unlinkread failed") ;;
  fd1 ← sys (Open (chars "unlinkread") (Z.lor O_CREATE O_RDWR));
  sys (Write fd1 (chars "yyy")) ;;
  sys (Close fd1) ;;
  n ← read_buf fd BUFSIZE; dies_if (differs n 5) (chars "unlinkread read failed") ;;
  b ← look (λ s, ut_buf s !!! 0%nat); dies_if (differs b 104) (line "unlinkread wrong data") ;;
  n ← write_buf fd 10; dies_if (differs n 10) (line "unlinkread write failed") ;;
  sys (Close fd) ;;
  sys (Unlink (chars "unlinkread")) ;;
  print (line "unlinkread ok").

Definition linktest : U ut unit :=
  print (line "linktest") ;;
  sys (Unlink (chars "lf1")) ;;
  sys (Unlink (chars "lf2")) ;;
  fd ← sys (Open (chars "lf1") (Z.lor O_CREATE O_RDWR)); dies_if (fails fd) (line "create lf1 failed") ;;
  n ← sys (Write fd (chars "hello")); dies_if (differs n 5) (line "write lf1 failed") ;;
  sys (Close fd) ;;
  r ← sys (Link (chars "lf1") (chars "lf2")); dies_if (fails r) (line "link lf1 lf2 failed") ;;
  sys (Unlink (chars "lf1")) ;;
  fd ← sys (Open (chars "lf1") 0); dies_if (succeeds fd) (line "unlinked lf1 but it is still there!") ;;
  fd ← sys (Open (chars "lf2") 0); dies_if (fails fd) (line "open lf2 failed") ;;
  n ← read_buf fd BUFSIZE; dies_if (differs n 5) (line "read lf2 failed") ;;
  sys (Close fd) ;;
  r ← sys (Link (chars "lf2") (chars "lf2")); dies_if (succeeds r) (line "link lf2 lf2 succeeded! oops") ;;
  sys (Unlink (chars "lf2")) ;;
  r ← sys (Link (chars "lf2") (chars "lf1")); dies_if (succeeds r) (line "link non-existant succeeded! oops") ;;
  r ← sys (Link (chars ".") (chars "lf1")); dies_if (succeeds r) (line "link . lf1 succeeded! oops") ;;
  print (line "linktest ok").

(** The entries of the directory; [fa] are the numbers seen. *)
Fixpoint concreate_read (rounds : nat) (fd : Z) (fa : list Z) : U ut (list Z) :=
  r ← sys (Read fd SIZEOF_DIRENT);
  let next fa := match rounds with O => hang | S r => concreate_read r fd fa end in
  match r with
  | Some (b :: l) =>
      let de := dirent_of (b :: l) in
      if decide (de_inum de = 0) then next fa else
      if decide (de_name de !!! 0%nat = 67 ∧ de_name de !!! 2%nat = 0) then
        let i := de_name de !!! 1%nat - 48 in
        (if decide (i < 0 ∨ i >= 40) then printf (λ _, to_nul (de_name de)) 1 (line "concreate weird file %s") [1] ;; exit else mret tt) ;;
        (if decide (i ∈ fa) then printf (λ _, to_nul (de_name de)) 1 (line "concreate duplicate file %s") [1] ;; exit else mret tt) ;;
        next (i :: fa)
      else next fa
  | _ => mret fa
  end.

Definition concreate (rounds : nat) : U ut unit :=
  print (line "concreate test") ;;
  each (λ i,
    let file := [67; 48 + i] in
    sys (Unlink file) ;;
    pid ← sys Fork;
    (if decide (pid ≠ 0 ∧ i mod 3 = 1) then sys (Link (chars "C0") file) ;; mret tt
     else if decide (pid = 0 ∧ i mod 5 = 1) then sys (Link (chars "C0") file) ;; mret tt
     else
       fd ← sys (Open file (Z.lor O_CREATE O_RDWR));
       (if fails fd then printf (λ _, file) 1 (line "concreate create %s failed") [1] ;; exit else mret tt) ;;
       sys (Close fd) ;; mret tt) ;;
    if decide (pid = 0) then exit else sys Wait ;; mret tt) (seqZ 0 40) ;;
  fd ← sys (Open (chars ".") 0);
  fa ← concreate_read rounds fd [];
  sys (Close fd) ;;
  dies_if (differs (Z.of_nat (length fa)) 40) (line "concreate not enough files in directory listing") ;;
  each (λ i,
    let file := [67; 48 + i] in
    pid ← sys Fork;
    dies_if (fails pid) (line "fork failed") ;;
    (if decide ((i mod 3 = 0 ∧ pid = 0) ∨ (i mod 3 = 1 ∧ pid ≠ 0)) then
       each (λ _, fd ← sys (Open file 0); sys (Close fd) ;; mret tt) (seqZ 0 4)
     else each (λ _, sys (Unlink file) ;; mret tt) (seqZ 0 4)) ;;
    if decide (pid = 0) then exit else sys Wait ;; mret tt) (seqZ 0 40) ;;
  print (line "concreate ok").

Fixpoint linkunlink_loop (n : nat) (x : Z) : U ut unit :=
  match n with
  | O => mret tt
  | S n' =>
      let x := u32 (x * 1103515245 + 12345) in
      (if decide (x mod 3 = 0) then fd ← sys (Open (chars "x") (Z.lor O_RDWR O_CREATE)); sys (Close fd) ;; mret tt
       else if decide (x mod 3 = 1) then sys (Link (chars "cat") (chars "x")) ;; mret tt
       else sys (Unlink (chars "x")) ;; mret tt) ;;
      linkunlink_loop n' x
  end.

Definition linkunlink : U ut unit :=
  print (line "linkunlink test") ;;
  sys (Unlink (chars "x")) ;;
  pid ← sys Fork;
  dies_if (fails pid) (line "fork failed") ;;
  linkunlink_loop 100 (if decide (pid ≠ 0) then 1 else 97) ;;
  (if decide (pid ≠ 0) then sys Wait ;; mret tt else exit) ;;
  print (line "linkunlink ok").

Definition bigdir_name (i : Z) : list Z := [120; 48 + i / 64; 48 + i mod 64].

Definition bigdir : U ut unit :=
  print (line "bigdir test") ;;
  sys (Unlink (chars "bd")) ;;
  fd ← sys (Open (chars "bd") O_CREATE); dies_if (fails fd) (line "bigdir create failed") ;;
  sys (Close fd) ;;
  each (λ i, r ← sys (Link (chars "bd") (bigdir_name i)); dies_if (nonzero r) (line "bigdir link failed")) (seqZ 0 500) ;;
  sys (Unlink (chars "bd")) ;;
  each (λ i, r ← sys (Unlink (bigdir_name i)); dies_if (nonzero r) (chars "bigdir unlink failed")) (seqZ 0 500) ;;
  print (line "bigdir ok").

Definition creates (path : string) : U ut Z := sys (Open (chars path) (Z.lor O_CREATE O_RDWR)).

Definition subdir : U ut unit :=
  print (line "subdir test") ;;
  sys (Unlink (chars "ff")) ;;
  r ← sys (Mkdir (chars "dd")); dies_if (nonzero r) (line "subdir mkdir dd failed") ;;
  fd ← creates "dd/ff"; dies_if (fails fd) (line "create dd/ff failed") ;;
  sys (Write fd (chars "ff")) ;;
  sys (Close fd) ;;
  r ← sys (Unlink (chars "dd")); dies_if (succeeds r) (line "unlink dd (non-empty dir) succeeded!") ;;
  r ← sys (Mkdir (chars "/dd/dd")); dies_if (nonzero r) (line "subdir mkdir dd/dd failed") ;;
  fd ← creates "dd/dd/ff"; dies_if (fails fd) (line "create dd/dd/ff failed") ;;
  sys (Write fd (chars "FF")) ;;
  sys (Close fd) ;;
  fd ← sys (Open (chars "dd/dd/../ff") 0); dies_if (fails fd) (line "open dd/dd/../ff failed") ;;
  cc ← read_buf fd BUFSIZE;
  b ← look (λ s, ut_buf s !!! 0%nat);
  dies_if (differs cc 2 || differs b 102) (line "dd/dd/../ff wrong content") ;;
  sys (Close fd) ;;
  r ← sys (Link (chars "dd/dd/ff") (chars "dd/dd/ffff")); dies_if (nonzero r) (line "link dd/dd/ff dd/dd/ffff failed") ;;
  r ← sys (Unlink (chars "dd/dd/ff")); dies_if (nonzero r) (line "unlink dd/dd/ff failed") ;;
  fd ← sys (Open (chars "dd/dd/ff") O_RDONLY); dies_if (succeeds fd) (line "open (unlinked) dd/dd/ff succeeded") ;;
  r ← sys (Chdir (chars "dd")); dies_if (nonzero r) (line "chdir dd failed") ;;
  r ← sys (Chdir (chars "dd/../../dd")); dies_if (nonzero r) (line "chdir dd/../../dd failed") ;;
  r ← sys (Chdir (chars "dd/../../../dd")); dies_if (nonzero r) (line "chdir dd/../../dd failed") ;;
  r ← sys (Chdir (chars "./..")); dies_if (nonzero r) (line "chdir ./.. failed") ;;
  fd ← sys (Open (chars "dd/dd/ffff") 0); dies_if (fails fd) (line "open dd/dd/ffff failed") ;;
  n ← read_buf fd BUFSIZE; dies_if (differs n 2) (line "read dd/dd/ffff wrong len") ;;
  sys (Close fd) ;;
  fd ← sys (Open (chars "dd/dd/ff") O_RDONLY); dies_if (succeeds fd) (line "open (unlinked) dd/dd/ff succeeded!") ;;
  fd ← creates "dd/ff/ff"; dies_if (succeeds fd) (line "create dd/ff/ff succeeded!") ;;
  fd ← creates "dd/xx/ff"; dies_if (succeeds fd) (line "create dd/xx/ff succeeded!") ;;
  fd ← sys (Open (chars "dd") O_CREATE); dies_if (succeeds fd) (line "create dd succeeded!") ;;
  fd ← sys (Open (chars "dd") O_RDWR); dies_if (succeeds fd) (line "open dd rdwr succeeded!") ;;
  fd ← sys (Open (chars "dd") O_WRONLY); dies_if (succeeds fd) (line "open dd wronly succeeded!") ;;
  r ← sys (Link (chars "dd/ff/ff") (chars "dd/dd/xx")); dies_if (zero r) (line "link dd/ff/ff dd/dd/xx succeeded!") ;;
  r ← sys (Link (chars "dd/xx/ff") (chars "dd/dd/xx")); dies_if (zero r) (line "link dd/xx/ff dd/dd/xx succeeded!") ;;
  r ← sys (Link (chars "dd/ff") (chars "dd/dd/ffff")); dies_if (zero r) (line "link dd/ff dd/dd/ffff succeeded!") ;;
  r ← sys (Mkdir (chars "dd/ff/ff")); dies_if (zero r) (line "mkdir dd/ff/ff succeeded!") ;;
  r ← sys (Mkdir (chars "dd/xx/ff")); dies_if (zero r) (line "mkdir dd/xx/ff succeeded!") ;;
  r ← sys (Mkdir (chars "dd/dd/ffff")); dies_if (zero r) (line "mkdir dd/dd/ffff succeeded!") ;;
  r ← sys (Unlink (chars "dd/xx/ff")); dies_if (zero r) (line "unlink dd/xx/ff succeeded!") ;;
  r ← sys (Unlink (chars "dd/ff/ff")); dies_if (zero r) (line "unlink dd/ff/ff succeeded!") ;;
  r ← sys (Chdir (chars "dd/ff")); dies_if (zero r) (line "chdir dd/ff succeeded!") ;;
  r ← sys (Chdir (chars "dd/xx")); dies_if (zero r) (line "chdir dd/xx succeeded!") ;;
  r ← sys (Unlink (chars "dd/dd/ffff")); dies_if (nonzero r) (line "unlink dd/dd/ff failed") ;;
  r ← sys (Unlink (chars "dd/ff")); dies_if (nonzero r) (line "unlink dd/ff failed") ;;
  r ← sys (Unlink (chars "dd")); dies_if (zero r) (line "unlink non-empty dd succeeded!") ;;
  r ← sys (Unlink (chars "dd/dd")); dies_if (fails r) (line "unlink dd/dd failed") ;;
  r ← sys (Unlink (chars "dd")); dies_if (fails r) (line "unlink dd failed") ;;
  print (line "subdir ok").

(** [for(sz = 499; sz < 12*512; sz += 471)]: there are thirteen sizes. *)
Definition bigwrite : U ut unit :=
  print (line "bigwrite test") ;;
  sys (Unlink (chars "bigwrite")) ;;
  each (λ j,
    let sz := 499 + 471 * j in
    fd ← creates "bigwrite"; dies_if (fails fd) (line "cannot create bigwrite") ;;
    each (λ _,
      cc ← write_buf fd sz;
      if differs cc sz then printf (λ _, []) 1 (line "write(%d) ret %d") [sz; cc] ;; exit else mret tt) (seqZ 0 2) ;;
    sys (Close fd) ;;
    sys (Unlink (chars "bigwrite")) ;; mret tt) (seqZ 0 ((12 * 512 - 499 + 470) / 471)) ;;
  print (line "bigwrite ok").

Fixpoint bigfile_read (rounds : nat) (fd i total : Z) : U ut Z :=
  cc ← read_buf fd 300;
  dies_if (fails cc) (line "read bigfile failed") ;;
  if decide (cc = 0) then mret total else
  dies_if (differs cc 300) (line "short read bigfile") ;;
  b ← look ut_buf;
  dies_if (differs (b !!! 0%nat) (i / 2) || differs (b !!! 299%nat) (i / 2)) (line "read bigfile wrong data") ;;
  match rounds with O => hang | S r => bigfile_read r fd (i + 1) (total + cc) end.

Definition bigfile (rounds : nat) : U ut unit :=
  print (line "bigfile test") ;;
  sys (Unlink (chars "bigfile")) ;;
  fd ← creates "bigfile"; dies_if (fails fd) (chars "cannot create bigfile") ;;
  each (λ i,
    change (set_buf (put_at 0 (replicate 600 i))) ;;
    n ← write_buf fd 600; dies_if (differs n 600) (line "write bigfile failed")) (seqZ 0 20) ;;
  sys (Close fd) ;;
  fd ← sys (Open (chars "bigfile") 0); dies_if (fails fd) (line "cannot open bigfile") ;;
  total ← bigfile_read rounds fd 0 0;
  sys (Close fd) ;;
  dies_if (differs total (20 * 600)) (line "read bigfile wrong total") ;;
  sys (Unlink (chars "bigfile")) ;;
  print (line "bigfile test ok").

Definition fourteen : U ut unit :=
  print (line "fourteen test") ;;
  r ← sys (Mkdir (chars "12345678901234")); dies_if (nonzero r) (line "mkdir 12345678901234 failed") ;;
  r ← sys (Mkdir (chars "12345678901234/123456789012345"));
  dies_if (nonzero r) (line "mkdir 12345678901234/123456789012345 failed") ;;
  fd ← sys (Open (chars "123456789012345/123456789012345/123456789012345") O_CREATE);
  dies_if (fails fd) (line "create 123456789012345/123456789012345/123456789012345 failed") ;;
  sys (Close fd) ;;
  fd ← sys (Open (chars "12345678901234/12345678901234/12345678901234") 0);
  dies_if (fails fd) (line "open 12345678901234/12345678901234/12345678901234 failed") ;;
  sys (Close fd) ;;
  r ← sys (Mkdir (chars "12345678901234/12345678901234"));
  dies_if (zero r) (line "mkdir 12345678901234/12345678901234 succeeded!") ;;
  r ← sys (Mkdir (chars "123456789012345/12345678901234"));
  dies_if (zero r) (line "mkdir 12345678901234/123456789012345 succeeded!") ;;
  print (line "fourteen ok").

Definition rmdot : U ut unit :=
  print (line "rmdot test") ;;
  r ← sys (Mkdir (chars "dots")); dies_if (nonzero r) (line "mkdir dots failed") ;;
  r ← sys (Chdir (chars "dots")); dies_if (nonzero r) (line "chdir dots failed") ;;
  r ← sys (Unlink (chars ".")); dies_if (zero r) (line "rm . worked!") ;;
  r ← sys (Unlink (chars "..")); dies_if (zero r) (line "rm .. worked!") ;;
  r ← sys (Chdir (chars "/")); dies_if (nonzero r) (line "chdir / failed") ;;
  r ← sys (Unlink (chars "dots/.")); dies_if (zero r) (line "unlink dots/. worked!") ;;
  r ← sys (Unlink (chars "dots/..")); dies_if (zero r) (line "unlink dots/.. worked!") ;;
  r ← sys (Unlink (chars "dots")); dies_if (nonzero r) (line "unlink dots failed!") ;;
  print (line "rmdot ok").

Definition dirfile : U ut unit :=
  print (line "dir vs file") ;;
  fd ← sys (Open (chars "dirfile") O_CREATE); dies_if (fails fd) (line "create dirfile failed") ;;
  sys (Close fd) ;;
  r ← sys (Chdir (chars "dirfile")); dies_if (zero r) (line "chdir dirfile succeeded!") ;;
  fd ← sys (Open (chars "dirfile/xx") 0); dies_if (succeeds fd) (line "create dirfile/xx succeeded!") ;;
  fd ← sys (Open (chars "dirfile/xx") O_CREATE); dies_if (succeeds fd) (line "create dirfile/xx succeeded!") ;;
  r ← sys (Mkdir (chars "dirfile/xx")); dies_if (zero r) (line "mkdir dirfile/xx succeeded!") ;;
  r ← sys (Unlink (chars "dirfile/xx")); dies_if (zero r) (line "unlink dirfile/xx succeeded!") ;;
  r ← sys (Link (chars "README") (chars "dirfile/xx")); dies_if (zero r) (line "link to dirfile/xx succeeded!") ;;
  r ← sys (Unlink (chars "dirfile")); dies_if (nonzero r) (line "unlink dirfile failed!") ;;
  fd ← sys (Open (chars ".") O_RDWR); dies_if (succeeds fd) (line "open . for writing succeeded!") ;;
  fd ← sys (Open (chars ".") 0);
  n ← sys (Write fd (chars "x")); dies_if (bool_decide (n > 0)) (line "write . succeeded!") ;;
  sys (Close fd) ;;
  print (line "dir vs file OK").

(** The 50 is NINODE. *)
Definition iref : U ut unit :=
  print (line "empty file name") ;;
  each (λ _,
    r ← sys (Mkdir (chars "irefd")); dies_if (nonzero r) (line "mkdir irefd failed") ;;
    r ← sys (Chdir (chars "irefd")); dies_if (nonzero r) (line "chdir irefd failed") ;;
    sys (Mkdir []) ;;
    sys (Link (chars "README") []) ;;
    fd ← sys (Open [] O_CREATE);
    (if succeeds fd then sys (Close fd) ;; mret tt else mret tt) ;;
    fd ← sys (Open (chars "xx") O_CREATE);
    (if succeeds fd then sys (Close fd) ;; mret tt else mret tt) ;;
    sys (Unlink (chars "xx")) ;; mret tt) (seqZ 0 (50 + 1)) ;;
  sys (Chdir (chars "/")) ;;
  print (line "empty file name OK").

(** [for(n=0; n<1000; n++)]: [left] rounds are left; the result is [n]. *)
Fixpoint forktest_fork {S : Type} (left : nat) (n : Z) : U S Z :=
  match left with
  | O => mret n
  | S l =>
      pid ← sys Fork;
      if decide (pid < 0) then mret n else
      if decide (pid = 0) then exit else forktest_fork l (n + 1)
  end.

(** [for(; n > 0; n--)] *)
Fixpoint forktest_wait {S : Type} (print : list Z → U S unit) (n : nat) : U S unit :=
  match n with
  | O => mret tt
  | S n' =>
      r ← sys Wait;
      (if fails r then print (line "wait stopped early") ;; exit else mret tt) ;;
      forktest_wait print n'
  end.

Definition forktest : U ut unit :=
  print (line "fork test") ;;
  n ← forktest_fork 1000 0;
  dies_if (zero (n - 1000)) (line "fork claimed to work 1000 times!") ;;
  forktest_wait print (Z.to_nat n) ;;
  r ← sys Wait; dies_if (differs r (-1)) (line "wait got too many") ;;
  print (line "fork test OK").

(** [sbrk(n)] and what it leaves in the program's memory: the pages that are new are
    zero.  A program that reads the kernel's memory is ended by the trap. *)
Definition sbrk (n : Z) : U mem Z :=
  r ← sys (Sbrk (s32 n));
  (if decide (r ≠ u32 (-1) ∧ 0 < s32 n) then
     change (λ m a, if decide (PGROUNDUP r <= a < PGROUNDUP (r + s32 n)) then 0 else m a)
   else mret tt) ;;
  mret (u32 r).
Definition load (a : Z) : U mem Z := if decide (KERNBASE <= a) then exit else look (λ m, m a).

Definition BIG : Z := 100 * 1024 * 1024.

Fixpoint sbrktest_bytes (n : nat) (i a : Z) : U mem Z :=
  match n with
  | O => mret a
  | S n' =>
      b ← sbrk 1;
      (if differs b a then printf (λ _, []) 1 (line "sbrk test failed %d %x %x") [i; a; b] ;; exit else mret tt) ;;
      change (<[b := 1]>) ;;
      sbrktest_bytes n' (i + 1) (u32 (b + 1))
  end.

(** [for(;;) sleep(1000);] *)
Fixpoint sit_around {S : Type} (rounds : nat) : U S unit :=
  sys (Sleep 1000) ;;
  match rounds with O => hang | S r => sit_around r end.

Fixpoint sbrktest_fork (n : nat) (rounds : nat) (fd0 fd1 : Z) : U mem (list Z) :=
  match n with
  | O => mret []
  | S n' =>
      pid ← sys Fork;
      (if decide (pid = 0) then
         b ← sbrk 0; sbrk (BIG - b) ;;
         sys (Write fd1 (chars "x")) ;;
         sit_around rounds
       else mret tt) ;;
      (if differs pid (-1) then sys (Read fd0 1) ;; mret tt else mret tt) ;;
      pids ← sbrktest_fork n' rounds fd0 fd1; mret (pid :: pids)
  end.

Definition sbrktest (rounds : nat) : U mem unit :=
  print (line "sbrk test") ;;
  oldbrk ← sbrk 0;
  a ← sbrk 0;
  a ← sbrktest_bytes 5000 0 a;
  pid ← sys Fork;
  dies_if (fails pid) (line "sbrk test fork failed") ;;
  sbrk 1 ;;
  c ← sbrk 1;
  dies_if (differs c (u32 (a + 1))) (line "sbrk test failed post-fork") ;;
  (if decide (pid = 0) then exit else mret tt) ;;
  sys Wait ;;
  a ← sbrk 0;
  p ← sbrk (u32 (BIG - a));
  dies_if (differs p a) (line "sbrk test failed to grow big address space; enough phys mem?") ;;
  let lastaddr := BIG - 1 in
  change (<[lastaddr := 99]>) ;;
  a ← sbrk 0;
  c ← sbrk (-4096);
  dies_if (zero (c - 0xffffffff)) (line "sbrk could not deallocate") ;;
  c ← sbrk 0;
  (if differs c (u32 (a - 4096)) then
     printf (λ _, []) 1 (line "sbrk deallocation produced wrong address, a %x c %x") [a; c] ;; exit else mret tt) ;;
  a ← sbrk 0;
  c ← sbrk 4096;
  bad ← (if differs c a then mret true else b ← sbrk 0; mret (differs b (u32 (a + 4096))));
  (if bad : bool then printf (λ _, []) 1 (line "sbrk re-allocation failed, a %x c %x") [a; c] ;; exit else mret tt) ;;
  v ← load lastaddr;
  dies_if (zero (v - 99)) (line "sbrk de-allocation didn't really deallocate") ;;
  a ← sbrk 0;
  b ← sbrk 0;
  c ← sbrk (- (b - oldbrk));
  (if differs c a then printf (λ _, []) 1 (line "sbrk downsize failed, a %x c %x") [a; c] ;; exit else mret tt) ;;
  each (λ i,
    let a := KERNBASE + 50000 * i in
    ppid ← sys Getpid;
    pid ← sys Fork;
    dies_if (fails pid) (line "fork failed") ;;
    (if decide (pid = 0) then
       v ← load a;
       printf (λ _, []) 1 (line "oops could read %x = %x") [a; v] ;; sys (Kill ppid) ;; exit
     else mret tt) ;;
    sys Wait ;; mret tt) (seqZ 0 (2000000 / 50000)) ;;
  fds ← sys PipeCall;
  dies_if (negb (bool_decide (is_Some fds))) (line "pipe() failed") ;;
  let '(fd0, fd1) := default (0, 0) fds in
  pids ← sbrktest_fork 10 rounds fd0 fd1;
  c ← sbrk 4096;
  each (λ pid, if decide (pid = -1) then mret tt else sys (Kill pid) ;; sys Wait ;; mret tt) pids ;;
  dies_if (zero (c - 0xffffffff)) (line "failed sbrk leaked memory") ;;
  b ← sbrk 0;
  (if decide (b > oldbrk) then b ← sbrk 0; sbrk (- (b - oldbrk)) ;; mret tt else mret tt) ;;
  print (line "sbrk test OK").

(** A test with data of its own, which later tests do not use. *)
Definition with_data {T : Type} (m : U T unit) (t : T) : U ut unit := λ s, prog_bind (m t) (λ _, Done (tt, s)).

Section validate.
(** The call of sleep with a stack pointer that need not be valid, and the string the
    program's memory holds at an address. *)
Context (validateint : Z → U ut unit) (text : Z → list Z).

Definition validatetest : U ut unit :=
  print (line "validate test") ;;
  let hi := 1100 * 1024 in
  each (λ i,
    let p := 4096 * i in
    pid ← sys Fork;
    (if decide (pid = 0) then validateint p ;; exit else mret tt) ;;
    sys (Sleep 0) ;;
    sys (Sleep 0) ;;
    sys (Kill pid) ;;
    sys Wait ;;
    r ← sys (Link (chars "nosuchfile") (text p));
    dies_if (differs r (-1)) (line "link should not succeed")) (seqZ 0 (hi / 4096 + 1)) ;;
  print (line "validate ok").
End validate.

(** [char uninit[10000];] *)
Definition uninit : list Z := replicate (Z.to_nat 10000) 0.
Definition bsstest : U ut unit :=
  print (line "bss test") ;;
  each (λ c, dies_if (nonzero c) (line "bss test failed")) uninit ;;
  print (line "bss test ok").

Definition bigargs : list (list Z) := replicate (32 - 1) (line "bigargs test: failed" ++ replicate 199 32).
Definition bigargtest : U ut unit :=
  sys (Unlink (chars "bigarg-ok")) ;;
  pid ← sys Fork;
  (if decide (pid = 0) then
     print (line "bigarg test") ;;
     sys (ExecCall (chars "echo") bigargs) ;;
     print (line "bigarg test ok") ;;
     fd ← sys (Open (chars "bigarg-ok") O_CREATE);
     sys (Close fd) ;;
     exit
   else dies_if (fails pid) (line "bigargtest: fork failed")) ;;
  sys Wait ;;
  fd ← sys (Open (chars "bigarg-ok") 0); dies_if (fails fd) (line "bigarg test failed!") ;;
  sys (Close fd) ;;
  sys (Unlink (chars "bigarg-ok")) ;; mret tt.

Definition fsfull_name (nfiles : Z) : list Z :=
  [102; 48 + nfiles / 1000; 48 + (nfiles mod 1000) / 100; 48 + (nfiles mod 100) / 10; 48 + nfiles mod 10].

(** [while(1)] of the writes; the result is [total]. *)
Fixpoint fsfull_write (rounds : nat) (fd total : Z) : U ut Z :=
  cc ← write_buf fd 512;
  if decide (cc < 512) then mret total else
  match rounds with O => hang | S r => fsfull_write r fd (total + cc) end.

(** [for(nfiles = 0; ; nfiles++)]: the result is [nfiles]. *)
Fixpoint fsfull_fill (n rounds : nat) (nfiles : Z) : U ut Z :=
  let file := fsfull_name nfiles in
  printf (λ _, file) 1 (line "writing %s") [1] ;;
  fd ← sys (Open file (Z.lor O_CREATE O_RDWR));
  if decide (fd < 0) then printf (λ _, file) 1 (line "open %s failed") [1] ;; mret nfiles else
  total ← fsfull_write rounds fd 0;
  printf (λ _, []) 1 (line "wrote %d bytes") [total] ;;
  sys (Close fd) ;;
  if decide (total = 0) then mret nfiles else
  match n with O => hang | S n' => fsfull_fill n' rounds (nfiles + 1) end.

Definition fsfull (rounds : nat) : U ut unit :=
  print (line "fsfull test") ;;
  nfiles ← fsfull_fill rounds rounds 0;
  each (λ n, sys (Unlink (fsfull_name n)) ;; mret tt) (reverse (seqZ 0 (nfiles + 1))) ;;
  print (line "fsfull test finished").

(** [randstate] before and after; the result is its new value. *)
Definition rand (randstate : Z) : Z := u32 (randstate * 1664525 + 1013904223).

Section main.
(** Where the allocator's list begins, and the rounds of the loops over files. *)
Context (validateint : Z → U ut unit) (text : Z → list Z) (base : Z) (rounds : nat).

(** The tests, in the order in which [main] calls them. *)
Definition tests : list (U ut unit) := [
  createdelete; linkunlink; concreate rounds; fourfiles rounds; sharedfd rounds; bigargtest; bigwrite;
  bigargtest; bsstest; with_data (sbrktest rounds) (λ _, 0); validatetest validateint text;
  opentest; writetest; writetest1; createtest; openiputtest; exitiputtest; iputtest;
  with_data (mem_test base rounds) (Arena (λ _, 0) (λ _, 0) 0, λ _, 0); pipe1 rounds; preempt; exitwait;
  rmdot; fourteen; bigfile rounds; subdir; linktest; unlinkread; dirfile; iref; forktest; bigdir;
  exectest
].

Definition main : U ut unit :=
  print (line "usertests starting") ;;
  fd ← sys (Open (chars "usertests.ran") 0);
  dies_if (succeeds fd) (line "already ran user tests -- rebuild fs.img") ;;
  fd ← sys (Open (chars "usertests.ran") O_CREATE);
  sys (Close fd) ;;
  each id tests ;;
  exit.
End main.

End Usertests.

(** ** forktest.c *)
Module Forktest.

(** Its own [printf] writes the string at once. *)
Definition printf (fd : Z) (s : list Z) : U unit unit := sys (Write fd s) ;; mret tt.

Definition forktest : U unit unit :=
  printf 1 (line "fork test") ;;
  n ← Usertests.forktest_fork 1000 0;
  (if decide (n = 1000) then printf 1 (line "fork claimed to work N times!") ;; exit else mret tt) ;;
  Usertests.forktest_wait (printf 1) (Z.to_nat n) ;;
  r ← sys Wait;
  (if decide (r ≠ -1) then printf 1 (line "wait got too many") ;; exit else mret tt) ;;
  printf 1 (line "fork test OK").

Definition main : U unit unit := forktest ;; exit.
End Forktest.

(** ** stressfs.c *)
Module Stressfs.

(** [for(i = 0; i < 4; i++) if(fork() > 0) break;] *)
Fixpoint forks (left : nat) (i : Z) : U unit Z :=
  match left with
  | O => mret i
  | S l => pid ← sys Fork; if decide (pid > 0) then mret i else forks l (i + 1)
  end.

Definition main : U unit unit :=
  print (line "stressfs starting") ;;
  i ← forks 4 0;
  printf (λ _, []) 1 (line "write %d") [i] ;;
  let path := chars "stressfs" ++ [48 + i] in
  fd ← sys (Open path (Z.lor O_CREATE O_RDWR));
  each (λ _, sys (Write fd (replicate 512 97)) ;; mret tt) (seqZ 0 20) ;;
  sys (Close fd) ;;
  print (line "read") ;;
  fd ← sys (Open path O_RDONLY);
  each (λ _, sys (Read fd 512) ;; mret tt) (seqZ 0 20) ;;
  sys (Close fd) ;;
  sys Wait ;;
  exit.
End Stressfs.

(** ** sanity.c *)
Module Sanity.

(** [while (n-- > 0)]; a child only uses up time before it exits. *)
Fixpoint children {S : Type} (n : nat) : U S unit :=
  match n with
  | O => mret tt
  | S n' =>
      pid ← sys Fork;
      (if decide (pid = 0) then
         me ← sys Getpid;
         sys (Priority (Z.rem me 3)) ;;
         exit
       else mret tt) ;;
      children n'
  end.

Definition report : list Z :=
  line "pid: %d | ctime: %d | ttime: %d | stime: %d | retime: %d | rutime: %d".

(** [while (++n < 20)]: the sums, and the structure the calls fill, which keeps what it
    had when there is no child left. *)
Fixpoint collect {S : Type} (n : nat) (perf : perf_t) (toWait toRun toTurnaround : Z) : U S (Z * Z * Z) :=
  match n with
  | O => mret (toWait, toRun, toTurnaround)
  | S n' =>
      r ← sys WaitStat;
      let '(pid, perf) := default (-1, perf) r in
      printf (λ _, []) 1 report [pid; pf_ctime perf; pf_ttime perf; pf_stime perf; pf_retime perf; pf_rutime perf] ;;
      collect n' perf (s32 (toWait + pf_retime perf)) (s32 (toRun + pf_rutime perf))
        (s32 (toTurnaround + (pf_ttime perf - pf_ctime perf + pf_stime perf)))
  end.

(** The allocation of the structure is a step of the allocator. *)
Definition main (base : Z) (rounds : nat) : U arena unit :=
  print (line "Please wait......") ;;
  sys (Priority 2) ;;
  children 20 ;;
  Umalloc.malloc base rounds 20 ;;
  sums ← collect 20 (PerfT 0 0 0 0 0) 0 0 0;
  let '(toWait, toRun, toTurnaround) := sums : Z * Z * Z in
  printf (λ _, []) 1 (line "Avg waiting time: %d" ++ line " Avg running time: %d" ++ line " Avg turnaround time: %d ")
    [Z.quot toWait 20; Z.quot toRun 20; Z.quot toTurnaround 20] ;;
  exit.
End Sanity.

(** ** test.c *)
Module TestSignals.

(** The handler, whose address the program passes to [signal]. *)
Definition test {S : Type} (num : Z) : U S unit :=
  pid ← sys Getpid;
  printf (λ _, []) 1 (line "recieved from %d signal %d") [pid; num].

Definition main {S : Type} (test_addr : Z) : U S unit :=
  each (λ i, sys (Signal i test_addr) ;; mret tt) (seqZ 0 32) ;;
  each (λ j, pid ← sys Getpid; sys (Sigsend pid j) ;; mret tt) (seqZ 0 32) ;;
  exit.
End TestSignals.
