(* ===== verification/UnixSpec.v ===== *)
(** * The programs on the specified system

    The test suite of the repository and a session with the shell, run on the machine of
    [Unix]: what is on the screen in the end. *)

From stdpp Require Import base list gmap strings.
From Stdlib Require Import ZArith Lia.
From S2P Require Import Prelude KState CString Cprintf User Progs Grep Sh Umalloc Unix Usertests.

(** ** The programs of the root directory *)

(** The memory of a program that has its arguments one behind the other from [a] on,
    and their addresses. *)
Fixpoint lay_out (a : Z) (args : list (list Z)) (m : mem) : mem * list Z :=
  match args with
  | [] => (m, [])
  | s :: args' =>
      let '(m, addrs) := lay_out (a + Z.of_nat (length s) + 1) args' (array_at a (s ++ [0]) m) in
      (m, a :: addrs)
  end.

(** The constant strings of a program are at 16 (a blank), 24 (a newline), 32 (the
    empty string) and 40 (a dot), its buffers at 1024 and its arguments from 4096 on. *)
Definition image_of (main : list Z → U mem unit) (argv : list (list Z)) : prog unit :=
  let '(m, addrs) := lay_out 4096 argv (array_at 16 [32; 0] (array_at 24 [10; 0] (array_at 40 [46; 0] (λ _, 0)))) in
  program (main addrs) m.

Definition ROUNDS : nat := 1000.
Definition programs : list (list Z * (list Z → U mem unit)) := [
  (chars "echo", Echo.main 16 24); (chars "cat", Cat.main 1024 ROUNDS); (chars "wc", Wc.main 1024 32 ROUNDS);
  (chars "grep", Grep.main 1024 ROUNDS ROUNDS); (chars "ls", Ls.main 1024 1040 1552 40 ROUNDS); (chars "mkdir", Mkdir.main);
  (chars "ln", Ln.main); (chars "rm", Rm.main)].

(** The file of a program holds its number. *)
Definition code_of (data : list Z) (argv : list (list Z)) : option (prog unit) :=
  match data with
  | [i] => p ← programs !! Z.to_nat i; Some (image_of p.2 argv)
  | _ => None
  end.

Definition root : list (list Z * list Z) :=
  imap (λ i p, (p.1, [Z.of_nat i])) programs ++ [(chars "README", line "xv6 is a re-implementation")].

(** ** The shell *)

(** The screen after the shell has run the lines of [input]; its buffer is at 512. *)
Definition session (flag : schedflag) (input : list string) : option (list Z) :=
  screen (operate code_of 100000 id (Z.to_nat 1000000)
    (boot root (input ≫= line) (program (Sh.main flag ROUNDS 512) (Shell (λ _, 0) [])))).

(** The shell with the programs it starts, on the specified system: redirection,
    pipes, lists, blocks and changes of directory do what they should, a file stays
    when one of its names is removed, and errors are reported. *)
Theorem shell_session :
  session DEFAULT [
    "echo hello world > f"; "cat f | wc"; "mkdir d ; ln f d/g"; "cat < d/g"; "grep w.*d f";
    "(echo one ; echo two) | cat"; "cd d"; "/ls"; "cd /"; "rm f"; "cat f"; "cat d/g"; "nosuch"]%string
  = Some ((["RUNNING DEFAULT SCHEDULER";
    "$ $ 1 2 12 ";
    "$ $ hello world";
    "$ hello world";
    "$ one"; "two";
    "$ $ .              1 13 48"; "..             1 1 224"; "g              2 12 12";
    "$ $ $ cat: cannot open f";
    "$ hello world";
    "$ exec nosuch failed"]%string ≫= line) ++ chars "$ ").
Proof. vm_compute. reflexivity. Qed.

(** ** The test suite *)

(** The screen after the program [m] of usertests.c has run. *)
Definition test_screen (memory : Z) (m : U ut unit) : option (list Z) :=
  screen (operate code_of memory id (Z.to_nat 1000000) (boot root [] (program m ut0))).

Definition suite : list (U ut unit) := Usertests.tests (λ _, mret tt) (λ _, []) 64 3000.

(** Those of the tests that work on little data: all but sharedfd, sbrktest, writetest1
    and mem. *)
Definition small_tests : list (U ut unit) := delete 4%nat (delete 9%nat (delete 13%nat (delete 18%nat suite))).

Definition small_lines : list string := [
  "createdelete test"; "createdelete ok"; "linkunlink test"; "linkunlink ok"; "concreate test"; "concreate ok";
  "fourfiles test"; "fourfiles ok"; "bigarg test"; "bigarg test ok"; "bigwrite test"; "bigwrite ok";
  "bigarg test"; "bigarg test ok"; "bss test"; "bss test ok"; "validate test"; "validate ok";
  "open test"; "open test ok"; "small file test"; "creat small succeeded; ok"; "writes ok";
  "open small succeeded ok"; "read succeeded ok"; "small file test ok";
  "many creates, followed by unlink test"; "many creates, followed by unlink; ok";
  "openiput test"; "openiput test ok"; "exitiput test"; "exitiput test ok"; "iput test"; "iput test ok";
  "pipe1 ok"; "preempt: kill... wait... preempt ok"; "exitwait ok"; "rmdot test"; "rmdot ok";
  "fourteen test"; "fourteen ok"; "bigfile test"; "bigfile test ok"; "subdir test"; "subdir ok";
  "linktest"; "linktest ok"; "unlinkread test"; "unlinkread ok"; "dir vs file"; "dir vs file OK";
  "empty file name"; "empty file name OK"; "fork test"; "fork test OK"; "bigdir test"; "bigdir ok";
  "exec test"; "ALL TESTS PASSED"]%string.


(** The names in the root directory. *)
Definition root_names (u : unix) : list (list Z) :=
  match nd_content <$> ux_nodes u !! Fs.ROOTINO with
  | Some (Folder slots) => snd <$> filter (λ s, s.1 ≠ 0) slots
  | _ => []
  end.

(** createdelete means to remove the files it made, but its last loop takes both
    characters of a name from the number of the outer loop: of 44 files that are there
    before it, 43 are left. *)
Lemma createdelete_leaves_files :
  (λ u, length (filter (λ n, n ∉ (chars <$> ["."; ".."; "console"]%string) ++ root.*1) (root_names u))) <$>
    operate code_of 110000000 id (Z.to_nat 1000000) (boot root [] (program Usertests.createdelete ut0)) = Some 43%nat.
Proof. vm_compute. reflexivity. Qed.
